(* ===== verification/_CoqProject ===== *)
-Q . S2P
Prelude.v
GoStrings.v
GoBase64.v
GoHex.v
Levenshtein.v
Glob.v
HttpCodes.v
RegContext.v
StorageTypes.v
MemState.v
MemStore.v
MemInvariant.v
MemStoreFacts.v
MemDelete.v
MemSteps.v
MemQueries.v
MemKeys.v
StorageIface.v
MemRefines.v
Rules.v
RegistryConfig.v
RegistryMeta.v
RegistryRefs.v
Compat.v
RegistrySchemas.v
RegistryOps.v
ProgLogic.v
RegistryFacts.v
RegistryDelete.v
RegistryImport.v
RegistryKeys.v
RegistryKeysFacts.v
Rbac.v
Procs.v
MemUsers.v
AuthService.v
AuthInvariant.v
AuthSafe.v
AuthFacts.v
AuthLogins.v
Ldap.v
Authenticator.v
AdminHandlers.v
ProtoCompat.v
ProtoFacts.v
GoFloat.v
GoJson.v
JsonValue.v
ProtoParser.v
ProtoParserFacts.v
Analysis.v
RateLimit.v
AuditRecords.v
AuditLog.v
GoJsonFacts.v
JsonText.v
AvroParser.v
AvroParserFacts.v
JsonCompat.v
JsonRules.v
JsonFacts.v
JsonSchema.v
JsonParser.v
JsonRegistry.v
Http.v
HandlersRead.v
HandlersWrite.v
HandlersConfig.v
HandlersAnalysis.v
HandlersAnalysisFacts.v
HandlersKeys.v
HandlersFacts.v
HandlersRegister.v
HandlersKeysFacts.v
AvroCompat.v
AvroFacts.v
AvroData.v
McpPolicy.v
McpTools.v
McpFacts.v
