(* ===== verification/Prelude.v ===== *)
(** * AxonOps Schema Registry: a verification library

    The registry (a Go server under src/) stores schemas by subject and version,
    hands out schema IDs, checks new schemas for compatibility with old ones and
    keeps who may do what.  This library is a shallow embedding of its core: Go
    functions are Rocq functions over records that keep the Go structs' fields,
    Go errors are values of [result], and everything is executable.

    ** How the program is put together, and which file models which part

    - Contexts (internal/context, the URL middleware and context helpers of
      internal/api): RegContext.  A subject may name its context,
      [":.Tenant:orders"]; every operation below is scoped to one.
    - The data and the storage interface (internal/storage/storage.go):
      StorageTypes (records and sentinel errors) and StorageIface.  The registry
      reaches its storage through a Go interface only; [call] is the type of its
      methods, the class [Storage] that of the backends, and a [prog] a piece of
      registry code, a tree of calls.  Other clients may act between two calls of
      a [prog] only where a file says so ([run] is one client alone).
    - The in-memory backend (internal/storage/memory/store.go): MemState (the
      struct), MemStore (schemas, subjects, configuration, modes, sequences),
      MemKeys (KEKs, DEKs, exporters), MemUsers (users and API keys, whose records
      the backend shares with its callers, hence heaps and addresses).  Its mutex
      makes each operation one atomic step.
    - The registry service (internal/registry): RegistryConfig (configuration and
      mode fallbacks), RegistryMeta (metadata and rule merging), RegistryRefs
      (references between schemas), RegistrySchemas (registration), RegistryOps
      (import, lookup, deletion, checks), RegistryKeys (encryption keys and
      exporters).  Rules is internal/rules/validator.go.
    - Compatibility (internal/compatibility): Compat (modes and the checker over
      the checkers of each schema type), AvroCompat, ProtoCompat and JsonCompat.  The
      registry's [Registry] record holds the parsers and the checker as functions,
      as the Go struct does.
    - Schemas (internal/schema): JsonParser, AvroParser and ProtoParser are the
      parsers of the three schema types, with their canonical texts and
      fingerprints; JsonRegistry is a registry that has the first.
    - Schema analysis (internal/analysis): Analysis (the fields of a schema,
      casings, similarity, quality) and Levenshtein (edit distance).
    - The HTTP handlers (internal/api/handlers): HttpCodes and Http (error codes,
      requests, responses, pages), HandlersRead, HandlersWrite and HandlersConfig
      (handlers.go), HandlersKeys (dek.go, exporter.go),
      HandlersAnalysis with Glob (analysis.go).  A handler is a [prog] from a
      request whose body is decoded to a response.  AdminHandlers (admin.go) are
      procedures over the authentication service.
    - Who may do what (internal/auth): AuthService (service.go: users, passwords,
      API keys and the two caches), Ldap (ldap.go), Authenticator (auth.go,
      apikey_memory.go, htpasswd.go and the handlers of account.go), Rbac
      (rbac.go and the routes of internal/api/server.go), RateLimit
      (ratelimit.go), AuditRecords (the events of requests and tool calls and their
      texts, audit.go and audit_format.go) and AuditLog (their outputs and queues,
      audit.go, audit_webhook.go, audit_file.go and audit_syslog.go).  The service
      and the limiter are called by many goroutines: their methods are [proc]s of
      atomic actions (Procs); the audit queues are runs of senders and a loop.
    - The MCP server (internal/mcp): McpPolicy (permission scopes, bearer tokens,
      origins), McpTools (the store of confirmation tokens, the tools that ask
      for a confirmation, and registration).
    - Go's library where the code leans on it: GoStrings (strings, strconv),
      GoBase64 and GoHex (encoding/base64, encoding/hex), GoFloat (float64 and how
      it is read and printed), GoJson (encoding/json: values, reading and
      writing).

    This file has 64-bit integers as Go's [int64], ranges over maps, and the
    lemmas and tactics that the other files share.

    ** How nondeterminism and the outside world are written

    An [env] holds what one call cannot decide itself: the clock and the order in
    which Go ranges over a map.  Theorems quantify over it, so they hold for every
    order.  Third-party code is a parameter: the Avro parser ([AvroLib]), the
    Protobuf compiler ([ProtoLib], [ProtoLibrary]), SHA-256, bcrypt and randomness ([Crypto]), a
    KMS provider, an LDAP server, a JWT or OIDC verifier, and the compiler of
    regular expressions.  What the theorems ask of
    one is a hypothesis that names it, and a witness gives a concrete function
    that satisfies it.

    ** What the theorems show

    - The backend: MemInvariant, MemSteps ([reachable_Inv], [contexts_isolated],
      [ids_below_step]) say that versions, contents, fingerprints and indexes
      agree in every store reached while registrations find the next ID unused; MemStoreFacts, MemDelete and MemQueries give
      each operation's result on every branch; MemRefines shows that the backend
      implements an abstract catalogue of subject versions, and that a version
      once registered does not change.
    - The registry: RegistryFacts ([RegisterSchema_spec], [RegisterSchema_total],
      and nothing incompatible is stored), RegistryDelete
      (referential integrity), RegistryImport (ID sequences under import),
      RegistryRefs (references: termination and order), RegistryConfig
      (the fallback chains), RegistryKeysFacts (no plaintext key is stored,
      rewrapping keeps the plaintext).
    - Compatibility: [Compat.Check_spec]; AvroFacts (the checker decides a
      relation that does not mention its code) and AvroData (a schema that is accepted can read the data of the
      other, by the resolution rules of the Avro specification); ProtoFacts (the
      checker ends and decides a simulation); JsonRules and JsonFacts (the checker
      ends, with a verdict that follows rules on pairs of subschemas or a panic on
      patterns it cannot compare) and JsonSchema (a schema that
      is accepted validates the documents of the other, within a fragment).
    - JSON texts and schemas: JsonValue (equality of values), GoJsonFacts,
      JsonText (what is written is read back, numbers and strings
      included), JsonParser (two schemas have one canonical text exactly when
      their documents are equal values), JsonRegistry (formatting is irrelevant to
      registration, lookup and checks), AvroParserFacts (two tidy Avro schemas
      have one canonical text exactly when the same of them counts, the attributes
      of each kind of type and the full names; what the checks after parsing refuse),
      ProtoParserFacts (two Protobuf schemas have one canonical text
      exactly when they declare the same things up to order; when the serialized
      form panics).
    - Analysis: Levenshtein (the distance is the least number of edits),
      Analysis (the walk ends, the order of maps is irrelevant, scores stay
      within their bounds), Glob (the greedy matcher decides what a glob means).
    - The HTTP handlers: HandlersFacts (requests that ask change nothing,
      read-only modes refuse writes, the answer to a request for a version, the
      bounds of pages), HandlersRegister (the answer to a registration says what
      the store then holds), HandlersKeysFacts (a key that is created is served,
      the life cycle of exporters), HandlersAnalysisFacts (analysis requests
      change nothing; the difference of two versions).
    - Authentication: AuthInvariant and AuthSafe (an invariant under every
      interleaving of calls, by a rely-guarantee argument), AuthFacts and
      AuthLogins (keys and passwords over sequences of calls), Authenticator
      (requests), AdminHandlers (the invariant under interleavings of whole requests,
      authentication included), Rbac (write routes ask for their permission),
      RateLimit ([burst_is_counted]: each key has its own burst).
    - The audit trail: AuditRecords (requests that change something are recorded;
      a CEF record is one line that no value can forge), AuditLog (what is
      recorded is written in order or dropped by a full buffer, and closing ends
      with all that was taken written; the webhook's batches and retries).
    - The MCP server: McpFacts (a destructive call needs an earlier dry run of the
      same call, whose token is used once; and a call with such a token goes
      through, whatever comes between).

    Examples next to the theorems run the code on concrete input; several show
    behaviour the code has and its comments deny.

    ** Fuel and bounds

    Recursion that is not structural has a fuel argument, running out of which is
    [None], and a theorem says which fuel suffices.  [RegistryRefs.resolve_fuel] is one more
    than the number of subject versions a reference can name: resolution marks each
    reference before it follows it.  [ProtoCompat.structural_fuel] is one more than
    the number of
    pairs of messages, for the same reason; nested messages recurse on
    their tree.  [JsonCompat.map_depth], the nesting of the new schema, is the fuel of
    the JSON Schema checker, and [JsonValue.depth] that of the walk over its
    properties ([Analysis.walk_fuel]).  ImportSchemas takes
    two more per request.  Integers below 2^53 are exact in float64
    ([GoFloat.of_Z_exact]), which is what bounds [RateLimit.burst_is_counted].  IDs and version numbers are [int64] and wrap; the theorems that
    need it assume that sequences stay below the bound they name, and say so.

    ** What is not modelled, and why

    The SQL, Cassandra and Vault backends (queries whose meaning is the
    database's), the KMS and identity providers (remote services), configuration
    files, metrics and logs (input and output without a decision in it), the
    destinations of audit records, and process start-up.  The exporter engine has no caller and its table of handlers
    is never filled.  Of the MCP server the tools that only read, or write without
    a confirmation, and the resources and prompts are left out: they call the
    operations modelled here or answer with fixed texts. *)
From stdpp Require Export base tactics list gmap strings sorting.
From Stdlib Require Export ZArith Lia.

(** ** Machine integers *)

Module Int64.
Definition min : Z := - 2 ^ 63.
Definition max : Z := 2 ^ 63 - 1.

(** Two's-complement reduction to 64 bits: Go's [int] and [int64] wrap. *)
Definition wrap (z : Z) : Z := (z + 2 ^ 63) mod 2 ^ 64 - 2 ^ 63.

Definition in_range (z : Z) : Prop := (min <= z <= max)%Z.

#[export] Instance in_range_dec z : Decision (in_range z).
Proof. unfold in_range. apply _. Defined.

Lemma wrap_in_range z : in_range (wrap z).
Proof.
  unfold in_range, wrap, min, max.
  pose proof (Z.mod_pos_bound (z + 2 ^ 63) (2 ^ 64)). lia.
Qed.

Lemma wrap_id z : in_range z -> wrap z = z.
Proof.
  unfold in_range, wrap, min, max. intros H.
  rewrite Z.mod_small; lia.
Qed.
End Int64.

(** Go's [x++] on an [int] or [int64]. *)
Abbreviation incr64 z := (Int64.wrap (z + 1)).

(** ** Optional values *)

Definition from_opt {A} (d : A) (o : option A) : A :=
  match o with Some a => a | None => d end.

(** ** The environment of one storage call

    Go leaves open three things that the code reads: the clock, the order in
    which [range] visits a map, and the order [sort.Slice] gives equal keys.
    Every operation that reads one of them takes an [env]; theorems quantify
    over all environments. *)
Record env := Env {
  now : nat -> Z;   (* [now i]: the call's [i]-th reading of the clock *)
  range : forall (K A : Type) (HE : EqDecision K) (HC : Countable K), gmap K A -> list (K * A);
  range_perm : forall (K A : Type) (HE : EqDecision K) (HC : Countable K) (m : gmap K A),
    range K A HE HC m ≡ₚ map_to_list m;
  shuffle : forall (A : Type), list A -> list A;
  shuffle_perm : forall (A : Type) (l : list A), shuffle A l ≡ₚ l
}.
Arguments range e {K A HE HC} m.
Arguments range_perm e {K A HE HC} m.
Arguments shuffle e {A} l.
Arguments shuffle_perm e {A} l.

Section range_lemmas.
Context `{Countable K} {A : Type} (e : env).
Implicit Types m : gmap K A.

Lemma elem_of_range m k a : (k, a) ∈ range e m <-> m !! k = Some a.
Proof. rewrite (range_perm e m). apply elem_of_map_to_list. Qed.

Lemma NoDup_range_fst m : NoDup (map fst (range e m)).
Proof. rewrite (range_perm e m). apply NoDup_fst_map_to_list. Qed.

Lemma find_range_None m (p : K * A -> bool) :
  List.find p (range e m) = None <-> forall k a, m !! k = Some a -> p (k, a) = false.
Proof.
  split.
  - intros Hn k a Hk. apply (find_none _ _ Hn), list_elem_of_In, elem_of_range, Hk.
  - intros Hp. destruct (List.find p _) as [[k a]|] eqn:E; [|done].
    apply find_some in E as [Hin Ht]. apply list_elem_of_In, elem_of_range, Hp in Hin. congruence.
Qed.

Lemma find_range_Some m (p : K * A -> bool) k a :
  List.find p (range e m) = Some (k, a) -> m !! k = Some a /\ p (k, a) = true.
Proof. intros [Hin ?]%find_some. by apply list_elem_of_In, elem_of_range in Hin. Qed.

Lemma existsb_range m (p : K * A -> bool) :
  existsb p (range e m) = true <-> exists k a, m !! k = Some a /\ p (k, a) = true.
Proof.
  rewrite existsb_exists. split.
  - intros ([k a] & Hin%list_elem_of_In%elem_of_range & Hp); eauto.
  - intros (k & a & Hk & Hp). exists (k, a). by rewrite <- list_elem_of_In, elem_of_range.
Qed.

Lemma forallb_range m (p : K * A -> bool) :
  forallb p (range e m) = true <-> forall k a, m !! k = Some a -> p (k, a) = true.
Proof.
  rewrite forallb_forall. split.
  - intros Hp k a Hk. by apply Hp, list_elem_of_In, elem_of_range.
  - intros Hp [k a] Hin%list_elem_of_In%elem_of_range; eauto.
Qed.

Lemma forallb_range_false m (p : K * A -> bool) :
  forallb p (range e m) = false <-> exists k a, m !! k = Some a /\ p (k, a) = false.
Proof.
  split.
  - intros H'. destruct (existsb (fun en => negb (p en)) (range e m)) eqn:Ex.
    + apply existsb_range in Ex as (k & a & ? & Hp). exists k, a. by rewrite negb_true_iff in Hp.
    + exfalso. apply not_true_iff_false in H'. apply H', forallb_range. intros k a Hk.
      destruct (p (k, a)) eqn:Ep; [done|]. apply not_true_iff_false in Ex. destruct Ex.
      apply existsb_range. exists k, a. by rewrite Ep.
  - intros (k & a & Hk & Hp). apply not_true_iff_false. rewrite forallb_range.
    intros Ha. rewrite (Ha _ _ Hk) in Hp. done.
Qed.

(** The keys whose values pass [p], collected by a loop over the map. *)
Definition keys_with m (p : A -> bool) : list K :=
  omap (fun '(k, a) => if p a then Some k else None) (range e m).

Lemma elem_of_keys_with m p k :
  k ∈ keys_with m p <-> exists a, m !! k = Some a /\ p a = true.
Proof.
  unfold keys_with. rewrite list_elem_of_omap. split.
  - intros ([k' a] & Hin & Hk). apply elem_of_range in Hin.
    destruct (p a) eqn:Ep; [|done]. injection Hk as ->. eauto.
  - intros (a & Ha & Hp). exists (k, a). by rewrite elem_of_range, Hp.
Qed.

Lemma NoDup_keys_with m p : NoDup (keys_with m p).
Proof.
  unfold keys_with. pose proof (NoDup_range_fst m) as Hn. revert Hn.
  induction (range e m) as [|[k a] l IH]; intros Hn; [apply NoDup_nil_2|].
  apply NoDup_cons in Hn as [Hk Hn]. simpl. destruct (p a); [|by apply IH].
  apply NoDup_cons. split; [|by apply IH].
  rewrite list_elem_of_omap. intros ([k' a'] & Hin & Hs). destruct (p a'); [|done].
  injection Hs as ->. apply Hk, list_elem_of_fmap. by exists (k, a').
Qed.
End range_lemmas.

(** An environment to evaluate with: a stopped clock, maps in key order. *)
Definition env0 : env := {|
  now := fun _ => 0%Z;
  range := fun K A HE HC m => map_to_list m;
  range_perm := fun K A HE HC m => reflexivity _;
  shuffle := fun A l => l;
  shuffle_perm := fun A l => reflexivity _
|}.

(** Maps visited the other way round. *)
Lemma rev_perm (K A : Type) (HE : EqDecision K) (HC : Countable K) (m : gmap K A) :
  rev (map_to_list m) ≡ₚ map_to_list m.
Proof. symmetry. apply Permutation_rev. Qed.

Definition env_backwards : env :=
  {| env0 with range := fun K A HE HC m => rev (map_to_list m); range_perm := rev_perm |}.
