(* ===== verification/GoStrings.v ===== *)
(** * The parts of Go's [strings] and [strconv] packages the registry uses

    A Go string is a sequence of bytes: [String.string].  Positions are byte
    positions, as in Go. *)
From S2P Require Import Prelude.
From Stdlib Require Import Ascii String DecimalString DecimalPos DecimalZ.
From Stdlib Require Decimal DecimalN.

Local Open Scope string_scope.
#[global] Arguments String.append !_ _ /.

(** ** Slices *)

(** [s[:n]] and [s[n:]] for [n] within bounds. *)
Fixpoint take_str (n : nat) (s : string) : string :=
  match n, s with
  | S n, String c s => String c (take_str n s)
  | _, _ => EmptyString
  end.

Fixpoint drop_str (n : nat) (s : string) : string :=
  match n, s with
  | S n, String _ s => drop_str n s
  | _, _ => s
  end.

(** [strings.HasPrefix(s, p)]. *)
Definition HasPrefix (s p : string) : bool := String.prefix p s.

(** [strings.Index(s, c)] for a one-byte separator; [None] is Go's [-1]. *)
Fixpoint index_byte (c : ascii) (s : string) : option nat :=
  match s with
  | EmptyString => None
  | String d s => if Ascii.eqb d c then Some 0 else S <$> index_byte c s
  end.

Fixpoint contains_byte (c : ascii) (s : string) : bool :=
  match s with
  | EmptyString => false
  | String d s => Ascii.eqb d c || contains_byte c s
  end.

(** [strings.Split(s, c)] for a one-byte separator. *)
Fixpoint Split (s : string) (c : ascii) : list string :=
  match s with
  | EmptyString => [EmptyString]
  | String d s' =>
      if Ascii.eqb d c then EmptyString :: Split s' c
      else match Split s' c with
           | p :: ps => String d p :: ps
           | [] => [String d EmptyString]
           end
  end.

(** [strings.Join(l, sep)]. *)
Fixpoint Join (l : list string) (sep : string) : string :=
  match l with
  | [] => ""
  | [x] => x
  | x :: l => x ++ sep ++ Join l sep
  end.

(** ** White space and case *)

Definition bytes (l : list nat) : string :=
  fold_right (fun n s => String (ascii_of_nat n) s) EmptyString l.

(** The UTF-8 encodings of the code points [unicode.IsSpace] accepts. *)
Definition space_encodings : list string :=
  (bytes <$> [[9]; [10]; [11]; [12]; [13]; [32]; [194; 133]; [194; 160];
              [225; 154; 128]; [226; 128; 168]; [226; 128; 169]; [226; 128; 175];
              [226; 129; 159]; [227; 128; 128]]) ++
  ((fun n => bytes [226; 128; n]) <$> seq 128 11).

Fixpoint find_prefix (ps : list string) (s : string) : option string :=
  match ps with
  | [] => None
  | p :: ps => if HasPrefix s p then Some (drop_str (String.length p) s) else find_prefix ps s
  end.

(** Removes leading members of [ps]; every member is non-empty, so the length
    of [s] bounds the number of rounds. *)
Fixpoint trim_left (ps : list string) (fuel : nat) (s : string) : string :=
  match fuel with
  | 0 => s
  | S fuel => match find_prefix ps s with Some s' => trim_left ps fuel s' | None => s end
  end.

Fixpoint rev_string_app (s acc : string) : string :=
  match s with
  | EmptyString => acc
  | String c s => rev_string_app s (String c acc)
  end.
Definition rev_string (s : string) : string := rev_string_app s EmptyString.

(** [strings.TrimSpace]. *)
Definition TrimSpace (s : string) : string :=
  let l := trim_left space_encodings (String.length s) s in
  rev_string (trim_left (rev_string <$> space_encodings) (String.length l) (rev_string l)).

Definition upper_byte (c : ascii) : ascii :=
  let n := nat_of_ascii c in
  if (97 <=? n)%nat && (n <=? 122)%nat then ascii_of_nat (n - 32) else c.

(** [strings.ToUpper] as far as the registry can tell: ASCII letters, and the
    only two other code points whose upper case is an ASCII letter (U+0131, the
    dotless i, and U+017F, the long s).  The remaining non-ASCII letters map to
    non-ASCII letters, which no name the registry knows contains. *)
Fixpoint ToUpper (s : string) : string :=
  match s with
  | EmptyString => EmptyString
  | String c (String d s' as t) =>
      if Ascii.eqb c "196" && Ascii.eqb d "177" then String "I" (ToUpper s')
      else if Ascii.eqb c "197" && Ascii.eqb d "191" then String "S" (ToUpper s')
      else String (upper_byte c) (ToUpper t)
  | String c EmptyString => String (upper_byte c) EmptyString
  end.

(** [strings.ToLower] of ASCII text.  Other letters are outside the model; of
    these only two (the dotted I and the Kelvin sign) have an ASCII lower case. *)
Definition lower_byte (c : ascii) : ascii :=
  let n := nat_of_ascii c in
  if (65 <=? n)%nat && (n <=? 90)%nat then ascii_of_nat (n + 32) else c.

Fixpoint ToLower (s : string) : string :=
  match s with
  | EmptyString => EmptyString
  | String c s => String (lower_byte c) (ToLower s)
  end.

(** ** Decimal numbers *)

(** [strconv.Itoa]. *)
Definition Itoa (z : Z) : string := NilZero.string_of_int (Z.to_int z).

(** [strconv.Atoi]: an optional sign and at least one digit, within 64 bits. *)
Definition parse_digits (s : string) : option Z :=
  match s with
  | EmptyString => None
  | _ => d ← NilEmpty.uint_of_string s; Some (Z.of_N (N.of_uint d))
  end.

Definition Atoi (s : string) : option Z :=
  z ← match s with
      | String "-" t => Z.opp <$> parse_digits t
      | String "+" t => parse_digits t
      | _ => parse_digits s
      end;
  if decide (Int64.in_range z) then Some z else None.

(** ** Lemmas *)

Lemma append_assoc s t u : ((s ++ t) ++ u = s ++ (t ++ u))%string.
Proof. induction s as [|c s IH]; simpl; [done|by rewrite IH]. Qed.

Lemma append_nil_r s : (s ++ "" = s)%string.
Proof. induction s as [|c s IH]; simpl; [done|by rewrite IH]. Qed.

Lemma Split_cons s c : exists seg segs, Split s c = seg :: segs.
Proof. destruct s as [|d s]; simpl; [eauto|]. destruct (Ascii.eqb d c); [eauto|]. destruct (Split s c); eauto. Qed.

Lemma HasPrefix_iff s p : HasPrefix s p = true <-> exists t, s = (p ++ t)%string.
Proof.
  unfold HasPrefix. revert s. induction p as [|c p IH]; intros s; simpl.
  - split; [intros _; by exists s|by destruct s].
  - destruct s as [|d s]; simpl; [split; [done|by intros [t ?]]|].
    destruct (ascii_dec c d) as [->|Hne]; [rewrite IH|]; split.
    + intros [t ->]. by exists t.
    + intros [t [= ->]]. by exists t.
    + done.
    + intros [t [= -> _]]. done.
Qed.

Lemma HasPrefix_app p t : HasPrefix (p ++ t) p = true.
Proof. apply HasPrefix_iff. by exists t. Qed.

Lemma drop_str_app p t : drop_str (String.length p) (p ++ t) = t.
Proof. induction p as [|c p IH]; [by destruct t|done]. Qed.

Lemma take_str_app p t : take_str (String.length p) (p ++ t) = p.
Proof. induction p as [|c p IH]; simpl; [by destruct t|by rewrite IH]. Qed.

Lemma index_byte_app c p t :
  contains_byte c p = false ->
  index_byte c (p ++ String c t) = Some (String.length p).
Proof.
  induction p as [|d p IH]; simpl.
  - by rewrite Ascii.eqb_refl.
  - intros [Hd Hp]%orb_false_iff. by rewrite Hd, IH.
Qed.

Lemma index_byte_Some c s i :
  index_byte c s = Some i ->
  exists p t, s = p ++ String c t /\ String.length p = i /\ contains_byte c p = false.
Proof.
  revert i. induction s as [|d s IH]; intros i; simpl; [done|].
  destruct (Ascii.eqb d c) eqn:Hd.
  - intros [= <-]. apply Ascii.eqb_eq in Hd as ->. by exists "", s.
  - intros (j & Hj & ->)%fmap_Some. destruct (IH _ Hj) as (p & t & -> & <- & Hp).
    exists (String d p), t. simpl. by rewrite Hd.
Qed.

Lemma index_byte_None c s : index_byte c s = None <-> contains_byte c s = false.
Proof.
  induction s as [|d s IH]; simpl; [done|].
  destruct (Ascii.eqb d c); simpl; [done|].
  rewrite fmap_None. done.
Qed.

Lemma contains_byte_app c s t :
  contains_byte c (s ++ t) = contains_byte c s || contains_byte c t.
Proof. induction s as [|d s IH]; simpl; [done|]. by rewrite IH, orb_assoc. Qed.

(** Decimal printing is read back by [Atoi] within 64 bits. *)
Lemma NilZero_string_nonempty d : NilZero.string_of_uint d <> "".
Proof. by destruct d. Qed.

Lemma parse_digits_string_of_uint d :
  parse_digits (NilZero.string_of_uint d) = Some (Z.of_N (N.of_uint d)).
Proof.
  unfold parse_digits.
  destruct d as [|d|d|d|d|d|d|d|d|d|d]; [reflexivity|..];
    unfold NilZero.string_of_uint;
    match goal with |- context [NilEmpty.string_of_uint ?x] =>
      pose proof (NilEmpty.usu x) as Hu; destruct (NilEmpty.string_of_uint x) eqn:E; [done|] end;
    by rewrite Hu.
Qed.

Lemma Itoa_pos_head p :
  exists c s, NilZero.string_of_uint (Pos.to_uint p) = String c s /\
    c <> "-"%char /\ c <> "+"%char.
Proof.
  destruct (Pos.to_uint p) as [|d|d|d|d|d|d|d|d|d|d]; simpl; eauto 10.
Qed.

Lemma Atoi_Itoa z : Int64.in_range z -> Atoi (Itoa z) = Some z.
Proof.
  intros Hz. unfold Itoa, Atoi.
  assert (Hd : forall z', z' = z -> (if decide (Int64.in_range z') then Some z' else None) = Some z)
    by (intros ? ->; by rewrite decide_True).
  destruct z as [|p|p]; simpl.
  - reflexivity.
  - destruct (Itoa_pos_head p) as (c & s & E & Hm & Hp).
    pose proof (parse_digits_string_of_uint (Pos.to_uint p)) as Hu.
    change (NilZero.string_of_int (Decimal.Pos (Pos.to_uint p)))
      with (NilZero.string_of_uint (Pos.to_uint p)).
    rewrite E in *.
    assert (match String c s with
            | String "-" t => Z.opp <$> parse_digits t
            | String "+" t => parse_digits t
            | _ => parse_digits (String c s) end = parse_digits (String c s)) as ->.
    { destruct c as [[] [] [] [] [] [] [] []]; done. }
    rewrite Hu. simpl. apply Hd.
    by rewrite (DecimalN.Unsigned.of_to (Npos p) : N.of_uint (Pos.to_uint p) = _).
  - change (NilZero.string_of_int (Decimal.Neg (Pos.to_uint p)))
      with (String "-" (NilZero.string_of_uint (Pos.to_uint p))).
    rewrite parse_digits_string_of_uint. simpl. apply Hd.
    by rewrite (DecimalN.Unsigned.of_to (Npos p) : N.of_uint (Pos.to_uint p) = _).
Qed.

Lemma Atoi_in_range s z : Atoi s = Some z -> Int64.in_range z.
Proof.
  unfold Atoi. intros (z' & _ & H)%bind_Some. case_decide; by simplify_eq.
Qed.

(** ** Texts without a character *)

Definition lacks (c : ascii) (s : string) : bool := negb (contains_byte c s).

Lemma lacks_app c s t : lacks c (s ++ t) = lacks c s && lacks c t.
Proof. unfold lacks. by rewrite contains_byte_app, negb_orb. Qed.

Lemma app_string_inj p s t : p ++ s = p ++ t -> s = t.
Proof. induction p as [|c p IH]; [done|]. intros [= E]. by apply IH. Qed.

(** The last character of a text. *)
Lemma app_last_inj s t c d : s ++ String c "" = t ++ String d "" -> s = t /\ c = d.
Proof.
  revert t. induction s as [|x s IH]; intros [|y t]; simpl; intros E; simplify_eq.
  - done.
  - destruct t; simplify_eq.
  - destruct s; simplify_eq.
  - by apply IH in H as [-> ->].
Qed.

(** Up to its first [c], a text is read in one way. *)
Lemma until_inj c s t r u :
  lacks c s = true -> lacks c t = true -> s ++ String c r = t ++ String c u -> s = t /\ r = u.
Proof.
  revert t. induction s as [|x s IH]; intros [|y t] Hs Ht E; cbn [String.append] in E.
  - by simplify_eq.
  - injection E as <- _. cbv [lacks] in Ht. simpl in Ht. by rewrite Ascii.eqb_refl in Ht.
  - injection E as -> _. cbv [lacks] in Hs. simpl in Hs. by rewrite Ascii.eqb_refl in Hs.
  - injection E as -> E. unfold lacks in Hs, Ht. simpl in Hs, Ht. rewrite negb_orb, andb_true_iff in Hs, Ht.
    apply IH in E as [-> ->]; tauto.
Qed.

Lemma Split_lacks s c : lacks c s = true -> Split s c = [s].
Proof.
  induction s as [|x s IH]; [done|]. unfold lacks. simpl. rewrite negb_orb, andb_true_iff. intros [Hx Hs].
  destruct (Ascii.eqb x c); [done|]. by rewrite IH.
Qed.

Lemma Split_app s c t : lacks c s = true -> Split (s ++ String c t) c = s :: Split t c.
Proof.
  induction s as [|x s IH]; simpl; [by rewrite Ascii.eqb_refl|]. unfold lacks. simpl. rewrite negb_orb, andb_true_iff. intros [Hx Hs].
  destruct (Ascii.eqb x c); [done|]. by rewrite IH.
Qed.

Lemma Itoa_inj n m : Itoa n = Itoa m -> n = m.
Proof.
  assert (Hread : forall z, NilZero.int_of_string (Itoa z) = Some (Z.to_int z)).
  { intros z. unfold Itoa. apply NilZero.isi; destruct z as [|p|p]; simpl; try done;
      intros [= Hp]; by apply DecimalPos.Unsigned.to_uint_nonnil in Hp. }
  intros E. apply DecimalZ.to_int_inj. pose proof (Hread n) as Hn. rewrite E, Hread in Hn. congruence.
Qed.
