(* ===== verification/GoBase64.v ===== *)
(** * encoding/base64: [StdEncoding.EncodeToString] and [DecodeString]

    A byte is an [ascii]; decoding skips line ends, as Go's does. *)
From S2P Require Import Prelude GoStrings.
From Stdlib Require Import Ascii String.

Local Open Scope N_scope.

(** ** Sextets *)

Definition sextet_char (n : N) : ascii :=
  ascii_of_N (if n <? 26 then n + 65 else if n <? 52 then n + 71 else if n <? 62 then n - 4
              else if n =? 62 then 43 else 47).

Definition char_sextet (c : ascii) : option N :=
  let n := N_of_ascii c in
  if (65 <=? n) && (n <=? 90) then Some (n - 65)
  else if (97 <=? n) && (n <=? 122) then Some (n - 71)
  else if (48 <=? n) && (n <=? 57) then Some (n + 4)
  else if n =? 43 then Some 62
  else if n =? 47 then Some 63
  else None.

Definition pad : ascii := "=".

(** ** Groups of three bytes *)

Definition enc1 (a : N) : N := a / 4.
Definition enc2 (a b : N) : N := (a mod 4) * 16 + b / 16.
Definition enc3 (b c : N) : N := (b mod 16) * 4 + c / 64.
Definition enc4 (c : N) : N := c mod 64.

Fixpoint EncodeToString (s : string) : string :=
  match s with
  | String a (String b (String c s)) =>
      let a := N_of_ascii a in let b := N_of_ascii b in let c := N_of_ascii c in
      String (sextet_char (enc1 a)) (String (sextet_char (enc2 a b))
        (String (sextet_char (enc3 b c)) (String (sextet_char (enc4 c)) (EncodeToString s))))
  | String a (String b EmptyString) =>
      let a := N_of_ascii a in let b := N_of_ascii b in
      String (sextet_char (enc1 a)) (String (sextet_char (enc2 a b))
        (String (sextet_char (enc3 b 0)) (String pad EmptyString)))
  | String a EmptyString =>
      let a := N_of_ascii a in
      String (sextet_char (enc1 a)) (String (sextet_char (enc2 a 0))
        (String pad (String pad EmptyString)))
  | EmptyString => EmptyString
  end.

Definition dec1 (w x : N) : ascii := ascii_of_N (w * 4 + x / 16).
Definition dec2 (x y : N) : ascii := ascii_of_N ((x mod 16) * 16 + y / 4).
Definition dec3 (y z : N) : ascii := ascii_of_N ((y mod 4) * 64 + z).

Fixpoint decodeGroups (s : string) : option string :=
  match s with
  | EmptyString => Some EmptyString
  | String c1 (String c2 (String c3 (String c4 s))) =>
      w ← char_sextet c1; x ← char_sextet c2;
      if Ascii.eqb c3 pad && Ascii.eqb c4 pad && String.eqb s EmptyString then
        Some (String (dec1 w x) EmptyString)
      else
        y ← char_sextet c3;
        if Ascii.eqb c4 pad && String.eqb s EmptyString then
          Some (String (dec1 w x) (String (dec2 x y) EmptyString))
        else
          z ← char_sextet c4; rest ← decodeGroups s;
          Some (String (dec1 w x) (String (dec2 x y) (String (dec3 y z) rest)))
  | _ => None
  end.

Fixpoint skip_line_ends (s : string) : string :=
  match s with
  | EmptyString => EmptyString
  | String c s =>
      if Ascii.eqb c "010" || Ascii.eqb c "013" then skip_line_ends s else String c (skip_line_ends s)
  end.

Definition DecodeString (s : string) : option string := decodeGroups (skip_line_ends s).

(** ** Round trip *)

Definition small (n : N) : bool := n <? 64.

Lemma sextet_props n : small n = true ->
  char_sextet (sextet_char n) = Some n /\ Ascii.eqb (sextet_char n) pad = false /\
  Ascii.eqb (sextet_char n) "010" = false /\ Ascii.eqb (sextet_char n) "013" = false.
Proof.
  intros H. unfold small in H. apply N.ltb_lt in H.
  assert (Hall : forallb (fun i => let n := N.of_nat i in
    bool_decide (char_sextet (sextet_char n) = Some n) && negb (Ascii.eqb (sextet_char n) pad)
    && negb (Ascii.eqb (sextet_char n) "010") && negb (Ascii.eqb (sextet_char n) "013")) (seq 0 64) = true)
    by (vm_compute; reflexivity).
  rewrite forallb_forall in Hall. specialize (Hall (N.to_nat n)).
  rewrite N2Nat.id in Hall. cbv zeta in Hall.
  rewrite !andb_true_iff, !negb_true_iff, bool_decide_eq_true in Hall.
  destruct Hall as [[[? ?] ?] ?]; [|done]. apply in_seq. lia.
Qed.

Lemma byte_bound c : N_of_ascii c < 256.
Proof. destruct c as [[] [] [] [] [] [] [] []]; vm_compute; reflexivity. Qed.

Lemma enc_small a b c : a < 256 -> b < 256 -> c < 256 ->
  small (enc1 a) = true /\ small (enc2 a b) = true /\ small (enc3 b c) = true /\ small (enc4 c) = true.
Proof.
  intros Ha Hb Hc. unfold small, enc1, enc2, enc3, enc4. rewrite !N.ltb_lt.
  pose proof (N.mod_lt a 4). pose proof (N.mod_lt b 16). pose proof (N.mod_lt c 64).
  pose proof (N.Div0.div_lt_upper_bound a 4 64). pose proof (N.Div0.div_lt_upper_bound b 16 16).
  pose proof (N.Div0.div_lt_upper_bound c 64 4). lia.
Qed.

Lemma dec_enc a b c : a < 256 -> b < 256 -> c < 256 ->
  enc1 a * 4 + enc2 a b / 16 = a /\ (enc2 a b mod 16) * 16 + enc3 b c / 4 = b /\
  (enc3 b c mod 4) * 64 + enc4 c = c.
Proof.
  intros Ha Hb Hc. unfold enc1, enc2, enc3, enc4.
  pose proof (N.div_mod a 4 ltac:(lia)). pose proof (N.div_mod b 16 ltac:(lia)).
  pose proof (N.div_mod c 64 ltac:(lia)).
  pose proof (N.mod_lt a 4 ltac:(lia)). pose proof (N.mod_lt b 16 ltac:(lia)). pose proof (N.mod_lt c 64 ltac:(lia)).
  assert (b / 16 < 16) by (apply N.Div0.div_lt_upper_bound; lia).
  assert (c / 64 < 4) by (apply N.Div0.div_lt_upper_bound; lia).
  rewrite (N.div_add_l _ 16) by lia. rewrite (N.div_small (b / 16) 16) by lia.
  rewrite (N.add_comm (a mod 4 * 16)), N.Div0.mod_add, (N.mod_small (b / 16)) by lia.
  rewrite (N.div_add_l _ 4) by lia. rewrite (N.div_small (c / 64) 4) by lia.
  rewrite (N.add_comm (b mod 16 * 4)), N.Div0.mod_add, (N.mod_small (c / 64)) by lia.
  lia.
Qed.

Lemma byte_cases a b c :
  dec1 (enc1 (N_of_ascii a)) (enc2 (N_of_ascii a) (N_of_ascii b)) = a /\
  dec2 (enc2 (N_of_ascii a) (N_of_ascii b)) (enc3 (N_of_ascii b) (N_of_ascii c)) = b /\
  dec3 (enc3 (N_of_ascii b) (N_of_ascii c)) (enc4 (N_of_ascii c)) = c.
Proof.
  pose proof (dec_enc (N_of_ascii a) (N_of_ascii b) (N_of_ascii c) (byte_bound a) (byte_bound b) (byte_bound c))
    as (E1 & E2 & E3).
  unfold dec1, dec2, dec3. rewrite E1, E2, E3. by rewrite !ascii_N_embedding.
Qed.

Lemma byte_small a b c :
  small (enc1 (N_of_ascii a)) = true /\ small (enc2 (N_of_ascii a) (N_of_ascii b)) = true /\
  small (enc3 (N_of_ascii b) (N_of_ascii c)) = true /\ small (enc4 (N_of_ascii c)) = true.
Proof. apply enc_small; apply byte_bound. Qed.

Lemma DecodeString_EncodeToString s : DecodeString (EncodeToString s) = Some s.
Proof.
  enough (H : forall n s, (String.length s <= n)%nat -> DecodeString (EncodeToString s) = Some s)
    by (eapply H; reflexivity).
  clear s. induction n as [|n IH]; intros s Hn; [by destruct s; [|simpl in Hn; lia]|].
  unfold DecodeString in *.
  destruct s as [|a [|b [|c s]]]; [done| | |].
  - destruct (byte_small a "000" "000") as (S1 & S2 & _).
    destruct (byte_cases a "000" "000") as (B1 & _).
    destruct (sextet_props _ S1) as (C1 & P1 & N1 & R1), (sextet_props _ S2) as (C2 & P2 & N2 & R2).
    change (N_of_ascii "000") with 0 in *.
    cbn [EncodeToString skip_line_ends]. rewrite N1, R1, N2, R2. cbn.
    rewrite C1. cbn. rewrite C2. cbn. by rewrite B1.
  - destruct (byte_small a b "000") as (S1 & S2 & S3 & _).
    destruct (byte_cases a b "000") as (B1 & B2 & _).
    destruct (sextet_props _ S1) as (C1 & P1 & N1 & R1), (sextet_props _ S2) as (C2 & P2 & N2 & R2),
      (sextet_props _ S3) as (C3 & P3 & N3 & R3).
    change (N_of_ascii "000") with 0 in *.
    cbn [EncodeToString skip_line_ends]. rewrite N1, R1, N2, R2, N3, R3. cbn [orb].
    cbn [decodeGroups skip_line_ends]. rewrite C1. cbn. rewrite C2. cbn. rewrite P3, C3. cbn. by rewrite B1, B2.
  - destruct (byte_small a b c) as (S1 & S2 & S3 & S4).
    destruct (byte_cases a b c) as (B1 & B2 & B3).
    destruct (sextet_props _ S1) as (C1 & P1 & N1 & R1), (sextet_props _ S2) as (C2 & P2 & N2 & R2),
      (sextet_props _ S3) as (C3 & P3 & N3 & R3), (sextet_props _ S4) as (C4 & P4 & N4 & R4).
    cbn [EncodeToString skip_line_ends]. rewrite N1, R1, N2, R2, N3, R3, N4, R4. cbn [orb].
    cbn [decodeGroups]. rewrite C1. cbn. rewrite C2. cbn. rewrite P3. cbn. rewrite C3. cbn. rewrite P4. cbn.
    rewrite C4. cbn. rewrite IH by (simpl in Hn; lia). cbn. by rewrite B1, B2, B3.
Qed.
