(* ===== verification/GoHex.v ===== *)
(** * Go's encoding/hex *)
From S2P Require Import Prelude GoStrings.
From Stdlib Require Import Ascii String NArith.

Local Open Scope string_scope.

Definition hex_digit (n : N) : ascii := ascii_of_N (if (n <? 10)%N then 48 + n else 87 + n)%N.

(** [hex.EncodeToString]: two lower-case digits for each byte. *)
Fixpoint EncodeToString (s : string) : string :=
  match s with
  | EmptyString => EmptyString
  | String a s =>
      String (hex_digit (N_of_ascii a / 16)) (String (hex_digit (N_of_ascii a mod 16)) (EncodeToString s))
  end.

(** [fromHexChar]: digits of either case. *)
Definition fromHexChar (a : ascii) : option N :=
  let n := N_of_ascii a in
  if ((48 <=? n) && (n <=? 57))%N then Some (n - 48)%N
  else if ((97 <=? n) && (n <=? 102))%N then Some (n - 87)%N
  else if ((65 <=? n) && (n <=? 70))%N then Some (n - 55)%N
  else None.

(** [hex.DecodeString]; [None] is its error: a byte that is no digit, or a digit
    left over. *)
Fixpoint DecodeString (s : string) : option string :=
  match s with
  | EmptyString => Some EmptyString
  | String _ EmptyString => None
  | String a (String b s) =>
      match fromHexChar a, fromHexChar b, DecodeString s with
      | Some x, Some y, Some t => Some (String (ascii_of_N (16 * x + y)) t)
      | _, _, _ => None
      end
  end.

Lemma fromHexChar_digit n : (n < 16)%N -> fromHexChar (hex_digit n) = Some n.
Proof.
  intros Hn. assert (n ∈ [0;1;2;3;4;5;6;7;8;9;10;11;12;13;14;15]%N) as Hin.
  { rewrite !elem_of_cons. lia. }
  repeat (apply elem_of_cons in Hin as [->|Hin]; [done|]). by apply elem_of_nil in Hin.
Qed.

Lemma hex_roundtrip s : DecodeString (EncodeToString s) = Some s.
Proof.
  induction s as [|a s IH]; simpl; [done|].
  pose proof (N_ascii_bounded a).
  rewrite !fromHexChar_digit, IH; [|by apply N.mod_lt|by apply N.Div0.div_lt_upper_bound].
  by rewrite <- N.div_mod, ascii_N_embedding.
Qed.

Lemma length_EncodeToString s : String.length (EncodeToString s) = (2 * String.length s)%nat.
Proof. induction s as [|a s IH]; simpl; [done|]. rewrite IH. lia. Qed.
