(* ===== verification/Levenshtein.v ===== *)
(** * Edit distance (internal/analysis/fuzzy.go)

    [LevenshteinDistance] with its two rows, and the proof that it is the least
    number of edits between the two strings. *)
From S2P Require Import Prelude GoStrings.
From Stdlib Require Import Ascii String.

Local Open Scope nat_scope.

(** A string as its bytes. *)
Fixpoint bytes_of (s : string) : list ascii :=
  match s with String c s => c :: bytes_of s | EmptyString => [] end.

(** ** The code *)

Section rows.
Context (a b : list ascii).

(** [curr[j]] from its neighbours, for the row [i]; indexes are in range. *)
Definition cell (i : nat) (prev curr : list nat) (j : nat) : nat :=
  let cost := if decide (a !! (i - 1) = b !! (j - 1)) then 0 else 1 in
  Nat.min (curr !!! (j - 1) + 1) (Nat.min (prev !!! j + 1) (prev !!! (j - 1) + cost)).

(** The inner loop: one row. *)
Definition row (i : nat) (prev curr : list nat) : list nat :=
  fold_left (fun curr j => <[j := cell i prev curr j]> curr) (seq 1 (List.length b)) (<[0 := i]> curr).

(** The outer loop; [prev] and [curr] change places behind each row. *)
Definition rows (n : nat) : list nat * list nat :=
  fold_left (fun '(prev, curr) i => (row i prev curr, prev)) (seq 1 n)
    (seq 0 (List.length b + 1), repeat 0 (List.length b + 1)).
End rows.

Definition LevenshteinDistance (a b : string) : nat :=
  let a := bytes_of a in
  let b := bytes_of b in
  let la := List.length a in
  let lb := List.length b in
  if la =? 0 then lb
  else if lb =? 0 then la
  else fst (rows a b la) !!! lb.

(** ** Edits *)

(** [n] insertions, deletions and replacements turn the first list into the second. *)
Inductive edits {A} : list A -> list A -> nat -> Prop :=
  | edits_done : edits [] [] 0
  | edits_keep c a b n : edits a b n -> edits (c :: a) (c :: b) n
  | edits_replace c d a b n : edits a b n -> edits (c :: a) (d :: b) (S n)
  | edits_insert d a b n : edits a b n -> edits a (d :: b) (S n)
  | edits_delete c a b n : edits a b n -> edits (c :: a) b (S n).

(** The least number of edits. *)
Definition edit_distance {A : Type} (a b : list A) (n : nat) : Prop := edits a b n /\ forall m, edits a b m -> n <= m.

Lemma edits_app {A} (a b a' b' : list A) n m : edits a b n -> edits a' b' m -> edits (a ++ a') (b ++ b') (n + m).
Proof. induction 1; intros H'; simpl; [done|constructor; auto..]. Qed.

Lemma edits_rev {A} (a b : list A) n : edits a b n -> edits (rev a) (rev b) n.
Proof.
  induction 1 as [|c a b n _ IH|c d a b n _ IH|d a b n _ IH|c a b n _ IH]; simpl; [constructor| | | |].
  - rewrite <- (Nat.add_0_r n). apply edits_app; [done|]. repeat constructor.
  - rewrite <- (Nat.add_1_r n). apply edits_app; [done|]. repeat constructor.
  - rewrite <- (app_nil_r (rev a)), <- (Nat.add_1_r n). apply edits_app; [done|]. repeat constructor.
  - rewrite <- (app_nil_r (rev b)), <- (Nat.add_1_r n). apply edits_app; [done|]. repeat constructor.
Qed.

Lemma edit_distance_rev {A} (a b : list A) n : edit_distance (rev a) (rev b) n -> edit_distance a b n.
Proof.
  intros [H Hmin]. split.
  - apply edits_rev in H. by rewrite !rev_involutive in H.
  - intros m Hm. by apply Hmin, edits_rev.
Qed.

Section distance.
Context {A : Type} `{EqDecision A}.

(** The recursion that the rows tabulate. *)
Fixpoint distance (a : list A) : list A -> nat :=
  match a with
  | [] => fun b => List.length b
  | c :: a' =>
      fix inner (b : list A) : nat :=
        match b with
        | [] => List.length a
        | d :: b' =>
            Nat.min (inner b' + 1)
              (Nat.min (distance a' b + 1) (distance a' b' + if decide (c = d) then 0 else 1))
        end
  end.

Lemma distance_cons c a d b :
  distance (c :: a) (d :: b) =
  Nat.min (distance (c :: a) b + 1) (Nat.min (distance a (d :: b) + 1) (distance a b + if decide (c = d) then 0 else 1)).
Proof. reflexivity. Qed.

Lemma distance_nil a : distance a [] = List.length a.
Proof. by destruct a. Qed.

Lemma edits_insert_all (b : list A) : edits [] b (List.length b).
Proof. induction b; simpl; by constructor. Qed.

Lemma edits_delete_all (a : list A) : edits a [] (List.length a).
Proof. induction a; simpl; by constructor. Qed.

Lemma edits_distance a : forall b, edits a b (distance a b).
Proof.
  induction a as [|c a IHa]; [apply edits_insert_all|].
  induction b as [|d b IHb]; [apply edits_delete_all|]. rewrite distance_cons.
  apply Nat.min_case; [rewrite Nat.add_1_r; by constructor|]. apply Nat.min_case; [rewrite Nat.add_1_r; by constructor|].
  case_decide as H; [subst; rewrite Nat.add_0_r; by constructor|rewrite Nat.add_1_r; by constructor].
Qed.

Lemma distance_least a b n : edits a b n -> distance a b <= n.
Proof.
  induction 1 as [|c a b n _ IH|c d a b n _ IH|d a b n _ IH|c a b n _ IH]; [done| | | |].
  - rewrite distance_cons, decide_True by done. lia.
  - rewrite distance_cons. case_decide; lia.
  - destruct a as [|c a]; [simpl in *; lia|]. rewrite distance_cons. lia.
  - destruct b as [|d b]; [rewrite distance_nil in *; simpl; lia|]. rewrite distance_cons. lia.
Qed.

Lemma edit_distance_distance a b : edit_distance a b (distance a b).
Proof. split; [apply edits_distance|apply distance_least]. Qed.
End distance.

(** ** The rows hold the distances of prefixes *)

Section table.
Context (a b : list ascii).

(** The distance of the first [i] bytes of [a] to the first [j] of [b]. *)
Definition prefix_distance (i j : nat) : nat := distance (rev (take i a)) (rev (take j b)).

Lemma prefix_distance_0 j : j <= List.length b -> prefix_distance 0 j = j.
Proof. intros Hj. unfold prefix_distance. simpl. rewrite length_rev, length_take. lia. Qed.

Lemma prefix_distance_l0 i : i <= List.length a -> prefix_distance i 0 = i.
Proof. intros Hi. unfold prefix_distance. simpl. rewrite distance_nil, length_rev, length_take. lia. Qed.

Lemma prefix_distance_S i j c d :
  a !! i = Some c -> b !! j = Some d ->
  prefix_distance (S i) (S j) =
  Nat.min (prefix_distance (S i) j + 1)
    (Nat.min (prefix_distance i (S j) + 1) (prefix_distance i j + if decide (c = d) then 0 else 1)).
Proof.
  intros Hc Hd. unfold prefix_distance. rewrite (take_S_r _ _ _ Hc), (take_S_r _ _ _ Hd), !rev_app_distr. apply distance_cons.
Qed.

Definition row_is (i n : nat) (r : list nat) : Prop :=
  List.length r = List.length b + 1 /\ forall j, j <= n -> r !!! j = prefix_distance i j.

Lemma row_loop i prev n : forall curr,
  S i <= List.length a -> row_is i (List.length b) prev -> row_is (S i) 0 curr -> n <= List.length b ->
  row_is (S i) n (fold_left (fun curr j => <[j := cell a b (S i) prev curr j]> curr) (seq 1 n) curr).
Proof.
  induction n as [|n IH]; intros curr Hi [Hlen Hprev] Hcurr Hn; [done|].
  rewrite seq_S, fold_left_app. cbn [fold_left]. destruct (IH curr) as [Hl Hr]; [done..|lia|].
  set (r := fold_left _ _ curr) in *. change (1 + n) with (S n). split; [by rewrite length_insert|].
  intros j Hj. destruct (decide (j = S n)) as [->|Hne]; [|rewrite list_lookup_total_insert_ne by lia; apply Hr; lia].
  rewrite list_lookup_total_insert, decide_True by lia. unfold cell. rewrite !Nat.sub_succ, !Nat.sub_0_r.
  destruct (lookup_lt_is_Some_2 a i) as [c Hc]; [lia|]. destruct (lookup_lt_is_Some_2 b n) as [d Hd]; [lia|].
  rewrite (prefix_distance_S i n c d Hc Hd), Hc, Hd, Hr, !Hprev by lia.
  destruct (decide (c = d)) as [->|H]; [by rewrite !decide_True by done|by rewrite !decide_False by congruence].
Qed.

Lemma rows_spec n :
  n <= List.length a -> let '(prev, curr) := rows a b n in row_is n (List.length b) prev /\ List.length curr = List.length b + 1.
Proof.
  unfold rows. induction n as [|n IH]; intros Hn.
  - split; [|apply repeat_length]. split; [apply length_seq|]. intros j Hj.
    rewrite prefix_distance_0 by done. apply list_lookup_total_correct, lookup_seq_lt. lia.
  - rewrite seq_S, fold_left_app. cbn [fold_left]. specialize (IH ltac:(lia)).
    destruct (fold_left _ (seq 1 n) _) as [prev curr]. destruct IH as [Hp Hc]. split; [|apply Hp].
    apply row_loop; [lia|done| |lia]. split; [by rewrite length_insert|]. intros j Hj. replace j with 0 by lia.
    rewrite list_lookup_total_insert, decide_True by lia. by rewrite prefix_distance_l0 by lia.
Qed.
End table.

Lemma length_bytes_of s : List.length (bytes_of s) = String.length s.
Proof. induction s; simpl; congruence. Qed.

(** The table of the code computes the least number of insertions,
    deletions and replacements of bytes that turn one string into the other. *)
Theorem LevenshteinDistance_spec a b : edit_distance (bytes_of a) (bytes_of b) (LevenshteinDistance a b).
Proof.
  unfold LevenshteinDistance. generalize (bytes_of a) as x, (bytes_of b) as y. clear a b. intros a b. cbv zeta.
  destruct (Nat.eqb_spec (List.length a) 0) as [Ha|Ha].
  { destruct a; [|done]. apply (edit_distance_distance []). }
  destruct (Nat.eqb_spec (List.length b) 0) as [Hb|Hb].
  { destruct b; [|done]. rewrite <- distance_nil. apply edit_distance_distance. }
  pose proof (rows_spec a b (List.length a) (le_n _)) as H. destruct (rows a b (List.length a)) as [prev curr].
  destruct H as [[_ Hr] _]. cbn [fst]. rewrite Hr by done. unfold prefix_distance. rewrite !take_ge by done.
  apply edit_distance_rev, edit_distance_distance.
Qed.

Example kitten : LevenshteinDistance "kitten" "sitting" = 3.
Proof. vm_compute. reflexivity. Qed.
