(* ===== verification/Glob.v ===== *)
(** * Globs (globMatch of internal/api/handlers/analysis.go)

    The handler splits a pattern at its stars and looks for the parts from left to
    right, each at its first place.  [glob] is what a pattern means; taking the
    first place loses nothing. *)
From S2P Require Import Prelude GoStrings.
From Stdlib Require Import Ascii String.

Local Open Scope string_scope.

(** ** Searching: the [strings] package *)

(** [strings.Index(s, sub)]; [None] is [-1]. *)
Fixpoint Index (s sub : string) : option nat :=
  if HasPrefix s sub then Some 0%nat
  else match s with
       | EmptyString => None
       | String _ s => S <$> Index s sub
       end.

Definition Contains (s sub : string) : bool := bool_decide (is_Some (Index s sub)).

Definition HasSuffix (s suffix : string) : bool :=
  (String.length suffix <=? String.length s)%nat &&
  bool_decide (drop_str (String.length s - String.length suffix) s = suffix).

(** ** Matching *)

(** The loop over the parts of a pattern, [idx] bytes of [o] being taken. *)
Fixpoint matchParts (first : bool) (parts : list string) (idx : nat) (o : string) : bool :=
  match parts with
  | [] => true
  | part :: parts =>
      if decide (part = "") then matchParts false parts idx o
      else
        match Index (drop_str idx o) part with
        | None => false
        | Some pos =>
            if first && negb (pos =? 0)%nat then false
            else matchParts false parts (idx + (pos + String.length part)) o
        end
  end.

Definition originMatchesPattern (pattern target : string) : bool :=
  let p := ToLower pattern in
  let o := ToLower target in
  if negb (Contains p "*") then bool_decide (p = o)
  else
    let parts := Split p "*" in
    if matchParts true parts 0 o
    then match last parts with
         | Some part => if decide (part = "") then true else HasSuffix o part
         | None => true
         end
    else false.

Definition globMatch (pattern s : string) : bool := originMatchesPattern pattern s.

(** ** What a pattern means *)

Inductive glob : string -> string -> Prop :=
  | glob_end : glob "" ""
  | glob_char c p s : c <> "*"%char -> glob p s -> glob (String c p) (String c s)
  | glob_star p s t : glob p t -> glob (String "*" p) (s ++ t).

(** ** Strings in parts *)

Lemma append_split s t u v :
  s ++ t = u ++ v -> (String.length s <= String.length u)%nat -> exists d, u = s ++ d /\ t = d ++ v.
Proof.
  revert u. induction s as [|c s IH]; intros u E Hl; [by exists u|].
  destruct u as [|c' u]; simpl in *; [lia|]. injection E as -> E.
  apply IH in E as (d & -> & ->); [|lia]. by exists d.
Qed.

Lemma length_append s t : String.length (s ++ t) = (String.length s + String.length t)%nat.
Proof. induction s; simpl; congruence. Qed.

Lemma Index_Some s sub i :
  Index s sub = Some i -> exists a b, s = a ++ sub ++ b /\ String.length a = i.
Proof.
  revert i. induction s as [|c s IH]; intros i; cbn [Index].
  - destruct (HasPrefix "" sub) eqn:E; [|done]. intros [= <-]. apply HasPrefix_iff in E as [b ->]. by exists "", b.
  - destruct (HasPrefix (String c s) sub) eqn:E.
    + intros [= <-]. apply HasPrefix_iff in E as [b ->]. by exists "", b.
    + destruct (Index s sub) as [j|] eqn:Ej; [|done]. intros [= <-].
      destruct (IH _ eq_refl) as (a & b & -> & <-). by exists (String c a), b.
Qed.

(** It is the first place. *)
Lemma Index_first a sub b : exists i, Index (a ++ sub ++ b) sub = Some i /\ (i <= String.length a)%nat.
Proof.
  induction a as [|c a (i & E & Hi)].
  - exists 0%nat. split; [|done]. pose proof (HasPrefix_app sub b) as Hp. cbn [append].
    destruct (sub ++ b); cbn [Index]; by rewrite Hp.
  - cbn [append Index]. destruct (HasPrefix _ sub); [exists 0%nat; split; [done|simpl; lia]|].
    rewrite E. exists (S i). split; [done|simpl; lia].
Qed.

Lemma HasSuffix_iff s suffix : HasSuffix s suffix = true <-> exists t, s = t ++ suffix.
Proof.
  unfold HasSuffix. rewrite andb_true_iff, Nat.leb_le, bool_decide_eq_true. split.
  - intros [Hl E]. exists (take_str (String.length s - String.length suffix) s). rewrite <- E at 2.
    generalize (String.length s - String.length suffix)%nat as n. clear. induction s as [|c s IH]; intros [|n]; simpl; congruence.
  - intros [t ->]. rewrite length_append, Nat.add_sub. split; [lia|]. apply drop_str_app.
Qed.

(** ** A pattern in parts *)

(** [o] begins with the first part, ends with the last, and has the others in between. *)
Fixpoint in_parts (parts : list string) (o : string) : Prop :=
  match parts with
  | [] => False
  | [x] => o = x
  | x :: parts => exists t o', o = x ++ t ++ o' /\ in_parts parts o'
  end.

Lemma in_parts_cons x p ps o : in_parts (x :: p :: ps) o <-> exists t o', o = x ++ t ++ o' /\ in_parts (p :: ps) o'.
Proof. done. Qed.

(** The first part with another character in front. *)
Lemma in_parts_char c x ps o :
  in_parts (String c x :: ps) o <-> exists o', o = String c o' /\ in_parts (x :: ps) o'.
Proof.
  destruct ps as [|p ps]; simpl.
  - split; [intros ->; by exists x|by intros (o' & -> & ->)].
  - split; [intros (t & o' & -> & H)|intros (o' & -> & t & o'' & -> & H)]; [|by exists t, o''].
    eexists. split; [done|]. by exists t, o'.
Qed.

Lemma glob_in_parts p o : glob p o <-> in_parts (Split p "*") o.
Proof.
  split.
  - induction 1 as [|c p s Hc _ IH|p s t _ IH]; [done| |]; cbn [Split].
    + rewrite (proj2 (Ascii.eqb_neq c "*") Hc). destruct (Split_cons p "*") as (x & ps & E). rewrite E in *.
      apply in_parts_char. by exists s.
    + simpl. destruct (Split_cons p "*") as (x & ps & E). rewrite E in *. by exists s, t.
  - revert o. induction p as [|c p IH]; intros o; cbn [Split]; [intros ->; constructor|].
    destruct (Split_cons p "*") as (x & ps & E). rewrite E in *. destruct (Ascii.eqb_spec c "*") as [->|Hc].
    + intros (t & o' & -> & H). simpl. constructor. by apply IH.
    + intros (o' & -> & H)%in_parts_char. constructor; [done|by apply IH].
Qed.

(** The parts somewhere in what is left of the string. *)
Definition floating (parts : list string) (rest : string) : Prop := exists t o', rest = t ++ o' /\ in_parts parts o'.

Lemma floating_prefix parts d rest : floating parts rest -> floating parts (d ++ rest).
Proof. intros (t & o' & -> & H). exists (d ++ t), o'. by rewrite append_assoc. Qed.

Lemma floating_empty p ps rest : floating ("" :: p :: ps) rest <-> floating (p :: ps) rest.
Proof.
  split.
  - intros (t & o' & -> & t' & o'' & -> & H). apply floating_prefix. by exists t', o''.
  - intros (t & o' & -> & H). exists t, o'. split; [done|]. by exists "", o'.
Qed.

(** Where the next part is found first, the others are found behind it if anywhere. *)
Lemma floating_first x p ps a b :
  Index (a ++ x ++ b) x = Some (String.length a) -> floating (x :: p :: ps) (a ++ x ++ b) <-> floating (p :: ps) b.
Proof.
  intros Hi. split.
  - intros (t & o' & E & t' & o'' & -> & H). rewrite E in Hi.
    destruct (Index_first t x (t' ++ o'')) as (i & Hi' & Hl). assert (i = String.length a) as -> by congruence.
    rewrite <- !append_assoc in E. rewrite (append_assoc _ t') in E.
    apply append_split in E as (d & _ & ->); [|rewrite !length_append; lia].
    apply floating_prefix. by exists t', o''.
  - intros H. exists a, (x ++ b). split; [done|]. destruct H as (t & o' & -> & H). by exists t, o'.
Qed.

(** Only the last part is left. *)
Lemma floating_last x pre a b :
  floating [x] (a ++ x ++ b) <-> HasSuffix (pre ++ a ++ x ++ b) x = true.
Proof.
  rewrite HasSuffix_iff. split.
  - intros (t & o' & E & ->). exists (pre ++ t). by rewrite E, append_assoc.
  - intros (t & E). rewrite <- !append_assoc in E. rewrite append_assoc in E. symmetry in E.
    assert (String.length t = String.length (pre ++ a) + String.length b)%nat as Hl.
    { apply (f_equal String.length) in E. rewrite !length_append in E. rewrite length_append. lia. }
    symmetry in E. apply append_split in E as (d & -> & E); [|lia]. rewrite E.
    exists (a ++ d), x. by rewrite append_assoc.
Qed.

Definition ends_with_last (parts : list string) (o : string) : bool :=
  match last parts with
  | Some part => if decide (part = "") then true else HasSuffix o part
  | None => true
  end.

Lemma matchParts_floating parts pre rest :
  parts <> [] ->
  matchParts false parts (String.length pre) (pre ++ rest) && ends_with_last parts (pre ++ rest) = true
    <-> floating parts rest.
Proof.
  revert pre rest. induction parts as [|x parts IH]; intros pre rest Hn; [done|]. cbn [matchParts].
  assert (parts = [] \/ exists p ps, parts = p :: ps) as [->|(p & ps & ->)] by (destruct parts; eauto).
  { unfold ends_with_last. cbn [last matchParts]. case_decide as D.
    - split; [intros _|done]. exists rest, "". by rewrite append_nil_r.
    - rewrite drop_str_app. destruct (Index rest x) as [i|] eqn:Ei; cbn [andb].
      + apply Index_Some in Ei as (a & b & -> & <-). by rewrite (floating_last x pre a b).
      + split; [done|]. intros (t & o' & -> & ->). exfalso. destruct (Index_first t x "") as (i & Hi & _).
        rewrite append_nil_r in Hi. congruence. }
  replace (ends_with_last (x :: p :: ps)) with (ends_with_last (p :: ps)) by done. case_decide as D; [subst; rewrite floating_empty; by apply IH|].
  rewrite drop_str_app. destruct (Index rest x) as [i|] eqn:Ei; cbn [andb].
  - pose proof Ei as (a & b & -> & <-)%Index_Some.
    rewrite floating_first by done. rewrite <- (IH (pre ++ a ++ x)) by done.
    assert ((pre ++ a ++ x) ++ b = pre ++ a ++ x ++ b) as -> by (rewrite append_assoc; f_equal; apply append_assoc).
    by rewrite length_append, (length_append a x).
  - split; [done|]. intros (t & o' & -> & t' & o'' & -> & _). exfalso.
    destruct (Index_first t x (t' ++ o'')) as (i & Hi & _). congruence.
Qed.

Lemma floating_root x p ps o :
  in_parts (x :: p :: ps) o <-> exists rest, o = x ++ rest /\ floating (p :: ps) rest.
Proof.
  split.
  - intros (t & o' & -> & H). exists (t ++ o'). split; [done|]. by exists t, o'.
  - intros (rest & -> & t & o' & -> & H). by exists t, o'.
Qed.

Lemma matchParts_root x p ps o :
  matchParts true (x :: p :: ps) 0 o && ends_with_last (x :: p :: ps) o = true <-> in_parts (x :: p :: ps) o.
Proof.
  replace (ends_with_last (x :: p :: ps)) with (ends_with_last (p :: ps)) by done.
  rewrite floating_root. cbn [matchParts]. case_decide as D.
  - subst. pose proof (matchParts_floating (p :: ps) "" o) as H. cbn [append String.length] in H. rewrite H by done.
    split; [intros Hf; by exists o|by intros (rest & -> & Hf)].
  - cbn [drop_str]. destruct (HasPrefix o x) eqn:E.
    + apply HasPrefix_iff in E as [rest ->]. destruct (Index_first "" x rest) as (i & Hi & Hl).
      cbn [append] in Hi. rewrite Hi. destruct i; [|simpl in Hl; lia]. cbn [andb negb Nat.eqb Nat.add].
      pose proof (matchParts_floating (p :: ps) x rest) as H. rewrite H by done.
      split; [by exists rest|]. intros (rest' & E & Hf). apply append_split in E as (d & E & ->); [|done].
      assert (d = "") as ->; [|done]. apply (f_equal String.length) in E. rewrite length_append in E.
      destruct d; [done|simpl in E; lia].
    + assert (forall rest, o <> x ++ rest) as Hn by (intros rest ->; by rewrite HasPrefix_app in E).
      split; [|intros (rest & Ho & _); by apply Hn in Ho].
      destruct (Index o x) as [i|] eqn:Ei; [|done]. apply Index_Some in Ei as (a & b & -> & <-).
      destruct a; [by destruct (Hn b)|done].
Qed.

Lemma Contains_star p : Contains p "*" = false -> Split p "*" = [p].
Proof.
  unfold Contains. rewrite bool_decide_eq_false, <- eq_None_not_Some. induction p as [|c p IH]; [done|].
  cbn [Index Split]. destruct (HasPrefix (String c p) "*") eqn:Ep; [done|]. destruct (Index p "*") eqn:E; [done|].
  assert (c <> "*"%char) as Hc by (intros ->; pose proof (HasPrefix_app "*" p) as Hp; cbn [append] in Hp; congruence). intros _. rewrite (proj2 (Ascii.eqb_neq c "*")) by done. by rewrite IH.
Qed.

Lemma Contains_star' p : Contains p "*" = true -> exists x q qs, Split p "*" = x :: q :: qs.
Proof.
  unfold Contains. rewrite bool_decide_eq_true. intros [i Hi]. apply Index_Some in Hi as (a & b & -> & _). clear i.
  induction a as [|c a IH]; cbn [append Split].
  - cbn. destruct (Split_cons b "*") as (q & qs & ->). by eexists _, _, _.
  - destruct IH as (x & q & qs & E). cbn [append] in E. rewrite E. destruct (Ascii.eqb c "*"); by eexists _, _, _.
Qed.

(** Property C34.  A subject matches a glob of the search over subjects exactly when
    it is the pattern, with every star replaced by some text, up to the case of
    letters: looking for each part at its first place misses no match. *)
Theorem globMatch_spec pattern s : globMatch pattern s = true <-> glob (ToLower pattern) (ToLower s).
Proof.
  unfold globMatch, originMatchesPattern. cbv zeta. generalize (ToLower pattern) as p, (ToLower s) as o. intros p o.
  rewrite glob_in_parts. destruct (Contains p "*") eqn:E; cbn [negb].
  - apply Contains_star' in E as (x & q & qs & ->). rewrite <- matchParts_root, andb_true_iff.
    unfold ends_with_last. destruct (matchParts true (x :: q :: qs) 0 o); [|split; [done|by intros [? _]]].
    split; [by split|by intros [_ ?]].
  - rewrite (Contains_star _ E), bool_decide_eq_true. simpl. by split.
Qed.

Example glob_orders : map (globMatch "orders-*-v*lue") ["Orders-eu-value"; "orders-value"; "orders--vlue"] = [true; false; true].
Proof. vm_compute. reflexivity. Qed.
