(* ===== verification/HttpCodes.v ===== *)
(** * The error codes of the API (internal/api/types/types.go) *)
From Stdlib Require Import ZArith.

Local Open Scope Z_scope.

(** ** Schemas and subjects *)

Definition ErrorCodeSubjectNotFound : Z := 40401.
Definition ErrorCodeVersionNotFound : Z := 40402.
Definition ErrorCodeSchemaNotFound : Z := 40403.
Definition ErrorCodeSubjectSoftDeleted : Z := 40404.
Definition ErrorCodeSubjectNotSoftDeleted : Z := 40405.
Definition ErrorCodeSchemaVersionSoftDeleted : Z := 40406.
Definition ErrorCodeVersionNotSoftDeleted : Z := 40407.
Definition ErrorCodeSubjectCompatNotFound : Z := 40408.
Definition ErrorCodeSubjectModeNotFound : Z := 40409.
Definition ErrorCodeIncompatibleSchema : Z := 409.
Definition ErrorCodeInvalidSchema : Z := 42201.
Definition ErrorCodeInvalidVersion : Z := 42202.
Definition ErrorCodeInvalidCompatibilityLevel : Z := 42203.
Definition ErrorCodeInvalidMode : Z := 42204.
Definition ErrorCodeOperationNotPermitted : Z := 42205.
Definition ErrorCodeReferenceExists : Z := 42206.
Definition ErrorCodeInternalServerError : Z := 50001.
Definition ErrorCodeStorageError : Z := 50002.

(** ** Exporters *)

Definition ErrorCodeExporterNotFound : Z := 40450.
Definition ErrorCodeExporterExists : Z := 40950.

(** ** Keys *)

Definition ErrorCodeKEKNotFound : Z := 40470.
Definition ErrorCodeKEKExists : Z := 40970.
Definition ErrorCodeDEKNotFound : Z := 40471.
Definition ErrorCodeDEKExists : Z := 40971.

(** ** Users and API keys *)

Definition ErrorCodeUnauthorized : Z := 40101.
Definition ErrorCodeForbidden : Z := 40301.
Definition ErrorCodeUserNotFound : Z := 40404.
Definition ErrorCodeUserExists : Z := 40901.
Definition ErrorCodeAPIKeyNotFound : Z := 40405.
Definition ErrorCodeAPIKeyExists : Z := 40902.
Definition ErrorCodeInvalidRole : Z := 42207.
Definition ErrorCodeInvalidPassword : Z := 42208.
Definition ErrorCodeAPIKeyExpired : Z := 40103.
Definition ErrorCodeAPIKeyDisabled : Z := 40104.
Definition ErrorCodeUserDisabled : Z := 40105.
