(* ===== verification/RegContext.v ===== *)
(** * Registry contexts: internal/context/context.go and the context helpers of internal/api

  A registry context is a name such as ["."] or [".Tenant"].  A subject may
  carry its context as a prefix, [":.Tenant:orders"]; this file models how the
  prefix is read and written, and which names are accepted. *)
From S2P Require Import Prelude GoStrings.
From Stdlib Require Import Ascii String.

Local Open Scope string_scope.

Definition DefaultContext : string := ".".
Definition GlobalContext : string := ".__GLOBAL".

(** What a request context holds under [registryContextKey]. *)
Definition request_ctx : Type := option string.

Definition WithRegistryContext (_ : request_ctx) (registryCtx : string) : request_ctx :=
  Some registryCtx.

Definition RegistryContextFromRequest (ctx : request_ctx) : string :=
  match ctx with
  | Some s => if decide (s = "") then DefaultContext else s
  | None => DefaultContext
  end.

(** ":.contextname:subject" is read as (".contextname", "subject"); anything
    else is a subject of the default context. *)
Definition ResolveSubject (subject : string) : string * string :=
  if HasPrefix subject ":." then
    let rest := drop_str 2 subject in
    match index_byte ":" rest with
    | Some (S _ as idx) => ("." ++ take_str idx rest, drop_str (idx + 1) rest)
    | _ => (DefaultContext, subject)
    end
  else (DefaultContext, subject).

Definition FormatSubject (registryCtx subject : string) : string :=
  if decide (registryCtx = DefaultContext) then subject
  else if decide (registryCtx = "") then subject
  else ":" ++ registryCtx ++ ":" ++ subject.

Definition isAlphaNumeric (c : ascii) : bool :=
  let n := nat_of_ascii c in
  ((97 <=? n) && (n <=? 122) || (65 <=? n) && (n <=? 90) || (48 <=? n) && (n <=? 57))%nat.

Definition context_char (c : ascii) : bool :=
  isAlphaNumeric c || Ascii.eqb c "-" || Ascii.eqb c "_" || Ascii.eqb c ".".

Fixpoint all_chars (p : ascii -> bool) (s : string) : bool :=
  match s with EmptyString => true | String c s => p c && all_chars p s end.

(** The code ranges over code points; every byte of a multi-byte code point is
    above 127, hence rejected here exactly when the code point is. *)
Definition IsValidContextName (name : string) : bool :=
  if decide (name = "") then false
  else if (255 <? String.length name)%nat then false
  else if decide (name = DefaultContext) then true
  else all_chars context_char name.

Definition NormalizeContextName (name : string) : string :=
  if decide (name = ":.:") then DefaultContext
  else if decide (name = "") then DefaultContext
  else if HasPrefix name "." then name
  else "." ++ name.

Definition IsGlobalContext (name : string) : bool := bool_decide (name = GlobalContext).

(** internal/api/handlers/context_helpers.go: a qualified subject wins over the
    context of the URL path, which wins over the default. *)
Definition resolveSubjectAndContext (ctx : request_ctx) (rawSubject : string) : string * string :=
  let '(resolvedCtx, resolvedSubject) := ResolveSubject rawSubject in
  if decide (resolvedCtx = DefaultContext)
  then (RegistryContextFromRequest ctx, rawSubject)
  else (resolvedCtx, resolvedSubject).

Definition rejectGlobalContext (registryCtx : string) : bool := IsGlobalContext registryCtx.

(** internal/api/context_middleware.go: [None] is the 422 answer, [Some] the
    context the next handler runs with. *)
Definition contextExtractionMiddleware (ctx : request_ctx) (ctxParam : string)
    : option request_ctx :=
  if decide (ctxParam = "") then Some ctx
  else
    let registryCtx := NormalizeContextName ctxParam in
    if IsValidContextName registryCtx
    then Some (WithRegistryContext ctx registryCtx)
    else None.

(** ** Lemmas *)

Lemma ResolveSubject_qualified name subj :
  name <> "" -> contains_byte ":" name = false ->
  ResolveSubject (":." ++ name ++ ":" ++ subj) = ("." ++ name, subj).
Proof.
  intros Hne Hc. unfold ResolveSubject. rewrite HasPrefix_app.
  change (drop_str 2 (":." ++ name ++ ":" ++ subj)) with (name ++ String ":" subj).
  rewrite index_byte_app by done.
  destruct name as [|c name]; [done|]. simpl String.length.
  change (S (String.length name)) with (String.length (String c name)).
  rewrite take_str_app. f_equal.
  replace (String.length (String c name) + 1)%nat with (String.length (String c name ++ ":")).
  - change (String c name ++ String ":" subj) with (String c name ++ (":" ++ subj)).
    rewrite <- append_assoc. apply drop_str_app.
  - clear. induction (String c name) as [|d s IH]; simpl; [done|by rewrite IH].
Qed.

(** The two shapes [ResolveSubject] distinguishes. *)
Lemma ResolveSubject_cases subject :
  (exists name subj, subject = ":." ++ name ++ ":" ++ subj /\ name <> "" /\
     contains_byte ":" name = false /\ ResolveSubject subject = ("." ++ name, subj)) \/
  ResolveSubject subject = (DefaultContext, subject).
Proof.
  unfold ResolveSubject at 2. destruct (HasPrefix subject ":.") eqn:Hp; [|by right].
  apply HasPrefix_iff in Hp as [rest ->]. simpl drop_str.
  destruct (index_byte ":" rest) as [[|i]|] eqn:Hi; [by right| |by right].
  apply index_byte_Some in Hi as (p & t & -> & Hlen & Hc). left.
  assert (p <> "") by (by destruct p). exists p, t. split_and!; [done..|].
  by apply ResolveSubject_qualified.
Qed.

Lemma context_char_not_colon s : all_chars context_char s = true -> contains_byte ":" s = false.
Proof.
  induction s as [|c s IH]; simpl; [done|]. intros [Hc Hs]%andb_true_iff.
  rewrite IH by done. rewrite orb_false_r.
  destruct (Ascii.eqb_spec c ":") as [->|]; [|done]. by vm_compute in Hc.
Qed.

Lemma NormalizeContextName_prefix name : HasPrefix (NormalizeContextName name) "." = true.
Proof.
  unfold NormalizeContextName. repeat case_decide; [done..|].
  destruct (HasPrefix name ".") eqn:E; [done|]. apply HasPrefix_app.
Qed.

(** ** Properties *)

(** Reading a subject's context and writing it back gives the
    same string, for every subject a client can send: no information is lost
    and no two subject strings name the same (context, subject) pair. *)
Theorem FormatSubject_ResolveSubject subject :
  (let '(registryCtx, subj) := ResolveSubject subject in FormatSubject registryCtx subj) = subject.
Proof.
  destruct (ResolveSubject_cases subject) as [(name & subj & -> & Hne & Hc & ->)| ->].
  - unfold FormatSubject, DefaultContext. rewrite !decide_False; [done|done|].
    intros [=]. by destruct name.
  - unfold FormatSubject. by rewrite decide_True.
Qed.

(** A subject formatted for a context that the URL middleware
    accepts is resolved back to exactly that context and subject, unless the
    context is the default one (whose subjects are written without prefix). *)
Theorem ResolveSubject_FormatSubject param subject c :
  contextExtractionMiddleware None param = Some (Some c) ->
  c <> DefaultContext ->
  ResolveSubject (FormatSubject c subject) = (c, subject).
Proof.
  unfold contextExtractionMiddleware, WithRegistryContext. intros H Hd.
  case_decide as Hp; [done|].
  destruct (IsValidContextName (NormalizeContextName param)) eqn:Hv; [|done].
  simplify_eq/=. pose proof (NormalizeContextName_prefix param) as Hpre.
  set (c := NormalizeContextName param) in *. clearbody c.
  apply HasPrefix_iff in Hpre as [name ->]. simpl in *.
  unfold IsValidContextName in Hv. rewrite decide_False in Hv by done.
  destruct (255 <? _)%nat; [done|]. rewrite decide_False in Hv by done.
  simpl in Hv. apply context_char_not_colon in Hv.
  unfold FormatSubject. rewrite !decide_False by done.
  apply ResolveSubject_qualified; [|done]. intros ->. by apply Hd.
Qed.

Lemma ResolveSubject_FormatSubject_witness :
  contextExtractionMiddleware None "Tenant-1" = Some (Some ".Tenant-1") /\
  ResolveSubject (FormatSubject ".Tenant-1" "orders") = (".Tenant-1", "orders").
Proof.
  split; [vm_compute; reflexivity|].
  apply (ResolveSubject_FormatSubject "Tenant-1"); [vm_compute; reflexivity|done].
Defined.
