(* ===== verification/StorageTypes.v ===== *)
(** * The data of the registry: internal/storage/storage.go

    Records keep the fields of the Go structs.  A Go map or slice that may be
    [nil] is an [option], because [reflect.DeepEqual], which the registry uses
    to compare metadata and rule sets, tells a nil map or slice from an empty
    one.  Times are nanoseconds since an arbitrary origin. *)
From S2P Require Import Prelude GoStrings.
From Stdlib Require Import Ascii String.

Local Open Scope string_scope.

(** ** Errors *)

(** The package-level error values [errors.Is] is asked about. *)
Inductive sentinel :=
  | ErrNotFound | ErrSubjectNotFound | ErrSchemaNotFound | ErrVersionNotFound
  | ErrInvalidVersion | ErrSubjectDeleted | ErrSubjectNotSoftDeleted | ErrVersionNotSoftDeleted
  | ErrSchemaExists | ErrSchemaIDConflict | ErrOperationNotPermitted
  | ErrUserNotFound | ErrUserExists | ErrAPIKeyNotFound | ErrAPIKeyExists | ErrAPIKeyNameExists
  | ErrInvalidAPIKey | ErrAPIKeyExpired | ErrAPIKeyDisabled | ErrUserDisabled
  | ErrInvalidRole | ErrPermissionDenied
  | ErrExporterNotFound | ErrExporterExists
  | ErrKEKNotFound | ErrKEKExists | ErrKEKSoftDeleted
  | ErrDEKNotFound | ErrDEKExists | ErrDEKSoftDeleted
  (* internal/registry/errors.go and registry.go *)
  | ErrInvalidSchema | ErrUnsupportedSchemaType | ErrInvalidRuleSet | ErrFailedResolveReferences
  | ErrReferenceExists | ErrInvalidCompatibility | ErrInvalidMode
  | ErrIncompatibleSchema | ErrImportIDConflict
  (* internal/auth/ldap.go *)
  | ErrLDAPUserNotFound | ErrLDAPInvalidCredentials.

#[export] Instance sentinel_eq_dec : EqDecision sentinel.
Proof. solve_decision. Defined.

(** The text each value was made with. *)
Definition sentinel_text (e : sentinel) : string :=
  match e with
  | ErrNotFound => "not found"
  | ErrSubjectNotFound => "subject not found"
  | ErrSchemaNotFound => "schema not found"
  | ErrVersionNotFound => "version not found"
  | ErrInvalidVersion => "invalid version"
  | ErrSubjectDeleted => "subject has been deleted"
  | ErrSubjectNotSoftDeleted => "subject must be soft-deleted before being permanently deleted"
  | ErrVersionNotSoftDeleted => "version must be soft-deleted before being permanently deleted"
  | ErrSchemaExists => "schema already exists"
  | ErrSchemaIDConflict => "schema ID already exists"
  | ErrOperationNotPermitted => "Cannot import since found existing subjects"
  | ErrUserNotFound => "user not found"
  | ErrUserExists => "user already exists"
  | ErrAPIKeyNotFound => "API key not found"
  | ErrAPIKeyExists => "API key already exists"
  | ErrAPIKeyNameExists => "API key name already exists for this user"
  | ErrInvalidAPIKey => "invalid API key"
  | ErrAPIKeyExpired => "API key has expired"
  | ErrAPIKeyDisabled => "API key is disabled"
  | ErrUserDisabled => "user is disabled"
  | ErrInvalidRole => "invalid role"
  | ErrPermissionDenied => "permission denied"
  | ErrExporterNotFound => "exporter not found"
  | ErrExporterExists => "exporter already exists"
  | ErrKEKNotFound => "key encryption key not found"
  | ErrKEKExists => "key encryption key already exists"
  | ErrKEKSoftDeleted => "key encryption key is soft-deleted"
  | ErrDEKNotFound => "data encryption key not found"
  | ErrDEKExists => "data encryption key already exists"
  | ErrDEKSoftDeleted => "data encryption key is soft-deleted"
  | ErrInvalidSchema => "invalid schema"
  | ErrUnsupportedSchemaType => "unsupported schema type"
  | ErrInvalidRuleSet => "invalid ruleSet"
  | ErrFailedResolveReferences => "failed to resolve references"
  | ErrReferenceExists => "schema is referenced by other schemas"
  | ErrInvalidCompatibility => "invalid compatibility level"
  | ErrInvalidMode => "invalid mode"
  | ErrIncompatibleSchema => "incompatible schema"
  | ErrImportIDConflict => "import ID conflict"
  | ErrLDAPUserNotFound => "ldap: user not found"
  | ErrLDAPInvalidCredentials => "ldap: invalid credentials"
  end.

(** An [error] value: the sentinels its chain holds, and its text. *)
Record error := MkError { err_chain : list sentinel; err_text : string }.

Definition sentinel_err (e : sentinel) : error := MkError [e] (sentinel_text e).
Definition errors_New (text : string) : error := MkError [] text.

(** [errors.Is]. *)
Definition errors_Is (e : error) (s : sentinel) : bool := bool_decide (s ∈ err_chain e).

(** [errors.Join(a, b)]. *)
Definition errors_Join (a b : error) : error :=
  MkError (err_chain a ++ err_chain b) (err_text a ++ String "010" (err_text b)).

(** [fmt.Errorf] with a [%w] verb between two pieces of text. *)
Definition Errorf_w (pre : string) (e : error) (post : string) : error :=
  MkError (err_chain e) (pre ++ err_text e ++ post).

(** A pair (value, error) of which callers read the value only without error. *)
Inductive result (A : Type) :=
  | Ok (a : A)
  | Err (e : error).
Arguments Ok {A} a.
Arguments Err {A} e.

Definition is_ok {A} (r : result A) : bool := match r with Ok _ => true | Err _ => false end.
Definition fails_with {A} (r : result A) (s : sentinel) : bool :=
  match r with Ok _ => false | Err e => errors_Is e s end.
Definition fail {A} (s : sentinel) : result A := Err (sentinel_err s).

(** ** Schema types *)

Definition SchemaTypeAvro : string := "AVRO".
Definition SchemaTypeProtobuf : string := "PROTOBUF".
Definition SchemaTypeJSON : string := "JSON".

Definition ParseSchemaType (raw : string) : string * bool :=
  if decide (raw = "") then (SchemaTypeAvro, true)
  else if bool_decide (raw ∈ [SchemaTypeAvro; SchemaTypeProtobuf; SchemaTypeJSON])
  then (raw, true)
  else ("", false).

(** ** Data contracts *)

Record Metadata := MkMetadata {
  Tags : option (gmap string (option (list string)));
  Properties : option (gmap string string);
  Sensitive : option (list string)
}.
Definition no_Metadata : Metadata := MkMetadata None None None.

Record Rule := MkRule {
  RuleName : string;
  RuleDoc : string;
  Kind : string;
  RuleMode : string;
  RuleType : string;
  RuleTags : option (list string);
  Params : option (gmap string string);
  Expr : string;
  OnSuccess : string;
  OnFailure : string;
  Disabled : bool;
  EnableAt : option Z
}.

Record RuleSet := MkRuleSet {
  MigrationRules : option (list Rule);
  DomainRules : option (list Rule);
  EncodingRules : option (list Rule)
}.
Definition no_RuleSet : RuleSet := MkRuleSet None None None.

#[export] Instance Metadata_eq_dec : EqDecision Metadata.
Proof. solve_decision. Defined.
#[export] Instance Rule_eq_dec : EqDecision Rule.
Proof. solve_decision. Defined.
#[export] Instance RuleSet_eq_dec : EqDecision RuleSet.
Proof. solve_decision. Defined.

(** ** Schemas *)

Record Reference := MkReference {
  RefName : string;
  RefSubject : string;
  RefVersion : Z;
  RefSchema : string   (* resolved content; not part of the stored reference's identity *)
}.

#[export] Instance Reference_eq_dec : EqDecision Reference.
Proof. solve_decision. Defined.

Record SchemaRecord := MkSchemaRecord {
  ID : Z;
  Subject : string;
  Version : Z;
  SchemaType : string;
  Schema : string;
  References : list Reference;
  SchemaMetadata : option Metadata;
  SchemaRuleSet : option RuleSet;
  Fingerprint : string;
  Deleted : bool;
  CreatedAt : Z
}.

#[export] Instance SchemaRecord_eq_dec : EqDecision SchemaRecord.
Proof. solve_decision. Defined.

Record SubjectVersion := MkSubjectVersion { SVSubject : string; SVVersion : Z }.

#[export] Instance SubjectVersion_eq_dec : EqDecision SubjectVersion.
Proof. solve_decision. Defined.

(** ** Configuration and mode *)

Record ConfigRecord := MkConfigRecord {
  ConfigSubject : string;
  CompatibilityLevel : string;
  Normalize : option bool;
  ValidateFields : option bool;
  Alias : string;
  CompatibilityGroup : string;
  DefaultMetadata : option Metadata;
  OverrideMetadata : option Metadata;
  DefaultRuleSet : option RuleSet;
  OverrideRuleSet : option RuleSet;
  AliasForDeks : string;
  CompatibilityPolicy : string
}.

(** [&storage.ConfigRecord{CompatibilityLevel: level}]. *)
Definition level_config (level : string) : ConfigRecord :=
  MkConfigRecord "" level None None "" "" None None None None "" "".

Record ModeRecord := MkModeRecord { ModeSubject : string; Mode : string }.

(** ** Encryption keys and exporters *)

Record KEKRecord := MkKEKRecord {
  KEKName : string;
  KmsType : string;
  KmsKeyID : string;
  KmsProps : option (gmap string string);
  KEKDoc : string;
  Shared : bool;
  KEKDeleted : bool;
  KEKTs : Z;
  KEKCreatedAt : Z;
  KEKUpdatedAt : Z
}.

Record DEKRecord := MkDEKRecord {
  DEKKekName : string;
  DEKSubject : string;
  DEKVersion : Z;
  Algorithm : string;
  EncryptedKeyMaterial : string;
  KeyMaterial : string;
  DEKDeleted : bool;
  DEKTs : Z
}.

Record ExporterRecord := MkExporterRecord {
  ExporterName : string;
  ContextType : string;
  ExporterContext : string;
  ExporterSubjects : list string;
  SubjectRenameFormat : string;
  ExporterConfig : option (gmap string string);
  ExporterCreatedAt : Z;
  ExporterUpdatedAt : Z
}.

Record ExporterStatusRecord := MkExporterStatusRecord {
  StatusName : string;
  State : string;
  StatusOffset : Z;
  StatusTs : Z;
  Trace : string
}.

Record ListSchemasParams := MkListSchemasParams {
  SubjectPrefix : string;
  ListDeleted : bool;
  LatestOnly : bool;
  Offset : Z;
  Limit : Z
}.

(** ** Lemmas *)

Lemma errors_Is_sentinel s s' : errors_Is (sentinel_err s) s' = bool_decide (s' = s).
Proof. unfold errors_Is, sentinel_err; simpl. apply bool_decide_ext. set_solver. Qed.

Lemma errors_Is_Errorf pre e post s : errors_Is (Errorf_w pre e post) s = errors_Is e s.
Proof. done. Qed.

Lemma errors_Is_Join a b s : errors_Is (errors_Join a b) s = errors_Is a s || errors_Is b s.
Proof.
  unfold errors_Is; simpl. rewrite <- bool_decide_or. apply bool_decide_ext. set_solver.
Qed.

Lemma fails_with_fail {A} s s' : @fails_with A (fail s) s' = bool_decide (s' = s).
Proof. apply errors_Is_sentinel. Qed.

Create Rewrite HintDb registry.
#[export] Hint Rewrite errors_Is_sentinel errors_Is_Errorf errors_Is_Join @fails_with_fail : registry.
