(* ===== verification/MemState.v ===== *)
(** * The state of the in-memory storage backend: internal/storage/memory/store.go

    The struct [Store] and its per-context part [contextStore], with the
    helpers the operations share.  A Go map of pointers whose values are never
    [nil] is a [gmap]; a map of maps is a [gmap] of [gmap]s, where an absent
    inner map is Go's [nil] map. *)
From S2P Require Import Prelude GoStrings StorageTypes.
From S2P Require RegContext.
From Stdlib Require Import String.

Local Open Scope Z_scope.

(** Pointers to user and API-key records, which the store shares with its callers. *)
Abbreviation loc := positive.

Record subjectVersionInfo := MkInfo {
  schemaID : Z;
  version : Z;
  deleted : bool;
  createdAt : Z;
  metadata : option Metadata;
  ruleSet : option RuleSet
}.

Record contextStore := MkContextStore {
  schemas : gmap Z SchemaRecord;
  subjectVersions : gmap string (gmap Z subjectVersionInfo);
  nextSubjectVersion : gmap string Z;
  fingerprints : gmap string Z;
  idToSubjectVersions : gmap Z (list SubjectVersion);
  configs : gmap string ConfigRecord;
  modes : gmap string ModeRecord;
  globalConfig : option ConfigRecord;
  globalMode : option ModeRecord;
  nextID : Z
}.

Definition newContextStore : contextStore :=
  {| schemas := ∅; subjectVersions := ∅; nextSubjectVersion := ∅; fingerprints := ∅;
     idToSubjectVersions := ∅; configs := ∅; modes := ∅;
     globalConfig := None; globalMode := None; nextID := 1 |}.

Record Store := MkStore {
  contexts : gmap string contextStore;
  users : gmap Z loc;
  usersByUsername : gmap string Z;
  nextUserID : Z;
  apiKeys : gmap Z loc;
  apiKeysByHash : gmap string Z;
  nextAPIKeyID : Z;
  exporters : gmap string ExporterRecord;
  exporterStatuses : gmap string ExporterStatusRecord;
  keks : gmap string KEKRecord;
  deks : gmap string (gmap string (gmap Z DEKRecord))
}.

Definition NewStore : Store :=
  {| contexts := {[ RegContext.DefaultContext := newContextStore ]};
     users := ∅; usersByUsername := ∅; nextUserID := 1;
     apiKeys := ∅; apiKeysByHash := ∅; nextAPIKeyID := 1;
     exporters := ∅; exporterStatuses := ∅; keks := ∅; deks := ∅ |}.

Definition putContext (s : Store) (registryCtx : string) (cs : contextStore) : Store :=
  {| s with contexts := <[registryCtx := cs]> (contexts s) |}.

(** The context and the store that holds it: created when missing. *)
Definition getOrCreateContext (s : Store) (registryCtx : string) : contextStore * Store :=
  match contexts s !! registryCtx with
  | Some cs => (cs, s)
  | None => (newContextStore, putContext s registryCtx newContextStore)
  end.

Definition getContext (s : Store) (registryCtx : string) : option contextStore :=
  contexts s !! registryCtx.

(** The version map of a subject, [nil] read as empty. *)
Definition versionMap (cs : contextStore) (subject : string) : gmap Z subjectVersionInfo :=
  from_opt ∅ (subjectVersions cs !! subject).

Definition putVersions (cs : contextStore) (subject : string)
    (vm : gmap Z subjectVersionInfo) : contextStore :=
  {| cs with subjectVersions := <[subject := vm]> (subjectVersions cs) |}.

(** [if cs.subjectVersions[subject] == nil { cs.subjectVersions[subject] = make(...) }] *)
Definition initVersions (cs : contextStore) (subject : string) : contextStore :=
  match subjectVersions cs !! subject with
  | Some _ => cs
  | None => putVersions cs subject ∅
  end.

(** Replaces [nil] before a comparison with [reflect.DeepEqual]. *)
Definition normalizeMetadata (m : option Metadata) : Metadata := from_opt no_Metadata m.
Definition normalizeRuleSet (r : option RuleSet) : RuleSet := from_opt no_RuleSet r.

(** [&storage.SchemaRecord{ID, SchemaType, Schema, References, Fingerprint}] *)
Definition schemaContent (id : Z) (record : SchemaRecord) : SchemaRecord :=
  MkSchemaRecord id EmptyString 0 (SchemaType record) (Schema record) (References record)
    None None (Fingerprint record) false 0.

(** The copy of a stored schema with a subject version's data filled in. *)
Definition fillRecord (schema : SchemaRecord) (subject : string) (v : Z)
    (info : subjectVersionInfo) : SchemaRecord :=
  MkSchemaRecord (ID schema) subject v (SchemaType schema) (Schema schema) (References schema)
    (metadata info) (ruleSet info) (Fingerprint schema) (deleted info) (createdAt info).

(** ** Lemmas *)

Lemma getOrCreateContext_spec s c cs s' :
  getOrCreateContext s c = (cs, s') ->
  cs = from_opt newContextStore (contexts s !! c) /\ s' = putContext s c cs.
Proof.
  unfold getOrCreateContext, putContext. destruct (contexts s !! c) as [cs0|] eqn:E;
    intros [= <- <-]; [|done].
  split; [done|]. rewrite insert_id by done. by destruct s.
Qed.

Lemma lookup_putContext s c cs : contexts (putContext s c cs) !! c = Some cs.
Proof. apply lookup_insert_eq. Qed.

Lemma lookup_putContext_ne s c c' cs :
  c <> c' -> contexts (putContext s c cs) !! c' = contexts s !! c'.
Proof. apply lookup_insert_ne. Qed.

Lemma putContext_putContext s c cs cs' :
  putContext (putContext s c cs) c cs' = putContext s c cs'.
Proof. unfold putContext; simpl. by rewrite insert_insert_eq. Qed.

Lemma versionMap_initVersions cs subject subject' :
  versionMap (initVersions cs subject) subject' = versionMap cs subject'.
Proof.
  unfold versionMap, initVersions. destruct (subjectVersions cs !! subject) eqn:E; [done|].
  simpl. rewrite lookup_insert. case_decide; [|done]. subst. by rewrite E.
Qed.

Lemma versionMap_putVersions cs subject vm subject' :
  versionMap (putVersions cs subject vm) subject' =
  if decide (subject = subject') then vm else versionMap cs subject'.
Proof. unfold versionMap. simpl. rewrite lookup_insert. by case_decide. Qed.
