(* ===== verification/MemStore.v ===== *)
(** * Schemas, subjects, configuration and modes of the in-memory backend

    internal/storage/memory/store.go, the operations scoped to a registry
    context.  An operation takes its [env] when it reads the clock or ranges
    over a map, then its arguments, then the store; it returns the new store
    when it takes the write lock.  The store's mutex makes each operation one
    atomic step. *)
From S2P Require Import Prelude GoStrings StorageTypes MemState.
From Stdlib Require Import String.

Local Open Scope Z_scope.

(** ** Shared pieces *)

(** [sort.Strings] and [sort.Ints] give the one sorted permutation.
    [sort.Slice] may order equal keys in any way: the keys are distinct where
    it sorts versions, and the input is shuffled first where it sorts IDs. *)
Definition sort_strings (l : list string) : list string := merge_sort String.le l.
Definition sort_ints (l : list Z) : list Z := merge_sort Z.le l.
Definition by_version (a b : SchemaRecord) : Prop := Version a <= Version b.
Definition by_id (a b : SchemaRecord) : Prop := ID a <= ID b.
#[export] Instance by_version_dec a b : Decision (by_version a b) := Z_le_dec (Version a) (Version b).
#[export] Instance by_id_dec a b : Decision (by_id a b) := Z_le_dec (ID a) (ID b).

(** The loop that keeps the greatest version above [0] that passes [p]. *)
Definition latest_version (p : subjectVersionInfo -> bool)
    (l : list (Z * subjectVersionInfo)) : Z :=
  fold_left (fun latest '(v, info) => if p info && (latest <? v) then v else latest) l 0.

Definition live (info : subjectVersionInfo) : bool := negb (deleted info).

(** The records of the version maps' entries whose content is stored. *)
Definition filled (cs : contextStore) (subject : string)
    (l : list (Z * subjectVersionInfo)) : list SchemaRecord :=
  omap (fun '(v, info) =>
    schema ← schemas cs !! schemaID info; Some (fillRecord schema subject v info)) l.

(** ** Registration *)

(** A live version of the same content, metadata and rule set. *)
Definition is_duplicate (cs : contextStore) (record : SchemaRecord)
    (entry : Z * subjectVersionInfo) : bool :=
  let info := snd entry in
  live info &&
  match schemas cs !! schemaID info with
  | Some existing =>
      bool_decide (Fingerprint existing = Fingerprint record) &&
      bool_decide (normalizeMetadata (metadata info) = normalizeMetadata (SchemaMetadata record)) &&
      bool_decide (normalizeRuleSet (ruleSet info) = normalizeRuleSet (SchemaRuleSet record))
  | None => false
  end.

(** The ID of the record's content, allocated when the fingerprint is new. *)
Definition assignID (cs : contextStore) (record : SchemaRecord) : Z * contextStore :=
  match fingerprints cs !! Fingerprint record with
  | Some existingID => (existingID, cs)
  | None =>
      let id := nextID cs in
      (id, {| cs with
              nextID := incr64 id;
              fingerprints := <[Fingerprint record := id]> (fingerprints cs);
              schemas := <[id := schemaContent id record]> (schemas cs) |})
  end.

(** Stores the subject version and its entry in the reverse index. *)
Definition addVersion (cs : contextStore) (subject : string) (v : Z)
    (info : subjectVersionInfo) : contextStore :=
  let cs := putVersions cs subject (<[v := info]> (versionMap cs subject)) in
  {| cs with
     idToSubjectVersions :=
       <[schemaID info := from_opt [] (idToSubjectVersions cs !! schemaID info)
                          ++ [MkSubjectVersion subject v]]> (idToSubjectVersions cs) |}.

(** Returns the outcome, the caller's record as the call leaves it, and the store. *)
Definition CreateSchema (e : env) (registryCtx : string) (record : SchemaRecord) (s : Store)
    : result unit * SchemaRecord * Store :=
  let '(cs, s) := getOrCreateContext s registryCtx in
  let cs := initVersions cs (Subject record) in
  match List.find (is_duplicate cs record) (range e (versionMap cs (Subject record))) with
  | Some (_, info) =>
      (fail ErrSchemaExists,
       {| record with ID := schemaID info; Version := version info |},
       putContext s registryCtx cs)
  | None =>
      let '(id, cs) := assignID cs record in
      let v := incr64 (from_opt 0 (nextSubjectVersion cs !! Subject record)) in
      let cs := {| cs with nextSubjectVersion := <[Subject record := v]> (nextSubjectVersion cs) |} in
      let info := MkInfo id v false (now e 0) (SchemaMetadata record) (SchemaRuleSet record) in
      (Ok tt,
       {| record with ID := id; Version := v; CreatedAt := now e 1 |},
       putContext s registryCtx (addVersion cs (Subject record) v info))
  end.

(** Stores the content under the given ID unless it is there, and points the
    fingerprint at it. *)
Definition importContent (cs : contextStore) (record : SchemaRecord) : contextStore :=
  {| cs with
     schemas := match schemas cs !! ID record with
                | Some _ => schemas cs
                | None => <[ID record := schemaContent (ID record) record]> (schemas cs)
                end;
     fingerprints := <[Fingerprint record := ID record]> (fingerprints cs) |}.

(** The ID holds other content. *)
Definition id_conflict (cs : contextStore) (record : SchemaRecord) : bool :=
  match schemas cs !! ID record with
  | Some existing => negb (bool_decide (Fingerprint existing = Fingerprint record))
  | None => false
  end.

Definition ImportSchema (e : env) (registryCtx : string) (record : SchemaRecord) (s : Store)
    : result unit * SchemaRecord * Store :=
  let '(cs, s) := getOrCreateContext s registryCtx in
  if id_conflict cs record then (fail ErrSchemaIDConflict, record, s)
  else
    let cs := initVersions cs (Subject record) in
    match versionMap cs (Subject record) !! Version record with
    | Some _ => (fail ErrSchemaExists, record, putContext s registryCtx cs)
    | None =>
        let cs := importContent cs record in
        let info := MkInfo (ID record) (Version record) false (now e 0)
                      (SchemaMetadata record) (SchemaRuleSet record) in
        let cs := addVersion cs (Subject record) (Version record) info in
        let cs :=
          if from_opt 0 (nextSubjectVersion cs !! Subject record) <=? Version record
          then {| cs with nextSubjectVersion :=
                    <[Subject record := Version record]> (nextSubjectVersion cs) |}
          else cs in
        (Ok tt, {| record with CreatedAt := now e 1 |}, putContext s registryCtx cs)
    end.

Definition NextID (registryCtx : string) (s : Store) : Z * Store :=
  let '(cs, s) := getOrCreateContext s registryCtx in
  (nextID cs, putContext s registryCtx {| cs with nextID := incr64 (nextID cs) |}).

Definition GetMaxSchemaID (registryCtx : string) (s : Store) : Z :=
  match getContext s registryCtx with
  | None => 0
  | Some cs => Int64.wrap (nextID cs - 1)
  end.

Definition SetNextID (registryCtx : string) (id : Z) (s : Store) : Store :=
  let '(cs, s) := getOrCreateContext s registryCtx in
  putContext s registryCtx {| cs with nextID := id |}.

(** ** Lookups *)

Definition GetSchemaByID (registryCtx : string) (id : Z) (s : Store) : result SchemaRecord :=
  match getContext s registryCtx with
  | None => fail ErrSchemaNotFound
  | Some cs =>
      match schemas cs !! id with
      | None => fail ErrSchemaNotFound
      | Some schema => Ok schema
      end
  end.

Definition GetSchemaBySubjectVersion (e : env) (registryCtx subject : string) (ver : Z)
    (s : Store) : result SchemaRecord :=
  match getContext s registryCtx with
  | None => fail ErrSubjectNotFound
  | Some cs =>
      let vm := versionMap cs subject in
      if decide (vm = ∅) then fail ErrSubjectNotFound
      else
        let latest := if ver =? -1 then latest_version live (range e vm) else ver in
        if (ver =? -1) && (latest =? 0) then fail ErrSubjectNotFound
        else
          match vm !! latest with
          | None => fail ErrVersionNotFound
          | Some info =>
              if deleted info then fail ErrVersionNotFound
              else match schemas cs !! schemaID info with
                   | None => fail ErrSchemaNotFound
                   | Some schema => Ok (fillRecord schema subject latest info)
                   end
          end
  end.

Definition GetSchemasBySubject (e : env) (registryCtx subject : string) (includeDeleted : bool)
    (s : Store) : result (list SchemaRecord) :=
  match getContext s registryCtx with
  | None => fail ErrSubjectNotFound
  | Some cs =>
      let vm := versionMap cs subject in
      if decide (vm = ∅) then fail ErrSubjectNotFound
      else
        let found := filled cs subject
          (List.filter (fun '(_, info) => includeDeleted || live info) (range e vm)) in
        match found with
        | [] => fail ErrSubjectNotFound
        | _ => Ok (merge_sort by_version found)
        end
  end.

Definition GetSchemaByFingerprint (e : env) (registryCtx subject fingerprint : string)
    (includeDeleted : bool) (s : Store) : result SchemaRecord :=
  match getContext s registryCtx with
  | None => fail ErrSubjectNotFound
  | Some cs =>
      let vm := versionMap cs subject in
      if decide (vm = ∅) then fail ErrSubjectNotFound
      else if negb includeDeleted && negb (existsb (fun '(_, info) => live info) (range e vm))
      then fail ErrSubjectNotFound
      else
        match List.find (fun schema => bool_decide (Fingerprint schema = fingerprint))
                (filled cs subject
                  (List.filter (fun '(_, info) => live info || includeDeleted) (range e vm))) with
        | Some schema => Ok schema
        | None => fail ErrSchemaNotFound
        end
  end.

Definition GetSchemaByGlobalFingerprint (registryCtx fingerprint : string) (s : Store)
    : result SchemaRecord :=
  match getContext s registryCtx with
  | None => fail ErrSchemaNotFound
  | Some cs =>
      match fingerprints cs !! fingerprint with
      | None => fail ErrSchemaNotFound
      | Some id =>
          match schemas cs !! id with
          | None => fail ErrSchemaNotFound
          | Some schema => Ok schema
          end
      end
  end.

Definition latest_step (acc : Z * option subjectVersionInfo) (en : Z * subjectVersionInfo)
    : Z * option subjectVersionInfo :=
  let '(latest, found) := acc in
  let '(v, info) := en in
  if live info && (latest <? v) then (v, Some info) else (latest, found).

Definition GetLatestSchema (e : env) (registryCtx subject : string) (s : Store)
    : result SchemaRecord :=
  match getContext s registryCtx with
  | None => fail ErrSubjectNotFound
  | Some cs =>
      let vm := versionMap cs subject in
      if decide (vm = ∅) then fail ErrSubjectNotFound
      else
        let '(latestVersion, latestInfo) := fold_left latest_step (range e vm) (0, None) in
        match latestInfo with
        | None => fail ErrSubjectNotFound
        | Some info =>
            match schemas cs !! schemaID info with
            | None => fail ErrSchemaNotFound
            | Some schema => Ok (fillRecord schema subject latestVersion info)
            end
        end
  end.

(** ** Deletion *)

(** Takes the subject version out of the reverse index; the content and its
    fingerprint go with the last subject version that uses them. *)
Definition unlink (cs : contextStore) (subject : string) (v id : Z) : contextStore :=
  let svs := from_opt [] (idToSubjectVersions cs !! id) in
  match List.filter (fun sv => negb (bool_decide (sv = MkSubjectVersion subject v))) svs with
  | [] =>
      {| cs with
         fingerprints := match schemas cs !! id with
                         | Some schema => delete (Fingerprint schema) (fingerprints cs)
                         | None => fingerprints cs
                         end;
         schemas := delete id (schemas cs);
         idToSubjectVersions := delete id (idToSubjectVersions cs) |}
  | newSvs =>
      {| cs with idToSubjectVersions := <[id := newSvs]> (idToSubjectVersions cs) |}
  end.

(** [info.deleted = true], on the record the version map points to. *)
Definition softDelete (cs : contextStore) (subject : string) (v : Z)
    (info : subjectVersionInfo) : contextStore :=
  putVersions cs subject (<[v := {| info with deleted := true |}]> (versionMap cs subject)).

Definition DeleteSchema (registryCtx subject : string) (ver : Z) (permanent : bool) (s : Store)
    : result unit * Store :=
  match getContext s registryCtx with
  | None => (fail ErrSubjectNotFound, s)
  | Some cs =>
      let vm := versionMap cs subject in
      if decide (vm = ∅) then (fail ErrSubjectNotFound, s)
      else
        match vm !! ver with
        | None => (fail ErrVersionNotFound, s)
        | Some info =>
            if permanent && live info then (fail ErrVersionNotSoftDeleted, s)
            else
              (Ok tt,
               putContext s registryCtx
                 (if permanent
                  then unlink (putVersions cs subject (delete ver vm)) subject ver (schemaID info)
                  else softDelete cs subject ver info))
        end
  end.

Definition deleteStep (subject : string) (permanent : bool)
    (acc : list Z * contextStore) (entry : Z * subjectVersionInfo) : list Z * contextStore :=
  let '(deletedVersions, cs) := acc in
  let '(v, info) := entry in
  if deleted info && negb permanent then acc
  else (deletedVersions ++ [v],
        if permanent then unlink cs subject v (schemaID info) else softDelete cs subject v info).

Definition DeleteSubject (e : env) (registryCtx subject : string) (permanent : bool) (s : Store)
    : result (list Z) * Store :=
  match getContext s registryCtx with
  | None => (fail ErrSubjectNotFound, s)
  | Some cs =>
      let vm := versionMap cs subject in
      if decide (vm = ∅) then (fail ErrSubjectNotFound, s)
      else
        let allDeleted := forallb (fun '(_, info) => deleted info) (range e vm) in
        if permanent && negb allDeleted then (fail ErrSubjectNotSoftDeleted, s)
        else if negb permanent && allDeleted then (fail ErrSubjectDeleted, s)
        else
          let '(deletedVersions, cs) :=
            fold_left (deleteStep subject permanent) (range e vm) ([], cs) in
          (Ok (sort_ints deletedVersions),
           putContext s registryCtx
             (if permanent
              then {| cs with
                      subjectVersions := delete subject (subjectVersions cs);
                      nextSubjectVersion := delete subject (nextSubjectVersion cs);
                      configs := delete subject (configs cs);
                      modes := delete subject (modes cs) |}
              else cs))
  end.

(** ** Subjects *)

Definition ListSubjects (e : env) (registryCtx : string) (includeDeleted : bool) (s : Store)
    : list string :=
  match getContext s registryCtx with
  | None => []
  | Some cs =>
      sort_strings (omap (fun '(subject, vm) =>
        if includeDeleted || existsb (fun '(_, info) => live info) (range e vm)
        then Some subject else None) (range e (subjectVersions cs)))
  end.

Definition SubjectExists (e : env) (registryCtx subject : string) (s : Store) : bool :=
  match getContext s registryCtx with
  | None => false
  | Some cs => existsb (fun '(_, info) => live info) (range e (versionMap cs subject))
  end.

(** ** Configuration *)

Definition GetConfig (registryCtx subject : string) (s : Store) : result ConfigRecord :=
  match getContext s registryCtx with
  | None => fail ErrNotFound
  | Some cs => match configs cs !! subject with None => fail ErrNotFound | Some c => Ok c end
  end.

Definition SetConfig (registryCtx subject : string) (config : ConfigRecord) (s : Store) : Store :=
  let '(cs, s) := getOrCreateContext s registryCtx in
  putContext s registryCtx
    {| cs with configs := <[subject := {| config with ConfigSubject := subject |}]> (configs cs) |}.

Definition DeleteConfig (registryCtx subject : string) (s : Store) : result unit * Store :=
  match getContext s registryCtx with
  | None => (fail ErrNotFound, s)
  | Some cs =>
      match configs cs !! subject with
      | None => (fail ErrNotFound, s)
      | Some _ =>
          (Ok tt, putContext s registryCtx {| cs with configs := delete subject (configs cs) |})
      end
  end.

Definition GetGlobalConfig (registryCtx : string) (s : Store) : result ConfigRecord :=
  match getContext s registryCtx with
  | None => fail ErrNotFound
  | Some cs => match globalConfig cs with None => fail ErrNotFound | Some c => Ok c end
  end.

Definition SetGlobalConfig (registryCtx : string) (config : ConfigRecord) (s : Store) : Store :=
  let '(cs, s) := getOrCreateContext s registryCtx in
  putContext s registryCtx
    {| cs with globalConfig := Some {| config with ConfigSubject := EmptyString |} |}.

Definition DeleteGlobalConfig (registryCtx : string) (s : Store) : Store :=
  match getContext s registryCtx with
  | None => s
  | Some cs => putContext s registryCtx {| cs with globalConfig := None |}
  end.

(** ** Modes *)

Definition GetMode (registryCtx subject : string) (s : Store) : result ModeRecord :=
  match getContext s registryCtx with
  | None => fail ErrNotFound
  | Some cs => match modes cs !! subject with None => fail ErrNotFound | Some m => Ok m end
  end.

Definition SetMode (registryCtx subject : string) (mode : ModeRecord) (s : Store) : Store :=
  let '(cs, s) := getOrCreateContext s registryCtx in
  putContext s registryCtx
    {| cs with modes := <[subject := {| mode with ModeSubject := subject |}]> (modes cs) |}.

Definition DeleteMode (registryCtx subject : string) (s : Store) : result unit * Store :=
  match getContext s registryCtx with
  | None => (fail ErrNotFound, s)
  | Some cs =>
      match modes cs !! subject with
      | None => (fail ErrNotFound, s)
      | Some _ =>
          (Ok tt, putContext s registryCtx {| cs with modes := delete subject (modes cs) |})
      end
  end.

Definition GetGlobalMode (registryCtx : string) (s : Store) : result ModeRecord :=
  match getContext s registryCtx with
  | None => fail ErrNotFound
  | Some cs => match globalMode cs with None => fail ErrNotFound | Some m => Ok m end
  end.

Definition SetGlobalMode (registryCtx : string) (mode : ModeRecord) (s : Store) : Store :=
  let '(cs, s) := getOrCreateContext s registryCtx in
  putContext s registryCtx
    {| cs with globalMode := Some {| mode with ModeSubject := EmptyString |} |}.

Definition DeleteGlobalMode (registryCtx : string) (s : Store) : Store :=
  match getContext s registryCtx with
  | None => s
  | Some cs => putContext s registryCtx {| cs with globalMode := None |}
  end.

(** ** Reverse lookups and listings *)

(** Every subject version with its [info], in the order of two nested [range]s. *)
Definition entries (e : env) (cs : contextStore) : list (string * (Z * subjectVersionInfo)) :=
  flat_map (fun '(subject, vm) => map (pair subject) (range e vm)) (range e (subjectVersions cs)).

Definition references_version (subject : string) (ver : Z) (schema : SchemaRecord) : bool :=
  existsb (fun ref => bool_decide (RefSubject ref = subject) && (RefVersion ref =? ver))
    (References schema).

Definition GetReferencedBy (e : env) (registryCtx subject : string) (ver : Z) (s : Store)
    : list SubjectVersion :=
  match getContext s registryCtx with
  | None => []
  | Some cs =>
      omap (fun '(subj, (v, info)) =>
        if deleted info then None
        else match schemas cs !! schemaID info with
             | None => None
             | Some schema =>
                 if references_version subject ver schema
                 then Some (MkSubjectVersion subj v) else None
             end) (entries e cs)
  end.

(** The subject version is still stored and, unless asked for, not deleted. *)
Definition visible (cs : contextStore) (includeDeleted : bool) (sv : SubjectVersion) : bool :=
  match versionMap cs (SVSubject sv) !! SVVersion sv with
  | Some info => includeDeleted || live info
  | None => false
  end.

Definition GetSubjectsBySchemaID (e : env) (registryCtx : string) (id : Z)
    (includeDeleted : bool) (s : Store) : result (list string) :=
  match getContext s registryCtx with
  | None => fail ErrSchemaNotFound
  | Some cs =>
      match schemas cs !! id with
      | None => fail ErrSchemaNotFound
      | Some _ =>
          let svs := from_opt [] (idToSubjectVersions cs !! id) in
          let subjectSet : gmap string bool :=
            fold_left (fun set sv =>
                if visible cs includeDeleted sv then <[SVSubject sv := true]> set else set)
              svs ∅ in
          Ok (sort_strings (map fst (range e subjectSet)))
      end
  end.

Definition GetVersionsBySchemaID (registryCtx : string) (id : Z) (includeDeleted : bool)
    (s : Store) : result (list SubjectVersion) :=
  match getContext s registryCtx with
  | None => fail ErrSchemaNotFound
  | Some cs =>
      match schemas cs !! id with
      | None => fail ErrSchemaNotFound
      | Some _ =>
          Ok (List.filter (visible cs includeDeleted) (from_opt [] (idToSubjectVersions cs !! id)))
      end
  end.

(** The first loop: the latest version of each subject that has one. *)
Definition latestVersions (e : env) (cs : contextStore) (includeDeleted : bool) : gmap string Z :=
  fold_left (fun acc '(subject, vm) =>
      let latest := latest_version (fun info => includeDeleted || live info) (range e vm) in
      if 0 <? latest then <[subject := latest]> acc else acc)
    (range e (subjectVersions cs)) ∅.

(** [l[off:]] and [l[:lim]] as the code guards them. *)
Definition paginate {A} (off lim : Z) (l : list A) : list A :=
  if (0 <? off) && (Z.of_nat (List.length l) <=? off) then []
  else
    let l := if 0 <? off then drop (Z.to_nat off) l else l in
    if (0 <? lim) && (lim <? Z.of_nat (List.length l)) then take (Z.to_nat lim) l else l.

Definition ListSchemas (e : env) (registryCtx : string) (params : ListSchemasParams) (s : Store)
    : list SchemaRecord :=
  match getContext s registryCtx with
  | None => []
  | Some cs =>
      let latest := if LatestOnly params then latestVersions e cs (ListDeleted params) else ∅ in
      let keep '(subject, (v, info)) :=
        HasPrefix subject (SubjectPrefix params) &&
        (ListDeleted params || live info) &&
        (negb (LatestOnly params) ||
         match latest !! subject with Some l => v =? l | None => false end) in
      let results :=
        omap (fun '(subject, (v, info)) =>
            schema ← schemas cs !! schemaID info; Some (fillRecord schema subject v info))
          (List.filter keep (entries e cs)) in
      paginate (Offset params) (Limit params) (merge_sort by_id (shuffle e results))
  end.

Definition ListContexts (e : env) (s : Store) : list string :=
  sort_strings (map fst (range e (contexts s))).
