(* ===== verification/MemInvariant.v ===== *)
(** * The invariant of the in-memory backend

    The five maps of a [contextStore] describe one relation between subject
    versions and schema contents.  [wf] states that they agree, and the lemmas
    show that each building block of the operations of MemStore.v keeps them
    in agreement. *)
From S2P Require Import Prelude GoStrings StorageTypes MemState MemStore.

Local Open Scope Z_scope.

(** ** Views of a context *)

(** The subject version [(subject, v)], if it is stored. *)
Definition entry (cs : contextStore) (subject : string) (v : Z) : option subjectVersionInfo :=
  versionMap cs subject !! v.

Definition index (cs : contextStore) (id : Z) : list SubjectVersion :=
  from_opt [] (idToSubjectVersions cs !! id).

Definition last_version (cs : contextStore) (subject : string) : Z :=
  from_opt 0 (nextSubjectVersion cs !! subject).

(** What a lookup of a subject version sees, deleted or not. *)
Definition stored (cs : contextStore) (subject : string) (v : Z) : option SchemaRecord :=
  info ← entry cs subject v;
  schema ← schemas cs !! schemaID info;
  Some (fillRecord schema subject v info).

(** ** The invariant, over a given set of subject versions *)

Record WF (ent : string -> Z -> option subjectVersionInfo) (cs : contextStore) : Prop := {
  wf_version : forall subject v info, ent subject v = Some info -> version info = v;
  wf_stored : forall subject v info, ent subject v = Some info -> is_Some (schemas cs !! schemaID info);
  wf_index : forall id sv, sv ∈ index cs id <->
    exists info, ent (SVSubject sv) (SVVersion sv) = Some info /\ schemaID info = id;
  wf_NoDup : forall id, NoDup (index cs id);
  wf_used : forall id, is_Some (schemas cs !! id) -> index cs id <> [];
  wf_id : forall id schema, schemas cs !! id = Some schema -> ID schema = id;
  wf_fingerprint : forall fp id, fingerprints cs !! fp = Some id ->
    exists schema, schemas cs !! id = Some schema /\ Fingerprint schema = fp;
  wf_bound : forall subject v info, ent subject v = Some info -> v <= last_version cs subject
}.

Definition wf (cs : contextStore) : Prop := WF (entry cs) cs.

(** Every ID in use is below the sequence: what a fresh ID needs. *)
Definition ids_below (cs : contextStore) : Prop :=
  forall id, is_Some (schemas cs !! id) -> id < nextID cs.

Definition Inv (s : Store) : Prop :=
  forall registryCtx cs, contexts s !! registryCtx = Some cs -> wf cs.

(** ** Views of updated contexts *)

Lemma entry_initVersions cs subject subject' v :
  entry (initVersions cs subject) subject' v = entry cs subject' v.
Proof. unfold entry. by rewrite versionMap_initVersions. Qed.

Lemma entry_addVersion cs subject v info subject' v' :
  entry (addVersion cs subject v info) subject' v' =
  if decide (subject = subject' /\ v = v') then Some info else entry cs subject' v'.
Proof.
  unfold entry. change (versionMap (addVersion cs subject v info) subject')
    with (versionMap (putVersions cs subject (<[v:=info]> (versionMap cs subject))) subject').
  rewrite versionMap_putVersions. case_decide; subst.
  - rewrite lookup_insert. repeat case_decide; naive_solver.
  - case_decide; naive_solver.
Qed.

Lemma index_addVersion cs subject v info id :
  index (addVersion cs subject v info) id =
  if decide (id = schemaID info) then index cs id ++ [MkSubjectVersion subject v] else index cs id.
Proof.
  unfold index, addVersion; simpl. rewrite lookup_insert. repeat case_decide; by subst.
Qed.

Lemma wf_NewStore : wf newContextStore.
Proof.
  split; unfold entry, versionMap, index, newContextStore; simpl;
    intros *; rewrite ?lookup_empty; simpl; rewrite ?lookup_empty;
    try done; try (by intros [? ?]); try apply NoDup_nil_2.
  set_solver.
Qed.

Lemma WF_ext ent ent' cs :
  (forall subject v, ent' subject v = ent subject v) -> WF ent cs -> WF ent' cs.
Proof.
  intros H [H1 H2 H3 H4 H5 H6 H7 H8]; split; intros *; rewrite ?H; eauto.
Qed.

(** ** Adding a subject version *)

(** The content of [id] is stored already, or is stored now. *)
Definition stores_id (cs cs' : contextStore) (id : Z) : Prop :=
  schemas cs' = schemas cs /\ is_Some (schemas cs !! id) \/
  exists schema, schemas cs !! id = None /\ ID schema = id /\
    schemas cs' = <[id := schema]> (schemas cs).

Lemma stores_id_mono cs cs' id id' schema :
  stores_id cs cs' id -> schemas cs !! id' = Some schema -> schemas cs' !! id' = Some schema.
Proof.
  intros [[-> _]|(sc & Hn & _ & ->)] H; [done|].
  rewrite lookup_insert_ne; [done|]. intros ->. congruence.
Qed.

Lemma stores_id_here cs cs' id : stores_id cs cs' id -> is_Some (schemas cs' !! id).
Proof.
  intros [[-> ?]|(sc & _ & _ & ->)]; [done|]. rewrite lookup_insert_eq. eauto.
Qed.

Lemma wf_addVersion cs cs' subject v info :
  wf cs ->
  entry cs subject v = None ->
  version info = v ->
  (forall subject' v', entry cs' subject' v' = entry cs subject' v') ->
  (forall id, index cs' id = index cs id) ->
  stores_id cs cs' (schemaID info) ->
  (forall fp id, fingerprints cs' !! fp = Some id ->
     exists schema, schemas cs' !! id = Some schema /\ Fingerprint schema = fp) ->
  (forall subject', last_version cs subject' <= last_version cs' subject') ->
  v <= last_version cs' subject ->
  wf (addVersion cs' subject v info).
Proof.
  intros [H1 H2 H3 H4 H5 H6 H7 H8] Hnew Hv He Hi Hs Hfp Hmono Hb.
  assert (Hent : forall sub w i, entry (addVersion cs' subject v info) sub w = Some i ->
     (sub = subject /\ w = v /\ i = info) \/ entry cs sub w = Some i).
  { intros sub w i. rewrite entry_addVersion, He. case_decide; naive_solver. }
  split.
  - intros sub w i [(-> & -> & ->)|E]%Hent; eauto.
  - intros sub w i [(-> & -> & ->)|E]%Hent.
    + by apply stores_id_here in Hs.
    + destruct (H2 _ _ _ E) as [sc Hsc]. exists sc. eapply stores_id_mono; eauto.
  - intros id [sub w]; simpl. rewrite index_addVersion, Hi.
    rewrite entry_addVersion, He.
    transitivity ((MkSubjectVersion sub w) ∈ index cs id \/
                  (id = schemaID info /\ sub = subject /\ w = v)).
    { case_decide; [rewrite elem_of_app, list_elem_of_singleton|]; naive_solver. }
    rewrite H3; simpl. case_decide as D; [destruct D as [-> ->]|]; naive_solver.
  - intros id. rewrite index_addVersion, Hi. case_decide as D; [|done].
    apply NoDup_app; split_and!; [done| |apply NoDup_singleton].
    intros sv Hin ->%list_elem_of_singleton. apply H3 in Hin as (i & E & _). simpl in E. congruence.
  - intros id Hid. rewrite index_addVersion, Hi. case_decide as D.
    + by destruct (index cs id).
    + apply H5. destruct Hs as [[Hs _]|(sc & _ & _ & Hs)]; simpl in Hid; rewrite Hs in Hid; [done|].
      by rewrite lookup_insert_ne in Hid.
  - intros id sc; simpl. destruct Hs as [[-> _]|(sc' & _ & Hid & ->)]; [apply H6|].
    rewrite lookup_insert. case_decide; [|apply H6]. by intros [= <-]; subst.
  - apply Hfp.
  - intros sub w i [(-> & -> & ->)|E]%Hent; [apply Hb|].
    etransitivity; [eapply H8; eauto|apply Hmono].
Qed.

(** ** Removing a subject version *)

Definition without (ent : string -> Z -> option subjectVersionInfo) (subject : string) (v : Z)
    : string -> Z -> option subjectVersionInfo :=
  fun subject' v' => if decide (subject = subject' /\ v = v') then None else ent subject' v'.

Definition other_than (subject : string) (v : Z) (sv : SubjectVersion) : bool :=
  negb (bool_decide (sv = MkSubjectVersion subject v)).

Lemma index_unlink cs subject v id id' :
  index (unlink cs subject v id) id' =
  if decide (id' = id) then List.filter (other_than subject v) (index cs id) else index cs id'.
Proof.
  unfold index, unlink. fold (other_than subject v).
  destruct (List.filter _ _) eqn:E; simpl.
  - rewrite lookup_delete. repeat case_decide; by subst.
  - rewrite lookup_insert. repeat case_decide; by subst.
Qed.

Lemma schemas_unlink cs subject v id :
  schemas (unlink cs subject v id) =
  if decide (List.filter (other_than subject v) (index cs id) = []) then delete id (schemas cs)
  else schemas cs.
Proof.
  unfold unlink, index. fold (other_than subject v). by destruct (List.filter _ _).
Qed.

(** A fingerprint that survives is stored; it points where it pointed. *)
Lemma fingerprints_unlink cs subject v id fp id' :
  fingerprints (unlink cs subject v id) !! fp = Some id' ->
  fingerprints cs !! fp = Some id' /\
  (id' = id -> forall schema, schemas cs !! id = Some schema -> Fingerprint schema = fp ->
    List.filter (other_than subject v) (index cs id) <> []).
Proof.
  unfold unlink, index. fold (other_than subject v).
  destruct (List.filter _ _) eqn:E; simpl; [|done].
  destruct (schemas cs !! id) as [sc|] eqn:Es; [|by split; [|intros _ ? [=]]].
  rewrite lookup_delete. case_decide; [done|]. intros Hfp; split; [done|naive_solver].
Qed.

Lemma elem_of_other_than subject v sv l :
  sv ∈ List.filter (other_than subject v) l <-> sv ∈ l /\ sv <> MkSubjectVersion subject v.
Proof.
  rewrite !list_elem_of_In, filter_In. unfold other_than.
  by rewrite negb_true_iff, bool_decide_eq_false.
Qed.

Lemma NoDup_filter_bool {A} (p : A -> bool) l : NoDup l -> NoDup (List.filter p l).
Proof. rewrite !NoDup_ListNoDup. apply List.NoDup_filter. Qed.

Lemma without_Some ent subject v subject' v' info :
  without ent subject v subject' v' = Some info <->
  ent subject' v' = Some info /\ (subject', v') <> (subject, v).
Proof. unfold without. case_decide; naive_solver. Qed.

Lemma WF_unlink ent cs subject v info :
  WF ent cs -> ent subject v = Some info ->
  WF (without ent subject v) (unlink cs subject v (schemaID info)).
Proof.
  intros [H1 H2 H3 H4 H5 H6 H7 H8] E. split.
  - intros ??? [? _]%without_Some; eauto.
  - intros sub w i [Ei Hne]%without_Some. rewrite schemas_unlink. case_decide as D; [|eauto].
    rewrite lookup_delete_ne; [eauto|]. intros Heq.
    assert (Hin : MkSubjectVersion sub w ∈ List.filter (other_than subject v) (index cs (schemaID info))).
    { apply elem_of_other_than. split; [apply H3; simpl; eauto|naive_solver]. }
    rewrite D in Hin. set_solver.
  - intros id [sub w]; simpl. setoid_rewrite without_Some. rewrite index_unlink.
    case_decide as D; [subst; rewrite elem_of_other_than|]; rewrite H3; naive_solver.
  - intros id. rewrite index_unlink. case_decide; [apply NoDup_filter_bool|]; apply H4.
  - intros id. rewrite schemas_unlink, index_unlink. case_decide as D; [|case_decide; naive_solver].
    rewrite lookup_delete. repeat case_decide; naive_solver.
  - intros id sc. rewrite schemas_unlink. case_decide; [|apply H6].
    rewrite lookup_delete. case_decide; naive_solver.
  - intros fp id [Hfp Hkeep]%fingerprints_unlink. destruct (H7 _ _ Hfp) as (sc & Hsc & Hf).
    exists sc; split; [|done]. rewrite schemas_unlink. case_decide as D; [|done].
    rewrite lookup_delete_ne; [done|]. intros <-. by apply (Hkeep eq_refl sc).
  - intros sub w i [Ei _]%without_Some. transitivity (last_version cs sub); [eauto|].
    unfold last_version, unlink. by case_match.
Qed.
