(* ===== verification/MemStoreFacts.v ===== *)
(** * The in-memory backend: registration, lookups and the invariant

    What CreateSchema, ImportSchema and the lookups do, on every branch, and
    that every operation keeps the invariant of MemInvariant.v. *)
From S2P Require Import Prelude GoStrings StorageTypes MemState MemStore MemInvariant.

Local Open Scope Z_scope.

Definition ctx (s : Store) (registryCtx : string) : contextStore :=
  from_opt newContextStore (contexts s !! registryCtx).

(** A live version of the record's subject has its content, metadata and rule set. *)
Definition has_duplicate (cs : contextStore) (record : SchemaRecord) : Prop :=
  exists v info, entry cs (Subject record) v = Some info /\ is_duplicate cs record (v, info) = true.

(** ** Contexts *)

Lemma Inv_ctx s registryCtx : Inv s -> wf (ctx s registryCtx).
Proof.
  intros H. unfold ctx. destruct (contexts s !! registryCtx) eqn:E; simpl; [eauto|apply wf_NewStore].
Qed.

Lemma Inv_putContext s registryCtx cs : Inv s -> wf cs -> Inv (putContext s registryCtx cs).
Proof.
  intros H Hcs c cs'. unfold putContext; simpl. rewrite lookup_insert.
  case_decide; [by intros [= <-]|apply H].
Qed.

Lemma ctx_putContext s registryCtx cs registryCtx' :
  ctx (putContext s registryCtx cs) registryCtx' =
  if decide (registryCtx = registryCtx') then cs else ctx s registryCtx'.
Proof. unfold ctx, putContext; simpl. rewrite lookup_insert. by case_decide. Qed.

Lemma getContext_Some s registryCtx cs : getContext s registryCtx = Some cs -> ctx s registryCtx = cs.
Proof. unfold getContext, ctx. by intros ->. Qed.

(** Fields [initVersions] leaves alone. *)
Lemma initVersions_fields cs subject :
  schemas (initVersions cs subject) = schemas cs /\
  fingerprints (initVersions cs subject) = fingerprints cs /\
  nextSubjectVersion (initVersions cs subject) = nextSubjectVersion cs /\
  idToSubjectVersions (initVersions cs subject) = idToSubjectVersions cs /\
  nextID (initVersions cs subject) = nextID cs /\
  configs (initVersions cs subject) = configs cs /\ modes (initVersions cs subject) = modes cs.
Proof. unfold initVersions. by destruct (subjectVersions cs !! subject). Qed.

Lemma is_duplicate_initVersions cs subject record en :
  is_duplicate (initVersions cs subject) record en = is_duplicate cs record en.
Proof. unfold is_duplicate. by destruct (initVersions_fields cs subject) as [-> _]. Qed.

Lemma wf_initVersions cs subject : wf cs -> wf (initVersions cs subject).
Proof.
  intros H. unfold wf. eapply WF_ext; [apply entry_initVersions|].
  destruct (initVersions_fields cs subject) as (E1 & E2 & E3 & E4 & _).
  destruct H as [H1 H2 H3 H4 H5 H6 H7 H8].
  split; unfold index, last_version; rewrite ?E1, ?E2, ?E3, ?E4; eauto.
Qed.

(** ** CreateSchema *)

Lemma find_duplicate e cs record :
  match List.find (is_duplicate cs record) (range e (versionMap cs (Subject record))) with
  | Some (v, info) => entry cs (Subject record) v = Some info /\ is_duplicate cs record (v, info) = true
  | None => ~ has_duplicate cs record
  end.
Proof.
  destruct (List.find _ _) as [[v info]|] eqn:E.
  - by apply find_range_Some in E.
  - rewrite find_range_None in E. intros (v & info & Hv & Hd). rewrite (E _ _ Hv) in Hd. done.
Qed.

Lemma is_duplicate_Subject cs record v info :
  is_duplicate cs record (v, info) = true ->
  deleted info = false /\ exists schema, schemas cs !! schemaID info = Some schema /\
    Fingerprint schema = Fingerprint record /\
    normalizeMetadata (metadata info) = normalizeMetadata (SchemaMetadata record) /\
    normalizeRuleSet (ruleSet info) = normalizeRuleSet (SchemaRuleSet record).
Proof.
  unfold is_duplicate, live. simpl. rewrite andb_true_iff, negb_true_iff. intros [Hd Hm].
  split; [done|]. destruct (schemas cs !! schemaID info) as [sc|]; [|done].
  rewrite !andb_true_iff, !bool_decide_eq_true in Hm. exists sc. naive_solver.
Qed.

(** The outcome of a registration that finds no duplicate. *)
Lemma CreateSchema_new e registryCtx record s :
  let cs := initVersions (ctx s registryCtx) (Subject record) in
  ~ has_duplicate (ctx s registryCtx) record ->
  let '(id, cs1) := assignID cs record in
  let v := incr64 (last_version cs (Subject record)) in
  CreateSchema e registryCtx record s =
    (Ok tt, {| record with ID := id; Version := v; CreatedAt := now e 1 |},
     putContext s registryCtx
       (addVersion {| cs1 with nextSubjectVersion := <[Subject record := v]> (nextSubjectVersion cs1) |}
          (Subject record) v
          (MkInfo id v false (now e 0) (SchemaMetadata record) (SchemaRuleSet record)))).
Proof.
  intros cs Hdup. unfold CreateSchema.
  destruct (getOrCreateContext s registryCtx) as [cs0 s0] eqn:E.
  apply getOrCreateContext_spec in E as [Ecs ->]. fold (ctx s registryCtx) in Ecs. subst cs0. fold cs.
  pose proof (find_duplicate e cs record) as Hf.
  destruct (List.find _ _) as [[v info]|].
  { destruct Hf as [Hv Hd]. contradict Hdup. exists v, info.
    unfold cs in Hv, Hd. by rewrite entry_initVersions in Hv; rewrite is_duplicate_initVersions in Hd. }
  unfold assignID, last_version.
  destruct (fingerprints cs !! Fingerprint record); by rewrite putContext_putContext.
Qed.

(** The context after content was assigned an ID and a version number. *)
Lemma assignID_stores cs record id cs' :
  wf cs ->
  (fingerprints cs !! Fingerprint record = None -> schemas cs !! nextID cs = None) ->
  assignID cs record = (id, cs') ->
  stores_id cs cs' id /\
  (exists schema, schemas cs' !! id = Some schema /\ Fingerprint schema = Fingerprint record) /\
  (forall fp id', fingerprints cs' !! fp = Some id' ->
     exists schema, schemas cs' !! id' = Some schema /\ Fingerprint schema = fp) /\
  subjectVersions cs' = subjectVersions cs /\ idToSubjectVersions cs' = idToSubjectVersions cs /\
  nextSubjectVersion cs' = nextSubjectVersion cs.
Proof.
  intros Hwf Hfresh. unfold assignID.
  destruct (fingerprints cs !! Fingerprint record) as [id0|] eqn:Efp; intros [= <- <-].
  - pose proof (wf_fingerprint _ _ Hwf) as Hfp. destruct (Hfp _ _ Efp) as (sc & Hsc & Hf).
    split_and!; eauto. left; eauto.
  - specialize (Hfresh eq_refl). simpl. split_and!; try done.
    + right. exists (schemaContent (nextID cs) record). done.
    + exists (schemaContent (nextID cs) record). by rewrite lookup_insert_eq.
    + intros fp id'. rewrite lookup_insert. case_decide as D.
      * intros [= <-]. exists (schemaContent (nextID cs) record). by rewrite lookup_insert_eq.
      * intros H. destruct (wf_fingerprint _ _ Hwf _ _ H) as (sc & Hsc & Hf). exists sc.
        split; [|done]. rewrite lookup_insert_ne; [done|]. intros <-. congruence.
Qed.

Definition fresh_version (cs : contextStore) (subject : string) : Prop :=
  0 <= last_version cs subject < Int64.max.

Lemma fresh_version_incr cs subject :
  fresh_version cs subject -> incr64 (last_version cs subject) = last_version cs subject + 1.
Proof. intros []. apply Int64.wrap_id. unfold Int64.in_range, Int64.min in *. lia. Qed.

(** The next ID is free, unless the content has an ID already. *)
Definition fresh_id (cs : contextStore) (record : SchemaRecord) : Prop :=
  fingerprints cs !! Fingerprint record = None -> schemas cs !! nextID cs = None.

Lemma CreateSchema_spec e registryCtx record s :
  Inv s -> ~ has_duplicate (ctx s registryCtx) record ->
  fresh_version (ctx s registryCtx) (Subject record) -> fresh_id (ctx s registryCtx) record ->
  exists id cs1,
    let v := last_version (ctx s registryCtx) (Subject record) + 1 in
    let info := MkInfo id v false (now e 0) (SchemaMetadata record) (SchemaRuleSet record) in
    let cs := addVersion cs1 (Subject record) v info in
    id = from_opt (nextID (ctx s registryCtx)) (fingerprints (ctx s registryCtx) !! Fingerprint record) /\
    CreateSchema e registryCtx record s =
      (Ok tt, {| record with ID := id; Version := v; CreatedAt := now e 1 |},
       putContext s registryCtx cs) /\
    wf cs /\
    stores_id (ctx s registryCtx) cs1 id /\
    (exists schema, schemas cs1 !! id = Some schema /\ Fingerprint schema = Fingerprint record) /\
    (fingerprints (ctx s registryCtx) !! Fingerprint record = None ->
      schemas cs1 !! id = Some (schemaContent id record)) /\
    (forall subject w, entry cs1 subject w = entry (ctx s registryCtx) subject w).
Proof.
  intros Hinv Hdup Hver Hid. set (cs0 := ctx s registryCtx) in *.
  pose proof (CreateSchema_new e registryCtx record s Hdup) as Hc.
  cbv zeta in Hc. fold cs0 in Hc. set (cs := initVersions cs0 (Subject record)) in *.
  assert (Hwf : wf cs) by apply wf_initVersions, Inv_ctx, Hinv.
  destruct (initVersions_fields cs0 (Subject record)) as (Es & Ef & En & Ei & Eid & _). fold cs in Es, Ef, En, Ei, Eid.
  assert (El : last_version cs (Subject record) = last_version cs0 (Subject record))
    by (unfold last_version; by rewrite En).
  destruct (assignID cs record) as [id cs1] eqn:Ea. fold cs in Hc. rewrite El in Hc.
  rewrite (fresh_version_incr _ _ Hver) in Hc.
  destruct (assignID_stores cs record id cs1 Hwf) as (Hs & Hc1 & Hfp & Hsv & Hix & Hnx).
  { rewrite Ef, Es, Eid. apply Hid. }
  { done. }
  assert (Hent : forall subject w, entry cs1 subject w = entry cs0 subject w).
  { intros subject w. transitivity (entry cs subject w); [|apply entry_initVersions].
    unfold entry, versionMap. by rewrite Hsv. }
  eexists id, _. cbv zeta. split; [|split; [exact Hc|]].
  { unfold assignID in Ea. rewrite Ef, Eid in Ea. by destruct (fingerprints cs0 !! _); injection Ea. }
  split; [|unfold stores_id in *; simpl; rewrite Es in Hs; split_and!; try done].
  - apply (wf_addVersion cs0); simpl; try done; [by apply Inv_ctx| | | | |].
    + destruct (entry cs0 _ _) eqn:E; [|done]. apply (wf_bound _ _ (Inv_ctx s registryCtx Hinv)) in E. fold cs0 in E. lia.
    + intros i. unfold index; simpl. by rewrite Hix, Ei.
    + unfold stores_id in *; simpl. by rewrite Es in Hs.
    + intros subject. unfold last_version; simpl. rewrite lookup_insert, Hnx, En.
      case_decide; subst; simpl; lia.
    + unfold last_version; simpl. rewrite lookup_insert_eq. simpl. lia.
  - intros Hnone. unfold assignID in Ea. rewrite Ef, Hnone in Ea. injection Ea as <- <-. simpl.
    by rewrite lookup_insert_eq.
Qed.

(** ** Lookups *)

Lemma entry_nonempty cs subject v info : entry cs subject v = Some info -> versionMap cs subject <> ∅.
Proof. unfold entry. intros H E. rewrite E in H. by rewrite lookup_empty in H. Qed.

Lemma GetSchemaBySubjectVersion_explicit e registryCtx subject v s :
  v <> -1 ->
  GetSchemaBySubjectVersion e registryCtx subject v s =
  match getContext s registryCtx with
  | None => fail ErrSubjectNotFound
  | Some cs =>
      if decide (versionMap cs subject = ∅) then fail ErrSubjectNotFound
      else match entry cs subject v with
           | None => fail ErrVersionNotFound
           | Some info =>
               if deleted info then fail ErrVersionNotFound
               else match schemas cs !! schemaID info with
                    | None => fail ErrSchemaNotFound
                    | Some schema => Ok (fillRecord schema subject v info)
                    end
           end
  end.
Proof.
  intros Hv. unfold GetSchemaBySubjectVersion, entry.
  destruct (getContext s registryCtx); [|done]. case_decide; [done|].
  by replace (v =? -1) with false by lia.
Qed.

(** [latest_version] is the greatest positive version that passes, or [0]. *)
Lemma latest_version_spec p l :
  let r := latest_version p l in
  (forall v info, (v, info) ∈ l -> p info = true -> v <= r) /\
  (r = 0 \/ 0 < r /\ exists info, (r, info) ∈ l /\ p info = true).
Proof.
  unfold latest_version. cbv zeta.
  enough (H : forall a, 0 <= a ->
    let r := fold_left (fun latest '(v, info) => if p info && (latest <? v) then v else latest) l a in
    a <= r /\ (forall v info, (v, info) ∈ l -> p info = true -> v <= r) /\
    (r = a \/ 0 < r /\ exists info, (r, info) ∈ l /\ p info = true)).
  { destruct (H 0) as (_ & H1 & H2); [lia|]. done. }
  induction l as [|[v info] l IH]; intros a Ha; simpl; [split_and!; [lia|set_solver|auto]|].
  set (b := if p info && (a <? v) then v else a).
  assert (Hb : a <= b /\ (p info = true -> v <= b)) by (unfold b; destruct (p info), (Z.ltb_spec a v); simpl; lia).
  destruct (IH b) as (H1 & H2 & H3); [lia|]. split_and!; [lia| |].
  - intros v' info' [[= -> ->]|Hin]%elem_of_cons Hp; [|eauto].
    destruct Hb as [_ Hb]. specialize (Hb Hp). lia.
  - destruct H3 as [->|(? & i & Hin & Hp)]; [|right; split; [done|]; exists i; set_solver].
    unfold b. destruct (p info) eqn:Ep; simpl; [|auto]. case_match; [|auto].
    right. split; [lia|]. exists info. set_solver.
Qed.

Lemma latest_version_range e p vm :
  let r := latest_version p (range e vm) in
  (forall v info, vm !! v = Some info -> p info = true -> v <= r) /\
  (r = 0 \/ 0 < r /\ exists info, vm !! r = Some info /\ p info = true).
Proof.
  destruct (latest_version_spec p (range e vm)) as [H1 H2]. cbv zeta. split.
  - intros v info Hv. by apply H1, elem_of_range.
  - destruct H2 as [?|(? & info & Hin & ?)]; [auto|right]. split; [done|]. exists info.
    by rewrite elem_of_range in Hin.
Qed.

Lemma latest_version_nonneg e p vm : 0 <= latest_version p (range e vm).
Proof. destruct (latest_version_range e p vm) as [_ [?|[? _]]]; lia. Qed.

(** The order of [range] does not show in the latest version. *)
Lemma latest_version_det e e' p vm : latest_version p (range e vm) = latest_version p (range e' vm).
Proof.
  destruct (latest_version_range e p vm) as [H1 H2], (latest_version_range e' p vm) as [H1' H2'].
  cbv zeta in *.
  pose proof (latest_version_nonneg e p vm). pose proof (latest_version_nonneg e' p vm).
  destruct H2 as [?|(? & i & Hi & Hp)], H2' as [?|(? & i' & Hi' & Hp')];
    try (pose proof (H1 _ _ Hi' Hp')); try (pose proof (H1' _ _ Hi Hp)); lia.
Qed.

(** GetLatestSchema's loop also remembers the entry it keeps. *)
Lemma latest_loop l :
  fst (fold_left latest_step l (0, None)) = latest_version live l /\
  match snd (fold_left latest_step l (0, None)) with
  | Some info => 0 < latest_version live l /\ (latest_version live l, info) ∈ l /\ live info = true
  | None => latest_version live l = 0
  end.
Proof.
  unfold latest_version.
  enough (H : forall a f,
    let '(r, f') := fold_left latest_step l (a, f) in
    r = fold_left (fun latest '(v, info) => if live info && (latest <? v) then v else latest) l a /\
    (f' = f /\ r = a \/ exists info, f' = Some info /\ a < r /\ (r, info) ∈ l /\ live info = true)).
  { specialize (H 0 None). destruct (fold_left latest_step l _) as [r f]. simpl.
    destruct H as [<- [[-> ->]|(info & -> & ? & ? & ?)]]; done. }
  induction l as [|[v info] l IH]; intros a f; simpl; [auto|].
  destruct (live info && (a <? v)) eqn:E.
  - specialize (IH v (Some info)). destruct (fold_left latest_step l _) as [r f'].
    destruct IH as [IH H]. split; [done|]. right. apply andb_prop in E as [E Hlt%Z.ltb_lt].
    destruct H as [[-> ->]|(i & -> & ? & ? & ?)]; [exists info|exists i]; split_and!;
      first [done|lia|by constructor].
  - specialize (IH a f). destruct (fold_left latest_step l _) as [r f'].
    destruct IH as [IH H]. split; [done|].
    destruct H as [[-> ->]|(i & -> & ? & ? & ?)]; [auto|right; exists i].
    split_and!; try done; by constructor.
Qed.

Lemma GetLatestSchema_eq e e' registryCtx subject s :
  GetLatestSchema e registryCtx subject s = GetSchemaBySubjectVersion e' registryCtx subject (-1) s.
Proof.
  unfold GetLatestSchema, GetSchemaBySubjectVersion. destruct (getContext s registryCtx) as [cs|]; [|done].
  case_decide as Hne; [done|]. simpl.
  destruct (latest_loop (range e (versionMap cs subject))) as [H1 H2].
  destruct (fold_left latest_step _ _) as [r f]. simpl in *. subst r.
  rewrite (latest_version_det e e') in H2 |- *.
  destruct f as [info|]; [|by rewrite H2].
  destruct H2 as (Hpos & Hin & Hlive). apply elem_of_range in Hin. rewrite Hin.
  unfold live in Hlive. apply negb_true_iff in Hlive. rewrite Hlive.
  by replace (_ =? 0) with false by lia.
Qed.

Lemma stored_Some cs subject v info :
  wf cs -> entry cs subject v = Some info ->
  exists schema, schemas cs !! schemaID info = Some schema /\ ID schema = schemaID info /\
    stored cs subject v = Some (fillRecord schema subject v info).
Proof.
  intros Hwf E. destruct (wf_stored _ _ Hwf _ _ _ E) as [schema Hs]. exists schema.
  split_and!; [done|by apply (wf_id _ _ Hwf)|]. unfold stored. by rewrite E; simpl; rewrite Hs.
Qed.

Lemma stored_frame cs cs' subject v :
  wf cs -> entry cs' subject v = entry cs subject v ->
  (forall id schema, schemas cs !! id = Some schema -> schemas cs' !! id = Some schema) ->
  stored cs' subject v = stored cs subject v.
Proof.
  intros Hwf He Hs. unfold stored. rewrite He. destruct (entry cs subject v) as [info|] eqn:E; [|done].
  destruct (wf_stored _ _ Hwf _ _ _ E) as [schema H]. simpl. by rewrite H, (Hs _ _ H).
Qed.

Lemma Inv_NewStore : Inv NewStore.
Proof.
  intros c cs. unfold NewStore; simpl. rewrite lookup_singleton.
  case_decide; [intros [= <-]; apply wf_NewStore|done].
Qed.

(** ** Registration: the properties *)

(** Registering a schema no live version of its subject duplicates
    succeeds: it gets the ID its content already has, or the next free ID, and
    the version after the subject's last one; both lookups then return it, no
    other subject version changes, no other context changes, and the store's
    maps still agree with each other. *)
Theorem CreateSchema_registers e e' registryCtx record s :
  Inv s ->
  ~ has_duplicate (ctx s registryCtx) record ->
  fresh_version (ctx s registryCtx) (Subject record) ->
  fresh_id (ctx s registryCtx) record ->
  exists record' s' schema,
    CreateSchema e registryCtx record s = (Ok tt, record', s') /\
    ID record' = from_opt (nextID (ctx s registryCtx))
                   (fingerprints (ctx s registryCtx) !! Fingerprint record) /\
    Version record' = last_version (ctx s registryCtx) (Subject record) + 1 /\
    Fingerprint schema = Fingerprint record /\
    GetSchemaByID registryCtx (ID record') s' = Ok schema /\
    GetSchemaBySubjectVersion e' registryCtx (Subject record) (Version record') s' =
      Ok {| schema with Subject := Subject record; Version := Version record';
            SchemaMetadata := SchemaMetadata record; SchemaRuleSet := SchemaRuleSet record;
            Deleted := false; CreatedAt := now e 0 |} /\
    (fingerprints (ctx s registryCtx) !! Fingerprint record = None ->
      Schema schema = Schema record /\ SchemaType schema = SchemaType record /\
      References schema = References record) /\
    (forall subject v, (subject, v) <> (Subject record, Version record') ->
      stored (ctx s' registryCtx) subject v = stored (ctx s registryCtx) subject v) /\
    (forall c, c <> registryCtx -> contexts s' !! c = contexts s !! c) /\
    Inv s'.
Proof.
  intros Hinv Hdup Hver Hid.
  destruct (CreateSchema_spec e registryCtx record s Hinv Hdup Hver Hid)
    as (id & cs1 & Eid & Ec & Hwf & Hs & (schema & Hsc & Hfp) & Hnew & Hent).
  set (v := last_version _ _ + 1) in *. set (info := MkInfo _ _ _ _ _ _) in *.
  set (cs := addVersion _ _ _ _) in *.
  assert (Hv : v <> -1) by (destruct Hver; unfold v; lia).
  eexists _, _, schema. split; [exact Ec|]. cbn [ID Version]. split_and!; try done.
  - unfold GetSchemaByID, getContext. rewrite lookup_putContext. simpl. by rewrite Hsc.
  - rewrite GetSchemaBySubjectVersion_explicit by done. unfold getContext. rewrite lookup_putContext.
    assert (He : entry cs (Subject record) v = Some info)
      by (unfold cs; rewrite entry_addVersion; case_decide; naive_solver).
    rewrite decide_False by (eapply entry_nonempty, He). rewrite He. simpl. by rewrite Hsc.
  - intros Hnone. rewrite (Hnew Hnone) in Hsc. by injection Hsc as <-.
  - intros subject w Hne. rewrite ctx_putContext, decide_True by done.
    apply stored_frame; [by apply Inv_ctx| |].
    + unfold cs. rewrite entry_addVersion, Hent. case_decide; naive_solver.
    + intros i sc. by apply stores_id_mono with id.
  - intros c Hc. by apply lookup_putContext_ne.
  - by apply Inv_putContext.
Qed.

Definition avro_record (subject text fp : string) : SchemaRecord :=
  MkSchemaRecord 0 subject 0 SchemaTypeAvro text [] None None fp false 0.

Lemma no_duplicate_new record : ~ has_duplicate newContextStore record.
Proof.
  intros (v & info & H & _). unfold entry, versionMap in H. simpl in H.
  rewrite lookup_empty in H. simpl in H. by rewrite lookup_empty in H.
Qed.

Lemma CreateSchema_registers_witness :
  exists record' s' schema,
    CreateSchema env0 "." (avro_record "orders" "[string]" "f1") NewStore = (Ok tt, record', s') /\
    GetSchemaByID "." (ID record') s' = Ok schema /\ Version record' = 1.
Proof.
  destruct (CreateSchema_registers env0 env0 "." (avro_record "orders" "[string]" "f1") NewStore)
    as (r & s' & sc & H & _ & Hv & _ & Hg & _).
  - apply Inv_NewStore.
  - apply no_duplicate_new.
  - split; vm_compute; [discriminate|reflexivity].
  - intros _. reflexivity.
  - exists r, s', sc. split; [exact H|]. split; [exact Hg|exact Hv].
Defined.

Lemma CreateSchema_duplicate_eq e registryCtx record s :
  has_duplicate (ctx s registryCtx) record ->
  exists v info,
    entry (ctx s registryCtx) (Subject record) v = Some info /\
    is_duplicate (ctx s registryCtx) record (v, info) = true /\
    CreateSchema e registryCtx record s =
      (fail ErrSchemaExists, {| record with ID := schemaID info; Version := version info |},
       putContext s registryCtx (initVersions (ctx s registryCtx) (Subject record))).
Proof.
  intros (v0 & info0 & Hv0 & Hd0). unfold CreateSchema.
  destruct (getOrCreateContext s registryCtx) as [cs0 s0] eqn:E.
  apply getOrCreateContext_spec in E as [Ecs ->]. fold (ctx s registryCtx) in Ecs. subst cs0.
  set (cs := initVersions (ctx s registryCtx) (Subject record)).
  pose proof (find_duplicate e cs record) as Hf. rewrite putContext_putContext.
  destruct (List.find _ _) as [[v info]|].
  - destruct Hf as [Hv Hd]. unfold cs in Hv, Hd.
    rewrite entry_initVersions in Hv. rewrite is_duplicate_initVersions in Hd. by exists v, info.
  - contradict Hf. exists v0, info0. unfold cs.
    by rewrite entry_initVersions, is_duplicate_initVersions.
Qed.

(** Registering a schema that a live version of the subject
    duplicates fails with ErrSchemaExists, reports the ID and version of such a
    version, and leaves every stored subject version as it was. *)
Theorem CreateSchema_duplicate e registryCtx record s :
  Inv s ->
  has_duplicate (ctx s registryCtx) record ->
  exists record' s' existing,
    CreateSchema e registryCtx record s = (fail ErrSchemaExists, record', s') /\
    stored (ctx s registryCtx) (Subject record) (Version record') = Some existing /\
    ID existing = ID record' /\ Deleted existing = false /\
    Fingerprint existing = Fingerprint record /\
    normalizeMetadata (SchemaMetadata existing) = normalizeMetadata (SchemaMetadata record) /\
    normalizeRuleSet (SchemaRuleSet existing) = normalizeRuleSet (SchemaRuleSet record) /\
    (forall c subject v, stored (ctx s' c) subject v = stored (ctx s c) subject v) /\
    (forall c, nextID (ctx s' c) = nextID (ctx s c)) /\
    Inv s'.
Proof.
  intros Hinv Hdup.
  destruct (CreateSchema_duplicate_eq e registryCtx record s Hdup) as (v & info & Hv & Hd & Hc).
  apply is_duplicate_Subject in Hd as (Hdel & schema & Hs & Hf & Hm & Hr).
  pose proof (Inv_ctx s registryCtx Hinv) as Hwf.
  destruct (stored_Some _ _ _ _ Hwf Hv) as (schema' & Hs' & Hid & Hst).
  rewrite Hs in Hs'. injection Hs' as <-.
  exists {| record with ID := schemaID info; Version := version info |}.
  exists (putContext s registryCtx (initVersions (ctx s registryCtx) (Subject record))).
  exists (fillRecord schema (Subject record) v info). cbn. rewrite (wf_version _ _ Hwf _ _ _ Hv).
  split_and!; try done.
  - rewrite Hc. by rewrite (wf_version _ _ Hwf _ _ _ Hv).
  - intros c subject w. rewrite ctx_putContext. case_decide; [|done]. subst c.
    unfold stored. rewrite entry_initVersions. by destruct (initVersions_fields (ctx s registryCtx) (Subject record)) as [-> _].
  - intros c. rewrite ctx_putContext. case_decide; [|done]. subst c.
    by destruct (initVersions_fields (ctx s registryCtx) (Subject record)) as (_ & _ & _ & _ & -> & _).
  - by apply Inv_putContext, wf_initVersions.
Qed.

Definition orders_store : Store :=
  snd (CreateSchema env0 "." (avro_record "orders" "[string]" "f1") NewStore).

Lemma Inv_orders_store : Inv orders_store.
Proof.
  destruct (CreateSchema_spec env0 "." (avro_record "orders" "[string]" "f1") NewStore)
    as (id & cs1 & _ & E & Hwf & _); [apply Inv_NewStore|apply no_duplicate_new|by split|by intros _|].
  unfold orders_store. rewrite E. by apply Inv_putContext; [apply Inv_NewStore|].
Qed.

Lemma CreateSchema_duplicate_witness :
  exists record' s', CreateSchema env0 "." (avro_record "orders" "[string]" "f1") orders_store
    = (fail ErrSchemaExists, record', s').
Proof.
  destruct (CreateSchema_duplicate env0 "." (avro_record "orders" "[string]" "f1") orders_store)
    as (r & s' & _ & H & _).
  - apply Inv_orders_store.
  - exists 1, (MkInfo 1 1 false 0 None None). split; vm_compute; reflexivity.
  - exists r, s'. exact H.
Defined.

Lemma latest_cases e registryCtx subject s :
  Inv s ->
  match GetSchemaBySubjectVersion e registryCtx subject (-1) s with
  | Ok record =>
      stored (ctx s registryCtx) subject (Version record) = Some record /\ Deleted record = false /\
      forall v other, stored (ctx s registryCtx) subject v = Some other -> Deleted other = false ->
        v <= Version record
  | Err err =>
      err = sentinel_err ErrSubjectNotFound /\
      forall v other, stored (ctx s registryCtx) subject v = Some other -> 0 < v -> Deleted other = true
  end.
Proof.
  intros Hinv.
  pose proof (Inv_ctx s registryCtx Hinv) as Hwf.
  unfold GetSchemaBySubjectVersion. destruct (getContext s registryCtx) as [cs|] eqn:Eg; cycle 1.
  { split; [done|]. intros v other. unfold ctx. unfold getContext in Eg. rewrite Eg. simpl.
    unfold stored, entry, versionMap. simpl. rewrite lookup_empty. simpl. by rewrite lookup_empty. }
  apply getContext_Some in Eg. rewrite Eg in *. case_decide as Hne.
  { split; [done|]. intros v other. unfold stored, entry. by rewrite Hne, lookup_empty. }
  replace (-1 =? -1) with true by done. cbn [andb].
  destruct (latest_version_range e live (versionMap cs subject)) as [Hmax Hr]. cbv zeta in *.
  set (r := latest_version live _) in *.
  assert (Hlive : forall v other, stored cs subject v = Some other -> Deleted other = false -> v <= r).
  { intros v other (info & Hv & (sc & _ & [= <-])%bind_Some)%bind_Some Hd.
    eapply Hmax; [exact Hv|]. unfold live. by apply negb_true_iff. }
  destruct Hr as [->|(Hpos & info & Hv & Hp)].
  - split; [done|]. intros v other Hst Hv. destruct (Deleted other) eqn:Ed; [done|].
    specialize (Hlive _ _ Hst Ed). lia.
  - replace (r =? 0) with false by lia. rewrite Hv.
    unfold live in Hp. apply negb_true_iff in Hp. rewrite Hp.
    destruct (stored_Some _ _ _ _ Hwf Hv) as (schema & Hs & _ & Hst). rewrite Hs. by simpl.
Qed.

(** The latest version, asked for as [-1] or by GetLatestSchema, is
    the greatest live version of the subject, whatever the map order; a subject
    without a live version is not found. *)
Theorem latest_is_greatest_live e e' registryCtx subject s :
  Inv s ->
  GetLatestSchema e registryCtx subject s = GetSchemaBySubjectVersion e' registryCtx subject (-1) s /\
  match GetLatestSchema e registryCtx subject s with
  | Ok record =>
      stored (ctx s registryCtx) subject (Version record) = Some record /\ Deleted record = false /\
      forall v other, stored (ctx s registryCtx) subject v = Some other -> Deleted other = false ->
        v <= Version record
  | Err err =>
      err = sentinel_err ErrSubjectNotFound /\
      forall v other, stored (ctx s registryCtx) subject v = Some other -> 0 < v -> Deleted other = true
  end.
Proof.
  intros Hinv. split; [apply GetLatestSchema_eq|]. rewrite (GetLatestSchema_eq e e). by apply latest_cases.
Qed.

Lemma latest_is_greatest_live_witness :
  exists record, GetLatestSchema env0 "." "orders" orders_store = Ok record /\
    stored (ctx orders_store ".") "orders" (Version record) = Some record.
Proof.
  destruct (latest_is_greatest_live env0 env0 "." "orders" orders_store Inv_orders_store) as [_ H].
  destruct (GetLatestSchema env0 "." "orders" orders_store) as [r|err] eqn:E;
    [|vm_compute in E; discriminate].
  exists r. split; [reflexivity|]. exact (proj1 H).
Defined.
