(* ===== verification/MemDelete.v ===== *)
(** * The in-memory backend: deletion

    Soft and permanent deletion of versions and subjects: what they remove,
    what they leave, and which calls they refuse. *)
From S2P Require Import Prelude GoStrings StorageTypes MemState MemStore MemInvariant MemStoreFacts.

Local Open Scope Z_scope.

Definition soft_deleted (record : SchemaRecord) : SchemaRecord := {| record with Deleted := true |}.

(** ** Building blocks *)

Lemma entry_softDelete cs subject v info subject' v' :
  entry (softDelete cs subject v info) subject' v' =
  if decide (subject = subject' /\ v = v') then Some {| info with deleted := true |}
  else entry cs subject' v'.
Proof.
  unfold entry, softDelete. rewrite versionMap_putVersions. case_decide; subst.
  - rewrite lookup_insert. repeat case_decide; naive_solver.
  - case_decide; naive_solver.
Qed.

Lemma wf_softDelete cs subject v info :
  wf cs -> entry cs subject v = Some info -> wf (softDelete cs subject v info).
Proof.
  intros Hwf E.
  assert (Hent : forall sub w i, entry (softDelete cs subject v info) sub w = Some i ->
    exists i0, entry cs sub w = Some i0 /\ version i = version i0 /\ schemaID i = schemaID i0).
  { intros sub w i. rewrite entry_softDelete. case_decide; [|eauto].
    intros [= <-]. exists info. naive_solver. }
  destruct Hwf as [H1 H2 H3 H4 H5 H6 H7 H8]. split.
  - intros sub w i (i0 & E0 & -> & _)%Hent. eauto.
  - intros sub w i (i0 & E0 & _ & ->)%Hent. eapply H2, E0.
  - intros id [sub w]. change (index (softDelete _ _ _ _) id) with (index cs id). rewrite H3; simpl.
    rewrite entry_softDelete. case_decide as D; [|done]. destruct D as [<- <-]. naive_solver.
  - apply H4.
  - apply H5.
  - apply H6.
  - apply H7.
  - intros sub w i (i0 & E0 & _)%Hent. change (last_version (softDelete _ _ _ _) sub) with (last_version cs sub).
    eauto.
Qed.

Lemma schemas_unlink_Some cs subject v id id' schema :
  schemas (unlink cs subject v id) !! id' = Some schema -> schemas cs !! id' = Some schema.
Proof.
  rewrite schemas_unlink. case_decide; [|done]. rewrite lookup_delete. by case_decide.
Qed.

Lemma WF_putVersions ent cs subject vm : WF ent cs -> WF ent (putVersions cs subject vm).
Proof. intros []; split; eauto. Qed.

(** ** DeleteSchema *)

Lemma entry_empty cs subject v : versionMap cs subject = ∅ -> entry cs subject v = None.
Proof. unfold entry. intros ->. apply lookup_empty. Qed.

Lemma subjectVersions_unlink cs subject v id :
  subjectVersions (unlink cs subject v id) = subjectVersions cs.
Proof. unfold unlink. by case_match. Qed.

Lemma entry_unlink cs subject v id subject' v' :
  entry (unlink cs subject v id) subject' v' = entry cs subject' v'.
Proof. unfold entry, versionMap. by rewrite subjectVersions_unlink. Qed.

Definition permanentDelete (cs : contextStore) (subject : string) (v : Z)
    (info : subjectVersionInfo) : contextStore :=
  unlink (putVersions cs subject (delete v (versionMap cs subject))) subject v (schemaID info).

Lemma entry_permanentDelete cs subject v info subject' v' :
  entry (permanentDelete cs subject v info) subject' v' = without (entry cs) subject v subject' v'.
Proof.
  unfold permanentDelete. rewrite entry_unlink. unfold entry, without. rewrite versionMap_putVersions.
  case_decide; subst.
  - rewrite lookup_delete. repeat case_decide; naive_solver.
  - case_decide; naive_solver.
Qed.

Lemma wf_permanentDelete cs subject v info :
  wf cs -> entry cs subject v = Some info -> wf (permanentDelete cs subject v info).
Proof.
  intros Hwf E. eapply WF_ext; [apply entry_permanentDelete|].
  apply WF_unlink; [by apply WF_putVersions|done].
Qed.

Lemma stored_soft cs subject v info subject' v' :
  entry cs subject v = Some info ->
  stored (softDelete cs subject v info) subject' v' =
  (if decide (subject = subject' /\ v = v') then soft_deleted <$> stored cs subject' v'
   else stored cs subject' v').
Proof.
  intros E. unfold stored. rewrite entry_softDelete. case_decide as D; [|done].
  destruct D as [<- <-]. rewrite E. simpl. by destruct (schemas cs !! schemaID info).
Qed.

Lemma stored_subset cs cs' subject v :
  wf cs' ->
  entry cs' subject v = entry cs subject v ->
  (forall id schema, schemas cs' !! id = Some schema -> schemas cs !! id = Some schema) ->
  stored cs' subject v = stored cs subject v.
Proof.
  intros Hwf He Hs. unfold stored. rewrite He. destruct (entry cs subject v) as [info|] eqn:E; [|done].
  simpl. destruct (wf_stored _ _ Hwf _ _ _ He) as [schema H]. by rewrite H, (Hs _ _ H).
Qed.

Lemma stored_permanent cs subject v info subject' v' :
  wf cs -> entry cs subject v = Some info ->
  stored (permanentDelete cs subject v info) subject' v' =
  (if decide (subject = subject' /\ v = v') then None else stored cs subject' v').
Proof.
  intros Hwf E. case_decide as D.
  - destruct D as [<- <-]. unfold stored. rewrite entry_permanentDelete. unfold without.
    by rewrite decide_True.
  - apply stored_subset; [by apply wf_permanentDelete| |].
    + rewrite entry_permanentDelete. unfold without. by rewrite decide_False.
    + intros id schema H. by apply schemas_unlink_Some in H.
Qed.

(** The content goes with the last subject version that uses it. *)
Lemma schemas_permanentDelete cs subject v info :
  wf cs -> entry cs subject v = Some info ->
  schemas (permanentDelete cs subject v info) !! schemaID info = None <->
  (forall subject' v' info', entry cs subject' v' = Some info' -> schemaID info' = schemaID info ->
     subject' = subject /\ v' = v).
Proof.
  intros Hwf E. pose proof (wf_permanentDelete _ _ _ _ Hwf E) as Hwf'. split.
  - intros Hn sub w i Ei Hid. destruct (decide (subject = sub /\ v = w)) as [[-> ->]|D]; [done|].
    destruct (wf_stored _ _ Hwf' sub w i) as [sc Hsc].
    { rewrite entry_permanentDelete. unfold without. by rewrite decide_False. }
    rewrite Hid, Hn in Hsc. done.
  - intros Honly. destruct (schemas (permanentDelete _ _ _ _) !! _) eqn:Es; [|done].
    assert (Hix : index (permanentDelete cs subject v info) (schemaID info) <> [])
      by (eapply (wf_used _ _ Hwf'); eauto).
    destruct (index _ _) as [|[sub w] l] eqn:Ei; [done|].
    destruct (proj1 (wf_index _ _ Hwf' (schemaID info) (MkSubjectVersion sub w))) as (i & Ew & Hid).
    { rewrite Ei. constructor. }
    simpl in Ew. rewrite entry_permanentDelete in Ew. apply without_Some in Ew as [Ew Hne].
    destruct (Honly _ _ _ Ew Hid). congruence.
Qed.

Lemma DeleteSchema_cases registryCtx subject v permanent s :
  Inv s ->
  let cs := ctx s registryCtx in
  let '(res, s') := DeleteSchema registryCtx subject v permanent s in
  let cs' := ctx s' registryCtx in
  match stored cs subject v with
  | None => s' = s /\ (res = fail ErrSubjectNotFound \/ res = fail ErrVersionNotFound)
  | Some record =>
      if permanent && negb (Deleted record)
      then s' = s /\ res = fail ErrVersionNotSoftDeleted
      else
        res = Ok tt /\
        (forall subject' v', stored cs' subject' v' =
          if decide (subject = subject' /\ v = v')
          then if permanent then None else Some (soft_deleted record)
          else stored cs subject' v') /\
        (is_ok (GetSchemaByID registryCtx (ID record) s') = false <->
           permanent = true /\
           forall subject' v' other, stored cs subject' v' = Some other -> ID other = ID record ->
             subject' = subject /\ v' = v) /\
        (forall c, c <> registryCtx -> contexts s' !! c = contexts s !! c) /\
        Inv s'
  end.
Proof.
  intros Hinv cs. pose proof (Inv_ctx s registryCtx Hinv) as Hwf. fold cs in Hwf.
  unfold DeleteSchema. destruct (getContext s registryCtx) as [cs0|] eqn:Eg; cycle 1.
  { unfold cs, ctx. unfold getContext in Eg. rewrite Eg. simpl.
    unfold stored. rewrite entry_empty; [simpl; auto|]. unfold versionMap. simpl. by rewrite lookup_empty. }
  apply getContext_Some in Eg. fold cs in Eg. subst cs0. case_decide as Hne.
  { unfold stored. rewrite entry_empty by done. simpl; auto. }
  fold (entry cs subject v). destruct (entry cs subject v) as [info|] eqn:E.
  2: { unfold stored. rewrite E. simpl; auto. }
  destruct (stored_Some _ _ _ _ Hwf E) as (schema & Hs & Hid & Hst). rewrite Hst.
  change (Deleted (fillRecord schema subject v info)) with (deleted info).
  change (negb (deleted info)) with (live info).
  destruct (permanent && live info) eqn:Ep; [done|].
  split; [done|]. rewrite ctx_putContext, decide_True by done.
  fold (permanentDelete cs subject v info).
  split_and!.
  - intros subject' v'. destruct permanent.
    + by apply stored_permanent.
    + rewrite stored_soft by done. case_decide as D; [|done]. destruct D as [<- <-]. by rewrite Hst.
  - unfold GetSchemaByID, getContext. rewrite lookup_putContext. simpl. rewrite Hid.
    destruct permanent.
    + transitivity (schemas (permanentDelete cs subject v info) !! schemaID info = None).
      { destruct (schemas (permanentDelete cs subject v info) !! schemaID info); simpl; naive_solver. }
      rewrite schemas_permanentDelete by done. split.
      * intros H. split; [done|]. intros sub w other Ho Hi.
        apply bind_Some in Ho as (i & Ei & (sc & Hsc & [= <-])%bind_Some).
        apply (H _ _ _ Ei). apply (wf_id _ _ Hwf) in Hsc. simpl in Hi. congruence.
      * intros [_ H] sub w i Ei Hi. destruct (stored_Some _ _ _ _ Hwf Ei) as (sc & Hsc & Hid' & Ho).
        apply (H _ _ _ Ho). simpl. congruence.
    + simpl. rewrite Hs. simpl. naive_solver.
  - intros c Hc. by apply lookup_putContext_ne.
  - apply Inv_putContext; [done|]. destruct permanent; [by apply wf_permanentDelete|by apply wf_softDelete].
Qed.

(** Property C8. DeleteSchema refuses a missing subject, a missing version, and
    the permanent deletion of a live version, and then changes nothing.
    Otherwise it marks the version deleted, or removes it; no other subject
    version changes, and a permanent deletion drops the content of the ID
    exactly when no other subject version uses it. *)
Theorem DeleteSchema_spec registryCtx subject v permanent s :
  Inv s ->
  let cs := ctx s registryCtx in
  let '(res, s') := DeleteSchema registryCtx subject v permanent s in
  let cs' := ctx s' registryCtx in
  match stored cs subject v with
  | None => s' = s /\ (res = fail ErrSubjectNotFound \/ res = fail ErrVersionNotFound)
  | Some record =>
      if permanent && negb (Deleted record)
      then s' = s /\ res = fail ErrVersionNotSoftDeleted
      else
        res = Ok tt /\
        (forall subject' v', stored cs' subject' v' =
          if decide (subject = subject' /\ v = v')
          then if permanent then None else Some (soft_deleted record)
          else stored cs subject' v') /\
        (is_ok (GetSchemaByID registryCtx (ID record) s') = false <->
           permanent = true /\
           forall subject' v' other, stored cs subject' v' = Some other -> ID other = ID record ->
             subject' = subject /\ v' = v) /\
        (forall c, c <> registryCtx -> contexts s' !! c = contexts s !! c) /\
        Inv s'
  end.
Proof. exact (DeleteSchema_cases registryCtx subject v permanent s). Qed.

Lemma DeleteSchema_spec_witness :
  stored (ctx orders_store ".") "orders" 1 <> None /\
  snd (DeleteSchema "." "orders" 1 true orders_store) = orders_store /\
  fst (DeleteSchema "." "orders" 1 true orders_store) = fail ErrVersionNotSoftDeleted.
Proof.
  pose proof (DeleteSchema_spec "." "orders" 1 true orders_store Inv_orders_store) as H.
  split; [vm_compute; discriminate|].
  destruct (DeleteSchema "." "orders" 1 true orders_store) as [res s'].
  destruct (stored (ctx orders_store ".") "orders" 1) as [r|] eqn:E; [|vm_compute in E; discriminate].
  vm_compute in E. injection E as <-. exact H.
Defined.

(** ** DeleteSubject *)

(** The entries of [l] still to be visited are those of the map. *)
Definition pending (ent : string -> Z -> option subjectVersionInfo) (subject : string)
    (l : list (Z * subjectVersionInfo)) : Prop :=
  NoDup (map fst l) /\ forall v info, (v, info) ∈ l -> ent subject v = Some info.

Lemma pending_cons ent subject v info l :
  pending ent subject ((v, info) :: l) ->
  ent subject v = Some info /\ pending ent subject l /\ v ∉ map fst l.
Proof.
  intros [[Hni Hnd]%NoDup_cons Hin]. split_and!; [apply Hin; constructor| |done].
  split; [done|]. intros w i Hw. apply Hin. by constructor.
Qed.

Lemma pending_range e cs subject : pending (entry cs) subject (range e (versionMap cs subject)).
Proof. split; [apply NoDup_range_fst|]. intros v info. apply elem_of_range. Qed.

Lemma soft_loop subject l : forall cs dels,
  wf cs -> pending (entry cs) subject l ->
  let '(dels', cs') := fold_left (deleteStep subject false) l (dels, cs) in
  dels' = dels ++ omap (fun '(v, info) => if live info then Some v else None) l /\
  wf cs' /\ schemas cs' = schemas cs /\ nextID cs' = nextID cs /\
  (forall subject' v', stored cs' subject' v' =
    if decide (subject = subject' /\ v' ∈ map fst l)
    then soft_deleted <$> stored cs subject' v' else stored cs subject' v').
Proof.
  induction l as [|[v info] l IH]; intros cs dels Hwf Hp; cbn [fold_left map omap list_omap].
  { rewrite app_nil_r. split_and!; try done. intros. rewrite decide_False; [done|set_solver]. }
  apply pending_cons in Hp as (E & Hp & Hv). simpl. unfold live. destruct (deleted info) eqn:Ed; simpl.
  - specialize (IH cs dels Hwf Hp). destruct (fold_left _ l _) as [dels' cs'].
    destruct IH as (-> & ? & ? & ? & Hst). split_and!; try done.
    intros sub w. rewrite Hst. destruct (stored_Some _ _ _ _ Hwf E) as (sc & _ & _ & Hs).
    destruct (decide (sub = subject /\ w = v)) as [[-> ->]|D].
    + rewrite decide_False by naive_solver. rewrite decide_True by set_solver. rewrite Hs.
      unfold soft_deleted, fillRecord; simpl. by rewrite Ed.
    + repeat case_decide; set_solver.
  - assert (Hp' : pending (entry (softDelete cs subject v info)) subject l).
    { split; [apply Hp|]. intros w i Hw. rewrite entry_softDelete. case_decide as D; [|by apply Hp].
      destruct D as [_ ->]. contradict Hv. apply list_elem_of_fmap. by exists (w, i). }
    specialize (IH (softDelete cs subject v info) (dels ++ [v]) (wf_softDelete _ _ _ _ Hwf E) Hp').
    destruct (fold_left _ l _) as [dels' cs']. destruct IH as (-> & ? & ? & ? & Hst).
    split_and!; try done; [by rewrite <- app_assoc|].
    intros sub w. rewrite Hst, stored_soft by done.
    destruct (decide (sub = subject /\ w = v)) as [[-> ->]|D].
    + rewrite decide_False by naive_solver. rewrite decide_True by done.
      by rewrite decide_True by set_solver.
    + rewrite (decide_False (P := subject = sub /\ v = w)) by naive_solver.
      repeat case_decide; set_solver.
Qed.

Lemma permanent_loop subject l : forall ent cs dels,
  WF ent cs -> pending ent subject l ->
  let '(dels', cs') := fold_left (deleteStep subject true) l (dels, cs) in
  dels' = dels ++ map fst l /\
  WF (fun sub w => if decide (subject = sub /\ w ∈ map fst l) then None else ent sub w) cs' /\
  subjectVersions cs' = subjectVersions cs /\
  (forall id schema, schemas cs' !! id = Some schema -> schemas cs !! id = Some schema).
Proof.
  induction l as [|[v info] l IH]; intros ent cs dels Hwf Hp; cbn [fold_left map].
  { rewrite app_nil_r. split_and!; try done. eapply WF_ext; [|done]. intros; simpl.
    rewrite decide_False; [done|set_solver]. }
  apply pending_cons in Hp as (E & Hp & Hv). simpl. rewrite andb_false_r.
  assert (Hp' : pending (without ent subject v) subject l).
  { split; [apply Hp|]. intros w i Hw. apply without_Some. split; [by apply Hp|].
    intros [= ->]. contradict Hv. apply list_elem_of_fmap. by exists (v, i). }
  specialize (IH _ _ (dels ++ [v]) (WF_unlink _ _ _ _ _ Hwf E) Hp').
  destruct (fold_left _ l _) as [dels' cs']. destruct IH as (-> & Hwf' & Hsv & Hsub).
  split_and!.
  - by rewrite <- app_assoc.
  - eapply WF_ext; [|exact Hwf']. intros sub w; simpl. unfold without.
    repeat case_decide; set_solver.
  - by rewrite Hsv, subjectVersions_unlink.
  - intros id sc H%Hsub. by apply schemas_unlink_Some in H.
Qed.

Lemma sort_ints_perm l : sort_ints l ≡ₚ l.
Proof. apply merge_sort_Permutation. Qed.

(** What DeleteSubject leaves of the context when it goes through. *)
Definition forget (cs : contextStore) (subject : string) : contextStore :=
  {| cs with
     subjectVersions := delete subject (subjectVersions cs);
     nextSubjectVersion := delete subject (nextSubjectVersion cs);
     configs := delete subject (configs cs);
     modes := delete subject (modes cs) |}.

Lemma entry_forget cs subject subject' v :
  entry (forget cs subject) subject' v = if decide (subject = subject') then None else entry cs subject' v.
Proof.
  unfold entry, versionMap; simpl. rewrite lookup_delete.
  case_decide; simpl; by rewrite ?lookup_empty.
Qed.

Lemma permanent_subject e cs subject :
  wf cs ->
  let vm := versionMap cs subject in
  let '(dels, cs') := fold_left (deleteStep subject true) (range e vm) ([], cs) in
  dels ≡ₚ map fst (map_to_list vm) /\ wf (forget cs' subject) /\
  (forall sub w, stored (forget cs' subject) sub w =
     if decide (subject = sub) then None else stored cs sub w).
Proof.
  intros Hwf vm.
  pose proof (permanent_loop subject (range e vm) (entry cs) cs [] Hwf (pending_range e cs subject)) as H.
  destruct (fold_left _ _ _) as [dels cs']. destruct H as (-> & Hwf' & Hsv & Hsub).
  assert (Hin : forall w info, entry cs subject w = Some info -> w ∈ map fst (range e vm)).
  { intros w info Hw. apply list_elem_of_fmap. exists (w, info). split; [done|]. by apply elem_of_range. }
  assert (Hent : forall sub w, entry (forget cs' subject) sub w =
     if decide (subject = sub /\ w ∈ map fst (range e vm)) then None else entry cs sub w).
  { intros sub w. rewrite entry_forget. unfold entry, versionMap. rewrite Hsv.
    fold (versionMap cs sub). fold (entry cs sub w).
    repeat case_decide; try done; try naive_solver.
    destruct (entry cs sub w) eqn:Ew; [|done]. subst sub. exfalso. eauto. }
  assert (Hwff : wf (forget cs' subject)).
  { apply (WF_ext _ _ _ Hent). destruct Hwf' as [H1 H2 H3 H4 H5 H6 H7 H8]. split; try done.
    intros sub w info Hw. specialize (H8 sub w info Hw). unfold last_version in *. simpl.
    rewrite lookup_delete. destruct (decide (subject = sub)) as [<-|]; [|done].
    case_decide as D; [done|]. exfalso. apply D. eauto. }
  split_and!; [by rewrite (range_perm e vm)|done|].
  intros sub w. case_decide as D.
  - unfold stored. rewrite Hent. destruct (entry cs sub w) eqn:Ew; subst sub.
    + rewrite decide_True by eauto. done.
    + by case_decide.
  - apply stored_subset; [done| |done]. rewrite Hent. rewrite decide_False; naive_solver.
Qed.

Lemma DeleteSubject_cases e registryCtx subject permanent s :
  Inv s ->
  let cs := ctx s registryCtx in
  let '(res, s') := DeleteSubject e registryCtx subject permanent s in
  let cs' := ctx s' registryCtx in
  match res with
  | Err err =>
      s' = s /\
      ((err = sentinel_err ErrSubjectNotFound /\ forall v, stored cs subject v = None) \/
       (permanent = true /\ err = sentinel_err ErrSubjectNotSoftDeleted /\
        exists v record, stored cs subject v = Some record /\ Deleted record = false) \/
       (permanent = false /\ err = sentinel_err ErrSubjectDeleted /\
        forall v record, stored cs subject v = Some record -> Deleted record = true))
  | Ok versions =>
      Sorted Z.le versions /\ NoDup versions /\
      (forall v, v ∈ versions <->
        exists record, stored cs subject v = Some record /\ Deleted record = permanent) /\
      (permanent = true -> forall v record, stored cs subject v = Some record -> Deleted record = true) /\
      (forall subject' v, stored cs' subject' v =
        if decide (subject = subject')
        then if permanent then None else soft_deleted <$> stored cs subject' v
        else stored cs subject' v) /\
      (forall c, c <> registryCtx -> contexts s' !! c = contexts s !! c) /\
      Inv s'
  end.
Proof.
  intros Hinv cs. pose proof (Inv_ctx s registryCtx Hinv) as Hwf. fold cs in Hwf.
  unfold DeleteSubject. destruct (getContext s registryCtx) as [cs0|] eqn:Eg; cycle 1.
  { split; [done|]. left. split; [done|]. intros v. unfold cs, ctx. unfold getContext in Eg.
    rewrite Eg. simpl. unfold stored. rewrite entry_empty; [done|].
    unfold versionMap. simpl. by rewrite lookup_empty. }
  apply getContext_Some in Eg. fold cs in Eg. subst cs0. case_decide as Hne.
  { split; [done|]. left. split; [done|]. intros v. unfold stored. by rewrite entry_empty. }
  set (all := forallb _ _).
  assert (Hst : forall v record, stored cs subject v = Some record ->
    exists info, entry cs subject v = Some info /\ Deleted record = deleted info).
  { intros v record (info & Hv & (sc & _ & [= <-])%bind_Some)%bind_Some. eauto. }
  destruct (permanent && negb all) eqn:Ep.
  { apply andb_prop in Ep as [-> Hall]. apply negb_true_iff, forallb_range_false in Hall.
    destruct Hall as (v & info & Hv & Hd). split; [done|]. right; left. split_and!; [done..|].
    destruct (stored_Some _ _ _ _ Hwf Hv) as (sc & _ & _ & Hs). by eexists _, _. }
  destruct (negb permanent && all) eqn:Es.
  { apply andb_prop in Es as [Hp Hall]. apply negb_true_iff in Hp. subst permanent.
    split; [done|]. right; right. split_and!; [done..|]. intros v record Hr.
    apply Hst in Hr as (info & Hv & ->). unfold all in Hall. rewrite forallb_range in Hall.
    apply (Hall _ _ Hv). }
  assert (Hfinish : forall dels cs',
    dels ≡ₚ keys_with e (versionMap cs subject) (fun info => permanent || live info) ->
    (permanent = true -> all = true) -> wf cs' ->
    (forall sub w, stored cs' sub w = if decide (subject = sub)
       then if permanent then None else soft_deleted <$> stored cs sub w else stored cs sub w) ->
    Sorted Z.le (sort_ints dels) /\ NoDup (sort_ints dels) /\
    (forall v, v ∈ sort_ints dels <->
      exists record, stored cs subject v = Some record /\ Deleted record = permanent) /\
    (permanent = true -> forall v record, stored cs subject v = Some record -> Deleted record = true) /\
    (forall subject' v, stored (ctx (putContext s registryCtx cs') registryCtx) subject' v =
      if decide (subject = subject')
      then if permanent then None else soft_deleted <$> stored cs subject' v
      else stored cs subject' v) /\
    (forall c, c <> registryCtx -> contexts (putContext s registryCtx cs') !! c = contexts s !! c) /\
    Inv (putContext s registryCtx cs')).
  { intros dels cs' Hd Hall Hwf' Hs. split_and!.
    - apply Sorted_merge_sort. intros x y. lia.
    - rewrite sort_ints_perm, Hd. apply NoDup_keys_with.
    - intros v. rewrite sort_ints_perm, Hd, elem_of_keys_with. split.
      + intros (info & Hv & Hp). destruct (stored_Some _ _ _ _ Hwf Hv) as (sc & _ & _ & Hs').
        eexists; split; [exact Hs'|]. simpl. unfold live in Hp. destruct permanent; simpl in *.
        * specialize (Hall eq_refl). unfold all in Hall. rewrite forallb_range in Hall.
          apply (Hall _ _ Hv).
        * by apply negb_true_iff.
      + intros (record & Hr & Hd'). apply Hst in Hr as (info & Hv & Hr). exists info. split; [done|].
        unfold live. rewrite <- Hr, Hd'. by destruct permanent.
    - intros Hp v record Hr. apply Hst in Hr as (info & Hv & ->). specialize (Hall Hp).
      unfold all in Hall. rewrite forallb_range in Hall. apply (Hall _ _ Hv).
    - intros. by rewrite ctx_putContext, decide_True.
    - intros. by apply lookup_putContext_ne.
    - by apply Inv_putContext. }
  destruct permanent.
  - pose proof (permanent_subject e cs subject Hwf) as H. cbv zeta in H.
    destruct (fold_left _ _ _) as [dels cs']. destruct H as (Hd & Hwf' & Hs).
    apply Hfinish; [|by destruct all|done|done].
    rewrite Hd. unfold keys_with. rewrite <- (range_perm e (versionMap cs subject)).
    generalize (range e (versionMap cs subject)). intros l.
    induction l as [|[v i] l IH]; simpl; [done|by f_equiv].
  - pose proof (soft_loop subject (range e (versionMap cs subject)) cs [] Hwf (pending_range e cs subject)) as H.
    destruct (fold_left _ _ _) as [dels cs']. destruct H as (Hd & Hwf' & _ & _ & Hs).
    apply Hfinish; [by rewrite Hd|done|done|].
    intros sub w. rewrite Hs. destruct (decide (subject = sub)) as [<-|]; [|by rewrite decide_False by naive_solver].
    case_decide as D; [done|]. destruct (stored cs subject w) as [r|] eqn:Er; [|done].
    destruct D. split; [done|]. apply Hst in Er as (info & Hv & _).
    apply list_elem_of_fmap. exists (w, info). by rewrite elem_of_range.
Qed.

(** DeleteSubject refuses a subject without versions, the permanent
    deletion of a subject with a live version, and the soft deletion of one
    without; it then changes nothing.  Otherwise it returns the versions it
    deletes, in order, and the subject's versions are marked deleted or gone,
    while those of other subjects stay. *)
Theorem DeleteSubject_spec e registryCtx subject permanent s :
  Inv s ->
  let cs := ctx s registryCtx in
  let '(res, s') := DeleteSubject e registryCtx subject permanent s in
  let cs' := ctx s' registryCtx in
  match res with
  | Err err =>
      s' = s /\
      ((err = sentinel_err ErrSubjectNotFound /\ forall v, stored cs subject v = None) \/
       (permanent = true /\ err = sentinel_err ErrSubjectNotSoftDeleted /\
        exists v record, stored cs subject v = Some record /\ Deleted record = false) \/
       (permanent = false /\ err = sentinel_err ErrSubjectDeleted /\
        forall v record, stored cs subject v = Some record -> Deleted record = true))
  | Ok versions =>
      Sorted Z.le versions /\ NoDup versions /\
      (forall v, v ∈ versions <->
        exists record, stored cs subject v = Some record /\ Deleted record = permanent) /\
      (permanent = true -> forall v record, stored cs subject v = Some record -> Deleted record = true) /\
      (forall subject' v, stored cs' subject' v =
        if decide (subject = subject')
        then if permanent then None else soft_deleted <$> stored cs subject' v
        else stored cs subject' v) /\
      (forall c, c <> registryCtx -> contexts s' !! c = contexts s !! c) /\
      Inv s'
  end.
Proof. exact (DeleteSubject_cases e registryCtx subject permanent s). Qed.

Lemma DeleteSubject_spec_witness :
  exists versions, fst (DeleteSubject env0 "." "orders" false orders_store) = Ok versions /\ versions = [1].
Proof.
  pose proof (DeleteSubject_spec env0 "." "orders" false orders_store Inv_orders_store) as H.
  destruct (DeleteSubject env0 "." "orders" false orders_store) as [[versions|err] s'] eqn:E;
    [|vm_compute in E; discriminate].
  exists versions. split; [reflexivity|]. destruct H as (Hs & _). vm_compute in E. congruence.
Defined.
