(* ===== verification/MemSteps.v ===== *)
(** * The in-memory backend as a transition system

    Every operation that changes a context, as one labelled step; the invariant
    holds in every reachable store, and a step touches its own context only. *)
From S2P Require Import Prelude GoStrings StorageTypes MemState MemStore MemInvariant MemStoreFacts MemDelete.

Local Open Scope Z_scope.

(** ** The steps *)

Inductive op :=
  | OpCreateSchema (record : SchemaRecord)
  | OpImportSchema (record : SchemaRecord)
  | OpDeleteSchema (subject : string) (v : Z) (permanent : bool)
  | OpDeleteSubject (subject : string) (permanent : bool)
  | OpSetConfig (subject : string) (config : ConfigRecord)
  | OpDeleteConfig (subject : string)
  | OpSetGlobalConfig (config : ConfigRecord)
  | OpDeleteGlobalConfig
  | OpSetMode (subject : string) (mode : ModeRecord)
  | OpDeleteMode (subject : string)
  | OpSetGlobalMode (mode : ModeRecord)
  | OpDeleteGlobalMode
  | OpNextID
  | OpSetNextID (id : Z).

(** The store after the call. *)
Definition apply_op (e : env) (registryCtx : string) (o : op) (s : Store) : Store :=
  match o with
  | OpCreateSchema record => snd (CreateSchema e registryCtx record s)
  | OpImportSchema record => snd (ImportSchema e registryCtx record s)
  | OpDeleteSchema subject v permanent => snd (DeleteSchema registryCtx subject v permanent s)
  | OpDeleteSubject subject permanent => snd (DeleteSubject e registryCtx subject permanent s)
  | OpSetConfig subject config => SetConfig registryCtx subject config s
  | OpDeleteConfig subject => snd (DeleteConfig registryCtx subject s)
  | OpSetGlobalConfig config => SetGlobalConfig registryCtx config s
  | OpDeleteGlobalConfig => DeleteGlobalConfig registryCtx s
  | OpSetMode subject mode => SetMode registryCtx subject mode s
  | OpDeleteMode subject => snd (DeleteMode registryCtx subject s)
  | OpSetGlobalMode mode => SetGlobalMode registryCtx mode s
  | OpDeleteGlobalMode => DeleteGlobalMode registryCtx s
  | OpNextID => snd (NextID registryCtx s)
  | OpSetNextID id => SetNextID registryCtx id s
  end.

(** A registration must find its counters below the overflow and the next ID
    free; see [ids_below_step] for what keeps it free. *)
Definition op_guard (registryCtx : string) (o : op) (s : Store) : Prop :=
  match o with
  | OpCreateSchema record =>
      fresh_version (ctx s registryCtx) (Subject record) /\ fresh_id (ctx s registryCtx) record
  | _ => True
  end.

Inductive step : Store -> Store -> Prop :=
  | step_op e registryCtx o s : op_guard registryCtx o s -> step s (apply_op e registryCtx o s).

Definition reachable (s : Store) : Prop := rtc step NewStore s.

(** ** ImportSchema *)

Lemma ImportSchema_cases e registryCtx record s :
  let cs := ctx s registryCtx in
  let '(res, record', s') := ImportSchema e registryCtx record s in
  (res = fail ErrSchemaIDConflict /\ s' = putContext s registryCtx cs /\ record' = record /\
     exists existing, schemas cs !! ID record = Some existing /\ Fingerprint existing <> Fingerprint record) \/
  (res = fail ErrSchemaExists /\ record' = record /\
     s' = putContext s registryCtx (initVersions cs (Subject record)) /\
     entry cs (Subject record) (Version record) <> None) \/
  (res = Ok tt /\ record' = {| record with CreatedAt := now e 1 |} /\
     (forall existing, schemas cs !! ID record = Some existing -> Fingerprint existing = Fingerprint record) /\
     entry cs (Subject record) (Version record) = None /\
     let cs1 := importContent (initVersions cs (Subject record)) record in
     let next := nextSubjectVersion cs in
     s' = putContext s registryCtx
       (addVersion
          {| cs1 with nextSubjectVersion :=
               if from_opt 0 (next !! Subject record) <=? Version record
               then <[Subject record := Version record]> next else next |}
          (Subject record) (Version record)
          (MkInfo (ID record) (Version record) false (now e 0)
             (SchemaMetadata record) (SchemaRuleSet record)))).
Proof.
  intros cs. unfold ImportSchema.
  destruct (getOrCreateContext s registryCtx) as [cs0 s0] eqn:E.
  apply getOrCreateContext_spec in E as [Ecs ->]. fold (ctx s registryCtx) in Ecs. fold cs in Ecs. subst cs0.
  destruct (id_conflict cs record) eqn:Econf; unfold id_conflict in Econf.
  { left. split_and!; try done. destruct (schemas cs !! ID record) as [ex|]; [|done].
    exists ex. split; [done|]. by apply negb_true_iff, bool_decide_eq_false in Econf. }
  fold (entry (initVersions cs (Subject record)) (Subject record) (Version record)).
  rewrite entry_initVersions. destruct (entry cs (Subject record) (Version record)) eqn:Een.
  { right; left. by rewrite putContext_putContext. }
  right; right. split_and!; try done.
  - intros ex Hex. rewrite Hex in Econf. by apply negb_false_iff, bool_decide_eq_true in Econf.
  - rewrite putContext_putContext. f_equal.
    destruct (initVersions_fields cs (Subject record)) as (_ & _ & En & _).
    unfold addVersion, putVersions, importContent; simpl. rewrite En.
    by destruct (_ <=? _).
Qed.

Lemma Inv_putContext_self s registryCtx : Inv s -> Inv (putContext s registryCtx (ctx s registryCtx)).
Proof. intros H. by apply Inv_putContext, Inv_ctx. Qed.

Lemma importContent_stores cs record :
  wf cs ->
  (forall existing, schemas cs !! ID record = Some existing -> Fingerprint existing = Fingerprint record) ->
  stores_id cs (importContent cs record) (ID record) /\
  (forall fp id, fingerprints (importContent cs record) !! fp = Some id ->
     exists schema, schemas (importContent cs record) !! id = Some schema /\ Fingerprint schema = fp).
Proof.
  intros Hwf Hex.
  assert (Hs : stores_id cs (importContent cs record) (ID record)).
  { unfold stores_id, importContent; simpl. destruct (schemas cs !! ID record) eqn:E; [left; eauto|].
    right. exists (schemaContent (ID record) record). done. }
  split; [done|]. intros fp id. unfold importContent; simpl. rewrite lookup_insert. case_decide as D.
  - intros [= <-]. destruct (schemas cs !! ID record) as [sc|] eqn:E.
    + exists sc. naive_solver.
    + exists (schemaContent (ID record) record). by rewrite lookup_insert_eq.
  - intros H. destruct (wf_fingerprint _ _ Hwf _ _ H) as (sc & Hsc & Hf). exists sc.
    split; [|done]. by apply (stores_id_mono _ _ _ _ _ Hs).
Qed.

Lemma ImportSchema_Inv e registryCtx record s : Inv s -> Inv (snd (ImportSchema e registryCtx record s)).
Proof.
  intros Hinv. pose proof (ImportSchema_cases e registryCtx record s) as H. cbv zeta in H.
  pose proof (Inv_ctx s registryCtx Hinv) as Hwf.
  set (cs := ctx s registryCtx) in *.
  destruct (ImportSchema e registryCtx record s) as [[res r'] s']. simpl.
  destruct H as [(_ & -> & _)|[(_ & _ & -> & _)|(_ & _ & Hex & Hen & ->)]].
  - by apply Inv_putContext_self.
  - by apply Inv_putContext, wf_initVersions.
  - apply Inv_putContext; [done|].
    pose proof (wf_initVersions cs (Subject record) Hwf) as Hwfi.
    destruct (initVersions_fields cs (Subject record)) as (Es & Ef & En & Ei & Eid & _).
    set (csi := initVersions cs (Subject record)) in *.
    destruct (importContent_stores csi record Hwfi) as [Hs Hfp]; [by rewrite Es|].
    eapply (wf_addVersion csi); simpl; try done.
    + unfold csi. by rewrite entry_initVersions.
    + intros sub. unfold last_version; simpl. rewrite En. case_match; [|lia].
      rewrite lookup_insert. case_decide; [subst; simpl|]; lia.
    + unfold last_version; simpl. case_match; [rewrite lookup_insert_eq; simpl|]; lia.
Qed.

(** ** The invariant, step by step *)

Definition same_schemas (cs cs' : contextStore) : Prop :=
  schemas cs' = schemas cs /\ subjectVersions cs' = subjectVersions cs /\
  nextSubjectVersion cs' = nextSubjectVersion cs /\ fingerprints cs' = fingerprints cs /\
  idToSubjectVersions cs' = idToSubjectVersions cs.

Lemma wf_same_schemas cs cs' : same_schemas cs cs' -> wf cs -> wf cs'.
Proof.
  intros (E1 & E2 & E3 & E4 & E5) [H1 H2 H3 H4 H5 H6 H7 H8].
  split; unfold entry, versionMap, index, last_version in *; rewrite ?E1, ?E2, ?E3, ?E4, ?E5; eauto.
Qed.

Lemma getOrCreateContext_ctx s registryCtx : 
  exists s', getOrCreateContext s registryCtx = (ctx s registryCtx, s') /\
    forall cs, putContext s' registryCtx cs = putContext s registryCtx cs.
Proof.
  destruct (getOrCreateContext s registryCtx) as [cs s'] eqn:E. exists s'.
  apply getOrCreateContext_spec in E as [-> ->]. split; [done|]. intros. apply putContext_putContext.
Qed.

Ltac open_context s registryCtx :=
  destruct (getOrCreateContext_ctx s registryCtx) as (? & -> & ?).

Lemma CreateSchema_Inv e registryCtx record s :
  Inv s -> fresh_version (ctx s registryCtx) (Subject record) -> fresh_id (ctx s registryCtx) record ->
  Inv (snd (CreateSchema e registryCtx record s)).
Proof.
  intros Hinv Hver Hid.
  pose proof (find_duplicate e (ctx s registryCtx) record) as Hf.
  destruct (List.find _ _) as [[v info]|].
  - destruct (CreateSchema_duplicate_eq e registryCtx record s) as (? & ? & _ & _ & ->).
    { by exists v, info. }
    by apply Inv_putContext, wf_initVersions, Inv_ctx.
  - destruct (CreateSchema_spec e registryCtx record s Hinv Hf Hver Hid) as (? & ? & _ & -> & Hwf & _).
    by apply Inv_putContext.
Qed.

Lemma DeleteSchema_Inv registryCtx subject v permanent s :
  Inv s -> Inv (snd (DeleteSchema registryCtx subject v permanent s)).
Proof.
  intros Hinv. pose proof (Inv_ctx s registryCtx Hinv) as Hwf. unfold DeleteSchema.
  destruct (getContext s registryCtx) as [cs|] eqn:Eg; [|done].
  apply getContext_Some in Eg. rewrite Eg in Hwf. case_decide; [done|].
  destruct (versionMap cs subject !! v) as [info|] eqn:E; [|done].
  destruct (_ && _); [done|]. apply Inv_putContext; [done|]. destruct permanent.
  - by apply wf_permanentDelete.
  - by apply wf_softDelete.
Qed.

Lemma DeleteSubject_Inv e registryCtx subject permanent s :
  Inv s -> Inv (snd (DeleteSubject e registryCtx subject permanent s)).
Proof.
  intros Hinv. pose proof (Inv_ctx s registryCtx Hinv) as Hwf. unfold DeleteSubject.
  destruct (getContext s registryCtx) as [cs|] eqn:Eg; [|done].
  apply getContext_Some in Eg. rewrite Eg in Hwf. case_decide; [done|].
  destruct (permanent && _); [done|]. destruct (negb permanent && _); [done|]. destruct permanent.
  - pose proof (permanent_subject e cs subject Hwf) as Hp. cbv zeta in Hp.
    destruct (fold_left _ _ _) as [dels cs']. apply Inv_putContext; [done|]. apply Hp.
  - pose proof (soft_loop subject _ cs [] Hwf (pending_range e cs subject)) as Hp.
    destruct (fold_left _ _ _) as [dels cs']. apply Inv_putContext; [done|]. apply Hp.
Qed.

(** Property C7.  In every store that the operations reach from an empty one, each
    registration finding the next ID unused and its version counter below the
    overflow, the maps agree: each subject version has its content stored under
    its ID and listed in the reverse index, each fingerprint points to content
    that has it, and each stored content is in use.  (A registration that races
    with an import finds its ID used, [RegistryImport.import_race]; the IDs in use stay
    below the sequence otherwise, [ids_below_step].) *)
Theorem reachable_Inv s : reachable s -> Inv s.
Proof.
  unfold reachable. revert s. apply (rtc_ind_r (fun s => Inv s) NewStore); [apply Inv_NewStore|].
  intros s1 s2 _ [e registryCtx o s0 Hg] Hinv.
  pose proof (Inv_ctx s0 registryCtx Hinv) as Hwf.
  assert (Hsame : forall cs, same_schemas (ctx s0 registryCtx) cs -> Inv (putContext s0 registryCtx cs)).
  { intros cs Hs. apply Inv_putContext; [done|]. by eapply wf_same_schemas. }
  destruct o; simpl.
  - destruct Hg. by apply CreateSchema_Inv.
  - by apply ImportSchema_Inv.
  - by apply DeleteSchema_Inv.
  - by apply DeleteSubject_Inv.
  - unfold SetConfig. open_context s0 registryCtx. by rewrite H; apply Hsame.
  - unfold DeleteConfig. destruct (getContext s0 registryCtx) eqn:Eg; [|done].
    apply getContext_Some in Eg as <-. case_match; [|done]. by apply Hsame.
  - unfold SetGlobalConfig. open_context s0 registryCtx. by rewrite H; apply Hsame.
  - unfold DeleteGlobalConfig. destruct (getContext s0 registryCtx) eqn:Eg; [|done].
    apply getContext_Some in Eg as <-. by apply Hsame.
  - unfold SetMode. open_context s0 registryCtx. by rewrite H; apply Hsame.
  - unfold DeleteMode. destruct (getContext s0 registryCtx) eqn:Eg; [|done].
    apply getContext_Some in Eg as <-. case_match; [|done]. by apply Hsame.
  - unfold SetGlobalMode. open_context s0 registryCtx. by rewrite H; apply Hsame.
  - unfold DeleteGlobalMode. destruct (getContext s0 registryCtx) eqn:Eg; [|done].
    apply getContext_Some in Eg as <-. by apply Hsame.
  - unfold NextID. open_context s0 registryCtx. by simpl; rewrite H; apply Hsame.
  - unfold SetNextID. open_context s0 registryCtx. by rewrite H; apply Hsame.
Qed.

Lemma reachable_Inv_witness : Inv (apply_op env0 "." (OpCreateSchema (avro_record "orders" "[string]" "f1")) NewStore).
Proof.
  apply reachable_Inv. apply rtc_once. apply (step_op env0 ".").
  split; [split; vm_compute; [discriminate|reflexivity]|intros _; reflexivity].
Defined.

(** ** Isolation *)

Lemma contexts_apply_op e registryCtx o s c :
  c <> registryCtx -> contexts (apply_op e registryCtx o s) !! c = contexts s !! c.
Proof.
  intros Hc.
  assert (Hput : forall cs, contexts (putContext s registryCtx cs) !! c = contexts s !! c)
    by (intros; by apply lookup_putContext_ne).
  destruct o; simpl;
    unfold CreateSchema, SetConfig, SetGlobalConfig, SetMode, SetGlobalMode, NextID, SetNextID,
      DeleteSchema, DeleteSubject, DeleteConfig, DeleteMode, DeleteGlobalConfig, DeleteGlobalMode;
    try (destruct (getOrCreateContext_ctx s registryCtx) as (s' & -> & Hs'));
    try (destruct (getContext s registryCtx) as [cs|]; [|done]).
  - destruct (List.find _ _) as [[v info]|]; [cbn [snd]; rewrite Hs'; apply Hput|].
    destruct (assignID _ _). cbn [snd]; rewrite Hs'; apply Hput.
  - pose proof (ImportSchema_cases e registryCtx record s) as H. cbv zeta in H.
    destruct (ImportSchema e registryCtx record s) as [[res r'] s1]. simpl.
    destruct H as [(_ & -> & _)|[(_ & _ & -> & _)|(_ & _ & _ & _ & ->)]]; apply Hput.
  - repeat (case_match; try done); apply Hput.
  - repeat (case_match; try done); apply Hput.
  - cbn [snd]; rewrite Hs'; apply Hput.
  - case_match; [apply Hput|done].
  - cbn [snd]; rewrite Hs'; apply Hput.
  - apply Hput.
  - cbn [snd]; rewrite Hs'; apply Hput.
  - case_match; [apply Hput|done].
  - cbn [snd]; rewrite Hs'; apply Hput.
  - apply Hput.
  - cbn [snd]; rewrite Hs'; apply Hput.
  - cbn [snd]; rewrite Hs'; apply Hput.
Qed.

(** Registry contexts are isolated: an operation on one context
    leaves every lookup in every other context as it was. *)
Theorem contexts_isolated e registryCtx o s c :
  c <> registryCtx ->
  let s' := apply_op e registryCtx o s in
  contexts s' !! c = contexts s !! c /\
  (forall e' subject v,
     GetSchemaBySubjectVersion e' c subject v s' = GetSchemaBySubjectVersion e' c subject v s) /\
  (forall id, GetSchemaByID c id s' = GetSchemaByID c id s) /\
  (forall e' includeDeleted, ListSubjects e' c includeDeleted s' = ListSubjects e' c includeDeleted s) /\
  (forall subject, GetConfig c subject s' = GetConfig c subject s) /\
  (forall subject, GetMode c subject s' = GetMode c subject s).
Proof.
  intros Hc s'. pose proof (contexts_apply_op e registryCtx o s c Hc) as H. fold s' in H.
  unfold GetSchemaBySubjectVersion, GetSchemaByID, ListSubjects, GetConfig, GetMode, getContext.
  by rewrite H.
Qed.

Lemma contexts_isolated_witness :
  GetSchemaByID "." 1 (apply_op env0 ":.team:" (OpDeleteSubject "orders" false) orders_store) =
  GetSchemaByID "." 1 orders_store.
Proof.
  destruct (contexts_isolated env0 ":.team:" (OpDeleteSubject "orders" false) orders_store ".")
    as (_ & _ & H & _); [discriminate|exact (H 1)].
Defined.

(** ** The ID sequence *)

(** What keeps the next ID above every ID in use: imported IDs are below the
    sequence already, and the sequence is set above every ID in use. *)
Definition sequence_guard (registryCtx : string) (o : op) (s : Store) : Prop :=
  let cs := ctx s registryCtx in
  match o with
  | OpCreateSchema _ | OpNextID => 0 <= nextID cs < Int64.max
  | OpImportSchema record => ID record < nextID cs
  | OpSetNextID id => forall used, is_Some (schemas cs !! used) -> used < id
  | _ => True
  end.

Lemma ids_below_mono cs cs' :
  ids_below cs -> (forall id, is_Some (schemas cs' !! id) -> is_Some (schemas cs !! id)) ->
  nextID cs <= nextID cs' -> ids_below cs'.
Proof. intros H Hs Hn id Hid%Hs%H. lia. Qed.

Lemma incr64_max z : 0 <= z < Int64.max -> incr64 z = z + 1.
Proof. intros. apply Int64.wrap_id. unfold Int64.in_range, Int64.min, Int64.max in *. lia. Qed.

Lemma ids_below_assignID cs record :
  0 <= nextID cs < Int64.max -> ids_below cs -> ids_below (snd (assignID cs record)).
Proof.
  intros Hn H. unfold assignID. case_match; [done|]. intros id; simpl. rewrite incr64_max by done.
  rewrite lookup_insert. case_decide; [lia|]. intros Hid%H. lia.
Qed.

Lemma ids_below_unlink cs subject v id : ids_below cs -> ids_below (unlink cs subject v id).
Proof.
  intros H. apply (ids_below_mono cs); [done| |unfold unlink; case_match; simpl; lia].
  intros i [sc Hsc%schemas_unlink_Some]. eauto.
Qed.

Lemma ids_below_deleteStep subject permanent l : forall dels cs,
  ids_below cs -> ids_below (snd (fold_left (deleteStep subject permanent) l (dels, cs))).
Proof.
  induction l as [|[v info] l IH]; intros dels cs H; [done|]. simpl.
  destruct (deleted info && _); [by apply IH|]. apply IH. destruct permanent; [|done].
  by apply ids_below_unlink.
Qed.

Lemma ids_below_putContext s registryCtx cs c :
  ids_below cs -> (forall c, ids_below (ctx s c)) -> ids_below (ctx (putContext s registryCtx cs) c).
Proof. intros H Hs. rewrite ctx_putContext. by case_decide. Qed.

(** As long as imports stay below the sequence, and the sequence is
    set above the IDs in use and below its overflow, every ID in use stays
    below the next ID, so that no registration can overwrite a schema. *)
Theorem ids_below_step e registryCtx o s :
  (forall c, ids_below (ctx s c)) -> sequence_guard registryCtx o s ->
  (forall c, ids_below (ctx (apply_op e registryCtx o s) c)) /\
  (forall c record, fresh_id (ctx (apply_op e registryCtx o s) c) record).
Proof.
  intros H Hg.
  enough (Hb : forall c, ids_below (ctx (apply_op e registryCtx o s) c)).
  { split; [done|]. intros c record _. destruct (_ !! nextID _) eqn:E; [|done].
    specialize (Hb c (nextID (ctx (apply_op e registryCtx o s) c))).
    rewrite E in Hb. specialize (Hb ltac:(eauto)). lia. }
  intros c.
  pose proof (H registryCtx) as Hr.
  assert (Hput : forall cs, ids_below cs -> ids_below (ctx (putContext s registryCtx cs) c))
    by (intros; by apply ids_below_putContext).
  assert (Hi : forall subject, ids_below (initVersions (ctx s registryCtx) subject)).
  { intros subject. destruct (initVersions_fields (ctx s registryCtx) subject) as (E & _ & _ & _ & E' & _).
    unfold ids_below. by rewrite E, E'. }
  destruct o; simpl;
    unfold CreateSchema, SetConfig, SetGlobalConfig, SetMode, SetGlobalMode, NextID, SetNextID,
      DeleteSchema, DeleteSubject, DeleteConfig, DeleteMode, DeleteGlobalConfig, DeleteGlobalMode;
    try (destruct (getOrCreateContext_ctx s registryCtx) as (s' & -> & Hs'));
    try (destruct (getContext s registryCtx) as [cs|] eqn:Eg; [|done]; apply getContext_Some in Eg;
         rewrite Eg in Hr, Hi);
    try (cbn [snd]; rewrite Hs'; apply Hput); try exact Hr.
  - specialize (Hi (Subject record)).
    assert (Hn : 0 <= nextID (initVersions (ctx s registryCtx) (Subject record)) < Int64.max).
    { by destruct (initVersions_fields (ctx s registryCtx) (Subject record)) as (_ & _ & _ & _ & -> & _). }
    pose proof (ids_below_assignID _ record Hn Hi) as Ha.
    destruct (List.find _ _) as [[v info]|]; cbn [snd]; [rewrite Hs'; by apply Hput|].
    destruct (assignID _ _) as [id cs1]. cbn [snd]. rewrite Hs'. by apply Hput.
  - pose proof (ImportSchema_cases e registryCtx record s) as Hc. cbv zeta in Hc.
    destruct (ImportSchema e registryCtx record s) as [[res r'] s1]. simpl in *.
    destruct Hc as [(_ & -> & _)|[(_ & _ & -> & _)|(_ & _ & _ & _ & ->)]]; apply Hput; try done.
    intros id. destruct (initVersions_fields (ctx s registryCtx) (Subject record)) as (E & _ & _ & _ & E' & _).
    simpl. rewrite E, E'. case_match; [apply Hr|]. rewrite lookup_insert.
    case_decide; [by subst|apply Hr].
  - case_decide; [done|]. destruct (_ !! v) as [info|]; [|done]. destruct (_ && _); [done|].
    apply Hput. destruct permanent; [|done]. by apply ids_below_unlink.
  - case_decide; [done|]. destruct (_ && _); [done|]. destruct (_ && _); [done|].
    pose proof (ids_below_deleteStep subject permanent (range e (versionMap cs subject)) [] cs Hr) as Hd.
    destruct (fold_left _ _ _) as [dels cs']. apply Hput. by destruct permanent.
  - case_match; [|done]. by apply Hput.
  - by apply Hput.
  - case_match; [|done]. by apply Hput.
  - by apply Hput.
  - eapply ids_below_mono; [exact Hr|done|]. simpl. rewrite incr64_max by done. lia.
  - apply Hg.
Qed.

Lemma ids_below_step_witness :
  ids_below (ctx (apply_op env0 "." (OpCreateSchema (avro_record "o" "x" "f")) NewStore) ".").
Proof.
  apply (ids_below_step env0 "." (OpCreateSchema (avro_record "o" "x" "f")) NewStore).
  - intros c id. unfold ctx, NewStore. simpl. rewrite lookup_singleton.
    destruct (decide _); simpl; rewrite lookup_empty; intros [? [=]].
  - split; vm_compute; [discriminate|reflexivity].
Defined.
