(* ===== verification/MemQueries.v ===== *)
(** * The in-memory backend: reverse lookups and listings *)
From S2P Require Import Prelude GoStrings StorageTypes MemState MemStore MemInvariant MemStoreFacts MemDelete.

Local Open Scope Z_scope.

Lemma elem_of_entries e cs subject v info :
  (subject, (v, info)) ∈ entries e cs <-> entry cs subject v = Some info.
Proof.
  unfold entries. rewrite list_elem_of_In, in_flat_map. split.
  - intros ([sub vm] & Hin & Hm). apply list_elem_of_In, elem_of_range in Hin.
    apply list_elem_of_In, list_elem_of_fmap in Hm as ([w i] & [= -> -> ->] & Hr).
    apply elem_of_range in Hr. unfold entry, versionMap. by rewrite Hin.
  - unfold entry, versionMap. destruct (subjectVersions cs !! subject) as [vm|] eqn:E; simpl;
      [|by rewrite lookup_empty].
    intros Hv. exists (subject, vm). rewrite <- !list_elem_of_In, elem_of_range. split; [done|].
    apply list_elem_of_fmap. exists (v, info). by rewrite elem_of_range.
Qed.

Lemma stored_inv cs subject v record :
  stored cs subject v = Some record ->
  exists info schema, entry cs subject v = Some info /\ schemas cs !! schemaID info = Some schema /\
    record = fillRecord schema subject v info.
Proof. intros (info & Hv & (sc & Hs & [= <-])%bind_Some)%bind_Some. eauto. Qed.

Lemma getContext_None s registryCtx subject v :
  getContext s registryCtx = None -> stored (ctx s registryCtx) subject v = None.
Proof.
  unfold getContext, ctx. intros ->. simpl. unfold stored. rewrite entry_empty; [done|].
  unfold versionMap. simpl. by rewrite lookup_empty.
Qed.

(** ** The versions of a subject *)

Lemma elem_of_GetSchemasBySubject e c subject d s l record :
  GetSchemasBySubject e c subject d s = Ok l ->
  (record ∈ l <-> stored (ctx s c) subject (Version record) = Some record /\ Subject record = subject /\
                  (d = true \/ Deleted record = false)).
Proof.
  unfold GetSchemasBySubject. destruct (getContext s c) as [cs|] eqn:Eg; [|done].
  apply getContext_Some in Eg. rewrite Eg. case_decide; [done|].
  set (found := filled _ _ _). intros Hl.
  assert (El : record ∈ l <-> record ∈ found).
  { destruct found; [done|]. injection Hl as <-. by rewrite merge_sort_Permutation. }
  rewrite El. unfold found, filled. rewrite list_elem_of_omap. split.
  - intros ([v info] & Hin & (sc & Hs & [= <-])%bind_Some).
    apply list_elem_of_In, filter_In in Hin as [Hin Hd]. apply list_elem_of_In, elem_of_range in Hin.
    split_and!; [|done|].
    + simpl. unfold stored, entry. rewrite Hin. simpl. by rewrite Hs.
    + simpl. unfold live in Hd. by rewrite orb_true_iff, negb_true_iff in Hd.
  - intros ((info & sc & Hv & Hs & Hr)%stored_inv & Hsub & Hd). exists (Version record, info).
    split; [|rewrite Hs; simpl; by rewrite <- Hr].
    apply list_elem_of_In, filter_In. rewrite <- list_elem_of_In, elem_of_range. split; [done|].
    unfold live. rewrite orb_true_iff, negb_true_iff. by rewrite Hr in Hd.
Qed.

Lemma GetSchemasBySubject_Err e c subject d s err v record :
  GetSchemasBySubject e c subject d s = Err err -> stored (ctx s c) subject v = Some record ->
  d = false /\ Deleted record = true.
Proof.
  unfold GetSchemasBySubject. intros He Hst. destruct (getContext s c) as [cs|] eqn:Eg.
  2: { by rewrite getContext_None in Hst. }
  apply getContext_Some in Eg. rewrite Eg in Hst. apply stored_inv in Hst as (info & sc & Hv & Hs & ->).
  case_decide as Hne; [by apply entry_nonempty in Hv|].
  set (found := filled _ _ _) in He.
  assert (Hn : fillRecord sc subject v info ∉ found) by (destruct found; [set_solver|done]).
  destruct d, (deleted info) eqn:Ed; try done; destruct Hn; apply list_elem_of_omap; exists (v, info);
    (split; [apply list_elem_of_In, filter_In|by rewrite Hs]); rewrite <- list_elem_of_In, elem_of_range;
    (split; [done|]); unfold live; by rewrite ?Ed.
Qed.

(** ** References *)

Lemma elem_of_GetReferencedBy e registryCtx subject ver s sv :
  sv ∈ GetReferencedBy e registryCtx subject ver s <->
  exists record,
    stored (ctx s registryCtx) (SVSubject sv) (SVVersion sv) = Some record /\
    Deleted record = false /\
    exists ref, ref ∈ References record /\ RefSubject ref = subject /\ RefVersion ref = ver.
Proof.
  unfold GetReferencedBy. destruct (getContext s registryCtx) as [cs|] eqn:Eg; cycle 1.
  { split; [set_solver|]. intros (r & Hr & _). by rewrite getContext_None in Hr. }
  apply getContext_Some in Eg. rewrite Eg. rewrite list_elem_of_omap.
  assert (Href : forall sc, references_version subject ver sc = true <->
    exists ref, ref ∈ References sc /\ RefSubject ref = subject /\ RefVersion ref = ver).
  { intros sc. unfold references_version. rewrite existsb_exists. f_equiv. intros ref.
    by rewrite <- list_elem_of_In, andb_true_iff, bool_decide_eq_true, Z.eqb_eq. }
  split.
  - intros ([sub [v info]] & Hin & Hx). apply elem_of_entries in Hin.
    destruct (deleted info) eqn:Ed; [done|].
    destruct (schemas cs !! schemaID info) as [sc|] eqn:Es; [|done].
    destruct (references_version subject ver sc) eqn:Er; [|done].
    injection Hx as <-. simpl. exists (fillRecord sc sub v info).
    split_and!; [|done|by apply Href]. unfold stored. rewrite Hin. simpl. by rewrite Es.
  - intros (record & (info & sc & Hv & Hs & ->)%stored_inv & Hd & Hr). simpl in Hd, Hr.
    destruct sv as [sub v]. simpl in *. exists (sub, (v, info)).
    rewrite elem_of_entries, Hd, Hs. split; [done|]. apply Href in Hr. by rewrite Hr.
Qed.

(** GetReferencedBy returns exactly the live subject versions one of
    whose references names the subject and the version number. *)
Theorem GetReferencedBy_spec e registryCtx subject ver s sv :
  sv ∈ GetReferencedBy e registryCtx subject ver s <->
  exists record,
    stored (ctx s registryCtx) (SVSubject sv) (SVVersion sv) = Some record /\
    Deleted record = false /\
    exists ref, ref ∈ References record /\ RefSubject ref = subject /\ RefVersion ref = ver.
Proof. exact (elem_of_GetReferencedBy e registryCtx subject ver s sv). Qed.

(** ** Subjects *)

Lemma SubjectExists_spec e registryCtx subject s :
  SubjectExists e registryCtx subject s = true <->
  exists v info, entry (ctx s registryCtx) subject v = Some info /\ deleted info = false.
Proof.
  unfold SubjectExists. destruct (getContext s registryCtx) as [cs|] eqn:Eg; cycle 1.
  { split; [done|]. intros (v & info & H & _). unfold getContext in Eg. unfold ctx in H.
    rewrite Eg in H. simpl in H. rewrite entry_empty in H; [done|].
    unfold versionMap. simpl. by rewrite lookup_empty. }
  apply getContext_Some in Eg. rewrite Eg, existsb_range.
  unfold entry, live. by setoid_rewrite negb_true_iff.
Qed.

Lemma elem_of_sort_strings x l : x ∈ sort_strings l <-> x ∈ l.
Proof. unfold sort_strings. by rewrite merge_sort_Permutation. Qed.

Lemma elem_of_ListSubjects e registryCtx includeDeleted s subject :
  subject ∈ ListSubjects e registryCtx includeDeleted s <->
  exists vm, subjectVersions (ctx s registryCtx) !! subject = Some vm /\
    (includeDeleted = true \/ exists v info, vm !! v = Some info /\ deleted info = false).
Proof.
  unfold ListSubjects. destruct (getContext s registryCtx) as [cs|] eqn:Eg; cycle 1.
  { split; [set_solver|]. intros (vm & H & _). unfold getContext in Eg. unfold ctx in H.
    rewrite Eg in H. simpl in H. by rewrite lookup_empty in H. }
  apply getContext_Some in Eg. rewrite Eg, elem_of_sort_strings, list_elem_of_omap.
  assert (Hl : forall vm : gmap Z subjectVersionInfo,
    includeDeleted || existsb (fun '(_, info) => live info) (range e vm) = true <->
    includeDeleted = true \/ exists v info, vm !! v = Some info /\ deleted info = false).
  { intros vm. rewrite orb_true_iff, existsb_range. unfold live. by setoid_rewrite negb_true_iff. }
  split.
  - intros ([sub vm] & Hin & Hx). apply elem_of_range in Hin. exists vm.
    destruct (includeDeleted || _) eqn:El; [|done]. injection Hx as ->. split; [done|]. by apply Hl.
  - intros (vm & Hin & Hx). exists (subject, vm). rewrite elem_of_range. split; [done|].
    apply Hl in Hx. by rewrite Hx.
Qed.

(** Without deleted subjects, ListSubjects returns exactly the
    subjects SubjectExists knows, each once and in order. *)
Theorem ListSubjects_exist e e' registryCtx s :
  let subjects := ListSubjects e registryCtx false s in
  Sorted String.le subjects /\ NoDup subjects /\
  forall subject, subject ∈ subjects <-> SubjectExists e' registryCtx subject s = true.
Proof.
  split_and!.
  - unfold ListSubjects. destruct (getContext s registryCtx); [|constructor].
    apply Sorted_merge_sort; apply _.
  - unfold ListSubjects. destruct (getContext s registryCtx) as [cs|]; [|apply NoDup_nil_2].
    unfold sort_strings. rewrite merge_sort_Permutation.
    apply (NoDup_keys_with e (subjectVersions cs)
             (fun vm => existsb (fun '(_, info) => live info) (range e vm))).
  - intros subject. rewrite elem_of_ListSubjects, SubjectExists_spec.
    unfold entry, versionMap. split.
    + intros (vm & -> & [?|(v & info & Hv & Hd)]); [done|eauto].
    + intros (v & info & Hv & Hd). destruct (_ !! subject) as [vm|]; [|simpl in Hv; by rewrite lookup_empty in Hv].
      exists vm. simpl in Hv. split; [done|]. eauto.
Qed.

(** Finding: a permanent DeleteSchema of the last version leaves the subject's
    empty version map, so a listing with deleted subjects still names a subject
    that DeleteSubject and GetSchemasBySubject do not find. *)
Example ghost_subject :
  let s1 := snd (DeleteSchema "." "orders" 1 false orders_store) in
  let '(res, s2) := DeleteSchema "." "orders" 1 true s1 in
  res = Ok tt /\
  ListSubjects env0 "." true s2 = ["orders"%string] /\
  DeleteSubject env0 "." "orders" true s2 = (fail ErrSubjectNotFound, s2) /\
  GetSchemasBySubject env0 "." "orders" true s2 = fail ErrSubjectNotFound.
Proof. vm_compute. split_and!; reflexivity. Qed.

(** ** Lookups by ID *)

Lemma GetVersionsBySchemaID_cases registryCtx id includeDeleted s :
  Inv s ->
  match GetVersionsBySchemaID registryCtx id includeDeleted s with
  | Err err =>
      err = sentinel_err ErrSchemaNotFound /\ GetSchemaByID registryCtx id s = fail ErrSchemaNotFound /\
      forall subject v record, stored (ctx s registryCtx) subject v = Some record -> ID record <> id
  | Ok svs =>
      NoDup svs /\
      forall sv, sv ∈ svs <->
        exists record, stored (ctx s registryCtx) (SVSubject sv) (SVVersion sv) = Some record /\
          ID record = id /\ (includeDeleted = true \/ Deleted record = false)
  end.
Proof.
  intros Hinv. pose proof (Inv_ctx s registryCtx Hinv) as Hwf.
  unfold GetVersionsBySchemaID, GetSchemaByID.
  destruct (getContext s registryCtx) as [cs|] eqn:Eg; cycle 1.
  { split_and!; [done..|]. intros subject v record. by rewrite getContext_None. }
  apply getContext_Some in Eg. rewrite Eg in *.
  destruct (schemas cs !! id) as [schema|] eqn:Es; cycle 1.
  { split_and!; [done..|]. intros subject v record (info & sc & Hv & Hs & ->)%stored_inv Hid.
    simpl in Hid. rewrite (wf_id _ _ Hwf _ _ Hs) in Hid. congruence. }
  fold (index cs id). split; [apply NoDup_filter_bool, (wf_NoDup _ _ Hwf)|].
  intros [sub v]. rewrite list_elem_of_In, filter_In, <- list_elem_of_In, (wf_index _ _ Hwf).
  unfold visible; simpl. fold (entry cs sub v). split.
  - intros [(info & Hv & Hid) Hvis]. rewrite Hv in Hvis.
    destruct (stored_Some _ _ _ _ Hwf Hv) as (sc & Hs & Hi & Hst).
    exists (fillRecord sc sub v info). split_and!; [done|simpl; congruence|].
    unfold live in Hvis. by rewrite orb_true_iff, negb_true_iff in Hvis.
  - intros (record & (info & sc & Hv & Hs & ->)%stored_inv & Hid & Hd). simpl in *.
    rewrite (wf_id _ _ Hwf _ _ Hs) in Hid. split; [eauto|]. rewrite Hv. unfold live.
    by rewrite orb_true_iff, negb_true_iff.
Qed.

(** The versions listed for a schema ID are exactly the subject
    versions stored with that ID, each once, less the deleted ones unless they
    are asked for; an ID without content is not found. *)
Theorem GetVersionsBySchemaID_spec registryCtx id includeDeleted s :
  Inv s ->
  match GetVersionsBySchemaID registryCtx id includeDeleted s with
  | Err err =>
      err = sentinel_err ErrSchemaNotFound /\ GetSchemaByID registryCtx id s = fail ErrSchemaNotFound /\
      forall subject v record, stored (ctx s registryCtx) subject v = Some record -> ID record <> id
  | Ok svs =>
      NoDup svs /\
      forall sv, sv ∈ svs <->
        exists record, stored (ctx s registryCtx) (SVSubject sv) (SVVersion sv) = Some record /\
          ID record = id /\ (includeDeleted = true \/ Deleted record = false)
  end.
Proof. exact (GetVersionsBySchemaID_cases registryCtx id includeDeleted s). Qed.

Lemma GetVersionsBySchemaID_spec_witness :
  exists svs, GetVersionsBySchemaID "." 1 false orders_store = Ok svs /\ NoDup svs.
Proof.
  pose proof (GetVersionsBySchemaID_spec "." 1 false orders_store Inv_orders_store) as H.
  destruct (GetVersionsBySchemaID "." 1 false orders_store) as [svs|err] eqn:E;
    [|vm_compute in E; discriminate].
  exists svs. split; [reflexivity|exact (proj1 H)].
Defined.

(** ** Listing schemas *)

Definition listed (cs : contextStore) (params : ListSchemasParams) (record : SchemaRecord) : Prop :=
  HasPrefix (Subject record) (SubjectPrefix params) = true /\
  stored cs (Subject record) (Version record) = Some record /\
  (ListDeleted params = true \/ Deleted record = false) /\
  (LatestOnly params = true -> 0 < Version record /\
    forall v other, stored cs (Subject record) v = Some other ->
      ListDeleted params = true \/ Deleted other = false -> v <= Version record).

Lemma lookup_latestVersions e cs includeDeleted subject l :
  latestVersions e cs includeDeleted !! subject = Some l <->
  0 < l /\ exists vm, subjectVersions cs !! subject = Some vm /\
    latest_version (fun info => includeDeleted || live info) (range e vm) = l.
Proof.
  unfold latestVersions. set (p := fun info : subjectVersionInfo => includeDeleted || live info).
  enough (H : forall (en : list (string * gmap Z subjectVersionInfo)) (acc : gmap string Z), NoDup (map fst en) -> (forall sub, sub ∈ map fst en -> acc !! sub = None) ->
    fold_left (fun acc '(subject, vm) =>
      if 0 <? latest_version p (range e vm) then <[subject := latest_version p (range e vm)]> acc else acc)
      en acc !! subject = Some l <->
    acc !! subject = Some l \/
    0 < l /\ exists vm, (subject, vm) ∈ en /\ latest_version p (range e vm) = l).
  { rewrite H; [|apply NoDup_range_fst|intros; apply lookup_empty]. rewrite lookup_empty.
    setoid_rewrite elem_of_range. naive_solver. }
  induction en as [|[sub vm] en IH]; intros acc Hnd Hacc; simpl; [set_solver|].
  apply NoDup_cons in Hnd as [Hni Hnd]. rewrite IH; [|done|].
  - pose proof (Hacc sub ltac:(set_solver)) as Hs.
    destruct (Z.ltb_spec 0 (latest_version p (range e vm))) as [Hl|Hl].
    + rewrite lookup_insert. case_decide as D.
      * subst sub. rewrite Hs. split.
        -- intros [[= <-]|(? & vm' & Hin & ?)]; right; split; try done; [exists vm; by split; [constructor|]|].
           exists vm'. split; [by constructor|done].
        -- intros [?|(? & vm' & [[= ->]|Hin]%elem_of_cons & Hl')]; [done|left; congruence|].
           right. eauto.
      * split; (intros [?|(? & vm' & Hin & ?)]; [by left|right; split; [done|]; exists vm'; split; [|done]]);
          [by constructor|]. apply elem_of_cons in Hin as [[= -> ->]|]; done.
    + split; (intros [?|(? & vm' & Hin & ?)]; [by left|right; split; [done|]; exists vm'; split; [|done]]);
        [by constructor|]. apply elem_of_cons in Hin as [[= -> ->]|]; [lia|done].
  - intros sub' Hin. assert (sub' <> sub) by (by intros ->). case_match; [|apply Hacc; set_solver].
    rewrite lookup_insert_ne by done. apply Hacc. set_solver.
Qed.

Definition no_page (params : ListSchemasParams) : ListSchemasParams :=
  {| params with Offset := 0; Limit := 0 |}.

Lemma limit_spec {A} lim (l : list A) :
  (if (0 <? lim) && (lim <? Z.of_nat (List.length l)) then take (Z.to_nat lim) l else l) =
  (if 0 <? lim then take (Z.to_nat lim) else id) l.
Proof.
  destruct (0 <? lim); [simpl|done].
  destruct (Z.ltb_spec lim (Z.of_nat (List.length l))); [done|]. by rewrite take_ge by lia.
Qed.

Lemma paginate_spec {A} off lim (l : list A) :
  paginate off lim l =
  (if 0 <? lim then take (Z.to_nat lim) else id) (drop (Z.to_nat off) l).
Proof.
  unfold paginate. rewrite <- limit_spec. destruct (Z.ltb_spec 0 off) as [Ho|Ho]; cbn [andb].
  - destruct (Z.leb_spec (Z.of_nat (List.length l)) off); [|done].
    rewrite drop_ge by lia. simpl. by destruct (_ && _); rewrite ?take_nil.
  - by replace (Z.to_nat off) with 0%nat by lia.
Qed.

Lemma paginate_all {A} (l : list A) : paginate 0 0 l = l.
Proof. done. Qed.

(** ListSchemas without paging returns exactly the subject versions
    that pass the prefix, deletion and latest-only filters, in the order of
    their IDs; a page is the slice its offset and limit cut out of that list. *)
Theorem ListSchemas_spec e registryCtx params s :
  Inv s ->
  let all := ListSchemas e registryCtx (no_page params) s in
  Sorted by_id all /\
  (forall record, record ∈ all <-> listed (ctx s registryCtx) params record) /\
  ListSchemas e registryCtx params s =
    (if 0 <? Limit params then take (Z.to_nat (Limit params)) else id)
      (drop (Z.to_nat (Offset params)) all).
Proof.
  intros Hinv all. pose proof (Inv_ctx s registryCtx Hinv) as Hwf. unfold all, ListSchemas.
  destruct (getContext s registryCtx) as [cs|] eqn:Eg; cycle 1.
  { split_and!; [constructor| |by rewrite drop_nil; destruct (0 <? _); rewrite ?take_nil].
    intros record. split; [set_solver|]. intros (_ & H & _). by rewrite getContext_None in H. }
  apply getContext_Some in Eg. rewrite Eg in *. cbn [no_page ListDeleted LatestOnly SubjectPrefix Offset Limit].
  set (latest := if LatestOnly params then _ else _).
  rewrite !paginate_all.
  split_and!.
  - apply Sorted_merge_sort. intros x y. unfold by_id. lia.
  - intros record. rewrite merge_sort_Permutation, (shuffle_perm e), list_elem_of_omap. split.
    + intros ([sub [v info]] & Hin & (sc & Hs & [= <-])%bind_Some).
      apply list_elem_of_In, filter_In in Hin as [Hin Hk]. apply list_elem_of_In, elem_of_entries in Hin.
      rewrite !andb_true_iff, orb_true_iff in Hk. destruct Hk as [[Hp Hd] Hl].
      unfold live in Hd. rewrite negb_true_iff in Hd.
      split_and!; [done| |done|].
      * unfold stored. simpl. rewrite Hin. simpl. by rewrite Hs.
      * intros HL. unfold latest in Hl. rewrite HL in Hl. simpl in Hl |- *.
        destruct (latestVersions e cs (ListDeleted params) !! sub) as [l|] eqn:El; [|done].
        apply Z.eqb_eq in Hl as <-. apply lookup_latestVersions in El as (Hpos & vm & Hvm & Hl).
        split; [done|]. intros w other (i & sc' & Hw & _ & ->)%stored_inv Hd'. subst v.
        apply (latest_version_range e _ vm) with i.
        -- unfold entry, versionMap in Hw. by rewrite Hvm in Hw.
        -- unfold live. by rewrite orb_true_iff, negb_true_iff.
    + intros (Hp & (info & sc & Hv & Hs & Hr)%stored_inv & Hd & Hl).
      exists (Subject record, (Version record, info)).
      split; [|rewrite Hs; simpl; by rewrite <- Hr].
      apply list_elem_of_In, filter_In. split; [by apply list_elem_of_In, elem_of_entries|].
      assert (Hdi : ListDeleted params = true \/ deleted info = false) by (by rewrite Hr in Hd).
      rewrite Hp. unfold live at 1. rewrite !andb_true_iff, !orb_true_iff, !negb_true_iff.
      split; [split; [done|done]|].
      unfold latest. destruct (LatestOnly params); [right|by left].
      destruct (Hl eq_refl) as [Hpos Hmax]. unfold entry, versionMap in Hv.
      destruct (subjectVersions cs !! Subject record) as [vm|] eqn:Evm; [|simpl in Hv; by rewrite lookup_empty in Hv].
      simpl in Hv. set (p := fun info : subjectVersionInfo => ListDeleted params || live info).
      assert (Hlv : latest_version p (range e vm) = Version record).
      { destruct (latest_version_range e p vm) as [H1 H2]. cbv zeta in *.
        assert (Version record <= latest_version p (range e vm)).
        { eapply H1; [exact Hv|]. unfold p, live. by rewrite orb_true_iff, negb_true_iff. }
        destruct H2 as [?|(? & i & Hi & Hpi)]; [lia|].
        destruct (stored_Some cs (Subject record) (latest_version p (range e vm)) i Hwf) as (sc' & _ & _ & Hst).
        { unfold entry, versionMap. by rewrite Evm. }
        specialize (Hmax _ _ Hst). unfold p, live in Hpi. rewrite orb_true_iff, negb_true_iff in Hpi.
        specialize (Hmax Hpi). lia. }
      rewrite (proj2 (lookup_latestVersions e cs (ListDeleted params) (Subject record) (Version record))).
      * apply Z.eqb_refl.
      * split; [done|]. eauto.
  - apply paginate_spec.
Qed.

Lemma ListSchemas_spec_witness :
  exists record, record ∈ ListSchemas env0 "." (MkListSchemasParams "or" false true 0 0) orders_store /\
    listed (ctx orders_store ".") (MkListSchemasParams "or" false true 0 0) record.
Proof.
  destruct (ListSchemas_spec env0 "." (MkListSchemasParams "or" false true 0 0) orders_store Inv_orders_store)
    as (_ & H & _).
  eexists. rewrite <- H. split; vm_compute; constructor.
Defined.
