(* ===== verification/MemKeys.v ===== *)
(** * Encryption keys and exporters of the in-memory backend

    internal/storage/memory/store.go from CreateExporter on.  KEKs and DEKs are
    copied in and out of the store; exporters are shared with the caller, who
    does not write to them after the call. *)
From S2P Require Import Prelude GoStrings StorageTypes MemState MemStore.
From Stdlib Require Import String.

Local Open Scope Z_scope.

(** [time.Time.UnixMilli]. *)
Definition UnixMilli (t : Z) : Z := t / 1000000.

(** ** Key encryption keys *)

(** The copy of a KEK, its properties included, that the store keeps and
    hands out: as values the two are equal. *)
Definition copyKEK (kek : KEKRecord) : KEKRecord := kek.

(** Returns the caller's record as the call leaves it. *)
Definition CreateKEK (e : env) (kek : KEKRecord) (s : Store) : result unit * KEKRecord * Store :=
  match keks s !! KEKName kek with
  | Some _ => (fail ErrKEKExists, kek, s)
  | None =>
      let kek := {| kek with KEKTs := UnixMilli (now e 0); KEKCreatedAt := now e 0;
                            KEKUpdatedAt := now e 0 |} in
      (Ok tt, kek, {| s with keks := <[KEKName kek := copyKEK kek]> (keks s) |})
  end.

Definition GetKEK (name : string) (includeDeleted : bool) (s : Store) : result KEKRecord :=
  match keks s !! name with
  | None => fail ErrKEKNotFound
  | Some kek =>
      if negb includeDeleted && KEKDeleted kek then fail ErrKEKNotFound else Ok (copyKEK kek)
  end.

Definition UpdateKEK (e : env) (kek : KEKRecord) (s : Store) : result unit * KEKRecord * Store :=
  match keks s !! KEKName kek with
  | None => (fail ErrKEKNotFound, kek, s)
  | Some existing =>
      let kek := {| kek with KEKCreatedAt := KEKCreatedAt existing; KEKTs := UnixMilli (now e 0);
                            KEKUpdatedAt := now e 0 |} in
      (Ok tt, kek, {| s with keks := <[KEKName kek := copyKEK kek]> (keks s) |})
  end.

Definition DeleteKEK (e : env) (name : string) (permanent : bool) (s : Store)
    : result unit * Store :=
  match keks s !! name with
  | None => (fail ErrKEKNotFound, s)
  | Some kek =>
      (Ok tt,
       if permanent
       then {| s with keks := delete name (keks s); deks := delete name (deks s) |}
       else {| s with keks := <[name := {| kek with KEKDeleted := true; KEKTs := UnixMilli (now e 0) |}]>
                                (keks s) |})
  end.

Definition UndeleteKEK (e : env) (name : string) (s : Store) : result unit * Store :=
  match keks s !! name with
  | None => (fail ErrKEKNotFound, s)
  | Some kek =>
      if negb (KEKDeleted kek) then (fail ErrKEKNotFound, s)
      else
        (Ok tt, {| s with keks := <[name := {| kek with KEKDeleted := false;
                                                KEKTs := UnixMilli (now e 0) |}]> (keks s) |})
  end.

Definition by_name (a b : KEKRecord) : Prop := String.le (KEKName a) (KEKName b).
#[export] Instance by_name_dec a b : Decision (by_name a b).
Proof. unfold by_name. apply _. Defined.

Definition ListKEKs (e : env) (includeDeleted : bool) (s : Store) : list KEKRecord :=
  merge_sort by_name
    (omap (fun '(_, kek) =>
       if negb includeDeleted && KEKDeleted kek then None else Some (copyKEK kek))
      (range e (keks s))).

(** ** Data encryption keys *)

Definition dekVersions (s : Store) (kekName subject : string) : option (gmap Z DEKRecord) :=
  subjectMap ← deks s !! kekName; subjectMap !! subject.

Definition putDekVersions (s : Store) (kekName subject : string) (vm : gmap Z DEKRecord) : Store :=
  {| s with deks :=
       <[kekName := <[subject := vm]> (from_opt ∅ (deks s !! kekName))]> (deks s) |}.

(** [if len(versionMap) == 0 { delete(subjectMap, subject) }] after a removal. *)
Definition dropEmptyDekVersions (s : Store) (kekName subject : string) (vm : gmap Z DEKRecord)
    : Store :=
  if decide (vm = ∅)
  then {| s with deks := <[kekName := delete subject (from_opt ∅ (deks s !! kekName))]> (deks s) |}
  else putDekVersions s kekName subject vm.

Definition other_algorithm (algorithm : string) (dek : DEKRecord) : bool :=
  negb (bool_decide (algorithm = EmptyString)) && negb (bool_decide (Algorithm dek = algorithm)).

Definition max_key {A} (l : list (Z * A)) : Z :=
  fold_left (fun maxVersion '(v, _) => if maxVersion <? v then v else maxVersion) l 0.

Definition CreateDEK (e : env) (dek : DEKRecord) (s : Store) : result unit * DEKRecord * Store :=
  match keks s !! DEKKekName dek with
  | None => (fail ErrKEKNotFound, dek, s)
  | Some _ =>
      let vm := from_opt ∅ (dekVersions s (DEKKekName dek) (DEKSubject dek)) in
      let dek :=
        if DEKVersion dek <=? 0
        then {| dek with DEKVersion := incr64 (max_key (range e vm)) |} else dek in
      match vm !! DEKVersion dek with
      | Some _ => (fail ErrDEKExists, dek, putDekVersions s (DEKKekName dek) (DEKSubject dek) vm)
      | None =>
          let dek := {| dek with DEKTs := UnixMilli (now e 0) |} in
          let stored := {| dek with KeyMaterial := EmptyString |} in
          (Ok tt, dek,
           putDekVersions s (DEKKekName dek) (DEKSubject dek) (<[DEKVersion dek := stored]> vm))
      end
  end.

Definition GetDEK (e : env) (kekName subject : string) (v : Z) (algorithm : string)
    (includeDeleted : bool) (s : Store) : result DEKRecord :=
  match dekVersions s kekName subject with
  | None => fail ErrDEKNotFound
  | Some vm =>
      let latest :=
        max_key (List.filter (fun '(_, dek) =>
          negb (negb includeDeleted && DEKDeleted dek) && negb (other_algorithm algorithm dek))
          (range e vm)) in
      if (v <=? 0) && (latest =? 0) then fail ErrDEKNotFound
      else
        match vm !! (if v <=? 0 then latest else v) with
        | None => fail ErrDEKNotFound
        | Some dek =>
            if other_algorithm algorithm dek then fail ErrDEKNotFound
            else if negb includeDeleted && DEKDeleted dek then fail ErrDEKNotFound
            else Ok dek
        end
  end.

Definition ListDEKs (e : env) (kekName : string) (includeDeleted : bool) (s : Store)
    : result (list string) :=
  match keks s !! kekName with
  | None => fail ErrKEKNotFound
  | Some _ =>
      match deks s !! kekName with
      | None => Ok []
      | Some subjectMap =>
          Ok (sort_strings (omap (fun '(subject, vm) =>
            if includeDeleted || existsb (fun '(_, dek) => negb (DEKDeleted dek)) (range e vm)
            then Some subject else None) (range e subjectMap)))
      end
  end.

Definition ListDEKVersions (e : env) (kekName subject algorithm : string) (includeDeleted : bool)
    (s : Store) : result (list Z) :=
  match keks s !! kekName with
  | None => fail ErrKEKNotFound
  | Some _ =>
      match dekVersions s kekName subject with
      | None => Ok []
      | Some vm =>
          Ok (sort_ints (keys_with e vm (fun dek =>
                negb (negb includeDeleted && DEKDeleted dek) && negb (other_algorithm algorithm dek))))
      end
  end.

(** The loop over all versions: each selected entry is updated by [f], with the
    time of its own iteration, or removed when [f] gives [None]. *)
Definition updateVersions (e : env) (sel : DEKRecord -> bool) (f : Z -> DEKRecord -> option DEKRecord)
    (vm : gmap Z DEKRecord) : bool * gmap Z DEKRecord :=
  let '(found, _, vm') :=
    fold_left (fun '(found, i, vm') '(v, dek) =>
        if sel dek then (true, S i, partial_alter (fun _ => f (UnixMilli (now e i)) dek) v vm')
        else (found, i, vm'))
      (range e vm) (false, 0%nat, vm) in
  (found, vm').

Definition softDeleteDEK (ts : Z) (dek : DEKRecord) : DEKRecord :=
  {| dek with DEKDeleted := true; DEKTs := ts |}.

Definition DeleteDEK (e : env) (kekName subject : string) (v : Z) (algorithm : string)
    (permanent : bool) (s : Store) : result unit * Store :=
  match dekVersions s kekName subject with
  | None => (fail ErrDEKNotFound, s)
  | Some vm =>
      if v =? -1 then
        let '(found, vm) :=
          updateVersions e (fun dek => negb (other_algorithm algorithm dek))
            (fun ts dek => if permanent then None else Some (softDeleteDEK ts dek)) vm in
        if negb found then (fail ErrDEKNotFound, s)
        else
          (Ok tt, if permanent then dropEmptyDekVersions s kekName subject vm
                  else putDekVersions s kekName subject vm)
      else
        match vm !! v with
        | None => (fail ErrDEKNotFound, s)
        | Some dek =>
            if other_algorithm algorithm dek then (fail ErrDEKNotFound, s)
            else
              (Ok tt,
               if permanent then dropEmptyDekVersions s kekName subject (delete v vm)
               else putDekVersions s kekName subject
                      (<[v := softDeleteDEK (UnixMilli (now e 0)) dek]> vm))
        end
  end.

Definition restoreDEK (ts : Z) (dek : DEKRecord) : DEKRecord :=
  {| dek with DEKDeleted := false; DEKTs := ts |}.

Definition UndeleteDEK (e : env) (kekName subject : string) (v : Z) (algorithm : string)
    (s : Store) : result unit * Store :=
  match dekVersions s kekName subject with
  | None => (fail ErrDEKNotFound, s)
  | Some vm =>
      if v =? -1 then
        let '(found, vm) :=
          updateVersions e (fun dek => negb (other_algorithm algorithm dek) && DEKDeleted dek)
            (fun ts dek => Some (restoreDEK ts dek)) vm in
        if negb found then (fail ErrDEKNotFound, s)
        else (Ok tt, putDekVersions s kekName subject vm)
      else
        match vm !! v with
        | None => (fail ErrDEKNotFound, s)
        | Some dek =>
            if other_algorithm algorithm dek then (fail ErrDEKNotFound, s)
            else if negb (DEKDeleted dek) then (fail ErrDEKNotFound, s)
            else (Ok tt, putDekVersions s kekName subject
                           (<[v := restoreDEK (UnixMilli (now e 0)) dek]> vm))
        end
  end.

Definition UpdateDEK (dek : DEKRecord) (s : Store) : result unit * Store :=
  match dekVersions s (DEKKekName dek) (DEKSubject dek) with
  | None => (fail ErrDEKNotFound, s)
  | Some vm =>
      match vm !! DEKVersion dek with
      | None => (fail ErrDEKNotFound, s)
      | Some existing =>
          (Ok tt, putDekVersions s (DEKKekName dek) (DEKSubject dek)
             (<[DEKVersion dek := {| existing with EncryptedKeyMaterial := EncryptedKeyMaterial dek;
                                                  DEKTs := DEKTs dek |}]> vm))
      end
  end.

(** ** Exporters *)

Definition CreateExporter (e : env) (exporter : ExporterRecord) (s : Store)
    : result unit * ExporterRecord * Store :=
  match exporters s !! ExporterName exporter with
  | Some _ => (fail ErrExporterExists, exporter, s)
  | None =>
      let exporter := {| exporter with ExporterCreatedAt := now e 0; ExporterUpdatedAt := now e 0 |} in
      (Ok tt, exporter,
       {| s with exporters := <[ExporterName exporter := exporter]> (exporters s) |})
  end.

Definition GetExporter (name : string) (s : Store) : result ExporterRecord :=
  match exporters s !! name with None => fail ErrExporterNotFound | Some x => Ok x end.

Definition UpdateExporter (e : env) (exporter : ExporterRecord) (s : Store)
    : result unit * ExporterRecord * Store :=
  match exporters s !! ExporterName exporter with
  | None => (fail ErrExporterNotFound, exporter, s)
  | Some existing =>
      let exporter := {| exporter with ExporterCreatedAt := ExporterCreatedAt existing;
                                      ExporterUpdatedAt := now e 0 |} in
      (Ok tt, exporter,
       {| s with exporters := <[ExporterName exporter := exporter]> (exporters s) |})
  end.

Definition DeleteExporter (name : string) (s : Store) : result unit * Store :=
  match exporters s !! name with
  | None => (fail ErrExporterNotFound, s)
  | Some _ =>
      (Ok tt, {| s with exporters := delete name (exporters s);
                        exporterStatuses := delete name (exporterStatuses s) |})
  end.

Definition ListExporters (e : env) (s : Store) : list string :=
  sort_strings (map fst (range e (exporters s))).

Definition GetExporterStatus (name : string) (s : Store) : result ExporterStatusRecord :=
  match exporters s !! name with
  | None => fail ErrExporterNotFound
  | Some _ =>
      Ok (from_opt (MkExporterStatusRecord name "PAUSED" 0 0 EmptyString) (exporterStatuses s !! name))
  end.

Definition SetExporterStatus (name : string) (status : ExporterStatusRecord) (s : Store)
    : result unit * Store :=
  match exporters s !! name with
  | None => (fail ErrExporterNotFound, s)
  | Some _ => (Ok tt, {| s with exporterStatuses := <[name := status]> (exporterStatuses s) |})
  end.

Definition GetExporterConfig (name : string) (s : Store) : result (gmap string string) :=
  match exporters s !! name with
  | None => fail ErrExporterNotFound
  | Some exporter => Ok (from_opt ∅ (ExporterConfig exporter))
  end.

Definition UpdateExporterConfig (e : env) (name : string) (config : option (gmap string string))
    (s : Store) : result unit * Store :=
  match exporters s !! name with
  | None => (fail ErrExporterNotFound, s)
  | Some exporter =>
      (Ok tt, {| s with exporters :=
          <[name := {| exporter with ExporterConfig := config; ExporterUpdatedAt := now e 0 |}]>
            (exporters s) |})
  end.
