(* ===== verification/StorageIface.v ===== *)
(** * The storage interface: internal/storage/storage.go, [type Storage interface]

    The registry reaches its storage through an interface only.  [call] lists
    the methods the registry uses, each with the type of what it returns;
    [Storage] is the class of implementations, and the in-memory backend is an
    instance.  A [prog] is a piece of registry code: a tree of calls, each
    followed by a continuation.  Where a method fills in fields of the record
    it is given, the record as the call leaves it is part of its result. *)
From S2P Require Import Prelude GoStrings StorageTypes MemState MemStore MemKeys.
From Stdlib Require Import String.

Local Open Scope Z_scope.

(** ** Calls *)

Inductive call : Type -> Type :=
  | CCreateSchema (registryCtx : string) (record : SchemaRecord) : call (result unit * SchemaRecord)
  | CGetSchemaByID (registryCtx : string) (id : Z) : call (result SchemaRecord)
  | CGetSchemaBySubjectVersion (registryCtx subject : string) (v : Z) : call (result SchemaRecord)
  | CGetSchemasBySubject (registryCtx subject : string) (includeDeleted : bool) : call (result (list SchemaRecord))
  | CGetSchemaByFingerprint (registryCtx subject fp : string) (includeDeleted : bool) : call (result SchemaRecord)
  | CGetLatestSchema (registryCtx subject : string) : call (result SchemaRecord)
  | CDeleteSchema (registryCtx subject : string) (v : Z) (permanent : bool) : call (result unit)
  | CListSubjects (registryCtx : string) (includeDeleted : bool) : call (result (list string))
  | CDeleteSubject (registryCtx subject : string) (permanent : bool) : call (result (list Z))
  | CSubjectExists (registryCtx subject : string) : call (result bool)
  | CGetConfig (registryCtx subject : string) : call (result ConfigRecord)
  | CSetConfig (registryCtx subject : string) (config : ConfigRecord) : call (result unit)
  | CDeleteConfig (registryCtx subject : string) : call (result unit)
  | CGetGlobalConfig (registryCtx : string) : call (result ConfigRecord)
  | CSetGlobalConfig (registryCtx : string) (config : ConfigRecord) : call (result unit)
  | CDeleteGlobalConfig (registryCtx : string) : call (result unit)
  | CGetMode (registryCtx subject : string) : call (result ModeRecord)
  | CSetMode (registryCtx subject : string) (mode : ModeRecord) : call (result unit)
  | CDeleteMode (registryCtx subject : string) : call (result unit)
  | CGetGlobalMode (registryCtx : string) : call (result ModeRecord)
  | CSetGlobalMode (registryCtx : string) (mode : ModeRecord) : call (result unit)
  | CDeleteGlobalMode (registryCtx : string) : call (result unit)
  | CGetMaxSchemaID (registryCtx : string) : call (result Z)
  | CImportSchema (registryCtx : string) (record : SchemaRecord) : call (result unit * SchemaRecord)
  | CSetNextID (registryCtx : string) (id : Z) : call (result unit)
  | CGetReferencedBy (registryCtx subject : string) (v : Z) : call (result (list SubjectVersion))
  | CGetSubjectsBySchemaID (registryCtx : string) (id : Z) (includeDeleted : bool) : call (result (list string))
  | CGetVersionsBySchemaID (registryCtx : string) (id : Z) (includeDeleted : bool) : call (result (list SubjectVersion))
  | CListSchemas (registryCtx : string) (params : ListSchemasParams) : call (result (list SchemaRecord))
  | CListContexts : call (result (list string))
  | CCreateKEK (kek : KEKRecord) : call (result unit * KEKRecord)
  | CGetKEK (name : string) (includeDeleted : bool) : call (result KEKRecord)
  | CUpdateKEK (kek : KEKRecord) : call (result unit * KEKRecord)
  | CDeleteKEK (name : string) (permanent : bool) : call (result unit)
  | CUndeleteKEK (name : string) : call (result unit)
  | CListKEKs (includeDeleted : bool) : call (result (list KEKRecord))
  | CCreateDEK (dek : DEKRecord) : call (result unit * DEKRecord)
  | CGetDEK (kekName subject : string) (v : Z) (algorithm : string) (includeDeleted : bool) : call (result DEKRecord)
  | CListDEKs (kekName : string) (includeDeleted : bool) : call (result (list string))
  | CListDEKVersions (kekName subject algorithm : string) (includeDeleted : bool) : call (result (list Z))
  | CDeleteDEK (kekName subject : string) (v : Z) (algorithm : string) (permanent : bool) : call (result unit)
  | CUndeleteDEK (kekName subject : string) (v : Z) (algorithm : string) : call (result unit)
  | CUpdateDEK (dek : DEKRecord) : call (result unit)
  | CCreateExporter (exporter : ExporterRecord) : call (result unit * ExporterRecord)
  | CGetExporter (name : string) : call (result ExporterRecord)
  | CUpdateExporter (exporter : ExporterRecord) : call (result unit * ExporterRecord)
  | CDeleteExporter (name : string) : call (result unit)
  | CListExporters : call (result (list string))
  | CGetExporterStatus (name : string) : call (result ExporterStatusRecord)
  | CSetExporterStatus (name : string) (status : ExporterStatusRecord) : call (result unit)
  | CGetExporterConfig (name : string) : call (result (gmap string string))
  | CUpdateExporterConfig (name : string) (config : option (gmap string string)) : call (result unit).

(** The methods that take the read lock. *)
Definition is_read {B} (c : call B) : bool :=
  match c with
  | CGetSchemaByID _ _ | CGetSchemaBySubjectVersion _ _ _ | CGetSchemasBySubject _ _ _
  | CGetSchemaByFingerprint _ _ _ _ | CGetLatestSchema _ _ | CListSubjects _ _
  | CSubjectExists _ _ | CGetConfig _ _ | CGetGlobalConfig _ | CGetMode _ _ | CGetGlobalMode _
  | CGetMaxSchemaID _ | CGetReferencedBy _ _ _ | CGetSubjectsBySchemaID _ _ _
  | CGetVersionsBySchemaID _ _ _ | CListSchemas _ _ | CListContexts | CGetKEK _ _ | CListKEKs _
  | CGetDEK _ _ _ _ _ | CListDEKs _ _ | CListDEKVersions _ _ _ _ | CGetExporter _
  | CListExporters | CGetExporterStatus _ | CGetExporterConfig _ => true
  | _ => false
  end.

(** ** Implementations *)

Class Storage (St : Type) := handle : forall {B : Type}, env -> call B -> St -> B * St.

(** What the registry relies on of every backend: a read changes nothing. *)
Class LawfulStorage (St : Type) `{Storage St} : Prop :=
  handle_read : forall B (c : call B) e (s : St), is_read c = true -> snd (handle e c s) = s.

Definition pure {A St} (a : A) (s : St) : A * St := (a, s).
Definition no_result {St} (s : St) : result unit * St := (Ok tt, s).

Definition memory_handle {B} (e : env) (c : call B) : Store -> B * Store :=
  match c in call B return Store -> B * Store with
  | CCreateSchema c r => fun s => CreateSchema e c r s
  | CGetSchemaByID c id => fun s => pure (GetSchemaByID c id s) s
  | CGetSchemaBySubjectVersion c sub v => fun s => pure (GetSchemaBySubjectVersion e c sub v s) s
  | CGetSchemasBySubject c sub d => fun s => pure (GetSchemasBySubject e c sub d s) s
  | CGetSchemaByFingerprint c sub fp d => fun s => pure (GetSchemaByFingerprint e c sub fp d s) s
  | CGetLatestSchema c sub => fun s => pure (GetLatestSchema e c sub s) s
  | CDeleteSchema c sub v p => fun s => DeleteSchema c sub v p s
  | CListSubjects c d => fun s => pure (Ok (ListSubjects e c d s)) s
  | CDeleteSubject c sub p => fun s => DeleteSubject e c sub p s
  | CSubjectExists c sub => fun s => pure (Ok (SubjectExists e c sub s)) s
  | CGetConfig c sub => fun s => pure (GetConfig c sub s) s
  | CSetConfig c sub cfg => fun s => no_result (SetConfig c sub cfg s)
  | CDeleteConfig c sub => fun s => DeleteConfig c sub s
  | CGetGlobalConfig c => fun s => pure (GetGlobalConfig c s) s
  | CSetGlobalConfig c cfg => fun s => no_result (SetGlobalConfig c cfg s)
  | CDeleteGlobalConfig c => fun s => no_result (DeleteGlobalConfig c s)
  | CGetMode c sub => fun s => pure (GetMode c sub s) s
  | CSetMode c sub m => fun s => no_result (SetMode c sub m s)
  | CDeleteMode c sub => fun s => DeleteMode c sub s
  | CGetGlobalMode c => fun s => pure (GetGlobalMode c s) s
  | CSetGlobalMode c m => fun s => no_result (SetGlobalMode c m s)
  | CDeleteGlobalMode c => fun s => no_result (DeleteGlobalMode c s)
  | CGetMaxSchemaID c => fun s => pure (Ok (GetMaxSchemaID c s)) s
  | CImportSchema c r => fun s => ImportSchema e c r s
  | CSetNextID c id => fun s => no_result (SetNextID c id s)
  | CGetReferencedBy c sub v => fun s => pure (Ok (GetReferencedBy e c sub v s)) s
  | CGetSubjectsBySchemaID c id d => fun s => pure (GetSubjectsBySchemaID e c id d s) s
  | CGetVersionsBySchemaID c id d => fun s => pure (GetVersionsBySchemaID c id d s) s
  | CListSchemas c p => fun s => pure (Ok (ListSchemas e c p s)) s
  | CListContexts => fun s => pure (Ok (ListContexts e s)) s
  | CCreateKEK k => fun s => CreateKEK e k s
  | CGetKEK n d => fun s => pure (GetKEK n d s) s
  | CUpdateKEK k => fun s => UpdateKEK e k s
  | CDeleteKEK n p => fun s => DeleteKEK e n p s
  | CUndeleteKEK n => fun s => UndeleteKEK e n s
  | CListKEKs d => fun s => pure (Ok (ListKEKs e d s)) s
  | CCreateDEK d => fun s => CreateDEK e d s
  | CGetDEK k sub v a d => fun s => pure (GetDEK e k sub v a d s) s
  | CListDEKs k d => fun s => pure (ListDEKs e k d s) s
  | CListDEKVersions k sub a d => fun s => pure (ListDEKVersions e k sub a d s) s
  | CDeleteDEK k sub v a p => fun s => DeleteDEK e k sub v a p s
  | CUndeleteDEK k sub v a => fun s => UndeleteDEK e k sub v a s
  | CUpdateDEK d => fun s => UpdateDEK d s
  | CCreateExporter x => fun s => CreateExporter e x s
  | CGetExporter n => fun s => pure (GetExporter n s) s
  | CUpdateExporter x => fun s => UpdateExporter e x s
  | CDeleteExporter n => fun s => DeleteExporter n s
  | CListExporters => fun s => pure (Ok (ListExporters e s)) s
  | CGetExporterStatus n => fun s => pure (GetExporterStatus n s) s
  | CSetExporterStatus n st => fun s => SetExporterStatus n st s
  | CGetExporterConfig n => fun s => pure (GetExporterConfig n s) s
  | CUpdateExporterConfig n c => fun s => UpdateExporterConfig e n c s
  end.

#[export] Instance memory_storage : Storage Store := @memory_handle.

#[export] Instance memory_lawful : LawfulStorage Store.
Proof. intros B c e s. by destruct c. Qed.

(** ** Programs *)

Inductive prog (A : Type) : Type :=
  | Ret (a : A)
  | Vis {B : Type} (c : call B) (k : B -> prog A)
  | Choose (k : env -> prog A).   (* code of its own that ranges over a map *)
Arguments Ret {A} a.
Arguments Vis {A B} c k.
Arguments Choose {A} k.

Fixpoint bind {A B} (p : prog A) (f : A -> prog B) : prog B :=
  match p with
  | Ret a => f a
  | Vis c k => Vis c (fun b => bind (k b) f)
  | Choose k => Choose (fun e => bind (k e) f)
  end.

Definition invoke {B} (c : call B) : prog B := Vis c Ret.

Declare Scope prog_scope.
Delimit Scope prog_scope with prog.
Notation "'let!' x := p 'in' q" := (bind p (fun x => q))
  (at level 10, x pattern, p at level 100, q at level 200) : prog_scope.

(** One run, undisturbed by others: [ρ i] is the environment of the [i]-th call. *)
Fixpoint run {St A} `{Storage St} (p : prog A) (ρ : nat -> env) (s : St) : A * St :=
  match p with
  | Ret a => (a, s)
  | Vis c k => let '(b, s) := handle (ρ 0%nat) c s in run (k b) (fun i => ρ (S i)) s
  | Choose k => run (k (ρ 0%nat)) (fun i => ρ (S i)) s
  end.

(** How much of [ρ] a run uses. *)
Fixpoint used {St A} `{Storage St} (p : prog A) (ρ : nat -> env) (s : St) : nat :=
  match p with
  | Ret _ => 0
  | Vis c k => let '(b, s) := handle (ρ 0%nat) c s in S (used (k b) (fun i => ρ (S i)) s)
  | Choose k => S (used (k (ρ 0%nat)) (fun i => ρ (S i)) s)
  end.

Lemma run_bind {St A B} `{Storage St} (p : prog A) (f : A -> prog B) : forall ρ s,
  run (bind p f) ρ s =
  let '(a, s') := run p ρ s in run (f a) (fun i => ρ (used p ρ s + i)%nat) s'.
Proof.
  induction p as [a|C c k IH|k IH]; intros ρ s; simpl; [done| |].
  - destruct (handle _ c s) as [b s']. rewrite IH. by destruct (run (k b) _ s').
  - rewrite IH. by destruct (run (k _) _ s).
Qed.

(** A property of the state every call keeps is kept by every program. *)
Lemma run_keeps {St A} `{Storage St} (P : St -> Prop) (p : prog A) :
  (forall B (c : call B) e s, P s -> P (snd (handle e c s))) ->
  forall ρ s, P s -> P (snd (run p ρ s)).
Proof.
  intros Hc. induction p as [a|C c k IH|k IH]; intros ρ s Hs; simpl; [done| |by apply IH].
  specialize (Hc _ c (ρ 0%nat) s Hs). destruct (handle _ c s) as [b s']. by apply IH.
Qed.

(** The programs that only read. *)
Fixpoint reads_only {A} (p : prog A) : Prop :=
  match p with
  | Ret _ => True
  | Vis c k => is_read c = true /\ forall b, reads_only (k b)
  | Choose k => forall e, reads_only (k e)
  end.

Lemma reads_only_bind {A B} (p : prog A) (f : A -> prog B) :
  reads_only p -> (forall a, reads_only (f a)) -> reads_only (bind p f).
Proof.
  intros Hp Hf. induction p as [a|C c k IH|k IH]; simpl in *; [done| |auto].
  destruct Hp as [Hc Hk]. split; [done|]. auto.
Qed.

Lemma run_reads_only {St A} `{LawfulStorage St} (p : prog A) : reads_only p -> 
  forall ρ (s : St), snd (run p ρ s) = s.
Proof.
  induction p as [a|C c k IH|k IH]; simpl; intros Hp ρ s; [done| |auto].
  destruct Hp as [Hc Hk]. pose proof (handle_read _ c (ρ 0%nat) s Hc) as Hs.
  destruct (handle _ c s) as [b s']. simpl in Hs. subst s'. auto.
Qed.

Create HintDb reads.
#[export] Hint Resolve reads_only_bind : reads.

(** Proves that a program written with the code's tests only reads. *)
Ltac solve_reads :=
  repeat first
    [ done
    | apply reads_only_bind
    | progress intros
    | progress simpl
    | split
    | case_match
    | solve [eauto with reads] ].
