(* ===== verification/MemRefines.v ===== *)
(** * The catalogue the in-memory backend implements

    What a storage backend promises, without the maps it is built from: for each
    context the recorded subject versions, the highest version number each
    subject has had and the next schema ID.  Every call of the interface is a
    step of this abstract machine, and the in-memory backend refines it. *)
From S2P Require Import Prelude GoStrings StorageTypes MemState MemStore MemInvariant MemStoreFacts MemDelete MemSteps MemQueries MemKeys StorageIface.

Local Open Scope Z_scope.

(** ** The catalogue *)

Record Catalogue := MkCatalogue {
  recorded : string -> string -> Z -> option SchemaRecord;
  highest : string -> string -> Z;
  sequence : string -> Z
}.

#[export] Instance catalogue_equiv : Equiv Catalogue := fun a a' =>
  (forall c sub v, recorded a' c sub v = recorded a c sub v) /\
  (forall c sub, highest a' c sub = highest a c sub) /\
  (forall c, sequence a' c = sequence a c).

#[export] Instance catalogue_equivalence : Equivalence (≡@{Catalogue}).
Proof.
  split.
  - by intros a.
  - intros a a' (H1 & H2 & H3). by split_and!; intros.
  - intros a a' a'' (H1 & H2 & H3) (H1' & H2' & H3'). split_and!; intros; [by rewrite H1', H1|by rewrite H2', H2|by rewrite H3', H3].
Qed.

Ltac pointwise := unfold equiv, catalogue_equiv; split_and!; simpl.

Definition no_schemas : Catalogue := MkCatalogue (fun _ _ _ => None) (fun _ _ => 0) (fun _ => 1).

(** The subject versions of one subject, the subject's highest version and the
    context's sequence replaced. *)
Definition with_subject (a : Catalogue) (c sub : string) (recs : Z -> option SchemaRecord)
    (high next : Z) : Catalogue := {|
  recorded c' sub' v := if decide (c = c' /\ sub = sub') then recs v else recorded a c' sub' v;
  highest c' sub' := if decide (c = c' /\ sub = sub') then high else highest a c' sub';
  sequence c' := if decide (c = c') then next else sequence a c'
|}.

Definition put_version (a : Catalogue) (c sub : string) (v : Z) (r : option SchemaRecord)
    (high next : Z) : Catalogue :=
  with_subject a c sub (fun v' => if decide (v = v') then r else recorded a c sub v') high next.

(** ** What the calls promise *)

Definition same_content (r r' : SchemaRecord) : Prop :=
  SchemaType r = SchemaType r' /\ Schema r = Schema r' /\ References r = References r' /\
  Fingerprint r = Fingerprint r'.

(** [r] is [record] as a live version of its subject. *)
Definition as_version (record r : SchemaRecord) (id v : Z) : Prop :=
  ID r = id /\ Subject r = Subject record /\ Version r = v /\ Deleted r = false /\
  SchemaMetadata r = SchemaMetadata record /\ SchemaRuleSet r = SchemaRuleSet record /\
  Fingerprint r = Fingerprint record.

Definition duplicate_of (a : Catalogue) (c : string) (record existing : SchemaRecord) : Prop :=
  recorded a c (Subject record) (Version existing) = Some existing /\ Deleted existing = false /\
  Fingerprint existing = Fingerprint record /\
  normalizeMetadata (SchemaMetadata existing) = normalizeMetadata (SchemaMetadata record) /\
  normalizeRuleSet (SchemaRuleSet existing) = normalizeRuleSet (SchemaRuleSet record).

(** The ID is in use in the context, by [old]. *)
Definition uses (a : Catalogue) (c : string) (id : Z) (old : SchemaRecord) : Prop :=
  ID old = id /\ exists sub v, recorded a c sub v = Some old.

Definition create_spec (c : string) (record : SchemaRecord) (a : Catalogue)
    (out : result unit * SchemaRecord) (a' : Catalogue) : Prop :=
  let '(res, record') := out in
  (res = fail ErrSchemaExists /\ a' ≡ a /\
   exists existing, duplicate_of a c record existing /\
     ID record' = ID existing /\ Version record' = Version existing) \/
  (res = Ok tt /\ (forall existing, ~ duplicate_of a c record existing) /\
   exists r next,
     as_version record r (ID record') (highest a c (Subject record) + 1) /\
     Version record' = highest a c (Subject record) + 1 /\
     ((ID record' = sequence a c /\ (forall old, ~ uses a c (ID record') old) /\
       same_content r record /\ next = incr64 (sequence a c)) \/
      (exists old, uses a c (ID record') old /\ same_content r old /\ next = sequence a c)) /\
     a' ≡ put_version a c (Subject record) (Version record') (Some r) (Version record') next).

Definition import_spec (c : string) (record : SchemaRecord) (a : Catalogue)
    (out : result unit * SchemaRecord) (a' : Catalogue) : Prop :=
  let '(res, record') := out in
  (res = fail ErrSchemaIDConflict /\ a' ≡ a /\
   exists old, uses a c (ID record) old /\ Fingerprint old <> Fingerprint record) \/
  (res = fail ErrSchemaExists /\ a' ≡ a /\ recorded a c (Subject record) (Version record) <> None) \/
  (res = Ok tt /\ recorded a c (Subject record) (Version record) = None /\
   exists r,
     as_version record r (ID record) (Version record) /\
     ((forall old, ~ uses a c (ID record) old) /\ same_content r record \/
      exists old, uses a c (ID record) old /\ same_content r old) /\
     a' ≡ put_version a c (Subject record) (Version record) (Some r)
            (Z.max (highest a c (Subject record)) (Version record)) (sequence a c)).

Definition delete_spec (c sub : string) (v : Z) (permanent : bool) (a : Catalogue)
    (res : result unit) (a' : Catalogue) : Prop :=
  match recorded a c sub v with
  | None => (res = fail ErrSubjectNotFound \/ res = fail ErrVersionNotFound) /\ a' ≡ a
  | Some r =>
      if permanent && negb (Deleted r) then res = fail ErrVersionNotSoftDeleted /\ a' ≡ a
      else res = Ok tt /\
        a' ≡ put_version a c sub v (if permanent then None else Some (soft_deleted r))
               (highest a c sub) (sequence a c)
  end.

Definition delete_subject_spec (c sub : string) (permanent : bool) (a : Catalogue)
    (res : result (list Z)) (a' : Catalogue) : Prop :=
  match res with
  | Err err => a' ≡ a /\
      (err = sentinel_err ErrSubjectNotFound /\ (forall v, recorded a c sub v = None) \/
       permanent = true /\ err = sentinel_err ErrSubjectNotSoftDeleted /\
         (exists v r, recorded a c sub v = Some r /\ Deleted r = false) \/
       permanent = false /\ err = sentinel_err ErrSubjectDeleted /\
         (forall v r, recorded a c sub v = Some r -> Deleted r = true))
  | Ok versions =>
      Sorted Z.le versions /\ NoDup versions /\
      (forall v, v ∈ versions <-> exists r, recorded a c sub v = Some r /\ Deleted r = permanent) /\
      (permanent = true -> forall v r, recorded a c sub v = Some r -> Deleted r = true) /\
      a' ≡ with_subject a c sub
             (fun v => if permanent then None else soft_deleted <$> recorded a c sub v)
             (if permanent then 0 else highest a c sub) (sequence a c)
  end.

Definition latest_spec (c sub : string) (a : Catalogue) (res : result SchemaRecord) : Prop :=
  match res with
  | Ok r => recorded a c sub (Version r) = Some r /\ Deleted r = false /\
      forall v other, recorded a c sub v = Some other -> Deleted other = false -> v <= Version r
  | Err err => err = sentinel_err ErrSubjectNotFound /\
      forall v other, recorded a c sub v = Some other -> 0 < v -> Deleted other = true
  end.

Definition version_spec (c sub : string) (v : Z) (a : Catalogue) (res : result SchemaRecord) : Prop :=
  if v =? -1 then latest_spec c sub a res
  else
    match recorded a c sub v with
    | Some r => if Deleted r then res = fail ErrVersionNotFound else res = Ok r
    | None => res = fail ErrSubjectNotFound \/ res = fail ErrVersionNotFound
    end.

Definition versions_spec (c sub : string) (includeDeleted : bool) (a : Catalogue)
    (res : result (list SchemaRecord)) : Prop :=
  let shown r := recorded a c sub (Version r) = Some r /\ Subject r = sub /\
                 (includeDeleted = true \/ Deleted r = false) in
  match res with
  | Ok l => forall r, r ∈ l <-> shown r
  | Err _ => forall r, ~ shown r
  end.

Definition by_id_spec (c : string) (id : Z) (a : Catalogue) (res : result SchemaRecord) : Prop :=
  match res with
  | Ok r => ID r = id /\ exists old, uses a c id old /\ same_content r old
  | Err err => err = sentinel_err ErrSchemaNotFound /\ forall old, ~ uses a c id old
  end.

Definition using_id_spec (c : string) (id : Z) (includeDeleted : bool) (a : Catalogue)
    (res : result (list SubjectVersion)) : Prop :=
  match res with
  | Ok svs => NoDup svs /\ forall sv, sv ∈ svs <->
      exists r, recorded a c (SVSubject sv) (SVVersion sv) = Some r /\ ID r = id /\
        (includeDeleted = true \/ Deleted r = false)
  | Err err => err = sentinel_err ErrSchemaNotFound /\ forall old, ~ uses a c id old
  end.

Definition referenced_by_spec (c sub : string) (v : Z) (a : Catalogue)
    (res : result (list SubjectVersion)) : Prop :=
  exists svs, res = Ok svs /\ forall sv, sv ∈ svs <->
    exists r, recorded a c (SVSubject sv) (SVVersion sv) = Some r /\ Deleted r = false /\
      exists ref, ref ∈ References r /\ RefSubject ref = sub /\ RefVersion ref = v.

(** One call; what is not said of a result is left open, and a call that is not
    listed changes nothing of the catalogue. *)
Definition spec {B} (cl : call B) : Catalogue -> B -> Catalogue -> Prop :=
  match cl in call B return Catalogue -> B -> Catalogue -> Prop with
  | CCreateSchema c record => create_spec c record
  | CImportSchema c record => import_spec c record
  | CDeleteSchema c sub v permanent => delete_spec c sub v permanent
  | CDeleteSubject c sub permanent => delete_subject_spec c sub permanent
  | CSetNextID c id => fun a res a' => res = Ok tt /\
      a' ≡ MkCatalogue (recorded a) (highest a) (fun c' => if decide (c = c') then id else sequence a c')
  | CGetSchemaBySubjectVersion c sub v => fun a res a' => version_spec c sub v a res /\ a' ≡ a
  | CGetLatestSchema c sub => fun a res a' => latest_spec c sub a res /\ a' ≡ a
  | CGetSchemasBySubject c sub d => fun a res a' => versions_spec c sub d a res /\ a' ≡ a
  | CGetSchemaByID c id => fun a res a' => by_id_spec c id a res /\ a' ≡ a
  | CGetVersionsBySchemaID c id d => fun a res a' => using_id_spec c id d a res /\ a' ≡ a
  | CGetReferencedBy c sub v => fun a res a' => referenced_by_spec c sub v a res /\ a' ≡ a
  | CSubjectExists c sub => fun a res a' => a' ≡ a /\ exists b, res = Ok b /\
      (b = true <-> exists v r, recorded a c sub v = Some r /\ Deleted r = false)
  | CGetMaxSchemaID c => fun a res a' => res = Ok (Int64.wrap (sequence a c - 1)) /\ a' ≡ a
  | _ => fun a _ a' => a' ≡ a
  end.

(** A registration must find its counters below the overflow and the next ID
    unused. *)
Definition admissible {B} (cl : call B) (a : Catalogue) : Prop :=
  match cl with
  | CCreateSchema c record =>
      0 <= highest a c (Subject record) < Int64.max /\ forall old, ~ uses a c (sequence a c) old
  | _ => True
  end.

(** ** The abstraction *)

Definition abs (s : Store) : Catalogue :=
  MkCatalogue (fun c => stored (ctx s c)) (fun c => last_version (ctx s c)) (fun c => nextID (ctx s c)).

Lemma abs_putContext_same s c cs :
  (forall sub v, stored cs sub v = stored (ctx s c) sub v) ->
  (forall sub, last_version cs sub = last_version (ctx s c) sub) ->
  nextID cs = nextID (ctx s c) ->
  abs (putContext s c cs) ≡ abs s.
Proof.
  intros H1 H2 H3. pointwise; intros c'; rewrite ctx_putContext; case_decide; subst; auto.
Qed.

Lemma abs_putContext s c cs sub recs high next :
  (forall sub' v, stored cs sub' v = if decide (sub = sub') then recs v else stored (ctx s c) sub' v) ->
  (forall sub', last_version cs sub' = if decide (sub = sub') then high else last_version (ctx s c) sub') ->
  nextID cs = next ->
  abs (putContext s c cs) ≡ with_subject (abs s) c sub recs high next.
Proof.
  intros H1 H2 H3. pointwise; intros c'; [intros sub' v|intros sub'|];
    rewrite ctx_putContext; repeat case_decide; destruct_and?; subst; rewrite ?H1, ?H2;
    repeat case_decide; tauto.
Qed.

Lemma abs_put_version s c cs sub v r high next :
  (forall sub' v', stored cs sub' v' =
     if decide (sub = sub' /\ v = v') then r else stored (ctx s c) sub' v') ->
  (forall sub', last_version cs sub' = if decide (sub = sub') then high else last_version (ctx s c) sub') ->
  nextID cs = next ->
  abs (putContext s c cs) ≡ put_version (abs s) c sub v r high next.
Proof.
  intros H1 H2 H3. apply abs_putContext; [|done..]. intros sub' v'. rewrite H1. simpl.
  repeat case_decide; naive_solver.
Qed.

(** ** Contents in use *)

Lemma uses_schemas s c id old :
  Inv s -> uses (abs s) c id old ->
  exists schema, schemas (ctx s c) !! id = Some schema /\ same_content schema old.
Proof.
  intros Hinv (Hid & sub & v & (info & schema & _ & Hs & ->)%stored_inv). simpl in Hid.
  rewrite (wf_id _ _ (Inv_ctx s c Hinv) _ _ Hs) in Hid. subst. by exists schema.
Qed.

Lemma schemas_uses s c id schema :
  Inv s -> schemas (ctx s c) !! id = Some schema ->
  exists old, uses (abs s) c id old /\ same_content schema old.
Proof.
  intros Hinv Hs. pose proof (Inv_ctx s c Hinv) as Hwf.
  destruct (index (ctx s c) id) as [|sv svs] eqn:E.
  { by destruct (wf_used _ _ Hwf id ltac:(eauto)). }
  destruct (proj1 (wf_index _ _ Hwf id sv)) as (info & Hv & Hid); [rewrite E; left|].
  destruct (stored_Some _ _ _ _ Hwf Hv) as (schema' & Hs' & Hi & Hst).
  rewrite Hid, Hs in Hs'. injection Hs' as <-.
  exists (fillRecord schema (SVSubject sv) (SVVersion sv) info). split; [|by split_and!].
  split; [simpl; congruence|]. by exists (SVSubject sv), (SVVersion sv).
Qed.

Lemma unused_schemas s c id : Inv s -> (forall old, ~ uses (abs s) c id old) -> schemas (ctx s c) !! id = None.
Proof.
  intros Hinv Hn. destruct (_ !! id) as [sc|] eqn:E; [|done].
  by destruct (schemas_uses s c id sc Hinv E) as (old & Hu & _); destruct (Hn old).
Qed.

Lemma duplicate_spec s c record :
  Inv s -> has_duplicate (ctx s c) record <-> exists existing, duplicate_of (abs s) c record existing.
Proof.
  intros Hinv. pose proof (Inv_ctx s c Hinv) as Hwf. split.
  - intros (v & info & Hv & (Hdel & schema & Hs & Hf & Hm & Hr)%is_duplicate_Subject).
    destruct (stored_Some _ _ _ _ Hwf Hv) as (schema' & Hs' & _ & Hst). rewrite Hs in Hs'. injection Hs' as <-.
    by exists (fillRecord schema (Subject record) v info).
  - intros (existing & (info & schema & Hv & Hs & E)%stored_inv & Hd & Hf & Hm & Hr).
    exists (Version existing), info. split; [done|]. unfold is_duplicate, live. simpl. rewrite Hs.
    rewrite E in Hd, Hf, Hm, Hr. simpl in *. rewrite Hd, Hf, Hm, Hr. simpl.
    by rewrite !bool_decide_true.
Qed.

(** ** Registration *)

Lemma stored_addVersion cs0 cs1 sub v info schema :
  wf cs0 ->
  (forall sub' w, entry cs1 sub' w = entry cs0 sub' w) ->
  stores_id cs0 cs1 (schemaID info) -> schemas cs1 !! schemaID info = Some schema ->
  forall sub' v', stored (addVersion cs1 sub v info) sub' v' =
    if decide (sub = sub' /\ v = v') then Some (fillRecord schema sub v info) else stored cs0 sub' v'.
Proof.
  intros Hwf Hent Hs Hsc sub' v'. case_decide as D.
  - destruct D as [-> ->]. unfold stored. rewrite entry_addVersion, decide_True by done. simpl. by rewrite Hsc.
  - apply stored_frame; [done| |].
    + rewrite entry_addVersion, decide_False by done. apply Hent.
    + intros i sc. by apply stores_id_mono with (schemaID info).
Qed.

Lemma assignID_next cs record :
  nextID (snd (assignID cs record)) =
  match fingerprints cs !! Fingerprint record with Some _ => nextID cs | None => incr64 (nextID cs) end.
Proof. unfold assignID. by destruct (fingerprints cs !! _). Qed.

Lemma CreateSchema_counters e c record s :
  ~ has_duplicate (ctx s c) record ->
  let s' := snd (CreateSchema e c record s) in
  (forall sub, last_version (ctx s' c) sub =
     if decide (Subject record = sub) then incr64 (last_version (ctx s c) sub) else last_version (ctx s c) sub) /\
  nextID (ctx s' c) =
    match fingerprints (ctx s c) !! Fingerprint record with
    | Some _ => nextID (ctx s c)
    | None => incr64 (nextID (ctx s c))
    end.
Proof.
  intros Hdup. pose proof (CreateSchema_new e c record s Hdup) as Hc. cbv zeta in *.
  set (cs := initVersions (ctx s c) (Subject record)) in *.
  destruct (initVersions_fields (ctx s c) (Subject record)) as (Es & Ef & En & _ & Eid & _). fold cs in Es, Ef, En, Eid.
  pose proof (assignID_next cs record) as Hid. rewrite Ef, Eid in Hid.
  assert (Hn : nextSubjectVersion (snd (assignID cs record)) = nextSubjectVersion (ctx s c)).
  { rewrite <- En. unfold assignID. by destruct (fingerprints cs !! _). }
  destruct (assignID cs record) as [id cs1]. rewrite Hc. cbn [snd] in *. rewrite ctx_putContext, decide_True by done.
  split; [|done]. intros sub. unfold last_version. simpl. rewrite lookup_insert, Hn, En.
  by case_decide; subst.
Qed.

Lemma create_refines e c record s :
  Inv s -> admissible (CCreateSchema c record) (abs s) ->
  let '(out, s') := CreateSchema e c record s in create_spec c record (abs s) out (abs s') /\ Inv s'.
Proof.
  intros Hinv [Hv Hseq]. pose proof (Inv_ctx s c Hinv) as Hwf.
  destruct (CreateSchema e c record s) as [[res record'] s'] eqn:E.
  pose proof (find_duplicate env0 (ctx s c) record) as Hf. destruct (List.find _ _) as [[v info]|].
  - (* a live version has the content already *)
    destruct (CreateSchema_duplicate_eq e c record s) as (w & i & Hw & Hd & Hc); [by exists v, info|].
    rewrite Hc in E. injection E as <- <- <-.
    destruct (initVersions_fields (ctx s c) (Subject record)) as (Es & _ & En & _ & Eid & _).
    split; [left|by apply Inv_putContext, wf_initVersions]. split_and!; [done| |].
    + apply abs_putContext_same; [|unfold last_version; by rewrite En|done].
      intros sub w'. unfold stored. by rewrite entry_initVersions, Es.
    + apply is_duplicate_Subject in Hd as (Hdel & schema & Hs & Hfp & Hm & Hr).
      destruct (stored_Some _ _ _ _ Hwf Hw) as (schema' & Hs' & Hid & Hst).
      rewrite Hs in Hs'. injection Hs' as <-. simpl. rewrite (wf_version _ _ Hwf _ _ _ Hw).
      by exists (fillRecord schema (Subject record) w i).
  - assert (Hid : fresh_id (ctx s c) record) by (intros _; by apply unused_schemas).
    pose proof (CreateSchema_counters e c record s Hf) as Hcnt. cbv zeta in Hcnt. rewrite E in Hcnt.
    destruct (CreateSchema_spec e c record s Hinv Hf Hv Hid)
      as (id & cs1 & Eid & Ec & Hwf' & Hs & (schema & Hsc & Hfp) & Hnew & Hent). cbv zeta in *.
    set (info := MkInfo _ _ _ _ _ _) in *. set (v := last_version _ _ + 1) in *.
    rewrite Ec in E. injection E as <- <- <-. cbn [snd] in Hcnt. destruct Hcnt as [Hlast Hnext].
    rewrite ctx_putContext, decide_True in Hlast, Hnext by done.
    split; [right|by apply Inv_putContext]. split_and!; [done| |].
    { intros existing Hd. apply Hf, (duplicate_spec s c record Hinv). eauto. }
    assert (Hscid : ID schema = id).
    { pose proof (wf_id _ _ Hwf' id schema) as Hi. apply Hi. exact Hsc. }
    exists (fillRecord schema (Subject record) v info), (nextID (addVersion cs1 (Subject record) v info)).
    split_and!; [by split_and!|done| |].
    + simpl in Hnext |- *. destruct (fingerprints (ctx s c) !! Fingerprint record) as [i|] eqn:Ef; simpl in Eid; subst id.
      * right. destruct (wf_fingerprint _ _ Hwf _ _ Ef) as (sc & Hsc' & _).
        destruct (schemas_uses s c i sc Hinv Hsc') as (old & Hu & Hsame). exists old.
        split_and!; [done| |done].
        apply (stores_id_mono _ _ _ _ _ Hs) in Hsc'. rewrite Hsc in Hsc'. injection Hsc' as <-. exact Hsame.
      * left. rewrite (Hnew eq_refl) in Hsc. injection Hsc as <-. by split_and!.
    + apply abs_put_version; [..|done].
      * by apply stored_addVersion.
      * intros sub. rewrite Hlast. case_decide; [subst sub|done]. by apply fresh_version_incr.
Qed.

Lemma import_refines e c record s :
  Inv s ->
  let '(out, s') := ImportSchema e c record s in import_spec c record (abs s) out (abs s') /\ Inv s'.
Proof.
  intros Hinv. pose proof (Inv_ctx s c Hinv) as Hwf.
  pose proof (ImportSchema_Inv e c record s Hinv) as Hinv'.
  pose proof (ImportSchema_cases e c record s) as Hc. cbv zeta in Hc.
  destruct (ImportSchema e c record s) as [[res record'] s']. simpl in Hinv'. split; [|done].
  destruct (initVersions_fields (ctx s c) (Subject record)) as (Es & Ef & En & _ & Eid & _).
  destruct Hc as [(-> & -> & -> & sc & Hsc & Hfp)|[(-> & -> & -> & Hent)|(-> & -> & Hsame & Hent & ->)]].
  - left. split_and!; [done|by apply abs_putContext_same|].
    destruct (schemas_uses s c _ sc Hinv Hsc) as (old & Hu & (_ & _ & _ & Ho)). exists old. by rewrite <- Ho.
  - right; left. split_and!; [done| |].
    + apply abs_putContext_same; [|unfold last_version; by rewrite En|done].
      intros sub w. unfold stored. by rewrite entry_initVersions, Es.
    + simpl. destruct (entry (ctx s c) _ _) as [info|] eqn:Ev; [|done].
      by destruct (stored_Some _ _ _ _ Hwf Ev) as (? & _ & _ & ->).
  - right; right. split_and!; [done|simpl; unfold stored; by rewrite Hent|].
    set (cs := initVersions _ _) in *.
    match goal with |- context [addVersion ?next _ _ ?i] => set (cs1 := next) in *; set (info := i) in * end.
    assert (Hs : stores_id (ctx s c) cs1 (ID record)).
    { destruct (importContent_stores cs record) as [Hs _]; [by apply wf_initVersions|by rewrite Es|].
      unfold stores_id in *. rewrite Es in Hs. exact Hs. }
    destruct (stores_id_here _ _ _ Hs) as [schema Hsc].
    assert (Hent' : forall sub w, entry cs1 sub w = entry (ctx s c) sub w) by apply entry_initVersions.
    pose proof (Inv_ctx _ c Hinv') as Hwf'. rewrite ctx_putContext, decide_True in Hwf' by done.
    assert (Hfp : Fingerprint schema = Fingerprint record /\
              (same_content schema record /\ schemas (ctx s c) !! ID record = None \/
               schemas (ctx s c) !! ID record = Some schema)).
    { unfold cs1, importContent in Hsc. simpl in Hsc. rewrite Es in Hsc.
      destruct (schemas (ctx s c) !! ID record) as [sc|] eqn:Eold.
      - rewrite Eold in Hsc. injection Hsc as <-. split; [by apply Hsame|by right].
      - rewrite lookup_insert_eq in Hsc. injection Hsc as <-. split; [done|left]. by split_and!. }
    destruct Hfp as [Hfp Hcont].
    exists (fillRecord schema (Subject record) (Version record) info). split_and!.
    + split_and!; try done. exact (wf_id _ _ Hwf' (ID record) schema Hsc).
    + destruct Hcont as [[Hcont Hno]|Hold].
      * left. split; [|exact Hcont]. intros old (sc & Hsc' & _)%uses_schemas; [congruence|done].
      * right. destruct (schemas_uses s c _ schema Hinv Hold) as (old & Hu & Ho). by exists old.
    + apply abs_put_version; [|intros sub; unfold last_version; simpl|exact Eid].
      * by apply (stored_addVersion _ cs1).
      * case_decide as D; [subst sub; unfold last_version|].
        { destruct (Z.leb_spec (from_opt 0 (nextSubjectVersion (ctx s c) !! Subject record)) (Version record)).
          - rewrite lookup_insert_eq. simpl. lia.
          - lia. }
        destruct (_ <=? _); [by rewrite lookup_insert_ne|done].
Qed.

(** ** Deletion *)

Lemma unlink_counters cs sub v id :
  (forall sub', last_version (unlink cs sub v id) sub' = last_version cs sub') /\
  nextID (unlink cs sub v id) = nextID cs.
Proof. unfold unlink, last_version. by destruct (List.filter _ _). Qed.

Lemma delete_refines c sub v permanent s :
  Inv s ->
  let '(res, s') := DeleteSchema c sub v permanent s in
  delete_spec c sub v permanent (abs s) res (abs s') /\ Inv s'.
Proof.
  intros Hinv. pose proof (Inv_ctx s c Hinv) as Hwf.
  pose proof (DeleteSchema_Inv c sub v permanent s Hinv) as Hinv'.
  destruct (DeleteSchema c sub v permanent s) as [res s'] eqn:E. simpl in Hinv'. split; [|done].
  unfold delete_spec. simpl. unfold DeleteSchema in E. destruct (getContext s c) as [cs|] eqn:Eg; cycle 1.
  { rewrite getContext_None by done. injection E as <- <-. by split; [left|]. }
  apply getContext_Some in Eg. rewrite Eg in *. case_decide as Hne.
  { injection E as <- <-. unfold stored. rewrite entry_empty by done. by split; [left|]. }
  fold (entry cs sub v) in E. destruct (entry cs sub v) as [info|] eqn:Ev; cycle 1.
  { injection E as <- <-. unfold stored. rewrite Ev. by split; [right|]. }
  destruct (stored_Some _ _ _ _ Hwf Ev) as (schema & Hs & _ & Hst). rewrite Hst. simpl.
  unfold live in E. destruct (permanent && negb (deleted info)); [by injection E as <- <-|].
  injection E as <- <-. split; [done|].
  destruct permanent; (apply abs_put_version; rewrite ?Eg; [intros sub' v'| |]).
  - by rewrite (stored_permanent cs sub v info).
  - intros sub'. destruct (unlink_counters (putVersions cs sub (delete v (versionMap cs sub))) sub v (schemaID info)) as [-> _].
    change (last_version (putVersions _ _ _) sub') with (last_version cs sub'). by case_decide; subst.
  - by destruct (unlink_counters (putVersions cs sub (delete v (versionMap cs sub))) sub v (schemaID info)) as [_ ->].
  - rewrite (stored_soft cs sub v info) by done. case_decide as D; [|done]. destruct D as [<- <-]. by rewrite Hst.
  - intros sub'. change (last_version (softDelete cs sub v info) sub') with (last_version cs sub'). by case_decide; subst.
  - done.
Qed.

Lemma deleteStep_counters sub permanent l : forall dels cs,
  let cs' := snd (fold_left (deleteStep sub permanent) l (dels, cs)) in
  (forall sub', last_version cs' sub' = last_version cs sub') /\ nextID cs' = nextID cs.
Proof.
  induction l as [|[v info] l IH]; intros dels cs; [done|]. simpl.
  destruct (deleted info && negb permanent); [apply IH|]. destruct permanent; cbv zeta in *.
  - destruct (IH (dels ++ [v])%list (unlink cs sub v (schemaID info))) as [H1 H2].
    destruct (unlink_counters cs sub v (schemaID info)) as [H3 H4]. split; [intros sub'|]; congruence.
  - destruct (IH (dels ++ [v])%list (softDelete cs sub v info)) as [H1 H2]. by split.
Qed.

Lemma DeleteSubject_counters e c sub permanent s versions :
  fst (DeleteSubject e c sub permanent s) = Ok versions ->
  let s' := snd (DeleteSubject e c sub permanent s) in
  (forall sub', last_version (ctx s' c) sub' =
     if decide (sub = sub') then (if permanent then 0 else last_version (ctx s c) sub)
     else last_version (ctx s c) sub') /\
  nextID (ctx s' c) = nextID (ctx s c).
Proof.
  unfold DeleteSubject. destruct (getContext s c) as [cs|] eqn:Eg; [|done].
  apply getContext_Some in Eg. rewrite Eg. case_decide; [done|].
  destruct (_ && _); [done|]. destruct (_ && _); [done|]. intros _.
  pose proof (deleteStep_counters sub permanent (range e (versionMap cs sub)) [] cs) as Hc. cbv zeta in Hc.
  destruct (fold_left _ _ _) as [dels cs']. simpl in *. destruct Hc as [H1 H2].
  rewrite ctx_putContext, decide_True by done. destruct permanent; simpl.
  - split; [|done]. intros sub'. unfold last_version in *. simpl. rewrite lookup_delete.
    case_decide; [done|apply H1].
  - split; [|done]. intros sub'. rewrite H1. by case_decide; subst.
Qed.

Lemma delete_subject_refines e c sub permanent s :
  Inv s ->
  let '(res, s') := DeleteSubject e c sub permanent s in
  delete_subject_spec c sub permanent (abs s) res (abs s') /\ Inv s'.
Proof.
  intros Hinv. pose proof (DeleteSubject_cases e c sub permanent s Hinv) as Hc.
  pose proof (DeleteSubject_Inv e c sub permanent s Hinv) as Hinv'.
  pose proof (DeleteSubject_counters e c sub permanent s) as Hcnt. cbv zeta in Hc, Hcnt.
  destruct (DeleteSubject e c sub permanent s) as [[versions|err] s']; simpl in *; (split; [|done]).
  - destruct (Hcnt versions eq_refl) as [Hl Hn]. destruct Hc as (Hs & Hnd & Hin & Hall & Hst & Hother & _).
    split_and!; [done..|]. pointwise; intros c'; [intros sub' v|intros sub'|];
      (destruct (decide (c = c')) as [<-|Hne];
        [rewrite ?Hst, ?Hl, ?Hn; repeat case_decide; naive_solver
        |unfold ctx; rewrite Hother by congruence; repeat case_decide; naive_solver]).
  - destruct Hc as [-> Hc]. split; [done|]. exact Hc.
Qed.

(** ** Lookups *)

Lemma version_refines e c sub v s :
  Inv s -> version_spec c sub v (abs s) (GetSchemaBySubjectVersion e c sub v s).
Proof.
  intros Hinv. pose proof (Inv_ctx s c Hinv) as Hwf. unfold version_spec.
  destruct (Z.eqb_spec v (-1)) as [->|Hv]; [by apply latest_cases|].
  rewrite GetSchemaBySubjectVersion_explicit by done. simpl.
  destruct (getContext s c) as [cs|] eqn:Eg; [|rewrite getContext_None by done; by left].
  apply getContext_Some in Eg. rewrite Eg in *. case_decide as Hne.
  { unfold stored. rewrite entry_empty by done. by left. }
  destruct (entry cs sub v) as [info|] eqn:Ev; [|unfold stored; rewrite Ev; by right].
  destruct (stored_Some _ _ _ _ Hwf Ev) as (schema & Hs & _ & ->). simpl. rewrite Hs.
  by destruct (deleted info).
Qed.

Lemma latest_refines e c sub s : Inv s -> latest_spec c sub (abs s) (GetLatestSchema e c sub s).
Proof. intros Hinv. rewrite (GetLatestSchema_eq e e). by apply latest_cases. Qed.

Lemma versions_refines e c sub d s : versions_spec c sub d (abs s) (GetSchemasBySubject e c sub d s).
Proof.
  destruct (GetSchemasBySubject e c sub d s) as [l|err] eqn:E; cbv zeta; simpl.
  - intros r. by eapply elem_of_GetSchemasBySubject.
  - intros r (Hr & Hsub & Hd). eapply GetSchemasBySubject_Err in E as [-> E]; [|exact Hr].
    destruct Hd; congruence.
Qed.

Lemma by_id_refines c id s : Inv s -> by_id_spec c id (abs s) (GetSchemaByID c id s).
Proof.
  intros Hinv. unfold GetSchemaByID. destruct (getContext s c) as [cs|] eqn:Eg.
  - apply getContext_Some in Eg. subst cs. destruct (schemas (ctx s c) !! id) as [schema|] eqn:Es.
    + simpl. split; [by apply (wf_id _ _ (Inv_ctx s c Hinv))|by apply schemas_uses].
    + split; [done|]. intros old Hu. destruct (uses_schemas s c id old Hinv Hu) as (sc & Hsc & _). congruence.
  - split; [done|]. intros old (_ & sub & v & Hv). simpl in Hv. by rewrite getContext_None in Hv.
Qed.

Lemma using_id_refines c id d s : Inv s -> using_id_spec c id d (abs s) (GetVersionsBySchemaID c id d s).
Proof.
  intros Hinv. pose proof (GetVersionsBySchemaID_cases c id d s Hinv) as H.
  destruct (GetVersionsBySchemaID c id d s) as [svs|err]; [exact H|].
  destruct H as (-> & _ & H). split; [done|]. intros old (Hid & sub & v & Hv). exact (H sub v old Hv Hid).
Qed.

Lemma exists_refines e c sub s :
  Inv s -> SubjectExists e c sub s = true <-> exists v r, stored (ctx s c) sub v = Some r /\ Deleted r = false.
Proof.
  intros Hinv. rewrite SubjectExists_spec. split.
  - intros (v & info & Hv & Hd). destruct (stored_Some _ _ _ _ (Inv_ctx s c Hinv) Hv) as (sc & _ & _ & Hst).
    by exists v, (fillRecord sc sub v info).
  - intros (v & r & (info & sc & Hv & _ & ->)%stored_inv & Hd). by exists v, info.
Qed.

Lemma max_id_refines c s : GetMaxSchemaID c s = Int64.wrap (nextID (ctx s c) - 1).
Proof. unfold GetMaxSchemaID, getContext, ctx. by destruct (contexts s !! c). Qed.

(** ** The other calls *)

Lemma abs_same_contexts s s' : contexts s' = contexts s -> Inv s -> abs s' ≡ abs s /\ Inv s'.
Proof.
  intros E Hinv. split; [pointwise; intros; unfold ctx; by rewrite E|]. unfold Inv. by rewrite E.
Qed.

Lemma refines_context s c cs :
  Inv s -> same_schemas (ctx s c) cs -> nextID cs = nextID (ctx s c) ->
  abs (putContext s c cs) ≡ abs s /\ Inv (putContext s c cs).
Proof.
  intros Hinv Hs Hn. split.
  - destruct Hs as (E1 & E2 & E3 & E4 & E5). apply abs_putContext_same; [..|done].
    + intros sub v. unfold stored, entry, versionMap. by rewrite E1, E2.
    + intros sub. unfold last_version. by rewrite E3.
  - apply Inv_putContext; [done|]. eapply wf_same_schemas; [exact Hs|by apply Inv_ctx].
Qed.

(** Opens the operation on configuration or modes in the goal. *)
Ltac context_call s c :=
  unfold SetConfig, SetGlobalConfig, SetMode, SetGlobalMode, DeleteConfig, DeleteMode, DeleteGlobalConfig,
    DeleteGlobalMode in *;
  first [ destruct (getOrCreateContext_ctx s c) as (? & -> & ->)
        | let Eg := fresh in destruct (getContext s c) eqn:Eg; [|done]; apply getContext_Some in Eg; subst ];
  repeat case_match; try done; by apply refines_context.

Lemma config_refines c s o :
  Inv s ->
  match o with
  | OpSetConfig _ _ | OpDeleteConfig _ | OpSetGlobalConfig _ | OpDeleteGlobalConfig
  | OpSetMode _ _ | OpDeleteMode _ | OpSetGlobalMode _ | OpDeleteGlobalMode =>
      abs (apply_op env0 c o s) ≡ abs s /\ Inv (apply_op env0 c o s)
  | _ => True
  end.
Proof. intros Hinv. destruct o; try exact I; simpl; context_call s c. Qed.

Ltac key_call :=
  repeat first
    [ progress cbn [fst snd contexts]
    | done
    | match goal with |- context [match ?x with _ => _ end] => destruct x eqn:? end ].

Lemma keys_contexts {B} (cl : call B) e s :
  match cl with
  | CCreateKEK _ | CGetKEK _ _ | CUpdateKEK _ | CDeleteKEK _ _ | CUndeleteKEK _ | CListKEKs _
  | CCreateDEK _ | CGetDEK _ _ _ _ _ | CListDEKs _ _ | CListDEKVersions _ _ _ _ | CDeleteDEK _ _ _ _ _
  | CUndeleteDEK _ _ _ _ | CUpdateDEK _ | CCreateExporter _ | CGetExporter _ | CUpdateExporter _
  | CDeleteExporter _ | CListExporters | CGetExporterStatus _ | CSetExporterStatus _ _
  | CGetExporterConfig _ | CUpdateExporterConfig _ _ => contexts (snd (handle e cl s)) = contexts s
  | _ => True
  end.
Proof.
  destruct cl; try exact I; try reflexivity; unfold handle, memory_storage, memory_handle;
    unfold CreateKEK, UpdateKEK, DeleteKEK, UndeleteKEK, CreateDEK, DeleteDEK, UndeleteDEK, UpdateDEK,
      CreateExporter, UpdateExporter, DeleteExporter, SetExporterStatus, UpdateExporterConfig;
    unfold dropEmptyDekVersions; key_call.
Qed.

(** ** Refinement *)

Lemma reads_refines {B} (cl : call B) e s :
  Inv s -> is_read cl = true -> let '(b, s') := handle e cl s in spec cl (abs s) b (abs s') /\ Inv s'.
Proof.
  intros Hinv Hr. destruct cl; try discriminate Hr; simpl; (split; [|done]); try done; try (split; [|done]).
  - by apply by_id_refines.
  - by apply version_refines.
  - apply versions_refines.
  - by apply latest_refines.
  - split; [done|]. eexists. split; [done|]. by apply exists_refines.
  - by rewrite max_id_refines.
  - eexists. split; [done|]. intros sv. apply elem_of_GetReferencedBy.
  - by apply using_id_refines.
Qed.

(** One call of the backend is one step of the catalogue. *)
Lemma call_refines {B} (cl : call B) e s :
  Inv s -> admissible cl (abs s) ->
  let '(b, s') := handle e cl s in spec cl (abs s) b (abs s') /\ Inv s'.
Proof.
  intros Hinv Hadm. destruct (is_read cl) eqn:Hr; [by apply reads_refines|].
  pose proof (keys_contexts cl e s) as Hk. pose proof (fun c => config_refines c s) as Hcfg.
  destruct cl; try discriminate Hr; try (destruct (handle e _ s); by apply abs_same_contexts);
    unfold handle, memory_storage, memory_handle, no_result, spec.
  - by apply create_refines.
  - by apply delete_refines.
  - by apply delete_subject_refines.
  - exact (Hcfg registryCtx (OpSetConfig subject config) Hinv).
  - pose proof (Hcfg registryCtx (OpDeleteConfig subject) Hinv) as H. unfold apply_op in H.
    by destruct (DeleteConfig _ _ _).
  - exact (Hcfg registryCtx (OpSetGlobalConfig config) Hinv).
  - exact (Hcfg registryCtx OpDeleteGlobalConfig Hinv).
  - exact (Hcfg registryCtx (OpSetMode subject mode) Hinv).
  - pose proof (Hcfg registryCtx (OpDeleteMode subject) Hinv) as H. unfold apply_op in H.
    by destruct (DeleteMode _ _ _).
  - exact (Hcfg registryCtx (OpSetGlobalMode mode) Hinv).
  - exact (Hcfg registryCtx OpDeleteGlobalMode Hinv).
  - by apply import_refines.
  - unfold SetNextID. destruct (getOrCreateContext_ctx s registryCtx) as (s' & -> & ->). split; [split|].
    + done.
    + pointwise; intros c'; [intros sub v|intros sub|]; rewrite ctx_putContext; by case_decide; subst.
    + apply Inv_putContext; [done|]. eapply wf_same_schemas; [|by apply Inv_ctx]. done.
Qed.

(** ** Sequences of calls *)

(** A call and what it returned. *)
Definition event : Type := { B : Type & (call B * B)%type }.
Definition ev {B} (cl : call B) (b : B) : event := existT B (cl, b).

(** What the clients of a backend see, in the order the calls take effect. *)
Inductive trace : Store -> list event -> Store -> Prop :=
  | trace_nil s : trace s [] s
  | trace_call {B} (cl : call B) e b s1 s2 events s3 :
      admissible cl (abs s1) -> handle e cl s1 = (b, s2) -> trace s2 events s3 ->
      trace s1 (ev cl b :: events) s3.

Inductive allowed : Catalogue -> list event -> Catalogue -> Prop :=
  | allowed_nil a : allowed a [] a
  | allowed_call {B} (cl : call B) b a1 a2 events a3 :
      admissible cl a1 -> spec cl a1 b a2 -> allowed a2 events a3 ->
      allowed a1 (ev cl b :: events) a3.

Lemma trace_allowed s events s' : Inv s -> trace s events s' -> allowed (abs s) events (abs s') /\ Inv s'.
Proof.
  intros Hinv Ht. induction Ht as [s|B cl e b s1 s2 events s3 Hadm Hc Ht IH]; [by split; [constructor|]|].
  pose proof (call_refines cl e s1 Hinv Hadm) as Hr. rewrite Hc in Hr. destruct Hr as [Hs Hinv2].
  destruct (IH Hinv2) as [Ha Hinv3]. split; [|done]. by eapply allowed_call.
Qed.

Lemma abs_NewStore : abs NewStore ≡ no_schemas.
Proof.
  assert (Hctx : forall c, ctx NewStore c = newContextStore).
  { intros c. unfold ctx, NewStore. simpl. rewrite lookup_singleton. by case_decide. }
  pointwise; intros c; rewrite Hctx.
  - intros sub v. by unfold stored, entry, versionMap, newContextStore; simpl; rewrite lookup_empty.
  - intros sub. by unfold last_version, newContextStore; simpl; rewrite lookup_empty.
  - done.
Qed.

(** Property C4.  The in-memory backend implements the catalogue: for every
    sequence of calls its clients make on an empty store, whichever way they
    interleave, in which every registration finds the next ID unused and its
    version counter below the overflow, each call returns what the abstract
    machine allows it to and leaves the catalogue as the machine does.  What is
    left out is a registration between an import under an ID and the advance of
    the sequence past it ([RegistryImport.import_race]). *)
Theorem memory_refines events s :
  trace NewStore events s -> exists a, a ≡ no_schemas /\ allowed a events (abs s).
Proof.
  intros Ht. exists (abs NewStore). split; [apply abs_NewStore|].
  apply trace_allowed; [apply Inv_NewStore|done].
Qed.

(** One registration, then a lookup of it. *)
Definition orders_events : list event :=
  [ev (CCreateSchema "." (avro_record "orders" "[string]" "f1"))
     (fst (CreateSchema env0 "." (avro_record "orders" "[string]" "f1") NewStore));
   ev (CGetLatestSchema "." "orders") (GetLatestSchema env0 "." "orders" orders_store)].

Lemma orders_trace : trace NewStore orders_events orders_store.
Proof.
  eapply (trace_call _ env0); [|vm_compute; reflexivity|eapply (trace_call _ env0); [exact I|vm_compute; reflexivity|constructor]].
  destruct abs_NewStore as (H1 & H2 & _). split.
  - rewrite <- H2. done.
  - intros old (_ & sub & v & Hv). rewrite <- H1 in Hv. done.
Qed.

Lemma memory_refines_witness : exists a, a ≡ no_schemas /\ allowed a orders_events (abs orders_store).
Proof. apply memory_refines. exact orders_trace. Defined.

(** ** Recorded versions do not change *)

(** No version is above its subject's highest. *)
Definition bounded (a : Catalogue) : Prop :=
  forall c sub v r, recorded a c sub v = Some r -> v <= highest a c sub.

(** A permanent deletion that succeeded and covers the version. *)
Inductive removes (c sub : string) (v : Z) : event -> Prop :=
  | removes_version : removes c sub v (ev (CDeleteSchema c sub v true) (Ok tt))
  | removes_subject versions : removes c sub v (ev (CDeleteSubject c sub true) (Ok versions)).

(** What is left of a version: itself, perhaps marked as deleted. *)
Definition kept (r : SchemaRecord) (o : option SchemaRecord) : Prop :=
  o = Some r \/ o = Some (soft_deleted r).

Definition keeps (a : Catalogue) (e : event) (a' : Catalogue) : Prop :=
  bounded a' /\
  forall c sub v r, recorded a c sub v = Some r -> ~ removes c sub v e -> kept r (recorded a' c sub v).

Lemma keeps_equiv a e a' : bounded a -> a' ≡ a -> keeps a e a'.
Proof.
  intros Hb (H1 & H2 & _). split.
  - intros c sub v r. rewrite <- H1, <- H2. apply Hb.
  - intros c sub v r Hr _. left. by rewrite <- H1.
Qed.

Lemma keeps_put a e a' c sub v r high next :
  bounded a -> v <= high -> highest a c sub <= high -> a' ≡ put_version a c sub v r high next ->
  (forall old, recorded a c sub v = Some old -> ~ removes c sub v e -> kept old r) ->
  keeps a e a'.
Proof.
  intros Hb Hv Hh (H1 & H2 & _) Hr. split.
  - intros c' sub' v' r'. rewrite <- H1, <- H2. simpl. case_decide as D; [|apply Hb].
    destruct D as [<- <-]. case_decide; [lia|]. intros Hr'%Hb. lia.
  - intros c' sub' v' r' Hr' Hn. rewrite <- H1. simpl. case_decide as D; [|by left].
    destruct D as [<- <-]. case_decide; [subst; by apply Hr|by left].
Qed.

Lemma keeps_delete_subject a c sub permanent res a' :
  bounded a -> delete_subject_spec c sub permanent a res a' ->
  keeps a (ev (CDeleteSubject c sub permanent) res) a'.
Proof.
  intros Hb H. destruct res as [versions|err]; [|by apply keeps_equiv, H].
  destruct H as (_ & _ & _ & _ & H1 & H2 & _). split.
  - intros c' sub' v' r'. rewrite <- H1, <- H2. simpl. case_decide as D; [|apply Hb].
    destruct D as [<- <-]. destruct permanent; [done|].
    destruct (recorded a c sub v') as [r|] eqn:Er; [|done]. intros _. by apply Hb in Er.
  - intros c' sub' v' r' Hr' Hn. rewrite <- H1. simpl. case_decide as D; [|by left].
    destruct D as [<- <-]. destruct permanent; [by destruct Hn; constructor|]. rewrite Hr'. by right.
Qed.

Lemma spec_keeps {B} (cl : call B) a b a' :
  bounded a -> spec cl a b a' -> keeps a (ev cl b) a'.
Proof.
  intros Hb H. destruct cl; simpl in H; try (by apply keeps_equiv, H); try (apply keeps_equiv; [done|by apply H]).
  - destruct b as [res record']. destruct H as [(_ & H & _)|(_ & _ & r & next & _ & -> & _ & H)].
    { by apply keeps_equiv. }
    eapply keeps_put; [done| | |exact H|]; [lia|lia|].
    intros old Ho%Hb. lia.
  - unfold delete_spec in H. destruct (recorded a registryCtx subject v) as [r|] eqn:Er; [|by apply keeps_equiv, H].
    destruct (permanent && _); [by apply keeps_equiv, H|]. destruct H as [-> H].
    eapply keeps_put; [done| | |exact H|]; [by eapply Hb|lia|].
    rewrite Er. intros old [= <-] Hn. destruct permanent; [by destruct Hn; constructor|by right].
  - by apply keeps_delete_subject.
  - destruct b as [res record']. destruct H as [(_ & H & _)|[(_ & H & _)|(_ & Hno & r & _ & _ & H)]];
      [by apply keeps_equiv..|]. eapply keeps_put; [done| | |exact H|]; [lia|lia|]. rewrite Hno. done.
  - destruct H as (_ & H1 & H2 & _). split; simpl in *.
    + intros c sub v r. rewrite <- H1, <- H2. apply Hb.
    + intros c sub v r Hr _. left. by rewrite <- H1.
Qed.

Lemma allowed_keeps a events a' c sub v r :
  bounded a -> allowed a events a' ->
  (forall e, e ∈ events -> ~ removes c sub v e) ->
  recorded a c sub v = Some r -> kept r (recorded a' c sub v).
Proof.
  intros Hb Ht. revert r Hb. induction Ht as [a|B cl b a1 a2 events a3 _ Hs _ IH]; intros r Hb Hn Hr; [by left|].
  destruct (spec_keeps cl a1 b a2 Hb Hs) as [Hb2 Hk].
  assert (Hn' : forall e, e ∈ events -> ~ removes c sub v e) by (intros e He; apply Hn; by right).
  destruct (Hk c sub v r Hr) as [Hr2|Hr2]; [apply Hn; left|by apply IH|].
  destruct (IH _ Hb2 Hn' Hr2) as [H|H]; by right.
Qed.

(** Property C5.  A registered version is immutable: over every sequence of
    calls, on any context and by any client, in which every registration finds the
    next ID unused and its version counter below the overflow, the version keeps
    its ID, content, references, metadata and rule set until a permanent deletion
    of it or of its subject succeeds; the only thing that can change is that it
    becomes marked as deleted, and that is never undone.  A registration that
    races with an import is left out: it may overwrite the imported content
    ([RegistryImport.import_race]). *)
Theorem versions_immutable events s s' c sub v r :
  Inv s -> trace s events s' ->
  (forall e, e ∈ events -> ~ removes c sub v e) ->
  stored (ctx s c) sub v = Some r ->
  stored (ctx s' c) sub v = Some r \/ stored (ctx s' c) sub v = Some (soft_deleted r).
Proof.
  intros Hinv Ht Hn Hr. destruct (trace_allowed s events s' Hinv Ht) as [Ha _].
  apply (allowed_keeps (abs s) events (abs s')); [|done..].
  intros c' sub' v' r' (info & sc & Hv & _)%stored_inv. by apply (wf_bound _ _ (Inv_ctx s c' Hinv)) in Hv.
Qed.

Lemma versions_immutable_witness :
  exists r, stored (ctx orders_store ".") "orders" 1 = Some r /\
    (stored (ctx (snd (DeleteSchema "." "orders" 1 false orders_store)) ".") "orders" 1 = Some r \/
     stored (ctx (snd (DeleteSchema "." "orders" 1 false orders_store)) ".") "orders" 1 = Some (soft_deleted r)).
Proof.
  destruct (stored (ctx orders_store ".") "orders" 1) as [r|] eqn:E; [|vm_compute in E; discriminate].
  exists r. split; [reflexivity|].
  apply (versions_immutable [ev (CDeleteSchema "." "orders" 1 false) (Ok tt)] orders_store); [apply Inv_orders_store| | |exact E].
  - eapply (trace_call _ env0); [exact I|vm_compute; reflexivity|constructor].
  - intros e ->%list_elem_of_singleton Hr. inversion Hr.
Defined.
