(* ===== verification/Rules.v ===== *)
(** * Data-contract rules: internal/rules/validator.go *)
From S2P Require Import Prelude GoStrings StorageTypes.
From Stdlib Require Import Ascii String.

Local Open Scope string_scope.

(** A Go [map\[string\]bool] used as a set of constants. *)
Abbreviation string_set := (list string).
Definition validKinds : string_set := ["CONDITION"; "TRANSFORM"].
Definition validDomainModes : string_set := ["WRITE"; "READ"; "WRITEREAD"].
Definition validMigrationModes : string_set := ["UPGRADE"; "DOWNGRADE"; "UPDOWN"].
Definition validEncodingModes : string_set := ["WRITE"; "READ"; "WRITEREAD"].
Definition validActions : string_set := [""; "NONE"; "DLQ"; "ERROR"].

Definition isValidAction (action : string) : bool :=
  if bool_decide (action ∈ validActions) then true
  else forallb (fun p => bool_decide (TrimSpace p ∈ validActions)) (Split action ","%char).

Definition validateRule (r : Rule) (category : string) (index : Z) (validModes : string_set)
    : option error :=
  let quoted s := "'" ++ s ++ "'" in
  if decide (TrimSpace (RuleName r) = "") then
    Some (errors_New ("invalid rule: " ++ category ++ "[" ++ Itoa index ++ "]: name is required"))
  else if negb (bool_decide (Kind r ∈ validKinds)) then
    Some (errors_New ("invalid rule " ++ quoted (RuleName r)
      ++ ": kind must be CONDITION or TRANSFORM, got " ++ quoted (Kind r)))
  else if negb (bool_decide (RuleMode r ∈ validModes)) then
    Some (errors_New ("invalid rule " ++ quoted (RuleName r) ++ ": invalid mode "
      ++ quoted (RuleMode r) ++ " for " ++ category))
  else if negb (isValidAction (OnSuccess r)) then
    Some (errors_New ("invalid rule " ++ quoted (RuleName r)
      ++ ": onSuccess must be NONE, DLQ, or ERROR (comma-separated for dual-mode), got "
      ++ quoted (OnSuccess r)))
  else if negb (isValidAction (OnFailure r)) then
    Some (errors_New ("invalid rule " ++ quoted (RuleName r)
      ++ ": onFailure must be NONE, DLQ, or ERROR (comma-separated for dual-mode), got "
      ++ quoted (OnFailure r)))
  else None.

(** [for i, r := range rules { if err := validateRule(...) { return err } }] *)
Fixpoint validateRules (rules : list Rule) (category : string) (i : Z) (validModes : string_set)
    : option error :=
  match rules with
  | [] => None
  | r :: rules =>
      match validateRule r category i validModes with
      | Some err => Some err
      | None => validateRules rules category (i + 1) validModes
      end
  end.

Definition ValidateRuleSet (rs : option RuleSet) : option error :=
  match rs with
  | None => None
  | Some rs =>
      match validateRules (from_opt [] (DomainRules rs)) "domainRules" 0 validDomainModes with
      | Some err => Some err
      | None =>
          match validateRules (from_opt [] (MigrationRules rs)) "migrationRules" 0 validMigrationModes with
          | Some err => Some err
          | None => validateRules (from_opt [] (EncodingRules rs)) "encodingRules" 0 validEncodingModes
          end
      end
  end.

(** ** What is accepted *)

Definition action_ok (action : string) : Prop :=
  action ∈ validActions \/ forall p, p ∈ Split action ","%char -> TrimSpace p ∈ validActions.

Definition rule_ok (modes : string_set) (r : Rule) : Prop :=
  TrimSpace (RuleName r) <> "" /\ Kind r ∈ validKinds /\ RuleMode r ∈ modes /\
  action_ok (OnSuccess r) /\ action_ok (OnFailure r).

Lemma isValidAction_spec action : isValidAction action = true <-> action_ok action.
Proof.
  unfold isValidAction, action_ok. case_bool_decide; [by split; [left|]|].
  rewrite forallb_forall. setoid_rewrite bool_decide_eq_true. setoid_rewrite list_elem_of_In.
  naive_solver.
Qed.

Lemma validateRule_spec r category i modes :
  validateRule r category i modes = None <-> rule_ok modes r.
Proof.
  unfold validateRule, rule_ok. rewrite <- !isValidAction_spec.
  case_decide; [naive_solver|].
  repeat case_bool_decide; simpl; try naive_solver.
  destruct (isValidAction (OnSuccess r)), (isValidAction (OnFailure r)); simpl; naive_solver.
Qed.

Lemma validateRules_spec rules category modes : forall i,
  validateRules rules category i modes = None <-> Forall (rule_ok modes) rules.
Proof.
  induction rules as [|r rules IH]; intros i; simpl; [by split; [constructor|]|].
  rewrite Forall_cons, <- (validateRule_spec r category i modes), <- (IH (i + 1)%Z).
  destruct (validateRule r category i modes); naive_solver.
Qed.

(** A rule set is accepted exactly when every rule has a name that
    is not blank, a known kind, a mode of its category, and known actions. *)
Theorem ValidateRuleSet_spec rs :
  ValidateRuleSet (Some rs) = None <->
  Forall (rule_ok validDomainModes) (from_opt [] (DomainRules rs)) /\
  Forall (rule_ok validMigrationModes) (from_opt [] (MigrationRules rs)) /\
  Forall (rule_ok validEncodingModes) (from_opt [] (EncodingRules rs)).
Proof.
  unfold ValidateRuleSet.
  rewrite <- (validateRules_spec _ "domainRules" _ 0), <- (validateRules_spec _ "migrationRules" _ 0),
    <- (validateRules_spec _ "encodingRules" _ 0).
  destruct (validateRules _ "domainRules" _ _); [naive_solver|].
  destruct (validateRules _ "migrationRules" _ _); naive_solver.
Qed.

(** Dual-mode actions: an empty part is an action too. *)
Example isValidAction_dual : isValidAction "ERROR, NONE" = true /\ isValidAction "ERROR," = true /\
  isValidAction "ERROR;NONE" = false.
Proof. vm_compute. done. Qed.
