(* ===== verification/RegistryConfig.v ===== *)
(** * Compatibility configuration and modes: internal/registry/registry.go

    The four-tier fallback of configuration and mode, the checks SetConfig and
    SetMode make before they write, and the mode guard of write requests.
    [defaultConfig] is the field of the Go struct [Registry].  The second half says
    what the fallbacks compute. *)
From S2P Require Import Prelude GoStrings StorageTypes MemState MemStore MemStoreFacts MemQueries StorageIface Rules.
From S2P Require RegContext MemInvariant MemSteps.
From Stdlib Require Import String.

Local Open Scope prog_scope.
Local Open Scope string_scope.

Definition isValidCompatibility (level : string) : bool :=
  bool_decide (level ∈ ["NONE"; "BACKWARD"; "BACKWARD_TRANSITIVE"; "FORWARD";
                        "FORWARD_TRANSITIVE"; "FULL"; "FULL_TRANSITIVE"]).

Definition isValidMode (mode : string) : bool :=
  bool_decide (mode ∈ ["READWRITE"; "READONLY"; "READONLY_OVERRIDE"; "IMPORT"]).

(** ** Configuration *)

Definition GetConfig (defaultConfig registryCtx subject : string) : prog (result string) :=
  let tail : prog (result string) :=
    let! global := invoke (CGetGlobalConfig registryCtx) in
    match global with
    | Ok config => Ret (Ok (CompatibilityLevel config))
    | Err _ =>
        if decide (registryCtx = RegContext.GlobalContext) then Ret (Ok defaultConfig)
        else
          let! cross := invoke (CGetGlobalConfig RegContext.GlobalContext) in
          match cross with
          | Ok config => Ret (Ok (CompatibilityLevel config))
          | Err _ => Ret (Ok defaultConfig)
          end
    end in
  if decide (subject = "") then tail
  else
    let! config := invoke (CGetConfig registryCtx subject) in
    match config with
    | Ok config => Ret (Ok (CompatibilityLevel config))
    | Err err => if errors_Is err ErrNotFound then tail else Ret (Err err)
    end.

Definition GetSubjectConfig (registryCtx subject : string) : prog (result string) :=
  if decide (subject = "") then Ret (fail ErrNotFound)
  else
    let! config := invoke (CGetConfig registryCtx subject) in
    match config with
    | Ok config => Ret (Ok (CompatibilityLevel config))
    | Err err => Ret (Err err)
    end.

Definition GetSubjectConfigFull (registryCtx subject : string) : prog (result ConfigRecord) :=
  invoke (CGetConfig registryCtx subject).

Definition GetGlobalConfig (registryCtx : string) : prog (result string) :=
  let! config := invoke (CGetGlobalConfig registryCtx) in
  match config with
  | Ok config => Ret (Ok (CompatibilityLevel config))
  | Err err => Ret (Err err)
  end.

Definition GetConfigFull (defaultConfig registryCtx subject : string) : prog (result ConfigRecord) :=
  let tail : prog (result ConfigRecord) :=
    let! global := invoke (CGetGlobalConfig registryCtx) in
    match global with
    | Ok config => Ret (Ok config)
    | Err _ =>
        if decide (registryCtx = RegContext.GlobalContext) then Ret (Ok (level_config defaultConfig))
        else
          let! cross := invoke (CGetGlobalConfig RegContext.GlobalContext) in
          match cross with
          | Ok config => Ret (Ok config)
          | Err _ => Ret (Ok (level_config defaultConfig))
          end
    end in
  if decide (subject = "") then tail
  else
    let! config := invoke (CGetConfig registryCtx subject) in
    match config with
    | Ok config => Ret (Ok config)
    | Err err => if errors_Is err ErrNotFound then tail else Ret (Err err)
    end.

Definition GetGlobalConfigDirect (defaultConfig registryCtx : string) : prog (result ConfigRecord) :=
  let! config := invoke (CGetGlobalConfig registryCtx) in
  match config with
  | Ok config => Ret (Ok config)
  | Err _ => Ret (Ok (level_config defaultConfig))
  end.

Record SetConfigOpts := MkSetConfigOpts {
  OptAlias : string;
  OptCompatibilityGroup : string;
  OptValidateFields : option bool;
  OptDefaultMetadata : option Metadata;
  OptOverrideMetadata : option Metadata;
  OptDefaultRuleSet : option RuleSet;
  OptOverrideRuleSet : option RuleSet;
  OptAliasForDeks : string;
  OptCompatibilityPolicy : string
}.

Definition SetConfig (registryCtx subject level : string) (normalize : option bool)
    (opts : option SetConfigOpts) : prog (result unit) :=
  let level := ToUpper level in
  if negb (isValidCompatibility level) then
    Ret (Err (Errorf_w ("invalid compatibility level: " ++ level ++ ": ")
                (sentinel_err ErrInvalidCompatibility) ""))
  else
    let store (config : ConfigRecord) : prog (result unit) :=
      if decide (subject = "") then invoke (CSetGlobalConfig registryCtx config)
      else invoke (CSetConfig registryCtx subject config) in
    let config := {| (level_config level) with Normalize := normalize |} in
    match opts with
    | None => store config
    | Some opt =>
        match ValidateRuleSet (OptDefaultRuleSet opt) with
        | Some err =>
            Ret (Err (Errorf_w "invalid defaultRuleSet: " (errors_Join err (sentinel_err ErrInvalidRuleSet)) ""))
        | None =>
            match ValidateRuleSet (OptOverrideRuleSet opt) with
            | Some err =>
                Ret (Err (Errorf_w "invalid overrideRuleSet: "
                            (errors_Join err (sentinel_err ErrInvalidRuleSet)) ""))
            | None =>
                store {| config with
                  Alias := OptAlias opt;
                  CompatibilityGroup := OptCompatibilityGroup opt;
                  ValidateFields := OptValidateFields opt;
                  DefaultMetadata := OptDefaultMetadata opt;
                  OverrideMetadata := OptOverrideMetadata opt;
                  DefaultRuleSet := OptDefaultRuleSet opt;
                  OverrideRuleSet := OptOverrideRuleSet opt;
                  AliasForDeks := OptAliasForDeks opt;
                  CompatibilityPolicy := OptCompatibilityPolicy opt |}
            end
        end
    end.

Definition DeleteGlobalConfig (defaultConfig registryCtx : string) : prog (result string) :=
  let! config := invoke (CGetGlobalConfig registryCtx) in
  let prevLevel := CompatibilityLevel (match config with Ok c => c | Err _ => level_config defaultConfig end) in
  let! r := invoke (CDeleteGlobalConfig registryCtx) in
  match r with
  | Ok _ => Ret (Ok prevLevel)
  | Err err => Ret (Err err)
  end.

Definition DeleteConfig (defaultConfig registryCtx subject : string) : prog (result string) :=
  if decide (subject = "") then DeleteGlobalConfig defaultConfig registryCtx
  else
    let! config := invoke (CGetConfig registryCtx subject) in
    match config with
    | Err err => Ret (Err err)
    | Ok config =>
        let! r := invoke (CDeleteConfig registryCtx subject) in
        match r with
        | Ok _ => Ret (Ok (CompatibilityLevel config))
        | Err err => Ret (Err err)
        end
    end.

(** A boolean of the configuration, looked up tier by tier until it is set. *)
Definition configFlag (flag : ConfigRecord -> option bool) (registryCtx subject : string) : prog bool :=
  let value (c : result ConfigRecord) := match c with Ok c => flag c | Err _ => None end in
  let tail : prog bool :=
    let! global := invoke (CGetGlobalConfig registryCtx) in
    match value global with
    | Some b => Ret b
    | None =>
        if decide (registryCtx = RegContext.GlobalContext) then Ret false
        else
          let! cross := invoke (CGetGlobalConfig RegContext.GlobalContext) in
          Ret (from_opt false (value cross))
    end in
  if decide (subject = "") then tail
  else
    let! config := invoke (CGetConfig registryCtx subject) in
    match value config with
    | Some b => Ret b
    | None => tail
    end.

Definition isNormalizeEnabled := configFlag Normalize.
Definition isValidateFieldsEnabled := configFlag ValidateFields.

Definition ResolveAlias (registryCtx subject : string) : prog string :=
  if decide (subject = "") then Ret subject
  else
    let! config := GetSubjectConfigFull registryCtx subject in
    match config with
    | Ok config => Ret (if decide (Alias config = "") then subject else Alias config)
    | Err _ => Ret subject
    end.

(** ** Modes *)

Definition resolveGlobalMode : prog string :=
  let! mode := invoke (CGetGlobalMode RegContext.DefaultContext) in
  match mode with
  | Ok mode => Ret (Mode mode)
  | Err _ =>
      let! mode := invoke (CGetGlobalMode RegContext.GlobalContext) in
      match mode with
      | Ok mode => Ret (Mode mode)
      | Err _ => Ret "READWRITE"
      end
  end.

Definition GetMode (registryCtx subject : string) : prog (result string) :=
  let! globalMode := resolveGlobalMode in
  if decide (globalMode = "READONLY_OVERRIDE") then Ret (Ok "READONLY_OVERRIDE")
  else
    let tail : prog (result string) :=
      let! mode := invoke (CGetGlobalMode registryCtx) in
      match mode with
      | Ok mode => Ret (Ok (Mode mode))
      | Err err =>
          if negb (errors_Is err ErrNotFound)
          then Ret (Err (Errorf_w "failed to get global mode: " err ""))
          else if decide (registryCtx = RegContext.GlobalContext) then Ret (Ok "READWRITE")
          else
            let! mode := invoke (CGetGlobalMode RegContext.GlobalContext) in
            match mode with
            | Ok mode => Ret (Ok (Mode mode))
            | Err _ => Ret (Ok "READWRITE")
            end
      end in
    if decide (subject = "") then tail
    else
      let! mode := invoke (CGetMode registryCtx subject) in
      match mode with
      | Ok mode => Ret (Ok (Mode mode))
      | Err err => if errors_Is err ErrNotFound then tail else Ret (Err err)
      end.

Definition GetSubjectMode (registryCtx subject : string) : prog (result string) :=
  if decide (subject = "") then Ret (fail ErrNotFound)
  else
    let! mode := invoke (CGetMode registryCtx subject) in
    match mode with
    | Ok mode => Ret (Ok (Mode mode))
    | Err err => Ret (Err err)
    end.

Definition GetGlobalMode (registryCtx : string) : prog (result string) :=
  let! mode := invoke (CGetGlobalMode registryCtx) in
  match mode with
  | Ok mode => Ret (Ok (Mode mode))
  | Err err => Ret (Err err)
  end.

Definition GetGlobalModeDirect (registryCtx : string) : prog (result string) :=
  let! mode := invoke (CGetGlobalMode registryCtx) in
  match mode with
  | Ok mode => Ret (Ok (Mode mode))
  | Err err =>
      if errors_Is err ErrNotFound then Ret (Ok "READWRITE")
      else Ret (Err (Errorf_w "failed to get global mode: " err ""))
  end.

Definition hasSubjects (registryCtx subject : string) : prog (result bool) :=
  if decide (subject = "") then
    let! subjects := invoke (CListSubjects registryCtx false) in
    match subjects with
    | Ok subjects => Ret (Ok (negb (bool_decide (subjects = []))))
    | Err err => Ret (Err err)
    end
  else invoke (CSubjectExists registryCtx subject).

(** The write at the end of [SetMode]. *)
Definition writeMode (registryCtx subject mode : string) : prog (result unit) :=
  if decide (subject = "") then invoke (CSetGlobalMode registryCtx (MkModeRecord "" mode))
  else invoke (CSetMode registryCtx subject (MkModeRecord "" mode)).

Definition SetMode (registryCtx subject mode : string) (force : bool) : prog (result unit) :=
  let mode := ToUpper mode in
  if negb (isValidMode mode) then
    Ret (Err (Errorf_w ("invalid mode: " ++ mode ++ ": ") (sentinel_err ErrInvalidMode) ""))
  else if bool_decide (mode = "IMPORT") && negb force then
    let! currentMode := GetMode registryCtx subject in
    let currentMode := match currentMode with Ok m => m | Err _ => "" end in
    if decide (currentMode = "IMPORT") then writeMode registryCtx subject mode
    else
      let! hasSchemas := hasSubjects registryCtx subject in
      match hasSchemas with
      | Err err => Ret (Err err)
      | Ok true => Ret (fail ErrOperationNotPermitted)
      | Ok false => writeMode registryCtx subject mode
      end
  else writeMode registryCtx subject mode.

Definition DeleteGlobalMode (registryCtx : string) : prog (result string) :=
  let! mode := invoke (CGetGlobalMode registryCtx) in
  let prevMode := match mode with Ok m => Mode m | Err _ => "READWRITE" end in
  let! r := invoke (CDeleteGlobalMode registryCtx) in
  match r with
  | Ok _ => Ret (Ok prevMode)
  | Err err => Ret (Err err)
  end.

Definition DeleteMode (registryCtx subject : string) : prog (result string) :=
  if decide (subject = "") then DeleteGlobalMode registryCtx
  else
    let! mode := invoke (CGetMode registryCtx subject) in
    match mode with
    | Err err => Ret (Err err)
    | Ok mode =>
        let! r := invoke (CDeleteMode registryCtx subject) in
        match r with
        | Ok _ => Ret (Ok (Mode mode))
        | Err err => Ret (Err err)
        end
    end.

(** The mode that blocks writes, or the empty string. *)
Definition CheckModeForWrite (registryCtx subject : string) : prog (result string) :=
  let! mode := GetMode registryCtx subject in
  match mode with
  | Err err => Ret (Err (Errorf_w "failed to check mode: " err ""))
  | Ok mode =>
      if bool_decide (mode = "READONLY") || bool_decide (mode = "READONLY_OVERRIDE")
      then Ret (Ok mode) else Ret (Ok "")
  end.

(** ** Configuration and modes: what the fallbacks compute

    Each chain of storage calls is a lookup in a list of tiers; the theorems
    give its value on the in-memory backend, and what SetConfig and SetMode
    change. *)


(** ** Tiers *)

Definition or_else {A} (o : option A) (d : option A) : option A := match o with Some a => Some a | None => d end.

Definition subject_tier {A} (subject : string) (m : gmap string A) : option A :=
  if decide (subject = "") then None else m !! subject.

(** Subject, context, cross-context. *)
Definition effectiveConfig (s : Store) (registryCtx subject : string) : option ConfigRecord :=
  or_else (subject_tier subject (configs (ctx s registryCtx)))
    (or_else (globalConfig (ctx s registryCtx)) (globalConfig (ctx s RegContext.GlobalContext))).

Definition effectiveFlag (flag : ConfigRecord -> option bool) (s : Store) (registryCtx subject : string)
    : option bool :=
  or_else (subject_tier subject (configs (ctx s registryCtx)) ≫= flag)
    (or_else (globalConfig (ctx s registryCtx) ≫= flag)
             (globalConfig (ctx s RegContext.GlobalContext) ≫= flag)).

(** The kill switch, then the same tiers. *)
Definition killSwitch (s : Store) : bool :=
  match or_else (globalMode (ctx s RegContext.DefaultContext)) (globalMode (ctx s RegContext.GlobalContext)) with
  | Some m => bool_decide (Mode m = "READONLY_OVERRIDE")
  | None => false
  end.

Definition effectiveMode (s : Store) (registryCtx subject : string) : string :=
  if killSwitch s then "READONLY_OVERRIDE"
  else
    match or_else (subject_tier subject (modes (ctx s registryCtx)))
            (or_else (globalMode (ctx s registryCtx)) (globalMode (ctx s RegContext.GlobalContext))) with
    | Some m => Mode m
    | None => "READWRITE"
    end.

(** ** The storage's answers *)

Definition found {A} (o : option A) : result A := match o with Some a => Ok a | None => fail ErrNotFound end.

Lemma store_GetConfig c subject s : MemStore.GetConfig c subject s = found (configs (ctx s c) !! subject).
Proof.
  unfold MemStore.GetConfig, getContext, ctx. destruct (contexts s !! c) as [cs|]; simpl.
  - by destruct (configs cs !! subject).
  - by rewrite lookup_empty.
Qed.

Lemma store_GetGlobalConfig c s : MemStore.GetGlobalConfig c s = found (globalConfig (ctx s c)).
Proof.
  unfold MemStore.GetGlobalConfig, getContext, ctx. destruct (contexts s !! c) as [cs|]; simpl; [|done].
  by destruct (globalConfig cs).
Qed.

Lemma store_GetMode c subject s : MemStore.GetMode c subject s = found (modes (ctx s c) !! subject).
Proof.
  unfold MemStore.GetMode, getContext, ctx. destruct (contexts s !! c) as [cs|]; simpl.
  - by destruct (modes cs !! subject).
  - by rewrite lookup_empty.
Qed.

Lemma store_GetGlobalMode c s : MemStore.GetGlobalMode c s = found (globalMode (ctx s c)).
Proof.
  unfold MemStore.GetGlobalMode, getContext, ctx. destruct (contexts s !! c) as [cs|]; simpl; [|done].
  by destruct (globalMode cs).
Qed.

#[export] Hint Rewrite store_GetConfig store_GetGlobalConfig store_GetMode store_GetGlobalMode : registry.

(** Runs a chain of lookups, splitting on the tiers it meets. *)
Ltac run_tiers :=
  repeat first
    [ progress (simpl; autorewrite with registry)
    | match goal with
      | |- context [match found ?o with Ok _ => Ret _ | _ => _ end] => destruct o eqn:?
      | |- context [decide ?P] => destruct (decide P); try congruence
      end ];
  subst; do 4 (try match goal with H : _ = _ |- _ => progress (rewrite !H; simpl); clear H end); try done.

Lemma run_GetConfig defaultConfig registryCtx subject ρ s :
  run (GetConfig defaultConfig registryCtx subject) ρ s =
    (Ok (from_opt defaultConfig (CompatibilityLevel <$> effectiveConfig s registryCtx subject)), s).
Proof. unfold GetConfig, effectiveConfig, subject_tier. run_tiers. Qed.

Lemma run_GetConfigFull defaultConfig registryCtx subject ρ s :
  run (GetConfigFull defaultConfig registryCtx subject) ρ s =
    (Ok (from_opt (level_config defaultConfig) (effectiveConfig s registryCtx subject)), s).
Proof. unfold GetConfigFull, effectiveConfig, subject_tier. run_tiers. Qed.

Lemma run_configFlag flag registryCtx subject ρ s :
  run (configFlag flag registryCtx subject) ρ s =
    (from_opt false (effectiveFlag flag s registryCtx subject), s).
Proof.
  unfold configFlag, effectiveFlag, subject_tier.
  assert (Hv : forall o, match found o with Ok c => flag c | Err _ => None end = o ≫= flag) by (by intros []).
  repeat first
    [ progress (simpl; autorewrite with registry; rewrite ?Hv)
    | match goal with |- context [run (match ?o ≫= flag with _ => _ end)] => destruct (o ≫= flag) eqn:? end
    | case_decide ]; simpl; subst; try congruence;
    match goal with H : _ ≫= flag = None |- _ => by rewrite H end.
Qed.

(** The compatibility level of a subject is that of its own
    configuration, else of its context, else of the cross-context one, else the
    server default; the full record and the flags follow the same tiers. *)
Theorem config_chain defaultConfig registryCtx subject flag ρ s :
  run (GetConfig defaultConfig registryCtx subject) ρ s =
    (Ok (from_opt defaultConfig (CompatibilityLevel <$> effectiveConfig s registryCtx subject)), s) /\
  run (GetConfigFull defaultConfig registryCtx subject) ρ s =
    (Ok (from_opt (level_config defaultConfig) (effectiveConfig s registryCtx subject)), s) /\
  run (configFlag flag registryCtx subject) ρ s =
    (from_opt false (effectiveFlag flag s registryCtx subject), s).
Proof.
  split_and!; [apply run_GetConfig|apply run_GetConfigFull|apply run_configFlag].
Qed.

Lemma config_chain_cross_context : exists s,
  run (GetConfig "BACKWARD" ".team" "orders") (fun _ => env0) s = (Ok "FULL", s).
Proof.
  eexists (snd (run (SetConfig RegContext.GlobalContext "" "full" None None) (fun _ => env0) NewStore)).
  reflexivity.
Qed.

(** ** Modes *)

Lemma run_GetMode registryCtx subject ρ s :
  run (GetMode registryCtx subject) ρ s = (Ok (effectiveMode s registryCtx subject), s).
Proof.
  unfold GetMode, resolveGlobalMode, effectiveMode, killSwitch, subject_tier.
  simpl. autorewrite with registry.
  destruct (globalMode (ctx s RegContext.DefaultContext)) as [d|] eqn:Ed; simpl;
    [|autorewrite with registry; destruct (globalMode (ctx s RegContext.GlobalContext)) as [g|] eqn:Eg; simpl];
    repeat first
      [ progress (simpl; autorewrite with registry)
      | match goal with |- context [match found ?o with Ok _ => Ret _ | _ => _ end] => destruct o eqn:? end
      | case_decide | case_bool_decide ]; subst; simpl; try congruence;
    repeat match goal with H : globalMode _ = _ |- _ => rewrite H in *; clear H end; simpl; congruence.
Qed.

Lemma run_CheckModeForWrite registryCtx subject ρ s :
  run (CheckModeForWrite registryCtx subject) ρ s =
  (Ok (if decide (effectiveMode s registryCtx subject ∈ ["READONLY"; "READONLY_OVERRIDE"])
       then effectiveMode s registryCtx subject else ""), s).
Proof.
  unfold CheckModeForWrite. rewrite run_bind, run_GetMode.
  repeat case_bool_decide; case_decide; simpl; set_solver.
Qed.

(** GetMode answers READONLY_OVERRIDE for every subject of every
    context while the kill switch is on; otherwise the mode of the subject, else
    of its context, else the cross-context one, else READWRITE.  Writes are
    blocked exactly when that mode is READONLY or READONLY_OVERRIDE. *)
Theorem mode_chain registryCtx subject ρ s :
  run (GetMode registryCtx subject) ρ s = (Ok (effectiveMode s registryCtx subject), s) /\
  (killSwitch s = true -> effectiveMode s registryCtx subject = "READONLY_OVERRIDE") /\
  run (CheckModeForWrite registryCtx subject) ρ s =
    (Ok (if decide (effectiveMode s registryCtx subject ∈ ["READONLY"; "READONLY_OVERRIDE"])
         then effectiveMode s registryCtx subject else ""), s).
Proof.
  split_and!; [apply run_GetMode|by unfold effectiveMode; intros ->|apply run_CheckModeForWrite].
Qed.

(** The subject, or for the empty name some subject, has a live version. *)
Definition has_live (s : Store) (registryCtx subject : string) : Prop :=
  if decide (subject = "")
  then exists sub v info, MemInvariant.entry (ctx s registryCtx) sub v = Some info /\ deleted info = false
  else exists v info, MemInvariant.entry (ctx s registryCtx) subject v = Some info /\ deleted info = false.

Lemma run_hasSubjects registryCtx subject ρ s :
  exists b, run (hasSubjects registryCtx subject) ρ s = (Ok b, s) /\
    (b = true <-> has_live s registryCtx subject).
Proof.
  unfold hasSubjects, has_live. case_decide as D; simpl.
  - eexists; split; [done|]. rewrite negb_true_iff, bool_decide_eq_false.
    pose proof (elem_of_ListSubjects (ρ 0%nat) registryCtx false s) as Hl. split.
    + intros Hne. destruct (ListSubjects _ _ _ _) as [|sub l]; [done|].
      destruct (proj1 (Hl sub) ltac:(constructor)) as (vm & Hvm & [?|(v & info & Hv & Hd)]); [done|].
      exists sub, v, info. unfold MemInvariant.entry, versionMap. by rewrite Hvm.
    + intros (sub & v & info & Hv & Hd). unfold MemInvariant.entry, versionMap in Hv.
      destruct (subjectVersions (ctx s registryCtx) !! sub) as [vm|] eqn:E; simpl in Hv;
        [|by rewrite lookup_empty in Hv].
      assert (Hin : sub ∈ ListSubjects (ρ 0%nat) registryCtx false s) by (apply Hl; eauto 10).
      intros Hn. rewrite Hn in Hin. set_solver.
  - eexists; split; [done|]. apply SubjectExists_spec.
Qed.

Definition put_mode (s : Store) (registryCtx subject mode : string) : Store :=
  if decide (subject = "") then SetGlobalMode registryCtx (MkModeRecord "" mode) s
  else MemStore.SetMode registryCtx subject (MkModeRecord "" mode) s.

Lemma ctx_SetGlobalMode c m s c' :
  ctx (SetGlobalMode c m s) c' =
  if decide (c = c') then {| (ctx s c) with globalMode := Some {| m with ModeSubject := "" |} |} else ctx s c'.
Proof.
  unfold SetGlobalMode. destruct (getOrCreateContext s c) as [cs s1] eqn:E.
  apply getOrCreateContext_spec in E as [Ecs ->]. fold (ctx s c) in Ecs. subst cs.
  rewrite ctx_putContext, ctx_putContext. by repeat case_decide.
Qed.

Lemma ctx_SetMode c subject m s c' :
  ctx (MemStore.SetMode c subject m s) c' =
  if decide (c = c')
  then {| (ctx s c) with modes := <[subject := {| m with ModeSubject := subject |}]> (modes (ctx s c)) |}
  else ctx s c'.
Proof.
  unfold MemStore.SetMode. destruct (getOrCreateContext s c) as [cs s1] eqn:E.
  apply getOrCreateContext_spec in E as [Ecs ->]. fold (ctx s c) in Ecs. subst cs.
  rewrite ctx_putContext, ctx_putContext. by repeat case_decide.
Qed.

Lemma effectiveMode_put_mode s registryCtx subject mode :
  let s' := put_mode s registryCtx subject mode in
  effectiveMode s' registryCtx subject = if killSwitch s' then "READONLY_OVERRIDE" else mode.
Proof.
  intros s'. unfold effectiveMode. destruct (killSwitch s'); [done|].
  unfold subject_tier, s', put_mode. case_decide.
  - by rewrite ctx_SetGlobalMode, decide_True by done.
  - rewrite ctx_SetMode, decide_True by done. simpl. by rewrite lookup_insert_eq.
Qed.

(** SetMode refuses an unknown mode, and IMPORT without force for a
    subject or context with live schemas that is not in IMPORT mode yet; it
    then changes nothing.  Otherwise the new mode, in upper case, is the one
    GetMode answers, unless the kill switch is on. *)
Theorem SetMode_spec registryCtx subject mode force ρ ρ' s :
  let '(res, s') := run (SetMode registryCtx subject mode force) ρ s in
  match res with
  | Err err =>
      s' = s /\
      (errors_Is err ErrInvalidMode = true /\ isValidMode (ToUpper mode) = false \/
       err = sentinel_err ErrOperationNotPermitted /\ ToUpper mode = "IMPORT" /\ force = false /\
       effectiveMode s registryCtx subject <> "IMPORT" /\ has_live s registryCtx subject)
  | Ok _ =>
      isValidMode (ToUpper mode) = true /\
      (ToUpper mode = "IMPORT" ->
         force = true \/ effectiveMode s registryCtx subject = "IMPORT" \/ ~ has_live s registryCtx subject) /\
      run (GetMode registryCtx subject) ρ' s' =
        (Ok (if killSwitch s' then "READONLY_OVERRIDE" else ToUpper mode), s') /\
      forall c, c <> registryCtx -> contexts s' !! c = contexts s !! c
  end.
Proof.
  unfold SetMode. set (m := ToUpper mode).
  destruct (isValidMode m) eqn:Ev; cbn [negb]; [|by split; [|left]].
  assert (Hstore : forall ρ0, run (writeMode registryCtx subject m) ρ0 s = (Ok tt, put_mode s registryCtx subject m)).
  { intros ρ0. unfold writeMode, put_mode. by case_decide. }
  assert (Hfr : forall c, c <> registryCtx -> contexts (put_mode s registryCtx subject m) !! c = contexts s !! c).
  { intros c Hc. unfold put_mode. case_decide.
    - apply (MemSteps.contexts_apply_op env0 registryCtx (MemSteps.OpSetGlobalMode _) s c Hc).
    - apply (MemSteps.contexts_apply_op env0 registryCtx (MemSteps.OpSetMode subject _) s c Hc). }
  assert (Hget := run_GetMode registryCtx subject ρ' (put_mode s registryCtx subject m)).
  rewrite effectiveMode_put_mode in Hget.
  destruct (bool_decide (m = "IMPORT") && negb force) eqn:Eg.
  - apply andb_prop in Eg as [Em%bool_decide_eq_true Ef%negb_true_iff].
    rewrite run_bind, run_GetMode. case_decide as E; [rewrite Hstore; split_and!; auto|].
    rewrite run_bind.
    match goal with |- context [run (hasSubjects _ _) ?r s] =>
      destruct (run_hasSubjects registryCtx subject r s) as (b & -> & Hb) end.
    destruct b; [split; [done|right]; split_and!; try done; by apply Hb|].
    rewrite Hstore. split_and!; auto. intros _. right; right. intros H%Hb. done.
  - rewrite Hstore. split_and!; auto. intros Hm. left. destruct force; [done|].
    rewrite Hm in Eg. done.
Qed.
