(* ===== verification/RegistryMeta.v ===== *)
(** * Metadata and rule sets: internal/registry/registry.go

    The confluent:version property, the comparison and the three-layer merge of
    metadata and rule sets, and the reserved fields. *)
From S2P Require Import Prelude GoStrings StorageTypes StorageIface RegistryConfig.
From Stdlib Require Import Ascii String.

Local Open Scope prog_scope.
Local Open Scope string_scope.

Definition cv_key : string := "confluent:version".

(** ** confluent:version *)

Definition extractConfluentVersionTarget (meta : option Metadata) : Z :=
  match meta ≫= Properties with
  | None => 0
  | Some props =>
      match props !! cv_key with
      | None => 0
      | Some cvStr =>
          match Atoi cvStr with
          | None => 0
          | Some cv => if (cv <=? 0)%Z then 0 else cv
          end
      end
  end.

Definition stripConfluentVersion (meta : option Metadata) : option Metadata :=
  match meta with
  | None => None
  | Some m =>
      match Properties m with
      | None => meta
      | Some props =>
          match props !! cv_key with
          | None => meta
          | Some _ =>
              let newProps := delete cv_key props in
              let newProps := if decide (newProps = ∅) then None else Some newProps in
              let result := {| m with Properties := newProps |} in
              if decide (result = no_Metadata) then None else Some result
          end
      end
  end.

Definition autoPopulateConfluentVersion (record : SchemaRecord) : SchemaRecord :=
  if (Version record <=? 0)%Z then record
  else
    let meta := from_opt no_Metadata (SchemaMetadata record) in
    let props := <[cv_key := Itoa (Version record)]> (from_opt ∅ (Properties meta)) in
    {| record with SchemaMetadata := Some {| meta with Properties := Some props |} |}.

(** ** Comparison: [reflect.DeepEqual] after nil is replaced by the empty struct *)

Definition metadataEqual (a b : option Metadata) : bool :=
  bool_decide (from_opt no_Metadata a = from_opt no_Metadata b).

Definition metadataEqualForDedup (a b : option Metadata) : bool :=
  metadataEqual (stripConfluentVersion a) (stripConfluentVersion b).

Definition ruleSetEqual (a b : option RuleSet) : bool :=
  bool_decide (from_opt no_RuleSet a = from_opt no_RuleSet b).

(** ** Merging *)

(** A map built by two loops: the second one's entries win. *)
Definition mergeMaps {A} (base override : option (gmap string A)) : option (gmap string A) :=
  match base, override with
  | None, None => None
  | _, _ => Some (from_opt ∅ override ∪ from_opt ∅ base)
  end.

(** Appends what was not seen before; nil when nothing was appended. *)
Fixpoint appendNew (seen : list string) (l : list string) : list string :=
  match l with
  | [] => []
  | x :: l => if bool_decide (x ∈ seen) then appendNew seen l else x :: appendNew (x :: seen) l
  end.

Definition mergeSensitive (base override : option (list string)) : option (list string) :=
  match appendNew [] (from_opt [] base ++ from_opt [] override)%list with
  | [] => None
  | l => Some l
  end.

Definition mergeMetadata (base override : option Metadata) : option Metadata :=
  match base, override with
  | None, _ => override
  | _, None => base
  | Some b, Some o =>
      Some (MkMetadata (mergeMaps (Tags b) (Tags o)) (mergeMaps (Properties b) (Properties o))
              (mergeSensitive (Sensitive b) (Sensitive o)))
  end.

(** [overrideMap\[name\]]: the last rule of that name. *)
Definition overrideRule (override : list Rule) (name : string) : option Rule :=
  last (List.filter (fun r => bool_decide (RuleName r = name)) override).

(** The base rules with their overrides, then the overrides no base rule met. *)
Definition mergeRuleLists (base override : list Rule) : list Rule :=
  let seen name :=
    existsb (fun r => bool_decide (RuleName r = name) && bool_decide (is_Some (overrideRule override name))) base in
  (map (fun r => from_opt r (overrideRule override (RuleName r))) base ++
   List.filter (fun r => negb (seen (RuleName r))) override)%list.

Definition mergeRules (base override : option (list Rule)) : option (list Rule) :=
  match from_opt [] base, from_opt [] override with
  | [], [] => None
  | [], _ => override
  | _, [] => base
  | b, o => Some (mergeRuleLists b o)
  end.

Definition mergeRuleSet (base override : option RuleSet) : option RuleSet :=
  match base, override with
  | None, _ => override
  | _, None => base
  | Some b, Some o =>
      Some (MkRuleSet (mergeRules (MigrationRules b) (MigrationRules o))
              (mergeRules (DomainRules b) (DomainRules o))
              (mergeRules (EncodingRules b) (EncodingRules o)))
  end.

Record RegisterOpts := MkRegisterOpts {
  OptNormalize : bool;
  OptMetadata : option Metadata;
  OptRuleSet : option RuleSet
}.

(** [x] unless it is nil. *)
Definition keep_old {A} (x old : option A) : option A := match x with Some _ => x | None => old end.

(** The three layers, on values. *)
Definition mergeOpts (config : ConfigRecord) (opts : RegisterOpts) (prevSchema : option SchemaRecord)
    : RegisterOpts :=
  let specificMeta := keep_old (OptMetadata opts) (prevSchema ≫= SchemaMetadata) in
  let merged := mergeMetadata (mergeMetadata (DefaultMetadata config) specificMeta) (OverrideMetadata config) in
  let specificRules := keep_old (OptRuleSet opts) (prevSchema ≫= SchemaRuleSet) in
  let mergedRules := mergeRuleSet (mergeRuleSet (DefaultRuleSet config) specificRules) (OverrideRuleSet config) in
  {| opts with OptMetadata := keep_old merged (OptMetadata opts);
               OptRuleSet := keep_old mergedRules (OptRuleSet opts) |}.

Definition maybeSetMetadataRuleSet (defaultConfig registryCtx subject : string) (opts : RegisterOpts)
    (prevSchema : option SchemaRecord) : prog RegisterOpts :=
  let! config := GetConfigFull defaultConfig registryCtx subject in
  match config with
  | Err _ => Ret opts
  | Ok config => Ret (mergeOpts config opts prevSchema)
  end.

(** ** Reserved fields *)

(** A set kept as a map to [true]; nil and the empty map read the same. *)
Definition getReservedFields (metadata : option Metadata) : gmap string bool :=
  match metadata ≫= Properties with
  | None => ∅
  | Some props =>
      match props !! "confluent:reserved" with
      | None => ∅
      | Some val =>
          if decide (val = "") then ∅
          else
            fold_left (fun fields f =>
                let f := TrimSpace f in
                if decide (f = "") then fields else <[f := true]> fields)
              (Split val ","%char) ∅
      end
  end.

(** ** Lemmas *)

Lemma metadataEqual_refl m : metadataEqual m m = true.
Proof. by apply bool_decide_eq_true. Qed.

Lemma ruleSetEqual_refl r : ruleSetEqual r r = true.
Proof. by apply bool_decide_eq_true. Qed.

Lemma mergeMaps_lookup {A} (base override : option (gmap string A)) k :
  from_opt ∅ (mergeMaps base override) !! k =
  match from_opt ∅ override !! k with Some a => Some a | None => from_opt ∅ base !! k end.
Proof.
  destruct base as [b|], override as [o|]; simpl; rewrite ?lookup_union, ?lookup_empty;
    repeat match goal with |- context [?m !! k] => destruct (m !! k) end; done.
Qed.

Lemma elem_of_appendNew l : forall seen x, x ∈ appendNew seen l <-> x ∈ l /\ x ∉ seen.
Proof.
  induction l as [|y l IH]; intros seen x; simpl; [set_solver|].
  case_bool_decide; rewrite ?elem_of_cons, IH; [set_solver|].
  destruct (decide (x = y)); set_solver.
Qed.

Lemma NoDup_appendNew l : forall seen, NoDup (appendNew seen l).
Proof.
  induction l as [|y l IH]; intros seen; simpl; [apply NoDup_nil_2|].
  case_bool_decide; [apply IH|]. apply NoDup_cons. rewrite elem_of_appendNew. set_solver.
Qed.

Lemma mergeSensitive_spec base override :
  NoDup (from_opt [] (mergeSensitive base override)) /\
  forall x, x ∈ from_opt [] (mergeSensitive base override) <->
    x ∈ from_opt [] base \/ x ∈ from_opt [] override.
Proof.
  assert (E : from_opt [] (mergeSensitive base override) =
    appendNew [] (from_opt [] base ++ from_opt [] override)%list).
  { unfold mergeSensitive. by destruct (appendNew _ _). }
  rewrite E. split; [apply NoDup_appendNew|]. intros x. rewrite elem_of_appendNew, elem_of_app. set_solver.
Qed.

(** The value a layer gives a property. *)
Definition property (m : option Metadata) (k : string) : option string :=
  from_opt ∅ (m ≫= Properties) !! k.

Definition tag (m : option Metadata) (k : string) : option (option (list string)) :=
  from_opt ∅ (m ≫= Tags) !! k.

Definition sensitive (m : option Metadata) : list string := from_opt [] (m ≫= Sensitive).

Lemma mergeMetadata_property base override k :
  property (mergeMetadata base override) k =
  match property override k with Some v => Some v | None => property base k end.
Proof.
  destruct base as [b|], override as [o|]; unfold property; simpl; rewrite ?lookup_empty; try done.
  - apply mergeMaps_lookup.
  - by destruct (_ !! k).
Qed.

Lemma mergeMetadata_tag base override k :
  tag (mergeMetadata base override) k =
  match tag override k with Some v => Some v | None => tag base k end.
Proof.
  destruct base as [b|], override as [o|]; unfold tag; simpl; rewrite ?lookup_empty; try done.
  - apply mergeMaps_lookup.
  - by destruct (_ !! k).
Qed.

Lemma mergeMetadata_sensitive base override x :
  x ∈ sensitive (mergeMetadata base override) <-> x ∈ sensitive base \/ x ∈ sensitive override.
Proof.
  destruct base as [b|], override as [o|]; unfold sensitive; simpl; [apply mergeSensitive_spec|set_solver..].
Qed.

(** The metadata of a registration is merged in three layers: the
    override configuration wins over the request (or, without one, the previous
    version), which wins over the default configuration; sensitive names are
    the union of the three. *)
Theorem mergeOpts_layers config opts prevSchema k :
  let specific := keep_old (OptMetadata opts) (prevSchema ≫= SchemaMetadata) in
  let merged := OptMetadata (mergeOpts config opts prevSchema) in
  property merged k =
    match property (OverrideMetadata config) k with
    | Some v => Some v
    | None => match property specific k with
              | Some v => Some v
              | None => property (DefaultMetadata config) k
              end
    end /\
  tag merged k =
    match tag (OverrideMetadata config) k with
    | Some v => Some v
    | None => match tag specific k with
              | Some v => Some v
              | None => tag (DefaultMetadata config) k
              end
    end /\
  (forall x, x ∈ sensitive merged <->
     x ∈ sensitive (DefaultMetadata config) \/ x ∈ sensitive specific \/ x ∈ sensitive (OverrideMetadata config)).
Proof.
  cbv zeta. unfold mergeOpts; simpl. set (specific := keep_old (OptMetadata opts) (prevSchema ≫= SchemaMetadata)).
  set (m := mergeMetadata (mergeMetadata _ specific) _).
  assert (Hm : m = None -> OptMetadata opts = None).
  { unfold m, specific. destruct (DefaultMetadata config), (OptMetadata opts), (OverrideMetadata config); done. }
  assert (E : keep_old m (OptMetadata opts) = m).
  { destruct m; [done|]. simpl. by apply Hm. }
  rewrite E. unfold m. split_and!.
  - by rewrite !mergeMetadata_property.
  - by rewrite !mergeMetadata_tag.
  - intros x. rewrite !mergeMetadata_sensitive. naive_solver.
Qed.

Lemma strip_populate record :
  (0 < Version record)%Z ->
  SchemaMetadata record ≫= Properties <> Some ∅ ->
  from_opt no_Metadata (stripConfluentVersion (SchemaMetadata (autoPopulateConfluentVersion record))) =
  from_opt no_Metadata (stripConfluentVersion (SchemaMetadata record)).
Proof.
  intros Hv Hp. unfold autoPopulateConfluentVersion.
  destruct (Z.leb_spec (Version record) 0) as [|_]; [lia|]. simpl.
  rewrite lookup_insert_eq. rewrite delete_insert_eq.
  destruct (SchemaMetadata record) as [[tags [props|] sens]|]; simpl in *.
  - destruct (props !! cv_key) as [v|] eqn:E.
    + done.
    + rewrite delete_id by done. destruct (decide (props = ∅)) as [->|]; [by destruct Hp|].
      by case_decide.
  - rewrite delete_empty, (decide_True (P := ∅ = ∅)) by done. case_decide as D; simpl; [by rewrite D|done].
  - rewrite delete_empty, (decide_True (P := ∅ = ∅)) by done. by case_decide.
Qed.

(** The version number the registry puts into a response is the one
    a later request asks for with it, and the metadata of the response counts
    as equal to the stored metadata, unless that has an empty property map. *)
Theorem confluentVersion_roundtrip record :
  (0 < Version record)%Z -> Int64.in_range (Version record) ->
  SchemaMetadata record ≫= Properties <> Some ∅ ->
  extractConfluentVersionTarget (SchemaMetadata (autoPopulateConfluentVersion record)) = Version record /\
  metadataEqualForDedup (SchemaMetadata (autoPopulateConfluentVersion record)) (SchemaMetadata record) = true.
Proof.
  intros Hv Hr Hp. split.
  - unfold autoPopulateConfluentVersion. destruct (Z.leb_spec (Version record) 0) as [|_]; [lia|].
    unfold extractConfluentVersionTarget. simpl. rewrite lookup_insert_eq, Atoi_Itoa by done.
    by destruct (Z.leb_spec (Version record) 0); [lia|].
  - apply bool_decide_eq_true. by apply strip_populate.
Qed.

Definition registered (v : Z) (m : option Metadata) : SchemaRecord :=
  MkSchemaRecord 1 "orders" v SchemaTypeAvro "[string]" [] m None "f" false 0.

Lemma confluentVersion_roundtrip_witness :
  extractConfluentVersionTarget (SchemaMetadata (autoPopulateConfluentVersion (registered 7 None))) = 7%Z.
Proof.
  apply (confluentVersion_roundtrip (registered 7 None)); [reflexivity| |discriminate].
  split; vm_compute; discriminate.
Defined.

(** Finding: with an empty property map the response does not count as equal, so
    sending it back registers one more version. *)
Example empty_properties_not_equal :
  let m := Some (MkMetadata None (Some ∅) None) in
  metadataEqualForDedup (SchemaMetadata (autoPopulateConfluentVersion (registered 1 m))) m = false.
Proof. reflexivity. Qed.

(** Rules: what [mergeRules] keeps, replaces and appends. *)
Lemma overrideRule_name o name r : overrideRule o name = Some r -> r ∈ o /\ RuleName r = name.
Proof.
  unfold overrideRule. intros H%last_Some_elem_of.
  apply list_elem_of_In, filter_In in H as [Hin Hn].
  by rewrite <- list_elem_of_In in Hin; apply bool_decide_eq_true in Hn.
Qed.

Lemma overrideRule_None o name : overrideRule o name = None <-> forall r, r ∈ o -> RuleName r <> name.
Proof.
  unfold overrideRule. rewrite last_None. split.
  - intros H r Hin Hn. assert (Hf : r ∈ List.filter (fun r => bool_decide (RuleName r = name)) o).
    { apply list_elem_of_In, filter_In. rewrite <- list_elem_of_In. split; [done|]. by apply bool_decide_eq_true. }
    rewrite H in Hf. set_solver.
  - intros H. destruct (List.filter _ o) as [|r l] eqn:E; [done|].
    assert (Hin : In r (List.filter (fun r => bool_decide (RuleName r = name)) o)) by (rewrite E; left; done).
    apply filter_In in Hin as [Hin Hn%bool_decide_eq_true]. by destruct (H r); [apply list_elem_of_In|].
Qed.

Lemma elem_of_mergeRuleLists base override r :
  r ∈ mergeRuleLists base override <->
  (r ∈ base /\ overrideRule override (RuleName r) = None) \/
  (exists b, b ∈ base /\ overrideRule override (RuleName b) = Some r) \/
  (r ∈ override /\ forall b, b ∈ base -> RuleName b <> RuleName r).
Proof.
  unfold mergeRuleLists. rewrite elem_of_app, list_elem_of_fmap.
  rewrite (list_elem_of_In (List.filter _ _)), filter_In, <- list_elem_of_In, negb_true_iff.
  assert (Hseen : r ∈ override ->
    existsb (fun r0 => bool_decide (RuleName r0 = RuleName r) &&
                       bool_decide (is_Some (overrideRule override (RuleName r)))) base = false <->
    forall b, b ∈ base -> RuleName b <> RuleName r).
  { intros Hr. rewrite <- not_true_iff_false, existsb_exists.
    setoid_rewrite andb_true_iff. setoid_rewrite bool_decide_eq_true. setoid_rewrite <- list_elem_of_In.
    assert (is_Some (overrideRule override (RuleName r))).
    { destruct (overrideRule override (RuleName r)) eqn:E; [eauto|].
      by rewrite overrideRule_None in E; destruct (E r Hr). }
    naive_solver. }
  split.
  - intros [(b & -> & Hb)|[Hr Hs]]; [|right; right; split; [done|by apply Hseen]].
    destruct (overrideRule override (RuleName b)) as [o|] eqn:E; simpl; [right; left; eauto|left; done].
  - intros [[Hr E]|[(b & Hb & E)|[Hr Hn]]].
    + left. exists r. by rewrite E.
    + left. exists b. by rewrite E.
    + right. split; [done|]. by apply Hseen.
Qed.

(** Merging rule lists keeps the base rules without an override of
    their name, puts the last override of that name in the place of the others,
    and appends the overrides whose name no base rule has. *)
Theorem mergeRules_spec base override r :
  r ∈ from_opt [] (mergeRules base override) <->
  (r ∈ from_opt [] base /\ overrideRule (from_opt [] override) (RuleName r) = None) \/
  (exists b, b ∈ from_opt [] base /\ overrideRule (from_opt [] override) (RuleName b) = Some r) \/
  (r ∈ from_opt [] override /\ forall b, b ∈ from_opt [] base -> RuleName b <> RuleName r).
Proof.
  unfold mergeRules.
  destruct (from_opt [] base) as [|b0 bs] eqn:Eb, (from_opt [] override) as [|o0 os] eqn:Eo; simpl.
  - set_solver.
  - rewrite Eo. set_solver.
  - rewrite Eb. split; [|set_solver]. intros H. left. split; [done|]. apply overrideRule_None. set_solver.
  - apply elem_of_mergeRuleLists.
Qed.
