(* ===== verification/RegistryRefs.v ===== *)
(** * References between schemas: internal/registry/registry.go

    resolveReferences follows the references of a schema through the storage,
    depth first.  Its recursion is bounded by [fuel]; [None] is a run that ran
    out of it, and [resolveReferences_total] gives the fuel that suffices.
    The second half proves termination and the order of what is resolved. *)
From S2P Require Import Prelude GoStrings StorageTypes MemState MemStore MemInvariant MemStoreFacts MemQueries StorageIface.
From Stdlib Require Import Ascii String.

Local Open Scope prog_scope.
Local Open Scope string_scope.

(** Sequencing of programs that may run out of fuel. *)
Definition bind_fuel {A B} (p : prog (option A)) (f : A -> prog (option B)) : prog (option B) :=
  bind p (fun o => match o with Some a => f a | None => Ret None end).
Definition ret_fuel {A} (a : A) : prog (option A) := Ret (Some a).
Notation "'let?' x := p 'in' q" := (bind_fuel p (fun x => q))
  (at level 10, x pattern, p at level 100, q at level 200) : prog_scope.

(** [fmt.Sprintf("%s:%d", ref.Subject, ref.Version)] *)
Definition refKey (ref : Reference) : string := RefSubject ref ++ ":" ++ Itoa (RefVersion ref).

(** ** computeGlobalFingerprint *)

Definition ref_before (a b : Reference) : bool :=
  if decide (RefSubject a = RefSubject b) then
    if decide (RefVersion a = RefVersion b) then String.ltb (RefName a) (RefName b)
    else (RefVersion a <? RefVersion b)%Z
  else String.ltb (RefSubject a) (RefSubject b).

(** The order of [sort.Slice]'s result; equal keys are equal in all that is printed. *)
Definition ref_le (a b : Reference) : Prop := ref_before b a = false.
#[export] Instance ref_le_dec a b : Decision (ref_le a b).
Proof. unfold ref_le. apply _. Defined.

(** [fmt.Fprintf(h, "\x00%s\x00%s\x00%d", ref.Name, ref.Subject, ref.Version)] *)
Definition ref_text (ref : Reference) : string :=
  String "000" (RefName ref ++ String "000" (RefSubject ref ++ String "000" (Itoa (RefVersion ref)))).

(** [sha256_hex] is the hash of crypto/sha256 in hexadecimal. *)
Definition computeGlobalFingerprint (sha256_hex : string -> string) (schemaFingerprint : string)
    (refs : list Reference) : string :=
  match refs with
  | [] => schemaFingerprint
  | _ =>
      sha256_hex (schemaFingerprint ++
        fold_right (fun ref text => ref_text ref ++ text) "" (merge_sort ref_le refs))
  end.

(** ** resolveReferences *)

(** The text of [%q] for the printable names references have. *)
Definition quoted (s : string) : string := String "034" (s ++ String "034" "").

Definition resolve_error (ref : Reference) (err : error) : error :=
  Errorf_w ("failed to resolve reference " ++ quoted (RefName ref) ++ " (subject=" ++ RefSubject ref
            ++ ", version=" ++ Itoa (RefVersion ref) ++ "): ") err "".

Definition resolved_ref (ref : Reference) (record : SchemaRecord) : Reference :=
  MkReference (RefName ref) (RefSubject ref) (RefVersion ref) (Schema record).

(** The loop of the closure [resolve], given the closure for the recursive call.
    The state is [seen] and [resolved]. *)
Fixpoint resolveLoop (registryCtx : string)
    (rec : list Reference -> gset string * list Reference
           -> prog (option (result (gset string * list Reference))))
    (refs : list Reference) (st : gset string * list Reference)
    : prog (option (result (gset string * list Reference))) :=
  match refs with
  | [] => ret_fuel (Ok st)
  | ref :: refs =>
      let '(seen, resolved) := st in
      if decide (refKey ref ∈ seen) then resolveLoop registryCtx rec refs st
      else
        let st := ({[refKey ref]} ∪ seen, resolved) in
        let! record := invoke (CGetSchemaBySubjectVersion registryCtx (RefSubject ref) (RefVersion ref)) in
        match record with
        | Err err => ret_fuel (Err (resolve_error ref err))
        | Ok record =>
            let? inner := match References record with
                          | [] => ret_fuel (Ok st)
                          | deps => rec deps st
                          end in
            match inner with
            | Err err => ret_fuel (Err err)
            | Ok (seen, resolved) =>
                resolveLoop registryCtx rec refs (seen, (resolved ++ [resolved_ref ref record])%list)
            end
        end
  end.

Fixpoint resolve (fuel : nat) (registryCtx : string) (refs : list Reference)
    (st : gset string * list Reference) : prog (option (result (gset string * list Reference))) :=
  match fuel with
  | O => Ret None
  | S fuel => resolveLoop registryCtx (resolve fuel registryCtx) refs st
  end.

Definition resolveReferences (fuel : nat) (registryCtx : string) (refs : list Reference)
    : prog (option (result (list Reference))) :=
  match refs with
  | [] => ret_fuel (Ok refs)
  | _ =>
      let? r := resolve fuel registryCtx refs (∅, []) in
      match r with
      | Err err => ret_fuel (Err err)
      | Ok (_, resolved) => ret_fuel (Ok resolved)
      end
  end.

(** ** References: termination and order of resolution

    On the in-memory backend the run of resolveReferences is a pure function of
    the store, [resolvePure]; it ends within a fuel the store bounds, resolves
    every dependency once, and puts dependencies before dependents. *)
From stdpp Require Import fin_sets.


(** ** The pure function *)

Definition look (s : Store) (registryCtx : string) (ref : Reference) : result SchemaRecord :=
  MemStore.GetSchemaBySubjectVersion env0 registryCtx (RefSubject ref) (RefVersion ref) s.

Lemma GetSchemaBySubjectVersion_env e e' c subject v s :
  MemStore.GetSchemaBySubjectVersion e c subject v s = MemStore.GetSchemaBySubjectVersion e' c subject v s.
Proof.
  unfold MemStore.GetSchemaBySubjectVersion. destruct (getContext s c) as [cs|]; [|done].
  by rewrite (latest_version_det e e').
Qed.

Abbreviation state := (gset string * list Reference)%type.

Section pure.
Context (s : Store) (registryCtx : string).

Fixpoint pureLoop (rec : list Reference -> state -> option (result state))
    (refs : list Reference) (st : state) : option (result state) :=
  match refs with
  | [] => Some (Ok st)
  | ref :: refs =>
      if decide (refKey ref ∈ fst st) then pureLoop rec refs st
      else
        match look s registryCtx ref with
        | Err err => Some (Err (resolve_error ref err))
        | Ok record =>
            let st := ({[refKey ref]} ∪ fst st, snd st) in
            match (match References record with [] => Some (Ok st) | deps => rec deps st end) with
            | Some (Ok st) => pureLoop rec refs (fst st, (snd st ++ [resolved_ref ref record])%list)
            | r => r
            end
        end
  end.

Fixpoint resolvePure (fuel : nat) (refs : list Reference) (st : state) : option (result state) :=
  match fuel with
  | O => None
  | S fuel => pureLoop (resolvePure fuel) refs st
  end.

Lemma run_resolveLoop rec prec :
  (forall refs st ρ, run (rec refs st) ρ s = (prec refs st, s)) ->
  forall refs st ρ, run (resolveLoop registryCtx rec refs st) ρ s = (pureLoop prec refs st, s).
Proof.
  intros Hrec refs. induction refs as [|ref refs IH]; intros [seen resolved] ρ; simpl; [done|].
  case_decide; [apply IH|]. simpl.
  rewrite (GetSchemaBySubjectVersion_env _ env0). fold (look s registryCtx ref).
  destruct (look s registryCtx ref) as [record|err]; [|done].
  unfold bind_fuel. rewrite run_bind. destruct (References record) as [|d deps]; simpl; [apply IH|].
  rewrite Hrec. destruct (prec _ _) as [[[seen' resolved']|err]|]; simpl; [apply IH|done|done].
Qed.

Lemma run_resolve fuel : forall refs st ρ,
  run (resolve fuel registryCtx refs st) ρ s = (resolvePure fuel refs st, s).
Proof.
  induction fuel as [|fuel IH]; intros refs st ρ; [done|]. simpl. by apply run_resolveLoop.
Qed.

(** ** Termination *)

(** The keys of the references that resolve, to a version or to the latest one. *)
Definition resolvable_keys : gset string :=
  list_to_set (map (fun '(subject, (v, _)) => (subject ++ ":" ++ Itoa v)%string) (entries env0 (ctx s registryCtx))
               ++ map (fun '(subject, _) => (subject ++ ":" ++ Itoa (-1))%string) (entries env0 (ctx s registryCtx)))%list.

Lemma look_resolvable ref record :
  look s registryCtx ref = Ok record -> refKey ref ∈ resolvable_keys.
Proof.
  unfold look, MemStore.GetSchemaBySubjectVersion, resolvable_keys, refKey.
  destruct (getContext s registryCtx) as [cs|] eqn:Eg; [|done]. apply getContext_Some in Eg. rewrite Eg.
  case_decide as Hne; [done|]. intros H. apply elem_of_list_to_set, elem_of_app.
  set (v := if (RefVersion ref =? -1)%Z then _ else _) in H.
  destruct (_ && _); [done|]. destruct (versionMap cs (RefSubject ref) !! v) as [info|] eqn:Ev; [|done].
  assert (Hin : (RefSubject ref, (v, info)) ∈ entries env0 cs) by (by apply elem_of_entries).
  destruct (Z.eqb_spec (RefVersion ref) (-1)) as [->|].
  - right. apply list_elem_of_fmap. by exists (RefSubject ref, (v, info)).
  - left. apply list_elem_of_fmap. by exists (RefSubject ref, (v, info)).
Qed.

Definition not_seen (seen : gset string) : nat := size (resolvable_keys ∖ seen).

Lemma not_seen_mono seen seen' : seen ⊆ seen' -> (not_seen seen' <= not_seen seen)%nat.
Proof. intros H. unfold not_seen. apply subseteq_size. set_solver. Qed.

Lemma not_seen_add ref record seen :
  look s registryCtx ref = Ok record -> refKey ref ∉ seen ->
  (not_seen ({[refKey ref]} ∪ seen) < not_seen seen)%nat.
Proof.
  intros Hl%look_resolvable Hn. unfold not_seen. apply subset_size. split; [set_solver|].
  intros H. specialize (H (refKey ref)). set_solver.
Qed.

Lemma resolvePure_total fuel : forall refs st,
  (not_seen (fst st) < fuel)%nat ->
  exists r, resolvePure fuel refs st = Some r /\
    match r with Ok st' => fst st ⊆ fst st' | Err _ => True end.
Proof.
  induction fuel as [|fuel IH]; intros refs st Hf; [lia|]. simpl.
  revert st Hf. induction refs as [|ref refs IHr]; intros st Hf; simpl; [by exists (Ok st)|].
  case_decide as Hs; [by apply IHr|].
  destruct (look s registryCtx ref) as [record|err] eqn:El; [|by exists (Err (resolve_error ref err))].
  set (st1 := ({[refKey ref]} ∪ fst st, snd st)).
  assert (Hlt := not_seen_add ref record (fst st) El Hs).
  assert (Hin : exists r, match References record with [] => Some (Ok st1) | deps => resolvePure fuel deps st1 end = Some r
    /\ match r with Ok st' => fst st1 ⊆ fst st' | Err _ => True end).
  { destruct (References record) as [|d deps]; [by exists (Ok st1)|]. apply IH. simpl. lia. }
  destruct Hin as ([st2|err] & -> & Hsub); [|by exists (Err err)].
  edestruct IHr as (r & -> & Hr); cycle 1.
  - eexists; split; [done|]. destruct r as [st'|]; [|done]. simpl in Hr, Hsub. set_solver.
  - simpl in *. pose proof (not_seen_mono (fst st) (fst st2) ltac:(set_solver)). lia.
Qed.
End pure.

(** Enough fuel for every call on this store. *)
Definition resolve_fuel (s : Store) (registryCtx : string) : nat := S (size (resolvable_keys s registryCtx)).

(** Resolving references ends: with a fuel bounded by the number of
    subject versions in the context it always returns a list or an error, also
    when references are cyclic, and it never writes. *)
Theorem resolveReferences_total registryCtx refs ρ s fuel :
  (resolve_fuel s registryCtx <= fuel)%nat ->
  exists r, run (resolveReferences fuel registryCtx refs) ρ s = (Some r, s).
Proof.
  intros Hf. unfold resolveReferences. destruct refs as [|ref refs]; [eexists; done|].
  unfold bind_fuel. rewrite run_bind, run_resolve.
  destruct (resolvePure_total s registryCtx fuel (ref :: refs) (∅, [])) as (r & -> & _).
  { unfold not_seen, resolve_fuel in *. simpl. rewrite difference_empty_L. lia. }
  destruct r as [[seen resolved]|err]; eexists; reflexivity.
Qed.

Lemma resolveReferences_total_witness :
  exists r, run (resolveReferences 3 "." [MkReference "o" "orders" 1 ""]) (fun _ => env0) orders_store
    = (Some r, orders_store).
Proof. apply resolveReferences_total. vm_compute. lia. Defined.

(** ** What is resolved *)

Section correct.
Context (s : Store) (registryCtx : string).

Definition keys_of (l : list Reference) : list string := map refKey l.

(** [r] carries the content its reference names, and the dependencies of that
    content are among [keys]. *)
Definition resolved_among (P : string -> Prop) (r : Reference) : Prop :=
  exists ref record, look s registryCtx ref = Ok record /\ r = resolved_ref ref record /\
    forall d, d ∈ References record -> P (refKey d).

Lemma resolved_among_mono (P Q : string -> Prop) r :
  (forall k, P k -> Q k) -> resolved_among P r -> resolved_among Q r.
Proof. intros H (ref & record & ? & ? & Hd). exists ref, record. eauto. Qed.

(** What a call adds to the state. *)
Definition extends (refs : list Reference) (st st' : state) : Prop :=
  exists new, snd st' = (snd st ++ new)%list /\
    (forall k, k ∈ fst st' <-> k ∈ fst st \/ k ∈ keys_of new) /\
    NoDup (keys_of new) /\ (forall k, k ∈ keys_of new -> k ∉ fst st) /\
    (forall ref, ref ∈ refs -> refKey ref ∈ fst st') /\
    Forall (resolved_among (fun k => k ∈ fst st')) new.

Lemma extends_nil st : extends [] st st.
Proof. exists []. rewrite app_nil_r. split_and!; try done; try set_solver. apply NoDup_nil_2. Qed.

Lemma extends_seen ref refs st st' :
  refKey ref ∈ fst st -> extends refs st st' -> extends (ref :: refs) st st'.
Proof.
  intros Hs (new & ? & Hk & ? & ? & Hr & ?). exists new. split_and!; try done.
  intros ref' [->|]%elem_of_cons; [apply Hk; auto|auto].
Qed.

(** A reference is resolved: its dependencies first, then itself, then the rest. *)
Lemma extends_step ref record refs st st1 st2 :
  refKey ref ∉ fst st -> look s registryCtx ref = Ok record ->
  extends (References record) ({[refKey ref]} ∪ fst st, snd st) st1 ->
  extends refs (fst st1, (snd st1 ++ [resolved_ref ref record])%list) st2 ->
  extends (ref :: refs) st st2.
Proof.
  intros Hn Hl (new1 & E1 & K1 & N1 & D1 & R1 & F1) (new2 & E2 & K2 & N2 & D2 & R2 & F2).
  simpl in *. exists (new1 ++ resolved_ref ref record :: new2)%list.
  assert (Hk : forall k, k ∈ keys_of (new1 ++ resolved_ref ref record :: new2) <->
    k ∈ keys_of new1 \/ k = refKey ref \/ k ∈ keys_of new2).
  { intros k. unfold keys_of. rewrite map_app, elem_of_app. simpl. rewrite elem_of_cons. done. }
  split_and!.
  - rewrite E2, E1. by rewrite <- !app_assoc.
  - intros k. rewrite K2, K1, Hk. set_solver.
  - unfold keys_of. rewrite map_app. simpl. apply NoDup_app. split_and!; [done| |].
    + intros k Hk1 [->|Hk2]%elem_of_cons; [|by apply (D2 k Hk2), K1; auto].
      apply (D1 _ Hk1). set_solver.
    + apply NoDup_cons. split; [|done]. intros Hk2. apply (D2 _ Hk2), K1. set_solver.
  - intros k [Hk1|[->|Hk2]]%Hk; [|done|].
    + specialize (D1 k Hk1). set_solver.
    + specialize (D2 k Hk2). rewrite K1 in D2. set_solver.
  - intros r [->|Hr]%elem_of_cons; [apply K2; left; apply K1; set_solver|auto].
  - apply Forall_app. split; [|apply Forall_cons; split; [|done]].
    + eapply Forall_impl; [exact F1|]. intros r. apply resolved_among_mono. intros k Hk1. apply K2; auto.
    + exists ref, record. split_and!; [done..|]. intros d Hd. apply K2. left. auto.
Qed.

Lemma resolvePure_extends fuel : forall refs st st',
  resolvePure s registryCtx fuel refs st = Some (Ok st') -> extends refs st st'.
Proof.
  induction fuel as [|fuel IH]; intros refs st st'; [done|]. simpl. revert st.
  induction refs as [|ref refs IHr]; intros st; simpl.
  - intros [= <-]. apply extends_nil.
  - case_decide as Hs; [intros H; apply extends_seen; auto|].
    destruct (look s registryCtx ref) as [record|err] eqn:El; [|done].
    destruct (match References record with [] => _ | _ => _ end) as [[st1|err]|] eqn:Ei; [|done..].
    intros H%IHr. eapply extends_step; eauto.
    destruct (References record) as [|d deps]; [injection Ei as <-; apply extends_nil|auto].
Qed.

(** ** Dependencies first *)

Variable rank : string -> nat.
Hypothesis rank_decreases : forall ref record d,
  look s registryCtx ref = Ok record -> d ∈ References record -> (rank (refKey d) < rank (refKey ref))%nat.

Fixpoint deps_first (before : list string) (l : list Reference) : Prop :=
  match l with
  | [] => True
  | r :: l => resolved_among (fun k => k ∈ before) r /\ deps_first (refKey r :: before) l
  end.

Lemma deps_first_mono l : forall before before',
  before ⊆ before' -> deps_first before l -> deps_first before' l.
Proof.
  induction l as [|r l IH]; intros before before' Hsub; simpl; [done|].
  intros [Hr Hl]. split; [eapply resolved_among_mono; [|exact Hr]; set_solver|].
  eapply IH; [|exact Hl]. set_solver.
Qed.

Lemma deps_first_app l l' : forall before,
  deps_first before (l ++ l') <-> deps_first before l /\ deps_first (rev (keys_of l) ++ before) l'.
Proof.
  induction l as [|r l IH]; intros before; simpl; [naive_solver|].
  rewrite IH, <- app_assoc. simpl. naive_solver.
Qed.

(** A key that was seen is resolved, or it is still being resolved and ranks
    above everything the call will look at. *)
Definition above (refs : list Reference) (st : state) : Prop :=
  forall ref k, ref ∈ refs -> k ∈ fst st -> k ∈ keys_of (snd st) \/ (rank (refKey ref) < rank k)%nat.

Lemma resolvePure_deps_first fuel : forall refs st st',
  resolvePure s registryCtx fuel refs st = Some (Ok st') ->
  above refs st -> deps_first [] (snd st) -> deps_first [] (snd st').
Proof.
  induction fuel as [|fuel IH]; intros refs st st'; [done|]. simpl. revert st.
  induction refs as [|ref refs IHr]; intros st; simpl; [by intros [= <-]|].
  case_decide as Hs; [intros H Ha; apply IHr; [done|]; intros r k Hr; apply Ha; by right|].
  destruct (look s registryCtx ref) as [record|err] eqn:El; [|done].
  set (st0 := ({[refKey ref]} ∪ fst st, snd st)).
  destruct (match References record with [] => _ | _ => _ end) as [[st1|err]|] eqn:Ei; [|done..].
  intros H Ha Hd.
  assert (Hext : extends (References record) st0 st1).
  { destruct (References record) as [|d deps]; [injection Ei as <-; apply extends_nil|by eapply resolvePure_extends]. }
  assert (Hab : above (References record) st0).
  { intros d k Hd' Hk. simpl in Hk. apply elem_of_union in Hk as [Hk|Hk].
    - apply elem_of_singleton in Hk as ->. right. eapply rank_decreases; eauto.
    - destruct (Ha ref k) as [|Hlt]; [by left|done|by left|right].
      pose proof (rank_decreases _ _ _ El Hd'). lia. }
  assert (Hd1 : deps_first [] (snd st1)).
  { destruct (References record) as [|d deps]; [by injection Ei as <-|]. by eapply IH. }
  destruct Hext as (new & E & K & N & D & R & F).
  eapply IHr; [exact H| |].
  - intros r k Hr Hk. simpl in Hk |- *. unfold keys_of. rewrite map_app, elem_of_app. simpl.
    apply K in Hk as [Hk|Hk]; [simpl in Hk; apply elem_of_union in Hk as [Hk|Hk]|].
    + apply elem_of_singleton in Hk. left; right. set_solver.
    + destruct (Ha r k) as [Hk'|?]; [by right|done| |by right].
      left; left. rewrite E. simpl. rewrite map_app. apply elem_of_app. by left.
    + left; left. rewrite E. rewrite map_app. apply elem_of_app. by right.
  - simpl. apply deps_first_app. split; [done|]. simpl. split; [|done].
    exists ref, record. split_and!; [done..|]. intros d Hdin.
    rewrite app_nil_r. apply list_elem_of_In, in_rev. rewrite rev_involutive. apply list_elem_of_In.
    specialize (R d Hdin). apply K in R as [Hk|Hk].
    + destruct (Hab d _ Hdin Hk) as [Hk'|]; [|lia].
      rewrite E. unfold keys_of. rewrite map_app. apply elem_of_app. by left.
    + rewrite E. unfold keys_of. rewrite map_app. apply elem_of_app. by right.
Qed.
End correct.

(** Property C18. A successful resolution lists each reference once, with the
    content stored under its subject and version; it contains the references
    asked for and, with each one, the references of its content; and where
    references are not cyclic, each comes after the ones its content needs. *)
Theorem resolveReferences_correct fuel registryCtx ref refs resolved ρ s :
  fst (run (resolveReferences fuel registryCtx (ref :: refs)) ρ s) = Some (Ok resolved) ->
  NoDup (keys_of resolved) /\
  (forall r, r ∈ ref :: refs -> refKey r ∈ keys_of resolved) /\
  Forall (resolved_among s registryCtx (fun k => k ∈ keys_of resolved)) resolved /\
  (forall rank : string -> nat,
    (forall r record d, look s registryCtx r = Ok record -> d ∈ References record ->
       (rank (refKey d) < rank (refKey r))%nat) ->
    deps_first s registryCtx [] resolved).
Proof.
  unfold resolveReferences, bind_fuel. rewrite run_bind, run_resolve.
  destruct (resolvePure s registryCtx fuel (ref :: refs) (∅, [])) as [[[seen res]|err]|] eqn:E; [|done..].
  simpl. intros [= <-].
  destruct (resolvePure_extends s registryCtx fuel _ _ _ E) as (new & En & K & N & _ & R & F).
  simpl in *. subst new. split_and!; [done| | |].
  - intros r Hr. specialize (R r Hr). rewrite K in R. set_solver.
  - eapply Forall_impl; [exact F|]. intros r. apply resolved_among_mono. intros k. rewrite K. set_solver.
  - intros rank Hrank. apply (resolvePure_deps_first s registryCtx rank Hrank fuel _ _ _ E); [|done].
    intros r k _ Hk. simpl in Hk. set_solver.
Qed.

Definition item_ref : Reference := MkReference "item" "items" 1 "".

(** A store where orders refers to items. *)
Definition refs_store : Store :=
  let item := avro_record "items" "item" "f2" in
  let order := {| (avro_record "orders" "order" "f3") with References := [item_ref] |} in
  snd (CreateSchema env0 "." order (snd (CreateSchema env0 "." item NewStore))).

Lemma resolveReferences_correct_witness :
  exists resolved,
    fst (run (resolveReferences 4 "." [MkReference "o" "orders" 1 ""]) (fun _ => env0) refs_store)
      = Some (Ok resolved) /\ NoDup (keys_of resolved) /\
    keys_of resolved = ["items:1"; "orders:1"].
Proof.
  eexists. split; [vm_compute; reflexivity|]. split; [|reflexivity].
  apply (resolveReferences_correct 4 "." (MkReference "o" "orders" 1 "") [] _ (fun _ => env0) refs_store).
  vm_compute. reflexivity.
Defined.
