(* ===== verification/Compat.v ===== *)
(** * Compatibility modes and the checker: internal/compatibility/{modes,result,checker}.go

    The checker of each schema type is reached through the Go interface
    [SchemaChecker]; here it is a function of reader and writer. *)
From S2P Require Import Prelude GoStrings StorageTypes.
From Stdlib Require Import String.

Local Open Scope string_scope.

(** ** Modes: [type Mode string] *)

Definition ModeNone : string := "NONE".
Definition ModeBackward : string := "BACKWARD".
Definition ModeBackwardTransitive : string := "BACKWARD_TRANSITIVE".
Definition ModeForward : string := "FORWARD".
Definition ModeForwardTransitive : string := "FORWARD_TRANSITIVE".
Definition ModeFull : string := "FULL".
Definition ModeFullTransitive : string := "FULL_TRANSITIVE".

Definition IsValid (m : string) : bool :=
  bool_decide (m ∈ [ModeNone; ModeBackward; ModeBackwardTransitive; ModeForward;
                    ModeForwardTransitive; ModeFull; ModeFullTransitive]).
Definition IsTransitive (m : string) : bool :=
  bool_decide (m ∈ [ModeBackwardTransitive; ModeForwardTransitive; ModeFullTransitive]).
Definition RequiresBackward (m : string) : bool :=
  bool_decide (m ∈ [ModeBackward; ModeBackwardTransitive; ModeFull; ModeFullTransitive]).
Definition RequiresForward (m : string) : bool :=
  bool_decide (m ∈ [ModeForward; ModeForwardTransitive; ModeFull; ModeFullTransitive]).
Definition ParseMode (s : string) : string * bool := (s, IsValid s).

(** ** Results *)

Record Result := MkResult { IsCompatible : bool; Messages : list string }.

Definition NewCompatibleResult : Result := MkResult true [].
Definition NewIncompatibleResult (messages : list string) : Result := MkResult false messages.
(** The text is formatted by the caller. *)
Definition AddMessage (r : Result) (text : string) : Result :=
  MkResult false (Messages r ++ [text])%list.
Definition Merge (r other : Result) : Result :=
  if IsCompatible other then r else MkResult false (Messages r ++ Messages other)%list.

(** ** The checker *)

Record SchemaWithRefs := MkSchemaWithRefs { SWRSchema : string; SWRReferences : list Reference }.

Definition SchemaChecker : Type := SchemaWithRefs -> SchemaWithRefs -> Result.
Definition Checker : Type := gmap string SchemaChecker.

(** One direction against one existing schema: the messages of a failed check
    are copied, each behind [prefix]. *)
Definition addFailures (result : Result) (prefix : string) (i : Z) (checkResult : Result) : Result :=
  if IsCompatible checkResult then result
  else
    fold_left (fun result msg =>
        AddMessage result (prefix ++ " compatibility check failed against version " ++ Itoa i ++ ": " ++ msg))
      (Messages checkResult) result.

Definition checkOne (checker : SchemaChecker) (mode : string) (newSchema : SchemaWithRefs)
    (i : Z) (existingSchema : SchemaWithRefs) (result : Result) : Result :=
  let result :=
    if RequiresBackward mode
    then addFailures result "BACKWARD" i (checker newSchema existingSchema) else result in
  if RequiresForward mode
  then addFailures result "FORWARD" i (checker existingSchema newSchema) else result.

Fixpoint checkAll (checker : SchemaChecker) (mode : string) (newSchema : SchemaWithRefs)
    (i : Z) (schemasToCheck : list SchemaWithRefs) (result : Result) : Result :=
  match schemasToCheck with
  | [] => result
  | s :: l => checkAll checker mode newSchema (i + 1) l (checkOne checker mode newSchema i s result)
  end.

Definition selectSchemas (mode : string) (existingSchemas : list SchemaWithRefs) : list SchemaWithRefs :=
  if IsTransitive mode then existingSchemas
  else match last existingSchemas with Some s => [s] | None => [] end.

Definition Check (c : Checker) (mode schemaType : string) (newSchema : SchemaWithRefs)
    (existingSchemas : list SchemaWithRefs) : Result :=
  if decide (mode = ModeNone) then NewCompatibleResult
  else
    match existingSchemas with
    | [] => NewCompatibleResult
    | _ =>
        match c !! schemaType with
        | None => NewIncompatibleResult ["no compatibility checker for schema type: " ++ schemaType]
        | Some checker =>
            checkAll checker mode newSchema 1 (selectSchemas mode existingSchemas) NewCompatibleResult
        end
    end.

Definition CheckPair (c : Checker) (mode schemaType : string)
    (newSchema existingSchema : SchemaWithRefs) : Result :=
  Check c mode schemaType newSchema [existingSchema].

(** ** What a check decides *)

(** A result the orchestrator counts as a failure. *)
Definition reports (r : Result) : bool := negb (IsCompatible r) && negb (bool_decide (Messages r = [])).

Definition pair_ok (checker : SchemaChecker) (mode : string) (newSchema existing : SchemaWithRefs) : bool :=
  implb (RequiresBackward mode) (negb (reports (checker newSchema existing))) &&
  implb (RequiresForward mode) (negb (reports (checker existing newSchema))).

Lemma IsCompatible_fold_AddMessage f l : forall r,
  IsCompatible (fold_left (fun result (msg : string) => AddMessage result (f msg)) l r) =
  IsCompatible r && bool_decide (l = []).
Proof.
  induction l as [|m l IH]; intros r; simpl.
  - by rewrite andb_true_r.
  - rewrite IH. simpl. by rewrite andb_false_r.
Qed.

Lemma IsCompatible_addFailures r prefix i cr :
  IsCompatible (addFailures r prefix i cr) = IsCompatible r && negb (reports cr).
Proof.
  unfold addFailures, reports. destruct (IsCompatible cr); simpl; [by rewrite andb_true_r|].
  rewrite IsCompatible_fold_AddMessage. by rewrite negb_involutive.
Qed.

Lemma IsCompatible_checkOne checker mode newSchema i s r :
  IsCompatible (checkOne checker mode newSchema i s r) = IsCompatible r && pair_ok checker mode newSchema s.
Proof.
  unfold checkOne, pair_ok.
  destruct (RequiresBackward mode), (RequiresForward mode); simpl; rewrite ?IsCompatible_addFailures;
    rewrite ?andb_true_r, ?andb_assoc; done.
Qed.

Lemma IsCompatible_checkAll checker mode newSchema l : forall i r,
  IsCompatible (checkAll checker mode newSchema i l r) =
  IsCompatible r && forallb (pair_ok checker mode newSchema) l.
Proof.
  induction l as [|s l IH]; intros i r; simpl; [by rewrite andb_true_r|].
  by rewrite IH, IsCompatible_checkOne, andb_assoc.
Qed.

Lemma selectSchemas_spec mode existing s :
  s ∈ selectSchemas mode existing <-> if IsTransitive mode then s ∈ existing else last existing = Some s.
Proof.
  unfold selectSchemas. destruct (IsTransitive mode); [done|].
  destruct (last existing) as [s'|]; [|split; [intros H; by apply elem_of_nil in H|done]].
  rewrite list_elem_of_singleton. naive_solver.
Qed.

Lemma Check_pairs c mode schemaType newSchema existing checker :
  IsCompatible (Check c mode schemaType newSchema existing) = true ->
  c !! schemaType = Some checker -> mode <> ModeNone ->
  forall s, s ∈ selectSchemas mode existing -> pair_ok checker mode newSchema s = true.
Proof.
  intros Hok Hc Hm s Hs. unfold Check in Hok. rewrite decide_False in Hok by done.
  destruct existing as [|s0 l].
  { unfold selectSchemas in Hs. destruct (IsTransitive mode); by apply elem_of_nil in Hs. }
  rewrite Hc, IsCompatible_checkAll in Hok. simpl in Hok. rewrite forallb_forall in Hok.
  by apply Hok, list_elem_of_In.
Qed.

(** A schema is compatible exactly when the mode is NONE, or there is
    nothing to compare with, or its type has a checker and every schema the
    mode selects - all of them if it is transitive, else the newest - passes in
    each direction the mode requires. *)
Theorem Check_spec c mode schemaType newSchema existing :
  IsCompatible (Check c mode schemaType newSchema existing) = true <->
  mode = ModeNone \/ existing = [] \/
  exists checker, c !! schemaType = Some checker /\
    forall s, (if IsTransitive mode then s ∈ existing else last existing = Some s) ->
      (RequiresBackward mode = true -> reports (checker newSchema s) = false) /\
      (RequiresForward mode = true -> reports (checker s newSchema) = false).
Proof.
  setoid_rewrite <- selectSchemas_spec.
  unfold Check. case_decide; [naive_solver|]. destruct existing as [|s0 l]; [naive_solver|].
  destruct (c !! schemaType) as [checker|]; cycle 1.
  { split; [done|]. intros [?|[?|(? & ? & _)]]; done. }
  rewrite IsCompatible_checkAll. simpl. rewrite forallb_forall. unfold pair_ok.
  setoid_rewrite <- list_elem_of_In.
  assert (Hp : forall s, implb (RequiresBackward mode) (negb (reports (checker newSchema s))) &&
                implb (RequiresForward mode) (negb (reports (checker s newSchema))) = true <->
      (RequiresBackward mode = true -> reports (checker newSchema s) = false) /\
      (RequiresForward mode = true -> reports (checker s newSchema) = false)).
  { intros s. rewrite andb_true_iff.
    destruct (RequiresBackward mode), (RequiresForward mode),
      (reports (checker newSchema s)), (reports (checker s newSchema)); simpl; naive_solver. }
  setoid_rewrite Hp. naive_solver.
Qed.

(** The directions of the modes: FULL is BACKWARD and FORWARD
    together, a transitive mode requires what its plain mode does, and a valid
    mode requires no direction only when it is NONE. *)
Theorem modes_spec m :
  RequiresBackward ModeFull && RequiresForward ModeFull = true /\
  RequiresForward ModeBackward = false /\ RequiresBackward ModeForward = false /\
  (forall plain, plain ∈ [ModeBackward; ModeForward; ModeFull] ->
     IsTransitive plain = false /\ IsTransitive (plain ++ "_TRANSITIVE") = true /\
     RequiresBackward (plain ++ "_TRANSITIVE") = RequiresBackward plain /\
     RequiresForward (plain ++ "_TRANSITIVE") = RequiresForward plain) /\
  (IsValid m && negb (RequiresBackward m) && negb (RequiresForward m) = true <-> m = ModeNone).
Proof.
  split_and!; try reflexivity.
  - intros plain Hp. rewrite !elem_of_cons in Hp. destruct Hp as [->|[->|[->|Hp]]];
      [by vm_compute..|]. by apply elem_of_nil in Hp.
  - rewrite !andb_true_iff, !negb_true_iff. unfold IsValid, RequiresBackward, RequiresForward.
    rewrite bool_decide_eq_true, !bool_decide_eq_false. split.
    + intros [[Hv Hb] Hf]. rewrite !elem_of_cons in *. naive_solver.
    + intros ->. rewrite !elem_of_cons, !elem_of_nil. unfold ModeNone, ModeBackward, ModeForward, ModeFull,
        ModeBackwardTransitive, ModeForwardTransitive, ModeFullTransitive. naive_solver.
Qed.
