(* ===== verification/RegistrySchemas.v ===== *)
(** * The registry service: internal/registry/registry.go

    Registration, lookup, compatibility checks, deletion and import, written
    over the storage interface.  [Registry] has the collaborators of the Go
    struct: the parsers and checkers it was given and the default level.
    A [let?] passes on a run of [resolveReferences] that is out of fuel. *)
From S2P Require Import Prelude GoStrings StorageTypes StorageIface Rules RegistryConfig RegistryMeta RegistryRefs Compat.
From S2P Require RegContext.
From Stdlib Require Import String.

Local Open Scope prog_scope.
Local Open Scope string_scope.

Record Registry := MkRegistry {
  (* schema.ParsedSchema and its methods *)
  parsed : Type;
  CanonicalString : parsed -> string;
  ParsedFingerprint : parsed -> string;
  FormattedString : parsed -> string -> string;
  NormalizeParsed : parsed -> parsed;
  HasTopLevelField : parsed -> string -> bool;
  (* schema.Registry: the Parse methods of the registered parsers *)
  schemaParser : gmap string (string -> list Reference -> result parsed);
  compatChecker : Checker;
  defaultConfig : string;
  (* crypto/sha256, in hexadecimal *)
  sha256_hex : string -> string
}.

Section service.
Context (r : Registry) (fuel : nat).

(** [errors.Is] keeps both: [fmt.Errorf(text, errors.Join(err, sentinel))]. *)
Definition joined (text : string) (err : error) (s : sentinel) : error :=
  Errorf_w text (errors_Join err (sentinel_err s)) "".

Definition unsupported (schemaType : string) : error :=
  Errorf_w ("unsupported schema type: " ++ schemaType ++ ": ") (sentinel_err ErrUnsupportedSchemaType) "".

Definition defaultType (schemaType : string) : string :=
  if decide (schemaType = "") then SchemaTypeAvro else schemaType.

(** The prologue most operations share: parser, references, parse. *)
Definition parseSchema (registryCtx schemaStr schemaType : string) (refs : list Reference)
    : prog (option (result (list Reference * parsed r))) :=
  match schemaParser r !! schemaType with
  | None => ret_fuel (Err (unsupported schemaType))
  | Some parse =>
      let? resolvedRefs := resolveReferences fuel registryCtx refs in
      match resolvedRefs with
      | Err err => ret_fuel (Err (joined "failed to resolve references: " err ErrFailedResolveReferences))
      | Ok resolvedRefs =>
          match parse schemaStr resolvedRefs with
          | Err err => ret_fuel (Err (joined "invalid schema: " err ErrInvalidSchema))
          | Ok p => ret_fuel (Ok (resolvedRefs, p))
          end
      end
  end.

Definition globalFingerprint (p : parsed r) (refs : list Reference) : string :=
  computeGlobalFingerprint (sha256_hex r) (ParsedFingerprint r p) refs.

(** ** Compatibility groups and reserved fields *)

Definition groupValue (meta : option Metadata) (groupKey : string) : string :=
  from_opt "" (from_opt ∅ (meta ≫= Properties) !! groupKey).

Definition filterByCompatibilityGroup (registryCtx subject : string) (newMeta : option Metadata)
    (schemas : list SchemaRecord) : prog (list SchemaRecord) :=
  match schemas with
  | [] => Ret schemas
  | _ =>
      let! config := GetSubjectConfigFull registryCtx subject in
      match config with
      | Err _ => Ret schemas
      | Ok config =>
          let groupKey := CompatibilityGroup config in
          if decide (groupKey = "") then Ret schemas
          else
            Ret (List.filter (fun s =>
              bool_decide (groupValue (SchemaMetadata s) groupKey = groupValue newMeta groupKey)) schemas)
      end
  end.

Definition removed_message (field : string) : string :=
  "The new schema has reserved field " ++ field
  ++ " removed from its metadata which is present in the old schema's metadata.".
Definition conflict_message (field : string) : string :=
  "The new schema has field that conflicts with the reserved field " ++ field ++ ".".

Definition validateReservedFields (registryCtx subject : string) (p : parsed r)
    (meta : option Metadata) : prog (list string) :=
  let reservedFields := getReservedFields meta in
  let! latest := invoke (CGetLatestSchema registryCtx subject) in
  Choose (fun e =>
    let removed :=
      match latest with
      | Err _ => []
      | Ok latest =>
          omap (fun '(field, _) =>
              if from_opt false (reservedFields !! field) then None else Some (removed_message field))
            (range e (getReservedFields (SchemaMetadata latest)))
      end in
    let conflicting :=
      omap (fun '(field, _) => if HasTopLevelField r p field then Some (conflict_message field) else None)
        (range e reservedFields) in
    Ret (removed ++ conflicting)%list).

(** ** Compatibility with the stored schemas *)

(** The loop that resolves the references of the existing schemas. *)
Fixpoint resolveExisting (registryCtx : string) (schemas : list SchemaRecord)
    : prog (option (result (list SchemaWithRefs))) :=
  match schemas with
  | [] => ret_fuel (Ok [])
  | s :: schemas =>
      let? refs := resolveReferences fuel registryCtx (References s) in
      match refs with
      | Err err => ret_fuel (Err (Errorf_w "failed to resolve existing schema references: " err ""))
      | Ok refs =>
          let? rest := resolveExisting registryCtx schemas in
          match rest with
          | Err err => ret_fuel (Err err)
          | Ok rest => ret_fuel (Ok (MkSchemaWithRefs (Schema s) refs :: rest))
          end
      end
  end.

(** [compatLevel, err := r.GetConfig(...)], the default on an error. *)
Definition compatLevel (registryCtx subject : string) : prog string :=
  let! level := GetConfig (defaultConfig r) registryCtx subject in
  Ret (match level with Ok level => level | Err _ => defaultConfig r end).

Definition incompatible (messages : list string) : error :=
  Errorf_w "" (sentinel_err ErrIncompatibleSchema) (": " ++ Join messages "; ").

(** The check against the given versions; [Ok] lets the registration go on. *)
Definition checkAgainst (registryCtx subject schemaType schemaStr : string) (resolvedRefs : list Reference)
    (meta : option Metadata) (mode : string) (existingSchemas : list SchemaRecord)
    : prog (option (result unit)) :=
  let! existingSchemas := filterByCompatibilityGroup registryCtx subject meta existingSchemas in
  match existingSchemas with
  | [] => ret_fuel (Ok tt)
  | _ =>
      let? existing := resolveExisting registryCtx existingSchemas in
      match existing with
      | Err err => ret_fuel (Err err)
      | Ok existing =>
          let result := Check (compatChecker r) mode schemaType
                          (MkSchemaWithRefs schemaStr resolvedRefs) existing in
          if IsCompatible result then ret_fuel (Ok tt)
          else ret_fuel (Err (incompatible (Messages result)))
      end
  end.

(** The compatibility step of a registration. *)
Definition checkRegistration (registryCtx subject schemaType schemaStr : string)
    (resolvedRefs : list Reference) (meta : option Metadata) : prog (option (result unit)) :=
  let! mode := compatLevel registryCtx subject in
  if decide (mode = ModeNone) then ret_fuel (Ok tt)
  else
    let! existingSchemas := invoke (CGetSchemasBySubject registryCtx subject false) in
    match existingSchemas with
    | Err err =>
        if negb (errors_Is err ErrSubjectNotFound)
        then ret_fuel (Err (Errorf_w "failed to get existing schemas: " err ""))
        else checkAgainst registryCtx subject schemaType schemaStr resolvedRefs meta mode []
    | Ok l => checkAgainst registryCtx subject schemaType schemaStr resolvedRefs meta mode l
    end.

Definition checkReserved (registryCtx subject : string) (p : parsed r) (meta : option Metadata)
    : prog (result unit) :=
  let! enabled := isValidateFieldsEnabled registryCtx subject in
  if negb enabled then Ret (Ok tt)
  else
    let! msgs := validateReservedFields registryCtx subject p meta in
    match msgs with
    | [] => Ret (Ok tt)
    | _ => Ret (Err (incompatible msgs))
    end.

(** ** RegisterSchema *)

(** The soft compare-and-set: no target, or the target is this version. *)
Definition cas_matches (cvTarget : Z) (existing : SchemaRecord) : bool :=
  (cvTarget <=? 0)%Z || (cvTarget =? Version existing)%Z.

(** [r.storage.CreateSchema] and what follows it. *)
Definition storeSchema (registryCtx : string) (record : SchemaRecord) (cvTarget : Z)
    : prog (result SchemaRecord) :=
  let! created := invoke (CCreateSchema registryCtx record) in
  match created with
  | (Ok _, record) => Ret (Ok (autoPopulateConfluentVersion record))
  | (Err err, record) =>
      let failed := Errorf_w "failed to store schema: " err "" in
      if errors_Is err ErrSchemaExists then
        let! existing := invoke (CGetSchemaByFingerprint registryCtx (Subject record) (Fingerprint record) false) in
        match existing with
        | Ok existing =>
            if metadataEqual (SchemaMetadata existing) (SchemaMetadata record)
               && ruleSetEqual (SchemaRuleSet existing) (SchemaRuleSet record)
               && cas_matches cvTarget existing
            then Ret (Ok (autoPopulateConfluentVersion existing))
            else Ret (Err failed)
        | Err _ => Ret (Err failed)
        end
      else Ret (Err failed)
  end.

(** From the deduplication on: [p] is parsed and normalised, [schemaStr] is the
    text to store. *)
Definition registerParsed (registryCtx subject schemaStr schemaType : string) (refs resolvedRefs : list Reference)
    (p : parsed r) (opt : RegisterOpts) : prog (option (result SchemaRecord)) :=
  let cvTarget := extractConfluentVersionTarget (OptMetadata opt) in
  let fp := globalFingerprint p refs in
  let! existing := invoke (CGetSchemaByFingerprint registryCtx subject fp false) in
  let proceed : prog (option (result SchemaRecord)) :=
    let? compatible := checkRegistration registryCtx subject schemaType schemaStr resolvedRefs (OptMetadata opt) in
    match compatible with
    | Err err => ret_fuel (Err err)
    | Ok _ =>
        let! reserved := checkReserved registryCtx subject p (OptMetadata opt) in
        match reserved with
        | Err err => ret_fuel (Err err)
        | Ok _ =>
            let! prev := invoke (CGetLatestSchema registryCtx subject) in
            let prevSchema := match prev with Ok s => Some s | Err _ => None end in
            let! opt := maybeSetMetadataRuleSet (defaultConfig r) registryCtx subject opt prevSchema in
            let record :=
              MkSchemaRecord 0 subject 0 schemaType schemaStr refs
                (stripConfluentVersion (OptMetadata opt)) (OptRuleSet opt) fp false 0 in
            let! stored := storeSchema registryCtx record cvTarget in
            ret_fuel stored
        end
    end in
  match existing with
  | Ok existing =>
      if metadataEqualForDedup (SchemaMetadata existing) (OptMetadata opt)
         && ruleSetEqual (SchemaRuleSet existing) (OptRuleSet opt)
         && cas_matches cvTarget existing
      then ret_fuel (Ok (autoPopulateConfluentVersion existing))
      else proceed
  | Err _ => proceed
  end.

Definition RegisterSchema (registryCtx subject schemaStr schemaType : string) (refs : list Reference)
    (opts : option RegisterOpts) : prog (option (result SchemaRecord)) :=
  let schemaType := defaultType schemaType in
  let? parsed := parseSchema registryCtx schemaStr schemaType refs in
  match parsed with
  | Err err => ret_fuel (Err err)
  | Ok (resolvedRefs, p) =>
      let opt := from_opt (MkRegisterOpts false None None) opts in
      match ValidateRuleSet (OptRuleSet opt) with
      | Some err => ret_fuel (Err (joined "invalid ruleSet: " err ErrInvalidRuleSet))
      | None =>
          let! shouldNormalize :=
            (if OptNormalize opt then Ret true else isNormalizeEnabled registryCtx subject) in
          let p := if shouldNormalize then NormalizeParsed r p else p in
          let schemaStr := if shouldNormalize then CanonicalString r p else schemaStr in
          registerParsed registryCtx subject schemaStr schemaType refs resolvedRefs p opt
      end
  end.
End service.
