(* ===== verification/RegistryOps.v ===== *)
(** * The registry service, continued: internal/registry/registry.go

    Import with given IDs, compatibility checks on request, lookup, validation,
    formatting, deletion and the read operations. *)
From S2P Require Import Prelude GoStrings StorageTypes StorageIface RegistryConfig RegistryMeta RegistryRefs Compat RegistrySchemas.
From S2P Require RegContext.
From Stdlib Require Import String.

Local Open Scope prog_scope.
Local Open Scope string_scope.

(** ** Moving the ID sequence forward *)

(** After imports up to [maxID]: never rewinds the sequence. *)
Definition advanceSequence (registryCtx : string) (maxID : Z) : prog (result unit) :=
  let nextID := incr64 maxID in
  let! currentMax := invoke (CGetMaxSchemaID registryCtx) in
  let nextID :=
    match currentMax with
    | Ok currentMax => if (nextID <? incr64 currentMax)%Z then incr64 currentMax else nextID
    | Err _ => nextID
    end in
  invoke (CSetNextID registryCtx nextID).

Section service.
Context (r : Registry) (fuel : nat).

(** The version after the greatest one the subject has, deleted ones included. *)
Definition nextFreeVersion (schemas : list SchemaRecord) : Z :=
  fold_left (fun assigned s => if (assigned <=? Version s)%Z then incr64 (Version s) else assigned) schemas 1%Z.

Definition assignVersion (registryCtx subject : string) (version : Z) : prog Z :=
  if (0 <? version)%Z then Ret version
  else
    let! existingSchemas := invoke (CGetSchemasBySubject registryCtx subject true) in
    Ret (match existingSchemas with Ok l => nextFreeVersion l | Err _ => 1%Z end).

(** The outcome: a record and an error can both be there, when the schema was
    stored but the sequence was not advanced. *)
Definition RegisterSchemaWithID (registryCtx subject schemaStr schemaType : string)
    (refs : list Reference) (id version : Z) : prog (option (option SchemaRecord * option error)) :=
  let schemaType := defaultType schemaType in
  let? parsed := parseSchema r fuel registryCtx schemaStr schemaType refs in
  match parsed with
  | Err err => ret_fuel (None, Some err)
  | Ok (_, p) =>
      let globalFP := globalFingerprint r p refs in
      let! existing := invoke (CGetSchemaByFingerprint registryCtx subject globalFP false) in
      match existing with
      | Ok existing => ret_fuel (Some existing, None)
      | Err _ =>
          let! assignedVersion := assignVersion registryCtx subject version in
          let record := MkSchemaRecord id subject assignedVersion schemaType schemaStr refs
                          None None globalFP false 0 in
          let! imported := invoke (CImportSchema registryCtx record) in
          match imported with
          | (Err err, record) =>
              let failed := Errorf_w "failed to store schema: " err "" in
              if errors_Is err ErrSchemaIDConflict then
                ret_fuel (None, Some (Errorf_w ("overwrite schema with id " ++ Itoa id ++ ": ")
                                        (sentinel_err ErrImportIDConflict) ""))
              else if errors_Is err ErrSchemaExists then
                let! existing := invoke (CGetSchemaBySubjectVersion registryCtx subject (Version record)) in
                match existing with
                | Ok existing => ret_fuel (Some existing, None)
                | Err _ => ret_fuel (None, Some failed)
                end
              else ret_fuel (None, Some failed)
          | (Ok _, record) =>
              let! advanced := advanceSequence registryCtx id in
              match advanced with
              | Ok _ => ret_fuel (Some record, None)
              | Err err =>
                  ret_fuel (Some record,
                            Some (Errorf_w "schema stored but failed to advance ID sequence: " err ""))
              end
          end
      end
  end.

(** ** ImportSchemas *)

Record ImportSchemaRequest := MkImportSchemaRequest {
  ReqID : Z;
  ReqSubject : string;
  ReqVersion : Z;
  ReqSchemaType : string;
  ReqSchema : string;
  ReqReferences : list Reference
}.

Record ImportSchemaResult := MkImportSchemaResult {
  ResID : Z;
  ResSubject : string;
  ResVersion : Z;
  Success : bool;
  ResError : string
}.

Record ImportResult := MkImportResult {
  Imported : Z;
  Errors : Z;
  Results : list ImportSchemaResult
}.

(** One iteration: the error text, or [None] for success. *)
Definition importOne (registryCtx : string) (req : ImportSchemaRequest) : prog (option (option string)) :=
  if (ReqID req <=? 0)%Z then ret_fuel (Some "schema ID must be positive")
  else if decide (ReqSubject req = "") then ret_fuel (Some "subject is required")
  else if (ReqVersion req <=? 0)%Z then ret_fuel (Some "version must be positive")
  else if decide (ReqSchema req = "") then ret_fuel (Some "schema is required")
  else
    let schemaType := defaultType (ReqSchemaType req) in
    match schemaParser r !! schemaType with
    | None => ret_fuel (Some ("unsupported schema type: " ++ schemaType))
    | Some parse =>
        let? resolvedRefs := resolveReferences fuel registryCtx (ReqReferences req) in
        match resolvedRefs with
        | Err err => ret_fuel (Some ("failed to resolve references: " ++ err_text err))
        | Ok resolvedRefs =>
            match parse (ReqSchema req) resolvedRefs with
            | Err err => ret_fuel (Some ("invalid schema: " ++ err_text err))
            | Ok p =>
                let record :=
                  MkSchemaRecord (ReqID req) (ReqSubject req) (ReqVersion req) schemaType (ReqSchema req)
                    (ReqReferences req) None None (globalFingerprint r p (ReqReferences req)) false 0 in
                let! imported := invoke (CImportSchema registryCtx record) in
                match fst imported with
                | Ok _ => ret_fuel None
                | Err err =>
                    ret_fuel (Some (
                      if errors_Is err ErrSchemaIDConflict then "schema ID already exists"
                      else if errors_Is err ErrSchemaExists then "subject/version already exists"
                      else err_text err))
                end
            end
        end
    end.

(** The loop, with the results so far and the greatest imported ID. *)
Fixpoint importLoop (registryCtx : string) (schemas : list ImportSchemaRequest)
    (result : ImportResult) (maxID : Z) : prog (option (ImportResult * Z)) :=
  match schemas with
  | [] => ret_fuel (result, maxID)
  | req :: schemas =>
      let? failure := importOne registryCtx req in
      let res := MkImportSchemaResult (ReqID req) (ReqSubject req) (ReqVersion req) in
      match failure with
      | Some text =>
          importLoop registryCtx schemas
            (MkImportResult (Imported result) (incr64 (Errors result))
               (Results result ++ [res false text])%list) maxID
      | None =>
          importLoop registryCtx schemas
            (MkImportResult (incr64 (Imported result)) (Errors result)
               (Results result ++ [res true ""])%list)
            (if (maxID <? ReqID req)%Z then ReqID req else maxID)
      end
  end.

Definition ImportSchemas (registryCtx : string) (schemas : list ImportSchemaRequest)
    : prog (option (ImportResult * option error)) :=
  let? loop := importLoop registryCtx schemas (MkImportResult 0 0 []) 0 in
  let '(result, maxID) := loop in
  if (0 <? maxID)%Z then
    let! advanced := advanceSequence registryCtx maxID in
    match advanced with
    | Ok _ => ret_fuel (result, None)
    | Err err =>
        ret_fuel (result, Some (Errorf_w ("imported " ++ Itoa (Imported result)
                                  ++ " schemas but failed to adjust ID sequence: ") err ""))
    end
  else ret_fuel (result, None).

(** ** CheckCompatibility *)

(** The schemas a request compares with; [Ok None] when there is nothing stored. *)
Definition schemasToCheck (registryCtx subject version : string)
    : prog (option (result (option (list SchemaWithRefs)))) :=
  let one (s : SchemaRecord) : prog (option (result (option (list SchemaWithRefs)))) :=
    let? refs := resolveReferences fuel registryCtx (References s) in
    match refs with
    | Err err => ret_fuel (Err (Errorf_w "failed to resolve existing schema references: " err ""))
    | Ok refs => ret_fuel (Ok (Some [MkSchemaWithRefs (Schema s) refs]))
    end in
  let missing (err : error) : prog (option (result (option (list SchemaWithRefs)))) :=
    ret_fuel (if errors_Is err ErrSubjectNotFound then Ok None else Err err) in
  if decide (version = "latest") then
    let! latest := invoke (CGetLatestSchema registryCtx subject) in
    match latest with
    | Err err => missing err
    | Ok latest => one latest
    end
  else if decide (version = "") then
    let! existingSchemas := invoke (CGetSchemasBySubject registryCtx subject false) in
    match existingSchemas with
    | Err err => missing err
    | Ok l =>
        let? existing := resolveExisting fuel registryCtx l in
        match existing with
        | Err err => ret_fuel (Err err)
        | Ok existing => ret_fuel (Ok (Some existing))
        end
    end
  else
    match Atoi version with
    | None => ret_fuel (Err (Errorf_w "" (sentinel_err ErrInvalidVersion) (": " ++ version)))
    | Some versionNum =>
        let! schema := invoke (CGetSchemaBySubjectVersion registryCtx subject versionNum) in
        match schema with
        | Err err =>
            ret_fuel (Err (
              if errors_Is err ErrSubjectNotFound
              then Errorf_w "" (sentinel_err ErrSubjectNotFound) (": " ++ subject)
              else if errors_Is err ErrVersionNotFound
              then Errorf_w "" (sentinel_err ErrVersionNotFound)
                     (": version " ++ Itoa versionNum ++ " for subject " ++ subject)
              else err))
        | Ok schema => one schema
        end
    end.

Definition CheckCompatibility (registryCtx subject schemaStr schemaType : string)
    (refs : list Reference) (version : string) (normalize : bool) : prog (option (result Result)) :=
  let schemaType := defaultType schemaType in
  let? parsed := parseSchema r fuel registryCtx schemaStr schemaType refs in
  match parsed with
  | Err err => ret_fuel (Err err)
  | Ok (resolvedRefs, p) =>
      let! shouldNormalize := (if normalize then Ret true else isNormalizeEnabled registryCtx subject) in
      let schemaStr :=
        if shouldNormalize then CanonicalString r (NormalizeParsed r p) else schemaStr in
      let! mode := compatLevel r registryCtx subject in
      if decide (mode = ModeNone) then ret_fuel (Ok NewCompatibleResult)
      else
        let? existing := schemasToCheck registryCtx subject version in
        match existing with
        | Err err => ret_fuel (Err err)
        | Ok None | Ok (Some []) => ret_fuel (Ok NewCompatibleResult)
        | Ok (Some existing) =>
            ret_fuel (Ok (Check (compatChecker r) mode schemaType
                            (MkSchemaWithRefs schemaStr resolvedRefs) existing))
        end
  end.

(** ** Lookup, validation, formatting *)

Definition LookupSchema (registryCtx subject schemaStr schemaType : string) (refs : list Reference)
    (deleted normalize : bool) : prog (option (result SchemaRecord)) :=
  let schemaType := defaultType schemaType in
  let? parsed := parseSchema r fuel registryCtx schemaStr schemaType refs in
  match parsed with
  | Err err => ret_fuel (Err err)
  | Ok (_, p) =>
      let! shouldNormalize := (if normalize then Ret true else isNormalizeEnabled registryCtx subject) in
      let p := if shouldNormalize then NormalizeParsed r p else p in
      let! found := invoke (CGetSchemaByFingerprint registryCtx subject (globalFingerprint r p refs) deleted) in
      ret_fuel found
  end.

Record ValidateResult := MkValidateResult {
  Valid : bool;
  ValSchemaType : string;
  ValFingerprint : string;
  Canonical : string;
  ValError : string
}.

Definition ValidateSchema (registryCtx schemaStr schemaType : string) (refs : list Reference)
    : prog (option ValidateResult) :=
  let schemaType := defaultType schemaType in
  let invalid text := MkValidateResult false schemaType "" "" text in
  match schemaParser r !! schemaType with
  | None => ret_fuel (invalid "unsupported schema type")
  | Some parse =>
      let? resolvedRefs := resolveReferences fuel registryCtx refs in
      match resolvedRefs with
      | Err err => ret_fuel (invalid ("failed to resolve references: " ++ err_text err))
      | Ok resolvedRefs =>
          match parse schemaStr resolvedRefs with
          | Err err => ret_fuel (invalid (err_text err))
          | Ok p => ret_fuel (MkValidateResult true schemaType (ParsedFingerprint r p) (CanonicalString r p) "")
          end
      end
  end.

Record NormalizeResult := MkNormalizeResult {
  NormText : string;
  NormFingerprint : string;
  NormSchemaType : string
}.

Definition NormalizeSchema (registryCtx schemaStr schemaType : string) (refs : list Reference)
    : prog (option (result NormalizeResult)) :=
  let schemaType := defaultType schemaType in
  match schemaParser r !! schemaType with
  | None => ret_fuel (Err (unsupported schemaType))
  | Some parse =>
      let? resolvedRefs := resolveReferences fuel registryCtx refs in
      match resolvedRefs with
      | Err err => ret_fuel (Err (Errorf_w "failed to resolve references: " err ""))
      | Ok resolvedRefs =>
          match parse schemaStr resolvedRefs with
          | Err err => ret_fuel (Err (joined "invalid schema: " err ErrInvalidSchema))
          | Ok p =>
              let normalized := NormalizeParsed r p in
              ret_fuel (Ok (MkNormalizeResult (CanonicalString r normalized)
                              (ParsedFingerprint r normalized) schemaType))
          end
      end
  end.

(** The loop that looks up the content of the references, one level deep. *)
Fixpoint fillReferences (registryCtx : string) (refs : list Reference) : prog (list Reference) :=
  match refs with
  | [] => Ret []
  | ref :: refs =>
      let! ref :=
        (if decide (RefSchema ref = "") then
           let! refSchema := invoke (CGetSchemaBySubjectVersion registryCtx (RefSubject ref) (RefVersion ref)) in
           Ret (match refSchema with
                | Ok s => {| ref with RefSchema := Schema s |}
                | Err _ => ref
                end)
         else Ret ref) in
      let! refs := fillReferences registryCtx refs in
      Ret (ref :: refs)
  end.

Definition FormatSchema (registryCtx : string) (record : SchemaRecord) (format : string) : prog string :=
  if decide (format = "") then Ret (Schema record)
  else
    match schemaParser r !! defaultType (SchemaType record) with
    | None => Ret (Schema record)
    | Some parse =>
        let! resolvedRefs := fillReferences registryCtx (References record) in
        match parse (Schema record) resolvedRefs with
        | Err _ => Ret (Schema record)
        | Ok p => Ret (FormattedString r p format)
        end
    end.
End service.

(** ** Deletion *)

(** The first live version of the subject that a live schema refers to. *)
Fixpoint firstReferenced (registryCtx subject : string) (schemas : list SchemaRecord)
    : prog (result (option Z)) :=
  match schemas with
  | [] => Ret (Ok None)
  | schema :: schemas =>
      let! refs := invoke (CGetReferencedBy registryCtx subject (Version schema)) in
      match refs with
      | Err err => Ret (Err err)
      | Ok [] => firstReferenced registryCtx subject schemas
      | Ok _ => Ret (Ok (Some (Version schema)))
      end
  end.

Definition DeleteSubject (registryCtx subject : string) (permanent : bool) : prog (result (list Z)) :=
  let remove : prog (result (list Z)) :=
    let! versions := invoke (CDeleteSubject registryCtx subject permanent) in
    match versions with
    | Err err => Ret (Err err)
    | Ok versions =>
        if permanent then
          let! _ := invoke (CDeleteConfig registryCtx subject) in
          let! _ := invoke (CDeleteMode registryCtx subject) in
          Ret (Ok versions)
        else Ret (Ok versions)
    end in
  if permanent then remove
  else
    let! schemas := invoke (CGetSchemasBySubject registryCtx subject false) in
    match schemas with
    | Err _ => remove
    | Ok schemas =>
        let! referenced := firstReferenced registryCtx subject schemas in
        match referenced with
        | Err err => Ret (Err err)
        | Ok (Some v) =>
            Ret (Err (Errorf_w ("One or more references exist to the schema {subject=" ++ subject
                        ++ ",version=" ++ Itoa v ++ "}: ") (sentinel_err ErrReferenceExists) ""))
        | Ok None => remove
        end
    end.

(** The greatest soft-deleted version, or [-1]. *)
Definition latestDeleted (schemas : list SchemaRecord) : Z :=
  fold_left (fun resolved s => if Deleted s && (resolved <? Version s)%Z then Version s else resolved)
    schemas (-1)%Z.

Definition DeleteVersion (registryCtx subject : string) (version : Z) (permanent : bool) : prog (result Z) :=
  let remove (version : Z) : prog (result Z) :=
    let! deleted := invoke (CDeleteSchema registryCtx subject version permanent) in
    match deleted with
    | Err err => Ret (Err err)
    | Ok _ => Ret (Ok version)
    end in
  if permanent then
    if (version =? -1)%Z then
      let! schemas := invoke (CGetSchemasBySubject registryCtx subject true) in
      match schemas with
      | Err err => Ret (Err err)
      | Ok schemas =>
          let resolved := latestDeleted schemas in
          if (resolved =? -1)%Z then Ret (fail ErrVersionNotFound) else remove resolved
      end
    else remove version
  else
    let! schema := invoke (CGetSchemaBySubjectVersion registryCtx subject version) in
    match schema with
    | Err err => Ret (Err err)
    | Ok schema =>
        let! refs := invoke (CGetReferencedBy registryCtx subject (Version schema)) in
        match refs with
        | Err err => Ret (Err err)
        | Ok [] => remove (Version schema)
        | Ok _ => Ret (fail ErrReferenceExists)
        end
    end.

(** ** Reading *)

Definition GetVersions (registryCtx subject : string) (deleted : bool) : prog (result (list Z)) :=
  let! schemas := invoke (CGetSchemasBySubject registryCtx subject deleted) in
  Ret (match schemas with Ok l => Ok (map Version l) | Err err => Err err end).

Definition GetRawSchemaByID (registryCtx : string) (id : Z) : prog (result string) :=
  let! schema := invoke (CGetSchemaByID registryCtx id) in
  Ret (match schema with Ok s => Ok (Schema s) | Err err => Err err end).

Definition GetRawSchemaBySubjectVersion (registryCtx subject : string) (version : Z) : prog (result string) :=
  let! schema := invoke (CGetSchemaBySubjectVersion registryCtx subject version) in
  Ret (match schema with Ok s => Ok (Schema s) | Err err => Err err end).

Definition SubjectCount : prog (result Z) :=
  let! subjects := invoke (CListSubjects RegContext.DefaultContext false) in
  Ret (match subjects with Ok l => Ok (Z.of_nat (List.length l)) | Err err => Err err end).

Definition SchemaCountsByType : prog (result (gmap string Z)) :=
  let! schemas := invoke (CListSchemas RegContext.DefaultContext (MkListSchemasParams "" false false 0 0)) in
  Ret (match schemas with
       | Err err => Err err
       | Ok l =>
           Ok (fold_left (fun counts s =>
                 let st := defaultType (SchemaType s) in
                 <[st := incr64 (from_opt 0%Z (counts !! st))]> counts) l ∅)
       end).

Definition ListContexts : prog (result (list string)) :=
  let! contexts := invoke CListContexts in
  Ret (match contexts with
       | Err err => Err err
       | Ok l => Ok (List.filter (fun c => negb (bool_decide (c = RegContext.GlobalContext))) l)
       end).

(** internal/registry/registry_helpers.go *)
Definition ParseVersion (s : string) : result Z :=
  if bool_decide (s = "latest") || bool_decide (s = "-1") then Ok (-1)%Z
  else
    match Atoi s with
    | None => fail ErrInvalidVersion
    | Some v => if (v <? 1)%Z then fail ErrInvalidVersion else Ok v
    end.
