(* ===== verification/ProgLogic.v ===== *)
(** * Reasoning about programs over the storage

    [wp p Q s]: whatever the environments, a run of [p] from [s] ends in a
    result and a store that [Q] relates. *)
From S2P Require Import Prelude StorageTypes StorageIface RegistryRefs.

Section wp.
Context {St : Type} `{Storage St}.

Definition wp {A} (p : prog A) (Q : A -> St -> Prop) (s : St) : Prop :=
  forall ρ, let '(a, s') := run p ρ s in Q a s'.

Lemma wp_run {A} (p : prog A) Q s ρ a s' : wp p Q s -> run p ρ s = (a, s') -> Q a s'.
Proof. intros Hw E. specialize (Hw ρ). by rewrite E in Hw. Qed.

Lemma wp_let {A} (p : prog A) Q s ρ : wp p Q s -> let '(a, s') := run p ρ s in Q a s'.
Proof. intros Hw. apply Hw. Qed.

Lemma wp_ret {A} (a : A) Q s : Q a s -> wp (Ret a) Q s.
Proof. by intros ? ρ. Qed.

Lemma wp_bind {A B} (p : prog A) (f : A -> prog B) Q s :
  wp p (fun a s' => wp (f a) Q s') s -> wp (bind p f) Q s.
Proof.
  intros Hp ρ. rewrite run_bind. specialize (Hp ρ). destruct (run p ρ s) as [a s']. apply Hp.
Qed.

Lemma wp_call {B} (c : call B) Q s :
  (forall e b s', handle e c s = (b, s') -> Q b s') -> wp (invoke c) Q s.
Proof. intros Hc ρ. simpl. destruct (handle (ρ 0%nat) c s) as [b s'] eqn:E. eauto. Qed.

Lemma wp_mono {A} (p : prog A) (Q Q' : A -> St -> Prop) s :
  wp p Q s -> (forall a s', Q a s' -> Q' a s') -> wp p Q' s.
Proof. intros Hp HQ ρ. specialize (Hp ρ). destruct (run p ρ s). auto. Qed.

(** A program that only reads leaves the store; its result is that of some run. *)
Lemma wp_reads `{!LawfulStorage St} {A} (p : prog A) (Q : A -> St -> Prop) s :
  reads_only p -> (forall a ρ, run p ρ s = (a, s) -> Q a s) -> wp p Q s.
Proof.
  intros Hr HQ ρ. pose proof (run_reads_only p Hr ρ s) as Hs.
  destruct (run p ρ s) as [a s'] eqn:E. simpl in Hs. subst. eauto.
Qed.

Lemma wp_bind_fuel {A B} (p : prog (option A)) (f : A -> prog (option B)) Q s :
  wp p (fun o s' => match o with Some a => wp (f a) Q s' | None => Q None s' end) s ->
  wp (bind_fuel p f) Q s.
Proof.
  intros Hp. apply wp_bind. eapply wp_mono; [exact Hp|]. intros [a|] s'; [done|apply wp_ret].
Qed.

Lemma reads_only_bind_fuel {A B} (p : prog (option A)) (f : A -> prog (option B)) :
  reads_only p -> (forall a, reads_only (f a)) -> reads_only (bind_fuel p f).
Proof. intros Hp Hf. apply reads_only_bind; [done|]. by intros [a|]. Qed.
End wp.

(** Proves that a piece of registry code only reads: follows its structure. *)
Ltac reads :=
  repeat match goal with
  | |- True => exact I
  | |- reads_only (Ret _) => exact I
  | |- reads_only (ret_fuel _) => exact I
  | |- reads_only (invoke _) => split; [reflexivity|intros; exact I]
  | |- reads_only (Choose _) => intros ?
  | |- reads_only (Vis _ _) => split; [reflexivity|intros ?]
  | |- is_read _ = true /\ _ => split; [reflexivity|intros ?]
  | |- true = true /\ _ => split; [reflexivity|intros ?]
  | |- reads_only (bind _ _) => apply reads_only_bind; [|intros ?]
  | |- reads_only (bind_fuel _ _) => apply reads_only_bind_fuel; [|intros ?]
  | |- reads_only (if decide ?P then _ else _) => destruct (decide P)
  | |- reads_only (if ?b then _ else _) => destruct b
  | |- reads_only (match ?x with _ => _ end) => destruct x
  | |- reads_only _ => solve [eauto with reads]
  end.
