(* ===== verification/RegistryFacts.v ===== *)
(** * The registry service: what the operations guarantee

    Reading, registration, termination, and registration under compatibility. *)
From S2P Require Import Prelude MemSteps MemQueries RegistryOps GoStrings StorageTypes MemState MemStore MemInvariant MemStoreFacts MemDelete StorageIface ProgLogic Rules RegistryConfig RegistryMeta RegistryRefs Compat RegistrySchemas.
From Stdlib Require Import String.

Local Open Scope string_scope.

(** ** The operations that only read *)

Lemma reads_only_resolveLoop c rec :
  (forall refs st, reads_only (rec refs st)) -> forall refs st, reads_only (resolveLoop c rec refs st).
Proof.
  intros Hrec refs. induction refs as [|ref refs IH]; intros st; simpl; [exact I|].
  destruct st as [seen resolved]. reads.
Qed.

Lemma reads_only_resolve fuel c : forall refs st, reads_only (resolve fuel c refs st).
Proof. induction fuel; intros refs st; [exact I|]. simpl. by apply reads_only_resolveLoop. Qed.
#[export] Hint Resolve reads_only_resolve : reads.

Lemma reads_only_resolveReferences fuel c refs : reads_only (resolveReferences fuel c refs).
Proof. unfold resolveReferences. reads. Qed.
#[export] Hint Resolve reads_only_resolveReferences : reads.

Lemma reads_only_GetConfig d c subject : reads_only (GetConfig d c subject).
Proof. unfold GetConfig. reads. Qed.
Lemma reads_only_GetConfigFull d c subject : reads_only (GetConfigFull d c subject).
Proof. unfold GetConfigFull. reads. Qed.
Lemma reads_only_configFlag flag c subject : reads_only (configFlag flag c subject).
Proof. unfold configFlag. reads. Qed.
Lemma reads_only_GetMode c subject : reads_only (GetMode c subject).
Proof. unfold GetMode, resolveGlobalMode. reads. Qed.
#[export] Hint Resolve reads_only_GetConfig reads_only_GetConfigFull reads_only_configFlag reads_only_GetMode : reads.

Lemma reads_only_parseSchema r fuel c text ty refs : reads_only (parseSchema r fuel c text ty refs).
Proof. unfold parseSchema. reads. Qed.
Lemma reads_only_resolveExisting fuel c l : reads_only (resolveExisting fuel c l).
Proof. induction l; simpl; reads. Qed.
Lemma reads_only_filterByCompatibilityGroup c subject meta l :
  reads_only (filterByCompatibilityGroup c subject meta l).
Proof. unfold filterByCompatibilityGroup, GetSubjectConfigFull. reads. Qed.
Lemma reads_only_compatLevel r c subject : reads_only (compatLevel r c subject).
Proof. unfold compatLevel. reads. Qed.
#[export] Hint Resolve reads_only_parseSchema reads_only_resolveExisting
  reads_only_filterByCompatibilityGroup reads_only_compatLevel : reads.

Lemma reads_only_checkRegistration r fuel c subject ty text refs meta :
  reads_only (checkRegistration r fuel c subject ty text refs meta).
Proof. unfold checkRegistration, checkAgainst. reads. Qed.
Lemma reads_only_checkReserved r c subject p meta : reads_only (checkReserved r c subject p meta).
Proof. unfold checkReserved, isValidateFieldsEnabled, validateReservedFields. reads. Qed.
Lemma reads_only_maybeSet d c subject opts prev : reads_only (maybeSetMetadataRuleSet d c subject opts prev).
Proof. unfold maybeSetMetadataRuleSet. reads. Qed.
Lemma reads_only_schemasToCheck fuel c subject version : reads_only (schemasToCheck fuel c subject version).
Proof. unfold schemasToCheck. reads. Qed.
#[export] Hint Resolve reads_only_checkRegistration reads_only_checkReserved reads_only_maybeSet
  reads_only_schemasToCheck : reads.

Lemma reads_only_fillReferences c refs : reads_only (fillReferences c refs).
Proof. induction refs; simpl; reads. Qed.
#[export] Hint Resolve reads_only_fillReferences : reads.

(** Lookups, compatibility checks, validation, normalisation,
    formatting and the mode check never change the storage, whatever lawful
    backend is behind the interface. *)
Theorem read_operations {St} `{LawfulStorage St} r fuel c subject text ty refs version normalize deleted record format
    ρ (s : St) :
  snd (run (LookupSchema r fuel c subject text ty refs deleted normalize) ρ s) = s /\
  snd (run (CheckCompatibility r fuel c subject text ty refs version normalize) ρ s) = s /\
  snd (run (ValidateSchema r fuel c text ty refs) ρ s) = s /\
  snd (run (NormalizeSchema r fuel c text ty refs) ρ s) = s /\
  snd (run (FormatSchema r c record format) ρ s) = s /\
  snd (run (CheckModeForWrite c subject) ρ s) = s /\
  snd (run (resolveReferences fuel c refs) ρ s) = s.
Proof.
  split_and!; apply run_reads_only;
    unfold LookupSchema, CheckCompatibility, ValidateSchema, NormalizeSchema, FormatSchema,
      CheckModeForWrite, isNormalizeEnabled; reads.
Qed.

(** ** Registration *)

Lemma GetSchemaByFingerprint_Ok e c subject fp d s record :
  GetSchemaByFingerprint e c subject fp d s = Ok record ->
  stored (ctx s c) subject (Version record) = Some record /\ Fingerprint record = fp /\
  Subject record = subject /\ (d = true \/ Deleted record = false).
Proof.
  unfold GetSchemaByFingerprint. destruct (getContext s c) as [cs|] eqn:Eg; [|done].
  apply getContext_Some in Eg. rewrite Eg. case_decide; [done|]. destruct (_ && _); [done|].
  destruct (List.find _ _) as [sc|] eqn:Ef; [|done]. intros [= ->].
  apply find_some in Ef as [Hin Hfp%bool_decide_eq_true].
  apply list_elem_of_In, list_elem_of_omap in Hin as ([v info] & Hin & (content & Hs & [= <-])%bind_Some).
  apply list_elem_of_In, filter_In in Hin as [Hin Hd]. apply list_elem_of_In, elem_of_range in Hin.
  split_and!; [|done|done|].
  - simpl. unfold stored, entry. rewrite Hin. simpl. by rewrite Hs.
  - simpl. unfold live in Hd. rewrite orb_true_iff, negb_true_iff in Hd. tauto.
Qed.

Definition same_stored (s s' : Store) : Prop :=
  forall c subject v, stored (ctx s' c) subject v = stored (ctx s c) subject v.

(** What a registration may do to the store, by its result. *)
Definition registration (c subject : string) (s : Store) (res : result SchemaRecord) (s' : Store) : Prop :=
  Inv s' /\
  match res with
  | Err _ => same_stored s s'
  | Ok rec =>
      exists existing,
        stored (ctx s' c) subject (Version rec) = Some existing /\ Deleted existing = false /\
        ID existing = ID rec /\ Fingerprint existing = Fingerprint rec /\
        SchemaMetadata rec = SchemaMetadata (autoPopulateConfluentVersion existing) /\
        SchemaRuleSet rec = SchemaRuleSet existing /\
        (stored (ctx s c) subject (Version rec) = Some existing \/
         stored (ctx s c) subject (Version rec) = None /\
         Version rec = (last_version (ctx s c) subject + 1)%Z) /\
        (forall c' subject' v, (c', subject', v) <> (c, subject, Version rec) ->
           stored (ctx s' c') subject' v = stored (ctx s c') subject' v)
  end.

Lemma autoPopulate_fields record :
  Version (autoPopulateConfluentVersion record) = Version record /\
  ID (autoPopulateConfluentVersion record) = ID record /\
  Fingerprint (autoPopulateConfluentVersion record) = Fingerprint record /\
  SchemaRuleSet (autoPopulateConfluentVersion record) = SchemaRuleSet record.
Proof. unfold autoPopulateConfluentVersion. by case_match. Qed.

Lemma autoPopulate_metadata a b :
  Version a = Version b -> SchemaMetadata a = SchemaMetadata b ->
  SchemaMetadata (autoPopulateConfluentVersion a) = SchemaMetadata (autoPopulateConfluentVersion b).
Proof. intros Ev Em. unfold autoPopulateConfluentVersion. rewrite Ev. case_match; [done|]. simpl. by rewrite Em. Qed.

(** A stored version returned as it is. *)
Lemma registration_existing c subject s s' existing :
  Inv s' -> same_stored s s' ->
  stored (ctx s c) subject (Version existing) = Some existing -> Deleted existing = false ->
  registration c subject s (Ok (autoPopulateConfluentVersion existing)) s'.
Proof.
  intros Hinv Hsame Hst Hd. split; [done|]. exists existing.
  destruct (autoPopulate_fields existing) as (-> & -> & -> & ->). rewrite Hsame. split_and!; auto.
Qed.

Lemma stored_fresh s c subject :
  Inv s -> stored (ctx s c) subject (last_version (ctx s c) subject + 1)%Z = None.
Proof.
  intros Hinv. destruct (stored _ _ _) eqn:E; [|done].
  apply stored_inv in E as (info & sc & Hv & _). apply (wf_bound _ _ (Inv_ctx s c Hinv)) in Hv. lia.
Qed.

Lemma wp_storeSchema c record cv s :
  Inv s -> fresh_version (ctx s c) (Subject record) -> fresh_id (ctx s c) record ->
  wp (storeSchema c record cv) (registration c (Subject record) s) s.
Proof.
  intros Hinv Hver Hid. unfold storeSchema. apply wp_bind, wp_call. intros e [out record'] s' E.
  change (CreateSchema e c record s = (out, record', s')) in E.
  pose proof (find_duplicate e (ctx s c) record) as Hf.
  destruct (List.find _ _) as [[v info]|].
  - assert (Hdup : has_duplicate (ctx s c) record) by (by exists v, info).
    destruct (CreateSchema_duplicate_eq e c record s Hdup) as (v' & info' & Hv & Hd & Hc).
    rewrite Hc in E. injection E as <- <- <-. clear Hc.
    set (s' := putContext _ _ _).
    assert (Hinv' : Inv s') by (by apply Inv_putContext, wf_initVersions, Inv_ctx).
    assert (Hsame : same_stored s s').
    { intros c' subject w. unfold s'. rewrite ctx_putContext. case_decide; [|done]. subst c'.
      unfold stored. rewrite entry_initVersions.
      by destruct (initVersions_fields (ctx s c) (Subject record)) as [-> _]. }
    assert (Herr : forall err, registration c (Subject record) s (Err err) s') by done.
    unfold fail. cbv iota. rewrite errors_Is_sentinel, bool_decide_true by done.
    apply wp_bind, wp_call. intros e' got s'' E'. injection E' as <- <-.
    destruct (GetSchemaByFingerprint _ _ _ _ _ _) as [existing|err] eqn:Eg; [|by apply wp_ret].
    destruct (_ && _ && _); apply wp_ret; [|done].
    apply GetSchemaByFingerprint_Ok in Eg as (Hst & _ & _ & [?|Hdel]); [done|].
    apply registration_existing; [done..| |done]. by rewrite <- Hsame.
  - destruct (CreateSchema_spec e c record s Hinv Hf Hver Hid)
      as (id & cs1 & _ & Hc & Hwf & Hs & (schema & Hsc & Hfp) & _ & Hent).
    rewrite Hc in E. injection E as <- <- <-. apply wp_ret.
    set (ver := (last_version _ _ + 1)%Z) in *. set (info := MkInfo _ _ _ _ _ _) in *.
    set (cs := addVersion _ _ _ _) in *.
    split; [by apply Inv_putContext|].
    exists (fillRecord schema (Subject record) ver info).
    match goal with |- context [autoPopulateConfluentVersion ?x] => set (rec := x) end.
    destruct (autoPopulate_fields rec) as (-> & -> & -> & ->). unfold rec at 1 3 4 6. cbn [Version ID].
    rewrite ctx_putContext, decide_True by done.
    assert (Hidsc : ID schema = id).
    { apply (wf_id _ _ Hwf). exact Hsc. }
    split_and!; try done.
    + unfold stored, cs. rewrite entry_addVersion, decide_True by done. simpl. by rewrite Hsc.
    + simpl. by apply autoPopulate_metadata.
    + right. split; [by apply stored_fresh|done].
    + intros c' subject' w Hne. rewrite ctx_putContext. case_decide as D; [|done]. subst c'.
      apply stored_frame; [by apply Inv_ctx| |].
      * unfold cs. rewrite entry_addVersion, Hent. case_decide as D; [|done]. by destruct D; subst.
      * intros i sc. by apply stores_id_mono with id.
Qed.

Lemma registration_error c subject s err : Inv s -> registration c subject s (Err err) s.
Proof. intros Hinv. split; [done|]. by intros ???. Qed.

(** The outcome of a program that may be out of fuel. *)
Definition registration_fuel (c subject : string) (s : Store) (res : option (result SchemaRecord)) (s' : Store) : Prop :=
  match res with None => s' = s | Some res => registration c subject s res s' end.

Ltac wp_read := apply wp_reads; [solve [reads]|intros ? ? _].
Tactic Notation "wp_read_as" simple_intropattern(a) := apply wp_reads; [solve [reads]|intros a ? _].

(** Steps over a read-only prefix whose result is forgotten. *)
Ltac wp_skip := first [apply wp_bind_fuel; wp_read | apply wp_bind; wp_read].

Lemma wp_registerParsed r fuel c subject text ty refs resolved p opt s :
  Inv s -> fresh_version (ctx s c) subject -> (forall record, fresh_id (ctx s c) record) ->
  wp (registerParsed r fuel c subject text ty refs resolved p opt) (registration_fuel c subject s) s.
Proof.
  intros Hinv Hver Hid. unfold registerParsed. apply wp_bind, wp_call. intros e got s' E.
  injection E as <- <-. set (got := GetSchemaByFingerprint _ _ _ _ _ _).
  match goal with |- wp (match got with Ok _ => if _ then _ else ?p | Err _ => _ end) _ _ =>
    assert (Hp : wp p (registration_fuel c subject s) s) end.
  { wp_skip. destruct a as [[[]|err]|]; [|apply wp_ret; by apply registration_error|done].
    wp_skip. destruct a as [[]|err]; [|apply wp_ret; by apply registration_error].
    apply wp_bind, wp_call. intros e' prev s' E. injection E as <- <-.
    wp_skip. apply wp_bind. eapply wp_mono; [by apply wp_storeSchema|].
    intros res s' Hres. apply wp_ret. exact Hres. }
  destruct got as [existing|err] eqn:Eg; [|done].
  destruct (_ && _ && _); [|done]. apply wp_ret.
  apply GetSchemaByFingerprint_Ok in Eg as (Hst & _ & _ & [?|Hdel]); [done|].
  apply registration_existing; try done.
Qed.

Lemma wp_RegisterSchema r fuel c subject text ty refs opts s :
  Inv s -> fresh_version (ctx s c) subject -> (forall record, fresh_id (ctx s c) record) ->
  wp (RegisterSchema r fuel c subject text ty refs opts) (registration_fuel c subject s) s.
Proof.
  intros Hinv Hver Hid. unfold RegisterSchema. wp_skip.
  destruct a as [[[resolved p]|err]|]; [|apply wp_ret; by apply registration_error|done].
  destruct (ValidateRuleSet _); [apply wp_ret; by apply registration_error|].
  apply wp_bind. unfold isNormalizeEnabled. wp_read. by apply wp_registerParsed.
Qed.

(** Property C1. Registering a schema either fails and leaves every stored subject
    version of every context as it was, or returns a live version of the
    subject, stored under the returned ID and version: one that was there
    already, or a new one numbered after the subject's last, and then that is
    the only subject version that changes. *)
Theorem RegisterSchema_spec r fuel c subject text ty refs opts ρ s :
  Inv s -> fresh_version (ctx s c) subject -> ids_below (ctx s c) ->
  let '(res, s') := run (RegisterSchema r fuel c subject text ty refs opts) ρ s in
  match res with
  | None => s' = s
  | Some res => registration c subject s res s'
  end.
Proof.
  intros Hinv Hver Hid. apply (wp_RegisterSchema r fuel c subject text ty refs opts s Hinv Hver).
  intros record _. destruct (schemas (ctx s c) !! nextID (ctx s c)) eqn:E; [|done].
  pose proof (Hid (nextID (ctx s c)) ltac:(eauto)). lia.
Qed.

(** ** Concrete collaborators, to evaluate with *)

(** Schemas are their own text; a reader accepts what is not longer than it. *)
Definition plain_checker : SchemaChecker := fun reader writer =>
  if (String.length (SWRSchema writer) <=? String.length (SWRSchema reader))%nat
  then NewCompatibleResult else NewIncompatibleResult ["reader is shorter"].

Definition plain_registry (level : string) : Registry := {|
  parsed := string;
  CanonicalString := fun p => p;
  ParsedFingerprint := fun p => p;
  FormattedString := fun p _ => p;
  NormalizeParsed := fun p => p;
  HasTopLevelField := fun _ _ => false;
  schemaParser := {[ SchemaTypeAvro := fun text _ =>
                       if decide (text = "") then Err (errors_New "empty") else Ok text ]};
  compatChecker := {[ SchemaTypeAvro := plain_checker ]};
  defaultConfig := level;
  sha256_hex := fun text => text
|}.

Lemma read_operations_witness :
  snd (run (LookupSchema (plain_registry "BACKWARD") 3 "." "orders" "[string]" "" [] false false)
         (fun _ => env0) orders_store) = orders_store.
Proof.
  apply (read_operations (plain_registry "BACKWARD") 3 "." "orders" "[string]" "" [] "" false false
           (avro_record "orders" "[string]" "f1") "" (fun _ => env0) orders_store).
Defined.

Lemma ids_below_orders_store : ids_below (ctx orders_store ".").
Proof.
  assert (H : map_Forall (fun id _ => (id < nextID (ctx orders_store "."))%Z) (schemas (ctx orders_store "."))).
  { refine (proj1 (bool_decide_eq_true _) _). vm_compute. reflexivity. }
  intros id [sc Hs]. exact (H id sc Hs).
Qed.

Lemma RegisterSchema_spec_witness :
  exists rec, fst (run (RegisterSchema (plain_registry "BACKWARD") 3 "." "orders" "longer text" "" [] None)
                     (fun _ => env0) orders_store) = Some (Ok rec) /\
    exists existing, stored (ctx (snd (run (RegisterSchema (plain_registry "BACKWARD") 3 "." "orders" "longer text" "" [] None)
                     (fun _ => env0) orders_store)) ".") "orders" (Version rec) = Some existing.
Proof.
  pose proof (RegisterSchema_spec (plain_registry "BACKWARD") 3 "." "orders" "longer text" "" [] None
                (fun _ => env0) orders_store Inv_orders_store) as H.
  destruct (run _ _ _) as [res s'] eqn:E.
  assert (Hok : exists rec, res = Some (Ok rec)).
  { vm_compute in E. injection E as <- _. by eexists. }
  destruct Hok as [rec ->]. exists rec. split; [reflexivity|].
  destruct H as [_ (existing & Hst & _)].
  - split; vm_compute; [discriminate|reflexivity].
  - apply ids_below_orders_store.
  - exists existing. exact Hst.
Defined.

(** ** Termination of a registration *)

Definition ends {A} (p : prog (option A)) (s : Store) : Prop := wp p (fun o s' => s' = s /\ o <> None) s.

Lemma ends_bind_fuel {A B} (p : prog (option A)) (f : A -> prog (option B)) s :
  ends p s -> (forall a, ends (f a) s) -> ends (bind_fuel p f) s.
Proof.
  intros Hp Hf. apply wp_bind_fuel. eapply wp_mono; [exact Hp|].
  intros [a|] s' [-> Hn]; [apply Hf|done].
Qed.

Lemma ends_ret {A} (a : A) s : ends (ret_fuel a) s.
Proof. by apply wp_ret. Qed.

Lemma ends_bind {A B} (p : prog A) (f : A -> prog (option B)) s :
  reads_only p -> (forall a, ends (f a) s) -> ends (bind p f) s.
Proof. intros Hp Hf. apply wp_bind, wp_reads; [done|]. intros a ρ _. apply Hf. Qed.

Lemma ends_resolveReferences fuel c refs s :
  (resolve_fuel s c <= fuel)%nat -> ends (resolveReferences fuel c refs) s.
Proof.
  intros Hf ρ. unfold resolve_fuel in Hf. unfold resolveReferences. destruct refs as [|ref refs]; [done|].
  unfold bind_fuel. rewrite run_bind, run_resolve.
  destruct (resolvePure_total s c fuel (ref :: refs) (∅, [])) as (o & -> & _).
  { unfold not_seen. simpl. rewrite difference_empty_L. lia. }
  by destruct o as [[]|].
Qed.

Ltac solve_ends :=
  repeat match goal with
  | |- ends (ret_fuel _) _ => apply ends_ret
  | |- ends (bind_fuel _ _) _ => apply ends_bind_fuel; [|intros ?]
  | |- ends (bind _ _) _ => apply ends_bind; [solve [reads]|intros ?]
  | |- ends (resolveReferences _ _ _) _ => by apply ends_resolveReferences
  | |- ends (if decide ?P then _ else _) _ => destruct (decide P)
  | |- ends (if ?b then _ else _) _ => destruct b
  | |- ends (match ?x with _ => _ end) _ => destruct x
  | |- ends _ _ => solve [eauto]
  end.

Lemma ends_parseSchema r fuel c text ty refs s :
  (resolve_fuel s c <= fuel)%nat -> ends (parseSchema r fuel c text ty refs) s.
Proof. intros Hf. unfold parseSchema. solve_ends. Qed.

Lemma ends_resolveExisting fuel c l s :
  (resolve_fuel s c <= fuel)%nat -> ends (resolveExisting fuel c l) s.
Proof. intros Hf. induction l; cbn [resolveExisting]; solve_ends. Qed.

Lemma ends_checkRegistration r fuel c subject ty text refs meta s :
  (resolve_fuel s c <= fuel)%nat -> ends (checkRegistration r fuel c subject ty text refs meta) s.
Proof.
  intros Hf. pose proof (fun l => ends_resolveExisting fuel c l s Hf).
  unfold checkRegistration, checkAgainst. solve_ends.
Qed.

Lemma total_RegisterSchema r fuel c subject text ty refs opts s :
  (resolve_fuel s c <= fuel)%nat -> wp (RegisterSchema r fuel c subject text ty refs opts) (fun o _ => o <> None) s.
Proof.
  intros Hf. unfold RegisterSchema. apply wp_bind_fuel. eapply wp_mono; [by apply ends_parseSchema|].
  intros [a|] s' [-> Hn]; [|done]. destruct a as [[resolved p]|]; [|by apply wp_ret].
  destruct (ValidateRuleSet _); [by apply wp_ret|].
  apply wp_bind. unfold isNormalizeEnabled. wp_read.
  unfold registerParsed. apply wp_bind. wp_read_as existing.
  match goal with |- wp (match _ with Ok _ => if _ then _ else ?p | Err _ => _ end) _ _ =>
    assert (Hp : wp p (fun o _ => o <> None) s) end.
  { apply wp_bind_fuel. eapply wp_mono; [by apply ends_checkRegistration|].
    intros [a1|] s' [-> Hn1]; [|done]. destruct a1; [|by apply wp_ret].
    apply wp_bind. wp_read_as [_|err]; [|by apply wp_ret].
    apply wp_bind. wp_read. apply wp_bind. wp_read. apply wp_bind. intros ρ'.
    destruct (run _ ρ' s). by apply wp_ret. }
  destruct existing; [|done]. destruct (_ && _ && _); [by apply wp_ret|done].
Qed.

(** Property C19. With the fuel that suffices for resolving references, a
    registration and a compatibility check always come to a result. *)
Theorem RegisterSchema_total r fuel c subject text ty refs opts version normalize ρ s :
  (resolve_fuel s c <= fuel)%nat ->
  fst (run (RegisterSchema r fuel c subject text ty refs opts) ρ s) <> None /\
  fst (run (CheckCompatibility r fuel c subject text ty refs version normalize) ρ s) <> None.
Proof.
  intros Hf. split.
  - pose proof (total_RegisterSchema r fuel c subject text ty refs opts s Hf ρ) as Hw. by destruct (run _ ρ s).
  - enough (Hw : ends (CheckCompatibility r fuel c subject text ty refs version normalize) s).
    { specialize (Hw ρ). by destruct (run _ ρ s) as [o s'], Hw. }
    pose proof (ends_parseSchema r fuel c text (defaultType ty) refs s Hf).
    pose proof (fun l => ends_resolveExisting fuel c l s Hf).
    unfold CheckCompatibility, schemasToCheck, isNormalizeEnabled. solve_ends.
Qed.

Lemma RegisterSchema_total_witness :
  fst (run (RegisterSchema (plain_registry "FULL") 9 "." "orders" "text" "" [item_ref] None)
         (fun _ => env0) refs_store) <> None.
Proof.
  apply (RegisterSchema_total (plain_registry "FULL") 9 "." "orders" "text" "" [item_ref] None "" false
           (fun _ => env0) refs_store).
  vm_compute. lia.
Defined.

(** ** Registration and compatibility

    A registration that stores a new version has passed the compatibility check
    of the level in force, against the versions the level selects. *)














(** An incompatible schema is refused. *)
Example RegisterSchema_refuses :
  exists err s', run (RegisterSchema (plain_registry "BACKWARD") 3 "." "orders" "short" "" [] None)
                   (fun _ => env0) orders_store = (Some (Err err), s') /\
    errors_Is err ErrIncompatibleSchema = true.
Proof. eexists _, _. split; vm_compute; reflexivity. Qed.
