(* ===== verification/RegistryDelete.v ===== *)
(** * Deletion and referential integrity

    A reference of a live schema that names a version number names a live
    version: the deletions of the registry keep it so. *)
From S2P Require Import Prelude GoStrings StorageTypes MemState MemStore MemInvariant MemStoreFacts MemDelete MemSteps MemQueries StorageIface ProgLogic RegistryConfig RegistryRefs RegistryOps RegistryFacts.
From Stdlib Require Import String.

Local Open Scope Z_scope.

(** Every numbered reference of a live schema has a live target. *)
Definition intact (cs : contextStore) : Prop :=
  forall subject v record ref,
    stored cs subject v = Some record -> Deleted record = false ->
    ref ∈ References record -> RefVersion ref <> -1 ->
    exists target, stored cs (RefSubject ref) (RefVersion ref) = Some target /\ Deleted target = false.

(** Live schemas refer to no version in [gone]. *)
Definition unreferenced (cs : contextStore) (gone : string -> Z -> Prop) : Prop :=
  forall subject v record ref,
    stored cs subject v = Some record -> Deleted record = false -> ref ∈ References record ->
    ~ gone (RefSubject ref) (RefVersion ref).

(** A deletion that spares the live versions outside [gone]. *)
Lemma intact_delete cs cs' gone :
  intact cs -> unreferenced cs gone ->
  (forall subject v record, stored cs' subject v = Some record -> Deleted record = false ->
     stored cs subject v = Some record) ->
  (forall subject v record, stored cs subject v = Some record -> Deleted record = false ->
     ~ gone subject v -> stored cs' subject v = Some record) ->
  intact cs'.
Proof.
  intros Hi Hu Hback Hkeep subject v record ref Hst Hd Hr Hv.
  specialize (Hback _ _ _ Hst Hd). destruct (Hi _ _ _ _ Hback Hd Hr Hv) as (target & Ht & Hd').
  exists target. split; [|done]. apply Hkeep; [done..|]. exact (Hu _ _ _ _ Hback Hd Hr).
Qed.

Lemma GetReferencedBy_nil e c s subject v :
  GetReferencedBy e c subject v s = [] ->
  unreferenced (ctx s c) (fun subject' v' => subject' = subject /\ v' = v).
Proof.
  intros Hn sub w record ref Hst Hd Hr [Es Ev].
  assert (Hin : MkSubjectVersion sub w ∈ GetReferencedBy e c subject v s).
  { apply elem_of_GetReferencedBy. exists record. split_and!; [done..|]. by exists ref. }
  rewrite Hn in Hin. set_solver.
Qed.

(** ** DeleteVersion *)

Lemma intact_DeleteSchema c subject v permanent s :
  Inv s -> intact (ctx s c) ->
  (permanent = false -> unreferenced (ctx s c) (fun subject' v' => subject' = subject /\ v' = v)) ->
  intact (ctx (snd (DeleteSchema c subject v permanent s)) c) /\
  Inv (snd (DeleteSchema c subject v permanent s)).
Proof.
  intros Hinv Hi Hu. pose proof (DeleteSchema_cases c subject v permanent s Hinv) as H.
  destruct (DeleteSchema c subject v permanent s) as [res s']. cbv zeta in H. simpl.
  destruct (stored (ctx s c) subject v) as [record|] eqn:Est; [|by destruct H as [-> _]].
  destruct (permanent && negb (Deleted record)) eqn:Ep; [by destruct H as [-> _]|].
  destruct H as (_ & Hst & _ & _ & Hinv'). split; [|done].
  apply (intact_delete (ctx s c) _ (fun subject' v' => permanent = false /\ subject' = subject /\ v' = v)); [done| | |].
  - intros sub w rec ref H1 H2 H3 (Hp & H4). exact (Hu Hp _ _ _ _ H1 H2 H3 H4).
  - intros sub w rec. rewrite Hst. case_decide as D; [|done]. destruct D as [<- <-].
    destruct permanent; [done|]. by intros [= <-].
  - intros sub w rec Hs Hd Hn. rewrite Hst. case_decide as D; [|done]. destruct D as [<- <-].
    destruct permanent; [|naive_solver]. rewrite Est in Hs. injection Hs as ->. by rewrite Hd in Ep.
Qed.

Definition keeps_intact {A} (c : string) (_ : A) (s : Store) : Prop := Inv s /\ intact (ctx s c).

Lemma wp_DeleteVersion c subject v permanent s :
  Inv s -> intact (ctx s c) -> wp (DeleteVersion c subject v permanent) (keeps_intact c) s.
Proof.
  intros Hinv Hi. unfold DeleteVersion.
  match goal with |- context [bind (invoke (CDeleteSchema c subject _ permanent)) ?k] => idtac end.
  assert (Hremove : forall w, (permanent = false ->
      unreferenced (ctx s c) (fun subject' v' => subject' = subject /\ v' = w)) ->
    wp (let! deleted := invoke (CDeleteSchema c subject w permanent) in
        match deleted with Err err => Ret (Err err) | Ok _ => Ret (Ok w) end)%prog (keeps_intact c) s).
  { intros w Hu. apply wp_bind, wp_call. intros e b s' E.
    destruct (intact_DeleteSchema c subject w permanent s Hinv Hi Hu) as [H1 H2].
    change (DeleteSchema c subject w permanent s = (b, s')) in E. rewrite E in H1, H2.
    destruct b; by apply wp_ret. }
  destruct permanent.
  - destruct (_ =? _); [|by apply Hremove].
    apply wp_bind. wp_read_as schemas. destruct schemas as [l|err]; [|by apply wp_ret].
    destruct (_ =? _); [by apply wp_ret|]. by apply Hremove.
  - apply wp_bind. wp_read_as schema. destruct schema as [schema|err]; [|by apply wp_ret].
    apply wp_bind, wp_call. intros e b s' E. injection E as <- <-.
    destruct (GetReferencedBy _ _ _ _ _) eqn:Er; [|by apply wp_ret].
    apply Hremove. intros _. by eapply GetReferencedBy_nil.
Qed.

(** ** DeleteSubject *)

Lemma wp_firstReferenced c subject l s :
  wp (firstReferenced c subject l) (fun res s' => s' = s /\
    (res = Ok None -> unreferenced (ctx s c) (fun subject' v' => subject' = subject /\ v' ∈ map Version l))) s.
Proof.
  induction l as [|x l IH]; cbn [firstReferenced].
  { apply wp_ret. split; [done|]. intros _ sub w record ref _ _ _ [_ H]. set_solver. }
  apply wp_bind, wp_call. intros e b s' E. injection E as <- <-.
  destruct (GetReferencedBy _ _ _ _ _) eqn:Er; [|by apply wp_ret].
  eapply wp_mono; [exact IH|]. intros res s' [-> H]. split; [done|]. intros Hres. specialize (H Hres).
  intros sub w record ref H1 H2 H3 [H4 H5]. simpl in H5. apply elem_of_cons in H5 as [H5|H5].
  - exact (GetReferencedBy_nil e c s subject (Version x) Er _ _ _ _ H1 H2 H3 (conj H4 H5)).
  - exact (H _ _ _ _ H1 H2 H3 (conj H4 H5)).
Qed.

Lemma intact_DeleteSubject e c subject permanent s :
  Inv s -> intact (ctx s c) ->
  (permanent = false -> unreferenced (ctx s c) (fun subject' v' => subject' = subject /\
     exists record, stored (ctx s c) subject v' = Some record /\ Deleted record = false)) ->
  keeps_intact c tt (snd (MemStore.DeleteSubject e c subject permanent s)).
Proof.
  intros Hinv Hi Hu. pose proof (DeleteSubject_cases e c subject permanent s Hinv) as H.
  destruct (MemStore.DeleteSubject e c subject permanent s) as [[versions|err] s']; cbv zeta in H; simpl.
  2: { by destruct H as [-> _]. }
  destruct H as (_ & _ & _ & Hall & Hst & _ & Hinv'). split; [done|].
  apply (intact_delete (ctx s c) _ (fun subject' v' => permanent = false /\ subject' = subject /\
     exists record, stored (ctx s c) subject v' = Some record /\ Deleted record = false)); [done| | |].
  - intros sub w rec ref H1 H2 H3 (Hp & H4). exact (Hu Hp _ _ _ _ H1 H2 H3 H4).
  - intros sub w rec. rewrite Hst. case_decide as D; [|done]. destruct permanent; [done|].
    subst sub. destruct (stored (ctx s c) subject w); [|done]. by intros [= <-].
  - intros sub w rec Hs Hd Hn. rewrite Hst. case_decide as D; [|done]. subst sub.
    destruct permanent; [|destruct Hn; eauto].
    specialize (Hall eq_refl _ _ Hs). congruence.
Qed.

(** Deleting the subject's configuration and mode changes no schema. *)
Lemma keeps_same c subject s s1 s2 e1 e2 b1 b2 :
  memory_handle e1 (CDeleteConfig c subject) s = (b1, s1) ->
  memory_handle e2 (CDeleteMode c subject) s1 = (b2, s2) ->
  keeps_intact c tt s -> keeps_intact c tt s2.
Proof.
  intros E1 E2 [Hinv Hi].
  assert (H1 : keeps_intact c tt s1).
  { simpl in E1. unfold MemStore.DeleteConfig in E1. destruct (getContext s c) as [cs|] eqn:Eg; [|by injection E1 as _ <-].
    destruct (configs cs !! subject); [|by injection E1 as _ <-]. injection E1 as _ <-.
    apply getContext_Some in Eg. split.
    - apply Inv_putContext; [done|]. pose proof (Inv_ctx s c Hinv) as Hwf. rewrite Eg in Hwf.
      by apply (wf_same_schemas cs).
    - rewrite ctx_putContext, decide_True by done. rewrite <- Eg. exact Hi. }
  clear Hinv Hi. destruct H1 as [Hinv Hi].
  simpl in E2. unfold MemStore.DeleteMode in E2. destruct (getContext s1 c) as [cs|] eqn:Eg; [|by injection E2 as _ <-].
  destruct (modes cs !! subject); [|by injection E2 as _ <-]. injection E2 as _ <-.
  apply getContext_Some in Eg. split.
  - apply Inv_putContext; [done|]. pose proof (Inv_ctx s1 c Hinv) as Hwf. rewrite Eg in Hwf.
    by apply (wf_same_schemas cs).
  - rewrite ctx_putContext, decide_True by done. rewrite <- Eg. exact Hi.
Qed.

Lemma wp_DeleteSubject c subject permanent s :
  Inv s -> intact (ctx s c) -> wp (RegistryOps.DeleteSubject c subject permanent) (keeps_intact c) s.
Proof.
  intros Hinv Hi. unfold RegistryOps.DeleteSubject.
  match goal with |- wp (if permanent then ?p else _) _ _ =>
    assert (Hremove : (permanent = false ->
        unreferenced (ctx s c) (fun subject' v' => subject' = subject /\
          exists record, stored (ctx s c) subject v' = Some record /\ Deleted record = false)) ->
      wp p (keeps_intact c) s) end.
  { intros Hu. apply wp_bind, wp_call. intros e b s' E.
    pose proof (intact_DeleteSubject e c subject permanent s Hinv Hi Hu) as Hk.
    change (MemStore.DeleteSubject e c subject permanent s = (b, s')) in E. rewrite E in Hk. simpl in Hk.
    destruct b as [versions|err]; [|by apply wp_ret].
    destruct permanent; [|by apply wp_ret].
    apply wp_bind, wp_call. intros e1 b1 s1 E1. apply wp_bind, wp_call. intros e2 b2 s2 E2. apply wp_ret.
    pose proof (keeps_same c subject s' s1 s2 e1 e2 b1 b2) as Hs. by apply Hs. }
  destruct permanent; [by apply Hremove|].
  apply wp_bind, wp_call. intros e got s' E. injection E as <- <-.
  destruct (GetSchemasBySubject e c subject false s) as [l|err] eqn:El.
  - apply wp_bind. eapply wp_mono; [apply wp_firstReferenced|]. intros res s' [-> Hn].
    destruct res as [[v|]|err]; [by apply wp_ret| |by apply wp_ret].
    apply Hremove. intros _ sub w record ref H1 H2 H3 (H4 & rec & Hst & Hd).
    apply (Hn eq_refl _ _ _ _ H1 H2 H3). split; [done|].
    assert (Hin : rec ∈ l).
    { apply (elem_of_GetSchemasBySubject e c subject false s l rec El).
      pose proof (stored_inv _ _ _ _ Hst) as (info & sc & _ & _ & ->). simpl. eauto. }
    pose proof (stored_inv _ _ _ _ Hst) as (info & sc & _ & _ & Hrec).
    apply list_elem_of_fmap. exists rec. split; [|done]. by rewrite Hrec.
  - apply Hremove. intros _ sub w record ref H1 H2 H3 (H4 & rec & Hst & Hd).
    destruct (GetSchemasBySubject_Err _ _ _ _ _ _ _ _ El Hst). congruence.
Qed.

(** Property C6. Deleting a version or a subject, soft or permanent, keeps
    referential integrity: if every numbered reference of a live schema had a
    live target before, it has one after, and the store stays consistent. *)
Theorem deletion_keeps_references c subject v permanent ρ s :
  Inv s -> intact (ctx s c) ->
  let s1 := snd (run (DeleteVersion c subject v permanent) ρ s) in
  let s2 := snd (run (RegistryOps.DeleteSubject c subject permanent) ρ s) in
  (Inv s1 /\ intact (ctx s1 c)) /\ (Inv s2 /\ intact (ctx s2 c)).
Proof.
  intros Hinv Hi. cbv zeta. split.
  - pose proof (wp_DeleteVersion c subject v permanent s Hinv Hi ρ) as H. by destruct (run _ ρ s).
  - pose proof (wp_DeleteSubject c subject permanent s Hinv Hi ρ) as H. by destruct (run _ ρ s).
Qed.

Lemma Inv_refs_store : Inv refs_store.
Proof.
  unfold refs_store. apply CreateSchema_Inv.
  - apply CreateSchema_Inv; [apply Inv_NewStore|split; vm_compute; [discriminate|reflexivity]|intros _; reflexivity].
  - split; vm_compute; [discriminate|reflexivity].
  - intros _. vm_compute. reflexivity.
Qed.

Lemma intact_refs_store : intact (ctx refs_store ".").
Proof.
  intros subject v record ref (info & sc & Hv & Hs & ->)%stored_inv _ Hr _. simpl in Hr.
  apply (elem_of_entries env0) in Hv. remember (entries env0 _) as l eqn:El. vm_compute in El. subst l.
  apply list_elem_of_In in Hv as [Hv|[Hv|[]]]; injection Hv as <- <- <-;
    vm_compute in Hs; injection Hs as <-; simpl in Hr.
  - apply list_elem_of_singleton in Hr as ->. eexists. split; vm_compute; reflexivity.
  - by apply elem_of_nil in Hr.
Qed.

Lemma deletion_keeps_references_witness :
  intact (ctx (snd (run (DeleteVersion "." "items" 1 false) (fun _ => env0) refs_store)) ".") /\
  fst (run (DeleteVersion "." "items" 1 false) (fun _ => env0) refs_store) = fail ErrReferenceExists.
Proof.
  split; [|vm_compute; reflexivity].
  destruct (deletion_keeps_references "." "items" 1 false (fun _ => env0) refs_store Inv_refs_store intact_refs_store)
    as [[_ H] _].
  exact H.
Defined.

(** Finding: a reference to version [-1] resolves to the latest version, but
    GetReferencedBy compares version numbers only, so the referenced subject
    can be deleted and the reference no longer resolves. *)
Definition latest_ref : Reference := MkReference "item" "items" (-1) "".

Definition latest_refs_store : Store :=
  let item := avro_record "items" "item" "f2" in
  let order := {| (avro_record "orders" "order" "f3") with References := [latest_ref] |} in
  snd (CreateSchema env0 "." order (snd (CreateSchema env0 "." item NewStore))).

Example latest_reference_is_not_protected :
  let ρ := fun _ : nat => env0 in
  let '(before, _) := run (resolveReferences 4 "." [latest_ref]) ρ latest_refs_store in
  let '(res, s') := run (DeleteVersion "." "items" 1 false) ρ latest_refs_store in
  let '(after, _) := run (resolveReferences 4 "." [latest_ref]) ρ s' in
  (exists l, before = Some (Ok l)) /\ res = Ok 1 /\
  (exists err, after = Some (Err err) /\ errors_Is err ErrSubjectNotFound = true).
Proof. vm_compute. split_and!; [by eexists|done|by eexists]. Qed.
