(* ===== verification/RegistryImport.v ===== *)
(** * Import with given IDs

    ImportSchemas moves the ID sequence past everything it imported, so that
    later registrations get fresh IDs; what happens when a registration comes
    in between is shown at the end. *)
From S2P Require Import Prelude GoStrings StorageTypes MemState MemStore MemInvariant MemStoreFacts MemDelete MemSteps MemQueries StorageIface ProgLogic RegistryConfig RegistryRefs RegistrySchemas RegistryOps RegistryFacts.
From Stdlib Require Import String.

Local Open Scope Z_scope.

(** ** One import *)

(** What is stored stays, the sequence too, and nothing comes in but the content
    of [id] and the version [v] of [subject]. *)
Definition grows (c : string) (id : Z) (subject : string) (v : Z) (s s' : Store) : Prop :=
  Inv s' /\ nextID (ctx s' c) = nextID (ctx s c) /\
  (forall sub w info, entry (ctx s c) sub w = Some info -> entry (ctx s' c) sub w = Some info) /\
  (forall used sc, schemas (ctx s c) !! used = Some sc -> schemas (ctx s' c) !! used = Some sc) /\
  (forall used, is_Some (schemas (ctx s' c) !! used) -> is_Some (schemas (ctx s c) !! used) \/ used = id) /\
  (forall sub w info, entry (ctx s' c) sub w = Some info -> entry (ctx s c) sub w = Some info \/ (sub = subject /\ w = v)).

Lemma grows_refl c id subject v s : Inv s -> grows c id subject v s s.
Proof. intros. split_and!; auto. Qed.

Lemma ImportSchema_grows e c record s res record' s' :
  Inv s -> ImportSchema e c record s = (res, record', s') ->
  grows c (ID record) (Subject record) (Version record) s s' /\
  (is_ok res = true ->
   (exists info, entry (ctx s' c) (Subject record) (Version record) = Some info /\
      schemaID info = ID record /\ deleted info = false) /\
   exists sc, schemas (ctx s' c) !! ID record = Some sc /\ Fingerprint sc = Fingerprint record /\
     (schemas (ctx s c) !! ID record = Some sc \/ sc = schemaContent (ID record) record)).
Proof.
  intros Hinv E. pose proof (ImportSchema_Inv e c record s Hinv) as Hinv'.
  pose proof (ImportSchema_cases e c record s) as H. cbv zeta in H. rewrite E in H, Hinv'. simpl in Hinv'.
  destruct (initVersions_fields (ctx s c) (Subject record)) as (Es & _ & _ & _ & En & _).
  destruct H as [(-> & -> & _)|[(-> & _ & -> & _)|(-> & _ & Hfp & Hnone & ->)]].
  - split; [|done]. unfold grows. rewrite ctx_putContext, decide_True by done. split_and!; auto.
  - split; [|done]. unfold grows. rewrite ctx_putContext, decide_True by done. rewrite En, Es.
    split_and!; auto; intros sub v info; rewrite entry_initVersions; auto.
  - unfold grows. rewrite ctx_putContext, decide_True by done.
    set (cs' := addVersion _ _ _ _).
    assert (forall sub v, entry cs' sub v = if decide (Subject record = sub /\ Version record = v)
      then Some (MkInfo (ID record) (Version record) false (now e 0) (SchemaMetadata record) (SchemaRuleSet record))
      else entry (ctx s c) sub v) as He.
    { intros sub v. unfold cs'. rewrite entry_addVersion. case_decide; [done|].
      by rewrite <- (entry_initVersions (ctx s c) (Subject record)). }
    assert (schemas cs' = match schemas (ctx s c) !! ID record with
      | Some _ => schemas (ctx s c) | None => <[ID record := schemaContent (ID record) record]> (schemas (ctx s c)) end) as Hs.
    { unfold cs'. simpl. by rewrite Es. }
    split.
    + split_and!; [done|by simpl| | | |].
      * intros sub v info Hv. rewrite He. case_decide as D; [destruct D; congruence|done].
      * intros used sc Hu. rewrite Hs. destruct (schemas (ctx s c) !! ID record) eqn:Ei; [done|].
        rewrite lookup_insert_ne; [done|congruence].
      * intros used. rewrite Hs. destruct (schemas (ctx s c) !! ID record); [by intros; left|].
        rewrite lookup_insert. case_decide; [by right|by intros; left].
      * intros sub v info. rewrite He. case_decide as D; [destruct D as [<- <-]; by right|by left].
    + intros _. split; [eexists; by rewrite He, decide_True|]. rewrite Hs.
      destruct (schemas (ctx s c) !! ID record) as [sc|] eqn:Ei.
      * exists sc. rewrite Ei. split_and!; auto.
      * exists (schemaContent (ID record) record). rewrite lookup_insert_eq. auto.
Qed.

(** The content a request asks to store. *)
Definition asks (req : ImportSchemaRequest) (sc : SchemaRecord) : Prop :=
  Schema sc = ReqSchema req /\ SchemaType sc = defaultType (ReqSchemaType req) /\ References sc = ReqReferences req.

(** A request is imported in [s]: its version is there and live, under its ID,
    whose content has the fingerprint of the request's schema as it parses and is
    what was stored in [s0] before or what one of the requests [reqs] asked for
    under this ID. *)
Definition imported (r : Registry) (c : string) (s0 : Store) (reqs : list ImportSchemaRequest) (req : ImportSchemaRequest)
    (s : Store) : Prop :=
  (exists info, entry (ctx s c) (ReqSubject req) (ReqVersion req) = Some info /\
     schemaID info = ReqID req /\ deleted info = false) /\
  exists sc parse refs p, schemas (ctx s c) !! ReqID req = Some sc /\
    schemaParser r !! defaultType (ReqSchemaType req) = Some parse /\ parse (ReqSchema req) refs = Ok p /\
    Fingerprint sc = globalFingerprint r p (ReqReferences req) /\
    (schemas (ctx s0 c) !! ReqID req = Some sc \/ exists req', req' ∈ reqs /\ ReqID req' = ReqID req /\ asks req' sc).

Lemma imported_grows r c s0 reqs id subject v req s s' :
  grows c id subject v s s' -> imported r c s0 reqs req s -> imported r c s0 reqs req s'.
Proof.
  intros (_ & _ & He & Hc & _) ((info & Hi & Hid) & sc & parse & refs & p & Hsc & H).
  split; [eauto|]. exists sc, parse, refs, p. eauto.
Qed.

(** An import makes at most two more references resolve. *)
Lemma grows_fuel c id subject v s s' : grows c id subject v s s' -> (resolve_fuel s' c <= resolve_fuel s c + 2)%nat.
Proof.
  intros (_ & _ & _ & _ & _ & He). unfold resolve_fuel.
  set (new := {[ (subject ++ ":" ++ Itoa v)%string; (subject ++ ":" ++ Itoa (-1))%string ]} : gset string).
  assert (resolvable_keys s' c ⊆ resolvable_keys s c ∪ new) as Hsub.
  { intros key. unfold resolvable_keys. rewrite elem_of_union, !elem_of_list_to_set, !elem_of_app, !list_elem_of_fmap.
    intros [([sub [w info]] & -> & Hin%elem_of_entries)|([sub [w info]] & -> & Hin%elem_of_entries)];
      destruct (He sub w info Hin) as [Hold%(elem_of_entries env0)|[-> ->]]; try (right; unfold new; set_solver); left; [left|right];
      by exists (sub, (w, info)). }
  pose proof (subseteq_size _ _ Hsub) as Hsize. pose proof (size_union_alt (resolvable_keys s c) new) as Hu.
  assert (size new <= 2)%nat as Hnew.
  { unfold new. etrans; [apply subseteq_size, (reflexivity (R := (⊆)))|]. rewrite size_union_alt, size_singleton.
    etrans; [apply Nat.add_le_mono_l, (subseteq_size _ {[ (subject ++ ":" ++ Itoa (-1))%string ]}); set_solver|]. by rewrite size_singleton. }
  pose proof (subseteq_size (new ∖ resolvable_keys s c) new ltac:(set_solver)). lia.
Qed.

Lemma wp_resolveReferences fuel c refs s :
  wp (resolveReferences fuel c refs) (fun o s' => s' = s /\ ((resolve_fuel s c <= fuel)%nat -> o <> None)) s.
Proof.
  destruct (decide (resolve_fuel s c <= fuel)%nat) as [Hf|].
  - eapply wp_mono; [by apply ends_resolveReferences|]. by intros o s' [-> Ho].
  - apply wp_reads; [reads|]. done.
Qed.

Lemma wp_importOne r fuel c req s :
  Inv s ->
  wp (importOne r fuel c req) (fun o s' => grows c (ReqID req) (ReqSubject req) (ReqVersion req) s s' /\
    ((resolve_fuel s c <= fuel)%nat -> o <> None) /\
    match o with
    | Some None => 0 < ReqID req /\ imported r c s [req] req s'
    | _ => s' = s \/ forall used, is_Some (schemas (ctx s' c) !! used) -> is_Some (schemas (ctx s c) !! used)
    end) s.
Proof.
  intros Hinv. unfold importOne. pose proof (grows_refl c (ReqID req) (ReqSubject req) (ReqVersion req) s Hinv) as Hg.
  destruct (Z.leb_spec (ReqID req) 0) as [|Hid]; [apply wp_ret; auto|].
  case_decide; [apply wp_ret; auto|]. destruct (_ <=? 0); [apply wp_ret; auto|].
  case_decide; [apply wp_ret; auto|]. destruct (schemaParser r !! _) as [parse|] eqn:Eparse; [|apply wp_ret; auto].
  apply wp_bind_fuel. eapply wp_mono; [apply wp_resolveReferences|]. intros [refs|] s1 [-> Hn]; [|split; [done|split; [by intros ?%Hn|by left]]].
  destruct refs as [refs|]; [|apply wp_ret; auto].
  destruct (parse _ _) as [p|] eqn:Ep; [|apply wp_ret; auto].
  apply wp_bind, wp_call. intros e [out rec] s' E.
  match type of E with handle _ (CImportSchema _ ?rec0) _ = _ => set (record := rec0) in E end.
  change (ImportSchema e c record s = (out, rec, s')) in E.
  pose proof (ImportSchema_cases e c record s) as Hc. cbv zeta in Hc.
  destruct (ImportSchema_grows e c record s _ _ _ Hinv E) as [Hg' Hok]. rewrite E in Hc.
  destruct out as [[]|err]; apply wp_ret; (split; [exact Hg'|split; [done|]]).
  - split; [done|]. destruct Hok as [Hentry (sc & Hsc & Hf & Hold)]; [done|]. split; [exact Hentry|].
    exists sc, parse, refs, p. split_and!; [exact Hsc|done|done|exact Hf|].
    destruct Hold as [Hold| ->]; [by left|right]. exists req. split_and!; [set_solver|done..].
  - right. destruct (initVersions_fields (ctx s c) (Subject record)) as (Es & _).
    destruct Hc as [(_ & -> & _)|[(_ & _ & -> & _)|([=] & _)]];
      rewrite ctx_putContext, decide_True by done; [auto|]. by rewrite Es.
Qed.

(** ** The loop *)

(** What an import of [reqs] into [s0] has done so far: [maxID] bounds the IDs it
    brought, and [gone] requests are behind it. *)
Record loop_inv (c : string) (s0 : Store) (reqs : list ImportSchemaRequest) (gone : nat) (maxID : Z) (s : Store) : Prop := {
  loop_Inv : Inv s;
  loop_next : nextID (ctx s c) = nextID (ctx s0 c);
  loop_max : 0 <= maxID < Int64.max;
  loop_used used : is_Some (schemas (ctx s c) !! used) -> is_Some (schemas (ctx s0 c) !! used) \/ used <= maxID;
  loop_entries sub v info : entry (ctx s0 c) sub v = Some info -> entry (ctx s c) sub v = Some info;
  loop_contents used sc : schemas (ctx s0 c) !! used = Some sc -> schemas (ctx s c) !! used = Some sc;
  loop_origin used sc : schemas (ctx s c) !! used = Some sc ->
    schemas (ctx s0 c) !! used = Some sc \/ exists req, req ∈ reqs /\ ReqID req = used /\ asks req sc;
  loop_new sub v info : entry (ctx s c) sub v = Some info ->
    entry (ctx s0 c) sub v = Some info \/ exists req, req ∈ reqs /\ sub = ReqSubject req /\ v = ReqVersion req;
  loop_fuel : (resolve_fuel s c <= resolve_fuel s0 c + 2 * gone)%nat
}.

(** What the results say of the requests they are for. *)
Definition result_ok (r : Registry) (c : string) (s0 : Store) (reqs : list ImportSchemaRequest) (s : Store)
    (req : ImportSchemaRequest) (res : ImportSchemaResult) : Prop :=
  ResID res = ReqID req /\ ResSubject res = ReqSubject req /\ ResVersion res = ReqVersion req /\
  (Success res = true -> imported r c s0 reqs req s).

Lemma loop_failed c s0 reqs gone maxID req s s' :
  loop_inv c s0 reqs gone maxID s -> req ∈ reqs -> grows c (ReqID req) (ReqSubject req) (ReqVersion req) s s' ->
  (forall used, is_Some (schemas (ctx s' c) !! used) -> is_Some (schemas (ctx s c) !! used)) ->
  loop_inv c s0 reqs (S gone) maxID s'.
Proof.
  intros [Hi Hn Hm Hu He Hc Ho Hw Hf] Hin Hg Hold. pose proof (grows_fuel _ _ _ _ _ _ Hg) as Hfuel.
  destruct Hg as (Hi' & Hn' & He' & Hc' & Hu' & Hw'). split; try done.
  - congruence.
  - intros used Hs. apply Hu, Hold, Hs.
  - eauto.
  - eauto.
  - intros used sc Hs. destruct (Hold used) as [sc' Hs']; [eauto|]. pose proof (Hc' _ _ Hs'). apply Ho. congruence.
  - intros sub v info [Hs|[-> ->]]%Hw'; [by eapply Hw|]. right. eauto.
  - lia.
Qed.

Lemma loop_imported r c s0 reqs gone maxID req s s' :
  loop_inv c s0 reqs gone maxID s -> req ∈ reqs -> ReqID req < Int64.max ->
  grows c (ReqID req) (ReqSubject req) (ReqVersion req) s s' -> 0 < ReqID req -> imported r c s [req] req s' ->
  loop_inv c s0 reqs (S gone) (if maxID <? ReqID req then ReqID req else maxID) s' /\ imported r c s0 reqs req s'.
Proof.
  intros [Hi Hn Hm Hu He Hc Ho Hw Hf] Hin Hid Hg Hpos (Hentry & sc & parse & refs & p & Hsc & Hparse & Hp & Hfp & Hold).
  pose proof (grows_fuel _ _ _ _ _ _ Hg) as Hfuel. destruct Hg as (Hi' & Hn' & He' & Hc' & Hu' & Hw').
  assert (schemas (ctx s0 c) !! ReqID req = Some sc \/ exists req', req' ∈ reqs /\ ReqID req' = ReqID req /\ asks req' sc) as Horigin.
  { destruct Hold as [Hold|(req' & ->%list_elem_of_singleton & _ & Ha)]; [by apply Ho|right; eauto]. }
  split; [|split; [done|]; exists sc, parse, refs, p; by split_and!]. split; try done.
  - congruence.
  - destruct (_ <? _); lia.
  - intros used [Hs| ->]%Hu'; destruct (Z.ltb_spec maxID (ReqID req)); try (right; lia); destruct (Hu _ Hs); auto; right; lia.
  - eauto.
  - eauto.
  - intros used sc' Hs. destruct (Hu' used) as [[sc1 Hs1]| ->]; [eauto| |by assert (sc' = sc) as -> by congruence].
    pose proof (Hc' _ _ Hs1). apply Ho. congruence.
  - intros sub v info [Hs|[-> ->]]%Hw'; [by eapply Hw|]. right. eauto.
  - lia.
Qed.

Lemma wp_importLoop r fuel c s0 reqs todo : forall gone result maxID s,
  reqs = (gone ++ todo)%list -> loop_inv c s0 reqs (List.length gone) maxID s ->
  (forall req, req ∈ reqs -> ReqID req < Int64.max) ->
  Forall2 (result_ok r c s0 reqs s) gone (Results result) ->
  wp (importLoop r fuel c todo result maxID) (fun o s' =>
    ((resolve_fuel s0 c + 2 * List.length reqs <= fuel)%nat -> o <> None) /\
    match o with
    | None => True
    | Some (result', maxID') =>
        loop_inv c s0 reqs (List.length reqs) maxID' s' /\ Forall2 (result_ok r c s0 reqs s') reqs (Results result')
    end) s.
Proof.
  induction todo as [|req todo IH]; intros gone result maxID s Hreqs Hl Hids Hres; cbn [importLoop].
  { apply wp_ret. rewrite app_nil_r in Hreqs. by subst. }
  assert (req ∈ reqs) as Hin by (subst; set_solver). pose proof (Hids req Hin) as Hreq.
  apply wp_bind_fuel. eapply wp_mono; [by apply wp_importOne, (loop_Inv _ _ _ _ _ _ Hl)|].
  intros o s' (Hg & Hn & Hf).
  assert ((resolve_fuel s0 c + 2 * List.length reqs <= fuel)%nat -> o <> None) as Hend.
  { intros Hfuel. apply Hn. pose proof (loop_fuel _ _ _ _ _ _ Hl) as Hlf.
    pose proof (f_equal (@List.length _) Hreqs) as Hlen. rewrite length_app in Hlen. lia. }
  destruct o as [failure|]; [|by split; [intros ?%Hend|]].
  assert (Hres' : Forall2 (result_ok r c s0 reqs s') gone (Results result)).
  { eapply Forall2_impl; [exact Hres|]. intros q res (? & ? & ? & Hi). split_and!; auto.
    intros Hs. eapply imported_grows; eauto. }
  assert (List.length (gone ++ [req]) = S (List.length gone)) as Hlen by (rewrite length_app; simpl; lia).
  destruct failure as [text|]; apply (IH (gone ++ [req])%list); try exact Hids; try (by rewrite <- app_assoc).
  - rewrite Hlen. destruct Hf as [-> |Hf]; eapply loop_failed; eauto.
  - simpl. apply Forall2_app; [done|]. by repeat constructor.
  - rewrite Hlen. destruct Hf as [Hpos Hi]. eapply loop_imported; eauto.
  - simpl. apply Forall2_app; [done|]. constructor; [|constructor]. split_and!; try done. intros _.
    destruct Hf as [Hpos Hi]. eapply loop_imported; eauto.
Qed.

(** ** ImportSchemas *)

Lemma ctx_SetNextID c id s : ctx (SetNextID c id s) c = {| (ctx s c) with nextID := id |}.
Proof.
  unfold SetNextID. destruct (getOrCreateContext s c) as [cs s1] eqn:E.
  apply getOrCreateContext_spec in E as [Ecs ->]. fold (ctx s c) in Ecs. subst cs.
  by rewrite ctx_putContext, decide_True by done.
Qed.

Lemma GetMaxSchemaID_ctx c s : GetMaxSchemaID c s = Int64.wrap (nextID (ctx s c) - 1).
Proof. unfold GetMaxSchemaID, getContext, ctx. by destruct (contexts s !! c). Qed.

Lemma run_advanceSequence c maxID ρ s :
  0 <= maxID < Int64.max -> 0 < nextID (ctx s c) <= Int64.max ->
  run (advanceSequence c maxID) ρ s =
    (Ok tt, SetNextID c (Z.max (maxID + 1) (nextID (ctx s c))) s).
Proof.
  intros Hm Hn. unfold advanceSequence. simpl. rewrite GetMaxSchemaID_ctx.
  unfold Int64.max in *.
  assert (Hr : forall z, 0 <= z <= 2 ^ 63 - 1 -> Int64.wrap z = z).
  { intros z Hz. apply Int64.wrap_id. unfold Int64.in_range, Int64.min, Int64.max. lia. }
  rewrite (Hr (nextID (ctx s c) - 1)), (Hr (maxID + 1)), (Hr (nextID (ctx s c) - 1 + 1)) by lia.
  replace (nextID (ctx s c) - 1 + 1) with (nextID (ctx s c)) by lia.
  unfold no_result. f_equal. f_equal. destruct (Z.ltb_spec (maxID + 1) (nextID (ctx s c))); lia.
Qed.

(** Property C23. With fuel for the references that resolve, two more per request,
    ImportSchemas comes to a result, and it reports on the requests in order.  What
    it reports as imported is stored: the version is live under its ID, and the
    content of this ID has the fingerprint of the request's schema and was there
    before or is the text, type and references that a request for this ID holds.
    Every version and content that was there stays as it was, and the others are
    those of requests; the ID sequence never moves back, and if every ID in use
    was below the sequence before, every one is after, the imported ones
    included.  The IDs are taken to be below the greatest [int64]. *)
Theorem ImportSchemas_spec r fuel c reqs ρ s :
  Inv s -> 0 < nextID (ctx s c) <= Int64.max ->
  (forall req, req ∈ reqs -> ReqID req < Int64.max) ->
  let '(res, s') := run (ImportSchemas r fuel c reqs) ρ s in
  ((resolve_fuel s c + 2 * List.length reqs <= fuel)%nat -> res <> None) /\
  match res with
  | None => True
  | Some (result, err) =>
      err = None /\ Forall2 (result_ok r c s reqs s') reqs (Results result) /\
      (forall sub v info, entry (ctx s c) sub v = Some info -> entry (ctx s' c) sub v = Some info) /\
      (forall id sc, schemas (ctx s c) !! id = Some sc -> schemas (ctx s' c) !! id = Some sc) /\
      (forall id sc, schemas (ctx s' c) !! id = Some sc ->
         schemas (ctx s c) !! id = Some sc \/ exists req, req ∈ reqs /\ ReqID req = id /\ asks req sc) /\
      (forall sub v info, entry (ctx s' c) sub v = Some info ->
         entry (ctx s c) sub v = Some info \/ exists req, req ∈ reqs /\ sub = ReqSubject req /\ v = ReqVersion req) /\
      nextID (ctx s c) <= nextID (ctx s' c) /\
      (ids_below (ctx s c) -> ids_below (ctx s' c)) /\ Inv s'
  end.
Proof.
  intros Hinv Hn Hids. apply wp_let. unfold ImportSchemas. apply wp_bind_fuel. eapply wp_mono.
  { apply (wp_importLoop r fuel c s reqs reqs [] (MkImportResult 0 0 []) 0); [done| |done|constructor].
    split; auto; [unfold Int64.max; lia|apply Nat.le_add_r]. }
  intros [[result maxID]|] s1 [Hend H]; [|split; [by intros ?%Hend|done]].
  destruct H as [[Hinv1 Hn1 Hmax Hused He Hc Ho Hw _] Hres]. destruct (Z.ltb_spec 0 maxID) as [Hpos|Hpos].
  - apply wp_bind. intros ρ1. rewrite run_advanceSequence by (rewrite ?Hn1; lia). apply wp_ret. split; [done|].
    assert (forall sub v, entry (ctx (SetNextID c (Z.max (maxID + 1) (nextID (ctx s1 c))) s1) c) sub v = entry (ctx s1 c) sub v) as Hent
      by (intros; by rewrite ctx_SetNextID).
    assert (forall id, schemas (ctx (SetNextID c (Z.max (maxID + 1) (nextID (ctx s1 c))) s1) c) !! id = schemas (ctx s1 c) !! id) as Hsch
      by (intros; by rewrite ctx_SetNextID).
    split_and!; [done| |intros *; rewrite Hent; apply He|intros *; rewrite Hsch; apply Hc|intros *; rewrite Hsch; apply Ho
      |intros *; rewrite Hent; apply Hw| | |].
    + eapply Forall2_impl; [exact Hres|]. intros q res (? & ? & ? & Hi). split_and!; auto.
      intros Hs. unfold imported. rewrite Hent, Hsch. by apply Hi.
    + rewrite ctx_SetNextID. simpl. lia.
    + intros Hb used. rewrite Hsch, ctx_SetNextID. simpl. intros [Hs|Hle]%Hused; [specialize (Hb _ Hs)|]; lia.
    + destruct (getOrCreateContext_ctx s1 c) as (s2 & E & Hp). unfold SetNextID. rewrite E, Hp.
      apply Inv_putContext; [done|]. apply (wf_same_schemas (ctx s1 c)); [done|]. by apply Inv_ctx.
  - apply wp_ret. split_and!; try done; [lia|].
    intros Hb used [Hs|Hle]%Hused; rewrite Hn1; [by apply Hb|lia].
Qed.

Definition import_request (id : Z) (subject : string) (text : string) : ImportSchemaRequest :=
  MkImportSchemaRequest id subject 1 "" text [].

(** One request, whose text is what is stored. *)
Lemma ImportSchemas_spec_witness :
  exists result sc,
    fst (run (ImportSchemas (plain_registry "NONE") 9 "." [import_request 40 "users" "user"]) (fun _ => env0) orders_store)
      = Some (result, None) /\ Imported result = 1 /\
    let s' := snd (run (ImportSchemas (plain_registry "NONE") 9 "." [import_request 40 "users" "user"]) (fun _ => env0) orders_store) in
    ids_below (ctx s' ".") /\ schemas (ctx s' ".") !! 40 = Some sc /\ Schema sc = "user"%string.
Proof.
  pose proof (ImportSchemas_spec (plain_registry "NONE") 9 "." [import_request 40 "users" "user"] (fun _ => env0)
                orders_store Inv_orders_store) as H.
  destruct (run _ _ _) as [res s'] eqn:E.
  assert (Hr : exists result, res = Some (result, None) /\ Imported result = 1 /\ map Success (Results result) = [true]).
  { vm_compute in E. injection E as <- _. eexists. split_and!; reflexivity. }
  destruct Hr as (result & -> & Hi & Hs).
  destruct H as (_ & _ & Hres & _ & _ & _ & _ & _ & Hb & _).
  { vm_compute. split; [reflexivity|discriminate]. }
  { intros req ->%list_elem_of_singleton. reflexivity. }
  destruct (Results result) as [|x [|]]; try discriminate Hs. injection Hs as Hs. inversion Hres as [|? ? ? ? Hx]. subst.
  destruct Hx as (_ & _ & _ & Hx). destruct (Hx Hs) as (_ & sc & _ & _ & _ & Hsc & _ & _ & _ & Hold).
  exists result, sc. split; [reflexivity|]. split; [exact Hi|]. split; [apply Hb, ids_below_orders_store|]. split; [exact Hsc|].
  destruct Hold as [Hold|(req' & ->%list_elem_of_singleton & _ & Ha & _)]; [vm_compute in Hold; discriminate Hold|exact Ha].
Defined.

(** Finding: the sequence is moved after the import, by calls of their own.  A
    registration that comes in between gets an imported ID and overwrites the
    imported content: the subject users then reads another subject's schema. *)
Example import_race :
  let '(res1, _, s1) := ImportSchema env0 "." {| (avro_record "users" "user" "fu") with ID := 1; Version := 1 |} NewStore in
  let '(res2, rec, s2) := CreateSchema env0 "." (avro_record "orders" "order" "fo") s1 in
  let '(res3, s3) := run (advanceSequence "." 1) (fun _ => env0) s2 in
  res1 = Ok tt /\ res2 = Ok tt /\ res3 = Ok tt /\ ID rec = 1 /\
  match GetSchemaBySubjectVersion env0 "." "users" 1 s3 with
  | Ok users => Schema users = "order"%string
  | Err _ => False
  end.
Proof. vm_compute. split_and!; reflexivity. Qed.
