(* ===== verification/RegistryKeys.v ===== *)
(** * Encryption keys and exporters: internal/registry/registry_{dek,exporter}.go

    A KMS provider is reached through the interface internal/kms.Provider; its
    methods are functions of the key, the bytes and the properties, taken as
    they answer in the run at hand. *)
From S2P Require Import Prelude GoStrings GoBase64 StorageTypes MemState MemKeys StorageIface RegistryRefs.
From Stdlib Require Import String.

Local Open Scope prog_scope.
Local Open Scope string_scope.

(** ** Providers *)

Record Provider := MkProvider {
  Wrap : string -> string -> option (gmap string string) -> result string;
  Unwrap : string -> string -> option (gmap string string) -> result string;
  GenerateDataKey : string -> string -> option (gmap string string) -> result (string * string)
}.

(** [kmsRegistry]: [None] is Go's [nil]. *)
Definition kmsRegistry : Type := option (gmap string Provider).

Definition validAlgorithms : list string := ["AES128_GCM"; "AES256_GCM"; "AES256_SIV"].

Definition blank (s : string) : bool := bool_decide (TrimSpace s = "").

(** ** KEKs *)

Definition CreateKEK (kek : KEKRecord) : prog (result unit * KEKRecord) :=
  if blank (KEKName kek) then Ret (Err (errors_New "KEK name is required"), kek)
  else if blank (KmsType kek) then Ret (Err (errors_New "kmsType is required"), kek)
  else if blank (KmsKeyID kek) then Ret (Err (errors_New "kmsKeyId is required"), kek)
  else invoke (CCreateKEK kek).

Definition UpdateKEK (kek : KEKRecord) : prog (result unit * KEKRecord) :=
  if blank (KEKName kek) then Ret (Err (errors_New "KEK name is required"), kek)
  else invoke (CUpdateKEK kek).

(** ** DEKs *)

Definition invalid_algorithm (algorithm : string) : error :=
  errors_New ("invalid algorithm: " ++ algorithm ++ " (must be AES128_GCM, AES256_GCM, or AES256_SIV)").

(** Returns the caller's record as the call leaves it. *)
Definition CreateDEK (kms : kmsRegistry) (dek : DEKRecord) : prog (result unit * DEKRecord) :=
  if blank (DEKKekName dek) then Ret (Err (errors_New "kekName is required"), dek)
  else if blank (DEKSubject dek) then Ret (Err (errors_New "subject is required"), dek)
  else
    let dek := if decide (Algorithm dek = "") then {| dek with Algorithm := "AES256_GCM" |} else dek in
    if negb (bool_decide (Algorithm dek ∈ validAlgorithms)) then
      Ret (Err (invalid_algorithm (Algorithm dek)), dek)
    else
      match kms with
      | Some providers =>
          if decide (EncryptedKeyMaterial dek = "") then
            let! kek := invoke (CGetKEK (DEKKekName dek) false) in
            match kek with
            | Err err => Ret (Err err, dek)
            | Ok kek =>
                if Shared kek then
                  match providers !! KmsType kek with
                  | None => invoke (CCreateDEK dek)
                  | Some provider =>
                      match GenerateDataKey provider (KmsKeyID kek) (Algorithm dek) (KmsProps kek) with
                      | Err err => Ret (Err (Errorf_w "KMS generate data key: " err ""), dek)
                      | Ok (plaintext, wrapped) =>
                          invoke (CCreateDEK {| dek with EncryptedKeyMaterial := EncodeToString wrapped;
                                                        KeyMaterial := EncodeToString plaintext |})
                      end
                  end
                else invoke (CCreateDEK dek)
            end
          else invoke (CCreateDEK dek)
      | None => invoke (CCreateDEK dek)
      end.

(** A base64 decoding error. *)
Definition corrupt : error := errors_New "illegal base64 data".

Definition RewrapDEK (kms : kmsRegistry) (kekName subject : string) (version : Z) (algorithm : string)
    : prog (result DEKRecord) :=
  match kms with
  | None => Ret (Err (errors_New "KMS not configured: rewrap requires a KMS provider"))
  | Some providers =>
      let! kek := invoke (CGetKEK kekName false) in
      match kek with
      | Err err => Ret (Err err)
      | Ok kek =>
          match providers !! KmsType kek with
          | None => Ret (Err (errors_New ("no KMS provider registered for type " ++ quoted (KmsType kek))))
          | Some provider =>
              let! dek := invoke (CGetDEK kekName subject version algorithm false) in
              match dek with
              | Err err => Ret (Err err)
              | Ok dek =>
                  if decide (EncryptedKeyMaterial dek = "") then
                    Ret (Err (errors_New "DEK has no encrypted key material to rewrap"))
                  else
                    match DecodeString (EncryptedKeyMaterial dek) with
                    | None => Ret (Err (Errorf_w "decode encrypted key material: " corrupt ""))
                    | Some ciphertext =>
                        match Unwrap provider (KmsKeyID kek) ciphertext (KmsProps kek) with
                        | Err err => Ret (Err (Errorf_w "KMS unwrap: " err ""))
                        | Ok plaintext =>
                            match Wrap provider (KmsKeyID kek) plaintext (KmsProps kek) with
                            | Err err => Ret (Err (Errorf_w "KMS rewrap: " err ""))
                            | Ok newCiphertext =>
                                Choose (fun e =>
                                  let dek := {| dek with EncryptedKeyMaterial := EncodeToString newCiphertext;
                                                        DEKTs := UnixMilli (now e 0) |} in
                                  let! updated := invoke (CUpdateDEK dek) in
                                  match updated with
                                  | Err err => Ret (Err err)
                                  | Ok _ => Ret (Ok dek)
                                  end)
                            end
                        end
                    end
              end
          end
      end
  end.

Definition testData : string := "schema-registry-kek-test".

(** [nil] is [None]. *)
Definition TestKEK (kms : kmsRegistry) (kek : KEKRecord) : option error :=
  match kms with
  | None => Some (errors_New "KMS not configured")
  | Some providers =>
      match providers !! KmsType kek with
      | None => Some (errors_New ("no KMS provider for type " ++ quoted (KmsType kek)))
      | Some provider =>
          match Wrap provider (KmsKeyID kek) testData (KmsProps kek) with
          | Err err => Some (Errorf_w "wrap failed: " err "")
          | Ok wrapped =>
              match Unwrap provider (KmsKeyID kek) wrapped (KmsProps kek) with
              | Err err => Some (Errorf_w "unwrap failed: " err "")
              | Ok unwrapped =>
                  if decide (testData = unwrapped) then None
                  else Some (errors_New "round-trip test failed: plaintext mismatch")
              end
          end
      end
  end.

(** ** Exporters *)

Definition invalid_context_type (t : string) : error :=
  errors_New ("invalid context type: " ++ t ++ " (must be AUTO, CUSTOM, or NONE)").

Definition CreateExporter (exporter : ExporterRecord) : prog (result unit) :=
  if blank (ExporterName exporter) then Ret (Err (errors_New "exporter name is required"))
  else
    let contextType := ToUpper (if decide (ContextType exporter = "") then "AUTO" else ContextType exporter) in
    if negb (bool_decide (contextType ∈ ["CUSTOM"; "NONE"; "AUTO"])) then
      Ret (Err (invalid_context_type contextType))
    else
      let! created := invoke (CCreateExporter {| exporter with ContextType := contextType |}) in
      match fst created with
      | Err err => Ret (Err err)
      | Ok _ =>
          Choose (fun e =>
            invoke (CSetExporterStatus (ExporterName exporter)
                      (MkExporterStatusRecord (ExporterName exporter) "PAUSED" 0 (UnixMilli (now e 0)) "")))
      end.

Definition UpdateExporter (exporter : ExporterRecord) : prog (result unit) :=
  if blank (ExporterName exporter) then Ret (Err (errors_New "exporter name is required"))
  else
    let contextType := if decide (ContextType exporter = "") then "" else ToUpper (ContextType exporter) in
    if negb (bool_decide (contextType ∈ [""; "CUSTOM"; "NONE"; "AUTO"])) then
      Ret (Err (invalid_context_type contextType))
    else
      let! updated := invoke (CUpdateExporter {| exporter with ContextType := contextType |}) in
      Ret (fst updated).

(** The three operations on the status: look up, change, write back. *)
Definition updateStatus (name : string) (f : Z -> ExporterStatusRecord -> ExporterStatusRecord)
    : prog (result unit) :=
  let! exporter := invoke (CGetExporter name) in
  match exporter with
  | Err err => Ret (Err err)
  | Ok _ =>
      let! status := invoke (CGetExporterStatus name) in
      let status := match status with Ok s => s | Err _ => MkExporterStatusRecord name "" 0 0 "" end in
      Choose (fun e => invoke (CSetExporterStatus name (f (UnixMilli (now e 0)) status)))
  end.

Definition PauseExporter (name : string) : prog (result unit) :=
  updateStatus name (fun ts status => {| status with State := "PAUSED"; StatusTs := ts |}).
Definition ResumeExporter (name : string) : prog (result unit) :=
  updateStatus name (fun ts status => {| status with State := "RUNNING"; StatusTs := ts |}).
Definition ResetExporter (name : string) : prog (result unit) :=
  updateStatus name (fun ts status => {| status with StatusOffset := 0; Trace := ""; StatusTs := ts |}).
