(* ===== verification/RegistryKeysFacts.v ===== *)
(** * What holds of encryption keys and exporters

    The plaintext of a data key is handed to its creator and never stored, and
    rewrapping keeps the plaintext a stored ciphertext stands for. *)
From S2P Require Import Prelude GoStrings GoBase64 StorageTypes MemState MemStore MemStoreFacts MemSteps MemKeys StorageIface RegistryRefs ProgLogic RegistryKeys.
From Stdlib Require Import Ascii String.

Local Open Scope Z_scope.

(** ** The stored keys *)

(** A stored data key sits where its fields say, without its plaintext. *)
Definition dek_wf (kekName subject : string) (v : Z) (dek : DEKRecord) : Prop :=
  DEKKekName dek = kekName /\ DEKSubject dek = subject /\ DEKVersion dek = v /\
  KeyMaterial dek = EmptyString.

Definition deks_wf (s : Store) : Prop :=
  forall kekName subject vm v dek,
    dekVersions s kekName subject = Some vm -> vm !! v = Some dek -> dek_wf kekName subject v dek.

Definition keys_wf (s : Store) : Prop :=
  (forall name kek, keks s !! name = Some kek -> KEKName kek = name) /\
  (forall name, is_Some (deks s !! name) -> is_Some (keks s !! name)) /\
  deks_wf s.

Definition same_keys (s s' : Store) : Prop := keks s' = keks s /\ deks s' = deks s.

Lemma keys_wf_same s s' : same_keys s s' -> keys_wf s -> keys_wf s'.
Proof. intros [Ek Ed]. unfold keys_wf, deks_wf, dekVersions. by rewrite Ek, Ed. Qed.

Lemma dekVersions_put s kekName subject vm kekName' subject' :
  dekVersions (putDekVersions s kekName subject vm) kekName' subject' =
  if decide (kekName = kekName' /\ subject = subject') then Some vm
  else dekVersions s kekName' subject'.
Proof.
  unfold dekVersions, putDekVersions. simpl.
  destruct (decide (kekName = kekName')) as [<-|Hk].
  - rewrite lookup_insert_eq. simpl. destruct (decide (subject = subject')) as [<-|Hs].
    + rewrite lookup_insert_eq. by rewrite decide_True.
    + rewrite lookup_insert_ne by done. rewrite decide_False by tauto.
      by destruct (deks s !! kekName).
  - rewrite lookup_insert_ne by done. by rewrite decide_False by tauto.
Qed.

Lemma keys_wf_put s kekName subject vm :
  keys_wf s -> is_Some (keks s !! kekName) ->
  (forall v dek, vm !! v = Some dek -> dek_wf kekName subject v dek) ->
  keys_wf (putDekVersions s kekName subject vm).
Proof.
  intros (Hk & Hd & Hw) Hkek Hvm. split; [exact Hk|]. split.
  - intros name Hn. simpl in *. apply lookup_insert_is_Some in Hn. destruct Hn as [<-|[_ Hn]]; auto.
  - intros kek' subject' vm' v dek E Hv. rewrite dekVersions_put in E.
    destruct (decide _) as [[<- <-]|_]; [injection E as <-; auto|eauto].
Qed.

Lemma keys_wf_drop s kekName subject vm :
  keys_wf s -> is_Some (keks s !! kekName) ->
  (forall v dek, vm !! v = Some dek -> dek_wf kekName subject v dek) ->
  keys_wf (dropEmptyDekVersions s kekName subject vm).
Proof.
  intros Hs Hkek Hvm. unfold dropEmptyDekVersions. destruct (decide (vm = ∅)); [|by apply keys_wf_put].
  destruct Hs as (Hk & Hd & Hw). split; [exact Hk|]. split.
  - intros name Hn. simpl in *. apply lookup_insert_is_Some in Hn. destruct Hn as [<-|[_ Hn]]; auto.
  - intros kek' subject' vm' v dek E Hv. unfold dekVersions in E. simpl in E.
    destruct (decide (kekName = kek')) as [<-|Hne].
    + rewrite lookup_insert_eq in E. simpl in E. apply lookup_delete_Some in E as [_ E].
      destruct (deks s !! kekName) as [sm|] eqn:Es; [|done].
      apply (Hw kekName subject' vm' v dek); [|done]. unfold dekVersions. by rewrite Es.
    + rewrite lookup_insert_ne in E by done. by apply (Hw kek' subject' vm' v dek).
Qed.

Lemma dekVersions_kek s kekName subject vm :
  keys_wf s -> dekVersions s kekName subject = Some vm ->
  is_Some (keks s !! kekName) /\ (forall v dek, vm !! v = Some dek -> dek_wf kekName subject v dek).
Proof.
  intros (_ & Hd & Hw) E. split; [|intros; by eapply Hw]. apply Hd.
  unfold dekVersions in E. by destruct (deks s !! kekName).
Qed.

(** The loop over all versions changes entries in place. *)
Lemma updateVersions_wf e sel f kekName subject vm found vm' :
  (forall ts v dek dek', dek_wf kekName subject v dek -> f ts dek = Some dek' ->
     dek_wf kekName subject v dek') ->
  (forall v dek, vm !! v = Some dek -> dek_wf kekName subject v dek) ->
  updateVersions e sel f vm = (found, vm') ->
  forall v dek, vm' !! v = Some dek -> dek_wf kekName subject v dek.
Proof.
  intros Hf Hvm. unfold updateVersions.
  assert (Hl : forall v dek, (v, dek) ∈ range e vm -> dek_wf kekName subject v dek)
    by (intros v dek ?%elem_of_range; auto).
  revert Hl. generalize false 0%nat. revert Hvm. generalize vm at 1 4 as acc.
  induction (range e vm) as [|[v dek] l IH]; intros acc Hacc b i Hl; simpl.
  - intros [= <- <-]. done.
  - destruct (sel dek); simpl; intros E; eapply IH; try exact E.
    + intros v' dek'. rewrite lookup_partial_alter. case_decide; [subst v'|auto].
      intros Hs. eapply Hf; [|exact Hs]. apply Hl. left.
    + intros; apply Hl; by right.
    + done.
    + intros; apply Hl; by right.
Qed.

(** ** Every call keeps them *)

Lemma same_keys_putContext s registryCtx cs : same_keys s (putContext s registryCtx cs).
Proof. done. Qed.

Lemma same_keys_refl s : same_keys s s.
Proof. done. Qed.

Lemma same_keys_trans s1 s2 s3 : same_keys s1 s2 -> same_keys s2 s3 -> same_keys s1 s3.
Proof. unfold same_keys. intuition congruence. Qed.

Lemma same_keys_getOrCreate s registryCtx : same_keys s (snd (getOrCreateContext s registryCtx)).
Proof. unfold getOrCreateContext. by case_match. Qed.

(** The calls on schemas, configuration and exporters. *)
Definition about_keys {B} (c : call B) : bool :=
  match c with
  | CCreateKEK _ | CUpdateKEK _ | CDeleteKEK _ _ | CUndeleteKEK _
  | CCreateDEK _ | CDeleteDEK _ _ _ _ _ | CUndeleteDEK _ _ _ _ | CUpdateDEK _ => true
  | _ => false
  end.

Create HintDb keys.
#[export] Hint Resolve same_keys_putContext same_keys_refl same_keys_getOrCreate : keys.

Lemma other_calls_same_keys {B} (c : call B) e s :
  about_keys c = false -> same_keys s (snd (memory_handle e c s)).
Proof.
  destruct c; simpl; intros Hc; try discriminate Hc; try exact (same_keys_refl s);
    unfold CreateSchema, DeleteSchema, DeleteSubject, SetConfig, DeleteConfig, SetGlobalConfig,
      DeleteGlobalConfig, SetMode, DeleteMode, SetGlobalMode, DeleteGlobalMode, ImportSchema, SetNextID,
      MemKeys.CreateExporter, MemKeys.UpdateExporter, MemKeys.DeleteExporter, SetExporterStatus,
      UpdateExporterConfig;
    try (pose proof (same_keys_getOrCreate s registryCtx) as Hg;
         destruct (getOrCreateContext s registryCtx) as [cs s1]; simpl in Hg);
    repeat case_match; simpl; first [by split | eauto using same_keys_trans with keys].
Qed.

Lemma keys_wf_keks s keks' :
  (forall name kek, keks' !! name = Some kek -> KEKName kek = name) ->
  (forall name, is_Some (keks s !! name) -> is_Some (keks' !! name)) ->
  keys_wf s -> keys_wf {| s with keks := keks' |}.
Proof. intros Hn Hs (Hk & Hd & Hw). split; [done|]. split; [|done]. intros name Hx. apply Hs, Hd, Hx. Qed.

Lemma keys_wf_insert s name kek :
  KEKName kek = name -> keys_wf s -> keys_wf {| s with keks := <[name := kek]> (keks s) |}.
Proof.
  intros Hn Hs. apply keys_wf_keks; [| |done].
  - intros n k [[<- <-]|[_ Hl]]%lookup_insert_Some; [done|]. by apply Hs in Hl.
  - intros n Hx. apply lookup_insert_is_Some. destruct (decide (name = n)); auto.
Qed.

Lemma CreateDEK_stored e dek s :
  keys_wf s -> keys_wf (snd (MemKeys.CreateDEK e dek s)).
Proof.
  intros Hs. unfold MemKeys.CreateDEK. destruct (keks s !! DEKKekName dek) as [kek|] eqn:Ek; [|done].
  cbv zeta. set (vm := from_opt ∅ _).
  set (dek' := if DEKVersion dek <=? 0 then _ else _).
  assert (Hd : DEKKekName dek' = DEKKekName dek /\ DEKSubject dek' = DEKSubject dek)
    by (subst dek'; by destruct (DEKVersion dek <=? 0)).
  destruct Hd as [Hd1 Hd2]. rewrite Hd1, Hd2.
  assert (Hvm : forall v d, vm !! v = Some d -> dek_wf (DEKKekName dek) (DEKSubject dek) v d).
  { subst vm. destruct (dekVersions s (DEKKekName dek) (DEKSubject dek)) eqn:E; simpl; [|done].
    intros v d. by apply (dekVersions_kek s _ _ _ Hs E). }
  destruct (vm !! DEKVersion dek'); simpl; rewrite ?Hd1, ?Hd2; apply keys_wf_put; try done.
  intros v d [[<- <-]|[_ ?]]%lookup_insert_Some; [|auto]. by repeat split.
Qed.

Lemma DeleteDEK_stored e kekName subject v algorithm permanent s :
  keys_wf s -> keys_wf (snd (MemKeys.DeleteDEK e kekName subject v algorithm permanent s)).
Proof.
  intros Hs. unfold MemKeys.DeleteDEK. destruct (dekVersions s kekName subject) as [vm|] eqn:E; [|done].
  destruct (dekVersions_kek _ _ _ _ Hs E) as [Hkek Hvm].
  destruct (v =? -1).
  - destruct (updateVersions e _ _ vm) as [found vm'] eqn:Eu.
    assert (Hvm' : forall v dek, vm' !! v = Some dek -> dek_wf kekName subject v dek).
    { eapply updateVersions_wf; [|exact Hvm|exact Eu].
      intros ts v' dek dek' Hw. destruct permanent; [done|]. by intros [= <-]. }
    destruct found; simpl; [|done]. destruct permanent; [by apply keys_wf_drop|by apply keys_wf_put].
  - destruct (vm !! v) as [dek|] eqn:Ev; [|done]. destruct (other_algorithm algorithm dek); [done|].
    destruct permanent; simpl.
    + apply keys_wf_drop; [done..|]. intros v' d [_ ?]%lookup_delete_Some. auto.
    + apply keys_wf_put; [done..|].
      intros v' d [[<- <-]|[_ ?]]%lookup_insert_Some; [by apply Hvm in Ev|auto].
Qed.

Lemma UndeleteDEK_stored e kekName subject v algorithm s :
  keys_wf s -> keys_wf (snd (MemKeys.UndeleteDEK e kekName subject v algorithm s)).
Proof.
  intros Hs. unfold MemKeys.UndeleteDEK. destruct (dekVersions s kekName subject) as [vm|] eqn:E; [|done].
  destruct (dekVersions_kek _ _ _ _ Hs E) as [Hkek Hvm].
  destruct (v =? -1).
  - destruct (updateVersions e _ _ vm) as [found vm'] eqn:Eu.
    destruct found; simpl; [|done]. apply keys_wf_put; [done..|].
    eapply updateVersions_wf; [|exact Hvm|exact Eu]. by intros ts v' dek dek' Hw [= <-].
  - destruct (vm !! v) as [dek|] eqn:Ev; [|done]. destruct (other_algorithm algorithm dek); [done|].
    destruct (negb (DEKDeleted dek)); [done|]. simpl. apply keys_wf_put; [done..|].
    intros v' d [[<- <-]|[_ ?]]%lookup_insert_Some; [by apply Hvm in Ev|auto].
Qed.

Lemma UpdateDEK_stored dek s : keys_wf s -> keys_wf (snd (MemKeys.UpdateDEK dek s)).
Proof.
  intros Hs. unfold MemKeys.UpdateDEK.
  destruct (dekVersions s (DEKKekName dek) (DEKSubject dek)) as [vm|] eqn:E; [|done].
  destruct (dekVersions_kek _ _ _ _ Hs E) as [Hkek Hvm].
  destruct (vm !! DEKVersion dek) as [existing|] eqn:Ev; [|done]. simpl. apply keys_wf_put; [done..|].
  intros v' d [[<- <-]|[_ ?]]%lookup_insert_Some; [|auto].
  destruct (Hvm _ _ Ev) as (? & ? & ? & ?). by repeat split.
Qed.

Lemma DeleteKEK_stored e name permanent s :
  keys_wf s -> keys_wf (snd (MemKeys.DeleteKEK e name permanent s)).
Proof.
  intros Hs. unfold MemKeys.DeleteKEK. destruct (keks s !! name) as [kek|] eqn:Ek; [|done].
  destruct permanent; simpl; [|apply keys_wf_insert; [by apply Hs in Ek|done]].
  destruct Hs as (Hk & Hd & Hw). split; [|split]; simpl.
  - intros n k [_ ?]%lookup_delete_Some. auto.
  - intros n [x [Hne Hx]%lookup_delete_Some]. rewrite lookup_delete_ne by done. eauto.
  - intros kek' subject vm v dek E Hv. unfold dekVersions in E. simpl in E.
    destruct (decide (name = kek')) as [<-|Hne]; [by rewrite lookup_delete_eq in E|].
    rewrite lookup_delete_ne in E by done. by apply (Hw kek' subject vm v dek).
Qed.

Lemma call_keeps_keys B (c : call B) e s : keys_wf s -> keys_wf (snd (handle e c s)).
Proof.
  intros Hs. unfold handle, memory_storage. destruct (about_keys c) eqn:Ea;
    [|eapply keys_wf_same; [by apply (other_calls_same_keys c e s)|done]].
  destruct c; try discriminate Ea; simpl.
  - unfold MemKeys.CreateKEK. case_match; simpl; [done|]. by apply keys_wf_insert.
  - unfold MemKeys.UpdateKEK. case_match; simpl; [|done]. by apply keys_wf_insert.
  - by apply DeleteKEK_stored.
  - unfold MemKeys.UndeleteKEK. destruct (keks s !! name) as [kek|] eqn:Ek; [|done].
    destruct (negb _); [done|]. apply keys_wf_insert; [|done]. by apply Hs in Ek.
  - by apply CreateDEK_stored.
  - by apply DeleteDEK_stored.
  - by apply UndeleteDEK_stored.
  - by apply UpdateDEK_stored.
Qed.

Lemma keys_wf_NewStore : keys_wf NewStore.
Proof.
  split; [|split].
  - intros name kek E. discriminate E.
  - intros name [x E]. discriminate E.
  - intros kekName subject vm v dek E. discriminate E.
Qed.

(** Property C15.  Whatever the registry's code does to a new store, no data key
    is stored with its plaintext: every stored key has an empty [KeyMaterial],
    is filed under the KEK, subject and version its fields name, and its KEK
    exists; and no lookup answers with plaintext. *)
Theorem plaintext_never_stored {A} (p : prog A) ρ :
  let s := snd (run p ρ NewStore) in
  keys_wf s /\
  (forall e kekName subject v algorithm includeDeleted dek,
     GetDEK e kekName subject v algorithm includeDeleted s = Ok dek ->
     KeyMaterial dek = EmptyString /\ is_Some (keks s !! DEKKekName dek)).
Proof.
  intros s. assert (Hs : keys_wf s) by apply (run_keeps keys_wf p call_keeps_keys), keys_wf_NewStore.
  split; [done|]. intros e kekName subject v algorithm includeDeleted dek. unfold GetDEK.
  destruct (dekVersions s kekName subject) as [vm|] eqn:E; [|done].
  destruct (_ && _); [done|].
  match goal with |- context [vm !! ?k] => destruct (vm !! k) as [d|] eqn:Ev end; [|done].
  destruct (other_algorithm algorithm d), (negb includeDeleted && DEKDeleted d); try done. intros [= <-].
  destruct (dekVersions_kek _ _ _ _ Hs E) as [Hkek Hvm].
  by destruct (Hvm _ _ Ev) as (-> & _ & _ & ?).
Qed.

(** ** The greatest version *)

Section max_key.
Context {A : Type}.
Implicit Types (l : list (Z * A)).

Lemma max_key_loop l : forall a, 
  let m := fold_left (fun maxVersion '(v, _) => if maxVersion <? v then v else maxVersion) l a in
  a <= m /\ (forall v x, (v, x) ∈ l -> v <= m) /\ (m = a \/ exists x, (m, x) ∈ l).
Proof.
  induction l as [|[v x] l IH]; intros a; simpl.
  - split; [lia|]. split; [|by left]. intros v x Hin. by apply not_elem_of_nil in Hin.
  - specialize (IH (if a <? v then v else a)). simpl in IH. destruct IH as (H1 & H2 & H3).
    split; [destruct (Z.ltb_spec a v); lia|]. split.
    + intros v' x' [[= -> ->]|Hin]%elem_of_cons; [destruct (Z.ltb_spec a v); lia|by eapply H2].
    + destruct H3 as [->|(x' & Hin)]; [|right; exists x'; by right].
      destruct (Z.ltb_spec a v); [right; exists x; left|by left].
Qed.

Lemma max_key_perm l l' : l ≡ₚ l' -> max_key l = max_key l'.
Proof.
  intros Hp. unfold max_key.
  destruct (max_key_loop l 0) as (H1 & H2 & H3), (max_key_loop l' 0) as (H1' & H2' & H3').
  assert (forall x, x ∈ l <-> x ∈ l') as Hx by (intros x; by rewrite Hp).
  destruct H3 as [E|(x & Hin)], H3' as [E'|(x' & Hin')];
    try (apply Hx, H2' in Hin); try (apply Hx, H2 in Hin'); lia.
Qed.
End max_key.

Lemma filter_perm {A} (p : A -> bool) l l' : l ≡ₚ l' -> List.filter p l ≡ₚ List.filter p l'.
Proof.
  induction 1; simpl; [done| | |by etrans].
  - by destruct (p x); [constructor|].
  - destruct (p x), (p y); by try constructor.
Qed.

Lemma GetDEK_eq e e' kekName subject v algorithm includeDeleted s :
  GetDEK e kekName subject v algorithm includeDeleted s =
  GetDEK e' kekName subject v algorithm includeDeleted s.
Proof.
  unfold GetDEK. destruct (dekVersions s kekName subject) as [vm|]; [|done].
  rewrite (max_key_perm _ (List.filter (λ '(_, dek),
      negb (negb includeDeleted && DEKDeleted dek) && negb (other_algorithm algorithm dek)) (range e' vm)));
    [done|].
  apply filter_perm. by rewrite !range_perm.
Qed.

(** ** What a lookup finds *)

Definition found (s : Store) (dek : DEKRecord) : Prop :=
  exists vm, dekVersions s (DEKKekName dek) (DEKSubject dek) = Some vm /\
    vm !! DEKVersion dek = Some dek.

(** The record [GetDEK] answers with, and where it sits. *)
Lemma GetDEK_found e kekName subject v algorithm includeDeleted s dek :
  keys_wf s -> GetDEK e kekName subject v algorithm includeDeleted s = Ok dek ->
  found s dek /\ DEKKekName dek = kekName /\ DEKSubject dek = subject /\ KeyMaterial dek = EmptyString /\
  (0 < v -> DEKVersion dek = v) /\ other_algorithm algorithm dek = false /\
  (includeDeleted = false -> DEKDeleted dek = false).
Proof.
  intros Hs. unfold GetDEK. destruct (dekVersions s kekName subject) as [vm|] eqn:E; [|done].
  destruct (_ && _); [done|].
  match goal with |- context [vm !! ?k] => set (key := k); destruct (vm !! key) as [d|] eqn:Ev end; [|done].
  destruct (other_algorithm algorithm d) eqn:Ea; [done|].
  destruct (negb includeDeleted && DEKDeleted d) eqn:Ed; [done|]. intros [= <-].
  destruct (dekVersions_kek _ _ _ _ Hs E) as [_ Hvm]. destruct (Hvm _ _ Ev) as (Hk & Hsub & Hv & Hm).
  split; [exists vm; by rewrite Hk, Hsub, Hv|]. do 3 (split; [done|]). split; [|split; [done|]].
  - intros Hpos. rewrite Hv. subst key. by rewrite (proj2 (Z.leb_gt v 0)) by lia.
  - intros ->. by destruct (DEKDeleted d).
Qed.

(** A stored, live record is found under its version, with any algorithm it passes for. *)
Lemma GetDEK_live e s dek algorithm includeDeleted :
  found s dek -> 0 < DEKVersion dek -> DEKDeleted dek = false -> other_algorithm algorithm dek = false ->
  GetDEK e (DEKKekName dek) (DEKSubject dek) (DEKVersion dek) algorithm includeDeleted s = Ok dek.
Proof.
  intros (vm & E & Hv) Hpos Hd Ha. unfold GetDEK. rewrite E.
  rewrite (proj2 (Z.leb_gt (DEKVersion dek) 0)) by lia. simpl. by rewrite Hv, Hd, Ha, andb_false_r.
Qed.

Lemma own_algorithm dek : other_algorithm (Algorithm dek) dek = false.
Proof. unfold other_algorithm. by rewrite (bool_decide_true (Algorithm dek = Algorithm dek)), andb_false_r. Qed.

Lemma GetDEK_stored e s dek :
  found s dek -> 0 < DEKVersion dek -> DEKDeleted dek = false ->
  GetDEK e (DEKKekName dek) (DEKSubject dek) (DEKVersion dek) (Algorithm dek) false s = Ok dek.
Proof. intros Hf Hv Hd. apply GetDEK_live; [done..|apply own_algorithm]. Qed.

(** ** Providers *)

(** What a provider promises: unwrapping what it wrapped gives the plaintext. *)
Definition unwraps (provider : Provider) : Prop :=
  forall keyID plaintext props ciphertext,
    Wrap provider keyID plaintext props = Ok ciphertext ->
    Unwrap provider keyID ciphertext props = Ok plaintext.

(** The stored material stands for this plaintext under the KEK. *)
Definition stands_for (provider : Provider) (kek : KEKRecord) (material plaintext : string) : Prop :=
  exists ciphertext, DecodeString material = Some ciphertext /\
    Unwrap provider (KmsKeyID kek) ciphertext (KmsProps kek) = Ok plaintext.

(** Everything but the ciphertext and the time of the change. *)
Definition same_dek (dek dek' : DEKRecord) : Prop :=
  DEKKekName dek' = DEKKekName dek /\ DEKSubject dek' = DEKSubject dek /\
  DEKVersion dek' = DEKVersion dek /\ Algorithm dek' = Algorithm dek /\
  KeyMaterial dek' = KeyMaterial dek /\ DEKDeleted dek' = DEKDeleted dek.

Lemma found_UpdateDEK s dek dek' :
  found s dek -> same_dek dek dek' ->
  exists s', UpdateDEK dek' s = (Ok tt, s') /\ found s' dek' /\
    (forall other, (DEKKekName other, DEKSubject other, DEKVersion other) <>
                   (DEKKekName dek, DEKSubject dek, DEKVersion dek) ->
       found s' other <-> found s other).
Proof.
  intros (vm & E & Hv) (Hk & Hsub & Hver & Halg & Hm & Hd). unfold UpdateDEK.
  rewrite Hk, Hsub, E, Hver, Hv. eexists; split; [done|].
  set (new := {| dek with EncryptedKeyMaterial := EncryptedKeyMaterial dek'; DEKTs := DEKTs dek' |}).
  assert (Hnew : new = dek') by (subst new; destruct dek, dek'; simpl in *; by subst).
  rewrite Hnew. split.
  - exists (<[DEKVersion dek := dek']> vm). rewrite dekVersions_put, Hk, Hsub, Hver.
    by rewrite decide_True, lookup_insert_eq.
  - intros other Hne. unfold found. rewrite dekVersions_put.
    destruct (decide _) as [[Ek Es]|_]; [|done]. rewrite <- Ek, <- Es, E.
    assert (DEKVersion dek <> DEKVersion other) by (intros Ev; apply Hne; by rewrite Ek, Es, Ev).
    split; intros (vm' & [= <-] & Hl).
    + rewrite lookup_insert_ne in Hl by done. eauto.
    + exists (<[DEKVersion dek := dek']> vm). split; [done|]. by rewrite lookup_insert_ne.
Qed.

(** Property C17.  Rewrapping keeps the key: whichever KEK, data key and
    provider the call meets, when it succeeds the record it returns is the one
    stored under the same KEK, subject, version and algorithm, its ciphertext is
    new, and it stands for the plaintext the old ciphertext stood for; every
    other data key is as it was.  When it fails nothing has changed.  It
    succeeds whenever the provider can unwrap the stored material and wrap the
    plaintext again. *)
Theorem RewrapDEK_spec (providers : gmap string Provider) provider kekName subject v algorithm e s kek dek :
  keys_wf s -> GetKEK kekName false s = Ok kek -> providers !! KmsType kek = Some provider ->
  unwraps provider -> GetDEK e kekName subject v algorithm false s = Ok dek ->
  wp (RewrapDEK (Some providers) kekName subject v algorithm)
    (fun res s' =>
       match res with
       | Err _ => s' = s /\
           (EncryptedKeyMaterial dek = EmptyString \/
            forall plaintext, stands_for provider kek (EncryptedKeyMaterial dek) plaintext ->
              exists err, Wrap provider (KmsKeyID kek) plaintext (KmsProps kek) = Err err)
       | Ok dek' =>
           found s' dek' /\ same_dek dek dek' /\
           (exists plaintext ciphertext,
              stands_for provider kek (EncryptedKeyMaterial dek) plaintext /\
              stands_for provider kek (EncryptedKeyMaterial dek') plaintext /\
              Wrap provider (KmsKeyID kek) plaintext (KmsProps kek) = Ok ciphertext /\
              EncryptedKeyMaterial dek' = EncodeToString ciphertext) /\
           (forall other, (DEKKekName other, DEKSubject other, DEKVersion other) <>
                          (DEKKekName dek, DEKSubject dek, DEKVersion dek) ->
              found s' other <-> found s other)
       end) s.
Proof.
  intros Hs Hkek Hprov Hlaw Hdek. unfold RewrapDEK.
  apply wp_bind, wp_call. intros e1 b s1 [= <- <-]. rewrite Hkek, Hprov.
  apply wp_bind, wp_call. intros e2 b s2 [= <- <-]. rewrite (GetDEK_eq e2 e), Hdek.
  destruct (decide (EncryptedKeyMaterial dek = EmptyString)) as [He|He]; [apply wp_ret; auto|].
  unfold stands_for. destruct (DecodeString _) as [ciphertext|] eqn:Edec;
    [|apply wp_ret; split; [done|right; by intros p (? & ? & _)]].
  destruct (Unwrap provider _ _ _) as [plaintext|err] eqn:Eun;
    [|apply wp_ret; split; [done|right; intros p (? & [= <-] & Hu); congruence]].
  destruct (Wrap provider _ _ _) as [newCiphertext|err] eqn:Ewrap;
    [|apply wp_ret; split; [done|right; intros p (? & [= <-] & Hu); exists err; congruence]].
  intros ρ. simpl. set (dek' := {| dek with EncryptedKeyMaterial := EncodeToString newCiphertext |}).
  unfold handle, memory_storage. simpl.
  destruct (GetDEK_found _ _ _ _ _ _ _ _ Hs Hdek) as (Hf & _).
  match goal with |- context [UpdateDEK ?d s] => set (new := d) end.
  destruct (found_UpdateDEK s dek new Hf) as (s' & -> & Hf' & Hother); [by repeat split|]. simpl.
  split; [done|]. split; [by repeat split|]. split; [|done].
  exists plaintext, newCiphertext. split; [eauto|]. split; [|done].
  exists newCiphertext. rewrite DecodeString_EncodeToString. split; [done|]. by apply Hlaw.
Qed.

(** A provider to evaluate with: it marks what it wraps. *)
Definition marking : Provider :=
  {| Wrap := fun _ plaintext _ => Ok (String "#"%char plaintext);
     Unwrap := fun _ ciphertext _ =>
       match ciphertext with String "#"%char plaintext => Ok plaintext | _ => Err (errors_New "not wrapped") end;
     GenerateDataKey := fun _ _ _ => Ok ("secret"%string, "#secret"%string) |}.

Definition marking_kms : gmap string Provider := {[ "marking"%string := marking ]}.

Definition demo_kek : KEKRecord :=
  MkKEKRecord "kek1" "marking" "key-1" None "" true false 0 0 0.
Definition demo_dek : DEKRecord := MkDEKRecord "kek1" "orders-value" 0 "" "" "" false 0.

(** A KEK and a data key the provider generated. *)
Definition keys_store : Store :=
  snd (run (let! _ := CreateKEK demo_kek in CreateDEK (Some marking_kms) demo_dek)%prog
         (fun _ => env0) NewStore).

Lemma keys_wf_keys_store : keys_wf keys_store.
Proof. apply (run_keeps keys_wf), keys_wf_NewStore. exact call_keeps_keys. Qed.

Lemma marking_unwraps : unwraps marking.
Proof. by intros keyID plaintext props ciphertext [= <-]. Qed.

Definition stored_dek : DEKRecord :=
  MkDEKRecord "kek1" "orders-value" 1 "AES256_GCM" (EncodeToString "#secret") "" false 0.

Lemma RewrapDEK_spec_witness :
  let rewrap := RewrapDEK (Some marking_kms) "kek1" "orders-value" 1 "" in
  match run rewrap (fun _ => env0) keys_store with
  | (Ok dek', s') => found s' dek' /\ same_dek stored_dek dek'
  | (Err _, _) => False
  end.
Proof.
  intros rewrap.
  assert (Hk : GetKEK "kek1" false keys_store = Ok demo_kek) by (vm_compute; reflexivity).
  assert (Hd : GetDEK env0 "kek1" "orders-value" 1 "" false keys_store = Ok stored_dek)
    by (vm_compute; reflexivity).
  assert (E : is_ok (fst (run rewrap (fun _ => env0) keys_store)) = true) by (vm_compute; reflexivity).
  pose proof (RewrapDEK_spec marking_kms marking "kek1" "orders-value" 1 "" env0 keys_store
    demo_kek stored_dek keys_wf_keys_store Hk eq_refl marking_unwraps Hd (fun _ => env0)) as W.
  fold rewrap in W. revert W E. generalize (run rewrap (fun _ => env0) keys_store).
  intros [[dek'|err] s'] W E; [|discriminate E]. exact (conj (proj1 W) (proj1 (proj2 W))).
Defined.

(** ** Creation *)

Definition key_of (dek : DEKRecord) : string * string * Z :=
  (DEKKekName dek, DEKSubject dek, DEKVersion dek).

(** One more than the greatest version of the subject, as a machine integer. *)
Definition next_version (s : Store) (kekName subject : string) (v : Z) : Prop :=
  exists m, v = incr64 m /\ 0 <= m /\
    (forall x, found s x -> DEKKekName x = kekName -> DEKSubject x = subject -> DEKVersion x <= m) /\
    (m = 0 \/ exists x, found s x /\ key_of x = (kekName, subject, m)).

Definition without_plaintext (dek : DEKRecord) : DEKRecord := {| dek with KeyMaterial := EmptyString |}.

(** What the store has done with [dek], which it returned as [dek']. *)
Definition created (s : Store) (dek dek' : DEKRecord) (s' : Store) : Prop :=
  DEKKekName dek' = DEKKekName dek /\ DEKSubject dek' = DEKSubject dek /\ DEKDeleted dek' = DEKDeleted dek /\
  found s' (without_plaintext dek') /\
  (forall x, found s x -> key_of x <> key_of dek' /\ found s' x) /\
  (0 < DEKVersion dek -> DEKVersion dek' = DEKVersion dek) /\
  (DEKVersion dek <= 0 -> next_version s (DEKKekName dek) (DEKSubject dek) (DEKVersion dek')).

Lemma found_put s kekName subject vm x :
  found (putDekVersions s kekName subject vm) x <->
  (kekName = DEKKekName x /\ subject = DEKSubject x /\ vm !! DEKVersion x = Some x) \/
  (~ (kekName = DEKKekName x /\ subject = DEKSubject x) /\ found s x).
Proof.
  unfold found. rewrite dekVersions_put. destruct (decide _) as [[-> ->]|Hne]; [|tauto].
  split; [intros (vm' & [= <-] & ?); by left|].
  intros [(_ & _ & ?)|[? _]]; [by exists vm|tauto].
Qed.

Lemma MemCreateDEK_cases e dek s :
  keys_wf s ->
  let '(res, dek', s') := MemKeys.CreateDEK e dek s in
  match res with
  | Err _ => forall x, found s' x <-> found s x
  | Ok _ => created s dek dek' s' /\ Algorithm dek' = Algorithm dek /\
      EncryptedKeyMaterial dek' = EncryptedKeyMaterial dek /\ KeyMaterial dek' = KeyMaterial dek
  end.
Proof.
  intros Hs. unfold MemKeys.CreateDEK. destruct (keks s !! DEKKekName dek) as [kek|] eqn:Ek; [|done].
  cbv zeta. set (vm := from_opt ∅ (dekVersions s (DEKKekName dek) (DEKSubject dek))).
  assert (Hvm : forall x, DEKKekName x = DEKKekName dek -> DEKSubject x = DEKSubject dek ->
            vm !! DEKVersion x = Some x <-> found s x).
  { intros x Hx1 Hx2. unfold found, vm. rewrite Hx1, Hx2.
    destruct (dekVersions s (DEKKekName dek) (DEKSubject dek)); simpl; [|rewrite lookup_empty]; naive_solver. }
  assert (Hat : forall v x, vm !! v = Some x -> found s x /\ key_of x = (DEKKekName dek, DEKSubject dek, v)).
  { intros v x Hx. unfold vm, found in *.
    destruct (dekVersions s (DEKKekName dek) (DEKSubject dek)) as [m|] eqn:E; [|done].
    destruct (proj2 (dekVersions_kek _ _ _ _ Hs E) _ _ Hx) as (E1 & E2 & E3 & _).
    unfold key_of. rewrite E1, E2, E3. eauto. }
  set (dek1 := if DEKVersion dek <=? 0 then _ else _).
  assert (Hd : DEKKekName dek1 = DEKKekName dek /\ DEKSubject dek1 = DEKSubject dek /\
    Algorithm dek1 = Algorithm dek /\ EncryptedKeyMaterial dek1 = EncryptedKeyMaterial dek /\
    KeyMaterial dek1 = KeyMaterial dek /\ DEKDeleted dek1 = DEKDeleted dek /\ (0 < DEKVersion dek -> DEKVersion dek1 = DEKVersion dek) /\
    (DEKVersion dek <= 0 -> next_version s (DEKKekName dek) (DEKSubject dek) (DEKVersion dek1))).
  { subst dek1. destruct (Z.leb_spec (DEKVersion dek) 0); repeat (split; [done|]); [|intros; lia].
    split; [lia|]. intros _. exists (max_key (range e vm)).
    destruct (max_key_loop (range e vm) 0) as (H1 & H2 & H3).
    split; [done|]. split; [done|]. split.
    - intros x Hx E1 E2. apply (H2 _ x). apply elem_of_range. by apply Hvm.
    - destruct H3 as [H3|(x & Hx%elem_of_range)]; [by left|right]. exists x. by apply Hat. }
  destruct Hd as (H1 & H2 & H3 & H4 & H5 & H8 & H6 & H7). clearbody dek1. rewrite H1, H2.
  destruct (vm !! DEKVersion dek1) as [old|] eqn:Ev; simpl.
  - intros x. rewrite found_put. split; [|intros Hx].
    + intros [(E1 & E2 & Hx)|[_ ?]]; [by apply Hvm|done].
    + destruct (decide (DEKKekName dek = DEKKekName x /\ DEKSubject dek = DEKSubject x)) as [[E1 E2]|];
        [left|by right]. split; [done|]. split; [done|]. by apply Hvm.
  - split; [|done]. unfold created. simpl. repeat (split; [done|]). split; [|split; [|done]].
    + rewrite found_put. unfold without_plaintext; simpl. left. by rewrite lookup_insert_eq.
    + intros x Hx. unfold key_of. simpl.
      assert (Hne : key_of x <> (DEKKekName dek, DEKSubject dek, DEKVersion dek1)).
      { intros [= E1 E2 E3]. apply (Hvm x E1 E2) in Hx. rewrite E3, Ev in Hx. done. }
      split; [done|]. rewrite found_put.
      destruct (decide (DEKKekName dek = DEKKekName x /\ DEKSubject dek = DEKSubject x)) as [[E1 E2]|];
        [left|by right]. split; [done|]. split; [done|].
      rewrite lookup_insert_ne by (intros E3; apply Hne; unfold key_of; by rewrite E1, E2, E3).
      by apply Hvm.
Qed.

Lemma wp_CCreateDEK dek s :
  keys_wf s ->
  wp (invoke (CCreateDEK dek)) (fun '(res, dek') s' =>
    match res with
    | Err _ => forall x, found s' x <-> found s x
    | Ok _ => created s dek dek' s' /\ Algorithm dek' = Algorithm dek /\
        EncryptedKeyMaterial dek' = EncryptedKeyMaterial dek /\ KeyMaterial dek' = KeyMaterial dek
    end) s.
Proof.
  intros Hs. apply wp_call. intros e [res dek'] s' E. pose proof (MemCreateDEK_cases e dek s Hs) as H.
  unfold handle, memory_storage in E. simpl in E. by rewrite E in H.
Qed.

(** The data key the call asks a provider for, when it does. *)
Definition generates (kms : kmsRegistry) (s : Store) (dek : DEKRecord) (algorithm : string)
    : option (result (string * string)) :=
  match kms, GetKEK (DEKKekName dek) false s with
  | Some providers, Ok kek =>
      if decide (EncryptedKeyMaterial dek = EmptyString) then
        if Shared kek then
          provider ← providers !! KmsType kek;
          Some (GenerateDataKey provider (KmsKeyID kek) algorithm (KmsProps kek))
        else None
      else None
  | _, _ => None
  end.

(** A data key is created once and for all: on success it is
    stored, without its plaintext, under a version no stored key of its KEK and
    subject has (the caller's, or the next after the greatest), and every
    other key stays; its algorithm is a supported one.  When the KEK is shared,
    its provider is configured and the caller gave no material, the caller gets
    the plaintext the provider generated and the ciphertext that is stored.
    On an error no key has changed. *)
Theorem CreateDEK_spec kms dek s :
  keys_wf s ->
  wp (CreateDEK kms dek) (fun '(res, dek') s' =>
    match res with
    | Err _ => forall x, found s' x <-> found s x
    | Ok _ =>
        created s dek dek' s' /\ Algorithm dek' ∈ validAlgorithms /\
        (Algorithm dek <> EmptyString -> Algorithm dek' = Algorithm dek) /\
        match generates kms s dek (Algorithm dek') with
        | Some (Ok (plaintext, wrapped)) =>
            KeyMaterial dek' = EncodeToString plaintext /\
            EncryptedKeyMaterial dek' = EncodeToString wrapped
        | Some (Err _) => False
        | None =>
            KeyMaterial dek' = KeyMaterial dek /\
            EncryptedKeyMaterial dek' = EncryptedKeyMaterial dek
        end
    end) s.
Proof.
  intros Hs. unfold CreateDEK.
  destruct (blank (DEKKekName dek)); [by apply wp_ret|].
  destruct (blank (DEKSubject dek)); [by apply wp_ret|]. cbv zeta.
  set (dek1 := if decide (Algorithm dek = EmptyString) then _ else _).
  assert (Hd : created s dek1 = created s dek /\ generates kms s dek1 = generates kms s dek /\
    (Algorithm dek <> EmptyString -> Algorithm dek1 = Algorithm dek) /\
    KeyMaterial dek1 = KeyMaterial dek /\ DEKKekName dek1 = DEKKekName dek /\
    EncryptedKeyMaterial dek1 = EncryptedKeyMaterial dek)
    by (subst dek1; by destruct (decide _)).
  destruct Hd as (Hc & Hg & Ha & Hk & Hn & Hm). clearbody dek1. rewrite <- Hc, <- Hg, <- Hk, <- Hm.
  destruct (bool_decide_reflect (Algorithm dek1 ∈ validAlgorithms)) as [Hv|Hv]; [|by apply wp_ret].
  cbn [negb]. match goal with |- wp _ ?Q s => set (post := Q) end.
  assert (Hplain : generates kms s dek1 (Algorithm dek1) = None -> wp (invoke (CCreateDEK dek1)) post s).
  { intros Hgen. eapply wp_mono; [by apply wp_CCreateDEK|]. intros [[[]|err] dek'] s'; [|done].
    intros (H1 & H2 & H3 & H4). subst post. simpl. rewrite H2, Hgen. auto. }
  unfold generates in Hplain. destruct kms as [providers|]; [|by apply Hplain].
  destruct (decide (EncryptedKeyMaterial dek1 = EmptyString)) as [He|He];
    [|apply Hplain; by destruct (GetKEK _ _ _)].
  apply wp_bind, wp_call. intros e b s0 [= <- <-].
  destruct (GetKEK (DEKKekName dek1) false s) as [kek|err] eqn:Ekek; [|by apply wp_ret].
  destruct (Shared kek) eqn:Es; [|by apply Hplain].
  destruct (providers !! KmsType kek) as [provider|] eqn:Ep; [|by apply Hplain].
  destruct (GenerateDataKey provider _ _ _) as [[plaintext wrapped]|err] eqn:Egen; [|by apply wp_ret].
  eapply wp_mono; [by apply wp_CCreateDEK|]. intros [[[]|err] dek'] s'; [|done]. simpl.
  intros (H1 & H2 & H3 & H4). rewrite H2. unfold generates.
  rewrite Ekek, decide_True, Es, Ep by done. simpl. rewrite Egen. auto.
Qed.

Lemma CreateDEK_spec_witness :
  match run (CreateDEK (Some marking_kms) demo_dek) (fun _ => env0) keys_store with
  | ((Ok _, dek'), s') => created keys_store demo_dek dek' s'
  | ((Err _, _), _) => False
  end.
Proof.
  assert (E : is_ok (fst (fst (run (CreateDEK (Some marking_kms) demo_dek) (fun _ => env0) keys_store))) = true)
    by (vm_compute; reflexivity).
  pose proof (CreateDEK_spec (Some marking_kms) demo_dek keys_store keys_wf_keys_store (fun _ => env0)) as W.
  revert W E. generalize (run (CreateDEK (Some marking_kms) demo_dek) (fun _ => env0) keys_store).
  intros [[[[]|err] dek'] s'] W E; [exact (proj1 W)|discriminate E].
Defined.
