(* ===== verification/Rbac.v ===== *)
(** * Role-based access control: internal/auth/rbac.go

    Roles, permissions, the endpoint table and the middleware that decides on a
    request, with the routes of internal/api/server.go it guards.  A handler
    runs when the middleware answers [Next].  The second half says which routes are
    guarded by which permission. *)
From S2P Require Import Prelude GoStrings.
From Stdlib Require Import Ascii String.

Local Open Scope string_scope.

(** ** Roles and permissions *)

Abbreviation Role := string (only parsing).
Abbreviation Permission := string (only parsing).

Definition RoleSuperAdmin : Role := "super_admin".
Definition RoleAdmin : Role := "admin".
Definition RoleDeveloper : Role := "developer".
Definition RoleReadOnly : Role := "readonly".

Definition PermissionSchemaRead : Permission := "schema:read".
Definition PermissionSchemaWrite : Permission := "schema:write".
Definition PermissionSchemaDelete : Permission := "schema:delete".
Definition PermissionConfigRead : Permission := "config:read".
Definition PermissionConfigWrite : Permission := "config:write".
Definition PermissionModeRead : Permission := "mode:read".
Definition PermissionModeWrite : Permission := "mode:write".
Definition PermissionImport : Permission := "import:write".
Definition PermissionEncryptionRead : Permission := "encryption:read".
Definition PermissionEncryptionWrite : Permission := "encryption:write".
Definition PermissionExporterRead : Permission := "exporter:read".
Definition PermissionExporterWrite : Permission := "exporter:write".
Definition PermissionAdminRead : Permission := "admin:read".
Definition PermissionAdminWrite : Permission := "admin:write".

Definition rolePermissions : gmap Role (list Permission) :=
  list_to_map
    [(RoleSuperAdmin,
        [PermissionSchemaRead; PermissionSchemaWrite; PermissionSchemaDelete;
         PermissionConfigRead; PermissionConfigWrite; PermissionModeRead; PermissionModeWrite;
         PermissionImport; PermissionAdminRead; PermissionAdminWrite;
         PermissionEncryptionRead; PermissionEncryptionWrite;
         PermissionExporterRead; PermissionExporterWrite]);
     (RoleAdmin,
        [PermissionSchemaRead; PermissionSchemaWrite; PermissionSchemaDelete;
         PermissionConfigRead; PermissionConfigWrite; PermissionModeRead; PermissionModeWrite;
         PermissionImport; PermissionAdminRead;
         PermissionEncryptionRead; PermissionEncryptionWrite;
         PermissionExporterRead; PermissionExporterWrite]);
     (RoleDeveloper,
        [PermissionSchemaRead; PermissionSchemaWrite; PermissionConfigRead; PermissionModeRead;
         PermissionEncryptionRead; PermissionExporterRead]);
     (RoleReadOnly,
        [PermissionSchemaRead; PermissionConfigRead; PermissionModeRead;
         PermissionEncryptionRead; PermissionExporterRead])].

Definition GetRolePermissions (role : Role) : list Permission := from_opt [] (rolePermissions !! role).

Definition ValidRole (role : string) : bool :=
  bool_decide (role ∈ [RoleSuperAdmin; RoleAdmin; RoleDeveloper; RoleReadOnly]).

(** internal/auth/auth.go, [type User struct] *)
Record User := MkUser { UserID : Z; Username : string; UserRole : string; Method : string }.

(** internal/config/config.go, [type RBACConfig struct] *)
Record RBACConfig := MkRBACConfig { Enabled : bool; DefaultRole : string; SuperAdmins : list string }.

Record Authorizer := MkAuthorizer { config : RBACConfig; superAdmins : gmap string bool }.

Definition NewAuthorizer (cfg : RBACConfig) : Authorizer :=
  MkAuthorizer cfg (fold_left (fun superAdmins admin => <[admin := true]> superAdmins) (SuperAdmins cfg) ∅).

Definition IsSuperAdmin (a : Authorizer) (username : string) : bool :=
  from_opt false (superAdmins a !! username).

Definition HasPermission (a : Authorizer) (user : option User) (perm : Permission) : bool :=
  match user with
  | None => false
  | Some user =>
      if from_opt false (superAdmins a !! Username user) then true
      else
        let role := if decide (UserRole user = "") then DefaultRole (config a) else UserRole user in
        match rolePermissions !! role with
        | None => false
        | Some perms => existsb (fun p => bool_decide (p = perm)) perms
        end
  end.

(** What the middleware does with a request: pass it on, or answer 401 or 403. *)
Inductive decision := Next | Unauthorized | Forbidden.

Definition RequirePermission (a : Authorizer) (perm : Permission) (user : option User) : decision :=
  if negb (Enabled (config a)) then Next
  else
    match user with
    | None => Unauthorized
    | Some _ => if negb (HasPermission a user perm) then Forbidden else Next
    end.

(** ** Endpoints *)

Record EndpointPermission := MkEndpoint { EpMethod : string; PathPrefix : string; EpPermission : Permission }.

Definition DefaultEndpointPermissions : list EndpointPermission :=
  [MkEndpoint "GET" "/subjects" PermissionSchemaRead;
   MkEndpoint "GET" "/schemas" PermissionSchemaRead;
   MkEndpoint "POST" "/schemas" PermissionSchemaRead;
   MkEndpoint "POST" "/subjects/validate" PermissionSchemaRead;
   MkEndpoint "POST" "/subjects/match" PermissionSchemaRead;
   MkEndpoint "POST" "/subjects" PermissionSchemaWrite;
   MkEndpoint "POST" "/compatibility" PermissionSchemaRead;
   MkEndpoint "DELETE" "/subjects" PermissionSchemaDelete;
   MkEndpoint "GET" "/config" PermissionConfigRead;
   MkEndpoint "PUT" "/config" PermissionConfigWrite;
   MkEndpoint "DELETE" "/config" PermissionConfigWrite;
   MkEndpoint "GET" "/mode" PermissionModeRead;
   MkEndpoint "PUT" "/mode" PermissionModeWrite;
   MkEndpoint "POST" "/import" PermissionImport;
   MkEndpoint "GET" "/dek-registry" PermissionEncryptionRead;
   MkEndpoint "POST" "/dek-registry" PermissionEncryptionWrite;
   MkEndpoint "PUT" "/dek-registry" PermissionEncryptionWrite;
   MkEndpoint "DELETE" "/dek-registry" PermissionEncryptionWrite;
   MkEndpoint "GET" "/exporters" PermissionExporterRead;
   MkEndpoint "POST" "/exporters" PermissionExporterWrite;
   MkEndpoint "PUT" "/exporters" PermissionExporterWrite;
   MkEndpoint "DELETE" "/exporters" PermissionExporterWrite;
   MkEndpoint "DELETE" "/mode" PermissionModeWrite;
   MkEndpoint "GET" "/admin" PermissionAdminRead;
   MkEndpoint "POST" "/admin" PermissionAdminWrite;
   MkEndpoint "PUT" "/admin" PermissionAdminWrite;
   MkEndpoint "DELETE" "/admin" PermissionAdminWrite;
   MkEndpoint "GET" "/me" PermissionSchemaRead;
   MkEndpoint "POST" "/me" PermissionSchemaRead;
   MkEndpoint "GET" "/contexts" PermissionSchemaRead;
   MkEndpoint "GET" "/v1/metadata" PermissionSchemaRead;
   MkEndpoint "GET" "/statistics" PermissionSchemaRead].

Definition contexts_prefix : string := "/contexts/".

Definition normalizePathForRBAC (path : string) : string :=
  if HasPrefix path contexts_prefix then
    let rest := drop_str (String.length contexts_prefix) path in
    match index_byte "/" rest with
    | Some idx => drop_str idx rest
    | None => "/"
    end
  else path.

Definition matches (method path : string) (ep : EndpointPermission) : bool :=
  bool_decide (method = EpMethod ep) && HasPrefix path (PathPrefix ep).

(** The loop stops at the first match. *)
Definition AuthorizeEndpoint (a : Authorizer) (permissions : list EndpointPermission)
    (user : option User) (method path : string) : decision :=
  if negb (Enabled (config a)) then Next
  else
    let normalizedPath := normalizePathForRBAC path in
    match List.find (matches method normalizedPath) permissions with
    | Some ep =>
        match user with
        | None => Unauthorized
        | Some _ => if negb (HasPermission a user (EpPermission ep)) then Forbidden else Next
        end
    | None =>
        match user with
        | Some _ => Forbidden
        | None => Next
        end
    end.

(** ** The routes of the server: internal/api/server.go *)

(** A method, a chi pattern and the handler behind it. *)
Record Route := MkRoute { RtMethod : string; Pattern : string; Handler : string }.

#[export] Instance Route_eq_dec : EqDecision Route.
Proof. solve_decision. Defined.

(** Mounted at the root and under [/contexts/{context}]. *)
Definition mountRegistryRoutes : list Route :=
  [MkRoute "GET" "/schemas/types" "GetSchemaTypes";
   MkRoute "GET" "/schemas" "ListSchemas";
   MkRoute "GET" "/schemas/ids/{id}" "GetSchemaByID";
   MkRoute "GET" "/schemas/ids/{id}/schema" "GetRawSchemaByID";
   MkRoute "GET" "/schemas/ids/{id}/subjects" "GetSubjectsBySchemaID";
   MkRoute "GET" "/schemas/ids/{id}/versions" "GetVersionsBySchemaID";
   MkRoute "GET" "/subjects" "ListSubjects";
   MkRoute "GET" "/subjects/{subject}/versions" "GetVersions";
   MkRoute "GET" "/subjects/{subject}/versions/{version}" "GetVersion";
   MkRoute "GET" "/subjects/{subject}/versions/{version}/schema" "GetRawSchemaByVersion";
   MkRoute "GET" "/subjects/{subject}/versions/{version}/referencedby" "GetReferencedBy";
   MkRoute "POST" "/subjects/{subject}/versions" "RegisterSchema";
   MkRoute "POST" "/subjects/{subject}" "LookupSchema";
   MkRoute "DELETE" "/subjects/{subject}" "DeleteSubject";
   MkRoute "DELETE" "/subjects/{subject}/versions/{version}" "DeleteVersion";
   MkRoute "GET" "/subjects/{subject}/metadata" "GetSubjectMetadata";
   MkRoute "GET" "/config" "GetConfig";
   MkRoute "PUT" "/config" "SetConfig";
   MkRoute "DELETE" "/config" "DeleteGlobalConfig";
   MkRoute "GET" "/config/{subject}" "GetConfig";
   MkRoute "PUT" "/config/{subject}" "SetConfig";
   MkRoute "DELETE" "/config/{subject}" "DeleteConfig";
   MkRoute "GET" "/mode" "GetMode";
   MkRoute "PUT" "/mode" "SetMode";
   MkRoute "DELETE" "/mode" "DeleteGlobalMode";
   MkRoute "GET" "/mode/{subject}" "GetMode";
   MkRoute "PUT" "/mode/{subject}" "SetMode";
   MkRoute "DELETE" "/mode/{subject}" "DeleteMode";
   MkRoute "POST" "/import/schemas" "ImportSchemas";
   MkRoute "POST" "/compatibility/subjects/{subject}/versions/{version}" "CheckCompatibility";
   MkRoute "POST" "/compatibility/subjects/{subject}/versions" "CheckCompatibility";
   MkRoute "GET" "/contexts" "GetContexts";
   MkRoute "GET" "/exporters" "ListExporters";
   MkRoute "POST" "/exporters" "CreateExporter";
   MkRoute "GET" "/exporters/{name}" "GetExporter";
   MkRoute "PUT" "/exporters/{name}" "UpdateExporter";
   MkRoute "DELETE" "/exporters/{name}" "DeleteExporter";
   MkRoute "PUT" "/exporters/{name}/pause" "PauseExporter";
   MkRoute "PUT" "/exporters/{name}/resume" "ResumeExporter";
   MkRoute "PUT" "/exporters/{name}/reset" "ResetExporter";
   MkRoute "GET" "/exporters/{name}/status" "GetExporterStatus";
   MkRoute "GET" "/exporters/{name}/config" "GetExporterConfig";
   MkRoute "PUT" "/exporters/{name}/config" "UpdateExporterConfig";
   MkRoute "GET" "/v1/metadata/id" "GetClusterID";
   MkRoute "GET" "/v1/metadata/version" "GetServerVersion";
   MkRoute "POST" "/schemas/validate" "ValidateSchema";
   MkRoute "POST" "/schemas/normalize" "NormalizeSchema";
   MkRoute "POST" "/schemas/search" "SearchSchemas";
   MkRoute "POST" "/schemas/search/field" "FindSchemasByField";
   MkRoute "POST" "/schemas/search/type" "FindSchemasByType";
   MkRoute "POST" "/schemas/similar" "FindSimilarSchemas";
   MkRoute "POST" "/schemas/quality" "ScoreSchemaQuality";
   MkRoute "POST" "/schemas/complexity" "GetSchemaComplexity";
   MkRoute "POST" "/subjects/validate" "ValidateSubjectName";
   MkRoute "POST" "/subjects/match" "MatchSubjects";
   MkRoute "GET" "/subjects/count" "CountSubjects";
   MkRoute "GET" "/subjects/{subject}/history" "GetSchemaHistory";
   MkRoute "GET" "/subjects/{subject}/versions/{version}/dependencies" "GetDependencyGraph";
   MkRoute "GET" "/subjects/{subject}/versions/{version}/export" "ExportSchema";
   MkRoute "POST" "/subjects/{subject}/diff" "DiffSchemas";
   MkRoute "POST" "/subjects/{subject}/evolve" "SuggestSchemaEvolution";
   MkRoute "POST" "/subjects/{subject}/migrate" "PlanMigrationPath";
   MkRoute "GET" "/subjects/{subject}/export" "ExportSubject";
   MkRoute "GET" "/subjects/{subject}/versions/count" "CountVersions";
   MkRoute "POST" "/compatibility/check" "CheckCompatibilityMulti";
   MkRoute "POST" "/compatibility/subjects/{subject}/suggest" "SuggestCompatibleChange";
   MkRoute "POST" "/compatibility/subjects/{subject}/explain" "ExplainCompatibilityFailure";
   MkRoute "POST" "/compatibility/compare" "CompareSubjects";
   MkRoute "GET" "/statistics" "GetRegistryStatistics";
   MkRoute "GET" "/statistics/fields/{field}" "CheckFieldConsistency";
   MkRoute "GET" "/statistics/patterns" "DetectSchemaPatterns"].

(** The routes [setupRouter] mounts at the root only. *)
Definition globalRoutes : list Route :=
  [MkRoute "GET" "/dek-registry/v1/keks" "ListKEKs";
   MkRoute "POST" "/dek-registry/v1/keks" "CreateKEK";
   MkRoute "GET" "/dek-registry/v1/keks/{name}" "GetKEK";
   MkRoute "PUT" "/dek-registry/v1/keks/{name}" "UpdateKEK";
   MkRoute "DELETE" "/dek-registry/v1/keks/{name}" "DeleteKEK";
   MkRoute "POST" "/dek-registry/v1/keks/{name}/undelete" "UndeleteKEK";
   MkRoute "POST" "/dek-registry/v1/keks/{name}/test" "TestKEK";
   MkRoute "GET" "/dek-registry/v1/keks/{name}/deks" "ListDEKs";
   MkRoute "POST" "/dek-registry/v1/keks/{name}/deks" "CreateDEK";
   MkRoute "GET" "/dek-registry/v1/keks/{name}/deks/{subject}" "GetDEK";
   MkRoute "POST" "/dek-registry/v1/keks/{name}/deks/{subject}" "CreateDEKWithSubject";
   MkRoute "DELETE" "/dek-registry/v1/keks/{name}/deks/{subject}" "DeleteDEK";
   MkRoute "POST" "/dek-registry/v1/keks/{name}/deks/{subject}/undelete" "UndeleteDEK";
   MkRoute "GET" "/dek-registry/v1/keks/{name}/deks/{subject}/versions" "ListDEKVersions";
   MkRoute "GET" "/dek-registry/v1/keks/{name}/deks/{subject}/versions/{version}" "GetDEKVersion";
   MkRoute "DELETE" "/dek-registry/v1/keks/{name}/deks/{subject}/versions/{version}" "DeleteDEKVersion";
   MkRoute "POST" "/dek-registry/v1/keks/{name}/deks/{subject}/versions/{version}/undelete" "UndeleteDEKVersion";
   MkRoute "GET" "/me" "GetCurrentUser";
   MkRoute "POST" "/me/password" "ChangePassword";
   MkRoute "GET" "/admin/users" "ListUsers";
   MkRoute "POST" "/admin/users" "CreateUser";
   MkRoute "GET" "/admin/users/{id}" "GetUser";
   MkRoute "PUT" "/admin/users/{id}" "UpdateUser";
   MkRoute "DELETE" "/admin/users/{id}" "DeleteUser";
   MkRoute "GET" "/admin/apikeys" "ListAPIKeys";
   MkRoute "POST" "/admin/apikeys" "CreateAPIKey";
   MkRoute "GET" "/admin/apikeys/{id}" "GetAPIKey";
   MkRoute "PUT" "/admin/apikeys/{id}" "UpdateAPIKey";
   MkRoute "DELETE" "/admin/apikeys/{id}" "DeleteAPIKey";
   MkRoute "POST" "/admin/apikeys/{id}/revoke" "RevokeAPIKey";
   MkRoute "POST" "/admin/apikeys/{id}/rotate" "RotateAPIKey";
   MkRoute "GET" "/admin/roles" "ListRoles"].

(** The path of a pattern: [v] gives the value of each parameter. *)
Definition path_of (pattern : string) (v : string -> string) : string :=
  Join (map (fun seg => if HasPrefix seg "{" then v seg else seg) (Split pattern "/"%char)) "/".

(** ** Lemmas *)

Lemma HasPrefix_slash s t p :
  contains_byte "/" p = false -> HasPrefix (s ++ String "/" t) p = HasPrefix s p.
Proof.
  revert p. induction s as [|c s IH]; intros [|d p]; simpl; try done.
  - intros [Hd _]%orb_false_iff. unfold HasPrefix. simpl. destruct (ascii_dec d "/") as [->|]; [done|done].
  - intros [_ Hp]%orb_false_iff. unfold HasPrefix in *. simpl.
    destruct (ascii_dec d c) as [->|]; [by apply IH|done].
Qed.

(** The entry that decides on a request, as a permission. *)
Definition required (method path : string) : option Permission :=
  EpPermission <$> List.find (matches method path) DefaultEndpointPermissions.

Lemma AuthorizeEndpoint_required a user method path :
  AuthorizeEndpoint a DefaultEndpointPermissions user method path =
  if negb (Enabled (config a)) then Next
  else match required method (normalizePathForRBAC path), user with
       | Some _, None => Unauthorized
       | Some perm, Some _ => if HasPermission a user perm then Next else Forbidden
       | None, Some _ => Forbidden
       | None, None => Next
       end.
Proof.
  unfold AuthorizeEndpoint, required. destruct (negb (Enabled (config a))); [done|].
  destruct (List.find _ _) as [ep|]; simpl; [|done]. destruct user; [|done].
  by destruct (HasPermission a (Some u) (EpPermission ep)).
Qed.

(** A context prefix makes no difference. *)
Lemma normalize_context name path :
  contains_byte "/" name = false ->
  normalizePathForRBAC (contexts_prefix ++ name ++ String "/" path) = String "/" path.
Proof.
  intros Hn. unfold normalizePathForRBAC. rewrite HasPrefix_app, drop_str_app.
  rewrite index_byte_app by done. apply drop_str_app.
Qed.

(** ** What the access control guarantees

    Which permission each route of the server asks for, in the default and in a
    named context, and how the roles compare. *)
(** ** The permission a route should ask for *)

Definition routes : list Route := (mountRegistryRoutes ++ globalRoutes)%list.

(** The handlers that change state, with the permission for it. *)
Definition write_permissions : list (string * Permission) :=
  (map (fun h => (h, PermissionSchemaWrite)) ["RegisterSchema"] ++
   map (fun h => (h, PermissionSchemaDelete)) ["DeleteSubject"; "DeleteVersion"] ++
   map (fun h => (h, PermissionConfigWrite)) ["SetConfig"; "DeleteGlobalConfig"; "DeleteConfig"] ++
   map (fun h => (h, PermissionModeWrite)) ["SetMode"; "DeleteGlobalMode"; "DeleteMode"] ++
   map (fun h => (h, PermissionImport)) ["ImportSchemas"] ++
   map (fun h => (h, PermissionExporterWrite))
     ["CreateExporter"; "UpdateExporter"; "DeleteExporter"; "PauseExporter"; "ResumeExporter";
      "ResetExporter"; "UpdateExporterConfig"] ++
   map (fun h => (h, PermissionEncryptionWrite))
     ["CreateKEK"; "UpdateKEK"; "DeleteKEK"; "UndeleteKEK"; "CreateDEK"; "CreateDEKWithSubject";
      "DeleteDEK"; "UndeleteDEK"; "DeleteDEKVersion"; "UndeleteDEKVersion"] ++
   map (fun h => (h, PermissionAdminWrite))
     ["CreateUser"; "UpdateUser"; "DeleteUser"; "CreateAPIKey"; "UpdateAPIKey"; "DeleteAPIKey";
      "RevokeAPIKey"; "RotateAPIKey"])%list.

Definition write_permission (handler : string) : option Permission :=
  snd <$> List.find (fun hp => bool_decide (fst hp = handler)) write_permissions.

(** A subject whose name the prefixes of the read-only entries do not catch. *)
Definition ordinary (subject : string) : bool :=
  negb (HasPrefix subject "validate") && negb (HasPrefix subject "match").

(** The request paths of a route: at the root, or under a context. *)
Inductive request_path (r : Route) (v : string -> string) : string -> Prop :=
  | at_root : request_path r v (path_of (Pattern r) v)
  | in_context name : contains_byte "/" name = false -> r ∈ mountRegistryRoutes ->
      request_path r v (contexts_prefix ++ name ++ path_of (Pattern r) v).

(** ** Deciding about patterns before their parameters are known *)

(** The part of a pattern in front of its first parameter. *)
Fixpoint literal_part (pattern : string) : string :=
  match pattern with
  | EmptyString => EmptyString
  | String c pattern => if Ascii.eqb c "{" then EmptyString else String c (literal_part pattern)
  end.

Lemma path_of_literal pattern v : exists rest, path_of pattern v = literal_part pattern ++ rest.
Proof.
  unfold path_of. set (f := fun seg => if HasPrefix seg "{" then v seg else seg).
  induction pattern as [|c s IH]; [eexists; reflexivity|]. simpl.
  destruct (Split_cons s "/") as (seg & segs & E). rewrite E in *. destruct IH as [rest IH].
  destruct (Ascii.eqb_spec c "/") as [->|Hc].
  { exists rest. simpl in *. by rewrite IH. }
  destruct (Ascii.eqb_spec c "{") as [->|Hb]; [eexists; reflexivity|].
  assert (Hf : f (String c seg) = String c seg).
  { unfold f. destruct (HasPrefix (String c seg) "{") eqn:H; [|done].
    apply HasPrefix_iff in H as [t [= -> _]]. done. }
  assert (Hj : exists t, Join (map f (String c seg :: segs)) "/" = String c t /\
            (f seg = seg -> t = Join (map f (seg :: segs)) "/")).
  { simpl. rewrite Hf. destruct (map f segs); simpl; eexists; split; try reflexivity; congruence. }
  destruct Hj as (t & -> & Ht). destruct (HasPrefix seg "{") eqn:Hs.
  - assert (literal_part s = "") as ->; [|by exists t].
    apply HasPrefix_iff in Hs as [seg' ->]. destruct s as [|d s]; [done|]. simpl in E.
    destruct (Ascii.eqb d "/"); [done|]. by destruct (Split s "/"); injection E as -> _.
  - exists rest. rewrite Ht by (unfold f; by rewrite Hs). by rewrite IH.
Qed.

(** Whether every path that begins with [p] begins with [q], or none does. *)
Definition tri_prefix (p q : string) : option bool :=
  if HasPrefix p q then Some true else if HasPrefix q p then None else Some false.

Lemma prefixes_compare p q s t : p ++ s = q ++ t -> (exists u, p = q ++ u) \/ (exists u, q = p ++ u).
Proof.
  revert q. induction p as [|c p IH]; intros [|d q] E; [left; by exists ""|right; by exists (String d q)|
    left; by exists (String c p)|].
  injection E as -> E. destruct (IH q E) as [[u ->]|[u ->]]; [left|right]; by exists u.
Qed.

Lemma tri_prefix_sound p q b rest : tri_prefix p q = Some b -> HasPrefix (p ++ rest) q = b.
Proof.
  unfold tri_prefix. destruct (HasPrefix p q) eqn:E1; [|destruct (HasPrefix q p) eqn:E2]; intros [= <-].
  - apply HasPrefix_iff in E1 as [t ->]. rewrite append_assoc. apply HasPrefix_app.
  - destruct (HasPrefix (p ++ rest) q) eqn:E; [|done]. exfalso.
    apply HasPrefix_iff in E as [t E]. destruct (prefixes_compare _ _ _ _ E) as [[u ->]|[u ->]].
    + by rewrite HasPrefix_app in E1.
    + by rewrite HasPrefix_app in E2.
Qed.

(** [required], from the literal part alone; [None] when it does not decide. *)
Fixpoint static_find (method literal : string) (eps : list EndpointPermission)
    : option (option EndpointPermission) :=
  match eps with
  | [] => Some None
  | ep :: eps =>
      if bool_decide (method = EpMethod ep) then
        match tri_prefix literal (PathPrefix ep) with
        | Some true => Some (Some ep)
        | Some false => static_find method literal eps
        | None => None
        end
      else static_find method literal eps
  end.

Lemma static_find_sound method literal rest eps r :
  static_find method literal eps = Some r -> List.find (matches method (literal ++ rest)) eps = r.
Proof.
  induction eps as [|ep eps IH]; simpl; [by intros [= <-]|]. unfold matches at 1.
  destruct (bool_decide (method = EpMethod ep)); simpl; [|apply IH].
  destruct (tri_prefix literal (PathPrefix ep)) as [[]|] eqn:E; [| |done];
    rewrite (tri_prefix_sound _ _ _ _ E); [by intros [= <-]|apply IH].
Qed.

(** ** The permission of each route *)

Definition register : Route := MkRoute "POST" "/subjects/{subject}/versions" "RegisterSchema".

(** The entry of the table decides, or the route posts to a subject; a route
    that changes state asks for the permission to. *)
Definition route_ok (r : Route) : bool :=
  let literal := literal_part (Pattern r) in
  HasPrefix literal "/" &&
  (bool_decide (tri_prefix literal contexts_prefix = Some false) || bool_decide (Pattern r = "/contexts")) &&
  match static_find (RtMethod r) literal DefaultEndpointPermissions with
  | Some (Some ep) =>
      match write_permission (Handler r) with
      | Some perm => bool_decide (EpPermission ep = perm)
      | None => true
      end
  | Some None => false
  | None =>
      bool_decide (RtMethod r = "POST") && bool_decide (literal = "/subjects/") &&
      match write_permission (Handler r) with Some _ => bool_decide (r = register) | None => true end
  end.

Lemma routes_ok : forallb route_ok routes = true.
Proof. vm_compute. reflexivity. Qed.

Lemma route_ok_in r : r ∈ routes -> route_ok r = true.
Proof. intros Hr. apply (proj1 (forallb_forall _ _) routes_ok), list_elem_of_In, Hr. Qed.

Lemma normalize_request r v path :
  r ∈ routes -> request_path r v path -> normalizePathForRBAC path = path_of (Pattern r) v.
Proof.
  intros Hr Hp. pose proof (route_ok_in r Hr) as Hok. unfold route_ok in Hok.
  apply andb_true_iff in Hok as [[Hs Hc]%andb_true_iff _].
  destruct (path_of_literal (Pattern r) v) as [rest Hl]. destruct Hp as [|name Hn _].
  - unfold normalizePathForRBAC. apply orb_true_iff in Hc as [Hc|Hc].
    + apply bool_decide_eq_true in Hc. rewrite Hl. by rewrite (tri_prefix_sound _ _ _ _ Hc).
    + apply bool_decide_eq_true in Hc. by rewrite Hc.
  - apply HasPrefix_iff in Hs as [t Hs]. rewrite Hl, Hs. by apply normalize_context.
Qed.

(** The two entries that come before the one for writing. *)
Lemma required_post_subject rest :
  required "POST" ("/subjects/" ++ rest) =
  if HasPrefix rest "validate" || HasPrefix rest "match"
  then Some PermissionSchemaRead else Some PermissionSchemaWrite.
Proof.
  unfold required, matches, HasPrefix. simpl.
  by destruct (String.prefix "validate" rest), (String.prefix "match" rest).
Qed.

Lemma required_routes r v :
  r ∈ routes ->
  exists perm, required (RtMethod r) (path_of (Pattern r) v) = Some perm /\
    (ordinary (v "{subject}") = true -> from_opt perm (write_permission (Handler r)) = perm).
Proof.
  intros Hr. pose proof (route_ok_in r Hr) as Hok. unfold route_ok in Hok.
  apply andb_true_iff in Hok as [_ Hok]. destruct (path_of_literal (Pattern r) v) as [rest Hl].
  destruct (static_find _ _ _) as [[ep|]|] eqn:E; [|done|].
  - exists (EpPermission ep). unfold required. rewrite Hl, (static_find_sound _ _ _ _ _ E). split; [done|].
    intros _. destruct (write_permission (Handler r)); [by apply bool_decide_eq_true in Hok|done].
  - apply andb_true_iff in Hok as [[Hm Hs]%andb_true_iff Hw].
    apply bool_decide_eq_true in Hm, Hs. rewrite Hl, Hm, Hs, required_post_subject.
    exists (if HasPrefix rest "validate" || HasPrefix rest "match" then PermissionSchemaRead
            else PermissionSchemaWrite).
    split; [by destruct (_ || _)|].
    destruct (write_permission (Handler r)) eqn:Ew; [|done].
    apply bool_decide_eq_true in Hw as ->. injection Ew as <-. intros Ho.
    change ("/subjects/" ++ (v "{subject}" ++ String "/" "versions") = "/subjects/" ++ rest) in Hl.
    injection Hl as <-. apply andb_true_iff in Ho as [H1%negb_true_iff H2%negb_true_iff].
    by rewrite !HasPrefix_slash, H1, H2.
Qed.

(** Property C37.  With access control on, a route that changes state is passed
    on exactly for the users who hold the permission to, at the root and under
    every context, except that posting to a subject whose name begins with
    [validate] or [match] is left out. *)
Theorem write_routes_protected a user r v perm path :
  Enabled (config a) = true ->
  r ∈ routes -> write_permission (Handler r) = Some perm -> ordinary (v "{subject}") = true ->
  request_path r v path ->
  AuthorizeEndpoint a DefaultEndpointPermissions user (RtMethod r) path = Next <->
  HasPermission a user perm = true.
Proof.
  intros He Hr Hw Ho Hp. destruct (required_routes r v Hr) as (perm' & Hq & Heq).
  rewrite AuthorizeEndpoint_required, He, (normalize_request _ _ _ Hr Hp), Hq. simpl.
  specialize (Heq Ho). rewrite Hw in Heq. simpl in Heq. subst perm'.
  destruct user as [u|]; [|done]. by destruct (HasPermission a (Some u) perm).
Qed.

Definition access : Authorizer := NewAuthorizer (MkRBACConfig true RoleReadOnly ["root"]).
Definition reader : User := MkUser 7 "alice" RoleReadOnly "basic".

Lemma write_routes_protected_witness :
  AuthorizeEndpoint access DefaultEndpointPermissions (Some reader) "POST"
    "/contexts/.staging/subjects/orders/versions" = Next <->
  HasPermission access (Some reader) PermissionSchemaWrite = true.
Proof.
  apply (write_routes_protected access (Some reader) register (fun _ => "orders") PermissionSchemaWrite).
  - reflexivity.
  - apply (bool_decide_unpack _). vm_compute. exact I.
  - reflexivity.
  - reflexivity.
  - apply (in_context register (fun _ => "orders") ".staging"); [reflexivity|].
    apply (bool_decide_unpack _). vm_compute. exact I.
Defined.

(** A read-only user may register schemas under such a subject. *)
Example readonly_registers :
  HasPermission access (Some reader) PermissionSchemaWrite = false /\
  AuthorizeEndpoint access DefaultEndpointPermissions (Some reader) (RtMethod register)
    (path_of (Pattern register) (fun _ => "validated-orders")) = Next.
Proof. split; vm_compute; reflexivity. Qed.

(** No route is left out of the endpoint table: with access
    control on, every route is refused without a user and passed on for a super
    admin, at the root and under every context. *)
Theorem routes_covered a u r v path :
  Enabled (config a) = true -> r ∈ routes -> request_path r v path ->
  AuthorizeEndpoint a DefaultEndpointPermissions None (RtMethod r) path = Unauthorized /\
  (IsSuperAdmin a (Username u) = true ->
   AuthorizeEndpoint a DefaultEndpointPermissions (Some u) (RtMethod r) path = Next).
Proof.
  intros He Hr Hp. destruct (required_routes r v Hr) as (perm' & Hq & _).
  rewrite !AuthorizeEndpoint_required, He, (normalize_request _ _ _ Hr Hp), Hq.
  split; [done|]. unfold IsSuperAdmin, HasPermission. by intros ->.
Qed.

Lemma routes_covered_witness :
  AuthorizeEndpoint access DefaultEndpointPermissions (Some (MkUser 1 "root" "" "basic")) "POST"
    (path_of "/subjects/{subject}/versions" (fun _ => "orders")) = Next.
Proof.
  apply (routes_covered access (MkUser 1 "root" "" "basic") register (fun _ => "orders")).
  - reflexivity.
  - apply (bool_decide_unpack _). vm_compute. exact I.
  - apply at_root.
  - vm_compute. reflexivity.
Defined.

(** ** The hierarchy of roles *)

(** From the least to the most powerful. *)
Definition hierarchy : list Role := [RoleReadOnly; RoleDeveloper; RoleAdmin; RoleSuperAdmin].

Definition below (role role' : Role) : bool :=
  match list_find (eq role) hierarchy, list_find (eq role') hierarchy with
  | Some (i, _), Some (j, _) => (i <=? j)%nat
  | _, _ => false
  end.

(** The role [HasPermission] goes by. *)
Definition effectiveRole (a : Authorizer) (u : User) : Role :=
  if decide (UserRole u = "") then DefaultRole (config a) else UserRole u.

Lemma below_grants role role' perm :
  below role role' = true -> perm ∈ GetRolePermissions role -> perm ∈ GetRolePermissions role'.
Proof.
  unfold below. destruct (list_find (eq role) hierarchy) as [[i x]|] eqn:E; [|done].
  destruct (list_find (eq role') hierarchy) as [[j y]|] eqn:E'; [|done].
  apply list_find_Some in E as (Hi & -> & _). apply list_find_Some in E' as (Hj & -> & _).
  assert (Hall : forallb (fun '(i, r1) => forallb (fun '(j, r2) =>
            negb (i <=? j)%nat ||
            forallb (fun p => bool_decide (p ∈ GetRolePermissions r2)) (GetRolePermissions r1))
            (imap pair hierarchy)) (imap pair hierarchy) = true) by (vm_compute; reflexivity).
  assert (Hin : forall k z, hierarchy !! k = Some z -> In (k, z) (imap pair hierarchy)).
  { intros k z Hk. apply list_elem_of_In, list_elem_of_lookup. exists k. by rewrite list_lookup_imap, Hk. }
  intros Hle Hp. rewrite forallb_forall in Hall. specialize (Hall _ (Hin _ _ Hi)); cbv beta iota in Hall.
  rewrite forallb_forall in Hall. specialize (Hall _ (Hin _ _ Hj)); cbv beta iota in Hall; rewrite Hle in Hall; cbn [negb orb] in Hall.
  rewrite forallb_forall in Hall. apply list_elem_of_In, Hall, bool_decide_eq_true in Hp. exact Hp.
Qed.

Lemma HasPermission_spec a u perm :
  HasPermission a (Some u) perm = true <->
  IsSuperAdmin a (Username u) = true \/ perm ∈ GetRolePermissions (effectiveRole a u).
Proof.
  unfold HasPermission, IsSuperAdmin, effectiveRole, GetRolePermissions.
  destruct (from_opt false _); [by split; [left|]|].
  destruct (rolePermissions !! _) as [perms|]; simpl.
  - rewrite existsb_exists. split.
    + intros (p & Hp%list_elem_of_In & E%bool_decide_eq_true). subst. by right.
    + intros [|Hp]; [done|]. exists perm. rewrite <- list_elem_of_In. by rewrite bool_decide_true.
  - split; [done|]. intros [|Hp]; [done|]. by apply elem_of_nil in Hp.
Qed.

(** The roles form a hierarchy: whatever the endpoint table, a
    request that is passed on for a user is passed on for every user whose role
    is at least as high in readonly, developer, admin, super_admin; and a
    super admin listed by name is passed wherever anyone is. *)
Theorem role_hierarchy a permissions u u' method path :
  IsSuperAdmin a (Username u') = true \/
    IsSuperAdmin a (Username u) = false /\ below (effectiveRole a u) (effectiveRole a u') = true ->
  AuthorizeEndpoint a permissions (Some u) method path = Next ->
  AuthorizeEndpoint a permissions (Some u') method path = Next.
Proof.
  intros Hr. unfold AuthorizeEndpoint. destruct (negb (Enabled (config a))); [done|].
  destruct (List.find _ _) as [ep|]; [|done].
  enough (Hp : HasPermission a (Some u) (EpPermission ep) = true ->
          HasPermission a (Some u') (EpPermission ep) = true).
  { destruct (HasPermission a (Some u) _); [|done]. by rewrite Hp. }
  rewrite !HasPermission_spec. intros H. destruct Hr as [Hr|[Hs Hb]]; [by left|].
  destruct H as [H|H]; [congruence|]. right. by eapply below_grants.
Qed.

Lemma role_hierarchy_witness :
  AuthorizeEndpoint access DefaultEndpointPermissions (Some (MkUser 8 "bob" RoleDeveloper "basic")) "GET" "/mode" = Next.
Proof.
  apply (role_hierarchy access DefaultEndpointPermissions reader).
  - right. split; vm_compute; reflexivity.
  - vm_compute. reflexivity.
Defined.
