(* ===== verification/Procs.v ===== *)
(** * Procedures over shared state, step by step

    The authentication service is called by many goroutines at once.  Its
    methods are written as a [proc]: a sequence of atomic actions on a shared
    world (one storage call under the store's lock, one operation on a
    [sync.Map], one access through a pointer), each followed by the rest of the
    method.  [exec] runs a method alone; [interleaves] runs a pool of them in
    any order. *)
From S2P Require Import Prelude StorageTypes.
From stdpp Require Import relations.

(** ** Methods *)

Inductive proc (W A : Type) : Type :=
  | Done (r : result A)
  | Act {B : Type} (f : W -> B * W) (k : B -> proc W A).
Arguments Done {W A} r.
Arguments Act {W A B} f k.

Section methods.
Context {W : Type}.

(** An error ends the method: [if err != nil { return err }]. *)
Fixpoint bindp {A B} (p : proc W A) (k : A -> proc W B) : proc W B :=
  match p with
  | Done (Ok a) => k a
  | Done (Err e) => Done (Err e)
  | Act f g => Act f (fun b => bindp (g b) k)
  end.

Definition retp {A} (a : A) : proc W A := Done (Ok a).
Definition throw {A} (e : error) : proc W A := Done (Err e).

(** An action that cannot fail, and one that answers with an error value. *)
Definition atomic {A} (f : W -> A * W) : proc W A := Act f (fun a => Done (Ok a)).
Definition request {A} (f : W -> result A * W) : proc W A := Act f Done.

(** A call whose error is looked at: [v, err := p]. *)
Fixpoint tryp {A} (p : proc W A) : proc W (result A) :=
  match p with
  | Done r => Done (Ok r)
  | Act f k => Act f (fun b => tryp (k b))
  end.

(** A [for] loop over a list. *)
Fixpoint forp {A} (l : list A) (body : A -> proc W unit) : proc W unit :=
  match l with
  | [] => retp tt
  | a :: l => bindp (body a) (fun _ => forp l body)
  end.

(** ** A method alone *)

Fixpoint exec {A} (p : proc W A) (w : W) : result A * W :=
  match p with
  | Done r => (r, w)
  | Act f k => let '(b, w') := f w in exec (k b) w'
  end.

Lemma exec_bindp {A B} (p : proc W A) (k : A -> proc W B) w :
  exec (bindp p k) w =
    match exec p w with
    | (Ok a, w') => exec (k a) w'
    | (Err e, w') => (Err e, w')
    end.
Proof.
  revert w. induction p as [[a|e]|C f g IH]; intros w; simpl; [done..|].
  destruct (f w) as [b w']. apply IH.
Qed.

Lemma exec_tryp {A} (p : proc W A) w : exec (tryp p) w = let '(r, w') := exec p w in (Ok r, w').
Proof.
  revert w. induction p as [r|C f g IH]; intros w; simpl; [done|]. destruct (f w) as [b w']. apply IH.
Qed.

Lemma exec_request {A} (f : W -> result A * W) w : exec (request f) w = f w.
Proof. simpl. by destruct (f w). Qed.

Lemma exec_atomic {A} (f : W -> A * W) w : exec (atomic f) w = let '(a, w') := f w in (Ok a, w').
Proof. done. Qed.

(** ** Methods together *)

(** A goroutine: what is left of a call. *)
Inductive thread :=
  | Thread {A : Type} (p : proc W A).

(** One goroutine takes its next action, or a client starts a call. *)
Inductive interleaves (starts : thread -> Prop) : list thread * W -> list thread * W -> Prop :=
  | interleaves_act ts i A B (f : W -> B * W) (k : B -> proc W A) w b w' :
      ts !! i = Some (Thread (Act f k)) -> f w = (b, w') ->
      interleaves starts (ts, w) (<[i := Thread (k b)]> ts, w')
  | interleaves_start ts t w : starts t -> interleaves starts (ts, w) (ts ++ [t], w).

(** A schedule to evaluate: which goroutine takes each action. *)
Fixpoint schedule (order : list nat) (ts : list thread) (w : W) : list thread * W :=
  match order with
  | [] => (ts, w)
  | i :: order =>
      match ts !! i with
      | Some (Thread (Act f k)) => let '(b, w') := f w in schedule order (<[i := Thread (k b)]> ts) w'
      | _ => schedule order ts w
      end
  end.

Lemma schedule_interleaves starts order ts w :
  rtc (interleaves starts) (ts, w) (schedule order ts w).
Proof.
  revert ts w. induction order as [|i order IH]; intros ts w; simpl; [reflexivity|].
  destruct (ts !! i) as [[A [r|B f k]]|] eqn:E; [apply IH| |apply IH].
  destruct (f w) as [b w'] eqn:Ef. eapply rtc_l; [by eapply interleaves_act|apply IH].
Qed.

Lemma interleaves_starts (starts : thread -> Prop) ts0 ts w :
  Forall starts ts -> rtc (interleaves starts) (ts0, w) (ts0 ++ ts, w).
Proof.
  intros Hts. revert ts0. induction Hts as [|t ts Ht _ IH]; intros ts0; [by rewrite app_nil_r|].
  eapply rtc_l; [by apply interleaves_start|]. rewrite (app_assoc ts0 [t] ts : ts0 ++ t :: ts = _). apply IH.
Qed.

(** ** Invariants under interleaving

    [safe p Q w0]: from any world that meets [Inv] and that others have moved
    on from [w0] by [ext], every action of [p] keeps [Inv], moves the world by
    [ext], and [Q] holds of the answer.  What a goroutine has learnt from the
    world must therefore be of a kind that [ext] keeps. *)
Section safety.
Context (Inv : W -> Prop) (ext : relation W) `{!PreOrder ext}.

Fixpoint safe {A} (p : proc W A) (Q : result A -> W -> Prop) (w0 : W) : Prop :=
  match p with
  | Done r => Q r w0
  | Act f k =>
      forall w, ext w0 w -> Inv w -> let '(b, w') := f w in Inv w' /\ ext w w' /\ safe (k b) Q w'
  end.

Lemma safe_mono {A} (p : proc W A) (Q Q' : result A -> W -> Prop) w0 :
  safe p Q w0 -> (forall r w, Q r w -> Q' r w) -> safe p Q' w0.
Proof.
  intros Hp HQ. revert w0 Hp. induction p as [r|B f k IH]; intros w0 Hp; simpl in *; [auto|].
  intros w Hw Hi. specialize (Hp w Hw Hi). destruct (f w) as [b w']. naive_solver.
Qed.

(** The end of a method comes after its start. *)
Lemma safe_after {A} (p : proc W A) (Q : result A -> W -> Prop) w0 :
  safe p Q w0 -> safe p (fun r w => ext w0 w /\ Q r w) w0.
Proof.
  revert w0. induction p as [r|B f k IH]; intros w0 Hp; simpl in *; [done|].
  intros w Hw Hi. specialize (Hp w Hw Hi). destruct (f w) as [b w']. destruct Hp as (Hi' & Hw' & Hk).
  split_and!; [done..|]. eapply safe_mono; [apply IH, Hk|]. intros r w1 [H1 HQ]. split; [|done].
  by do 2 (etrans; [done|]).
Qed.

Lemma safe_bindp_plain {A B} (p : proc W A) (k : A -> proc W B) (Q : result A -> W -> Prop) Q' w0 :
  safe p Q w0 ->
  (forall a w, Q (Ok a) w -> safe (k a) Q' w) -> (forall e w, Q (Err e) w -> Q' (Err e) w) ->
  safe (bindp p k) Q' w0.
Proof.
  intros Hp Hk He. revert w0 Hp. induction p as [[a|e]|C f g IH]; intros w0 Hp; simpl in *; [auto..|].
  intros w Hw Hi. specialize (Hp w Hw Hi). destruct (f w) as [b w']. naive_solver.
Qed.

Lemma safe_bindp {A B} (p : proc W A) (k : A -> proc W B) (Q : result A -> W -> Prop) Q' w0 :
  safe p Q w0 ->
  (forall a w, ext w0 w -> Q (Ok a) w -> safe (k a) Q' w) ->
  (forall e w, ext w0 w -> Q (Err e) w -> Q' (Err e) w) ->
  safe (bindp p k) Q' w0.
Proof.
  intros Hp%safe_after Hk He. apply (safe_bindp_plain _ _ _ _ _ Hp); naive_solver.
Qed.

Lemma safe_tryp {A} (p : proc W A) (Q : result (result A) -> W -> Prop) w0 :
  safe p (fun r => Q (Ok r)) w0 -> safe (tryp p) Q w0.
Proof.
  revert w0. induction p as [r|C f g IH]; intros w0 Hp; simpl in *; [done|].
  intros w Hw Hi. specialize (Hp w Hw Hi). destruct (f w) as [b w']. naive_solver.
Qed.

Lemma safe_forp {A} (l : list A) (body : A -> proc W unit) w0 :
  (forall a w, a ∈ l -> ext w0 w -> safe (body a) (fun _ _ => True) w) ->
  safe (forp l body) (fun _ _ => True) w0.
Proof.
  revert w0. induction l as [|a l IH]; intros w0 Hbody; simpl; [done|].
  eapply safe_bindp; [apply Hbody; [left|done]| |done].
  intros [] w Hw _. apply IH. intros a' w' Ha' Hw'. apply Hbody; [by right|by etrans].
Qed.

(** Moving the starting point on keeps a method safe. *)
Lemma safe_ext {A} (p : proc W A) (Q : result A -> W -> Prop) w0 w1 :
  (forall r, Proper (ext ==> impl) (Q r)) -> ext w0 w1 -> safe p Q w0 -> safe p Q w1.
Proof.
  intros HQ Hw. destruct p as [r|B f k]; simpl; [by apply HQ|].
  intros Hp w Hw1 Hi. apply Hp; [by etrans|done].
Qed.

(** A safe method run alone. *)
Lemma safe_exec {A} (p : proc W A) (Q : result A -> W -> Prop) w r w' :
  safe p Q w -> Inv w -> exec p w = (r, w') -> Inv w' /\ ext w w' /\ Q r w'.
Proof.
  revert w. induction p as [r0|B f k IH]; simpl; intros w Hp Hi E.
  - by injection E as <- <-.
  - specialize (Hp w ltac:(done) Hi). destruct (f w) as [b w1]. destruct Hp as (Hi1 & Hw1 & Hk).
    apply IH in E as (? & ? & ?); [|done..]. split_and!; [done|by etrans|done].
Qed.

Definition thread_safe (w : W) (t : thread) : Prop :=
  match t with Thread p => safe p (fun _ _ => True) w end.

(** Whatever the order of actions, the invariant holds at every moment. *)
Lemma interleaves_Inv starts ts w ts' w' :
  (forall t w, starts t -> thread_safe w t) ->
  Forall (thread_safe w) ts -> Inv w ->
  rtc (interleaves starts) (ts, w) (ts', w') ->
  Inv w' /\ Forall (thread_safe w') ts'.
Proof.
  intros Hs Hts Hi Hsteps. remember (ts, w) as x eqn:Ex. remember (ts', w') as y eqn:Ey.
  revert ts w ts' w' Ex Ey Hts Hi.
  induction Hsteps as [|x y z Hstep _ IH]; intros ts w ts' w' -> Ey Hts Hi; [by injection Ey as <- <-|].
  inversion Hstep as [ts0 i A B f k w0 b w1 Hl Ef|ts0 t w0 Ht]; subst.
  - pose proof (Forall_lookup_1 _ _ _ _ Hts Hl w ltac:(reflexivity) Hi) as Hp. simpl in Hp. rewrite Ef in Hp.
    destruct Hp as (Hi1 & Hw1 & Hk). eapply IH; [done..| |done].
    apply Forall_insert; [|done].
    eapply Forall_impl; [exact Hts|]. intros [C p]. apply safe_ext; [by intros r w2 w3|done].
  - eapply IH; [done..| |done]. apply Forall_app_2; [done|]. constructor; [by apply Hs|constructor].
Qed.
End safety.
End methods.
Arguments thread : clear implicits.
Arguments Thread {W A} p.

Declare Scope proc_scope.
Delimit Scope proc_scope with proc.
Notation "'let*' x := p 'in' q" := (bindp p (fun x => q))
  (at level 10, x pattern, p at level 100, q at level 200) : proc_scope.

(** Takes an execution apart along its binds. *)
Ltac exec_simpl := repeat (rewrite exec_bindp || rewrite exec_tryp || rewrite exec_request || rewrite exec_atomic).
