(* ===== verification/MemUsers.v ===== *)
(** * Users and API keys in memory: internal/storage/memory/store.go

    The part of the store that keeps users and API keys.  The backend keeps the
    caller's [*UserRecord] and [*APIKeyRecord] and hands the same pointers out
    again, so the records live in heaps and the maps hold addresses: whoever
    has asked for a record shares it with the store.  The struct's fields for
    schemas (MemState) and these have nothing but the lock in common. *)
From S2P Require Import Prelude StorageTypes.
From Stdlib Require Import String.

Local Open Scope Z_scope.

(** ** Data: internal/storage/storage.go *)

Record UserRecord := MkUserRecord {
  UID : Z;
  UUsername : string;
  Email : string;
  PasswordHash : string;
  URole : string;
  UEnabled : bool;
  UCreatedAt : Z;
  UUpdatedAt : Z
}.

Record APIKeyRecord := MkAPIKeyRecord {
  KID : Z;
  KUserID : Z;
  KeyHash : string;
  KeyPrefix : string;
  KName : string;
  KRole : string;
  KEnabled : bool;
  KCreatedAt : Z;
  ExpiresAt : Z;
  LastUsed : option Z
}.

Definition no_user : UserRecord := MkUserRecord 0 "" "" "" "" false 0 0.
Definition no_key : APIKeyRecord := MkAPIKeyRecord 0 0 "" "" "" "" false 0 0 None.

(** Addresses of records. *)
Definition ptr : Type := nat.

Record AuthStore := MkAuthStore {
  userHeap : list UserRecord;
  keyHeap : list APIKeyRecord;
  users : gmap Z ptr;
  usersByUsername : gmap string Z;
  nextUserID : Z;
  apiKeys : gmap Z ptr;
  apiKeysByHash : gmap string Z;
  nextAPIKeyID : Z
}.

(** [NewStore]. *)
Definition NewAuthStore : AuthStore := MkAuthStore [] [] ∅ ∅ 1 ∅ ∅ 1.

(** Reading through a pointer. *)
Definition user_at (s : AuthStore) (p : ptr) : UserRecord := from_opt no_user (userHeap s !! p).
Definition key_at (s : AuthStore) (p : ptr) : APIKeyRecord := from_opt no_key (keyHeap s !! p).

(** Writing through a pointer. *)
Definition put_user (p : ptr) (u : UserRecord) (s : AuthStore) : AuthStore :=
  {| s with userHeap := <[p := u]> (userHeap s) |}.
Definition put_key (p : ptr) (k : APIKeyRecord) (s : AuthStore) : AuthStore :=
  {| s with keyHeap := <[p := k]> (keyHeap s) |}.

(** ** Users *)

(** [user] is the caller's new struct; the pointer to it is part of the answer.
    [t] is the clock. *)
Definition CreateUser (t : Z) (user : UserRecord) (s : AuthStore) : result ptr * AuthStore :=
  match usersByUsername s !! UUsername user with
  | Some _ => (fail ErrUserExists, s)
  | None =>
      let fresh_id := bool_decide (UID user = 0) in
      let id := if fresh_id then nextUserID s else UID user in
      let p := List.length (userHeap s) in
      (Ok p,
       {| s with
          userHeap := userHeap s ++ [{| user with UID := id; UCreatedAt := t; UUpdatedAt := t |}];
          users := <[id := p]> (users s);
          usersByUsername := <[UUsername user := id]> (usersByUsername s);
          nextUserID := if fresh_id then incr64 (nextUserID s) else nextUserID s |})
  end.

Definition GetUserByID (id : Z) (s : AuthStore) : result ptr :=
  match users s !! id with
  | Some p => Ok p
  | None => fail ErrUserNotFound
  end.

Definition GetUserByUsername (username : string) (s : AuthStore) : result ptr :=
  match usersByUsername s !! username with
  | None => fail ErrUserNotFound
  | Some id =>
      match users s !! id with
      | None => fail ErrUserNotFound
      | Some p => Ok p
      end
  end.

Definition UpdateUser (t : Z) (user : ptr) (s : AuthStore) : result unit * AuthStore :=
  let u := user_at s user in
  match users s !! UID u with
  | None => (fail ErrUserNotFound, s)
  | Some p =>
      let existing := user_at s p in
      let stored s :=
        (Ok tt, put_user user {| u with UUpdatedAt := t |} {| s with users := <[UID u := user]> (users s) |}) in
      if decide (UUsername existing = UUsername u) then stored s
      else
        match usersByUsername s !! UUsername u with
        | Some _ => (fail ErrUserExists, s)
        | None =>
            stored {| s with
              usersByUsername := <[UUsername u := UID u]> (delete (UUsername existing) (usersByUsername s)) |}
        end
  end.

Definition DeleteUser (id : Z) (s : AuthStore) : result unit * AuthStore :=
  match users s !! id with
  | None => (fail ErrUserNotFound, s)
  | Some p =>
      (Ok tt,
       {| s with
          usersByUsername := delete (UUsername (user_at s p)) (usersByUsername s);
          users := delete id (users s) |})
  end.

Definition user_before (s : AuthStore) (p q : ptr) : Prop := UID (user_at s p) <= UID (user_at s q).

#[export] Instance user_before_dec s : RelDecision (user_before s).
Proof. intros p q. unfold user_before. apply _. Defined.

Definition ListUsers (e : env) (s : AuthStore) : list ptr :=
  merge_sort (user_before s) (map snd (range e (users s))).

(** ** API keys *)

Definition CreateAPIKey (t : Z) (key : APIKeyRecord) (s : AuthStore) : result ptr * AuthStore :=
  match apiKeysByHash s !! KeyHash key with
  | Some _ => (fail ErrAPIKeyExists, s)
  | None =>
      let fresh_id := bool_decide (KID key = 0) in
      let id := if fresh_id then nextAPIKeyID s else KID key in
      let p := List.length (keyHeap s) in
      (Ok p,
       {| s with
          keyHeap := keyHeap s ++ [{| key with KID := id; KCreatedAt := t |}];
          apiKeys := <[id := p]> (apiKeys s);
          apiKeysByHash := <[KeyHash key := id]> (apiKeysByHash s);
          nextAPIKeyID := if fresh_id then incr64 (nextAPIKeyID s) else nextAPIKeyID s |})
  end.

Definition GetAPIKeyByID (id : Z) (s : AuthStore) : result ptr :=
  match apiKeys s !! id with
  | Some p => Ok p
  | None => fail ErrAPIKeyNotFound
  end.

Definition GetAPIKeyByHash (keyHash : string) (s : AuthStore) : result ptr :=
  match apiKeysByHash s !! keyHash with
  | None => fail ErrAPIKeyNotFound
  | Some id =>
      match apiKeys s !! id with
      | None => fail ErrAPIKeyNotFound
      | Some p => Ok p
      end
  end.

Definition UpdateAPIKey (key : ptr) (s : AuthStore) : result unit * AuthStore :=
  let k := key_at s key in
  match apiKeys s !! KID k with
  | None => (fail ErrAPIKeyNotFound, s)
  | Some p =>
      let existing := key_at s p in
      let stored s := (Ok tt, {| s with apiKeys := <[KID k := key]> (apiKeys s) |}) in
      if decide (KeyHash existing = KeyHash k) then stored s
      else
        match apiKeysByHash s !! KeyHash k with
        | Some _ => (fail ErrAPIKeyExists, s)
        | None =>
            stored {| s with
              apiKeysByHash := <[KeyHash k := KID k]> (delete (KeyHash existing) (apiKeysByHash s)) |}
        end
  end.

Definition DeleteAPIKey (id : Z) (s : AuthStore) : result unit * AuthStore :=
  match apiKeys s !! id with
  | None => (fail ErrAPIKeyNotFound, s)
  | Some p =>
      (Ok tt,
       {| s with
          apiKeysByHash := delete (KeyHash (key_at s p)) (apiKeysByHash s);
          apiKeys := delete id (apiKeys s) |})
  end.

Definition key_before (s : AuthStore) (p q : ptr) : Prop := KID (key_at s p) <= KID (key_at s q).

#[export] Instance key_before_dec s : RelDecision (key_before s).
Proof. intros p q. unfold key_before. apply _. Defined.

Definition ListAPIKeys (e : env) (s : AuthStore) : list ptr :=
  merge_sort (key_before s) (map snd (range e (apiKeys s))).

Definition ListAPIKeysByUserID (e : env) (userID : Z) (s : AuthStore) : list ptr :=
  merge_sort (key_before s)
    (List.filter (fun p => bool_decide (KUserID (key_at s p) = userID)) (map snd (range e (apiKeys s)))).

Definition GetAPIKeyByUserAndName (e : env) (userID : Z) (name : string) (s : AuthStore) : result ptr :=
  match List.find (fun '(_, p) => bool_decide (KUserID (key_at s p) = userID /\ KName (key_at s p) = name))
          (range e (apiKeys s)) with
  | Some (_, p) => Ok p
  | None => fail ErrAPIKeyNotFound
  end.

Definition UpdateAPIKeyLastUsed (t : Z) (id : Z) (s : AuthStore) : result unit * AuthStore :=
  match apiKeys s !! id with
  | None => (fail ErrAPIKeyNotFound, s)
  | Some p => (Ok tt, put_key p {| (key_at s p) with LastUsed := Some t |} s)
  end.
