(* ===== verification/AuthService.v ===== *)
(** * The authentication service: internal/auth/service.go

    Users, passwords and API keys over the in-memory store, with the two caches
    of validated credentials.  Every method is a procedure of atomic actions
    (Procs); [e] is the environment of one call, [now e i] its [i]-th reading of
    the clock in the order of the code.  Metrics calls are left out. *)
From S2P Require Import Prelude GoStrings GoHex StorageTypes Procs MemUsers Rbac.
From Stdlib Require Import String.

Local Open Scope proc_scope.
Local Open Scope Z_scope.
Local Open Scope string_scope.

(** ** What the service relies on *)

(** [bcryptGenerate salt password] is [bcrypt.GenerateFromPassword] with the
    random salt it drew; [bcryptCompare hash password] is a nil answer of
    [CompareHashAndPassword]; the hashes are those of crypto/sha256 and
    crypto/hmac; [formatTime] is [Format] with the layout of the code. *)
Record Crypto := MkCrypto {
  bcryptGenerate : string -> string -> result string;
  bcryptCompare : string -> string -> bool;
  sha256 : string -> string;
  hmac_sha256 : string -> string -> string;
  formatTime : Z -> string
}.

(** ** State *)

(** The fields of [Service] that a call does not change. *)
Record Service := MkService {
  apiSecret : string;
  keyPrefix : string;
  userCacheTTL : Z;
  cacheRefreshInterval : Z
}.

Record ServiceConfig := MkServiceConfig {
  APIKeySecret : string;
  APIKeyPrefix : string;
  CacheRefreshInterval : Z;
  UserCacheTTL : Z
}.

(** The store behind [s.storage], the two [sync.Map]s, and the goroutines that
    [ValidateAPIKey] has left behind: each is about to record the use of a key.
    A [userCacheEntry] is never written after it is made: a pair. *)
Record World := MkWorld {
  authStore : AuthStore;
  apiKeyCache : gmap string ptr;
  userCredCache : gmap string (ptr * Z);
  pending : list Z
}.

Definition NewWorld : World := MkWorld NewAuthStore ∅ ∅ [].

(** ** Atomic actions *)

Definition on_store {A} (f : AuthStore -> A * AuthStore) (w : World) : A * World :=
  let '(a, s) := f (authStore w) in (a, {| w with authStore := s |}).
Definition ask_store {A} (f : AuthStore -> A) (w : World) : A * World := (f (authStore w), w).

Definition load_user (p : ptr) : proc World UserRecord := atomic (ask_store (fun s => user_at s p)).
Definition load_key (p : ptr) : proc World APIKeyRecord := atomic (ask_store (fun s => key_at s p)).

Definition set_user (p : ptr) (f : UserRecord -> UserRecord) : proc World unit :=
  atomic (on_store (fun s => (tt, put_user p (f (user_at s p)) s))).
Definition set_key (p : ptr) (f : APIKeyRecord -> APIKeyRecord) : proc World unit :=
  atomic (on_store (fun s => (tt, put_key p (f (key_at s p)) s))).

Definition key_cache_load (hash : string) : proc World (option ptr) :=
  atomic (fun w => (apiKeyCache w !! hash, w)).
Definition key_cache_store (hash : string) (p : ptr) : proc World unit :=
  atomic (fun w => (tt, {| w with apiKeyCache := <[hash := p]> (apiKeyCache w) |})).
Definition key_cache_delete (hash : string) : proc World unit :=
  atomic (fun w => (tt, {| w with apiKeyCache := delete hash (apiKeyCache w) |})).
Definition key_cache_range (e : env) : proc World (list (string * ptr)) :=
  atomic (fun w => (range e (apiKeyCache w), w)).

Definition cred_cache_load (k : string) : proc World (option (ptr * Z)) :=
  atomic (fun w => (userCredCache w !! k, w)).
Definition cred_cache_store (k : string) (entry : ptr * Z) : proc World unit :=
  atomic (fun w => (tt, {| w with userCredCache := <[k := entry]> (userCredCache w) |})).
Definition cred_cache_delete (k : string) : proc World unit :=
  atomic (fun w => (tt, {| w with userCredCache := delete k (userCredCache w) |})).
Definition cred_cache_range (e : env) : proc World (list (string * (ptr * Z))) :=
  atomic (fun w => (range e (userCredCache w), w)).

(** [go func() { ... UpdateAPIKeyLastUsed(ctx, id) }()]. *)
Definition spawn_last_used (id : Z) : proc World unit :=
  atomic (fun w => (tt, {| w with pending := pending w ++ [id] |})).

(** Such a goroutine: the [i]-th of them makes its storage call. *)
Definition last_used_goroutine (t : Z) (i : nat) : proc World unit :=
  let* r := tryp (request (fun w =>
    match pending w !! i with
    | Some id => on_store (UpdateAPIKeyLastUsed t id) {| w with pending := delete i (pending w) |}
    | None => (Ok tt, w)
    end)) in
  retp tt.

(** ** Requests and updates *)

Record CreateUserRequest := MkCreateUserRequest {
  ReqUsername : string; ReqEmail : string; ReqPassword : string; ReqRole : string; ReqEnabled : bool
}.

Record CreateAPIKeyRequest := MkCreateAPIKeyRequest {
  ReqUserID : Z; ReqName : string; ReqKeyRole : string; ReqExpiresAt : Z
}.

Record CreateAPIKeyResponse := MkCreateAPIKeyResponse {
  RespID : Z; RespKey : string; RespKeyPrefix : string; RespName : string; RespRole : string;
  RespUserID : Z; RespEnabled : bool; RespCreatedAt : Z; RespExpiresAt : Z
}.

Record BootstrapResult := MkBootstrapResult { Created : bool; BootUsername : string; Message : string }.

(** An [interface{}] value of an update: the types the code asks about. *)
Inductive UpdateValue :=
  | UString (s : string)
  | UBool (b : bool)
  | UTime (t : Z)
  | UOther.

Definition invalid_role (role : string) : error := Errorf_w "" (sentinel_err ErrInvalidRole) (": " ++ role).
Definition expiry_in_past : error := errors_New "expiry time must be in the future".

Section service.
Context (c : Crypto) (sv : Service).

Definition hash_password {A} (salt password : string) (k : string -> proc World A) : proc World A :=
  match bcryptGenerate c salt password with
  | Ok hash => k hash
  | Err err => throw (Errorf_w "failed to hash password: " err "")
  end.

(** ** Users *)

Definition CreateUser (e : env) (salt : string) (req : CreateUserRequest) : proc World ptr :=
  if negb (ValidRole (ReqRole req)) then throw (invalid_role (ReqRole req))
  else
    hash_password salt (ReqPassword req) (fun hash =>
      let now0 := now e 0 in
      request (on_store (MemUsers.CreateUser (now e 1)
        (MkUserRecord 0 (ReqUsername req) (ReqEmail req) hash (ReqRole req) (ReqEnabled req) now0 now0)))).

Definition GetUserByID (id : Z) : proc World ptr := request (ask_store (MemUsers.GetUserByID id)).
Definition GetUserByUsername (username : string) : proc World ptr :=
  request (ask_store (MemUsers.GetUserByUsername username)).
Definition ListUsers (e : env) : proc World (list ptr) := atomic (ask_store (MemUsers.ListUsers e)).

(** [userCredCacheKey]. *)
Definition userCredCacheKey (username password : string) : string :=
  EncodeToString (sha256 c (username ++ ":" ++ password)).

Definition invalidateUserCredCache (e : env) (username : string) : proc World unit :=
  let* entries := cred_cache_range e in
  forp entries (fun '(k, (p, _)) =>
    let* u := load_user p in
    if decide (UUsername u = username) then cred_cache_delete k else retp tt).

Definition invalidateUserCredCacheByID (e : env) (userID : Z) : proc World unit :=
  let* entries := cred_cache_range e in
  forp entries (fun '(k, (p, _)) =>
    let* u := load_user p in
    if decide (UID u = userID) then cred_cache_delete k else retp tt).

(** One turn of the loop over [updates]: [user] is the pointer the store gave. *)
Definition applyUserUpdate (salt : string) (user : ptr) '((key, value) : string * UpdateValue) : proc World unit :=
  if decide (key = "email") then
    match value with
    | UString email => set_user user (fun u => {| u with Email := email |})
    | _ => retp tt
    end
  else if decide (key = "password") then
    match value with
    | UString password =>
        hash_password salt password (fun hash => set_user user (fun u => {| u with PasswordHash := hash |}))
    | _ => retp tt
    end
  else if decide (key = "role") then
    match value with
    | UString role =>
        if negb (ValidRole role) then throw (invalid_role role)
        else set_user user (fun u => {| u with URole := role |})
    | _ => retp tt
    end
  else if decide (key = "enabled") then
    match value with
    | UBool enabled => set_user user (fun u => {| u with UEnabled := enabled |})
    | _ => retp tt
    end
  else retp tt.

Definition UpdateUser (e : env) (salt : string) (id : Z) (updates : gmap string UpdateValue) : proc World ptr :=
  let* user := GetUserByID id in
  let* _ := forp (range e updates) (applyUserUpdate salt user) in
  let* _ := set_user user (fun u => {| u with UUpdatedAt := now e 0 |}) in
  let* _ := request (on_store (MemUsers.UpdateUser (now e 1) user)) in
  let* _ := invalidateUserCredCacheByID e id in
  retp user.

Definition DeleteUser (e : env) (id : Z) : proc World unit :=
  let* _ := invalidateUserCredCacheByID e id in
  request (on_store (MemUsers.DeleteUser id)).

Definition ChangePassword (e : env) (salt : string) (id : Z) (oldPassword newPassword : string) : proc World unit :=
  let* user := GetUserByID id in
  let* u := load_user user in
  if negb (bcryptCompare c (PasswordHash u) oldPassword) then throw (sentinel_err ErrPermissionDenied)
  else
    hash_password salt newPassword (fun hash =>
      let* _ := set_user user (fun u => {| u with PasswordHash := hash |}) in
      let* _ := set_user user (fun u => {| u with UUpdatedAt := now e 0 |}) in
      let* _ := request (on_store (MemUsers.UpdateUser (now e 1) user)) in
      invalidateUserCredCacheByID e id).

(** The part of [ValidateCredentials] that asks the cache: a user, or nothing. *)
Definition cachedCredentials (e : env) (cacheKey : string) : proc World (option ptr) :=
  let* cached := cred_cache_load cacheKey in
  match cached with
  | Some (user, verifiedAt) =>
      if bool_decide (now e 0 - verifiedAt < userCacheTTL sv)%Z then
        let* u := load_user user in
        if UEnabled u then retp (Some user)
        else let* _ := cred_cache_delete cacheKey in throw (sentinel_err ErrUserDisabled)
      else let* _ := cred_cache_delete cacheKey in retp None
  | None => retp None
  end.

Definition ValidateCredentials (e : env) (username password : string) : proc World ptr :=
  let cacheKey := userCredCacheKey username password in
  let* cached := cachedCredentials e cacheKey in
  match cached with
  | Some user => retp user
  | None =>
      let* r := tryp (GetUserByUsername username) in
      match r with
      | Err _ => throw (sentinel_err ErrUserNotFound)
      | Ok user =>
          let* u := load_user user in
          if negb (UEnabled u) then throw (sentinel_err ErrUserDisabled)
          else
            let* u := load_user user in
            if negb (bcryptCompare c (PasswordHash u) password) then throw (sentinel_err ErrUserNotFound)
            else
              let* _ := cred_cache_store cacheKey (user, now e 1) in
              retp user
      end
  end.

(** [len(users)] of what [ListUsers] answers decides; the in-memory [ListUsers]
    has no error. *)
Definition BootstrapAdmin (e e' : env) (salt username password email : string) : proc World BootstrapResult :=
  let* users := ListUsers e in
  match users with
  | _ :: _ =>
      retp (MkBootstrapResult false ""
        ("bootstrap skipped: " ++ Itoa (Z.of_nat (List.length users)) ++ " user(s) already exist"))
  | [] =>
      if decide (username = "") then throw (errors_New "bootstrap username is required")
      else if decide (password = "") then throw (errors_New "bootstrap password is required")
      else
        let* r := tryp (CreateUser e' salt (MkCreateUserRequest username email password "super_admin" true)) in
        match r with
        | Err err => throw (Errorf_w "failed to create bootstrap admin: " err "")
        | Ok user =>
            let* u := load_user user in
            retp (MkBootstrapResult true (UUsername u)
              ("bootstrap admin user '" ++ UUsername u ++ "' created successfully"))
        end
  end.

(** ** API keys *)

Definition hashAPIKey (rawKey : string) : string :=
  if decide (apiSecret sv = "") then EncodeToString (sha256 c rawKey)
  else EncodeToString (hmac_sha256 c (apiSecret sv) rawKey).

Definition caching : bool := bool_decide (0 < cacheRefreshInterval sv)%Z.

(** [keyBytes] is what [rand.Read] filled the buffer with, or its error. *)
Definition CreateAPIKey (e : env) (keyBytes : result string) (req : CreateAPIKeyRequest)
    : proc World CreateAPIKeyResponse :=
  if negb (ValidRole (ReqKeyRole req)) then throw (invalid_role (ReqKeyRole req))
  else if decide (ReqName req = "") then throw (errors_New "API key name is required")
  else if decide (ReqUserID req <= 0)%Z then throw (errors_New "user ID is required")
  else
    let now0 := now e 0 in
    if decide (ReqExpiresAt req < now0)%Z then throw expiry_in_past
    else
      let* existing := tryp (request (ask_store (GetAPIKeyByUserAndName e (ReqUserID req) (ReqName req)))) in
      match existing with
      | Ok _ => throw (sentinel_err ErrAPIKeyNameExists)
      | Err _ =>
          match keyBytes with
          | Err err => throw (Errorf_w "failed to generate API key: " err "")
          | Ok keyBytes =>
              let rawKeyHex := EncodeToString keyBytes in
              let rawKey := if decide (keyPrefix sv = "") then rawKeyHex else keyPrefix sv ++ rawKeyHex in
              let keyPrefixDisplay := take_str 8 rawKeyHex in
              let keyHashStr := hashAPIKey rawKey in
              let* record := request (on_store (MemUsers.CreateAPIKey (now e 1)
                (MkAPIKeyRecord 0 (ReqUserID req) keyHashStr keyPrefixDisplay (ReqName req) (ReqKeyRole req)
                   true now0 (ReqExpiresAt req) None))) in
              let* _ := if caching then key_cache_store keyHashStr record else retp tt in
              let* k := load_key record in
              retp (MkCreateAPIKeyResponse (KID k) rawKey keyPrefixDisplay (ReqName req) (ReqKeyRole req)
                      (ReqUserID req) true now0 (ReqExpiresAt req))
          end
      end.

(** The record of a hash, from the cache or else from the store. *)
Definition lookupAPIKey (keyHashStr : string) : proc World ptr :=
  let* cached := if caching then key_cache_load keyHashStr else retp None in
  match cached with
  | Some record => retp record
  | None =>
      let* r := tryp (request (ask_store (GetAPIKeyByHash keyHashStr))) in
      match r with
      | Err _ => throw (sentinel_err ErrAPIKeyNotFound)
      | Ok record =>
          let* _ := if caching then key_cache_store keyHashStr record else retp tt in
          retp record
      end
  end.

Definition ValidateAPIKey (e : env) (rawKey : string) : proc World ptr :=
  let* record := lookupAPIKey (hashAPIKey rawKey) in
  let* k := load_key record in
  if negb (KEnabled k) then throw (sentinel_err ErrAPIKeyDisabled)
  else
    let* k := load_key record in
    if decide (ExpiresAt k < now e 0)%Z then throw (sentinel_err ErrAPIKeyExpired)
    else
      let* k := load_key record in
      let* _ := spawn_last_used (KID k) in
      retp record.

Definition GetAPIKeyByID (id : Z) : proc World ptr := request (ask_store (MemUsers.GetAPIKeyByID id)).
Definition ListAPIKeys (e : env) : proc World (list ptr) := atomic (ask_store (MemUsers.ListAPIKeys e)).
Definition ListAPIKeysByUserID (e : env) (userID : Z) : proc World (list ptr) :=
  atomic (ask_store (MemUsers.ListAPIKeysByUserID e userID)).

(** Stops at the first cached key with the ID. *)
Fixpoint dropCachedKey (id : Z) (entries : list (string * ptr)) : proc World unit :=
  match entries with
  | [] => retp tt
  | (hash, p) :: entries =>
      let* k := load_key p in
      if decide (KID k = id) then key_cache_delete hash else dropCachedKey id entries
  end.

Definition invalidateAPIKeyCache (e : env) (id : Z) : proc World unit :=
  let* entries := key_cache_range e in
  dropCachedKey id entries.

(** One turn of the loop over [updates]. *)
Definition applyKeyUpdate (e : env) (record : ptr) '((key, value) : string * UpdateValue) : proc World unit :=
  if decide (key = "name") then
    match value with
    | UString name =>
        let* k := load_key record in
        let* _ :=
          if decide (name = KName k) then retp tt
          else
            let* existing := tryp (request (ask_store (GetAPIKeyByUserAndName e (KUserID k) name))) in
            match existing with
            | Ok other =>
                let* o := load_key other in
                let* k := load_key record in
                if decide (KID o = KID k) then retp tt else throw (sentinel_err ErrAPIKeyNameExists)
            | Err _ => retp tt
            end in
        set_key record (fun k => {| k with KName := name |})
    | _ => retp tt
    end
  else if decide (key = "role") then
    match value with
    | UString role =>
        if negb (ValidRole role) then throw (invalid_role role)
        else set_key record (fun k => {| k with KRole := role |})
    | _ => retp tt
    end
  else if decide (key = "enabled") then
    match value with
    | UBool enabled => set_key record (fun k => {| k with KEnabled := enabled |})
    | _ => retp tt
    end
  else if decide (key = "expires_at") then
    match value with
    | UTime expiresAt =>
        if decide (expiresAt < now e 0)%Z then throw expiry_in_past
        else set_key record (fun k => {| k with ExpiresAt := expiresAt |})
    | _ => retp tt
    end
  else retp tt.

Definition UpdateAPIKey (e : env) (id : Z) (updates : gmap string UpdateValue) : proc World ptr :=
  let* record := GetAPIKeyByID id in
  let* _ := forp (range e updates) (applyKeyUpdate e record) in
  let* _ := request (on_store (MemUsers.UpdateAPIKey record)) in
  let* _ := invalidateAPIKeyCache e id in
  retp record.

Definition DeleteAPIKey (e : env) (id : Z) : proc World unit :=
  let* _ := invalidateAPIKeyCache e id in
  request (on_store (MemUsers.DeleteAPIKey id)).

Definition RevokeAPIKey (e : env) (id : Z) : proc World unit :=
  let* record := GetAPIKeyByID id in
  let* _ := set_key record (fun k => {| k with KEnabled := false |}) in
  let* _ := request (on_store (MemUsers.UpdateAPIKey record)) in
  invalidateAPIKeyCache e id.

(** [e] is the environment of the method itself, [e1] and [e2] those of the two
    methods it calls. *)
Definition RotateAPIKey (e e1 e2 : env) (keyBytes : result string) (id newExpiresAt : Z)
    : proc World CreateAPIKeyResponse :=
  let* oldKey := GetAPIKeyByID id in
  let now0 := now e 0 in
  let* k := load_key oldKey in
  let newName := KName k ++ " (rotated " ++ formatTime c now0 ++ ")" in
  if decide (newExpiresAt < now0)%Z then throw expiry_in_past
  else
    let* k := load_key oldKey in
    let* newKey := CreateAPIKey e1 keyBytes (MkCreateAPIKeyRequest (KUserID k) newName (KRole k) newExpiresAt) in
    let* _ := tryp (RevokeAPIKey e2 id) in
    retp newKey.

(** ** The key cache as a whole *)

(** [newKeys[key.KeyHash] = key] for every key of a list. *)
Fixpoint keysByHash (keys : list ptr) (newKeys : gmap string ptr) : proc World (gmap string ptr) :=
  match keys with
  | [] => retp newKeys
  | key :: keys => let* k := load_key key in keysByHash keys (<[KeyHash k := key]> newKeys)
  end.

Definition refreshAPIKeyCache (e : env) : proc World unit :=
  let* keys := ListAPIKeys e in
  let* newKeys := keysByHash keys ∅ in
  let* old := key_cache_range e in
  let* _ := forp old (fun '(hash, _) =>
    if decide (newKeys !! hash = None) then key_cache_delete hash else retp tt) in
  forp (range e newKeys) (fun '(hash, key) => key_cache_store hash key).
End service.

(** [NewServiceWithConfig]: the secret is hexadecimal or else taken as it is,
    and the cache starts full. *)
Definition serviceOf (cfg : ServiceConfig) : Service :=
  MkService
    (if decide (APIKeySecret cfg = "") then "" else from_opt (APIKeySecret cfg) (DecodeString (APIKeySecret cfg)))
    (APIKeyPrefix cfg) (UserCacheTTL cfg) (CacheRefreshInterval cfg).

Definition NewServiceWithConfig (e : env) (cfg : ServiceConfig) : proc World Service :=
  let s := serviceOf cfg in
  let* _ := if caching s then refreshAPIKeyCache e else retp tt in
  retp s.

(** Deprecated in the code: the hash without the secret. *)
Definition HashAPIKey (c : Crypto) (rawKey : string) : string := EncodeToString (sha256 c rawKey).
