(* ===== verification/AuthInvariant.v ===== *)
(** * The state of the authentication service, whatever the interleaving

    [world_ok]: the indexes of the store agree with its records, IDs are unique
    and below the next one, every role is one of the four, and a cache maps a
    hash only to a record with that hash.  Calls of the service run by any
    number of goroutines, action by action and in any order, keep it. *)
From S2P Require Import Prelude StorageTypes Procs MemUsers Rbac AuthService.
From stdpp Require Import relations.
From Stdlib Require Import String.

Local Open Scope Z_scope.

(** ** Tables

    Users and API keys are kept alike: records in a heap, found by ID, and an
    index from a unique string to the ID. *)

Definition valid_role (role : string) : Prop := ValidRole role = true.

(** What other goroutines leave alone: records stay where they are, with what
    [R] says of them. *)
Definition kept {A} (R : relation A) (l l' : list A) : Prop :=
  forall p a, l !! p = Some a -> exists a', l' !! p = Some a' /\ R a a'.

#[export] Instance kept_preorder {A} (R : relation A) `{!PreOrder R} : PreOrder (kept R).
Proof.
  split.
  - intros l p a Ha. by exists a.
  - intros l l' l'' H1 H2 p a (a' & Ha' & H)%H1. apply H2 in Ha' as (a'' & ? & ?).
    exists a''. split; [done|by etrans].
Qed.

Lemma kept_app {A} (R : relation A) `{!Reflexive R} l l' : kept R l (l ++ l').
Proof. intros p a Ha. exists a. split; [by apply lookup_app_l_Some|done]. Qed.

Lemma kept_insert {A} (R : relation A) `{!Reflexive R} l p (a : A) :
  (forall a0, l !! p = Some a0 -> R a0 a) -> kept R l (<[p := a]> l).
Proof.
  intros H q b Hb. destruct (decide (p = q)) as [<-|Hn].
  - exists a. split; [|auto]. apply list_lookup_insert_eq. by eapply lookup_lt_Some.
  - exists b. by rewrite list_lookup_insert_ne.
Qed.

Lemma kept_length {A} (R : relation A) l l' : kept R l l' -> (List.length l <= List.length l')%nat.
Proof.
  intros H. destruct (List.length l) as [|n] eqn:En; [lia|].
  destruct (lookup_lt_is_Some_2 l n ltac:(lia)) as [a Ha]. apply H in Ha as (a' & Ha' & _).
  by apply lookup_lt_Some in Ha'.
Qed.

Section table.
Context {R : Type} (rid : R -> Z) (rkey rrole : R -> string).
Implicit Types (heap : list R) (rows : gmap Z ptr) (index : gmap string Z) (next : Z).

(** Records never move: the record at address [p] has the ID [p + 1]. *)
Record table_ok heap rows index next : Prop := {
  ok_id : forall p r, heap !! p = Some r -> rid r = Z.of_nat p + 1 /\ valid_role (rrole r);
  ok_rows : forall id p, rows !! id = Some p ->
    exists r, heap !! p = Some r /\ rid r = id /\ index !! rkey r = Some id;
  ok_index : forall key id, index !! key = Some id ->
    exists p r, rows !! id = Some p /\ heap !! p = Some r /\ rkey r = key;
  ok_next : next = Z.of_nat (List.length heap) + 1
}.

Definition same_row (r r' : R) : Prop := rid r' = rid r /\ rkey r' = rkey r.

#[export] Instance same_row_preorder : PreOrder same_row.
Proof. split; [by intros r|]. unfold same_row. intros r r' r'' [] []. split; congruence. Qed.

Lemma row_id_inj heap rows index next p q r r' :
  table_ok heap rows index next -> heap !! p = Some r -> heap !! q = Some r' -> rid r = rid r' -> p = q.
Proof. intros Ht Hp%(ok_id _ _ _ _ Ht) Hq%(ok_id _ _ _ _ Ht) E. lia. Qed.

(** A row is the only one with its ID, and the index finds it. *)
Lemma row_found heap rows index next p q r :
  table_ok heap rows index next -> heap !! p = Some r -> rows !! rid r = Some q -> q = p.
Proof.
  intros Ht Hp Hr. apply (ok_rows _ _ _ _ Ht) in Hr as (r' & Hr' & E & _). by eapply row_id_inj.
Qed.

Lemma table_new : table_ok [] ∅ ∅ 1.
Proof. by constructor. Qed.

Lemma table_put heap rows index next p r :
  table_ok heap rows index next -> valid_role (rrole r) -> (forall r0, heap !! p = Some r0 -> same_row r0 r) ->
  table_ok (<[p := r]> heap) rows index next.
Proof.
  intros Ht Hr Hs. pose proof (kept_insert same_row heap p r Hs) as Hk.
  destruct Ht as [Hid Hrows Hindex Hnext]. constructor.
  - intros q v Hv. apply list_lookup_insert_Some in Hv as [(<- & -> & Hl)|[? Hv]]; [|by eauto].
    destruct (lookup_lt_is_Some_2 _ _ Hl) as [r0 Hr0]. destruct (Hs _ Hr0) as [-> _].
    split; [by eapply Hid|done].
  - intros id q (v & Hv & Hi & Hn)%Hrows. apply Hk in Hv as (v' & Hv' & Ei & En).
    exists v'. rewrite En. by split_and!; [|congruence|].
  - intros key id (q & v & Hq & Hv & Hn)%Hindex. apply Hk in Hv as (v' & Hv' & Ei & En).
    exists q, v'. by split_and!; [| |congruence].
  - by rewrite length_insert.
Qed.

Lemma table_create heap rows index next r :
  table_ok heap rows index next -> rid r = next -> valid_role (rrole r) -> index !! rkey r = None ->
  next < Int64.max ->
  table_ok (heap ++ [r]) (<[next := List.length heap]> rows) (<[rkey r := next]> index) (incr64 next).
Proof.
  intros [Hid Hrows Hindex Hnext] Hr Hrole Hfree Hmax. constructor.
  - intros p v Hv. apply lookup_app_Some in Hv as [Hv|[Hl Hv]]; [by eauto|].
    apply list_lookup_singleton_Some in Hv as [Hp <-]. split; [lia|done].
  - intros id p Hp. apply lookup_insert_Some in Hp as [[<- <-]|[Hne Hp]].
    + exists r. split; [by apply list_lookup_middle|]. by rewrite lookup_insert_eq.
    + apply Hrows in Hp as (v & Hv & Hi & Hn). exists v.
      split_and!; [by apply lookup_app_l_Some|done|]. rewrite lookup_insert_ne; [done|congruence].
  - intros key id Hn. apply lookup_insert_Some in Hn as [[<- <-]|[Hne Hn]].
    + eexists _, _. rewrite lookup_insert_eq. by split_and!; [|by apply list_lookup_middle|].
    + apply Hindex in Hn as (p & v & Hp & Hv & Hn). pose proof (Hrows _ _ Hp) as (v' & Hv' & Hi & _).
      pose proof (proj1 (Hid _ _ Hv')). pose proof (lookup_lt_Some _ _ _ Hv). exists p, v.
      split_and!; [|by apply lookup_app_l_Some|done]. by rewrite lookup_insert_ne by lia.
  - rewrite Int64.wrap_id, length_app; [simpl; lia|]. unfold Int64.in_range, Int64.min, Int64.max in *. lia.
Qed.

Lemma table_delete heap rows index next id p r :
  table_ok heap rows index next -> rows !! id = Some p -> heap !! p = Some r ->
  table_ok heap (delete id rows) (delete (rkey r) index) next.
Proof.
  intros Ht Hp Hr. pose proof Ht as [Hid Hrows Hindex Hnext]. constructor; [done| | |done].
  - intros id' q Hq. apply lookup_delete_Some in Hq as [Hne Hq].
    pose proof (Hrows _ _ Hq) as (v & Hv & Hi & Hn). exists v. split_and!; [done..|].
    apply lookup_delete_Some. split; [|done]. intros E. rewrite <- E in Hn.
    apply Hrows in Hp as (v' & Hv' & Hi' & Hn'). assert (v' = r) as -> by congruence. congruence.
  - intros key id' Hn. apply lookup_delete_Some in Hn as [Hne Hn].
    apply Hindex in Hn as (q & v & Hq & Hv & Hn). exists q, v. split_and!; [|done..].
    apply lookup_delete_Some. split; [|done]. intros <-. congruence.
Qed.

(** The row of a key, through the index. *)
Definition find_row rows index (key : string) : option ptr := index !! key ≫= fun id => rows !! id.

Lemma find_row_Some heap rows index next key p :
  table_ok heap rows index next ->
  find_row rows index key = Some p <-> exists r, heap !! p = Some r /\ rkey r = key /\ rows !! rid r = Some p.
Proof.
  intros Ht. unfold find_row. rewrite bind_Some. split.
  - intros (id & Hi & Hp). pose proof (ok_index _ _ _ _ Ht _ _ Hi) as (q & r & Hq & Hl & <-).
    assert (q = p) as -> by congruence. exists r. split_and!; [done..|].
    pose proof (ok_rows _ _ _ _ Ht _ _ Hp) as (r' & Hl' & <- & _). by assert (r' = r) as -> by congruence.
  - intros (r & Hl & <- & Hr). exists (rid r). split; [|done].
    pose proof (ok_rows _ _ _ _ Ht _ _ Hr) as (r' & Hl' & _ & Hi). by assert (r' = r) as -> by congruence.
Qed.

Lemma find_row_create heap rows index next r key p :
  table_ok heap rows index next -> index !! rkey r = None -> find_row rows index key = Some p ->
  find_row (<[next := List.length heap]> rows) (<[rkey r := next]> index) key = Some p.
Proof.
  intros Ht Hf Hp. pose proof (proj1 (find_row_Some _ _ _ _ _ _ Ht) Hp) as (r' & Hl & <- & Hr).
  pose proof (ok_rows _ _ _ _ Ht _ _ Hr) as (r0 & Hl0 & _ & Hi). assert (r0 = r') as -> by congruence.
  unfold find_row. rewrite lookup_insert_ne by congruence. rewrite Hi. simpl.
  rewrite lookup_insert_ne; [done|]. rewrite (ok_next _ _ _ _ Ht).
  pose proof (ok_id _ _ _ _ Ht _ _ Hl) as [-> _]. apply lookup_lt_Some in Hl. lia.
Qed.

Lemma find_row_delete heap rows index next id q r' key p r :
  table_ok heap rows index next -> rows !! id = Some q -> heap !! q = Some r' ->
  find_row rows index key = Some p -> heap !! p = Some r -> rid r <> id ->
  find_row (delete id rows) (delete (rkey r') index) key = Some p.
Proof.
  intros Ht Hq Hl' Hp Hl Hid. pose proof (proj1 (find_row_Some _ _ _ _ _ _ Ht) Hp) as (r0 & Hl0 & <- & Hr).
  assert (r0 = r) as -> by congruence.
  pose proof (ok_rows _ _ _ _ Ht _ _ Hr) as (r1 & Hl1 & _ & Hi). assert (r1 = r) as -> by congruence.
  pose proof (ok_rows _ _ _ _ Ht _ _ Hq) as (r2 & Hl2 & Hi2 & Hx). assert (r2 = r') as -> by congruence.
  unfold find_row. rewrite lookup_delete_ne by congruence. rewrite Hi. simpl. by rewrite lookup_delete_ne.
Qed.
End table.

(** ** The store *)

Abbreviation users_ok s := (table_ok UID UUsername URole (userHeap s) (users s) (usersByUsername s) (nextUserID s)).
Abbreviation keys_ok s := (table_ok KID KeyHash KRole (keyHeap s) (apiKeys s) (apiKeysByHash s) (nextAPIKeyID s)).

Definition store_ok (s : AuthStore) : Prop := users_ok s /\ keys_ok s.

Definition same_user : relation UserRecord := same_row UID UUsername.
Definition same_key : relation APIKeyRecord := same_row KID KeyHash.

#[export] Instance same_user_preorder : PreOrder same_user := same_row_preorder _ _.
#[export] Instance same_key_preorder : PreOrder same_key := same_row_preorder _ _.

Definition store_ext (s s' : AuthStore) : Prop :=
  kept same_user (userHeap s) (userHeap s') /\ kept same_key (keyHeap s) (keyHeap s').

#[export] Instance store_ext_preorder : PreOrder store_ext.
Proof. split; [by intros s|]. intros s s' s'' [] []. split; by etrans. Qed.

(** Fewer records than IDs: the counters have not wrapped around. *)
Definition small (s : AuthStore) : Prop :=
  Z.of_nat (List.length (userHeap s)) + 1 < Int64.max /\ Z.of_nat (List.length (keyHeap s)) + 1 < Int64.max.

Lemma store_ext_small s s' : store_ext s s' -> small s' -> small s.
Proof. intros [Hu%kept_length Hk%kept_length] []. split; lia. Qed.

Lemma user_at_lookup s p u : userHeap s !! p = Some u -> user_at s p = u.
Proof. unfold user_at. by intros ->. Qed.

Lemma key_at_lookup s p k : keyHeap s !! p = Some k -> key_at s p = k.
Proof. unfold key_at. by intros ->. Qed.

(** ** Writes *)

Lemma put_user_ext p f s : (forall u, same_user u (f u)) -> store_ext s (put_user p (f (user_at s p)) s).
Proof.
  intros Hs. split; [|done]. apply kept_insert; [apply _|]. intros u Hu. by rewrite (user_at_lookup _ _ _ Hu).
Qed.

Lemma put_key_ext p f s : (forall k, same_key k (f k)) -> store_ext s (put_key p (f (key_at s p)) s).
Proof.
  intros Hs. split; [done|]. apply kept_insert; [apply _|]. intros k Hk. by rewrite (key_at_lookup _ _ _ Hk).
Qed.

Lemma put_user_ok p f s :
  (forall u, same_user u (f u)) -> (forall u, valid_role (URole u) -> valid_role (URole (f u))) ->
  is_Some (userHeap s !! p) -> store_ok s -> store_ok (put_user p (f (user_at s p)) s).
Proof.
  intros Hs Hr [u Hu] [Ht Hk]. rewrite (user_at_lookup _ _ _ Hu). split; [|done].
  apply table_put; [done| |]; [by eapply Hr, ok_id|]. intros u0 Hu0. pose proof (eq_trans (eq_sym Hu) Hu0) as [= <-]. apply Hs.
Qed.

Lemma put_key_ok p f s :
  (forall k, same_key k (f k)) -> (forall k, valid_role (KRole k) -> valid_role (KRole (f k))) ->
  is_Some (keyHeap s !! p) -> store_ok s -> store_ok (put_key p (f (key_at s p)) s).
Proof.
  intros Hs Hr [k Hk] [Hu Ht]. rewrite (key_at_lookup _ _ _ Hk). split; [done|].
  apply table_put; [done| |]; [by eapply Hr, ok_id|]. intros k0 Hk0. pose proof (eq_trans (eq_sym Hk) Hk0) as [= <-]. apply Hs.
Qed.

(** ** Storage calls *)

Lemma CreateUser_ext t user s : store_ext s (snd (MemUsers.CreateUser t user s)).
Proof. unfold MemUsers.CreateUser. case_match; [done|]. split; [apply kept_app; apply _|done]. Qed.

Lemma CreateAPIKey_ext t key s : store_ext s (snd (MemUsers.CreateAPIKey t key s)).
Proof. unfold MemUsers.CreateAPIKey. case_match; [done|]. split; [done|apply kept_app; apply _]. Qed.

Lemma CreateUser_ok t user s :
  UID user = 0 -> valid_role (URole user) -> store_ok s -> small s ->
  store_ok (snd (MemUsers.CreateUser t user s)).
Proof.
  intros Hi Hr [Hu Hk] [Hs _]. unfold MemUsers.CreateUser. case_match eqn:Hf; [done|]. split; [|done].
  rewrite bool_decide_true by done. apply table_create with (r := {| user with UID := _; UCreatedAt := t; UUpdatedAt := t |});
    [done..|]. by rewrite (ok_next _ _ _ _ _ _ _ Hu).
Qed.

Lemma CreateAPIKey_ok t key s :
  KID key = 0 -> valid_role (KRole key) -> store_ok s -> small s ->
  store_ok (snd (MemUsers.CreateAPIKey t key s)).
Proof.
  intros Hi Hr [Hu Hk] [_ Hs]. unfold MemUsers.CreateAPIKey. case_match eqn:Hf; [done|]. split; [done|].
  rewrite bool_decide_true by done. apply table_create with (r := {| key with KID := _; KCreatedAt := t |});
    [done..|]. by rewrite (ok_next _ _ _ _ _ _ _ Hk).
Qed.

(** In a good store a record that is updated through the store's own pointer
    keeps its place: the call can only fail or refresh the time stamp. *)
Lemma UpdateUser_cases t p s :
  store_ok s -> is_Some (userHeap s !! p) ->
  MemUsers.UpdateUser t p s =
    match users s !! UID (user_at s p) with
    | None => (fail ErrUserNotFound, s)
    | Some _ => (Ok tt, put_user p {| (user_at s p) with UUpdatedAt := t |} s)
    end.
Proof.
  intros [Hu _] [u Hp]. unfold MemUsers.UpdateUser. rewrite (user_at_lookup _ _ _ Hp).
  destruct (users s !! UID u) as [q|] eqn:Hq; [|done].
  pose proof (row_found _ _ _ _ _ _ _ _ _ _ Hu Hp Hq) as ->.
  rewrite (user_at_lookup _ _ _ Hp), decide_True by done. unfold put_user. simpl.
  by rewrite insert_id; [destruct s|].
Qed.

Lemma UpdateAPIKey_cases p s :
  store_ok s -> is_Some (keyHeap s !! p) ->
  MemUsers.UpdateAPIKey p s =
    match apiKeys s !! KID (key_at s p) with
    | None => (fail ErrAPIKeyNotFound, s)
    | Some _ => (Ok tt, s)
    end.
Proof.
  intros [_ Hu] [u Hp]. unfold MemUsers.UpdateAPIKey. rewrite (key_at_lookup _ _ _ Hp).
  destruct (apiKeys s !! KID u) as [q|] eqn:Hq; [|done].
  pose proof (row_found _ _ _ _ _ _ _ _ _ _ Hu Hp Hq) as ->.
  rewrite (key_at_lookup _ _ _ Hp), decide_True by done.
  by rewrite insert_id; [destruct s|].
Qed.

Lemma UpdateUser_ext t p s : store_ext s (snd (MemUsers.UpdateUser t p s)).
Proof.
  assert (forall s', userHeap s' = userHeap s -> keyHeap s' = keyHeap s ->
    store_ext s (put_user p {| (user_at s p) with UUpdatedAt := t |} s')) as Hput.
  { intros s' E1 E2. split; simpl; rewrite ?E1, ?E2; [|done]. apply kept_insert; [apply _|].
    intros u Hu. by rewrite (user_at_lookup _ _ _ Hu). }
  unfold MemUsers.UpdateUser. repeat case_match; try done; by apply Hput.
Qed.

Lemma UpdateAPIKey_ext p s : store_ext s (snd (MemUsers.UpdateAPIKey p s)).
Proof. unfold MemUsers.UpdateAPIKey. by repeat case_match. Qed.

Lemma UpdateUser_ok t p s :
  is_Some (userHeap s !! p) -> store_ok s -> store_ok (snd (MemUsers.UpdateUser t p s)).
Proof.
  intros Hp Hs. rewrite UpdateUser_cases by done. case_match; [|done].
  by apply (put_user_ok p (fun u => {| u with UUpdatedAt := t |})).
Qed.

Lemma UpdateAPIKey_ok p s :
  is_Some (keyHeap s !! p) -> store_ok s -> store_ok (snd (MemUsers.UpdateAPIKey p s)).
Proof. intros Hp Hs. rewrite UpdateAPIKey_cases by done. by case_match. Qed.

Lemma DeleteUser_ext id s : store_ext s (snd (MemUsers.DeleteUser id s)).
Proof. unfold MemUsers.DeleteUser. by case_match. Qed.

Lemma DeleteAPIKey_ext id s : store_ext s (snd (MemUsers.DeleteAPIKey id s)).
Proof. unfold MemUsers.DeleteAPIKey. by case_match. Qed.

Lemma DeleteUser_ok id s : store_ok s -> store_ok (snd (MemUsers.DeleteUser id s)).
Proof.
  intros [Hu Hk]. unfold MemUsers.DeleteUser. case_match eqn:Hp; [|done]. split; [|done].
  pose proof (ok_rows _ _ _ _ _ _ _ Hu _ _ Hp) as (u & E & _). rewrite (user_at_lookup _ _ _ E).
  by eapply table_delete.
Qed.

Lemma DeleteAPIKey_ok id s : store_ok s -> store_ok (snd (MemUsers.DeleteAPIKey id s)).
Proof.
  intros [Hu Hk]. unfold MemUsers.DeleteAPIKey. case_match eqn:Hp; [|done]. split; [done|].
  pose proof (ok_rows _ _ _ _ _ _ _ Hk _ _ Hp) as (k & E & _). rewrite (key_at_lookup _ _ _ E).
  by eapply table_delete.
Qed.

Lemma UpdateAPIKeyLastUsed_ext t id s : store_ext s (snd (MemUsers.UpdateAPIKeyLastUsed t id s)).
Proof.
  unfold MemUsers.UpdateAPIKeyLastUsed. case_match; [|done].
  by apply (put_key_ext _ (fun k => {| k with LastUsed := Some t |})).
Qed.

Lemma UpdateAPIKeyLastUsed_ok t id s : store_ok s -> store_ok (snd (MemUsers.UpdateAPIKeyLastUsed t id s)).
Proof.
  intros Hs. unfold MemUsers.UpdateAPIKeyLastUsed. case_match eqn:Hp; [|done].
  pose proof (ok_rows _ _ _ _ _ _ _ (proj2 Hs) _ _ Hp) as (k & E & _).
  apply (put_key_ok _ (fun k => {| k with LastUsed := Some t |})); by eauto.
Qed.

(** *** Lookups *)

Definition find_user (s : AuthStore) : string -> option ptr := find_row (users s) (usersByUsername s).
Definition find_key (s : AuthStore) : string -> option ptr := find_row (apiKeys s) (apiKeysByHash s).

Lemma GetUserByUsername_find name s :
  MemUsers.GetUserByUsername name s = match find_user s name with Some p => Ok p | None => fail ErrUserNotFound end.
Proof. unfold MemUsers.GetUserByUsername, find_user, find_row. by destruct (usersByUsername s !! name). Qed.

Lemma GetAPIKeyByHash_find hash s :
  GetAPIKeyByHash hash s = match find_key s hash with Some p => Ok p | None => fail ErrAPIKeyNotFound end.
Proof. unfold GetAPIKeyByHash, find_key, find_row. by destruct (apiKeysByHash s !! hash). Qed.

Lemma find_user_Some name p s :
  users_ok s ->
  find_user s name = Some p <-> exists u, userHeap s !! p = Some u /\ UUsername u = name /\ users s !! UID u = Some p.
Proof. apply find_row_Some. Qed.

Lemma find_key_Some hash p s :
  keys_ok s ->
  find_key s hash = Some p <-> exists k, keyHeap s !! p = Some k /\ KeyHash k = hash /\ apiKeys s !! KID k = Some p.
Proof. apply find_row_Some. Qed.

(** What a name or a hash finds, it goes on finding. *)
Definition lookups_kept (s s' : AuthStore) : Prop :=
  (forall name p, find_user s name = Some p -> find_user s' name = Some p) /\
  (forall hash p, find_key s hash = Some p -> find_key s' hash = Some p).

Lemma lookups_kept_same s s' :
  users s' = users s -> usersByUsername s' = usersByUsername s ->
  apiKeys s' = apiKeys s -> apiKeysByHash s' = apiKeysByHash s -> lookups_kept s s'.
Proof. intros E1 E2 E3 E4. split; intros k p; unfold find_user, find_key; by rewrite ?E1, ?E2, ?E3, ?E4. Qed.

Lemma CreateUser_keeps t user s :
  UID user = 0 -> users_ok s -> lookups_kept s (snd (MemUsers.CreateUser t user s)).
Proof.
  intros Hid Hs. unfold MemUsers.CreateUser. case_match eqn:Hf; [done|]. rewrite bool_decide_true by done.
  split; [|done]. intros name p Hp. eapply find_row_create with (rkey := UUsername); eauto.
Qed.

Lemma CreateAPIKey_keeps t key s :
  KID key = 0 -> keys_ok s -> lookups_kept s (snd (MemUsers.CreateAPIKey t key s)).
Proof.
  intros Hid Hs. unfold MemUsers.CreateAPIKey. case_match eqn:Hf; [done|]. rewrite bool_decide_true by done.
  split; [done|]. intros hash p Hp. eapply find_row_create with (rkey := KeyHash); eauto.
Qed.

Lemma UpdateUser_keeps t p s :
  store_ok s -> is_Some (userHeap s !! p) -> lookups_kept s (snd (MemUsers.UpdateUser t p s)).
Proof. intros Hs Hp. rewrite UpdateUser_cases by done. case_match; by apply lookups_kept_same. Qed.

Lemma UpdateAPIKey_keeps p s :
  store_ok s -> is_Some (keyHeap s !! p) -> lookups_kept s (snd (MemUsers.UpdateAPIKey p s)).
Proof. intros Hs Hp. rewrite UpdateAPIKey_cases by done. case_match; by apply lookups_kept_same. Qed.

Lemma UpdateAPIKeyLastUsed_keeps t id s : lookups_kept s (snd (MemUsers.UpdateAPIKeyLastUsed t id s)).
Proof. unfold MemUsers.UpdateAPIKeyLastUsed. case_match; by apply lookups_kept_same. Qed.

(** ** The world

    [del]: may users and API keys be deleted?  While none is, a cache knows more
    of its records: that the store still has them. *)
Section world.
Context (del : bool).

Definition ext (w w' : World) : Prop :=
  store_ext (authStore w) (authStore w') /\
  (del = false -> small (authStore w') -> lookups_kept (authStore w) (authStore w')).

#[export] Instance ext_preorder : PreOrder ext.
Proof.
  split; [intros w; split; [reflexivity|by intros ? ?]|]. intros w w' w'' [H1 K1] [H2 K2]. split; [by etrans|].
  intros Hd Hs. destruct (K2 Hd Hs) as [U2 V2]. destruct (K1 Hd ltac:(by eapply store_ext_small)) as [U1 V1].
  split; auto.
Qed.

Definition user_ptr (p : ptr) (w : World) : Prop := is_Some (userHeap (authStore w) !! p).
Definition key_ptr (p : ptr) (w : World) : Prop := is_Some (keyHeap (authStore w) !! p).

(** The user at [p] has the name [name], and the key at [p] the hash [hash]; while
    none is deleted, the store has them. *)
Definition user_named (name : string) (p : ptr) (w : World) : Prop :=
  exists u, userHeap (authStore w) !! p = Some u /\ UUsername u = name /\
    (del = false -> find_user (authStore w) name = Some p).
Definition key_known (hash : string) (p : ptr) (w : World) : Prop :=
  exists k, keyHeap (authStore w) !! p = Some k /\ KeyHash k = hash /\
    (del = false -> find_key (authStore w) hash = Some p).

Lemma CreateAPIKey_known t key p w s' :
  MemUsers.CreateAPIKey t key (authStore w) = (Ok p, s') -> key_known (KeyHash key) p {| w with authStore := s' |}.
Proof.
  unfold MemUsers.CreateAPIKey. case_match; [done|]. intros [= <- <-].
  eexists. split_and!; [by apply list_lookup_middle|done|]. intros _. unfold find_key, find_row. simpl.
  by rewrite lookup_insert_eq; simpl; rewrite lookup_insert_eq.
Qed.

Definition key_listed (p : ptr) (w : World) : Prop := exists hash, key_known hash p w.

(** A fact that other goroutines cannot undo. *)
Class Stable (P : World -> Prop) : Prop :=
  stable : forall w w', ext w w' -> small (authStore w') -> P w -> P w'.

#[export] Instance True_stable : Stable (fun _ => True).
Proof. done. Qed.
#[export] Instance user_named_stable name p : Stable (user_named name p).
Proof.
  intros w w' [[Hu _] Hd] Hs (u & H%Hu & <- & Hg). destruct H as (u' & ? & _ & ?). exists u'.
  split_and!; [done..|]. intros E. apply Hd; auto.
Qed.
#[export] Instance user_ptr_stable p : Stable (user_ptr p).
Proof. intros w w' [[Hu _] _] _ [u H%Hu]. destruct H as (u' & ? & _). by exists u'. Qed.
#[export] Instance key_ptr_stable p : Stable (key_ptr p).
Proof. intros w w' [[_ Hk] _] _ [k H%Hk]. destruct H as (k' & ? & _). by exists k'. Qed.
#[export] Instance key_known_stable hash p : Stable (key_known hash p).
Proof.
  intros w w' [[_ Hk] Hd] Hs (k & H%Hk & <- & Hg). destruct H as (k' & ? & _ & ?). exists k'.
  split_and!; [done..|]. intros E. apply Hd; auto.
Qed.
#[export] Instance key_listed_stable p : Stable (key_listed p).
Proof. intros w w' Hw Hs [hash H]. exists hash. by eapply key_known_stable. Qed.

Definition when_small (P : World -> Prop) (w : World) : Prop := small (authStore w) -> P w.

Lemma ext_small w w' : ext w w' -> small (authStore w') -> small (authStore w).
Proof. intros [H _]. by apply store_ext_small. Qed.

Lemma when_small_ext P w w' : Stable P -> ext w w' -> when_small P w -> when_small P w'.
Proof. intros HP Hw H Hs. eapply (stable w); [done..|]. by apply H, (ext_small _ _ Hw). Qed.

Context (c : Crypto) (sv : Service).

Record world_ok (w : World) : Prop := {
  wo_store : store_ok (authStore w);
  wo_keys : forall hash p, apiKeyCache w !! hash = Some p -> key_known hash p w;
  wo_creds : forall k p t, userCredCache w !! k = Some (p, t) ->
    exists name password, user_named name p w /\ k = userCredCacheKey c name password
}.

Definition Inv : World -> Prop := when_small world_ok.

(** A call that ends well knows [Q] of its answer. *)
Definition answers {A} (Q : A -> World -> Prop) (r : result A) (w : World) : Prop :=
  match r with Ok a => when_small (Q a) w | Err _ => True end.

Abbreviation safely p Q w0 := (safe Inv ext p (answers Q) w0).
Abbreviation nothing := (fun _ _ => True).

(** The rule for an action: the store it leaves extends the one it finds, it
    keeps a good world good, and it learns [Q]. *)
Lemma safely_act {A} (f : World -> result A * World) Q w0 :
  (forall w, store_ext (authStore w) (authStore (snd (f w)))) ->
  (forall w, ext w0 w -> small (authStore w) -> small (authStore (snd (f w))) -> world_ok w ->
     (del = false -> lookups_kept (authStore w) (authStore (snd (f w)))) /\
     world_ok (snd (f w)) /\ match fst (f w) with Ok a => Q a (snd (f w)) | Err _ => True end) ->
  safely (request f) Q w0.
Proof.
  intros He Hok w Hw Hi. specialize (He w). specialize (Hok w Hw).
  destruct (f w) as [r w'] eqn:E. simpl in *.
  assert (small (authStore w') -> small (authStore w)) as Hs by by apply store_ext_small.
  split_and!; [|split; [done|]|].
  - intros Hs'. by apply Hok; [apply Hs| |apply Hi, Hs].
  - intros Hd Hs'. by apply Hok; [apply Hs| |apply Hi, Hs|].
  - destruct r; simpl; [|done]. intros Hs'. by apply Hok; [apply Hs| |apply Hi, Hs].
Qed.

(** An action that leaves the store alone. *)
Lemma safely_cache {A} (f : World -> A * World) (Q : A -> World -> Prop) w0 :
  (forall w, authStore (snd (f w)) = authStore w) ->
  (forall w, ext w0 w -> small (authStore w) -> world_ok w -> world_ok (snd (f w)) /\ Q (fst (f w)) (snd (f w))) ->
  safely (atomic f) Q w0.
Proof.
  intros He Hok w Hw Hi. specialize (He w). specialize (Hok w Hw). destruct (f w) as [a w'] eqn:E. simpl in *.
  unfold Inv, when_small, ext in *. rewrite He. split_and!; [|reflexivity|by intros ? ?|].
  - intros Hs. by apply Hok; [|apply Hi].
  - intros Hs. by apply Hok; [|apply Hi].
Qed.

Lemma safely_atomic {A} (f : World -> A * World) Q w0 :
  safely (request (fun w => let '(a, w') := f w in (Ok a, w'))) Q w0 -> safely (atomic f) Q w0.
Proof.
  simpl. intros H w Hw Hi. specialize (H w Hw Hi). by destruct (f w).
Qed.

(** The caches refer to records by what never changes of them. *)
Lemma world_ok_store w s :
  world_ok w -> store_ext (authStore w) s -> (del = false -> lookups_kept (authStore w) s) -> small s ->
  store_ok s -> world_ok {| w with authStore := s |}.
Proof.
  intros [Hs Hk Hc] He Hd Hsm Hok. assert (ext w {| w with authStore := s |}) as Hw by (split; auto).
  constructor; simpl; [done| |].
  - intros hash p H%Hk. by eapply (stable w).
  - intros k p t (name & pw & Hn & ->)%Hc. exists name, pw. split; [|done]. by eapply (stable w).
Qed.

Lemma safely_on_store {A} (f : AuthStore -> result A * AuthStore) (P : World -> Prop) `{!Stable P} Q w0 :
  when_small P w0 -> (forall s, store_ext s (snd (f s))) ->
  (forall w, P w -> store_ok (authStore w) -> small (authStore w) ->
     store_ok (snd (f (authStore w))) /\ (del = false -> lookups_kept (authStore w) (snd (f (authStore w))))) ->
  (forall w a s', P w -> store_ok (authStore w) -> store_ok s' -> f (authStore w) = (Ok a, s') ->
     Q a {| w with authStore := s' |}) ->
  safely (request (on_store f)) Q w0.
Proof.
  intros HP He Hok HQ. apply safely_act.
  - intros w. specialize (He (authStore w)). unfold on_store. by destruct (f (authStore w)).
  - intros w Hw Hs Hs' Hwo. assert (P w) as Hp by (by eapply (when_small_ext P w0)).
    destruct (Hok w Hp (wo_store _ Hwo) Hs) as [Hok' Hd]. specialize (HQ w). specialize (He (authStore w)).
    unfold on_store in *. destruct (f (authStore w)) as [r s'] eqn:Ef. simpl in *. split_and!; [done| |].
    + by apply world_ok_store.
    + destruct r; [|done]. apply HQ; [done| |done..]. apply Hwo.
Qed.

Lemma safely_ask {A} (f : AuthStore -> A) (Q : A -> World -> Prop) w0 :
  (forall w, store_ok (authStore w) -> Q (f (authStore w)) w) -> safely (atomic (ask_store f)) Q w0.
Proof. intros HQ. apply safely_cache; [done|]. intros w _ _ Hwo. split; [done|]. apply HQ, Hwo. Qed.

Lemma safely_ask_result {A} (f : AuthStore -> result A) Q w0 :
  (forall w a, store_ok (authStore w) -> f (authStore w) = Ok a -> Q a w) ->
  safely (request (ask_store f)) Q w0.
Proof.
  intros HQ. apply safely_act; [reflexivity|]. intros w _ _ _ Hwo. split_and!; [by intros ?|done|]. simpl.
  destruct (f (authStore w)) eqn:E; [|done]. apply HQ; [apply Hwo|done].
Qed.

(** ** Rules for the parts of a method *)

Lemma safely_ret {A} (a : A) Q w0 : when_small (Q a) w0 -> safely (retp a) Q w0.
Proof. done. Qed.

Lemma safely_throw {A} e (Q : A -> World -> Prop) w0 : safely (throw e) Q w0.
Proof. done. Qed.

Lemma safely_bind {A B} (p : proc World A) (k : A -> proc World B) Q Q' w0 :
  safely p Q w0 -> (forall a w, ext w0 w -> when_small (Q a) w -> safely (k a) Q' w) ->
  safely (bindp p k) Q' w0.
Proof. intros Hp Hk. eapply safe_bindp; [apply _|exact Hp|apply Hk|done]. Qed.

Lemma safely_try {A} (p : proc World A) Q w0 :
  safely p Q w0 -> safely (tryp p) (fun r => match r with Ok a => Q a | Err _ => fun _ => True end) w0.
Proof. intros Hp. apply safe_tryp. eapply safe_mono; [exact Hp|]. by intros [a|e] w. Qed.

Lemma safely_for {A} (l : list A) (body : A -> proc World unit) w0 :
  (forall a w, a ∈ l -> ext w0 w -> safely (body a) nothing w) -> safely (forp l body) nothing w0.
Proof.
  intros H. eapply safe_mono; [apply safe_forp; [apply _|]|].
  - intros a w Ha Hw. eapply safe_mono; [by apply H|done].
  - by intros [[]|e] w _.
Qed.

Lemma safely_weaken {A} (p : proc World A) Q w0 : safely p Q w0 -> safely p nothing w0.
Proof. intros H. eapply safe_mono; [exact H|]. by intros [a|e] w. Qed.

(** *** Actions *)

Lemma safely_load_user p w0 : safely (load_user p) nothing w0.
Proof. by apply safely_ask. Qed.

Lemma safely_load_key p w0 :
  safely (load_key p) (fun k w => key_listed p w -> key_known (KeyHash k) p w) w0.
Proof.
  apply safely_ask. intros w _ [hash (k & Hk & Hh & Hd)]. exists k. rewrite (key_at_lookup _ _ _ Hk), Hh. done.
Qed.

Lemma safely_set_user p f w0 :
  (forall u, same_user u (f u)) -> (forall u, valid_role (URole u) -> valid_role (URole (f u))) ->
  when_small (user_ptr p) w0 -> safely (set_user p f) nothing w0.
Proof.
  intros Hf Hr Hp. apply safely_atomic.
  apply (safely_on_store (fun s => (Ok tt, put_user p (f (user_at s p)) s)) (user_ptr p)); [done| | |done].
  - intros s. by apply put_user_ext.
  - intros w Hw Hs _. split; [by apply put_user_ok|]. intros _. by apply lookups_kept_same.
Qed.

Lemma safely_set_key p f w0 :
  (forall k, same_key k (f k)) -> (forall k, valid_role (KRole k) -> valid_role (KRole (f k))) ->
  when_small (key_ptr p) w0 -> safely (set_key p f) nothing w0.
Proof.
  intros Hf Hr Hp. apply safely_atomic.
  apply (safely_on_store (fun s => (Ok tt, put_key p (f (key_at s p)) s)) (key_ptr p)); [done| | |done].
  - intros s. by apply put_key_ext.
  - intros w Hw Hs _. split; [by apply put_key_ok|]. intros _. by apply lookups_kept_same.
Qed.

Lemma safely_key_cache_load hash w0 :
  safely (key_cache_load hash) (fun o w => match o with Some p => key_known hash p w | None => True end) w0.
Proof.
  apply safely_cache; [done|]. intros w _ _ Hwo. split; [done|]. simpl.
  destruct (apiKeyCache w !! hash) eqn:E; [|done]. by apply Hwo.
Qed.

Lemma safely_key_cache_store hash p w0 :
  when_small (key_known hash p) w0 -> safely (key_cache_store hash p) nothing w0.
Proof.
  intros Hp. apply safely_cache; [done|]. intros w Hw Hs [Hst Hk Hc]. split; [|done].
  constructor; [exact Hst| |exact Hc]. simpl. intros h q [[<- <-]|[_ H]]%lookup_insert_Some; [|by apply Hk].
  exact (when_small_ext (key_known hash p) w0 w _ Hw Hp Hs).
Qed.

Lemma safely_key_cache_delete hash w0 : safely (key_cache_delete hash) nothing w0.
Proof.
  apply safely_cache; [done|]. intros w Hw Hs [Hst Hk Hc]. split; [|done].
  constructor; [exact Hst| |exact Hc]. simpl. intros h q [_ H]%lookup_delete_Some. by apply Hk.
Qed.

Lemma safely_key_cache_range e w0 : safely (key_cache_range e) nothing w0.
Proof. by apply safely_cache. Qed.

Lemma safely_cred_cache_load k w0 : safely (cred_cache_load k) nothing w0.
Proof. by apply safely_cache. Qed.

Lemma safely_cred_cache_store name password p t w0 :
  when_small (user_named name p) w0 ->
  safely (cred_cache_store (userCredCacheKey c name password) (p, t)) nothing w0.
Proof.
  intros Hp. apply safely_cache; [done|]. intros w Hw Hs [Hst Hk Hc]. split; [|done].
  constructor; [exact Hst|exact Hk|]. simpl. intros k q t' [[<- [= <- <-]]|[_ H]]%lookup_insert_Some; [|by eapply Hc].
  exists name, password. split; [|done]. exact (when_small_ext (user_named name p) w0 w _ Hw Hp Hs).
Qed.

Lemma safely_cred_cache_delete k w0 : safely (cred_cache_delete k) nothing w0.
Proof.
  apply safely_cache; [done|]. intros w Hw Hs [Hst Hk Hc]. split; [|done].
  constructor; [exact Hst|exact Hk|]. simpl. intros k' q t [_ H]%lookup_delete_Some. by eapply Hc.
Qed.

Lemma safely_cred_cache_range e w0 : safely (cred_cache_range e) nothing w0.
Proof. by apply safely_cache. Qed.

Lemma safely_spawn id w0 : safely (spawn_last_used id) nothing w0.
Proof. apply safely_cache; [done|]. by intros w _ _ []. Qed.

(** *** Storage calls *)

Lemma safely_GetUserByID id w0 : safely (GetUserByID id) user_ptr w0.
Proof.
  apply safely_ask_result. intros w p [Hu _] E. unfold MemUsers.GetUserByID in E. case_match; [|done].
  injection E as ->. apply (ok_rows _ _ _ _ _ _ _ Hu) in H as (u & Hp & _). by exists u.
Qed.

Lemma safely_GetUserByUsername name w0 : safely (GetUserByUsername name) (user_named name) w0.
Proof.
  apply safely_ask_result. intros w p [Hu _] E.
  rewrite GetUserByUsername_find in E. destruct (find_user _ _) as [q|] eqn:Ef; [|done]. injection E as ->.
  pose proof (proj1 (find_user_Some _ _ _ Hu) Ef) as (u & Hl & Hh & _). by exists u.
Qed.

Lemma safely_GetAPIKeyByID id w0 : safely (GetAPIKeyByID id) key_ptr w0.
Proof.
  apply safely_ask_result. intros w p [_ Hk] E. unfold MemUsers.GetAPIKeyByID in E. case_match; [|done].
  injection E as ->. apply (ok_rows _ _ _ _ _ _ _ Hk) in H as (k & Hp & _). by exists k.
Qed.

Lemma safely_GetAPIKeyByHash hash w0 :
  safely (request (ask_store (GetAPIKeyByHash hash))) (key_known hash) w0.
Proof.
  apply safely_ask_result. intros w p [_ Hk] E.
  rewrite GetAPIKeyByHash_find in E. destruct (find_key _ _) as [q|] eqn:Ef; [|done]. injection E as ->.
  pose proof (proj1 (find_key_Some _ _ _ Hk) Ef) as (k & Hl & Hh & _). by exists k.
Qed.

Lemma safely_GetAPIKeyByUserAndName e userID name w0 :
  safely (request (ask_store (GetAPIKeyByUserAndName e userID name))) nothing w0.
Proof. by apply safely_ask_result. Qed.

Lemma safely_ListUsers e w0 : safely (ListUsers e) nothing w0.
Proof. by apply safely_ask. Qed.

Lemma safely_ListAPIKeys e w0 : safely (ListAPIKeys e) (fun keys w => Forall (fun p => key_listed p w) keys) w0.
Proof.
  apply safely_ask. intros w [_ Hk]. apply Forall_forall. intros p Hp. unfold MemUsers.ListAPIKeys in Hp.
  rewrite merge_sort_Permutation in Hp. apply list_elem_of_fmap in Hp as ([id q] & -> & Hq).
  apply elem_of_range in Hq. pose proof (ok_rows _ _ _ _ _ _ _ Hk _ _ Hq) as (k & Hl & <- & _).
  exists (KeyHash k), k. split_and!; [done..|]. intros _. apply find_key_Some; eauto.
Qed.
End world.

(** What the rules for actions know without more ado. *)
Create HintDb safely.
