(* ===== verification/AuthSafe.v ===== *)
(** * Every method of the authentication service keeps the invariant

    Each method of AuthService, taken action by action, meets the rules of
    AuthInvariant; hence any interleaving of any calls keeps [world_ok]. *)
From S2P Require Import Prelude StorageTypes Procs MemUsers Rbac AuthService AuthInvariant.
From stdpp Require Import relations.
From Stdlib Require Import String.

Local Open Scope Z_scope.
Local Open Scope proc_scope.

(** Goes through a method, leaving the actions no hint covers. *)
Ltac safely :=
  repeat match goal with
  | |- safe _ _ (retp _) _ _ => apply safely_ret; try done
  | |- safe _ _ (throw _) _ _ => apply safely_throw
  | |- safe _ _ (bindp ?p _) _ _ =>
      first [eapply safely_bind; [solve [eauto with safely]|]
            |eapply safely_bind; [apply safely_load_key|]
            |eapply safely_bind; [apply safely_try; solve [eauto with safely]|]
            |eapply (safely_bind _ _ _ _ (fun _ _ => True))]; [..|intros ? ? ? ?]
  | |- safe _ _ (if decide ?P then _ else _) _ _ => destruct (decide P)
  | |- safe _ _ (match ?x with _ => _ end) _ _ => destruct x eqn:?; cbn beta iota in *
  | |- safe _ _ (if ?b then _ else _) _ _ => destruct b eqn:?
  | |- safe _ _ (hash_password _ _ _ _) _ _ => unfold hash_password
  | |- safe _ _ _ _ _ => solve [eauto with safely]
  end.

Section methods.
Context (del : bool) (c : Crypto) (sv : Service).

Abbreviation safely p Q w0 := (safe (Inv del c) (ext del) p (answers Q) w0).
Abbreviation nothing := (fun _ _ => True).

#[local] Hint Resolve safely_throw safely_load_user safely_key_cache_load safely_key_cache_delete
  safely_key_cache_range safely_cred_cache_load safely_cred_cache_delete safely_cred_cache_range
  safely_spawn safely_GetUserByID safely_GetUserByUsername safely_GetAPIKeyByID safely_GetAPIKeyByHash
  safely_GetAPIKeyByUserAndName safely_ListUsers safely_ListAPIKeys : safely.

Ltac stable := match goal with
  | H : when_small ?P ?w |- when_small ?P ?w' =>
      solve [apply (when_small_ext del P w); [apply _|repeat (first [assumption|etrans; [eassumption|]|reflexivity])|exact H]]
  end.

(** ** Users *)

Lemma safely_CreateUser e salt req w0 : safely (CreateUser c e salt req) nothing w0.
Proof.
  unfold CreateUser. safely.
  apply (safely_on_store del c _ (fun _ => True)); [done|intros s; apply CreateUser_ext| |done].
  intros w _ Hs Hsm. split; [|by intros _; apply CreateUser_keeps, Hs].
  apply CreateUser_ok; [done| |done..]. by apply negb_false_iff.
Qed.

Lemma safely_invalidateUserCredCacheByID e id w0 : safely (invalidateUserCredCacheByID e id) nothing w0.
Proof. unfold invalidateUserCredCacheByID. safely. apply safely_for. intros [k [p t]] ? _ _. safely. Qed.

Lemma safely_invalidateUserCredCache e name w0 : safely (invalidateUserCredCache e name) nothing w0.
Proof. unfold invalidateUserCredCache. safely. apply safely_for. intros [k [p t]] ? _ _. safely. Qed.

Lemma safely_UpdateUser_call t p w0 :
  when_small (user_ptr p) w0 -> safely (request (on_store (MemUsers.UpdateUser t p))) nothing w0.
Proof.
  intros Hp. apply (safely_on_store del c _ (user_ptr p)); [done|intros s; apply UpdateUser_ext| |done].
  intros w Hw Hs _. split; [by apply UpdateUser_ok|by intros _; apply UpdateUser_keeps].
Qed.

Lemma safely_applyUserUpdate salt p en w0 :
  when_small (user_ptr p) w0 -> safely (applyUserUpdate c salt p en) nothing w0.
Proof.
  intros Hp. destruct en as [key value]. unfold applyUserUpdate. safely; apply safely_set_user; try done.
  intros u _. by apply negb_false_iff.
Qed.

#[local] Hint Resolve safely_invalidateUserCredCacheByID : safely.

Lemma safely_UpdateUser e salt id updates w0 : safely (UpdateUser c e salt id updates) nothing w0.
Proof.
  unfold UpdateUser. safely.
  - apply safely_for. intros en w1 _ Hw. apply safely_applyUserUpdate. stable.
  - apply safely_set_user; [done..|stable].
  - apply safely_UpdateUser_call. stable.
Qed.

Lemma safely_DeleteUser e id w0 : del = true -> safely (DeleteUser e id) nothing w0.
Proof.
  intros Hd. unfold DeleteUser. safely.
  apply (safely_on_store del c _ (fun _ => True)); [done|intros s; apply DeleteUser_ext| |done].
  intros w1 _ Hs _. split; [by apply DeleteUser_ok|congruence].
Qed.

Lemma safely_ChangePassword e salt id old new w0 : safely (ChangePassword c e salt id old new) nothing w0.
Proof.
  unfold ChangePassword. safely.
  - apply safely_set_user; [done..|stable].
  - apply safely_set_user; [done..|stable].
  - apply safely_UpdateUser_call. stable.
Qed.

Lemma safely_ValidateCredentials e name password w0 :
  safely (ValidateCredentials c sv e name password) nothing w0.
Proof.
  unfold ValidateCredentials, cachedCredentials. safely.
  apply safely_cred_cache_store. stable.
Qed.

#[local] Hint Resolve safely_CreateUser safely_ValidateCredentials : safely.

Lemma safely_BootstrapAdmin e e' salt name password email w0 :
  safely (BootstrapAdmin c e e' salt name password email) nothing w0.
Proof. unfold BootstrapAdmin. safely. Qed.

(** ** API keys *)

Lemma safely_store_if_caching hash p w0 :
  when_small (key_known del hash p) w0 ->
  safely (if caching sv then key_cache_store hash p else retp tt) nothing w0.
Proof. intros Hp. destruct (caching sv); [by apply safely_key_cache_store|done]. Qed.

Lemma safely_CreateAPIKey e keyBytes req w0 : safely (CreateAPIKey c sv e keyBytes req) nothing w0.
Proof.
  unfold CreateAPIKey.
  destruct (negb (ValidRole (ReqKeyRole req))) eqn:Hr; [done|]. apply negb_false_iff in Hr.
  do 3 (case_decide; [done|]). eapply safely_bind; [apply safely_try, safely_GetAPIKeyByUserAndName|].
  intros existing w Hw _. destruct existing; [done|]. destruct keyBytes as [keyBytes|]; [|done].
  eapply (safely_bind del c _ _ (key_known del _)).
  - apply (safely_on_store del c _ (fun _ => True)); [done|intros s; apply CreateAPIKey_ext| |].
    + intros w1 _ Hs Hsm. split; [by apply CreateAPIKey_ok|]. intros _. by apply CreateAPIKey_keeps, Hs.
    + intros w1 p s' _ _ _ E. exact (CreateAPIKey_known del _ _ _ _ _ E).
  - intros p w1 Hw1 Hp. eapply safely_bind; [by apply safely_store_if_caching|]. intros _ w2 Hw2 _.
    eapply safely_bind; [apply safely_load_key|done].
Qed.

Lemma safely_lookupAPIKey hash w0 : safely (lookupAPIKey sv hash) (key_known del hash) w0.
Proof.
  unfold lookupAPIKey.
  eapply (safely_bind del c _ _ (fun o w => match o with Some p => key_known del hash p w | None => True end)).
  { destruct (caching sv); [apply safely_key_cache_load|done]. }
  intros [p|] w Hw Hp; [done|].
  eapply safely_bind; [apply safely_try, safely_GetAPIKeyByHash|]. intros [p|] w1 Hw1 Hp1; [|done].
  eapply safely_bind; [by apply safely_store_if_caching|]. intros _ w2 Hw2 _. apply safely_ret. stable.
Qed.

#[local] Hint Resolve safely_CreateAPIKey safely_lookupAPIKey : safely.

Lemma safely_ValidateAPIKey e rawKey w0 : safely (ValidateAPIKey c sv e rawKey) nothing w0.
Proof. unfold ValidateAPIKey. safely. Qed.

Lemma safely_dropCachedKey id entries w0 : safely (dropCachedKey id entries) nothing w0.
Proof. revert w0. induction entries as [|[hash p] entries IH]; intros w0; cbn [dropCachedKey]; [done|]. safely. Qed.

Lemma safely_invalidateAPIKeyCache e id w0 : safely (invalidateAPIKeyCache e id) nothing w0.
Proof. unfold invalidateAPIKeyCache. safely. apply safely_dropCachedKey. Qed.

#[local] Hint Resolve safely_invalidateAPIKeyCache : safely.

Lemma safely_applyKeyUpdate e p en w0 :
  when_small (key_ptr p) w0 -> safely (applyKeyUpdate e p en) nothing w0.
Proof.
  intros Hp. destruct en as [key value]. unfold applyKeyUpdate. safely; try (apply safely_set_key; try done; try stable).
  intros k _. by apply negb_false_iff.
Qed.

Lemma safely_UpdateAPIKey_call p w0 :
  when_small (key_ptr p) w0 -> safely (request (on_store (MemUsers.UpdateAPIKey p))) nothing w0.
Proof.
  intros Hp. apply (safely_on_store del c _ (key_ptr p)); [done|intros s; apply UpdateAPIKey_ext| |done].
  intros w Hw Hs _. split; [by apply UpdateAPIKey_ok|by intros _; apply UpdateAPIKey_keeps].
Qed.

Lemma safely_UpdateAPIKey e id updates w0 : safely (UpdateAPIKey e id updates) nothing w0.
Proof.
  unfold UpdateAPIKey. safely.
  - apply safely_for. intros en w1 _ Hw. apply safely_applyKeyUpdate. stable.
  - apply safely_UpdateAPIKey_call. stable.
Qed.

Lemma safely_DeleteAPIKey e id w0 : del = true -> safely (DeleteAPIKey e id) nothing w0.
Proof.
  intros Hd. unfold DeleteAPIKey. safely.
  apply (safely_on_store del c _ (fun _ => True)); [done|intros s; apply DeleteAPIKey_ext| |done].
  intros w1 _ Hs _. split; [by apply DeleteAPIKey_ok|congruence].
Qed.

Lemma safely_RevokeAPIKey e id w0 : safely (RevokeAPIKey e id) nothing w0.
Proof.
  unfold RevokeAPIKey. safely.
  - apply safely_set_key; [done..|stable].
  - apply safely_UpdateAPIKey_call. stable.
Qed.

#[local] Hint Resolve safely_RevokeAPIKey : safely.

Lemma safely_RotateAPIKey e e1 e2 keyBytes id t w0 : safely (RotateAPIKey c sv e e1 e2 keyBytes id t) nothing w0.
Proof. unfold RotateAPIKey. safely. Qed.

Lemma safely_last_used_goroutine t i w0 : safely (last_used_goroutine t i) nothing w0.
Proof.
  unfold last_used_goroutine. eapply safely_bind; [apply safely_try with (Q := nothing)|done]. apply safely_act.
  - intros w. destruct (pending w !! i) as [id|]; [|done]. unfold on_store. simpl.
    pose proof (UpdateAPIKeyLastUsed_ext t id (authStore w)) as He.
    destruct (MemUsers.UpdateAPIKeyLastUsed t id (authStore w)). exact He.
  - intros w _ _ Hsm Hwo. destruct (pending w !! i) as [id|]; [|by split_and!; [intros _| |]].
    unfold on_store in *. simpl in *.
    pose proof (UpdateAPIKeyLastUsed_ext t id (authStore w)) as He.
    pose proof (UpdateAPIKeyLastUsed_ok t id _ (wo_store _ _ _ Hwo)) as Hok.
    pose proof (UpdateAPIKeyLastUsed_keeps t id (authStore w)) as Hkeys.
    destruct (MemUsers.UpdateAPIKeyLastUsed t id (authStore w)) as [r s]. simpl in *.
    split_and!; [by intros _| |by destruct r].
    assert (world_ok del c {| w with authStore := s |}) as [? ? ?] by (apply world_ok_store; auto). by constructor.
Qed.

Lemma safely_keysByHash keys m w0 :
  when_small (fun w => Forall (fun p => key_listed del p w) keys) w0 ->
  when_small (fun w => forall hash p, m !! hash = Some p -> key_known del hash p w) w0 ->
  safely (keysByHash keys m) (fun m' w => forall hash p, m' !! hash = Some p -> key_known del hash p w) w0.
Proof.
  revert m w0. induction keys as [|p keys IH]; intros m w0 Hk Hm; cbn [keysByHash]; [done|].
  eapply safely_bind; [apply safely_load_key|]. intros k w Hw Hp. apply IH; intros Hs;
    pose proof (ext_small _ _ _ Hw Hs) as Hs0; specialize (Hk Hs0); specialize (Hm Hs0); specialize (Hp Hs).
  - apply Forall_cons in Hk as [_ Hk]. eapply Forall_impl; [exact Hk|]. intros q Hq. by eapply (stable _ w0).
  - apply Forall_cons in Hk as [Hk _]. intros hash q [[<- <-]|[_ Hq]]%lookup_insert_Some.
    + apply Hp. by eapply (stable _ w0).
    + by eapply (stable _ w0), Hm.
Qed.

Lemma safely_refreshAPIKeyCache e w0 : safely (refreshAPIKeyCache e) nothing w0.
Proof.
  unfold refreshAPIKeyCache. eapply safely_bind; [apply safely_ListAPIKeys|]. intros keys w Hw Hk.
  eapply safely_bind; [by apply safely_keysByHash|]. intros m w1 Hw1 Hm.
  eapply safely_bind; [apply safely_key_cache_range|]. intros old w2 Hw2 _.
  eapply (safely_bind del c _ _ nothing).
  { apply safely_for. intros [hash p] w3 _ _. safely. }
  intros _ w3 Hw3 _. apply safely_for. intros [hash p] w4 Hin%elem_of_range Hw4.
  apply safely_key_cache_store. intros Hs. assert (ext del w1 w4) as He by (by do 2 (etrans; [done|])).
  eapply (stable _ w1); [done..|]. apply Hm; [|done]. by eapply ext_small.
Qed.

(** ** Any calls, any order *)

(** A call of the service, or one of the goroutines a validation leaves behind;
    records are deleted only if [del] says so. *)
Inductive service_call : thread World -> Prop :=
  | call_CreateUser e salt req : service_call (Thread (CreateUser c e salt req))
  | call_GetUserByID id : service_call (Thread (GetUserByID id))
  | call_GetUserByUsername name : service_call (Thread (GetUserByUsername name))
  | call_ListUsers e : service_call (Thread (ListUsers e))
  | call_UpdateUser e salt id updates : service_call (Thread (UpdateUser c e salt id updates))
  | call_DeleteUser e id : del = true -> service_call (Thread (DeleteUser e id))
  | call_ChangePassword e salt id old new : service_call (Thread (ChangePassword c e salt id old new))
  | call_ValidateCredentials e name password : service_call (Thread (ValidateCredentials c sv e name password))
  | call_BootstrapAdmin e e' salt name password email :
      service_call (Thread (BootstrapAdmin c e e' salt name password email))
  | call_CreateAPIKey e keyBytes req : service_call (Thread (CreateAPIKey c sv e keyBytes req))
  | call_ValidateAPIKey e rawKey : service_call (Thread (ValidateAPIKey c sv e rawKey))
  | call_GetAPIKeyByID id : service_call (Thread (GetAPIKeyByID id))
  | call_ListAPIKeys e : service_call (Thread (ListAPIKeys e))
  | call_ListAPIKeysByUserID e id : service_call (Thread (ListAPIKeysByUserID e id))
  | call_UpdateAPIKey e id updates : service_call (Thread (UpdateAPIKey e id updates))
  | call_DeleteAPIKey e id : del = true -> service_call (Thread (DeleteAPIKey e id))
  | call_RevokeAPIKey e id : service_call (Thread (RevokeAPIKey e id))
  | call_RotateAPIKey e e1 e2 keyBytes id t : service_call (Thread (RotateAPIKey c sv e e1 e2 keyBytes id t))
  | call_refreshAPIKeyCache e : service_call (Thread (refreshAPIKeyCache e))
  | call_last_used t i : service_call (Thread (last_used_goroutine t i)).

Lemma safely_ListAPIKeysByUserID e id w0 : safely (ListAPIKeysByUserID e id) nothing w0.
Proof. by apply safely_ask. Qed.

Lemma service_call_safe t w : service_call t -> thread_safe (Inv del c) (ext del) w t.
Proof.
  assert (forall A (p : proc World A) Q, safely p Q w -> thread_safe (Inv del c) (ext del) w (Thread p)) as Hp.
  { intros A p Q H. by eapply safe_mono. }
  intros []; eapply Hp;
    solve [eauto using safely_UpdateUser, safely_DeleteUser, safely_ChangePassword, safely_BootstrapAdmin,
      safely_ValidateAPIKey, safely_UpdateAPIKey, safely_DeleteAPIKey, safely_RotateAPIKey,
      safely_refreshAPIKeyCache, safely_last_used_goroutine, safely_ListAPIKeysByUserID with safely].
Qed.

Lemma service_calls_ok ts w' :
  rtc (interleaves service_call) ([], NewWorld) (ts, w') -> Inv del c w'.
Proof.
  intros H. eapply (interleaves_Inv (Inv del c) (ext del)) in H as [H _]; [done|apply service_call_safe|done|].
  intros _. constructor; cbn; [|by intros ? ? ?%lookup_empty_Some|by intros ? ? ? ?%lookup_empty_Some]. split; apply table_new.
Qed.
End methods.

(** However the calls of the service and its background work
    interleave, from an empty store on, as long as the counters have not wrapped
    around: usernames, key hashes and IDs identify their records, every user and
    API key has one of the four roles, a cached API key is a record with the
    hash it is cached under, and a cached login is one of a user of that name. *)
Theorem interleaved_calls_ok c sv ts w :
  rtc (interleaves (service_call true c sv)) ([], NewWorld) (ts, w) -> small (authStore w) -> world_ok true c w.
Proof. intros H. by eapply service_calls_ok. Qed.
