(* ===== verification/AuthFacts.v ===== *)
(** * What the authentication service promises of API keys, call after call

    [served]: the worlds that calls made one after the other lead to.  In them the
    caches make no difference: a key is accepted exactly while the store has it
    enabled and unexpired, and a revoked, deleted or rotated key is refused at
    once. *)
From S2P Require Import Prelude GoStrings GoHex StorageTypes Procs MemUsers Rbac AuthService AuthInvariant AuthSafe.
From stdpp Require Import relations.
From Stdlib Require Import Ascii String.

Local Open Scope Z_scope.
Local Open Scope proc_scope.
Local Open Scope string_scope.

(** ** Actions one by one *)

Lemma exec_ask {A} (f : AuthStore -> result A) w : exec (request (ask_store f)) w = (f (authStore w), w).
Proof. by rewrite exec_request. Qed.

Lemma exec_on_store {A} (f : AuthStore -> result A * AuthStore) w :
  exec (request (on_store f)) w = (fst (f (authStore w)), {| w with authStore := snd (f (authStore w)) |}).
Proof. rewrite exec_request. unfold on_store. by destruct (f (authStore w)). Qed.

Lemma exec_load_user p w : exec (load_user p) w = (Ok (user_at (authStore w) p), w).
Proof. done. Qed.

Lemma exec_load_key p w : exec (load_key p) w = (Ok (key_at (authStore w) p), w).
Proof. done. Qed.

Lemma exec_set_user p f w :
  exec (set_user p f) w = (Ok tt, {| w with authStore := put_user p (f (user_at (authStore w) p)) (authStore w) |}).
Proof. done. Qed.

Lemma exec_set_key p f w :
  exec (set_key p f) w = (Ok tt, {| w with authStore := put_key p (f (key_at (authStore w) p)) (authStore w) |}).
Proof. done. Qed.

Lemma exec_cred_cache_delete k w :
  exec (cred_cache_delete k) w = (Ok tt, {| w with userCredCache := delete k (userCredCache w) |}).
Proof. done. Qed.

Lemma user_at_put p u s : (p < List.length (userHeap s))%nat -> user_at (put_user p u s) p = u.
Proof. intros Hp. apply user_at_lookup. by apply list_lookup_insert_eq. Qed.

Lemma user_at_put_ne p q u s : p <> q -> user_at (put_user p u s) q = user_at s q.
Proof. intros Hn. unfold user_at. simpl. by rewrite list_lookup_insert_ne. Qed.

Lemma put_user_twice p u v s : put_user p v (put_user p u s) = put_user p v s.
Proof. unfold put_user. simpl. by rewrite list_insert_insert_eq. Qed.

Section facts.
Context (c : Crypto) (sv : Service).
Implicit Types (w : World) (e : env).

(** ** API keys *)

(** The service without a cache. *)
Definition checkAPIKey (t : Z) (hash : string) (s : AuthStore) : result ptr :=
  match find_key s hash with
  | None => fail ErrAPIKeyNotFound
  | Some p =>
      if negb (KEnabled (key_at s p)) then fail ErrAPIKeyDisabled
      else if decide (ExpiresAt (key_at s p) < t) then fail ErrAPIKeyExpired
      else Ok p
  end.

Lemma exec_lookupAPIKey hash w :
  world_ok false c w ->
  exec (lookupAPIKey sv hash) w =
    match find_key (authStore w) hash with
    | None => (fail ErrAPIKeyNotFound, w)
    | Some p => (Ok p, if caching sv then {| w with apiKeyCache := <[hash := p]> (apiKeyCache w) |} else w)
    end.
Proof.
  intros [_ Hk _]. unfold lookupAPIKey. rewrite exec_bindp.
  destruct (caching sv); simpl.
  - destruct (apiKeyCache w !! hash) as [p|] eqn:E.
    + destruct (Hk _ _ E) as (k & _ & _ & ->); [|done]. simpl. by rewrite insert_id; [destruct w|].
    + simpl. rewrite GetAPIKeyByHash_find. by destruct (find_key (authStore w) hash).
  - rewrite GetAPIKeyByHash_find. by destruct (find_key (authStore w) hash).
Qed.

Lemma ValidateAPIKey_cases e rawKey w :
  world_ok false c w ->
  exists w', exec (ValidateAPIKey c sv e rawKey) w =
    (checkAPIKey (now e 0) (hashAPIKey c sv rawKey) (authStore w), w') /\ authStore w' = authStore w.
Proof.
  intros Hw. unfold ValidateAPIKey, checkAPIKey. rewrite exec_bindp, exec_lookupAPIKey by done.
  destruct (find_key _ _) as [p|]; [|eauto].
  set (w1 := if caching sv then _ else w).
  assert (authStore w1 = authStore w) as E by (unfold w1; by destruct (caching sv)).
  rewrite exec_bindp, exec_load_key, E. destruct (negb (KEnabled (key_at (authStore w) p))); [by exists w1|].
  rewrite exec_bindp, exec_load_key, E. case_decide; [by exists w1|].
  rewrite exec_bindp, exec_load_key. simpl. by eexists.
Qed.

(** *** The cache after a change *)

Definition cached_without (id : Z) (cache' : gmap string ptr) (w : World) : Prop :=
  cache' ⊆ apiKeyCache w /\ forall hash p, cache' !! hash = Some p -> KID (key_at (authStore w) p) <> id.

Definition has_id (id : Z) (w : World) (en : string * ptr) : bool :=
  bool_decide (KID (key_at (authStore w) (snd en)) = id).

Lemma exec_dropCachedKey id entries w :
  exec (dropCachedKey id entries) w =
    (Ok tt, match List.find (has_id id w) entries with
            | Some (hash, _) => {| w with apiKeyCache := delete hash (apiKeyCache w) |}
            | None => w
            end).
Proof.
  induction entries as [|[hash p] entries IH]; cbn [dropCachedKey List.find]; [done|].
  rewrite exec_bindp, exec_load_key. unfold has_id at 1. cbn [snd].
  case_decide as D; [by rewrite bool_decide_true|]. by rewrite bool_decide_false.
Qed.

Lemma known_id_inj w hash hash' p p' :
  world_ok false c w -> apiKeyCache w !! hash = Some p -> apiKeyCache w !! hash' = Some p' ->
  KID (key_at (authStore w) p) = KID (key_at (authStore w) p') -> hash = hash'.
Proof.
  intros [[_ Hs] Hk _] (k & Hp & <- & _)%Hk (k' & Hp' & <- & _)%Hk E.
  rewrite (key_at_lookup _ _ _ Hp), (key_at_lookup _ _ _ Hp') in E.
  pose proof (row_id_inj _ _ _ _ _ _ _ _ _ _ _ Hs Hp Hp' E) as ->. congruence.
Qed.

Lemma exec_invalidateAPIKeyCache e id w :
  world_ok false c w ->
  exists cache', exec (invalidateAPIKeyCache e id) w = (Ok tt, {| w with apiKeyCache := cache' |}) /\
    cached_without id cache' w.
Proof.
  intros Hw. unfold invalidateAPIKeyCache. rewrite exec_bindp. simpl. rewrite exec_dropCachedKey.
  destruct (List.find _ _) as [[hash p]|] eqn:Ef.
  - apply find_range_Some in Ef as [Hp Hid%bool_decide_eq_true]. eexists. split; [done|].
    split; [apply delete_subseteq|]. intros hash' p' [Hne Hp']%lookup_delete_Some E.
    apply Hne. eapply known_id_inj; [done..|]. simpl in Hid. congruence.
  - exists (apiKeyCache w). split; [by destruct w|]. split; [done|]. intros hash p Hp E.
    pose proof (proj1 (find_range_None e _ _) Ef _ _ Hp) as Hf. apply bool_decide_eq_false in Hf. done.
Qed.

(** *** Deleting and revoking *)

Lemma world_ok_cache_subset w cache' :
  world_ok false c w -> cache' ⊆ apiKeyCache w -> world_ok false c {| w with apiKeyCache := cache' |}.
Proof.
  intros [Hs Hk Hc] Hsub. constructor; [exact Hs| |exact Hc].
  intros hash p Hp. apply Hk. by eapply lookup_weaken.
Qed.

Lemma exec_DeleteAPIKey e id w :
  world_ok false c w ->
  exists cache', exec (DeleteAPIKey e id) w =
    (fst (MemUsers.DeleteAPIKey id (authStore w)),
     {| w with apiKeyCache := cache'; authStore := snd (MemUsers.DeleteAPIKey id (authStore w)) |}) /\
    cached_without id cache' w.
Proof.
  intros Hw. unfold DeleteAPIKey.
  destruct (exec_invalidateAPIKeyCache e id w Hw) as (cache' & E & Hc). exists cache'. split; [|done].
  by rewrite exec_bindp, E, exec_on_store.
Qed.

(** The other keys are still found. *)
Lemma DeleteAPIKey_others id hash p s :
  keys_ok s -> find_key s hash = Some p -> KID (key_at s p) <> id ->
  find_key (snd (MemUsers.DeleteAPIKey id s)) hash = Some p.
Proof.
  intros Hs Hp Hid. pose proof (proj1 (find_key_Some _ _ _ Hs) Hp) as (k & Hl & _).
  rewrite (key_at_lookup _ _ _ Hl) in Hid. unfold MemUsers.DeleteAPIKey.
  destruct (apiKeys s !! id) as [q|] eqn:Hq; [|done].
  pose proof (ok_rows _ _ _ _ _ _ _ Hs _ _ Hq) as (k' & Hl' & _). rewrite (key_at_lookup _ _ _ Hl').
  by eapply (find_row_delete KID KeyHash KRole).
Qed.

Lemma DeleteAPIKey_gone id hash p s :
  keys_ok s -> find_key s hash = Some p -> KID (key_at s p) = id ->
  fst (MemUsers.DeleteAPIKey id s) = Ok tt /\ find_key (snd (MemUsers.DeleteAPIKey id s)) hash = None.
Proof.
  intros Hs Hp <-. pose proof (proj1 (find_key_Some _ _ _ Hs) Hp) as (k & Hl & <- & Hr).
  rewrite (key_at_lookup _ _ _ Hl). unfold MemUsers.DeleteAPIKey. rewrite Hr, (key_at_lookup _ _ _ Hl).
  split; [done|]. unfold find_key, find_row. simpl. by rewrite lookup_delete_eq.
Qed.

Lemma DeleteAPIKey_coherent e id w r w' :
  world_ok false c w -> small (authStore w') -> exec (DeleteAPIKey e id) w = (r, w') -> world_ok false c w'.
Proof.
  intros Hw Hsm E. destruct (exec_DeleteAPIKey e id w Hw) as (cache' & E' & Hsub & Hid).
  rewrite E' in E. injection E as <- <-. simpl in Hsm.
  pose proof (DeleteAPIKey_ext id (authStore w)) as He.
  pose proof (DeleteAPIKey_ok id _ (wo_store _ _ _ Hw)) as Hok.
  destruct Hw as [Hs Hk Hc]. constructor; [done| |].
  - intros hash p Hp. simpl in Hp. pose proof (Hid _ _ Hp) as Hn.
    pose proof (lookup_weaken _ _ _ _ Hp Hsub) as (k & Hl & <- & Hg)%Hk.
    destruct He as [_ He]. apply He in Hl as (k' & Hl' & _ & E). exists k'.
    split_and!; [done..|]. intros _. simpl. apply DeleteAPIKey_others; [apply Hs|by apply Hg|done].
  - intros k p t (name & pw & (u & Hu & <- & Hg) & ->)%Hc. exists (UUsername u), pw. split; [|done].
    destruct He as [He _]. apply He in Hu as (u' & Hu' & _ & ?). exists u'. split_and!; [done..|].
    intros _. simpl. rewrite <- (Hg eq_refl). unfold MemUsers.DeleteAPIKey. by case_match.
Qed.

(** ** Users *)

(** What is left of the cache of logins once those of a user are dropped. *)
Definition logins_without (id : Z) (cache' : gmap string (ptr * Z)) (w : World) : Prop :=
  cache' ⊆ userCredCache w /\ forall k p t, cache' !! k = Some (p, t) -> UID (user_at (authStore w) p) <> id.

Lemma exec_drop_logins id l w :
  exists cache', exec (forp l (fun '((k, (p, _)) : string * (ptr * Z)) =>
      let* u := load_user p in if decide (UID u = id) then cred_cache_delete k else retp tt)) w =
    (Ok tt, {| w with userCredCache := cache' |}) /\ cache' ⊆ userCredCache w /\
    forall k p t, (k, (p, t)) ∈ l -> UID (user_at (authStore w) p) = id -> cache' !! k = None.
Proof.
  revert w. induction l as [|[k [p t]] l IH]; intros w; cbn [forp].
  - exists (userCredCache w). split_and!; [by destruct w|done|]. by intros ? ? ? ?%elem_of_nil.
  - rewrite exec_bindp, exec_bindp, exec_load_user. case_decide as D.
    + rewrite exec_cred_cache_delete. destruct (IH {| w with userCredCache := delete k (userCredCache w) |}) as (cache' & -> & Hsub & Hl).
      exists cache'. simpl in *. split_and!; [done|by etrans; [|apply delete_subseteq]|].
      intros k' p' t' [[= -> -> ->]|Hin]%elem_of_cons Hid; [|by eapply Hl].
      destruct (cache' !! k) eqn:E; [|done]. by apply (lookup_weaken _ _ _ _ E), lookup_delete_Some in Hsub as [? _].
    + cbn [exec retp]. destruct (IH w) as (cache' & -> & Hsub & Hl). exists cache'. split_and!; [done..|].
      intros k' p' t' [[= -> -> ->]|Hin]%elem_of_cons Hid; [done|by eapply Hl].
Qed.

Lemma exec_invalidateUserCredCacheByID e id w :
  exists cache', exec (invalidateUserCredCacheByID e id) w = (Ok tt, {| w with userCredCache := cache' |}) /\
    logins_without id cache' w.
Proof.
  unfold invalidateUserCredCacheByID. rewrite exec_bindp. simpl.
  destruct (exec_drop_logins id (range e (userCredCache w)) w) as (cache' & E & Hsub & Hl).
  exists cache'. split; [exact E|]. split; [done|]. intros k p t Hk Hid.
  rewrite (Hl k p t) in Hk; [done| |done]. apply elem_of_range. by eapply lookup_weaken.
Qed.

Lemma exec_DeleteUser e id w :
  exists cache', exec (DeleteUser e id) w =
    (fst (MemUsers.DeleteUser id (authStore w)),
     {| w with userCredCache := cache'; authStore := snd (MemUsers.DeleteUser id (authStore w)) |}) /\
    logins_without id cache' w.
Proof.
  unfold DeleteUser. destruct (exec_invalidateUserCredCacheByID e id w) as (cache' & E & Hc).
  exists cache'. split; [|done]. by rewrite exec_bindp, E, exec_on_store.
Qed.

Lemma DeleteUser_others id name p s :
  users_ok s -> find_user s name = Some p -> UID (user_at s p) <> id ->
  find_user (snd (MemUsers.DeleteUser id s)) name = Some p.
Proof.
  intros Hs Hp Hid. pose proof (proj1 (find_user_Some _ _ _ Hs) Hp) as (u & Hl & _).
  rewrite (user_at_lookup _ _ _ Hl) in Hid. unfold MemUsers.DeleteUser.
  destruct (users s !! id) as [q|] eqn:Hq; [|done].
  pose proof (ok_rows _ _ _ _ _ _ _ Hs _ _ Hq) as (u' & Hl' & _). rewrite (user_at_lookup _ _ _ Hl').
  by eapply (find_row_delete UID UUsername URole).
Qed.

Lemma DeleteUser_gone id name p s :
  users_ok s -> find_user s name = Some p -> UID (user_at s p) = id ->
  fst (MemUsers.DeleteUser id s) = Ok tt /\ find_user (snd (MemUsers.DeleteUser id s)) name = None.
Proof.
  intros Hs Hp <-. pose proof (proj1 (find_user_Some _ _ _ Hs) Hp) as (u & Hl & <- & Hr).
  rewrite (user_at_lookup _ _ _ Hl). unfold MemUsers.DeleteUser. rewrite Hr, (user_at_lookup _ _ _ Hl).
  split; [done|]. unfold find_user, find_row. simpl. by rewrite lookup_delete_eq.
Qed.

Lemma DeleteUser_coherent e id w r w' :
  world_ok false c w -> exec (DeleteUser e id) w = (r, w') -> world_ok false c w'.
Proof.
  intros Hw E. destruct (exec_DeleteUser e id w) as (cache' & E' & Hsub & Hid).
  rewrite E' in E. injection E as <- <-.
  pose proof (DeleteUser_ext id (authStore w)) as [Heu Hek].
  pose proof (DeleteUser_ok id _ (wo_store _ _ _ Hw)) as Hok. destruct Hw as [Hs Hk Hc]. constructor; [done| |].
  - intros hash p (k & Hl & <- & Hg)%Hk. apply Hek in Hl as (k' & Hl' & _ & ?). exists k'.
    split_and!; [done..|]. intros _. simpl. rewrite <- (Hg eq_refl). unfold MemUsers.DeleteUser. by case_match.
  - intros k p t Hp. simpl in Hp. pose proof (Hid _ _ _ Hp) as Hn.
    pose proof (lookup_weaken _ _ _ _ Hp Hsub) as (name & pw & (u & Hl & <- & Hg) & ->)%Hc.
    exists (UUsername u), pw. split; [|done]. apply Heu in Hl as (u' & Hl' & _ & E). exists u'.
    split_and!; [done..|]. intros _. simpl. apply DeleteUser_others; [apply Hs|by apply Hg|done].
Qed.
End facts.

(** ** What is reached *)

(** The worlds that calls made one after the other lead to. *)
Inductive served (c : Crypto) (sv : Service) : World -> Prop :=
  | served_new : served c sv NewWorld
  | served_call {A} (p : proc World A) w r w' :
      served c sv w -> service_call true c sv (Thread p) -> exec p w = (r, w') ->
      small (authStore w') -> served c sv w'.

Lemma service_call_cases c sv t :
  service_call true c sv t ->
  service_call false c sv t \/ (exists e id, t = Thread (DeleteAPIKey e id)) \/ exists e id, t = Thread (DeleteUser e id).
Proof. intros []; eauto; left; by constructor. Qed.

Lemma exec_thread_eq {A B} (p : proc World A) (q : proc World B) w r w' :
  Thread p = Thread q -> exec p w = (r, w') -> exists r', exec q w = (r', w').
Proof.
  intros Heq E. change (match Thread q with Thread q => exists r', exec q w = (r', w') end). rewrite <- Heq. eauto.
Qed.

Lemma served_ok c sv w : served c sv w -> world_ok false c w.
Proof.
  induction 1 as [|A p w r w' _ IH Hcall E Hsm].
  - pose proof (service_calls_ok false c sv [] NewWorld ltac:(done)) as H. by apply H.
  - apply service_call_cases in Hcall as [Hcall|[(e & id & Heq)|(e & id & Heq)]].
    + apply (service_call_safe false c sv _ w) in Hcall. simpl in Hcall.
      eapply (safe_exec (Inv false c) (ext false)) in Hcall as [Hi _]; [by apply Hi|by intros _|done].
    + destruct (exec_thread_eq _ _ _ _ _ Heq E) as [r' E']. by eapply DeleteAPIKey_coherent.
    + destruct (exec_thread_eq _ _ _ _ _ Heq E) as [r' E']. by eapply DeleteUser_coherent.
Qed.

Lemma served_exec {A} c sv (p : proc World A) w :
  served c sv w -> service_call true c sv (Thread p) -> small (authStore (snd (exec p w))) ->
  served c sv (snd (exec p w)).
Proof. intros Hw Hp Hs. eapply served_call; [done..| |done]. apply surjective_pairing. Qed.

Lemma served_small c sv w : served c sv w -> small (authStore w).
Proof. by induction 1. Qed.

#[export] Hint Resolve served_ok served_small : core.

Lemma put_key_small p k s : small s -> small (put_key p k s).
Proof. unfold small, put_key. simpl. by rewrite length_insert. Qed.

Lemma put_user_small p u s : small s -> small (put_user p u s).
Proof. unfold small, put_user. simpl. by rewrite length_insert. Qed.

Section served.
Context (c : Crypto) (sv : Service).
Implicit Types (w : World) (e : env).

(** A write to a key that keeps its ID and hash. *)
Lemma put_key_world p f w :
  (forall k, same_key k (f k)) -> (forall k, valid_role (KRole k) -> valid_role (KRole (f k))) ->
  is_Some (keyHeap (authStore w) !! p) -> world_ok false c w -> small (authStore w) ->
  world_ok false c {| w with authStore := put_key p (f (key_at (authStore w) p)) (authStore w) |}.
Proof.
  intros Hf Hr Hp Hw Hs. apply world_ok_store; [done| | | |].
  - by apply put_key_ext.
  - intros _. by apply lookups_kept_same.
  - by apply put_key_small.
  - by apply put_key_ok, Hw.
Qed.

Definition revoked (p : ptr) (s : AuthStore) : AuthStore := put_key p {| (key_at s p) with KEnabled := false |} s.

Lemma exec_RevokeAPIKey e id p w :
  world_ok false c w -> small (authStore w) -> apiKeys (authStore w) !! id = Some p ->
  exists cache', exec (RevokeAPIKey e id) w =
    (Ok tt, {| w with apiKeyCache := cache'; authStore := revoked p (authStore w) |}).
Proof.
  intros Hw Hsm Hp. pose proof (ok_rows _ _ _ _ _ _ _ (proj2 (wo_store _ _ _ Hw)) _ _ Hp) as (k & Hl & Hid & _).
  unfold RevokeAPIKey, GetAPIKeyByID. rewrite exec_bindp, exec_ask. unfold MemUsers.GetAPIKeyByID. rewrite Hp.
  rewrite exec_bindp, exec_set_key. fold (revoked p (authStore w)).
  set (w1 := {| w with authStore := revoked p (authStore w) |}).
  assert (world_ok false c w1) as Hw1.
  { apply (put_key_world p (fun k => {| k with KEnabled := false |})); done. }
  assert (keyHeap (authStore w1) !! p = Some {| k with KEnabled := false |}) as Hl1.
  { unfold w1, revoked. simpl. rewrite (key_at_lookup _ _ _ Hl). apply list_lookup_insert_eq. by eapply lookup_lt_Some. }
  rewrite exec_bindp, exec_on_store, UpdateAPIKey_cases; [|apply Hw1|by eexists].
  rewrite (key_at_lookup _ _ _ Hl1). cbn [KID]. rewrite Hid. cbn [w1 authStore revoked put_key apiKeys]. rewrite Hp.
  cbn [fst snd]. destruct (exec_invalidateAPIKeyCache c e id w1 Hw1) as (cache' & E & _). exists cache'. exact E.
Qed.

Lemma key_at_revoked p k s : keyHeap s !! p = Some k -> key_at (revoked p s) p = {| k with KEnabled := false |}.
Proof.
  intros Hl. apply key_at_lookup. unfold revoked. simpl. rewrite (key_at_lookup _ _ _ Hl).
  apply list_lookup_insert_eq. by eapply lookup_lt_Some.
Qed.

Lemma key_at_revoked_ne p q s : p <> q -> key_at (revoked p s) q = key_at s q.
Proof. intros Hn. unfold key_at, revoked. simpl. by rewrite list_lookup_insert_ne. Qed.

Lemma validate e rawKey w :
  served c sv w ->
  fst (exec (ValidateAPIKey c sv e rawKey) w) = checkAPIKey (now e 0) (hashAPIKey c sv rawKey) (authStore w).
Proof. intros Hw. by destruct (ValidateAPIKey_cases c sv e rawKey w (served_ok _ _ _ Hw)) as (w' & -> & _). Qed.

Lemma check_revoked t hash p s :
  keys_ok s -> find_key s hash = Some p -> checkAPIKey t hash (revoked p s) = fail ErrAPIKeyDisabled.
Proof.
  intros Hs Hp. pose proof (proj1 (find_key_Some _ _ _ Hs) Hp) as (k & Hl & _).
  unfold checkAPIKey. change (find_key (revoked p s) hash) with (find_key s hash).
  by rewrite Hp, (key_at_revoked _ _ _ Hl).
Qed.

(** What a new key is stored as. *)
Definition new_key (e : env) (req : CreateAPIKeyRequest) (keyBytes : string) (id : Z) : APIKeyRecord :=
  let rawKeyHex := EncodeToString keyBytes in
  let rawKey := if decide (keyPrefix sv = "") then rawKeyHex else keyPrefix sv ++ rawKeyHex in
  MkAPIKeyRecord id (ReqUserID req) (hashAPIKey c sv rawKey) (take_str 8 rawKeyHex) (ReqName req)
    (ReqKeyRole req) true (now e 1) (ReqExpiresAt req) None.

Lemma CreateAPIKey_cases e keyBytes req w resp w' :
  keys_ok (authStore w) -> exec (CreateAPIKey c sv e keyBytes req) w = (Ok resp, w') ->
  exists bytes (p : ptr),
    let k := new_key e req bytes (RespID resp) in
    keyBytes = Ok bytes /\ hashAPIKey c sv (RespKey resp) = KeyHash k /\
    find_key (authStore w) (KeyHash k) = None /\
    keyHeap (authStore w') = (keyHeap (authStore w) ++ [k])%list /\ p = List.length (keyHeap (authStore w)) /\
    find_key (authStore w') (KeyHash k) = Some p /\
    apiKeys (authStore w') = <[RespID resp := p]> (apiKeys (authStore w)) /\
    RespID resp = nextAPIKeyID (authStore w) /\
    (RespRole resp, RespUserID resp, RespExpiresAt resp) = (ReqKeyRole req, ReqUserID req, ReqExpiresAt req).
Proof.
  intros Hs. unfold CreateAPIKey. destruct (negb _); [done|]. do 3 (case_decide; [done|]).
  rewrite exec_bindp, exec_tryp, exec_ask. cbn [fst snd]. destruct (GetAPIKeyByUserAndName _ _ _ _); [done|].
  destruct keyBytes as [bytes|]; [|done]. rewrite exec_bindp, exec_on_store. unfold MemUsers.CreateAPIKey.
  destruct (apiKeysByHash (authStore w) !! _) as [|] eqn:Hf; [done|]. rewrite bool_decide_true by done. cbn [fst snd].
  rewrite exec_bindp. destruct (caching sv); simpl; intros [= <- <-]; simpl; exists bytes; eexists.
  all: unfold key_at; simpl; rewrite list_lookup_middle by done; simpl; split_and!; try done.
  all: unfold find_key, find_row; simpl in *; rewrite ?Hf, ?lookup_insert_eq; simpl; by rewrite ?lookup_insert_eq.
Qed.
End served.

(** ** Properties of API keys *)

(** Revoking adds no record. *)
Lemma RevokeAPIKey_small c sv e id w r w' :
  (small (authStore w) -> served c sv w) -> exec (RevokeAPIKey e id) w = (r, w') -> small (authStore w') ->
  small (authStore w).
Proof.
  intros Hw E Hs. pose proof (safely_RevokeAPIKey false c e id w) as Hsafe.
  eapply (safe_exec (Inv false c) (ext false)) in Hsafe as (_ & He & _); [|by intros ?%Hw%served_ok|exact E].
  by eapply ext_small.
Qed.

(** Another key is found after a new one is made as before. *)
Lemma CreateAPIKey_other c sv e keyBytes req w resp w' hash p :
  keys_ok (authStore w) -> exec (CreateAPIKey c sv e keyBytes req) w = (Ok resp, w') ->
  find_key (authStore w) hash = Some p -> find_key (authStore w') hash = Some p.
Proof.
  intros Hs. unfold CreateAPIKey. destruct (negb _); [done|]. do 3 (case_decide; [done|]).
  rewrite exec_bindp, exec_tryp, exec_ask. cbn [fst snd]. destruct (GetAPIKeyByUserAndName _ _ _ _); [done|].
  destruct keyBytes as [bytes|]; [|done]. rewrite exec_bindp, exec_on_store.
  match goal with |- context [MemUsers.CreateAPIKey ?t ?k ?s] =>
    pose proof (CreateAPIKey_keeps t k s eq_refl Hs) as Hkeep; destruct (MemUsers.CreateAPIKey t k s) as [[q|] s'] end;
    [|done].
  cbn [fst snd] in *. rewrite exec_bindp. destruct (caching sv); simpl; intros [= _ <-]; apply Hkeep.
Qed.

(** Property C11.  In a service whose calls come one after the other, a key is
    accepted exactly when the store has an enabled key with its hash whose expiry
    is not past, and otherwise refused for the first of these reasons; the cache
    makes no difference and nothing is stored.  (A validation at the same time as
    a deletion may fill the cache again, see [deleted_key_accepted].) *)
Theorem ValidateAPIKey_spec c sv e rawKey w :
  served c sv w ->
  fst (exec (ValidateAPIKey c sv e rawKey) w) = checkAPIKey (now e 0) (hashAPIKey c sv rawKey) (authStore w) /\
  authStore (snd (exec (ValidateAPIKey c sv e rawKey) w)) = authStore w.
Proof.
  intros Hw. by destruct (ValidateAPIKey_cases c sv e rawKey w (served_ok _ _ _ Hw)) as (w' & -> & E).
Qed.

Lemma RevokeAPIKey_rejects c sv e id p rawKey w :
  served c sv w -> find_key (authStore w) (hashAPIKey c sv rawKey) = Some p ->
  id = KID (key_at (authStore w) p) ->
  exists w', exec (RevokeAPIKey e id) w = (Ok tt, w') /\ served c sv w' /\
    match find_key (authStore w') (hashAPIKey c sv rawKey) with
    | Some p => true = true /\ KID (key_at (authStore w') p) = id /\ KEnabled (key_at (authStore w') p) = false
    | None => True
    end /\
    forall e', fst (exec (ValidateAPIKey c sv e' rawKey) w') = fail ErrAPIKeyDisabled.
Proof.
  intros Hw Hp ->. pose proof (proj2 (wo_store _ _ _ (served_ok _ _ _ Hw))) as Hs.
  pose proof (proj1 (find_key_Some _ _ _ Hs) Hp) as (k & Hl & _ & Hr). rewrite <- (key_at_lookup _ _ _ Hl) in Hr.
  destruct (exec_RevokeAPIKey c e (KID (key_at (authStore w) p)) p w) as (cache' & E); [by eauto..|].
  assert (served c sv {| w with apiKeyCache := cache'; authStore := revoked p (authStore w) |}) as Hw'.
  { eapply served_call; [exact Hw| |exact E|]; [constructor|]. simpl. by apply put_key_small, (served_small c sv). }
  eexists. split_and!; [exact E|done| |].
  - cbn [authStore]. change (find_key (revoked p (authStore w)) ?h) with (find_key (authStore w) h).
    rewrite Hp, (key_at_revoked _ _ _ Hl), (key_at_lookup _ _ _ Hl). done.
  - intros e'. rewrite validate by done. by apply check_revoked.
Qed.

(** ** What later calls leave *)

(** The text of the key that random bytes make. *)
Definition key_text (sv : Service) (keyBytes : string) : string :=
  if decide (keyPrefix sv = "") then EncodeToString keyBytes else keyPrefix sv ++ EncodeToString keyBytes.

(** The calls that leave a key refused: all but an update that enables it, and a
    new key with the same hash. *)
Inductive spares (c : Crypto) (sv : Service) (id : Z) (hash : string) : thread World -> Prop :=
  | spares_CreateUser e salt req : spares c sv id hash (Thread (CreateUser c e salt req))
  | spares_GetUserByID i : spares c sv id hash (Thread (GetUserByID i))
  | spares_GetUserByUsername name : spares c sv id hash (Thread (GetUserByUsername name))
  | spares_ListUsers e : spares c sv id hash (Thread (ListUsers e))
  | spares_UpdateUser e salt i updates : spares c sv id hash (Thread (UpdateUser c e salt i updates))
  | spares_DeleteUser e i : spares c sv id hash (Thread (DeleteUser e i))
  | spares_ChangePassword e salt i old new : spares c sv id hash (Thread (ChangePassword c e salt i old new))
  | spares_ValidateCredentials e name password : spares c sv id hash (Thread (ValidateCredentials c sv e name password))
  | spares_BootstrapAdmin e e' salt name password email :
      spares c sv id hash (Thread (BootstrapAdmin c e e' salt name password email))
  | spares_CreateAPIKey e keyBytes req :
      (forall bytes, keyBytes = Ok bytes -> hashAPIKey c sv (key_text sv bytes) <> hash) ->
      spares c sv id hash (Thread (CreateAPIKey c sv e keyBytes req))
  | spares_ValidateAPIKey e rawKey : spares c sv id hash (Thread (ValidateAPIKey c sv e rawKey))
  | spares_GetAPIKeyByID i : spares c sv id hash (Thread (GetAPIKeyByID i))
  | spares_ListAPIKeys e : spares c sv id hash (Thread (ListAPIKeys e))
  | spares_ListAPIKeysByUserID e i : spares c sv id hash (Thread (ListAPIKeysByUserID e i))
  | spares_UpdateAPIKey e i updates : (i = id -> updates !! "enabled" <> Some (UBool true)) ->
      spares c sv id hash (Thread (UpdateAPIKey e i updates))
  | spares_DeleteAPIKey e i : spares c sv id hash (Thread (DeleteAPIKey e i))
  | spares_RevokeAPIKey e i : spares c sv id hash (Thread (RevokeAPIKey e i))
  | spares_RotateAPIKey e e1 e2 keyBytes i t :
      (forall bytes, keyBytes = Ok bytes -> hashAPIKey c sv (key_text sv bytes) <> hash) ->
      spares c sv id hash (Thread (RotateAPIKey c sv e e1 e2 keyBytes i t))
  | spares_refreshAPIKeyCache e : spares c sv id hash (Thread (refreshAPIKeyCache e))
  | spares_last_used t i : spares c sv id hash (Thread (last_used_goroutine t i)).

Lemma spares_service_call c sv id hash t : spares c sv id hash t -> service_call true c sv t.
Proof. destruct 1; by constructor. Qed.

(** The worlds that such calls lead to from a world, one after the other. *)
Inductive later (c : Crypto) (sv : Service) (id : Z) (hash : string) (w : World) : World -> Prop :=
  | later_now : later c sv id hash w w
  | later_call {A} (p : proc World A) w1 r w2 :
      later c sv id hash w w1 -> spares c sv id hash (Thread p) ->
      exec p w1 = (r, w2) -> small (authStore w2) -> later c sv id hash w w2.

Lemma later_served c sv id hash w w' : served c sv w -> later c sv id hash w w' -> served c sv w'.
Proof. induction 2; [done|]. eapply served_call; [done|by eapply spares_service_call|done..]. Qed.

Section later.
Context (c : Crypto) (sv : Service) (id : Z) (hash : string) (kept : bool).
Implicit Types (w : World) (e : env) (s : AuthStore) (row : option (Z * ptr)).

(** Rows lead to records of their ID, and a row with the hash is that of the key,
    if it is kept at all, and disabled. *)
Definition off s : Prop := forall i q, apiKeys s !! i = Some q ->
  (q < List.length (keyHeap s))%nat /\ KID (key_at s q) = i /\
  (KeyHash (key_at s q) = hash -> kept = true /\ i = id /\ KEnabled (key_at s q) = false).

(** And a row a method has found. *)
Definition off_at (row : option (Z * ptr)) s : Prop :=
  off s /\ match row with Some (i, q) => apiKeys s !! i = Some q | None => True end.

Definition keeps_off row {A} (p : proc World A) : Prop :=
  forall w, off_at row (authStore w) -> off_at row (authStore (snd (exec p w))).

Lemma off_same row s s' : keyHeap s' = keyHeap s -> apiKeys s' = apiKeys s -> off_at row s -> off_at row s'.
Proof. unfold off_at, off, key_at. by intros -> ->. Qed.

Lemma keeps_done row {A} (r : result A) : keeps_off row (Done r).
Proof. by intros w Hw. Qed.

Lemma keeps_bind row {A B} (p : proc World A) (k : A -> proc World B) :
  keeps_off row p -> (forall a, keeps_off row (k a)) -> keeps_off row (bindp p k).
Proof.
  intros Hp Hk w Hw. rewrite exec_bindp. specialize (Hp w Hw). destruct (exec p w) as [[a|] w']; [by apply Hk|done].
Qed.

Lemma keeps_try row {A} (p : proc World A) : keeps_off row p -> keeps_off row (tryp p).
Proof. intros Hp w Hw. rewrite exec_tryp. specialize (Hp w Hw). by destruct (exec p w). Qed.

Lemma keeps_for row {A} (l : list A) body : (forall a, a ∈ l -> keeps_off row (body a)) -> keeps_off row (forp l body).
Proof.
  induction l as [|a l IH]; intros Hb; [apply keeps_done|]. apply keeps_bind.
  - apply Hb, list_elem_of_here.
  - intros _. apply IH. intros b Hin. apply Hb. by apply list_elem_of_further.
Qed.

(** Actions that leave the keys of the store alone. *)
Lemma keeps_action row {A B} (f : World -> B * World) (k : B -> result A) :
  (forall w, keyHeap (authStore (snd (f w))) = keyHeap (authStore w) /\ apiKeys (authStore (snd (f w))) = apiKeys (authStore w)) ->
  keeps_off row (Act f (fun b => Done (k b))).
Proof. intros Hf w Hw. simpl. destruct (Hf w) as [E1 E2]. destruct (f w) as [b w']. by apply (off_same row (authStore w)). Qed.

(** A write through the pointer of a row. *)
Lemma off_put q f s : (forall k, KID (f k) = KID k /\ KeyHash (f k) = KeyHash k) ->
  (KeyHash (key_at s q) = hash -> KEnabled (key_at s q) = false -> KEnabled (f (key_at s q)) = false) ->
  off s -> off (put_key q (f (key_at s q)) s).
Proof.
  intros Hf He Hs i q' Hq. destruct (Hs i q' Hq) as (Hl & Hi & Hh). unfold put_key. simpl.
  rewrite length_insert. split; [done|]. unfold key_at in *. simpl. destruct (decide (q = q')) as [->|Hn].
  - rewrite list_lookup_insert_eq by done. simpl. rewrite (proj1 (Hf _)), (proj2 (Hf _)).
    split; [done|]. intros E. destruct (Hh E) as (? & ? & ?). auto.
  - by rewrite list_lookup_insert_ne.
Qed.

Lemma off_create t key s : KeyHash key <> hash -> off s -> off (snd (MemUsers.CreateAPIKey t key s)).
Proof.
  intros Hn Hs. unfold MemUsers.CreateAPIKey. destruct (apiKeysByHash s !! _); [done|]. cbn [snd].
  set (k := if bool_decide _ then nextAPIKeyID s else _). intros i q. simpl. rewrite length_app. simpl.
  intros [[<- <-]|[_ Hq]]%lookup_insert_Some.
  - split; [lia|]. unfold key_at. simpl. by rewrite list_lookup_middle.
  - destruct (Hs i q Hq) as (Hl & Hi & Hh). split; [lia|]. unfold key_at in *. simpl. by rewrite lookup_app_l.
Qed.

Lemma off_delete i s : off s -> off (snd (MemUsers.DeleteAPIKey i s)).
Proof.
  intros Hs. unfold MemUsers.DeleteAPIKey. destruct (apiKeys s !! i); [|done]. intros j q. simpl.
  intros [_ Hq]%lookup_delete_Some. exact (Hs j q Hq).
Qed.

Lemma off_last_used t i s : off s -> off (snd (MemUsers.UpdateAPIKeyLastUsed t i s)).
Proof.
  intros Hs. unfold MemUsers.UpdateAPIKeyLastUsed. destruct (apiKeys s !! i) as [q|]; [|done].
  by apply (off_put q (fun k => {| k with LastUsed := Some t |})).
Qed.

(** Storing a record that is in its row changes nothing. *)
Lemma off_update i q s : off_at (Some (i, q)) s -> off_at (Some (i, q)) (snd (MemUsers.UpdateAPIKey q s)).
Proof.
  intros [Hs Hq]. destruct (Hs i q Hq) as (_ & Hi & _). unfold MemUsers.UpdateAPIKey. rewrite Hi, Hq.
  rewrite decide_True by done. cbn [snd]. apply (off_same _ s); simpl; [done|by rewrite insert_id|by split].
Qed.

(** ** The calls *)

Lemma keeps_ret row {A} (a : A) : keeps_off row (retp a).
Proof. apply keeps_done. Qed.
Lemma keeps_throw row {A} (err : error) : keeps_off row (A := A) (throw err).
Proof. apply keeps_done. Qed.

(** A call to the store. *)
Lemma keeps_store row {A} (f : AuthStore -> result A * AuthStore) :
  (forall s, off_at row s -> off_at row (snd (f s))) -> keeps_off row (request (on_store f)).
Proof. intros Hf w Hw. rewrite exec_on_store. by apply Hf. Qed.

Lemma keeps_put_user row p f : keeps_off row (set_user p f).
Proof. by apply (keeps_action _ _ Ok). Qed.

(** Goes through a method whose actions leave the keys of the store alone. *)
Ltac keeps :=
  repeat match goal with
  | |- keeps_off _ (retp _) => apply keeps_ret
  | |- keeps_off _ (throw _) => apply keeps_throw
  | |- keeps_off _ (bindp _ _) => apply keeps_bind; [|intros ?]
  | |- keeps_off _ (tryp _) => apply keeps_try
  | |- keeps_off _ (forp _ _) => apply keeps_for; intros ? ?
  | |- keeps_off _ (set_user _ _) => apply keeps_put_user
  | |- keeps_off _ (if decide ?P then _ else _) => destruct (decide P)
  | |- keeps_off _ (if ?b then _ else _) => destruct b
  | |- keeps_off _ (match ?x with _ => _ end) => destruct x
  | |- keeps_off _ (hash_password _ _ _ _) => unfold hash_password
  | |- keeps_off _ (request (on_store (MemUsers.CreateUser _ _))) => apply keeps_store; intros ?; unfold MemUsers.CreateUser; repeat case_match; apply off_same
  | |- keeps_off _ (request (on_store (MemUsers.UpdateUser _ _))) => apply keeps_store; intros ?; unfold MemUsers.UpdateUser; repeat case_match; apply off_same
  | |- keeps_off _ (request (on_store (MemUsers.DeleteUser _))) => apply keeps_store; intros ?; unfold MemUsers.DeleteUser; repeat case_match; apply off_same
  | |- keeps_off _ (request (ask_store _)) => apply (keeps_action _ _ (fun r => r))
  | |- keeps_off _ (atomic _) => apply (keeps_action _ _ Ok)
  | |- keeps_off _ _ => progress unfold load_user, load_key, key_cache_load, key_cache_store, key_cache_delete,
      key_cache_range, cred_cache_load, cred_cache_store, cred_cache_delete, cred_cache_range, spawn_last_used,
      GetUserByID, GetUserByUsername, ListUsers, GetAPIKeyByID, ListAPIKeys, ListAPIKeysByUserID
  | |- _ => done
  end.

Lemma keeps_CreateUser row e salt req : keeps_off row (CreateUser c e salt req).
Proof. unfold CreateUser. keeps. Qed.

Lemma keeps_invalidateUserCredCacheByID row e i : keeps_off row (invalidateUserCredCacheByID e i).
Proof. unfold invalidateUserCredCacheByID. keeps. Qed.

Lemma keeps_UpdateUser row e salt i updates : keeps_off row (UpdateUser c e salt i updates).
Proof. unfold UpdateUser, applyUserUpdate. keeps; apply keeps_invalidateUserCredCacheByID. Qed.

Lemma keeps_DeleteUser row e i : keeps_off row (DeleteUser e i).
Proof. unfold DeleteUser. keeps; apply keeps_invalidateUserCredCacheByID. Qed.

Lemma keeps_ChangePassword row e salt i old new : keeps_off row (ChangePassword c e salt i old new).
Proof. unfold ChangePassword. keeps; apply keeps_invalidateUserCredCacheByID. Qed.

Lemma keeps_ValidateCredentials row e name password : keeps_off row (ValidateCredentials c sv e name password).
Proof. unfold ValidateCredentials, cachedCredentials. keeps. Qed.

Lemma keeps_BootstrapAdmin row e e' salt name password email : keeps_off row (BootstrapAdmin c e e' salt name password email).
Proof. unfold BootstrapAdmin. keeps; apply keeps_CreateUser. Qed.

Lemma keeps_dropCachedKey row i entries : keeps_off row (dropCachedKey i entries).
Proof. induction entries as [|[h p] entries IH]; cbn [dropCachedKey]; [apply keeps_ret|]. keeps. Qed.

Lemma keeps_invalidateAPIKeyCache row e i : keeps_off row (invalidateAPIKeyCache e i).
Proof. unfold invalidateAPIKeyCache. keeps. apply keeps_dropCachedKey. Qed.

Lemma keeps_keysByHash row keys m : keeps_off row (keysByHash keys m).
Proof. revert m. induction keys as [|k keys IH]; intros m; cbn [keysByHash]; [apply keeps_ret|]. keeps. Qed.

Lemma keeps_refreshAPIKeyCache row e : keeps_off row (refreshAPIKeyCache e).
Proof. unfold refreshAPIKeyCache. keeps. apply keeps_keysByHash. Qed.

Lemma keeps_ValidateAPIKey row e rawKey : keeps_off row (ValidateAPIKey c sv e rawKey).
Proof. unfold ValidateAPIKey, lookupAPIKey. keeps. Qed.

Lemma keeps_CreateAPIKey e keyBytes req :
  (forall bytes, keyBytes = Ok bytes -> hashAPIKey c sv (key_text sv bytes) <> hash) ->
  keeps_off None (CreateAPIKey c sv e keyBytes req).
Proof.
  intros Hn. unfold CreateAPIKey. keeps. apply keeps_store. intros s [Hs _]. split; [|done].
  apply off_create; [|done]. exact (Hn _ eq_refl).
Qed.

Lemma keeps_DeleteAPIKey e i : keeps_off None (DeleteAPIKey e i).
Proof.
  unfold DeleteAPIKey. apply keeps_bind; [apply keeps_invalidateAPIKeyCache|]. intros _. apply keeps_store.
  intros s [Hs _]. split; [by apply off_delete|done].
Qed.

Lemma keeps_last_used t i : keeps_off None (last_used_goroutine t i).
Proof.
  unfold last_used_goroutine. apply keeps_bind; [apply keeps_try|intros r; apply keeps_ret].
  intros w [Hw _]. rewrite exec_request. destruct (pending w !! i) as [j|]; [|done]. unfold on_store. simpl.
  pose proof (off_last_used t j (authStore w) Hw) as Ho. by destruct (MemUsers.UpdateAPIKeyLastUsed t j (authStore w)).
Qed.

(** The writes of an update: through the pointer of a row. *)
Lemma keeps_set_key i q f : (forall k, KID (f k) = KID k /\ KeyHash (f k) = KeyHash k) ->
  (i <> id \/ forall k, KEnabled k = false -> KEnabled (f k) = false) -> keeps_off (Some (i, q)) (set_key q f).
Proof.
  intros Hf Hid w [Hw Hq]. rewrite exec_set_key. split; [|done]. apply off_put; [done| |done].
  intros E He. destruct Hid as [Hid|Hid]; [|auto]. by destruct (Hw i q Hq) as (_ & _ & (_ & ? & _)).
Qed.

Lemma keeps_found {B} i (k : ptr -> proc World B) :
  (forall q, keeps_off (Some (i, q)) (k q)) -> keeps_off None (bindp (GetAPIKeyByID i) k).
Proof.
  intros Hk w [Hw _]. rewrite exec_bindp. unfold GetAPIKeyByID. rewrite exec_ask. unfold MemUsers.GetAPIKeyByID.
  destruct (apiKeys (authStore w) !! i) as [q|] eqn:Eq; [|done]. by destruct (Hk q w (conj Hw Eq)).
Qed.

Lemma keeps_applyKeyUpdate e i q key value : (i = id -> key = "enabled" -> value <> UBool true) ->
  keeps_off (Some (i, q)) (applyKeyUpdate e q (key, value)).
Proof.
  intros Hv. unfold applyKeyUpdate. keeps; apply keeps_set_key; try done; auto.
  destruct (decide (i = id)) as [->|]; [right|by left]. intros k Hk. destruct b; [by destruct Hv|done].
Qed.

Lemma keeps_UpdateAPIKey e i updates : (i = id -> updates !! "enabled" <> Some (UBool true)) ->
  keeps_off None (UpdateAPIKey e i updates).
Proof.
  intros Hu. unfold UpdateAPIKey. apply keeps_found. intros q. apply keeps_bind; [apply keeps_for|intros _; apply keeps_bind].
  - intros [key value] Hin%elem_of_range. apply keeps_applyKeyUpdate. intros Hi -> ->. by apply Hu.
  - apply keeps_store. intros s. apply off_update.
  - intros _. keeps. apply keeps_invalidateAPIKeyCache.
Qed.

Lemma keeps_RevokeAPIKey e i : keeps_off None (RevokeAPIKey e i).
Proof.
  unfold RevokeAPIKey. apply keeps_found. intros q. apply keeps_bind; [by apply keeps_set_key; auto|intros _; apply keeps_bind].
  - apply keeps_store. intros s. apply off_update.
  - intros _. apply keeps_invalidateAPIKeyCache.
Qed.

Lemma keeps_RotateAPIKey e e1 e2 keyBytes i t :
  (forall bytes, keyBytes = Ok bytes -> hashAPIKey c sv (key_text sv bytes) <> hash) ->
  keeps_off None (RotateAPIKey c sv e e1 e2 keyBytes i t).
Proof.
  intros Hn. unfold RotateAPIKey. keeps; [by apply keeps_CreateAPIKey|apply keeps_RevokeAPIKey].
Qed.

Lemma keeps_call {A} (p : proc World A) : spares c sv id hash (Thread p) -> keeps_off None p.
Proof.
  assert (forall t, spares c sv id hash t -> match t with Thread p => keeps_off None p end) as H; [|by apply (H (Thread p))].
  intros t []; first [apply keeps_CreateUser|apply keeps_UpdateUser|apply keeps_DeleteUser|apply keeps_ChangePassword
    |apply keeps_ValidateCredentials|apply keeps_BootstrapAdmin|apply keeps_ValidateAPIKey|apply keeps_DeleteAPIKey
    |apply keeps_RevokeAPIKey|apply keeps_refreshAPIKeyCache|apply keeps_last_used|by apply keeps_CreateAPIKey
    |by apply keeps_UpdateAPIKey|by apply keeps_RotateAPIKey|solve [keeps]].
Qed.

Lemma later_off w w' : off (authStore w) -> later c sv id hash w w' -> off (authStore w').
Proof.
  intros Hw. induction 1 as [|A p w1 r w2 _ IH Hcall E Hsm]; [done|].
  destruct (keeps_call p Hcall w1 (conj IH I)) as [Ho _]. by rewrite E in Ho.
Qed.

(** Such a store refuses the key. *)
Lemma off_rejects t s : keys_ok s -> off s ->
  checkAPIKey t hash s = fail ErrAPIKeyNotFound \/ kept = true /\ checkAPIKey t hash s = fail ErrAPIKeyDisabled.
Proof.
  intros Hk Hs. unfold checkAPIKey. destruct (find_key s hash) as [p|] eqn:Hp; [|by left]. right.
  apply (find_key_Some _ _ _ Hk) in Hp as (k & Hl & Hh & Hr).
  destruct (Hs _ _ Hr) as (_ & _ & He). rewrite (key_at_lookup _ _ _ Hl) in *.
  destruct (He Hh) as (? & _ & ->). done.
Qed.
End later.

(** A store where the key is disabled, or is not. *)
Lemma off_of_store id hash kept s : keys_ok s ->
  match find_key s hash with
  | Some p => kept = true /\ KID (key_at s p) = id /\ KEnabled (key_at s p) = false
  | None => True
  end -> off id hash kept s.
Proof.
  intros Hk Hp i q Hq. pose proof (ok_rows _ _ _ _ _ _ _ Hk _ _ Hq) as (k & Hl & Hi & Hx).
  rewrite (key_at_lookup _ _ _ Hl). split; [by eapply lookup_lt_Some|]. split; [done|]. intros Hh.
  assert (find_key s hash = Some q) as Hf by (apply (find_key_Some _ _ _ Hk); exists k; by rewrite Hi).
  rewrite Hf, (key_at_lookup _ _ _ Hl) in Hp. destruct Hp as (? & <- & ?). done.
Qed.

(** Property C10.  Once a call has revoked or deleted a key it is refused, however
    recently it was cached and whatever calls follow, one after the other - other
    than an update that enables the key again, or a new key with the same hash.
    A revoked key is refused as disabled, or as not found if it is deleted
    later; a deleted one as not found.  (Calls that run at the same time are
    another matter: see [deleted_key_accepted].) *)
Theorem revoked_key_rejected c sv e id p rawKey w :
  served c sv w -> find_key (authStore w) (hashAPIKey c sv rawKey) = Some p ->
  id = KID (key_at (authStore w) p) ->
  (exists w', exec (RevokeAPIKey e id) w = (Ok tt, w') /\
    (forall e', fst (exec (ValidateAPIKey c sv e' rawKey) w') = fail ErrAPIKeyDisabled) /\
    forall w1 e', later c sv id (hashAPIKey c sv rawKey) w' w1 ->
      fst (exec (ValidateAPIKey c sv e' rawKey) w1) ∈ [fail ErrAPIKeyDisabled; fail ErrAPIKeyNotFound]) /\
  (exists w', exec (DeleteAPIKey e id) w = (Ok tt, w') /\
    forall w1 e', later c sv id (hashAPIKey c sv rawKey) w' w1 ->
      fst (exec (ValidateAPIKey c sv e' rawKey) w1) = fail ErrAPIKeyNotFound).
Proof.
  intros Hw Hp Hid. pose proof (proj2 (wo_store _ _ _ (served_ok _ _ _ Hw))) as Hs. split.
  - destruct (RevokeAPIKey_rejects c sv e id p rawKey w Hw Hp Hid) as (w' & E & Hw' & Hf & Hr).
    exists w'. split_and!; [done|done|]. intros w1 e' Hl. pose proof (later_served _ _ _ _ _ _ Hw' Hl) as Hw1.
    rewrite (validate c sv e' rawKey w1 Hw1).
    destruct (off_rejects id (hashAPIKey c sv rawKey) true (now e' 0) (authStore w1)) as [-> |[_ ->]]; [apply (served_ok c sv), Hw1| |set_solver..].
    eapply later_off; [|exact Hl]. apply off_of_store; [apply (served_ok _ _ _ Hw')|]. exact Hf.
  - destruct (DeleteAPIKey_gone id _ p (authStore w) Hs Hp) as [Hok Hgone]; [done|].
    destruct (exec_DeleteAPIKey c e id w (served_ok _ _ _ Hw)) as (cache' & E & _). rewrite Hok in E.
    eexists. split; [exact E|]. intros w1 e' Hl.
    match type of Hl with later _ _ _ _ ?w' _ => assert (served c sv w') as Hw' end.
    { eapply served_call; [exact Hw| |exact E|]; [by constructor|].
      simpl. unfold MemUsers.DeleteAPIKey. case_match; by apply (served_small c sv). }
    rewrite (validate c sv e' rawKey w1) by by eapply later_served.
    destruct (off_rejects id (hashAPIKey c sv rawKey) false (now e' 0) (authStore w1)) as [-> |[? _]]; try done.
    + apply (served_ok c sv). by eapply later_served.
    + eapply later_off; [|exact Hl]. apply off_of_store; [apply (served_ok _ _ _ Hw')|]. simpl in *. by rewrite Hgone.
Qed.

Lemma CreateAPIKey_accepted c sv e keyBytes req w resp w' :
  served c sv w -> small (authStore w') -> exec (CreateAPIKey c sv e keyBytes req) w = (Ok resp, w') ->
  exists p, let k := key_at (authStore w') p in
    (KID k, KRole k, KUserID k, ExpiresAt k) = (RespID resp, ReqKeyRole req, ReqUserID req, ReqExpiresAt req) /\
    forall e', fst (exec (ValidateAPIKey c sv e' (RespKey resp)) w') =
      if decide (ReqExpiresAt req < now e' 0) then fail ErrAPIKeyExpired else Ok p.
Proof.
  intros Hw Hsm E. pose proof (proj2 (wo_store _ _ _ (served_ok _ _ _ Hw))) as Hs.
  pose proof E as (bytes & p & _ & Hh & _ & Hheap & Hp & Hg & _)%CreateAPIKey_cases; [|done].
  assert (key_at (authStore w') p = new_key c sv e req bytes (RespID resp)) as Hk.
  { apply key_at_lookup. rewrite Hheap. by apply list_lookup_middle. }
  exists p. simpl. rewrite Hk. split; [done|]. intros e'. rewrite validate.
  - unfold checkAPIKey. by rewrite Hh, Hg, Hk.
  - eapply served_call; [exact Hw| |exact E|done]. constructor.
Qed.

(** The key that CreateAPIKey returns is accepted until it expires,
    with the role, the owner and the ID it was asked for. *)
Theorem created_key_accepted c sv e keyBytes req w resp w' :
  served c sv w -> small (authStore w') -> exec (CreateAPIKey c sv e keyBytes req) w = (Ok resp, w') ->
  exists p, let k := key_at (authStore w') p in
    (KID k, KRole k, KUserID k, ExpiresAt k) = (RespID resp, ReqKeyRole req, ReqUserID req, ReqExpiresAt req) /\
    forall e', fst (exec (ValidateAPIKey c sv e' (RespKey resp)) w') =
      if decide (ReqExpiresAt req < now e' 0) then fail ErrAPIKeyExpired else Ok p.
Proof. apply CreateAPIKey_accepted. Qed.

(** Rotating a key refuses the old one and hands out a new one of the
    same role and owner, which is accepted until its own expiry. *)
Theorem RotateAPIKey_spec c sv e e1 e2 keyBytes id t p old w resp w' :
  served c sv w -> small (authStore w') ->
  find_key (authStore w) (hashAPIKey c sv old) = Some p -> id = KID (key_at (authStore w) p) ->
  exec (RotateAPIKey c sv e e1 e2 keyBytes id t) w = (Ok resp, w') ->
  (forall e', fst (exec (ValidateAPIKey c sv e' old) w') = fail ErrAPIKeyDisabled) /\
  exists q, let k := key_at (authStore w') q in
    (KRole k, KUserID k) = (KRole (key_at (authStore w) p), KUserID (key_at (authStore w) p)) /\
    forall e', fst (exec (ValidateAPIKey c sv e' (RespKey resp)) w') =
      if decide (t < now e' 0) then fail ErrAPIKeyExpired else Ok q.
Proof.
  intros Hw Hsm Hp -> E. pose proof (proj2 (wo_store _ _ _ (served_ok _ _ _ Hw))) as Hs.
  pose proof (proj1 (find_key_Some _ _ _ Hs) Hp) as (k & Hl & Hh & Hr).
  assert (served c sv w') as Hw' by (eapply served_call; [exact Hw|constructor|exact E|done]).
  revert E. unfold RotateAPIKey, GetAPIKeyByID. rewrite exec_bindp, exec_ask. unfold MemUsers.GetAPIKeyByID.
  rewrite (key_at_lookup _ _ _ Hl), Hr. rewrite exec_bindp, exec_load_key. case_decide; [done|].
  rewrite exec_bindp, exec_load_key, (key_at_lookup _ _ _ Hl), exec_bindp.
  destruct (exec (CreateAPIKey _ _ _ _ _) w) as [[resp1|] w1] eqn:E1; [|done].
  rewrite exec_bindp, exec_tryp. destruct (exec (RevokeAPIKey e2 (KID k)) w1) as [r w2] eqn:E2.
  cbn [exec retp]. intros [= -> ->].
  assert (small (authStore w1) -> served c sv w1) as Hw1.
  { intros Hs1. eapply served_call; [exact Hw|constructor|exact E1|done]. }
  pose proof (RevokeAPIKey_small c sv _ _ _ _ _ Hw1 E2 Hsm) as Hsm1. specialize (Hw1 Hsm1).
  pose proof E1 as (bytes & q & _ & Hhash & Hfree & Hheap & Hq & Hg & Hrows & Hnew & _)%CreateAPIKey_cases; [|done].
  pose proof (lookup_lt_Some _ _ _ Hl) as Hlt.
  assert (find_key (authStore w1) (hashAPIKey c sv old) = Some p) as Hp1.
  { eapply CreateAPIKey_other; eauto. }
  destruct (exec_RevokeAPIKey c e2 (KID k) p w1) as (cache' & E); [by eauto..| |].
  { rewrite Hrows, lookup_insert_ne; [done|]. rewrite Hnew, (ok_next _ _ _ _ _ _ _ Hs).
    pose proof (ok_id _ _ _ _ _ _ _ Hs _ _ Hl) as [-> _]. lia. }
  rewrite E in E2. injection E2 as _ <-. split.
  - intros e'. rewrite validate by done. apply check_revoked; [|done]. apply (served_ok _ _ _ Hw1).
  - exists q. cbn [authStore]. rewrite key_at_revoked_ne by lia.
    assert (key_at (authStore w1) q = _) as -> by (apply key_at_lookup; rewrite Hheap; by apply list_lookup_middle).
    split; [done|]. intros e'. rewrite validate by done. unfold checkAPIKey.
    cbn [authStore]. change (find_key (revoked p ?s) ?h) with (find_key s h).
    rewrite Hhash, Hg, key_at_revoked_ne by lia.
    assert (key_at (authStore w1) q = _) as -> by (apply key_at_lookup; rewrite Hheap; by apply list_lookup_middle).
    done.
Qed.

(** ** A run to evaluate *)

(** Hashes that can be computed: they keep what they hash. *)
Definition toy_crypto : Crypto := MkCrypto
  (fun _ password => Ok ("$" ++ password)) (fun hash password => bool_decide (hash = "$" ++ password))
  (fun x => x) (fun secret x => secret ++ x) Itoa.

Definition cached_service : Service := MkService "" "sr_" 60 60.

(** The environment of a call at time [t]. *)
Definition env_at (t : Z) : env := {| env0 with now := fun _ => t |}.

Definition ann_request : CreateUserRequest := MkCreateUserRequest "ann" "ann@example.org" "secret" "developer" true.
Definition key_request : CreateAPIKeyRequest := MkCreateAPIKeyRequest 1 "ci" "readonly" 100.

Definition world_ann : World := snd (exec (CreateUser toy_crypto (env_at 1) "" ann_request) NewWorld).
Definition world_key : World :=
  snd (exec (CreateAPIKey toy_crypto cached_service (env_at 2) (Ok "abcd") key_request) world_ann).

(** The key that was handed out. *)
Definition raw_key : string := "sr_61626364".

Lemma world_ann_served : served toy_crypto cached_service world_ann.
Proof. apply served_exec; [constructor|constructor|]. by vm_compute. Qed.

Lemma world_key_served : served toy_crypto cached_service world_key.
Proof. apply served_exec; [apply world_ann_served|constructor|]. by vm_compute. Qed.

Lemma ValidateAPIKey_spec_witness :
  fst (exec (ValidateAPIKey toy_crypto cached_service (env_at 50) raw_key) world_key) = Ok 0%nat /\
  fst (exec (ValidateAPIKey toy_crypto cached_service (env_at 101) raw_key) world_key) = fail ErrAPIKeyExpired.
Proof.
  split.
  - rewrite (proj1 (ValidateAPIKey_spec _ _ (env_at 50) raw_key _ world_key_served)). vm_compute. reflexivity.
  - rewrite (proj1 (ValidateAPIKey_spec _ _ (env_at 101) raw_key _ world_key_served)). vm_compute. reflexivity.
Defined.

(** It is refused at once, and when its name has changed since and others were
    listed. *)
Lemma revoked_key_rejected_witness : exists w' w1,
  exec (RevokeAPIKey (env_at 3) 1) world_key = (Ok tt, w') /\
  exec (UpdateAPIKey (env_at 4) 1 {[ "name" := UString "old" ]}) w' = (Ok 0%nat, w1) /\
  fst (exec (ValidateAPIKey toy_crypto cached_service (env_at 4) raw_key) w') = fail ErrAPIKeyDisabled /\
  fst (exec (ValidateAPIKey toy_crypto cached_service (env_at 5) raw_key) w1) ∈ [fail ErrAPIKeyDisabled; fail ErrAPIKeyNotFound].
Proof.
  destruct (revoked_key_rejected toy_crypto cached_service (env_at 3) 1 0%nat raw_key world_key
    world_key_served ltac:(vm_compute; reflexivity) ltac:(vm_compute; reflexivity)) as [(w' & E & Hv & Hl) _].
  set (update := UpdateAPIKey (env_at 4) 1 {[ "name" := UString "old" ]}).
  assert (w' = snd (exec (RevokeAPIKey (env_at 3) 1) world_key)) as Ew by (by rewrite E).
  exists w', (snd (exec update w')). split; [exact E|]. split; [|split].
  - rewrite Ew. vm_compute. reflexivity.
  - apply Hv.
  - apply Hl. refine (later_call _ _ _ _ _ update w' _ _ (later_now _ _ _ _ _) _ (surjective_pairing _) _).
    + constructor. intros _. apply (bool_decide_unpack _). vm_compute. exact I.
    + rewrite Ew. unfold small. split; vm_compute; reflexivity.
Defined.

Lemma exec_parts {A} (p : proc World A) w a : fst (exec p w) = Ok a -> exec p w = (Ok a, snd (exec p w)).
Proof. intros <-. apply surjective_pairing. Qed.

Definition key_response : CreateAPIKeyResponse :=
  MkCreateAPIKeyResponse 1 raw_key "61626364" "ci" "readonly" 1 true 2 100.

Lemma created_key_accepted_witness : exists p,
  fst (exec (ValidateAPIKey toy_crypto cached_service (env_at 50) raw_key) world_key) = Ok p.
Proof.
  destruct (created_key_accepted toy_crypto cached_service (env_at 2) (Ok "abcd") key_request world_ann
    key_response world_key world_ann_served) as (p & _ & H).
  - by vm_compute.
  - apply exec_parts. vm_compute. reflexivity.
  - exists p. apply (H (env_at 50)).
Defined.

Definition rotate : proc World CreateAPIKeyResponse :=
  RotateAPIKey toy_crypto cached_service (env_at 3) (env_at 3) (env_at 3) (Ok "wxyz") 1 200.

Definition rotated_response : CreateAPIKeyResponse :=
  MkCreateAPIKeyResponse 2 "sr_7778797a" "7778797a" "ci (rotated 3)" "readonly" 1 true 3 200.

Lemma RotateAPIKey_spec_witness :
  fst (exec (ValidateAPIKey toy_crypto cached_service (env_at 4) raw_key) (snd (exec rotate world_key))) =
    fail ErrAPIKeyDisabled.
Proof.
  refine (proj1 (RotateAPIKey_spec toy_crypto cached_service (env_at 3) (env_at 3) (env_at 3) (Ok "wxyz") 1 200 0%nat raw_key
    world_key rotated_response _ world_key_served _ _ _ _) (env_at 4)).
  - by vm_compute.
  - vm_compute. reflexivity.
  - vm_compute. reflexivity.
  - apply exec_parts. vm_compute. reflexivity.
Defined.

(** Ann is made, and an administrator, by two clients at a time. *)
Definition two_clients : list (thread World) :=
  [Thread (CreateUser toy_crypto (env_at 1) "" ann_request);
   Thread (BootstrapAdmin toy_crypto (env_at 1) (env_at 1) "" "root" "pw" "")].

Lemma interleaved_calls_ok_witness :
  world_ok true toy_crypto (snd (schedule [1;0;1;1]%nat two_clients NewWorld)).
Proof.
  apply (interleaved_calls_ok toy_crypto cached_service (fst (schedule [1;0;1;1]%nat two_clients NewWorld))); [|by vm_compute].
  rewrite <- surjective_pairing. etrans; [|apply schedule_interleaves].
  apply (interleaves_starts _ [] two_clients). repeat constructor.
Defined.

(** The administrator is made although Ann is there by then. *)
Example bootstrap_race :
  let w := snd (schedule [1;0;1;1]%nat two_clients NewWorld) in
  (URole (user_at (authStore w) 0%nat), URole (user_at (authStore w) 1%nat)) = ("developer", "super_admin").
Proof. vm_compute. done. Qed.

(** A validation that has read the key before it is deleted puts it back into the
    cache afterwards: the deleted key goes on being accepted. *)
Example deleted_key_accepted :
  let cold := {| world_key with apiKeyCache := ∅ |} in
  let threads := [Thread (ValidateAPIKey toy_crypto cached_service (env_at 3) raw_key); Thread (DeleteAPIKey (env_at 3) 1)] in
  let '(_, w) := schedule [0;0;1;1;0;0;0;0;0]%nat threads cold in
  apiKeys (authStore w) = ∅ /\
  fst (exec (ValidateAPIKey toy_crypto cached_service (env_at 4) raw_key) w) = Ok 0%nat.
Proof. vm_compute. done. Qed.

(** A key outlives the user it belongs to. *)
Example key_outlives_user :
  let w := snd (exec (DeleteUser (env_at 3) 1) world_key) in
  users (authStore w) = ∅ /\ is_ok (fst (exec (ValidateAPIKey toy_crypto cached_service (env_at 4) raw_key) w)) = true.
Proof. vm_compute. done. Qed.
