(* ===== verification/AuthLogins.v ===== *)
(** * Logins and the first administrator

    A changed password is refused at once, and so is a deleted user; the first
    administrator is made once. *)
From S2P Require Import Prelude GoStrings GoHex StorageTypes Procs MemUsers Rbac AuthService AuthInvariant AuthSafe AuthFacts.
From Stdlib Require Import Ascii String.

Local Open Scope Z_scope.
Local Open Scope proc_scope.
Local Open Scope string_scope.

(** ** Logins *)

(** What is cached under the key of a login is a login of that user: no login of
    another one has the same key, by a collision of SHA-256 or because a name
    holds a colon. *)
Definition own_login (c : Crypto) (w : World) (name password : string) : Prop :=
  forall q t, userCredCache w !! userCredCacheKey c name password = Some (q, t) ->
    UUsername (user_at (authStore w) q) = name.

(** It is so where the hash has no collision and names no colon. *)
Definition collision_free (c : Crypto) : Prop := forall x y, sha256 c x = sha256 c y -> x = y.

Definition no_colon (name : string) : Prop := contains_byte ":" name = false.

Lemma append_colon_inj a b x y : no_colon a -> no_colon b -> a ++ ":" ++ x = b ++ ":" ++ y -> a = b /\ x = y.
Proof.
  unfold no_colon. revert b. induction a as [|u a IH]; intros [|v b] Ha Hb E; simpl in *.
  - by injection E as ->.
  - injection E as <- _. done.
  - injection E as -> _. done.
  - injection E as -> E. apply orb_false_iff in Ha as [_ Ha], Hb as [_ Hb].
    destruct (IH b Ha Hb E) as [-> ->]. done.
Qed.

Lemma EncodeToString_inj s t : EncodeToString s = EncodeToString t -> s = t.
Proof. intros E. apply (inj Some). by rewrite <- !hex_roundtrip, E. Qed.

Lemma cache_key_inj c name name' pw pw' :
  collision_free c -> no_colon name -> no_colon name' ->
  userCredCacheKey c name pw = userCredCacheKey c name' pw' -> name = name' /\ pw = pw'.
Proof. intros Hc Hn Hn' E%EncodeToString_inj%Hc. by apply append_colon_inj. Qed.

Section logins.
Context (c : Crypto) (sv : Service).
Implicit Types (w : World) (e : env).

(** The service without a cache. *)
Definition checkLogin (name password : string) (s : AuthStore) : result ptr :=
  match find_user s name with
  | None => fail ErrUserNotFound
  | Some p =>
      if negb (UEnabled (user_at s p)) then fail ErrUserDisabled
      else if negb (bcryptCompare c (PasswordHash (user_at s p)) password) then fail ErrUserNotFound
      else Ok p
  end.

Lemma exec_login_uncached e name password w :
  userCredCache w !! userCredCacheKey c name password = None ->
  fst (exec (ValidateCredentials c sv e name password) w) = checkLogin name password (authStore w).
Proof.
  intros Hn. unfold ValidateCredentials, cachedCredentials, checkLogin.
  rewrite !exec_bindp. simpl. rewrite Hn. simpl. rewrite GetUserByUsername_find.
  destruct (find_user (authStore w) name) as [p|]; [|done]. simpl.
  destruct (negb (UEnabled (user_at (authStore w) p))); [done|]. simpl. by destruct (negb (bcryptCompare _ _ _)).
Qed.

Lemma distinct_own_login name password w :
  world_ok false c w -> collision_free c -> no_colon name ->
  (forall q u, userHeap (authStore w) !! q = Some u -> no_colon (UUsername u)) -> own_login c w name password.
Proof.
  intros Hw Hc Hname Hcolon q t Hq. apply (wo_creds _ _ _ Hw) in Hq as (name' & pw' & (u & Hl & Hn & _) & Hkey).
  rewrite (user_at_lookup _ _ _ Hl), Hn. apply cache_key_inj in Hkey as [<- _]; [done..|]. rewrite <- Hn. eauto.
Qed.

(** Once the logins of a user are dropped, none is answered from the cache. *)
Lemma no_login_cached id cache' name password p w :
  world_ok false c w -> own_login c w name password ->
  find_user (authStore w) name = Some p -> UID (user_at (authStore w) p) = id ->
  logins_without id cache' w -> cache' !! userCredCacheKey c name password = None.
Proof.
  intros Hw Hown Hp Hid [Hsub Hno]. destruct (cache' !! _) as [[q t]|] eqn:E; [|done].
  pose proof (lookup_weaken _ _ _ _ E Hsub) as Hq. pose proof (Hown _ _ Hq) as Hname.
  apply (wo_creds _ _ _ Hw) in Hq as (name' & pw' & (u & Hl & Hn & Hg) & Hkey).
  pose proof (proj1 (find_user_Some _ _ _ (proj1 (wo_store _ _ _ Hw))) Hp) as (v & Hv & Hnv & _).
  rewrite (user_at_lookup _ _ _ Hl), Hn in Hname. subst name'.
  destruct (Hno _ _ _ E). assert (q = p) as ->; [|done]. specialize (Hg eq_refl). congruence.
Qed.

Definition with_password (p : ptr) (hash : string) (t : Z) (s : AuthStore) : AuthStore :=
  put_user p {| (user_at s p) with PasswordHash := hash; UUpdatedAt := t |} s.

Lemma exec_ChangePassword e salt id old new p w w' :
  world_ok false c w -> users (authStore w) !! id = Some p ->
  exec (ChangePassword c e salt id old new) w = (Ok tt, w') ->
  exists hash cache', bcryptGenerate c salt new = Ok hash /\
    bcryptCompare c (PasswordHash (user_at (authStore w) p)) old = true /\
    w' = {| w with userCredCache := cache'; authStore := with_password p hash (now e 1) (authStore w) |} /\
    logins_without id cache' w.
Proof.
  intros Hw Hp. pose proof (wo_store _ _ _ Hw) as Hs. pose proof (ok_rows _ _ _ _ _ _ _ (proj1 Hs) _ _ Hp) as (u & Hl & Hid & _).
  pose proof (lookup_lt_Some _ _ _ Hl) as Hlt.
  unfold ChangePassword, GetUserByID. rewrite exec_bindp, exec_ask. unfold MemUsers.GetUserByID. rewrite Hp.
  rewrite exec_bindp, exec_load_user. destruct (bcryptCompare _ _ old) eqn:Hold; [|done]. simpl negb. cbn iota.
  unfold hash_password. destruct (bcryptGenerate c salt new) as [hash|]; [|done].
  rewrite exec_bindp, exec_set_user, exec_bindp, exec_set_user. cbn [authStore].
  rewrite user_at_put, put_user_twice by done.
  set (s1 := put_user p _ (authStore w)).
  assert (users_ok s1 /\ keys_ok s1) as Hs1.
  { subst s1. by apply (put_user_ok p (fun u => {| u with PasswordHash := hash; UUpdatedAt := now e 0 |})). }
  rewrite exec_bindp, exec_on_store. cbn [authStore]. rewrite UpdateUser_cases; [|done|].
  2: { subst s1. simpl. apply lookup_lt_is_Some_2. by rewrite length_insert. }
  subst s1. rewrite user_at_put, put_user_twice by done. cbn [UID].
  assert (users (authStore w) !! UID (user_at (authStore w) p) = Some p) as Hp'.
  { by rewrite (user_at_lookup _ _ _ Hl), Hid. }
  change (users (put_user p _ (authStore w))) with (users (authStore w)). rewrite Hp'. cbn [fst snd].
  match goal with |- exec (invalidateUserCredCacheByID e id) ?w1 = _ -> _ =>
    destruct (exec_invalidateUserCredCacheByID e id w1) as (cache' & E & Hc) end.
  rewrite E. intros [= <-]. exists hash, cache'. split_and!; [done|done|reflexivity|].
  destruct Hc as [Hsub Hno]. split; [done|]. intros k q t Hq Hqid. apply (Hno _ _ _ Hq). rewrite <- Hqid. simpl.
  destruct (decide (p = q)) as [<-|Hne]; [by rewrite user_at_put|by rewrite user_at_put_ne].
Qed.
End logins.

(** Property C12.  After a successful change of password, which takes the old one,
    exactly the passwords that match the new hash log the user in, if the user is
    enabled, and none if not; after the user is deleted, by the next call, none
    does: whatever logins of the user were cached.  The calls come one after the
    other, and the login tried is one whose cache key no cached login of another
    user shares. *)
Theorem changed_password_rejected c sv e salt id old new p name w w' :
  served c sv w -> find_user (authStore w) name = Some p -> id = UID (user_at (authStore w) p) ->
  exec (ChangePassword c e salt id old new) w = (Ok tt, w') ->
  bcryptCompare c (PasswordHash (user_at (authStore w) p)) old = true /\
  (exists hash, bcryptGenerate c salt new = Ok hash /\
    forall e' password, own_login c w name password ->
      fst (exec (ValidateCredentials c sv e' name password) w') =
        if negb (UEnabled (user_at (authStore w) p)) then fail ErrUserDisabled
        else if bcryptCompare c hash password then Ok p else fail ErrUserNotFound) /\
  (forall e1 e2 password w1, own_login c w name password -> exec (DeleteUser e1 id) w' = (Ok tt, w1) ->
    fst (exec (ValidateCredentials c sv e2 name password) w1) = fail ErrUserNotFound).
Proof.
  intros Hw Hp -> E. pose proof (served_ok _ _ _ Hw) as Hok.
  pose proof (proj1 (find_user_Some _ _ _ (proj1 (wo_store _ _ _ Hok))) Hp) as (u & Hl & Hn & Hr).
  pose proof (lookup_lt_Some _ _ _ Hl) as Hlt.
  rewrite <- (user_at_lookup _ _ _ Hl) in Hr.
  assert (served c sv w') as Hw'.
  { eapply served_call; [exact Hw| |exact E|]; [constructor|].
    eapply exec_ChangePassword in E as (hash & cache' & _ & _ & -> & _); [|done..].
    by apply put_user_small, (served_small c sv). }
  eapply exec_ChangePassword in E as (hash & cache' & Hg & Hold & Heq & Hno); [|done..]. subst w'. split; [done|].
  assert (UID (user_at (with_password p hash (now e 1) (authStore w)) p) = UID (user_at (authStore w) p)) as Hid.
  { unfold with_password. by rewrite user_at_put. }
  split.
  - exists hash. split; [done|]. intros e' password Hown. rewrite exec_login_uncached.
    + unfold checkLogin. cbn [authStore]. change (find_user (with_password p ?h ?t ?s) name) with (find_user s name).
      rewrite Hp. unfold with_password. rewrite user_at_put by done. simpl. destruct (UEnabled _); [simpl|done].
      by destruct (bcryptCompare c hash password).
    + exact (no_login_cached c _ _ _ _ _ _ Hok Hown Hp eq_refl Hno).
  - intros e1 e2 password w1 Hown E1. match type of E1 with exec (DeleteUser _ ?id) ?w2 = _ =>
      destruct (exec_DeleteUser e1 id w2) as (cache1 & E2 & Hno1) end.
    rewrite E2 in E1. injection E1 as _ <-.
    destruct (DeleteUser_gone (UID (user_at (authStore w) p)) name p _ (proj1 (wo_store _ _ _ (served_ok _ _ _ Hw'))))
      as [_ Hgone]; [exact Hp|exact Hid|].
    rewrite exec_login_uncached; [unfold checkLogin; cbn [authStore] in *; by rewrite Hgone|].
    eapply no_login_cached; [exact (served_ok _ _ _ Hw')| |exact Hp|exact Hid|exact Hno1].
    intros q t Hq. cbn [userCredCache authStore] in *. apply (lookup_weaken _ (userCredCache w)), Hown in Hq; [|by apply Hno].
    unfold with_password. destruct (decide (p = q)) as [<-|Hne]; [by rewrite user_at_put|by rewrite user_at_put_ne].
Qed.

(** ** The first administrator *)

Lemma ListUsers_nil e s : MemUsers.ListUsers e s = [] <-> users s = ∅.
Proof.
  unfold MemUsers.ListUsers. assert (merge_sort (user_before s) (map snd (range e (users s))) ≡ₚ map snd (map_to_list (users s))) as Hp.
  { by rewrite merge_sort_Permutation, (range_perm e). }
  split; intros E.
  - rewrite E in Hp. apply Permutation_nil_l in Hp. apply map_to_list_empty_iff. by destruct (map_to_list (users s)).
  - apply Permutation_nil_r. by rewrite Hp, E, map_to_list_empty.
Qed.

Lemma CreateUser_stored c e salt req p w w' :
  exec (CreateUser c e salt req) w = (Ok p, w') ->
  exists hash, bcryptGenerate c salt (ReqPassword req) = Ok hash /\ find_user (authStore w') (ReqUsername req) = Some p /\
    let u := user_at (authStore w') p in
    (UUsername u, Email u, PasswordHash u, URole u, UEnabled u) =
      (ReqUsername req, ReqEmail req, hash, ReqRole req, ReqEnabled req).
Proof.
  unfold CreateUser. destruct (negb _); [done|]. unfold hash_password.
  destruct (bcryptGenerate c salt (ReqPassword req)) as [hash|]; [|done]. rewrite exec_on_store. unfold MemUsers.CreateUser.
  destruct (usersByUsername (authStore w) !! _); [done|]. intros [= <- <-]. exists hash. split; [done|].
  unfold find_user, find_row, user_at. cbn. rewrite lookup_insert_eq. cbn. rewrite lookup_insert_eq, list_lookup_middle by done.
  done.
Qed.

Lemma CreateUser_failed c e salt req err w w' : exec (CreateUser c e salt req) w = (Err err, w') -> w' = w.
Proof.
  unfold CreateUser. destruct (negb _); [by intros [= _ <-]|]. unfold hash_password.
  destruct (bcryptGenerate c salt (ReqPassword req)) as [hash|]; [|by intros [= _ <-]]. rewrite exec_on_store.
  unfold MemUsers.CreateUser. destruct (usersByUsername (authStore w) !! _); [|done]. intros [= _ <-]. by destruct w.
Qed.

(** BootstrapAdmin makes an enabled super administrator, under the name
    and with the password given, exactly when it reports so: never in a store that
    has users, which it leaves alone, as it does when it fails. *)
Theorem BootstrapAdmin_spec c e e' salt username password email w r w' :
  exec (BootstrapAdmin c e e' salt username password email) w = (r, w') ->
  match r with
  | Ok res =>
      if Created res then
        users (authStore w) = ∅ /\ username <> "" /\ password <> "" /\
        exists p hash, bcryptGenerate c salt password = Ok hash /\ find_user (authStore w') username = Some p /\
          let u := user_at (authStore w') p in
          (UUsername u, PasswordHash u, URole u, UEnabled u) = (username, hash, RoleSuperAdmin, true)
      else w' = w /\ users (authStore w) <> ∅
  | Err _ => w' = w
  end.
Proof.
  unfold BootstrapAdmin, ListUsers. rewrite exec_bindp, exec_atomic. unfold ask_store.
  pose proof (ListUsers_nil e (authStore w)) as Hl. destruct (MemUsers.ListUsers e (authStore w)) as [|p l].
  - case_decide; [by intros [= <- <-]|]. case_decide; [by intros [= <- <-]|]. rewrite exec_bindp, exec_tryp.
    destruct (exec (CreateUser _ _ _ _) w) as [[p|err] w1] eqn:E.
    + rewrite exec_bindp, exec_load_user. intros [= <- <-]. apply CreateUser_stored in E as (hash & Hh & Hf & Hu). cbn in *.
      injection Hu as ? _ ? ? ?. split_and!; [by apply Hl|done..|]. exists p, hash. split_and!; [done..|]. rewrite H1, H2, H3, H4. done.
    + intros [= <- <-]. by apply CreateUser_failed in E.
  - intros [= <- <-]. cbn. split; [done|]. by intros H%Hl.
Qed.

Definition bootstrap : proc World BootstrapResult := BootstrapAdmin toy_crypto (env_at 1) (env_at 1) "" "root" "pw" "".

Lemma BootstrapAdmin_spec_witness :
  exists p, find_user (authStore (snd (exec bootstrap NewWorld))) "root" = Some p.
Proof.
  destruct (BootstrapAdmin_spec toy_crypto (env_at 1) (env_at 1) "" "root" "pw" "" NewWorld
    (Ok (MkBootstrapResult true "root" "bootstrap admin user 'root' created successfully")) (snd (exec bootstrap NewWorld)))
    as (_ & _ & _ & p & hash & _ & Hf & _).
  - apply exec_parts. vm_compute. reflexivity.
  - exists p. exact Hf.
Defined.

(** ** Runs *)

Definition change_password : proc World unit := ChangePassword toy_crypto (env_at 4) "" 1 "secret" "better".

(** After a login with the old password, which is cached. *)
Definition world_login : World :=
  snd (exec (ValidateCredentials toy_crypto cached_service (env_at 3) "ann" "secret") world_ann).

Lemma world_login_served : served toy_crypto cached_service world_login.
Proof. apply served_exec; [apply world_ann_served|constructor|]. by vm_compute. Qed.

Lemma changed_password_rejected_witness :
  fst (exec (ValidateCredentials toy_crypto cached_service (env_at 5) "ann" "secret") (snd (exec change_password world_login)))
    = fail ErrUserNotFound.
Proof.
  destruct (changed_password_rejected toy_crypto cached_service (env_at 4) "" 1 "secret" "better" 0%nat "ann"
    world_login (snd (exec change_password world_login)) world_login_served) as (_ & (hash & [= <-] & H) & _).
  - vm_compute. reflexivity.
  - vm_compute. reflexivity.
  - apply exec_parts. vm_compute. reflexivity.
  - rewrite H; [vm_compute; reflexivity|]. apply distinct_own_login.
    + apply (served_ok _ cached_service), world_login_served.
    + by intros x y.
    + reflexivity.
    + intros q u Hq. vm_compute in Hq. destruct q as [|q]; [|done]. injection Hq as <-. reflexivity.
Defined.

(** The key of a cached login joins name and password with a colon: a user whose
    name has one is answered with another user's record. *)
Example login_of_another_user :
  let ann := MkCreateUserRequest "ann" "" "b:c" "developer" true in
  let both := MkCreateUserRequest "ann:b" "" "c" "admin" true in
  let run {A} (p : proc World A) w := snd (exec p w) in
  let w := run (CreateUser toy_crypto (env_at 1) "" both) (run (CreateUser toy_crypto (env_at 1) "" ann) NewWorld) in
  let login := ValidateCredentials toy_crypto cached_service (env_at 2) in
  fst (exec (login "ann:b" "c") w) = Ok 1%nat /\
  fst (exec (login "ann:b" "c") (run (login "ann" "b:c") w)) = Ok 0%nat.
Proof. vm_compute. done. Qed.

(** Maps visited the other way round, at a time. *)
Definition env_rev (t : Z) : env := {| env_backwards with now := fun _ => t |}.

(** An update that fails has by then changed the stored record, which the caller
    holds by its pointer: here the password, while the old one stays cached. *)
Example failed_update_changes_user :
  let updates := list_to_map [("password", UString "better"); ("role", UString "emperor")] : gmap string UpdateValue in
  let '(r, w) := exec (UpdateUser toy_crypto (env_rev 4) "" 1 updates) world_login in
  is_ok r = false /\ PasswordHash (user_at (authStore w) 0%nat) = "$better" /\
  fst (exec (ValidateCredentials toy_crypto cached_service (env_at 5) "ann" "secret") w) = Ok 0%nat.
Proof. vm_compute. done. Qed.

(** A service that was asked for no caching of logins stores them and never uses
    them; and one name and password are still told from another. *)
Example no_login_cache :
  let sv := MkService "" "" 0 0 in
  let w := snd (exec (ValidateCredentials toy_crypto sv (env_at 3) "ann" "secret") world_ann) in
  size (userCredCache w) = 1%nat /\
  exec (cachedCredentials sv (env_at 3) (userCredCacheKey toy_crypto "ann" "secret")) w
    = (Ok None, {| w with userCredCache := ∅ |}).
Proof. vm_compute. done. Qed.
