(* ===== verification/Ldap.v ===== *)
(** * Logins against a directory: internal/auth/ldap.go

    The directory server is reached through the go-ldap library: what dialling,
    binding and searching answer in the run at hand is a parameter.  TLS and
    timeouts are part of dialling. *)
From S2P Require Import Prelude GoStrings StorageTypes Rbac.
From Stdlib Require Import Ascii String.

Local Open Scope string_scope.

(** ** Strings *)

(** [strings.ReplaceAll(s, "%s", new)]. *)
Fixpoint replace_percent_s (s new : string) : string :=
  match s with
  | EmptyString => EmptyString
  | String a s' =>
      match s' with
      | String b s'' =>
          if Ascii.eqb a "%" && Ascii.eqb b "s" then new ++ replace_percent_s s'' new
          else String a (replace_percent_s s' new)
      | EmptyString => String a EmptyString
      end
  end.

(** ** The directory *)

(** An entry: its DN and what [GetAttributeValues] answers. *)
Record Entry := MkEntry { DN : string; GetAttributeValues : string -> list string }.

Definition GetAttributeValue (e : Entry) (attribute : string) : string :=
  match GetAttributeValues e attribute with v :: _ => v | [] => "" end.

(** The fields of a search request that differ between searches. *)
Record SearchRequest := MkSearchRequest {
  SearchBase : string; SizeLimit : Z; Filter : string; SearchAttributes : list string
}.

(** A search answers as whom the connection is bound to at the time. *)
Record Directory := MkDirectory {
  Dial : option error;
  Bind : string -> string -> option error;
  Search : string -> SearchRequest -> result (list Entry);
  EscapeFilter : string -> string
}.

(** ** The provider *)

(** The fields that are not about TLS or timeouts. *)
Record LDAPConfig := MkLDAPConfig {
  URL : string; BindDN : string; BindPassword : string; BaseDN : string;
  UserSearchFilter : string; UserSearchBase : string;
  GroupSearchFilter : string; GroupSearchBase : string;
  UsernameAttribute : string; EmailAttribute : string; GroupAttribute : string;
  RoleMapping : option (gmap string string); LDAPDefaultRole : string;
  AllowFallback : option bool
}.

Definition or_default (s d : string) : string := if decide (s = "") then d else s.

Definition NewLDAPProvider (cfg : LDAPConfig) : result LDAPConfig :=
  if decide (URL cfg = "") then Err (errors_New "LDAP URL is required")
  else if decide (BindDN cfg = "") then Err (errors_New "LDAP bind DN is required")
  else if decide (BindPassword cfg = "") then Err (errors_New "LDAP bind password is required")
  else Ok {| cfg with
    UserSearchFilter := or_default (UserSearchFilter cfg) "(sAMAccountName=%s)";
    UsernameAttribute := or_default (UsernameAttribute cfg) "sAMAccountName";
    EmailAttribute := or_default (EmailAttribute cfg) "mail";
    GroupAttribute := or_default (GroupAttribute cfg) "memberOf";
    LDAPDefaultRole := or_default (LDAPDefaultRole cfg) "readonly" |}.

(** [extractCN]: the first component that starts with [cn=], in any case. *)
Fixpoint first_cn (parts : list string) : string :=
  match parts with
  | [] => ""
  | part :: parts =>
      let part := TrimSpace part in
      if HasPrefix (ToLower part) "cn=" then drop_str 3 part else first_cn parts
  end.

Definition extractCN (dn : string) : string := first_cn (Split dn ",").

Definition constantTimeEqualFold (a b : string) : bool := bool_decide (ToLower a = ToLower b).

(** The groups in turn: the whole DN, or else a pattern that matches the CN or the
    DN in any case, the map of patterns visited in no order. *)
Fixpoint roleOfGroups (e : env) (mapping : gmap string string) (groups : list string) : option string :=
  match groups with
  | [] => None
  | group :: groups =>
      match mapping !! group with
      | Some role => Some role
      | None =>
          let cn := extractCN group in
          if decide (cn = "") then roleOfGroups e mapping groups
          else
            match List.find (fun '(pattern, _) => constantTimeEqualFold pattern cn || constantTimeEqualFold pattern group)
                    (range e mapping) with
            | Some (_, role) => Some role
            | None => roleOfGroups e mapping groups
            end
      end
  end.

Definition mapGroupsToRole (e : env) (cfg : LDAPConfig) (groups : list string) : string :=
  match RoleMapping cfg with
  | None => LDAPDefaultRole cfg
  | Some mapping => from_opt (LDAPDefaultRole cfg) (roleOfGroups e mapping groups)
  end.

(** One of the two loops of [mergeGroups]: what is seen, and the result so far. *)
Definition mergeStep (st : gset string * list string) (g : string) : gset string * list string :=
  let '(seen, out) := st in
  if decide (ToLower g ∈ seen) then (seen, out) else ({[ToLower g]} ∪ seen, (out ++ [g])%list).

Definition mergeGroups (a b : list string) : list string :=
  snd (fold_left mergeStep b (fold_left mergeStep a (∅, []))).

Section provider.
Context (d : Directory) (cfg : LDAPConfig).

Definition searchUser (bound username : string) : result (option Entry) :=
  let searchBase := if decide (UserSearchBase cfg = "") then BaseDN cfg else UserSearchBase cfg in
  let filter := replace_percent_s (UserSearchFilter cfg) (EscapeFilter d username) in
  match Search d bound (MkSearchRequest searchBase 1 filter
          ["dn"; UsernameAttribute cfg; EmailAttribute cfg; GroupAttribute cfg]) with
  | Err err => Err err
  | Ok [] => Ok None
  | Ok (entry :: _) => Ok (Some entry)
  end.

Definition searchGroups (bound userDN : string) : result (list string) :=
  let filter := replace_percent_s (GroupSearchFilter cfg) (EscapeFilter d userDN) in
  match Search d bound (MkSearchRequest (GroupSearchBase cfg) 0 filter ["dn"]) with
  | Err err => Err err
  | Ok entries => Ok (map DN entries)
  end.

(** The groups of an entry, with those of the group search when there is one. *)
Definition groupsOf (entry : Entry) : result (list string) :=
  let groups := GetAttributeValues entry (GroupAttribute cfg) in
  if decide (GroupSearchBase cfg <> "" /\ GroupSearchFilter cfg <> "") then
    match Bind d (BindDN cfg) (BindPassword cfg) with
    | Some err => Err (Errorf_w "failed to re-bind for group search: " err "")
    | None =>
        match searchGroups (BindDN cfg) (DN entry) with
        | Err err => Err (Errorf_w "group search failed: " err "")
        | Ok searched => Ok (mergeGroups groups searched)
        end
    end
  else Ok groups.

(** [LDAPProvider.Authenticate]. *)
Definition Authenticate (e : env) (username password : string) : result User :=
  if decide (username = "" \/ password = "") then Err (errors_New "username and password are required")
  else
    match Dial d with
    | Some err => Err (Errorf_w "failed to connect to LDAP: " err "")
    | None =>
        match Bind d (BindDN cfg) (BindPassword cfg) with
        | Some err => Err (Errorf_w "failed to bind with service account: " err "")
        | None =>
            match searchUser (BindDN cfg) username with
            | Err err => Err (Errorf_w "user search failed: " err "")
            | Ok None => fail ErrLDAPUserNotFound
            | Ok (Some entry) =>
                match Bind d (DN entry) password with
                | Some _ => fail ErrLDAPInvalidCredentials
                | None =>
                    match groupsOf entry with
                    | Err err => Err err
                    | Ok groups =>
                        Ok (MkUser 0 (or_default (GetAttributeValue entry (UsernameAttribute cfg)) username)
                              (mapGroupsToRole e cfg groups) "ldap")
                    end
                end
            end
        end
    end.
End provider.
