(* ===== verification/Authenticator.v ===== *)
(** * Who is calling: internal/auth/auth.go and internal/api/handlers/account.go

    The authentication middleware tries the configured methods in order; Basic
    logins go through API keys, the directory, the service's users, configured
    users and the htpasswd file.  Verifying a JWT or an OIDC token is up to the
    providers' libraries: a function of the token.  Metrics, audit events and
    logs are left out.  The second half says whom the methods let in. *)
From S2P Require Import Prelude GoBase64 HttpCodes GoStrings StorageTypes Procs MemUsers Rbac AuthService AuthInvariant AuthSafe AuthFacts AuthLogins Ldap.
From Stdlib Require Import Ascii String.

Local Open Scope proc_scope.
Local Open Scope string_scope.

(** ** Stores of internal/auth/apikey_memory.go and htpasswd.go *)

Record memoryAPIKey := MkMemoryAPIKey { mname : string; mhash : string; mrole : string }.

(** A key of the configuration file. *)
Record ConfigAPIKey := MkConfigAPIKey { CfgKeyName : string; CfgKeyHash : string; CfgKeyRole : string }.

Definition isBcryptHash (hash : string) : bool :=
  HasPrefix hash "$2a$" || HasPrefix hash "$2b$" || HasPrefix hash "$2y$".

(** Quotes a name as [%q] does for names without special characters. *)
Definition quoted (s : string) : string := String "034" (s ++ String "034" "").

Fixpoint memoryKeys (i : nat) (keys : list ConfigAPIKey) : result (list memoryAPIKey) :=
  match keys with
  | [] => Ok []
  | k :: keys =>
      if decide (CfgKeyName k = "") then
        Err (errors_New ("API key at index " ++ Itoa (Z.of_nat i) ++ " has empty name"))
      else if decide (CfgKeyHash k = "") then
        Err (errors_New ("API key " ++ quoted (CfgKeyName k) ++ " has empty key_hash"))
      else if negb (isBcryptHash (CfgKeyHash k)) then
        Err (errors_New ("API key " ++ quoted (CfgKeyName k) ++
          " has unsupported hash format (only bcrypt is supported)"))
      else if decide (CfgKeyRole k = "") then
        Err (errors_New ("API key " ++ quoted (CfgKeyName k) ++ " has empty role"))
      else
        match memoryKeys (S i) keys with
        | Err err => Err err
        | Ok stored => Ok (MkMemoryAPIKey (CfgKeyName k) (CfgKeyHash k) (CfgKeyRole k) :: stored)
        end
  end.

Definition NewMemoryAPIKeyStore (keys : list ConfigAPIKey) : result (list memoryAPIKey) :=
  match keys with
  | [] => Err (errors_New "no API keys defined in config")
  | _ => memoryKeys 0 keys
  end.

(** [MemoryAPIKeyStore.Validate]: the name and role of the first key that matches. *)
Definition Validate (c : Crypto) (keys : list memoryAPIKey) (key : string) : option (string * string) :=
  match List.find (fun k => bcryptCompare c (mhash k) key) keys with
  | Some k => Some (mname k, mrole k)
  | None => None
  end.

(** One line of an htpasswd file, numbered for the error. *)
Definition htpasswdLine (n : nat) (text : string) (entries : gmap string string) : result (gmap string string) :=
  let line := TrimSpace text in
  let err rest := Err (errors_New ("htpasswd line " ++ Itoa (Z.of_nat n) ++ ": " ++ rest)) in
  if decide (line = "") then Ok entries
  else if HasPrefix line "#" then Ok entries
  else
    match index_byte ":" line with
    | None => err "invalid format (expected username:hash)"
    | Some i =>
        let username := TrimSpace (take_str i line) in
        let hash := TrimSpace (drop_str (S i) line) in
        if decide (username = "") then err "empty username"
        else if negb (isBcryptHash hash) then
          err ("unsupported hash format for user " ++ quoted username ++ " (only bcrypt is supported)")
        else Ok (<[username := hash]> entries)
    end.

Fixpoint htpasswdLines (n : nat) (lines : list string) (entries : gmap string string) : result (gmap string string) :=
  match lines with
  | [] => Ok entries
  | text :: lines =>
      match htpasswdLine n text entries with
      | Err err => Err err
      | Ok entries => htpasswdLines (S n) lines entries
      end
  end.

(** [LoadHTPasswdFile], given the lines of the file that could be read. *)
Definition LoadHTPasswdLines (lines : list string) : result (gmap string string) :=
  match htpasswdLines 1 lines ∅ with
  | Err err => Err err
  | Ok entries =>
      if decide (entries = ∅) then Err (errors_New "htpasswd file contains no valid entries") else Ok entries
  end.

(** [HTPasswdStore.Verify]. *)
Definition Verify (c : Crypto) (entries : gmap string string) (username password : string) : bool :=
  match entries !! username with
  | None => false
  | Some hash => bcryptCompare c hash password
  end.

(** ** The authenticator *)

(** A key of the configuration, in [Authenticator.apiKeys]. *)
Record APIKey := MkAPIKey {
  AKKey : string; AKName : string; AKUsername : string; AKRole : string; AKDescription : string
}.

(** The fields of [config.AuthConfig] the middleware reads. *)
Record AuthConfig := MkAuthConfig {
  AuthEnabled : bool;
  Methods : list string;
  BasicUsers : gmap string string;
  BasicRealm : string;
  APIKeyHeader : string;
  APIKeyQueryParam : string;
  LDAPFallback : option bool;
  RBACDefaultRole : string
}.

(** The parts that were set; [None] is Go's [nil]. *)
Record Authenticator := MkAuthenticator {
  authConfig : AuthConfig;
  service : option Service;
  ldapProvider : option (Directory * LDAPConfig);
  oidcProvider : option (string -> option User);
  jwtProvider : option (string -> option User);
  configAPIKeys : gmap string APIKey;
  memoryAPIKeys : option (list memoryAPIKey);
  htpasswdStore : option (gmap string string)
}.

(** [AddAPIKey]. *)
Definition AddAPIKey (key : APIKey) (a : Authenticator) : Authenticator :=
  {| a with configAPIKeys := <[AKKey key := key]> (configAPIKeys a) |}.

(** What the middleware reads of a request: [r.Header.Get] and [r.URL.Query().Get]. *)
Record Request := MkRequest { HeaderGet : string -> string; QueryGet : string -> string }.

Section authenticator.
Context (c : Crypto) (a : Authenticator).

Definition api_key_user (key : string) : option User :=
  match memoryAPIKeys a ≫= fun keys => Validate c keys key with
  | Some (name, role) => Some (MkUser 0 name role "api_key")
  | None =>
      match configAPIKeys a !! key with
      | Some k => Some (MkUser 0 (AKUsername k) (AKRole k) "api_key")
      | None => None
      end
  end.

Definition authenticateAPIKeyValue (e : env) (key : string) : proc World (option User) :=
  match service a with
  | None => retp (api_key_user key)
  | Some sv =>
      let* r := tryp (ValidateAPIKey c sv e key) in
      match r with
      | Err _ => retp (api_key_user key)
      | Ok apiKey =>
          let* k := load_key apiKey in
          let* username :=
            if decide (0 < KUserID k)%Z then
              let* u := tryp (GetUserByID (KUserID k)) in
              match u with
              | Ok user => let* u := load_user user in retp (UUsername u)
              | Err _ => retp (KName k)
              end
            else retp (KName k) in
          let* k := load_key apiKey in
          retp (Some (MkUser (KID k) username (KRole k) "api_key"))
      end
  end.

(** The login with a name and a password once the directory has had its say. *)
Definition loginUser (e : env) (authMethod username password : string) : proc World (option User) :=
  let fallback :=
    match BasicUsers (authConfig a) !! username with
    | Some storedHash =>
        if bcryptCompare c storedHash password then
          Some (MkUser 0 username (RBACDefaultRole (authConfig a)) authMethod)
        else None
    | None => None
    end in
  let htpasswd :=
    match fallback, htpasswdStore a with
    | Some user, _ => Some user
    | None, Some entries =>
        if Verify c entries username password then
          Some (MkUser 0 username (RBACDefaultRole (authConfig a)) authMethod)
        else None
    | None, None => None
    end in
  match service a with
  | None => retp htpasswd
  | Some sv =>
      let* r := tryp (ValidateCredentials c sv e username password) in
      match r with
      | Err _ => retp htpasswd
      | Ok user =>
          let* u := load_user user in
          retp (Some (MkUser (UID u) (UUsername u) (URole u) authMethod))
      end
  end.

(** What the directory decides: a user, no login at all, or that the login goes on
    with the method's name. *)
Definition ldapLogin (e : env) (username password : string) : option User + option string :=
  match ldapProvider a with
  | None => inr (Some "basic")
  | Some (d, cfg) =>
      match Authenticate d cfg e username password with
      | Ok user => inl (Some user)
      | Err err =>
          if decide (LDAPFallback (authConfig a) = Some false) then inr None
          else if errors_Is err ErrLDAPInvalidCredentials then inr None
          else inr (Some "ldap_fallback")
      end
  end.

Definition basic_credentials (r : Request) : option (string * string) :=
  let auth := HeaderGet r "Authorization" in
  if negb (HasPrefix auth "Basic ") then None
  else
    match GoBase64.DecodeString (drop_str 6 auth) with
    | None => None
    | Some decoded =>
        match index_byte ":" decoded with
        | None => None
        | Some i => Some (take_str i decoded, drop_str (S i) decoded)
        end
    end.

Definition authenticateBasic (e e' : env) (r : Request) : proc World (option User) :=
  match basic_credentials r with
  | None => retp None
  | Some (username, password) =>
      let* byKey := if decide (username = "") then retp None else authenticateAPIKeyValue e username in
      match byKey with
      | Some user => retp (Some user)
      | None =>
          if decide (password = "") then retp None
          else
            match ldapLogin e' username password with
            | inl user => retp user
            | inr None => retp None
            | inr (Some authMethod) => loginUser e' authMethod username password
            end
      end
  end.

Definition request_key (r : Request) : string :=
  let cfg := authConfig a in
  let key := if decide (APIKeyHeader cfg = "") then "" else HeaderGet r (APIKeyHeader cfg) in
  if decide (key = "" /\ APIKeyQueryParam cfg <> "") then QueryGet r (APIKeyQueryParam cfg) else key.

Definition authenticateAPIKey (e : env) (r : Request) : proc World (option User) :=
  let key := request_key r in
  if decide (key = "") then retp None else authenticateAPIKeyValue e key.

(** [authenticateJWT] and [authenticateOIDC]. *)
Definition authenticateBearer (provider : option (string -> option User)) (r : Request) : option User :=
  match provider with
  | None => None
  | Some verify =>
      let auth := HeaderGet r "Authorization" in
      if negb (HasPrefix auth "Bearer ") then None
      else
        let token := drop_str 7 auth in
        if decide (token = "") then None else verify token
  end.

Definition authenticate (e e' : env) (r : Request) (method : string) : proc World (option User) :=
  if decide (method = "basic") then authenticateBasic e e' r
  else if decide (method = "api_key") then authenticateAPIKey e r
  else if decide (method = "jwt") then retp (authenticateBearer (jwtProvider a) r)
  else if decide (method = "oidc") then retp (authenticateBearer (oidcProvider a) r)
  else retp None.

(** The loop over the configured methods. *)
Fixpoint tryMethods (e e' : env) (r : Request) (methods : list string) : proc World (option User) :=
  match methods with
  | [] => retp None
  | method :: methods =>
      let* user := authenticate e e' r method in
      match user with
      | Some user => retp (Some user)
      | None => tryMethods e e' r methods
      end
  end.

(** The [WWW-Authenticate] headers of a refusal. *)
Definition challenges : list string :=
  flat_map (fun method =>
    if decide (method = "basic") then
      ["Basic realm=" ++ quoted (or_default (BasicRealm (authConfig a)) "Schema Registry")]
    else if decide (method = "api_key") then ["API-Key"]
    else if decide (method = "jwt" \/ method = "oidc") then ["Bearer"]
    else []) (Methods (authConfig a)).

(** The request goes on, with the user in its context or without one, or it is
    answered with 401. *)
Inductive outcome :=
  | Serve (user : option User)
  | Challenge (headers : list string).

Definition Middleware (e e' : env) (r : Request) : proc World outcome :=
  if negb (AuthEnabled (authConfig a)) then retp (Serve None)
  else
    let* user := tryMethods e e' r (Methods (authConfig a)) in
    match user with
    | Some user => retp (Serve (Some user))
    | None => retp (Challenge challenges)
    end.
End authenticator.

(** ** The account handlers *)

(** A status with an error code of the API, or what the handler answers. *)
Inductive account_response :=
  | UserResponse (user : ptr)
  | NoContent
  | AccountError (status : Z) (code : Z) (message : string).

(** GET /me *)
Definition GetCurrentUser (user : option User) : proc World account_response :=
  match user with
  | None => retp (AccountError 401 ErrorCodeUnauthorized "Authentication required")
  | Some user =>
      let* r := tryp (AuthService.GetUserByID (UserID user)) in
      match r with
      | Ok fullUser => retp (UserResponse fullUser)
      | Err err =>
          if errors_Is err ErrUserNotFound then retp (AccountError 404 ErrorCodeUserNotFound "User not found")
          else retp (AccountError 500 ErrorCodeInternalServerError "Internal server error")
      end
  end.

(** POST /me/password; [body] is the decoded request, or [None] when it is not one. *)
Definition ChangePasswordHandler (c : Crypto) (e : env) (salt : string) (user : option User)
    (body : option (string * string)) : proc World account_response :=
  match user with
  | None => retp (AccountError 401 ErrorCodeUnauthorized "Authentication required")
  | Some user =>
      if decide (UserID user <= 0)%Z then
        retp (AccountError 400 ErrorCodeInvalidSchema "Cannot change password: user not in database")
      else
        match body with
        | None => retp (AccountError 400 ErrorCodeInvalidSchema "Invalid request body")
        | Some (oldPassword, newPassword) =>
            if decide (oldPassword = "") then
              retp (AccountError 400 ErrorCodeInvalidSchema "Old password is required")
            else if decide (newPassword = "") then
              retp (AccountError 400 ErrorCodeInvalidPassword "New password is required")
            else
              let* r := tryp (ChangePassword c e salt (UserID user) oldPassword newPassword) in
              match r with
              | Ok _ => retp NoContent
              | Err err =>
                  if errors_Is err ErrPermissionDenied then
                    retp (AccountError 403 ErrorCodeForbidden "Current password is incorrect")
                  else if errors_Is err ErrUserNotFound then
                    retp (AccountError 404 ErrorCodeUserNotFound "User not found")
                  else retp (AccountError 500 ErrorCodeInternalServerError "Internal server error")
              end
        end
  end.

(** ** What the authenticator lets in

    An API key gives the role and the owner it was made for; a password the
    directory refuses is refused for good; every request is answered. *)

Local Open Scope Z_scope.

(** What always answers without more ado. *)
Create HintDb answers.

Section facts.
Context (c : Crypto) (a : Authenticator).
Implicit Types (w : World) (e : env).

(** ** API keys *)

(** The name of a key's owner, or the key's own when there is no such user. *)
Definition owner_name (s : AuthStore) (k : APIKeyRecord) : string :=
  if decide (0 < KUserID k) then
    match users s !! KUserID k with Some p => UUsername (user_at s p) | None => KName k end
  else KName k.

Lemma exec_authenticateAPIKeyValue e sv key w :
  served c sv w -> service a = Some sv ->
  exists w', authStore w' = authStore w /\
    exec (authenticateAPIKeyValue c a e key) w =
      (Ok match checkAPIKey (now e 0) (hashAPIKey c sv key) (authStore w) with
          | Ok p => let k := key_at (authStore w) p in
              Some (MkUser (KID k) (owner_name (authStore w) k) (KRole k) "api_key")
          | Err _ => api_key_user c a key
          end, w').
Proof.
  intros Hw Hsv. unfold authenticateAPIKeyValue. rewrite Hsv, exec_bindp, exec_tryp.
  destruct (ValidateAPIKey_cases c sv e key w (served_ok _ _ _ Hw)) as (w' & -> & E).
  destruct (checkAPIKey _ _ _) as [p|err]; [|by exists w'].
  rewrite exec_bindp, exec_load_key, exec_bindp, E. exists w'. split; [done|]. unfold owner_name. case_decide.
  - rewrite exec_bindp, exec_tryp. unfold GetUserByID. rewrite exec_ask, E. unfold MemUsers.GetUserByID.
    destruct (users (authStore w) !! KUserID (key_at (authStore w) p)) as [q|].
    + rewrite exec_bindp, exec_load_user, E. cbn [exec retp]. by rewrite exec_bindp, exec_load_key, E.
    + cbn [exec retp fail]. by rewrite exec_bindp, exec_load_key, E.
  - cbn [exec retp]. by rewrite exec_bindp, exec_load_key, E.
Qed.

(** ** Answers *)

(** A part of the authenticator that always answers. *)
Definition answers_always {A} (p : proc World A) : Prop := forall w, is_ok (fst (exec p w)) = true.

Lemma answers_ret {A} (x : A) : answers_always (retp x).
Proof. done. Qed.

Lemma answers_bind {A B} (p : proc World A) (k : A -> proc World B) :
  answers_always p -> (forall x, answers_always (k x)) -> answers_always (bindp p k).
Proof.
  intros Hp Hk w. rewrite exec_bindp. specialize (Hp w). destruct (exec p w) as [[x|err] w']; [apply Hk|done].
Qed.

Lemma answers_try {A} (p : proc World A) : answers_always (tryp p).
Proof. intros w. rewrite exec_tryp. by destruct (exec p w). Qed.

Lemma answers_load_key p : answers_always (load_key p).
Proof. done. Qed.

Lemma answers_load_user p : answers_always (load_user p).
Proof. done. Qed.

#[local] Hint Resolve answers_ret answers_try answers_load_key answers_load_user : answers.

Ltac answers :=
  repeat match goal with
  | |- answers_always (bindp _ _) => apply answers_bind; [|intros ?]
  | |- answers_always (if ?b then _ else _) => destruct b
  | |- answers_always (match ?x with _ => _ end) => destruct x
  | |- answers_always _ => solve [eauto with answers]
  end.

Lemma answers_authenticateAPIKeyValue e key : answers_always (authenticateAPIKeyValue c a e key).
Proof. unfold authenticateAPIKeyValue. answers. Qed.

#[local] Hint Resolve answers_authenticateAPIKeyValue : answers.

Lemma answers_authenticate e e' r method : answers_always (authenticate c a e e' r method).
Proof.
  unfold authenticate, authenticateBasic, authenticateAPIKey, loginUser. answers.
Qed.

#[local] Hint Resolve answers_authenticate : answers.

Lemma answers_tryMethods e e' r methods : answers_always (tryMethods c a e e' r methods).
Proof. induction methods; cbn [tryMethods]; answers. Qed.

#[local] Hint Resolve answers_tryMethods : answers.

Lemma answers_Middleware e e' r : answers_always (Middleware c a e e' r).
Proof. unfold Middleware. answers. Qed.

(** ** Refusals of the directory *)

(** The directory has had its say against the login. *)
Definition refused (d : Directory) (cfg : LDAPConfig) (e : env) (username password : string) : Prop :=
  exists err, Authenticate d cfg e username password = Err err /\
    (LDAPFallback (authConfig a) = Some false \/ errors_Is err ErrLDAPInvalidCredentials = true).

Lemma refused_ldapLogin d cfg e username password :
  ldapProvider a = Some (d, cfg) -> refused d cfg e username password ->
  ldapLogin a e username password = inr None.
Proof.
  intros Hd (err & E & Hr). unfold ldapLogin. rewrite Hd, E. case_decide; [done|].
  destruct Hr as [Hr|Hr]; [done|]. by rewrite Hr.
Qed.

Lemma api_key_user_method key user : api_key_user c a key = Some user -> Method user = "api_key".
Proof. unfold api_key_user. repeat case_match; try done; by intros [= <-]. Qed.

Lemma exec_authenticateAPIKeyValue_method e key w user w' :
  exec (authenticateAPIKeyValue c a e key) w = (Ok (Some user), w') -> Method user = "api_key".
Proof.
  unfold authenticateAPIKeyValue. destruct (service a) as [sv|].
  - rewrite exec_bindp, exec_tryp. destruct (exec (ValidateAPIKey c sv e key) w) as [[p|err] w1].
    + rewrite exec_bindp, exec_load_key, exec_bindp.
      match goal with |- context [match exec ?q w1 with _ => _ end] => destruct (exec q w1) as [[name|err] w2] end; [|done].
      rewrite exec_bindp, exec_load_key. by intros [= <- _].
    + intros [= E _]. by eapply api_key_user_method.
  - intros [= E _]. by eapply api_key_user_method.
Qed.
End facts.

(** With an API key the caller has the key's role and the name of its
    owner exactly while the service accepts the key, and otherwise what the
    configuration says of it; the store is left as it is. *)
Theorem api_key_login_spec c a e sv key w :
  served c sv w -> service a = Some sv ->
  exists w', authStore w' = authStore w /\
    exec (authenticateAPIKeyValue c a e key) w =
      (Ok match checkAPIKey (now e 0) (hashAPIKey c sv key) (authStore w) with
          | Ok p => let k := key_at (authStore w) p in
              Some (MkUser (KID k) (owner_name (authStore w) k) (KRole k) "api_key")
          | Err _ => api_key_user c a key
          end, w').
Proof. apply exec_authenticateAPIKeyValue. Qed.

(** Property C13.  A Basic login the directory refuses for its password, or for any
    reason when fallback is off, is refused whatever the service, the
    configuration and the htpasswd file hold; only an API key in the place of the
    name gets in. *)
Theorem directory_refusal_final c a e e' r d cfg username password w :
  ldapProvider a = Some (d, cfg) -> basic_credentials r = Some (username, password) ->
  refused a d cfg e' username password ->
  exists user w', exec (authenticateBasic c a e e' r) w = (Ok user, w') /\
    forall u, user = Some u -> Method u = "api_key" /\ username <> "" /\
      fst (exec (authenticateAPIKeyValue c a e username) w) = Ok (Some u).
Proof.
  intros Hd Hr Href. unfold authenticateBasic. rewrite Hr, exec_bindp. case_decide as Hn.
  - cbn [exec retp]. case_decide; [by eexists None, w|]. rewrite (refused_ldapLogin a d cfg) by done. by eexists None, w.
  - pose proof (answers_authenticateAPIKeyValue c a e username w) as Ha.
    destruct (exec (authenticateAPIKeyValue c a e username) w) as [[[u|]|err] w'] eqn:E; [| |done].
    + eexists (Some u), w'. split; [done|]. intros u' [= <-]. split_and!; [|done|done].
      by eapply exec_authenticateAPIKeyValue_method.
    + case_decide; [by eexists None, w'|]. rewrite (refused_ldapLogin a d cfg) by done. by eexists None, w'.
Qed.

(** The middleware answers every request: the handler runs with a user
    in its context, or without one where authentication is off, or the answer is
    401 with a challenge for each configured method. *)
Theorem Middleware_spec c a e e' r w :
  exists o w', exec (Middleware c a e e' r) w = (Ok o, w') /\
    match o with
    | Serve None => AuthEnabled (authConfig a) = false /\ w' = w
    | Serve (Some u) => AuthEnabled (authConfig a) = true /\
        exists method w1 w2, method ∈ Methods (authConfig a) /\
          exec (authenticate c a e e' r method) w1 = (Ok (Some u), w2)
    | Challenge headers => AuthEnabled (authConfig a) = true /\ headers = challenges a
    end.
Proof.
  unfold Middleware. destruct (AuthEnabled (authConfig a)); cbn [negb]; [|by eexists _, w].
  rewrite exec_bindp. pose proof (answers_tryMethods c a e e' r (Methods (authConfig a)) w) as Ha.
  destruct (exec (tryMethods c a e e' r (Methods (authConfig a))) w) as [[[u|]|err] w'] eqn:E; [| |done].
  - eexists _, w'. split; [done|]. split; [done|]. clear Ha. revert w E.
    induction (Methods (authConfig a)) as [|m ms IH]; intros w E; [done|]. cbn [tryMethods] in E.
    rewrite exec_bindp in E. destruct (exec (authenticate c a e e' r m) w) as [[[u'|]|err] w1] eqn:Em; [| |done].
    + cbn [exec retp] in E. injection E as -> ->. exists m, w, w'. split; [left|done].
    + apply IH in E as (m' & w2 & w3 & Hm & E'). exists m', w2, w3. split; [by right|done].
  - by eexists _, w'.
Qed.

(** ** Runs *)

Definition demo_config (methods : list string) (fallback : option bool) : AuthConfig :=
  MkAuthConfig true methods ∅ "" "X-API-Key" "" fallback "".

(** A registry with the service of [cached_service] and perhaps a directory. *)
Definition demo (directory : option Directory) (fallback : option bool) : Authenticator :=
  let ldap := MkLDAPConfig "ldap://d" "cn=registry" "pw" "dc=org" "(uid=%s)" "" "" "" "uid" "mail" "memberOf" None "readonly" fallback in
  MkAuthenticator (demo_config ["basic"; "api_key"] fallback) (Some cached_service)
    (option_map (fun d => (d, ldap)) directory) None None ∅ None None.

(** A directory that knows Ann, with another password than the registry. *)
Definition directory_of_ann : Directory := MkDirectory None
  (fun dn password => if decide (dn = "uid=ann" /\ password <> "castle") then Some (errors_New "bind") else None)
  (fun _ req => Ok (if decide (Filter req = "(uid=ann)") then [MkEntry "uid=ann" (fun _ => ["ann"])] else []))
  (fun s => s).

Definition directory_down : Directory := MkDirectory (Some (errors_New "connection refused"))
  (fun _ _ => None) (fun _ _ => Ok []) (fun s => s).

(** The login [ann:secret], and one with a key in a header. *)
Definition login_request : Request :=
  MkRequest (fun h => if decide (h = "Authorization") then "Basic " ++ GoBase64.EncodeToString "ann:secret" else "") (fun _ => "").
Definition key_header : Request :=
  MkRequest (fun h => if decide (h = "X-API-Key") then raw_key else "") (fun _ => "").

Lemma api_key_login_spec_witness :
  fst (exec (authenticateAPIKeyValue toy_crypto (demo None None) (env_at 50) raw_key) world_key)
    = Ok (Some (MkUser 1 "ann" "readonly" "api_key")).
Proof.
  destruct (api_key_login_spec toy_crypto (demo None None) (env_at 50) cached_service raw_key world_key world_key_served eq_refl)
    as (w' & _ & E). rewrite E. vm_compute. reflexivity.
Defined.

Lemma directory_refusal_final_witness : exists user w',
  exec (authenticateBasic toy_crypto (demo (Some directory_of_ann) None) (env_at 5) (env_at 5) login_request) world_ann = (Ok user, w') /\
  forall u, user = Some u -> Method u = "api_key".
Proof.
  destruct (directory_refusal_final toy_crypto (demo (Some directory_of_ann) None) (env_at 5) (env_at 5) login_request
    directory_of_ann (MkLDAPConfig "ldap://d" "cn=registry" "pw" "dc=org" "(uid=%s)" "" "" "" "uid" "mail" "memberOf" None "readonly" None)
    "ann" "secret" world_ann) as (user & w' & E & H).
  - reflexivity.
  - vm_compute. reflexivity.
  - exists (sentinel_err ErrLDAPInvalidCredentials). split; [vm_compute; reflexivity|right; vm_compute; reflexivity].
  - exists user, w'. split; [exact E|]. intros u Hu. apply (H u Hu).
Defined.

(** While the directory cannot be reached, the registry's own password does. *)
Example directory_down_falls_back :
  fst (exec (authenticateBasic toy_crypto (demo (Some directory_down) None) (env_at 5) (env_at 5) login_request) world_ann)
    = Ok (Some (MkUser 1 "ann" "developer" "ldap_fallback")).
Proof. vm_compute. reflexivity. Qed.

(** The [ID] of a caller with an API key is that of the key: GET /me answers with the
    user who happens to have the same number. *)
Example me_is_another_user :
  let run {A} (p : proc World A) w := snd (exec p w) in
  let bob := MkCreateUserRequest "bob" "bob@example.org" "pw" "admin" true in
  let key2 := MkCreateAPIKeyRequest 1 "cd" "readonly" 100 in
  let w := run (CreateAPIKey toy_crypto cached_service (env_at 3) (Ok "wxyz") key2)
             (run (CreateUser toy_crypto (env_at 2) "" bob) world_key) in
  let '(r, w') := exec (authenticateAPIKeyValue toy_crypto (demo None None) (env_at 4) "sr_7778797a") w in
  exists user, r = Ok (Some user) /\ Username user = "ann" /\
    exists p, fst (exec (GetCurrentUser (Some user)) w') = Ok (UserResponse p) /\
      UUsername (user_at (authStore w') p) = "bob".
Proof. vm_compute. eexists. split; [done|]. split; [done|]. by exists 1%nat. Qed.

(** The access check goes by the name of the caller: a readonly key of a super
    administrator may do anything. *)
Example readonly_key_of_super_admin :
  let authorizer := NewAuthorizer (MkRBACConfig true "readonly" ["ann"]) in
  exists user, fst (exec (authenticateAPIKeyValue toy_crypto (demo None None) (env_at 4) raw_key) world_key) = Ok (Some user) /\
    UserRole user = "readonly" /\ HasPermission authorizer (Some user) PermissionAdminWrite = true.
Proof. vm_compute. by eexists. Qed.

(** Role mappings are tried in no order: two patterns that match, two roles. *)
Example role_mapping_order :
  let mapping := <["CI" := "developer"]> (<["ci" := "readonly"]> ∅) : gmap string string in
  let cfg := MkLDAPConfig "" "" "" "" "" "" "" "" "" "" "" (Some mapping) "readonly" None in
  mapGroupsToRole (env_at 0) cfg ["cn=Ci,dc=org"] <> mapGroupsToRole (env_rev 0) cfg ["cn=Ci,dc=org"].
Proof. vm_compute. done. Qed.
