(* ===== verification/AdminHandlers.v ===== *)
(** * The administration handlers (internal/api/handlers/admin.go)

    One definition per route of /admin, over the methods of the authentication
    service; [env]s are those of the handler and of the methods it calls.  A
    record is read through its pointer when it is put into a response; what is
    read for audit records only is left out, and times stay numbers.
    The second half is an invariant of the server under interleavings of requests. *)
From S2P Require Import Prelude GoStrings HttpCodes StorageTypes Procs MemUsers Rbac AuthService AuthInvariant AuthSafe AuthFacts Authenticator.
From S2P Require Ldap.
From Stdlib Require Import Ascii String.

Local Open Scope proc_scope.
Local Open Scope string_scope.

(** ** Requests and responses: internal/api/types/types.go *)

Module Types.
Record CreateUserRequest := MkCreateUserRequest {
  Username : string; Email : string; Password : string; Role : string; Enabled : option bool
}.

Record UpdateUserRequest := MkUpdateUserRequest {
  NewEmail : option string; NewPassword : option string; NewRole : option string; NewEnabled : option bool
}.

Record CreateAPIKeyRequest := MkCreateAPIKeyRequest {
  Name : string; KeyRole : string; ExpiresIn : Z; ForUserID : option Z
}.

Record UpdateAPIKeyRequest := MkUpdateAPIKeyRequest {
  NewName : option string; NewKeyRole : option string; NewKeyEnabled : option bool
}.

Record UserResponse := MkUserResponse {
  RespUserID : Z; RespUsername : string; RespEmail : string; RespUserRole : string; RespUserEnabled : bool;
  RespUserCreatedAt : Z; RespUserUpdatedAt : Z
}.

Record APIKeyResponse := MkAPIKeyResponse {
  KeyID : Z; KeyShownPrefix : string; KeyName : string; KeyRespRole : string; KeyOwner : Z; KeyOwnerName : string;
  KeyEnabled : bool; KeyCreatedAt : Z; KeyExpiresAt : Z; KeyLastUsed : option Z
}.

Record RoleInfo := MkRoleInfo { RoleName : string; Description : string; Permissions : list string }.
End Types.

(** The body of a response; a new key is the service's answer with its owner's name. *)
Inductive AdminBody :=
  | AdminError (code : Z) (message : string)
  | User_ (user : Types.UserResponse)
  | UsersList (users : list Types.UserResponse)
  | APIKey_ (key : Types.APIKeyResponse)
  | APIKeysList (keys : list Types.APIKeyResponse)
  | NewAPIKey (key : CreateAPIKeyResponse) (username : string)
  | RotatedAPIKey (newKey : CreateAPIKeyResponse) (username : string) (revokedID : Z)
  | RolesList (roles : list Types.RoleInfo)
  | Nothing.

Record AdminResponse := MkAdminResponse { AdminStatus : Z; AdminBodyOf : AdminBody }.

Definition writeAdminJSON (status : Z) (data : AdminBody) : AdminResponse := MkAdminResponse status data.
Definition writeAdminError (status code : Z) (message : string) : AdminResponse :=
  MkAdminResponse status (AdminError code message).

Definition internalError (err : error) : AdminResponse :=
  writeAdminError 500 ErrorCodeInternalServerError "Internal server error".
Definition invalidAdminBody : AdminResponse := writeAdminError 400 ErrorCodeInvalidSchema "Invalid request body".
Definition invalidUserID : AdminResponse := writeAdminError 400 ErrorCodeInvalidSchema "Invalid user ID".
Definition invalidAPIKeyID : AdminResponse := writeAdminError 400 ErrorCodeInvalidSchema "Invalid API key ID".
Definition expiresInRequired : AdminResponse :=
  writeAdminError 400 ErrorCodeInvalidSchema "expires_in is required and must be positive (duration in seconds)".

(** The answers to errors of users and of keys. *)
Definition userError (err : error) : AdminResponse :=
  if errors_Is err ErrUserNotFound then writeAdminError 404 ErrorCodeUserNotFound "User not found"
  else if errors_Is err ErrInvalidRole then writeAdminError 400 ErrorCodeInvalidRole (err_text err)
  else internalError err.

Definition apiKeyError (err : error) : AdminResponse :=
  if errors_Is err ErrAPIKeyNotFound then writeAdminError 404 ErrorCodeAPIKeyNotFound "API key not found"
  else internalError err.

Definition updateKeyError (err : error) : AdminResponse :=
  if errors_Is err ErrAPIKeyNotFound then writeAdminError 404 ErrorCodeAPIKeyNotFound "API key not found"
  else if errors_Is err ErrInvalidRole then writeAdminError 400 ErrorCodeInvalidRole (err_text err)
  else internalError err.

(** [parseUserID] and [parseAPIKeyID]: [strconv.ParseInt(s, 10, 64)]. *)
Definition parseID (idStr : string) : option Z := Atoi idStr.

Definition userToResponse (u : UserRecord) : Types.UserResponse :=
  Types.MkUserResponse (UID u) (UUsername u) (Email u) (URole u) (UEnabled u) (UCreatedAt u) (UUpdatedAt u).

Definition permissionsToStrings (perms : list Permission) : list string := perms.

(** [updates[key] = *value] for the fields of a request that are there. *)
Definition set_update {A} (key : string) (f : A -> UpdateValue) (value : option A) (updates : gmap string UpdateValue)
    : gmap string UpdateValue :=
  match value with Some a => <[key := f a]> updates | None => updates end.

Definition userUpdates (req : Types.UpdateUserRequest) : gmap string UpdateValue :=
  set_update "enabled" UBool (Types.NewEnabled req)
    (set_update "role" UString (Types.NewRole req)
       (set_update "password" UString (Types.NewPassword req)
          (set_update "email" UString (Types.NewEmail req) ∅))).

Definition keyUpdates (req : Types.UpdateAPIKeyRequest) : gmap string UpdateValue :=
  set_update "enabled" UBool (Types.NewKeyEnabled req)
    (set_update "role" UString (Types.NewKeyRole req) (set_update "name" UString (Types.NewName req) ∅)).

(** [time.Now().UTC().Add(time.Duration(n) * time.Second)], in nanoseconds. *)
Definition expiry (e : env) (expiresIn : Z) : Z := now e 0 + Int64.wrap (expiresIn * 1000000000).

Section admin.
Context (c : Crypto) (sv : Service) (authorizer : Authorizer).
Implicit Types (user : option User) (id : string).

(** [requireAdminRead] and [requireAdminWrite]: the answer, or the handler goes on. *)
Definition requireAdmin (perm : Permission) (what : string) user (k : proc World AdminResponse) : proc World AdminResponse :=
  match user with
  | None => retp (writeAdminError 401 ErrorCodeUnauthorized "Authentication required")
  | Some _ =>
      if negb (HasPermission authorizer user perm) then retp (writeAdminError 403 ErrorCodeForbidden (what ++ " permission required"))
      else k
  end.

Definition requireAdminRead := requireAdmin PermissionAdminRead "Admin read".
Definition requireAdminWrite := requireAdmin PermissionAdminWrite "Admin write".

(** [v, err := p]: the answer to the error, or the handler goes on. *)
Definition orAnswer {A} (p : proc World A) (onError : error -> AdminResponse) (k : A -> proc World AdminResponse)
    : proc World AdminResponse :=
  let* r := tryp p in
  match r with Err err => retp (onError err) | Ok a => k a end.

(** The name of an owner, empty if there is none. *)
Definition ownerName (userID : Z) : proc World string :=
  let* r := tryp (GetUserByID userID) in
  match r with Ok p => let* u := load_user p in retp (UUsername u) | Err _ => retp "" end.

Definition apiKeyToResponse (p : ptr) : proc World Types.APIKeyResponse :=
  let* k := load_key p in
  let* username := ownerName (KUserID k) in
  let* k := load_key p in
  retp (Types.MkAPIKeyResponse (KID k) (KeyPrefix k) (KName k) (KRole k) (KUserID k) username (KEnabled k) (KCreatedAt k)
          (ExpiresAt k) (LastUsed k)).

(** The loops that build a list of responses. *)
Fixpoint eachp {A B} (f : A -> proc World B) (l : list A) : proc World (list B) :=
  match l with
  | [] => retp []
  | a :: l => let* b := f a in let* bs := eachp f l in retp (b :: bs)
  end.

Definition answerUser (status : Z) (p : ptr) : proc World AdminResponse :=
  let* u := load_user p in retp (writeAdminJSON status (User_ (userToResponse u))).

Definition answerKey (p : ptr) : proc World AdminResponse :=
  let* resp := apiKeyToResponse p in retp (writeAdminJSON 200 (APIKey_ resp)).

(** ** Users *)

(** GET /admin/users *)
Definition ListUsers (e : env) user : proc World AdminResponse :=
  requireAdminRead user
    (orAnswer (AuthService.ListUsers e) internalError (fun users =>
       let* resp := eachp (fun p => let* u := load_user p in retp (userToResponse u)) users in
       retp (writeAdminJSON 200 (UsersList resp)))).

(** POST /admin/users *)
Definition CreateUser (e : env) (salt : string) user (body : option Types.CreateUserRequest) : proc World AdminResponse :=
  requireAdminWrite user
    match body with
    | None => retp invalidAdminBody
    | Some req =>
        if decide (Types.Username req = "") then retp (writeAdminError 400 ErrorCodeInvalidSchema "Username is required")
        else if decide (Types.Password req = "") then retp (writeAdminError 400 ErrorCodeInvalidPassword "Password is required")
        else if decide (Types.Role req = "") then retp (writeAdminError 400 ErrorCodeInvalidRole "Role is required")
        else
          orAnswer
            (AuthService.CreateUser c e salt
               (MkCreateUserRequest (Types.Username req) (Types.Email req) (Types.Password req) (Types.Role req)
                  (from_opt true (Types.Enabled req))))
            (fun err =>
               if errors_Is err ErrUserExists then writeAdminError 409 ErrorCodeUserExists "User already exists"
               else if errors_Is err ErrInvalidRole then writeAdminError 400 ErrorCodeInvalidRole (err_text err)
               else internalError err)
            (answerUser 201)
    end.

(** GET /admin/users/{id} *)
Definition GetUser user id : proc World AdminResponse :=
  requireAdminRead user
    match parseID id with
    | None => retp invalidUserID
    | Some id =>
        orAnswer (GetUserByID id)
          (fun err => if errors_Is err ErrUserNotFound then writeAdminError 404 ErrorCodeUserNotFound "User not found"
                      else internalError err)
          (answerUser 200)
    end.

(** PUT /admin/users/{id} *)
Definition UpdateUser (e : env) (salt : string) user id (body : option Types.UpdateUserRequest) : proc World AdminResponse :=
  requireAdminWrite user
    match parseID id, body with
    | None, _ => retp invalidUserID
    | Some _, None => retp invalidAdminBody
    | Some id, Some req => orAnswer (AuthService.UpdateUser c e salt id (userUpdates req)) userError (answerUser 200)
    end.

(** DELETE /admin/users/{id} *)
Definition DeleteUser (e : env) user id : proc World AdminResponse :=
  requireAdminWrite user
    match parseID id with
    | None => retp invalidUserID
    | Some id =>
        orAnswer (AuthService.DeleteUser e id)
          (fun err => if errors_Is err ErrUserNotFound then writeAdminError 404 ErrorCodeUserNotFound "User not found"
                      else internalError err)
          (fun _ => retp (MkAdminResponse 204 Nothing))
    end.

(** ** API keys *)

(** GET /admin/apikeys, [userIDStr] the user_id of the query *)
Definition ListAPIKeys (e : env) user (userIDStr : string) : proc World AdminResponse :=
  let answer keys :=
    let* resp := eachp apiKeyToResponse keys in retp (writeAdminJSON 200 (APIKeysList resp)) in
  requireAdminRead user
    (if decide (userIDStr = "") then orAnswer (AuthService.ListAPIKeys e) internalError answer
     else match parseID userIDStr with
          | None => retp invalidUserID
          | Some userID => orAnswer (AuthService.ListAPIKeysByUserID e userID) internalError answer
          end).

(** The owner of a new key: the user it is for, or the caller. *)
Definition keyOwner (currentUser : User) (forUserID : option Z) (k : Z -> string -> proc World AdminResponse)
    : proc World AdminResponse :=
  let self :=
    if decide (UserID currentUser <= 0)%Z
    then retp (writeAdminError 400 ErrorCodeInvalidSchema "Cannot create API key: user not in database")
    else k (UserID currentUser) (Username currentUser) in
  match forUserID with
  | Some id =>
      if decide (id <= 0)%Z then self
      else if negb (HasPermission authorizer (Some currentUser) PermissionAdminWrite)
                || negb (bool_decide (UserRole currentUser = RoleSuperAdmin))
      then retp (writeAdminError 403 ErrorCodeForbidden "Only super admins can create API keys for other users")
      else
        orAnswer (GetUserByID id) (fun _ => writeAdminError 400 ErrorCodeUserNotFound "Target user not found")
          (fun p => let* u := load_user p in k (UID u) (UUsername u))
  | None => self
  end.

(** POST /admin/apikeys; [e0] is the handler's environment *)
Definition CreateAPIKey (e0 e : env) (keyBytes : result string) user (body : option Types.CreateAPIKeyRequest)
    : proc World AdminResponse :=
  requireAdminWrite user
    match body, user with
    | None, _ => retp invalidAdminBody
    | Some req, _ =>
        if decide (Types.Name req = "") then retp (writeAdminError 400 ErrorCodeInvalidSchema "Name is required")
        else if decide (Types.KeyRole req = "") then retp (writeAdminError 400 ErrorCodeInvalidRole "Role is required")
        else if decide (Types.ExpiresIn req <= 0)%Z then retp expiresInRequired
        else
          match user with
          | None => retp (writeAdminError 401 ErrorCodeUnauthorized "Authentication required")
          | Some currentUser =>
              keyOwner currentUser (Types.ForUserID req) (fun ownerUserID ownerUsername =>
                orAnswer
                  (AuthService.CreateAPIKey c sv e keyBytes
                     (MkCreateAPIKeyRequest ownerUserID (Types.Name req) (Types.KeyRole req) (expiry e0 (Types.ExpiresIn req))))
                  (fun err =>
                     if errors_Is err ErrInvalidRole then writeAdminError 400 ErrorCodeInvalidRole (err_text err)
                     else if errors_Is err ErrAPIKeyNameExists
                     then writeAdminError 409 ErrorCodeAPIKeyExists "API key name already exists for this user"
                     else internalError err)
                  (fun result => retp (writeAdminJSON 201 (NewAPIKey result ownerUsername))))
          end
    end.

(** GET /admin/apikeys/{id} *)
Definition GetAPIKey user id : proc World AdminResponse :=
  requireAdminRead user
    match parseID id with
    | None => retp invalidAPIKeyID
    | Some id => orAnswer (GetAPIKeyByID id) apiKeyError answerKey
    end.

(** PUT /admin/apikeys/{id} *)
Definition UpdateAPIKey (e : env) user id (body : option Types.UpdateAPIKeyRequest) : proc World AdminResponse :=
  requireAdminWrite user
    match parseID id, body with
    | None, _ => retp invalidAPIKeyID
    | Some _, None => retp invalidAdminBody
    | Some id, Some req => orAnswer (AuthService.UpdateAPIKey e id (keyUpdates req)) updateKeyError answerKey
    end.

(** DELETE /admin/apikeys/{id} *)
Definition DeleteAPIKey (e : env) user id : proc World AdminResponse :=
  requireAdminWrite user
    match parseID id with
    | None => retp invalidAPIKeyID
    | Some id => orAnswer (AuthService.DeleteAPIKey e id) apiKeyError (fun _ => retp (MkAdminResponse 204 Nothing))
    end.

(** POST /admin/apikeys/{id}/revoke *)
Definition RevokeAPIKey (e : env) user id : proc World AdminResponse :=
  requireAdminWrite user
    match parseID id with
    | None => retp invalidAPIKeyID
    | Some id =>
        orAnswer (AuthService.RevokeAPIKey e id) apiKeyError (fun _ =>
        orAnswer (GetAPIKeyByID id) internalError answerKey)
    end.

(** POST /admin/apikeys/{id}/rotate, the body being expires_in *)
Definition RotateAPIKey (e0 e e1 e2 : env) (keyBytes : result string) user id (body : option Z) : proc World AdminResponse :=
  requireAdminWrite user
    match parseID id, body with
    | None, _ => retp invalidAPIKeyID
    | Some _, None => retp invalidAdminBody
    | Some id, Some expiresIn =>
        if decide (expiresIn <= 0)%Z then retp expiresInRequired
        else
          orAnswer (AuthService.RotateAPIKey c sv e e1 e2 keyBytes id (expiry e0 expiresIn)) apiKeyError (fun result =>
            let* username := ownerName (RespUserID result) in
            retp (writeAdminJSON 200 (RotatedAPIKey result username id)))
    end.

(** GET /admin/roles *)
Definition roleInfo (role : Role) (description : string) : Types.RoleInfo :=
  Types.MkRoleInfo role description (permissionsToStrings (GetRolePermissions role)).

Definition ListRoles user : proc World AdminResponse :=
  requireAdminRead user
    (retp (writeAdminJSON 200 (RolesList
       [roleInfo RoleSuperAdmin "Full access to everything including user management";
        roleInfo RoleAdmin "Can manage schemas, configuration, and view admin info";
        roleInfo RoleDeveloper "Can register and read schemas";
        roleInfo RoleReadOnly "Can only read schemas and configuration"]))).
End admin.

(** ** Administration and authentication requests together

    Every handler of /admin, the account handlers, the authentication of requests
    and the background work of the service keep the invariant of users, keys and
    caches, however they interleave. *)
From stdpp Require Import relations.
From Stdlib Require Import String.

Local Open Scope Z_scope.

Section requests.
Context (c : Crypto) (sv : Service) (authorizer : Authorizer).

Abbreviation safely p Q w0 := (safe (Inv true c) (ext true) p (answers Q) w0).
Abbreviation nothing := (fun _ _ => True).

#[local] Hint Resolve safely_throw safely_load_user safely_GetUserByID safely_GetAPIKeyByID safely_ListUsers safely_ListAPIKeys
  safely_ListAPIKeysByUserID safely_CreateUser safely_UpdateUser safely_DeleteUser safely_ChangePassword safely_ValidateCredentials
  safely_CreateAPIKey safely_ValidateAPIKey safely_UpdateAPIKey safely_DeleteAPIKey safely_RevokeAPIKey safely_RotateAPIKey : safely.

Lemma safely_any {A} (p : proc World A) Q w0 : safely p Q w0 -> safely p nothing w0.
Proof. intros H. eapply safe_mono; [exact H|]. by intros [a|e] w. Qed.

Lemma safely_orAnswer {A} (p : proc World A) onError k w0 Q :
  safely p Q w0 -> (forall a w, safely (k a) nothing w) -> safely (orAnswer p onError k) nothing w0.
Proof.
  intros Hp Hk. unfold orAnswer. eapply safely_bind; [apply safely_try, Hp|].
  intros [a|e] w _ _; [apply Hk|by apply safely_ret].
Qed.

Lemma safely_requireAdmin perm what user k w0 : safely k nothing w0 -> safely (requireAdmin authorizer perm what user k) nothing w0.
Proof. intros Hk. unfold requireAdmin. destruct user; [|by apply safely_ret]. destruct (negb _); [by apply safely_ret|done]. Qed.

Lemma safely_eachp {A B} (f : A -> proc World B) l w0 : (forall a w, safely (f a) nothing w) -> safely (eachp f l) nothing w0.
Proof.
  intros Hf. revert w0. induction l as [|a l IH]; intros w0; [by apply safely_ret|]. simpl.
  eapply safely_bind; [apply Hf|]. intros b w _ _. eapply safely_bind; [apply IH|]. intros bs w' _ _. by apply safely_ret.
Qed.

Lemma safely_ownerName id w0 : safely (ownerName id) nothing w0.
Proof. unfold ownerName. safely. Qed.

Lemma safely_apiKeyToResponse p w0 : safely (apiKeyToResponse p) nothing w0.
Proof.
  unfold apiKeyToResponse. eapply safely_bind; [apply safely_load_key|]. intros k w _ _.
  eapply safely_bind; [apply safely_ownerName|]. intros name w' _ _.
  eapply safely_bind; [apply safely_load_key|]. intros k' w'' _ _. by apply safely_ret.
Qed.

Lemma safely_answerUser status p w0 : safely (answerUser status p) nothing w0.
Proof. unfold answerUser. safely. Qed.

Lemma safely_answerKey p w0 : safely (answerKey p) nothing w0.
Proof. unfold answerKey. eapply safely_bind; [apply safely_apiKeyToResponse|]. intros resp w _ _. by apply safely_ret. Qed.

#[local] Hint Resolve safely_apiKeyToResponse safely_answerUser safely_answerKey safely_ownerName : safely.

(** Goes through a handler of /admin. *)
Ltac handler :=
  repeat match goal with
  | |- safe _ _ (requireAdminRead _ _ _) _ _ => apply safely_requireAdmin
  | |- safe _ _ (requireAdminWrite _ _ _) _ _ => apply safely_requireAdmin
  | |- safe _ _ (orAnswer _ _ _) _ _ => eapply safely_orAnswer; [solve [eauto with safely]|intros ? ?]
  | |- safe _ _ (retp _) _ _ => by apply safely_ret
  | |- safe _ _ (bindp (eachp _ _) _) _ _ => eapply safely_bind; [apply safely_eachp; intros ? ?|intros ? ? ? ?]
  | |- safe _ _ (if decide ?P then _ else _) _ _ => destruct (decide P)
  | |- safe _ _ (if ?b then _ else _) _ _ => destruct b
  | |- safe _ _ (match ?x with _ => _ end) _ _ => destruct x
  | |- safe _ _ _ _ _ => progress safely
  end.

(** The requests of /admin. *)
Inductive admin_request : proc World AdminResponse -> Prop :=
  | req_ListUsers e user : admin_request (AdminHandlers.ListUsers authorizer e user)
  | req_CreateUser e salt user body : admin_request (AdminHandlers.CreateUser c authorizer e salt user body)
  | req_GetUser user id : admin_request (GetUser authorizer user id)
  | req_UpdateUser e salt user id body : admin_request (AdminHandlers.UpdateUser c authorizer e salt user id body)
  | req_DeleteUser e user id : admin_request (AdminHandlers.DeleteUser authorizer e user id)
  | req_ListAPIKeys e user userID : admin_request (AdminHandlers.ListAPIKeys authorizer e user userID)
  | req_CreateAPIKey e0 e keyBytes user body : admin_request (AdminHandlers.CreateAPIKey c sv authorizer e0 e keyBytes user body)
  | req_GetAPIKey user id : admin_request (GetAPIKey authorizer user id)
  | req_UpdateAPIKey e user id body : admin_request (AdminHandlers.UpdateAPIKey authorizer e user id body)
  | req_DeleteAPIKey e user id : admin_request (AdminHandlers.DeleteAPIKey authorizer e user id)
  | req_RevokeAPIKey e user id : admin_request (AdminHandlers.RevokeAPIKey authorizer e user id)
  | req_RotateAPIKey e0 e e1 e2 keyBytes user id body :
      admin_request (AdminHandlers.RotateAPIKey c sv authorizer e0 e e1 e2 keyBytes user id body)
  | req_ListRoles user : admin_request (ListRoles authorizer user).

Lemma safely_admin p w0 : admin_request p -> safely p nothing w0.
Proof.
  destruct 1; [unfold AdminHandlers.ListUsers|unfold AdminHandlers.CreateUser|unfold GetUser|unfold AdminHandlers.UpdateUser
    |unfold AdminHandlers.DeleteUser|unfold AdminHandlers.ListAPIKeys|unfold AdminHandlers.CreateAPIKey, keyOwner|unfold GetAPIKey
    |unfold AdminHandlers.UpdateAPIKey|unfold AdminHandlers.DeleteAPIKey|unfold AdminHandlers.RevokeAPIKey
    |unfold AdminHandlers.RotateAPIKey|unfold ListRoles]; cbv zeta; handler.
Qed.

(** ** Who is calling *)

Context (a : Authenticator) (sv_of_a : forall sv', service a = Some sv' -> sv' = sv).

#[local] Hint Resolve safely_load_key : safely.

Lemma safely_authenticateAPIKeyValue e key w0 : safely (authenticateAPIKeyValue c a e key) nothing w0.
Proof.
  unfold authenticateAPIKeyValue. destruct (service a) as [sv'|] eqn:E; [|by apply safely_ret]. rewrite (sv_of_a _ eq_refl).
  eapply safely_bind; [apply safely_try, safely_ValidateAPIKey|]. intros [k|err] w _ _; [|by apply safely_ret].
  eapply safely_bind; [apply safely_load_key|]. intros record w1 _ _.
  eapply (safely_bind _ _ _ _ nothing); [safely|]. intros name w2 _ _.
  eapply safely_bind; [apply safely_load_key|]. intros record' w3 _ _. by apply safely_ret.
Qed.

Lemma safely_loginUser e authMethod username password w0 : safely (loginUser c a e authMethod username password) nothing w0.
Proof.
  unfold loginUser. cbv zeta. destruct (service a) as [sv'|] eqn:E; [|by apply safely_ret]. rewrite (sv_of_a _ eq_refl).
  eapply safely_bind; [apply safely_try, safely_ValidateCredentials|]. intros [p|err] w _ _; [|by apply safely_ret].
  eapply safely_bind; [apply safely_load_user|]. intros u w1 _ _. by apply safely_ret.
Qed.

Lemma safely_authenticate e e' r method w0 : safely (authenticate c a e e' r method) nothing w0.
Proof.
  unfold authenticate. case_decide; [|case_decide; [|by repeat case_decide; apply safely_ret]].
  - unfold authenticateBasic. destruct (basic_credentials r) as [[username password]|]; [|by apply safely_ret].
    eapply (safely_bind _ _ _ _ nothing); [case_decide; [by apply safely_ret|apply safely_authenticateAPIKeyValue]|].
    intros [user|] w _ _; [by apply safely_ret|]. case_decide; [by apply safely_ret|].
    destruct (ldapLogin a e' username password) as [?|[authMethod|]]; [by apply safely_ret|apply safely_loginUser|by apply safely_ret].
  - unfold authenticateAPIKey. case_decide; [by apply safely_ret|apply safely_authenticateAPIKeyValue].
Qed.

Lemma safely_Middleware e e' r w0 : safely (Middleware c a e e' r) nothing w0.
Proof.
  unfold Middleware. destruct (negb _); [by apply safely_ret|].
  eapply (safely_bind _ _ _ _ nothing); [|by intros [user|] w _ _; apply safely_ret].
  revert w0. induction (Methods (authConfig a)) as [|method methods IH]; intros w0; [by apply safely_ret|]. simpl.
  eapply safely_bind; [apply safely_authenticate|]. intros [user|] w _ _; [by apply safely_ret|apply IH].
Qed.

(** ** Requests *)

(** The handlers behind the middleware: administration and the account of the caller. *)
Inductive handler : (option User -> proc World unit) -> Prop :=
  | handler_admin p : (forall user, admin_request (p user)) -> handler (fun user => let* _ := p user in retp tt)
  | handler_me : handler (fun user => let* _ := GetCurrentUser user in retp tt)
  | handler_password e salt body : handler (fun user => let* _ := ChangePasswordHandler c e salt user body in retp tt).

(** A request goes through authentication to its handler, which is reached as the
    user that was found; in the background the caches are refreshed and the use
    of keys is recorded. *)
Inductive server_thread : thread World -> Prop :=
  | thread_request e e' r h :
      handler h ->
      server_thread (Thread (let* o := Middleware c a e e' r in
                             match o with Serve user => h user | Challenge _ => retp tt end))
  | thread_refresh e : server_thread (Thread (refreshAPIKeyCache e))
  | thread_last_used t i : server_thread (Thread (last_used_goroutine t i))
  | thread_bootstrap e e' salt name password email : server_thread (Thread (BootstrapAdmin c e e' salt name password email)).

Lemma safely_handler h user w0 : handler h -> safely (h user) nothing w0.
Proof.
  destruct 1 as [p Hp| |e salt body].
  - eapply safely_bind; [apply safely_admin, Hp|]. intros _ w _ _. by apply safely_ret.
  - eapply (safely_bind _ _ _ _ nothing); [|by intros _ w _ _; apply safely_ret]. unfold GetCurrentUser.
    destruct user as [user|]; [|by apply safely_ret]. eapply safely_bind; [apply safely_try, safely_GetUserByID|].
    intros [p|err] w _ _; [by apply safely_ret|by case_match; apply safely_ret].
  - eapply (safely_bind _ _ _ _ nothing); [|by intros _ w _ _; apply safely_ret]. unfold ChangePasswordHandler.
    destruct user as [user|]; [|by apply safely_ret]. case_decide; [by apply safely_ret|].
    destruct body as [[old new]|]; [|by apply safely_ret]. do 2 (case_decide; [by apply safely_ret|]).
    eapply safely_bind; [apply safely_try, safely_ChangePassword|].
    intros [p|err] w _ _; [by apply safely_ret|by repeat case_match; apply safely_ret].
Qed.

Lemma server_thread_safe t w : server_thread t -> thread_safe (Inv true c) (ext true) w t.
Proof.
  assert (forall A (p : proc World A) Q, safely p Q w -> thread_safe (Inv true c) (ext true) w (Thread p)) as Hp.
  { intros A p Q H. by eapply safe_mono. }
  destruct 1 as [e e' r h Hh| | |]; eapply Hp;
    [|apply safely_refreshAPIKeyCache|apply safely_last_used_goroutine|apply safely_BootstrapAdmin].
  eapply safely_bind; [apply safely_Middleware|]. intros [user|headers] w1 _ _; [by apply safely_handler|by apply safely_ret].
Qed.
End requests.

(** Property C9.  However authenticated requests to administer users and keys, to
    see or change the caller's own account, cache refreshes and the records of
    key uses interleave, from an empty store on, as long as the counters have not
    wrapped around: usernames, key hashes and IDs identify their records, every
    user and key has one of the four roles, a cached key is a record with the hash
    it is cached under, and a cached login is one of a user of that name. *)
Theorem server_requests_ok c sv authorizer a ts w :
  (forall sv', service a = Some sv' -> sv' = sv) ->
  rtc (interleaves (server_thread c sv authorizer a)) ([], NewWorld) (ts, w) -> small (authStore w) -> world_ok true c w.
Proof.
  intros Hsv H. eapply (interleaves_Inv (Inv true c) (ext true)) in H as [H _]; [exact H|by apply server_thread_safe|done|].
  intros _. constructor; cbn; [|by intros ? ? ?%lookup_empty_Some|by intros ? ? ? ?%lookup_empty_Some]. split; apply table_new.
Qed.

(** The administrator is made while they already create the user ann. *)
Definition root_login : Request :=
  MkRequest (fun h => if decide (h = "Authorization")%string then ("Basic " ++ GoBase64.EncodeToString "root:pw")%string else ""%string)
    (fun _ => ""%string).

Definition create_ann : option Types.CreateUserRequest :=
  Some (Types.MkCreateUserRequest "ann" "ann@example.org" "secret" "developer" None).

Definition enforcing : Authorizer := NewAuthorizer (MkRBACConfig true "readonly" []).

Definition root_creates_ann : proc World unit :=
  let* o := Middleware toy_crypto (demo None None) (env_at 5) (env_at 5) root_login in
  match o with
  | Serve user => let* _ := AdminHandlers.CreateUser toy_crypto enforcing (env_at 5) "" user create_ann in retp tt
  | Challenge _ => retp tt
  end.

Definition administration : list (thread World) :=
  [Thread (BootstrapAdmin toy_crypto (env_at 1) (env_at 1) "" "root" "pw" ""); Thread root_creates_ann].

Definition in_turns : list nat := [0;0;0;1;1;0;1;1;0;1;1;1;1;1;1;1;1]%nat.

Lemma server_requests_ok_witness :
  world_ok true toy_crypto (snd (schedule in_turns administration NewWorld)).
Proof.
  apply (server_requests_ok toy_crypto cached_service enforcing (demo None None) (fst (schedule in_turns administration NewWorld))).
  - intros sv' E. injection E as <-. reflexivity.
  - rewrite <- surjective_pairing. etrans; [|apply schedule_interleaves].
    apply (interleaves_starts _ [] administration). constructor; [constructor|]. constructor; [|constructor].
    apply (thread_request _ _ _ _ (env_at 5) (env_at 5) root_login
             (fun user => let* _ := AdminHandlers.CreateUser toy_crypto enforcing (env_at 5) "" user create_ann in retp tt)).
    apply handler_admin. intros user. constructor.
  - by vm_compute.
Defined.

(** Both are there in the end. *)
Example root_and_ann :
  let w := snd (schedule in_turns administration NewWorld) in
  (UUsername (user_at (authStore w) 0%nat), UUsername (user_at (authStore w) 1%nat)) = ("root", "ann")%string.
Proof. vm_compute. reflexivity. Qed.
