(* ===== verification/ProtoCompat.v ===== *)
(** * Protobuf compatibility: internal/compatibility/protobuf/checker.go

    The compiler is github.com/bufbuild/protocompile: [ProtoLib] has the two
    functions the checker calls, and [FileDescriptor] what it reads of the
    descriptors of google.golang.org/protobuf.  Messages refer to each other,
    possibly in cycles, so a field holds the full name of its message and the
    file the messages of everything it is linked with.  The checker's loops
    over maps take their order from an [env]. *)
From S2P Require Import Prelude GoStrings StorageTypes Compat.
From Stdlib Require Import String.

Local Open Scope string_scope.

(** ** Descriptors *)

Inductive Kind :=
  | BoolKind | EnumKind | Int32Kind | Sint32Kind | Uint32Kind | Int64Kind | Sint64Kind | Uint64Kind
  | Sfixed32Kind | Fixed32Kind | FloatKind | Sfixed64Kind | Fixed64Kind | DoubleKind
  | StringKind | BytesKind | MessageKind | GroupKind.

#[export] Instance Kind_eq_dec : EqDecision Kind.
Proof. solve_decision. Defined.

Inductive Cardinality := Optional | Required | Repeated.

#[export] Instance Cardinality_eq_dec : EqDecision Cardinality.
Proof. solve_decision. Defined.

Record Oneof := MkOneof { OneofName : string; IsSynthetic : bool }.

Record Field := MkField {
  Name : string;
  Number : Z;
  FieldKind : Kind;
  FieldCardinality : Cardinality;
  ContainingOneof : option Oneof;
  TypeName : string   (* the full name of the field's message or enum *)
}.

Record EnumValue := MkEnumValue { ValueName : string; ValueNumber : Z }.
Record Enum := MkEnum { EnumName : string; EnumFullName : string; Values : list EnumValue }.

Inductive Message :=
  MkMessage (name fullName path : string) (isMapEntry : bool)
    (fields : list Field) (messages : list Message) (enums : list Enum).

Definition MessageName (m : Message) : string := let '(MkMessage name _ _ _ _ _ _) := m in name.
Definition FullName (m : Message) : string := let '(MkMessage _ fullName _ _ _ _ _) := m in fullName.
(** [ParentFile().Path()] *)
Definition FilePath (m : Message) : string := let '(MkMessage _ _ path _ _ _ _) := m in path.
Definition IsMapEntry (m : Message) : bool := let '(MkMessage _ _ _ isMapEntry _ _ _) := m in isMapEntry.
Definition Fields (m : Message) : list Field := let '(MkMessage _ _ _ _ fields _ _) := m in fields.
Definition Messages (m : Message) : list Message := let '(MkMessage _ _ _ _ _ messages _) := m in messages.
Definition Enums (m : Message) : list Enum := let '(MkMessage _ _ _ _ _ _ enums) := m in enums.

Record FileDescriptor := MkFile {
  Package : string;
  FileMessages : list Message;
  FileEnums : list Enum;
  linked : gmap string Message   (* by full name, imports included *)
}.

(** [Fields().ByNumber(n)] *)
Definition ByNumber (m : Message) (n : Z) : option Field :=
  List.find (fun f => bool_decide (Number f = n)) (Fields m).

(** ** Kinds on the wire *)

Definition compatibleGroups : list (list Kind) :=
  [[Int32Kind; Uint32Kind; Int64Kind; Uint64Kind; BoolKind];
   [Sint32Kind; Sint64Kind];
   [Fixed32Kind; Sfixed32Kind];
   [Fixed64Kind; Sfixed64Kind];
   [StringKind; BytesKind]].

Definition varintKinds : list Kind := [Int32Kind; Uint32Kind; Int64Kind; Uint64Kind; BoolKind].

Definition areKindsWireCompatible (newKind oldKind : Kind) : bool :=
  if existsb (fun group => bool_decide (oldKind ∈ group) && bool_decide (newKind ∈ group)) compatibleGroups
  then true
  else if bool_decide (oldKind = EnumKind) || bool_decide (newKind = EnumKind) then
    let otherKind := if bool_decide (oldKind = EnumKind) then newKind else oldKind in
    if bool_decide (otherKind = EnumKind) then false
    else bool_decide (otherKind ∈ varintKinds)
  else false.

Definition protoTypeName (f : Field) : string :=
  match FieldKind f with
  | BoolKind => "bool" | Int32Kind => "int32" | Sint32Kind => "sint32" | Uint32Kind => "uint32"
  | Int64Kind => "int64" | Sint64Kind => "sint64" | Uint64Kind => "uint64"
  | Sfixed32Kind => "sfixed32" | Fixed32Kind => "fixed32" | FloatKind => "float"
  | Sfixed64Kind => "sfixed64" | Fixed64Kind => "fixed64" | DoubleKind => "double"
  | StringKind => "string" | BytesKind => "bytes"
  | MessageKind => TypeName f | EnumKind => TypeName f
  | GroupKind => "group"
  end.

(** ** The structure of messages *)

Abbreviation messagePair := (string * string)%type (only parsing).

Definition same_descriptor (newMsg oldMsg : Message) : bool :=
  bool_decide (FullName newMsg = FullName oldMsg) && bool_decide (FilePath newMsg = FilePath oldMsg).

Section structure.
Context (newFile oldFile : FileDescriptor).

(** The loop over the old message's fields.  [None]: a message that is not
    linked, or no fuel left. *)
Fixpoint structuralLoop
    (rec : Message -> Message -> gset messagePair -> option (bool * gset messagePair))
    (newMsg : Message) (oldFields : list Field) (visited : gset messagePair)
    : option (bool * gset messagePair) :=
  match oldFields with
  | [] => Some (true, visited)
  | oldField :: oldFields =>
      match ByNumber newMsg (Number oldField) with
      | None => structuralLoop rec newMsg oldFields visited
      | Some newField =>
          if bool_decide (FieldKind oldField = FieldKind newField) then
            if bool_decide (FieldKind oldField = MessageKind) then
              match linked newFile !! TypeName newField, linked oldFile !! TypeName oldField with
              | Some n, Some o =>
                  match rec n o visited with
                  | Some (true, visited) => structuralLoop rec newMsg oldFields visited
                  | res => res
                  end
              | _, _ => None
              end
            else structuralLoop rec newMsg oldFields visited
          else if negb (areKindsWireCompatible (FieldKind newField) (FieldKind oldField)) then
            Some (false, visited)
          else structuralLoop rec newMsg oldFields visited
      end
  end.

Fixpoint areMessagesStructurallyCompatible (fuel : nat) (newMsg oldMsg : Message)
    (visited : gset messagePair) : option (bool * gset messagePair) :=
  match fuel with
  | O => None
  | S fuel =>
      if same_descriptor newMsg oldMsg then Some (true, visited)
      else
        let key := (FullName newMsg, FullName oldMsg) in
        if bool_decide (key ∈ visited) then Some (true, visited)
        else
          structuralLoop (areMessagesStructurallyCompatible fuel) newMsg (Fields oldMsg)
            ({[key]} ∪ visited)
  end.

(** Enough for every pair of linked messages; see [structural_total]. *)
Definition structural_fuel : nat := S (size (linked newFile) * size (linked oldFile)).

Definition areTypesCompatible (newField oldField : Field) : bool :=
  if bool_decide (FieldKind newField = FieldKind oldField) then
    match FieldKind newField with
    | MessageKind =>
        match linked newFile !! TypeName newField, linked oldFile !! TypeName oldField with
        | Some n, Some o =>
            match areMessagesStructurallyCompatible structural_fuel n o ∅ with
            | Some (ok, _) => ok
            | None => false
            end
        | _, _ => false
        end
    | EnumKind => bool_decide (TypeName newField = TypeName oldField)
    | _ => true
    end
  else areKindsWireCompatible (FieldKind newField) (FieldKind oldField).

(** ** Fields *)

(** The oneof of a field, unless it is the synthetic one of a proto3 optional. *)
Definition realOneof (f : Field) : option Oneof :=
  match ContainingOneof f with
  | Some o => if IsSynthetic o then None else Some o
  | None => None
  end.

Definition isRealOneof (f : Field) : bool := match realOneof f with Some _ => true | None => false end.

(** String, bytes and messages are length-delimited. *)
Definition lengthDelimited (k : Kind) : bool :=
  bool_decide (k = StringKind) || bool_decide (k = BytesKind) || bool_decide (k = MessageKind).

Definition checkCardinality (newField oldField : Field) (msgName : string) (result : Result) : Result :=
  let say what :=
    AddMessage result ("Message '" ++ msgName ++ "': field '" ++ Name newField ++ "' changed from " ++ what) in
  let oldCard := FieldCardinality oldField in
  let newCard := FieldCardinality newField in
  if bool_decide (oldCard = newCard) then result
  else if bool_decide (oldCard = Optional) && bool_decide (newCard = Repeated) then
    if negb (lengthDelimited (FieldKind oldField)) then say "optional to repeated" else result
  else if bool_decide (oldCard = Required) && negb (bool_decide (newCard = Required)) then result
  else if bool_decide (newCard = Required) && negb (bool_decide (oldCard = Required)) then
    say "optional to required"
  else if bool_decide (oldCard = Repeated) && negb (bool_decide (newCard = Repeated)) then
    if negb (lengthDelimited (FieldKind newField)) then say "repeated to singular" else result
  else result.

Definition checkFieldCompatibility (newField oldField : Field) (msgName : string) (result : Result) : Result :=
  let result :=
    if negb (areTypesCompatible newField oldField) then
      AddMessage result ("Message '" ++ msgName ++ "': field " ++ Itoa (Number newField)
        ++ " type changed from '" ++ protoTypeName oldField ++ "' to '" ++ protoTypeName newField ++ "'")
    else result in
  let result := checkCardinality newField oldField msgName result in
  if isRealOneof oldField && negb (isRealOneof newField) then
    AddMessage result ("Message '" ++ msgName ++ "': field '" ++ Name newField ++ "' oneof membership changed")
  else result.
End structure.

(** ** Pairing old with new *)

(** The loop all the checks share: each new element is looked up by its key
    among the old ones; a found one is handled and taken out. *)
Definition pairUp {K A B S} `{Countable K} (key : A -> K) (found : A -> B -> S -> S) (missing : A -> S -> S)
    (new : list A) (old : gmap K B) (s : S) : gmap K B * S :=
  fold_left (fun '(old, s) a =>
      match old !! key a with
      | Some b => (delete (key a) old, found a b s)
      | None => (old, missing a s)
      end)
    new (old, s).

Definition byKey {K B} `{Countable K} (key : B -> K) (l : list B) : gmap K B :=
  fold_left (fun m b => <[key b := b]> m) l ∅.

(** Nothing about an enum breaks the wire format: its result never changes. *)
Definition checkEnumCompatibility (newEnum oldEnum : Enum) (result : Result) : Result :=
  snd (pairUp ValueNumber (fun _ _ result => result) (fun _ result => result)
         (Values newEnum) (byKey ValueNumber (Values oldEnum)) result).

Definition checkEnums (reader writer : FileDescriptor) (result : Result) : Result :=
  snd (pairUp EnumFullName checkEnumCompatibility (fun _ result => result)
         (FileEnums reader) (byKey EnumFullName (FileEnums writer)) result).

Definition checkNestedEnums (newMsg oldMsg : Message) (result : Result) : Result :=
  snd (pairUp EnumName checkEnumCompatibility (fun _ result => result)
         (Enums newMsg) (byKey EnumName (Enums oldMsg)) result).

(** ** Messages *)

Section messages.
Context (e : env) (newFile oldFile : FileDescriptor).

(** The result, with the fields that moved into each oneof. *)
Definition fieldState : Type := Result * gmap string (list string).

Definition foundField (msgName : string) (newField oldField : Field) (st : fieldState) : fieldState :=
  let '(result, fieldsMovedToOneof) := st in
  let fieldsMovedToOneof :=
    match realOneof newField with
    | Some o =>
        if isRealOneof oldField then fieldsMovedToOneof
        else
          <[OneofName o := (from_opt [] (fieldsMovedToOneof !! OneofName o) ++ [Name newField])%list]>
            fieldsMovedToOneof
    | None => fieldsMovedToOneof
    end in
  (checkFieldCompatibility newFile oldFile newField oldField msgName result, fieldsMovedToOneof).

Definition addedField (msgName : string) (newField : Field) (st : fieldState) : fieldState :=
  let '(result, fieldsMovedToOneof) := st in
  (if bool_decide (FieldCardinality newField = Required) then
     AddMessage result ("Message '" ++ msgName ++ "': new required field '" ++ Name newField
       ++ "' (number " ++ Itoa (Number newField) ++ ") added")
   else result, fieldsMovedToOneof).

(** Another member of the oneof has a number the old message knows. *)
Definition otherPreExistingMember (newMsg oldMsg : Message) (oneofName movedFieldName : string) : bool :=
  existsb (fun nf =>
      match realOneof nf with
      | Some no => bool_decide (OneofName no = oneofName)
      | None => false
      end &&
      negb (bool_decide (Name nf = movedFieldName)) &&
      existsb (fun f => bool_decide (Number f = Number nf)) (Fields oldMsg))
    (Fields newMsg).

Definition checkMoved (newMsg oldMsg : Message) (result : Result) (entry : string * list string) : Result :=
  let '(oneofName, movedFields) := entry in
  let movedFieldName := from_opt "" (head movedFields) in
  if (1 <? List.length movedFields)%nat then
    AddMessage result ("Message '" ++ FullName newMsg ++ "': multiple fields moved into oneof '"
      ++ oneofName ++ "', creating mutual exclusion")
  else if otherPreExistingMember newMsg oldMsg oneofName movedFieldName then
    AddMessage result ("Message '" ++ FullName newMsg ++ "': field '" ++ movedFieldName
      ++ "' moved into existing oneof '" ++ oneofName ++ "'")
  else result.

Definition checkRemovedField (msgName : string) (result : Result) (entry : Z * Field) : Result :=
  let '(num, oldField) := entry in
  if bool_decide (FieldCardinality oldField = Required) then
    AddMessage result ("Message '" ++ msgName ++ "': required field '" ++ Name oldField
      ++ "' (number " ++ Itoa num ++ ") was removed")
  else if isRealOneof oldField then
    AddMessage result ("Message '" ++ msgName ++ "': field '" ++ Name oldField
      ++ "' (number " ++ Itoa num ++ ") was removed from oneof")
  else result.

Definition checkMessageFields (newMsg oldMsg : Message) (result : Result) : Result :=
  let msgName := FullName newMsg in
  let '(oldFields, (result, fieldsMovedToOneof)) :=
    pairUp Number (foundField msgName) (addedField msgName)
      (Fields newMsg) (byKey Number (Fields oldMsg)) (result, ∅) in
  let result := fold_left (checkMoved newMsg oldMsg) (range e fieldsMovedToOneof) result in
  fold_left (checkRemovedField msgName) (range e oldFields) result.

Definition removed (what : string -> string) (result : Result) (entry : string * Message) : Result :=
  AddMessage result (what (fst entry)).

(** [checkNestedMessages], given the check of a nested message. *)
Definition checkNestedMessages (check : Message -> Message -> Result -> Result)
    (newMsg oldMsg : Message) (result : Result) : Result :=
  let '(oldNested, result) :=
    pairUp MessageName check (fun _ result => result)
      (List.filter (fun nm => negb (IsMapEntry nm)) (Messages newMsg))
      (byKey MessageName (List.filter (fun nm => negb (IsMapEntry nm)) (Messages oldMsg))) result in
  fold_left (removed (fun name => "Nested message '" ++ FullName oldMsg ++ "." ++ name ++ "' was removed"))
    (range e oldNested) result.

(** The nesting of the new message bounds the recursion. *)
Fixpoint nesting (m : Message) : nat :=
  let '(MkMessage _ _ _ _ _ messages _) := m in S (list_max (map nesting messages)).

Fixpoint checkMessageAt (depth : nat) (newMsg oldMsg : Message) (result : Result) : Result :=
  match depth with
  | O => result
  | S depth =>
      let result := checkMessageFields newMsg oldMsg result in
      let result := checkNestedMessages (checkMessageAt depth) newMsg oldMsg result in
      checkNestedEnums newMsg oldMsg result
  end.

Definition checkMessageCompatibility (newMsg oldMsg : Message) (result : Result) : Result :=
  checkMessageAt (nesting newMsg) newMsg oldMsg result.

Definition checkMessages (result : Result) : Result :=
  let '(oldMessages, result) :=
    pairUp FullName checkMessageCompatibility (fun _ result => result)
      (FileMessages newFile) (byKey FullName (FileMessages oldFile)) result in
  fold_left (removed (fun name => "Message '" ++ name ++ "' was removed")) (range e oldMessages) result.
End messages.

(** ** Check *)

Record ProtoLib := MkProtoLib {
  ParseProto : string -> result unit;
  (** [Compiler.Compile] with a resolver of imports *)
  Compile : (string -> result string) -> string -> result (list FileDescriptor)
}.

Definition newCheckerResolver (refs : list Reference) : gmap string string :=
  fold_left (fun m ref => if decide (RefName ref = "") then m else <[RefName ref := RefSchema ref]> m) refs ∅.

Definition FindFileByPath (content : string) (refs : gmap string string) (path : string) : result string :=
  if decide (path = "schema.proto") then Ok content
  else
    match refs !! path with
    | Some content => if decide (content = "") then Err (errors_New ("file not found: " ++ path)) else Ok content
    | None => Err (errors_New ("file not found: " ++ path))
    end.

Definition parseSchemaWithRefs (lib : ProtoLib) (s : SchemaWithRefs) : result FileDescriptor :=
  match ParseProto lib (SWRSchema s) with
  | Err err => Err err
  | Ok _ =>
      match Compile lib (FindFileByPath (SWRSchema s) (newCheckerResolver (SWRReferences s))) "schema.proto" with
      | Err err => Err err
      | Ok [] => Err (errors_New "no files compiled")
      | Ok (file :: _) => Ok file
      end
  end.

Definition checkFiles (e : env) (readerFD writerFD : FileDescriptor) : Result :=
  let result := NewCompatibleResult in
  let result :=
    if bool_decide (Package readerFD = Package writerFD) then result
    else AddMessage result ("Package changed from '" ++ Package writerFD ++ "' to '" ++ Package readerFD ++ "'") in
  let result := checkMessages e readerFD writerFD result in
  checkEnums readerFD writerFD result.

Definition ProtoCheck (lib : ProtoLib) (e : env) : SchemaChecker := fun reader writer =>
  match parseSchemaWithRefs lib reader with
  | Err err => NewIncompatibleResult ["failed to parse new schema: " ++ err_text err]
  | Ok readerFD =>
      match parseSchemaWithRefs lib writer with
      | Err err => NewIncompatibleResult ["failed to parse old schema: " ++ err_text err]
      | Ok writerFD => checkFiles e readerFD writerFD
      end
  end.
