(* ===== verification/ProtoFacts.v ===== *)
(** * What the Protobuf checker decides

    The structural comparison ends and finds out whether the old message
    simulates in the new one; the checker as a whole decides a declarative
    relation between the two files. *)
From S2P Require Import Prelude GoStrings StorageTypes Compat ProtoCompat.
From Stdlib Require Import String.

Local Open Scope list_scope.

(** ** Kinds *)

Inductive wireType := Varint | ZigZag | I32 | I64 | LengthDelimited | StartGroup.

#[export] Instance wireType_eq_dec : EqDecision wireType.
Proof. solve_decision. Defined.

(** How a value of a kind is written. *)
Definition wire (k : Kind) : wireType :=
  match k with
  | BoolKind | EnumKind | Int32Kind | Uint32Kind | Int64Kind | Uint64Kind => Varint
  | Sint32Kind | Sint64Kind => ZigZag
  | Sfixed32Kind | Fixed32Kind | FloatKind => I32
  | Sfixed64Kind | Fixed64Kind | DoubleKind => I64
  | StringKind | BytesKind | MessageKind => LengthDelimited
  | GroupKind => StartGroup
  end.

(** A kind of its own: only the same kind can read it. *)
Definition alone (k : Kind) : bool :=
  bool_decide (k ∈ [FloatKind; DoubleKind; MessageKind; GroupKind]).

(** Two different kinds are compatible exactly when values of both are written
    the same way and neither is a float, a double, a message or a group. *)
Lemma areKindsWireCompatible_spec k k' :
  areKindsWireCompatible k k' =
  bool_decide (wire k = wire k') && negb (alone k) && negb (alone k') &&
  negb (bool_decide (k = EnumKind) && bool_decide (k' = EnumKind)).
Proof. by destruct k, k'. Qed.

(** ** The structural comparison *)

Section structure.
Context (newFile oldFile : FileDescriptor).

(** What two fields of the same number need for the messages to compare. *)
Definition field_simulates (R : Message -> Message -> Prop) (newField oldField : Field) : Prop :=
  if decide (FieldKind oldField = FieldKind newField) then
    FieldKind oldField = MessageKind ->
    exists n o, linked newFile !! TypeName newField = Some n /\ linked oldFile !! TypeName oldField = Some o /\ R n o
  else areKindsWireCompatible (FieldKind newField) (FieldKind oldField) = true.

Definition simulation (R : Message -> Message -> Prop) : Prop :=
  forall newMsg oldMsg, R newMsg oldMsg ->
  same_descriptor newMsg oldMsg = true \/
  forall oldField newField, oldField ∈ Fields oldMsg ->
    ByNumber newMsg (Number oldField) = Some newField -> field_simulates R newField oldField.

Definition simulates (newMsg oldMsg : Message) : Prop := exists R, simulation R /\ R newMsg oldMsg.

(** Messages are linked under their full names, and so are the messages of
    their fields. *)
Definition keyed (file : FileDescriptor) : Prop :=
  forall name m, linked file !! name = Some m -> FullName m = name.

Definition closed (file : FileDescriptor) : Prop :=
  forall name m f, linked file !! name = Some m -> f ∈ Fields m -> FieldKind f = MessageKind ->
  is_Some (linked file !! TypeName f).

Definition is_linked (file : FileDescriptor) (m : Message) : Prop := linked file !! FullName m = Some m.

Hypothesis (Hkn : keyed newFile) (Hko : keyed oldFile) (Hcn : closed newFile) (Hco : closed oldFile).

Lemma ByNumber_Some m num f : ByNumber m num = Some f -> f ∈ Fields m /\ Number f = num.
Proof. intros [H1 H2]%find_some. split; [by apply list_elem_of_In|by apply bool_decide_eq_true in H2]. Qed.

Lemma linked_is_linked file name m : keyed file -> linked file !! name = Some m -> is_linked file m.
Proof. intros Hk Hm. unfold is_linked. by rewrite (Hk name m Hm). Qed.

(** *** It ends *)

Definition all_pairs : list messagePair :=
  list_prod (elements (dom (linked newFile))) (elements (dom (linked oldFile))).
Definition pairs : gset messagePair := list_to_set all_pairs.

Lemma size_list_to_set_le (l : list messagePair) : size (list_to_set (C := gset messagePair) l) <= List.length l.
Proof.
  induction l as [|x l IH]; [by rewrite list_to_set_nil, size_empty|].
  rewrite list_to_set_cons, size_union_alt, size_singleton.
  pose proof (subseteq_size (list_to_set (C := gset messagePair) l ∖ {[x]}) (list_to_set l) ltac:(set_solver)). simpl. lia.
Qed.

Lemma size_pairs : size pairs < structural_fuel newFile oldFile.
Proof.
  unfold structural_fuel. pose proof (size_list_to_set_le all_pairs) as H.
  unfold pairs. unfold all_pairs in *. rewrite length_prod in H.
  replace (List.length (elements (dom (linked newFile)))) with (size (linked newFile)) in H by (by rewrite <- size_dom).
  replace (List.length (elements (dom (linked oldFile)))) with (size (linked oldFile)) in H by (by rewrite <- size_dom).
  lia.
Qed.

Definition unvisited (visited : gset messagePair) : nat := size (pairs ∖ visited).

Lemma unvisited_mono v v' : v ⊆ v' -> unvisited v' <= unvisited v.
Proof. intros H. unfold unvisited. apply subseteq_size. set_solver. Qed.

Lemma unvisited_visit v n o :
  is_linked newFile n -> is_linked oldFile o -> (FullName n, FullName o) ∉ v ->
  unvisited ({[(FullName n, FullName o)]} ∪ v) < unvisited v.
Proof.
  intros Hn Ho Hv. unfold unvisited. apply subset_size. split; [set_solver|]. intros H.
  assert (Hin : (FullName n, FullName o) ∈ pairs).
  { apply elem_of_list_to_set, list_elem_of_In, in_prod; apply list_elem_of_In, elem_of_elements, elem_of_dom; eauto. }
  set_solver.
Qed.

(** A comparison from [v]: it comes to an end and only adds to the visited pairs. *)
Definition ends (res : option (bool * gset messagePair)) (v : gset messagePair) : Prop :=
  exists ok v', res = Some (ok, v') /\ v ⊆ v'.

Lemma structuralLoop_ends rec newMsg oldFields : forall v,
  (forall f, f ∈ Fields newMsg -> FieldKind f = MessageKind -> is_Some (linked newFile !! TypeName f)) ->
  (forall f, f ∈ oldFields -> FieldKind f = MessageKind -> is_Some (linked oldFile !! TypeName f)) ->
  (forall n o v', is_linked newFile n -> is_linked oldFile o -> v ⊆ v' -> ends (rec n o v') v') ->
  ends (structuralLoop newFile oldFile rec newMsg oldFields v) v.
Proof.
  induction oldFields as [|f fields IH]; intros v Hn Ho Hrec; simpl; [by exists true, v|].
  assert (Hnext : forall v', v ⊆ v' -> ends (structuralLoop newFile oldFile rec newMsg fields v') v').
  { intros v' Hv. apply IH; [done|by intros; apply Ho; [right|]|]. intros n o v'' H1 H2 H3. apply Hrec; set_solver. }
  destruct (ByNumber newMsg (Number f)) as [g|] eqn:Eg; [|by apply Hnext].
  destruct (bool_decide_reflect (FieldKind f = FieldKind g)) as [Hk|Hk]; [|destruct (negb _); [by exists false, v|by apply Hnext]].
  destruct (bool_decide_reflect (FieldKind f = MessageKind)) as [Hm|Hm]; [|by apply Hnext].
  destruct (Hn g) as [n En]; [by eapply ByNumber_Some|congruence|]. destruct (Ho f) as [o Eo]; [left|done|].
  rewrite En, Eo.
  destruct (Hrec n o v) as ([] & v' & E & Hv); [by eapply linked_is_linked|by eapply linked_is_linked|done| |];
    rewrite E; [|by exists false, v'].
  destruct (Hnext v' Hv) as (ok & v'' & E' & Hv'). exists ok, v''. split; [done|set_solver].
Qed.

Lemma structural_ends fuel : forall n o v,
  is_linked newFile n -> is_linked oldFile o -> unvisited v < fuel ->
  ends (areMessagesStructurallyCompatible newFile oldFile fuel n o v) v.
Proof.
  induction fuel as [|fuel IH]; intros n o v Hn Ho Hf; [lia|]. simpl.
  destruct (same_descriptor n o); [by exists true, v|].
  destruct (bool_decide_reflect ((FullName n, FullName o) ∈ v)) as [|Hv]; [by exists true, v|].
  pose proof (unvisited_visit v n o Hn Ho Hv) as Hlt.
  destruct (structuralLoop_ends (areMessagesStructurallyCompatible newFile oldFile fuel) n (Fields o)
              ({[(FullName n, FullName o)]} ∪ v)) as (ok & v' & E & Hv').
  - intros f Hf1 Hf2. by eapply Hcn.
  - intros f Hf1 Hf2. by eapply Hco.
  - intros n' o' v' H1 H2 H3. apply IH; [done..|]. pose proof (unvisited_mono _ _ H3). lia.
  - exists ok, v'. split; [done|set_solver].
Qed.

(** *** It finds a simulation *)

(** Compared already, or the same descriptor. *)
Definition done_with (v : gset messagePair) (n o : Message) : Prop :=
  same_descriptor n o = true \/ (FullName n, FullName o) ∈ v.

Definition holds_in (v : gset messagePair) (n o : Message) : Prop :=
  forall oldField newField, oldField ∈ Fields o -> ByNumber n (Number oldField) = Some newField ->
  field_simulates (done_with v) newField oldField.

(** Every pair visited since [v] holds in [v']. *)
Definition settled (v v' : gset messagePair) : Prop :=
  forall n o, is_linked newFile n -> is_linked oldFile o ->
  (FullName n, FullName o) ∈ v' -> (FullName n, FullName o) ∉ v -> holds_in v' n o.

Lemma field_simulates_mono (R R' : Message -> Message -> Prop) f g :
  (forall n o, R n o -> R' n o) -> field_simulates R f g -> field_simulates R' f g.
Proof. unfold field_simulates. intros HR. case_decide; [|done]. naive_solver. Qed.

Lemma done_with_mono v v' n o : v ⊆ v' -> done_with v n o -> done_with v' n o.
Proof. unfold done_with. set_solver. Qed.

Lemma holds_in_mono v v' n o : v ⊆ v' -> holds_in v n o -> holds_in v' n o.
Proof.
  intros Hv H f g Hf Hg. eapply field_simulates_mono; [|by eapply H].
  intros ? ?. by apply done_with_mono.
Qed.

Lemma settled_trans v v' v'' : v' ⊆ v'' -> settled v v' -> settled v' v'' -> settled v v''.
Proof.
  intros Hs H1 H2 n o Hn Ho Hin Hni. destruct (decide ((FullName n, FullName o) ∈ v')) as [Hv|Hv].
  - eapply holds_in_mono; [exact Hs|]. by apply H1.
  - by apply H2.
Qed.

Lemma structuralLoop_true rec newMsg oldFields : forall v v',
  (forall n o w w', is_linked newFile n -> is_linked oldFile o -> rec n o w = Some (true, w') ->
     w ⊆ w' /\ done_with w' n o /\ settled w w') ->
  structuralLoop newFile oldFile rec newMsg oldFields v = Some (true, v') ->
  v ⊆ v' /\ settled v v' /\
  forall f g, f ∈ oldFields -> ByNumber newMsg (Number f) = Some g ->
    field_simulates (done_with v') g f.
Proof.
  induction oldFields as [|f fields IH]; intros v v' Hrec; simpl.
  { intros [= <-]. split_and!; [done|by intros ? ? ? ? ? ?|]. intros f g Hf. by apply elem_of_nil in Hf. }
  destruct (ByNumber newMsg (Number f)) as [g|] eqn:Eg; cycle 1.
  { intros E. apply IH in E as (H1 & H2 & H3); [|done]. split_and!; [done..|].
    intros f' g' [->|Hf]%elem_of_cons Hg; [congruence|by apply H3]. }
  assert (Hrest : forall w, structuralLoop newFile oldFile rec newMsg fields w = Some (true, v') ->
    v ⊆ w -> settled v w ->
    (forall w', w ⊆ w' -> field_simulates (done_with w') g f) ->
    v ⊆ v' /\ settled v v' /\
    forall f0 g0, f0 ∈ f :: fields -> ByNumber newMsg (Number f0) = Some g0 ->
      field_simulates (done_with v') g0 f0).
  { intros w E Hvw Hset Hf. apply IH in E as (H1 & H2 & H3); [|done]. split_and!.
    - set_solver.
    - by eapply settled_trans.
    - intros f' g' [->|Hf']%elem_of_cons Hg; [|by apply H3]. rewrite Eg in Hg. injection Hg as <-. by apply Hf. }
  assert (Hself : settled v v) by (by intros ? ? ? ? ? ?).
  destruct (bool_decide_reflect (FieldKind f = FieldKind g)) as [Hk|Hk]; cycle 1.
  { destruct (areKindsWireCompatible _ _) eqn:Ek; simpl; [|done]. intros E. apply (Hrest v); [done..|].
    intros w' _. unfold field_simulates. by rewrite decide_False. }
  destruct (bool_decide_reflect (FieldKind f = MessageKind)) as [Hm|Hm]; cycle 1.
  { intros E. apply (Hrest v); [done..|]. intros w' _. unfold field_simulates. by rewrite decide_True. }
  destruct (linked newFile !! TypeName g) as [n|] eqn:En; [|done].
  destruct (linked oldFile !! TypeName f) as [o|] eqn:Eo; [|done].
  destruct (rec n o v) as [[[] w]|] eqn:Er; try done. intros E.
  apply Hrec in Er as (H1 & H2 & H3); [|by eapply linked_is_linked..]. apply (Hrest w); [done..|].
  intros w' Hw. unfold field_simulates. rewrite decide_True by done. intros _. exists n, o.
  split_and!; [done..|]. by eapply done_with_mono.
Qed.

Lemma structural_true fuel : forall n o v v',
  is_linked newFile n -> is_linked oldFile o ->
  areMessagesStructurallyCompatible newFile oldFile fuel n o v = Some (true, v') ->
  v ⊆ v' /\ done_with v' n o /\ settled v v'.
Proof.
  induction fuel as [|fuel IH]; intros n o v v' Hn Ho; [done|]. simpl.
  assert (Hself : settled v v) by (by intros ? ? ? ? ? ?).
  destruct (same_descriptor n o) eqn:Es; [intros [= <-]; split_and!; [done|by left|done]|].
  destruct (bool_decide_reflect ((FullName n, FullName o) ∈ v)) as [Hv|Hv];
    [intros [= <-]; split_and!; [done|by right|done]|].
  intros E. apply structuralLoop_true in E as (H1 & H2 & H3); [|by apply IH].
  split_and!; [set_solver|right; set_solver|].
  intros n' o' Hn' Ho' Hin Hni.
  destruct (decide ((FullName n', FullName o') = (FullName n, FullName o))) as [Heq|Hne].
  - injection Heq as En Eo. unfold is_linked in *. rewrite En, Hn in Hn'. rewrite Eo, Ho in Ho'.
    injection Hn' as <-. injection Ho' as <-. exact H3.
  - apply H2; [done..|set_solver].
Qed.

(** *** It finds every simulation *)

Lemma structural_complete fuel R : simulation R -> forall n o v ok v',
  R n o -> areMessagesStructurallyCompatible newFile oldFile fuel n o v = Some (ok, v') -> ok = true.
Proof.
  intros HR. induction fuel as [|fuel IH]; intros n o v ok v' Hno; [done|]. simpl.
  destruct (same_descriptor n o) eqn:Es; [by intros [= <- _]|].
  destruct (bool_decide _); [by intros [= <- _]|].
  destruct (HR n o Hno) as [?|Hf]; [congruence|]. generalize ({[(FullName n, FullName o)]} ∪ v) as w.
  revert Hf. generalize (Fields o) as fields. induction fields as [|f fields IHf]; intros Hf w; simpl; [by intros [= <- _]|].
  assert (Hrest := IHf (fun f0 g Hf0 => Hf f0 g ltac:(by right))).
  destruct (ByNumber n (Number f)) as [g|] eqn:Eg; [|by apply Hrest].
  pose proof (Hf f g ltac:(left) Eg) as Hs. unfold field_simulates in Hs.
  destruct (bool_decide_reflect (FieldKind f = FieldKind g)) as [Hk|Hk].
  - rewrite decide_True in Hs by done.
    destruct (bool_decide_reflect (FieldKind f = MessageKind)) as [Hm|]; [|by apply Hrest].
    destruct (Hs Hm) as (n' & o' & -> & -> & Hr).
    destruct (areMessagesStructurallyCompatible _ _ fuel n' o' w) as [[[] w']|] eqn:Er; [by apply Hrest| |done].
    apply IH in Er; [done|exact Hr].
  - rewrite decide_False in Hs by done. rewrite Hs. simpl. by apply Hrest.
Qed.

Lemma structural_decides n o :
  is_linked newFile n -> is_linked oldFile o ->
  exists ok v, areMessagesStructurallyCompatible newFile oldFile (structural_fuel newFile oldFile) n o ∅ = Some (ok, v) /\
    (ok = true <-> simulates n o).
Proof.
  intros Hn Ho. destruct (structural_ends (structural_fuel newFile oldFile) n o ∅ Hn Ho) as (ok & v & E & _).
  { pose proof size_pairs. unfold unvisited. by rewrite difference_empty_L. }
  exists ok, v. split; [done|]. split.
  - intros ->. destruct (structural_true _ _ _ _ _ Hn Ho E) as (_ & Hd & Hset).
    exists (fun n o => is_linked newFile n /\ is_linked oldFile o /\ done_with v n o). split; [|done].
    intros n' o' (Hn' & Ho' & [Hs|Hin]); [by left|right]. intros f g Hf Hg.
    pose proof (Hset n' o' Hn' Ho' Hin ltac:(set_solver) f g Hf Hg) as Hfs.
    unfold field_simulates in *. case_decide; [|done]. intros Hm. destruct (Hfs Hm) as (n'' & o'' & En & Eo & Hd').
    exists n'', o''. split_and!; [done..|by eapply linked_is_linked|by eapply linked_is_linked|done].
  - intros (R & HR & Hno). by eapply structural_complete.
Qed.
End structure.

(** ** Checks that add to a result *)

(** A step that keeps a result compatible exactly when [P] holds. *)
Definition tests (f : Result -> Result) (P : Prop) : Prop :=
  forall r, IsCompatible (f r) = true <-> IsCompatible r = true /\ P.

Lemma tests_iff f P Q : tests f P -> (P <-> Q) -> tests f Q.
Proof. intros Hf H r. rewrite (Hf r). tauto. Qed.

Lemma tests_id : tests (fun r => r) True.
Proof. intros r. tauto. Qed.

Lemma tests_AddMessage text : tests (fun r => AddMessage r text) False.
Proof. intros r. simpl. split; [done|tauto]. Qed.

Lemma tests_if (b : bool) f g P Q :
  tests f P -> tests g Q -> tests (fun r => if b then f r else g r) (if b then P else Q).
Proof. by destruct b. Qed.

Lemma tests_then f g P Q : tests f P -> tests g Q -> tests (fun r => g (f r)) (P /\ Q).
Proof. intros Hf Hg r. rewrite (Hg (f r)), (Hf r). tauto. Qed.

Lemma tests_fold {A} (step : Result -> A -> Result) (P : A -> Prop) l :
  (forall a, a ∈ l -> tests (fun r => step r a) (P a)) ->
  tests (fun r => fold_left step l r) (forall a, a ∈ l -> P a).
Proof.
  induction l as [|a l IH]; intros H r; simpl.
  - split; [|tauto]. intros Hr. split; [done|]. intros a Ha. by apply elem_of_nil in Ha.
  - rewrite (IH (fun b Hb => H b ltac:(by right)) _), (H a ltac:(left) r). setoid_rewrite elem_of_cons. naive_solver.
Qed.

Lemma tests_say (b : bool) text : tests (fun r => if b then AddMessage r text else r) (b = false).
Proof. destruct b; [|eapply tests_iff; [apply tests_id|naive_solver]]. eapply tests_iff; [apply tests_AddMessage|done]. Qed.

(** ** Pairing *)

Section pairing.
Context {K A B S : Type} `{Countable K} (key : A -> K).
Context (found : A -> B -> S -> S) (missing : A -> S -> S).

Lemma pairUp_eq new : forall (old : gmap K B) (s : S),
  NoDup (map key new) ->
  let '(rest, s') := pairUp key found missing new old s in
  (forall k, rest !! k = if decide (k ∈ map key new) then None else old !! k) /\
  s' = fold_left (fun s a => match old !! key a with Some b => found a b s | None => missing a s end) new s.
Proof.
  unfold pairUp. induction new as [|a new IH]; intros old s Hnd; cbn [fold_left map].
  { split; [|done]. intros k. case_decide as D; [by apply elem_of_nil in D|done]. }
  cbn [map] in Hnd. apply NoDup_cons in Hnd as [Hni Hnd].
  assert (Hfold : forall s, fold_left (fun s a' => match delete (key a) old !! key a' with Some b => found a' b s | None => missing a' s end) new s =
            fold_left (fun s a' => match old !! key a' with Some b => found a' b s | None => missing a' s end) new s).
  { clear IH s. intros s. revert s Hni. clear Hnd. induction new as [|a' new IH]; intros s Hni; [done|]. simpl in *.
    rewrite not_elem_of_cons in Hni. destruct Hni as [Hne Hni].
    rewrite lookup_delete_ne by done. by apply IH. }
  assert (Hk : forall (m : gmap K B) k, m !! key a = None ->
            (if decide (k ∈ map key new) then None else m !! k) =
            if decide (k ∈ key a :: map key new) then None else m !! k).
  { intros m k Hm. repeat case_decide; rewrite ?elem_of_cons in *; naive_solver. }
  destruct (old !! key a) as [b|] eqn:E.
  - specialize (IH (delete (key a) old) (found a b s) Hnd). destruct (fold_left _ new _) as [rest s'] eqn:Ef.
    destruct IH as [H1 ->]. split; [|apply Hfold]. intros k. rewrite H1, Hk by (by rewrite lookup_delete_eq).
    case_decide as D; [done|]. rewrite lookup_delete_ne; [done|]. intros <-. apply D. left.
  - specialize (IH old (missing a s) Hnd). destruct (fold_left _ new _) as [rest s'].
    destruct IH as [H1 ->]. split; [|done]. intros k. by rewrite H1, Hk.
Qed.
End pairing.

Lemma in_map_key {A K} (key : A -> K) l a : a ∈ l -> key a ∈ map key l.
Proof. intros Ha. apply list_elem_of_In, in_map. by apply list_elem_of_In. Qed.

Lemma NoDup_map_inj {A K} (key : A -> K) l a b :
  NoDup (map key l) -> a ∈ l -> b ∈ l -> key a = key b -> a = b.
Proof.
  induction l as [|x l IH]; intros Hnd Ha Hb E; [by apply elem_of_nil in Ha|].
  simpl in Hnd. apply NoDup_cons in Hnd as [Hni Hnd].
  apply elem_of_cons in Ha as [->|Ha], Hb as [->|Hb]; [done| | |by apply IH].
  - destruct Hni. rewrite E. by apply in_map_key.
  - destruct Hni. rewrite <- E. by apply in_map_key.
Qed.

Lemma byKey_lookup {K B} `{Countable K} (key : B -> K) (l : list B) k b :
  NoDup (map key l) -> (byKey key l !! k = Some b <-> b ∈ l /\ key b = k).
Proof.
  intros Hnd. unfold byKey.
  enough (Hm : forall m : gmap K B,
            fold_left (fun m b => <[key b := b]> m) l m !! k = Some b <->
            (b ∈ l /\ key b = k) \/ ((k ∉ map key l) /\ m !! k = Some b)).
  { rewrite Hm, lookup_empty. naive_solver. }
  induction l as [|a l IH]; intros m; simpl in *.
  { rewrite elem_of_nil. set_solver. }
  apply NoDup_cons in Hnd as [Hni Hnd]. rewrite IH, lookup_insert, !elem_of_cons by done.
  pose proof (in_map_key key l b) as Hin.
  case_decide as D; [subst k|]; naive_solver.
Qed.

Lemma byKey_None {K B} `{Countable K} (key : B -> K) (l : list B) k :
  NoDup (map key l) -> (byKey key l !! k = None <-> forall b, b ∈ l -> key b <> k).
Proof.
  intros Hnd. split.
  - intros Hn b Hb Hk. rewrite (proj2 (byKey_lookup key l k b Hnd)) in Hn; [done|by split].
  - intros Hb. destruct (byKey key l !! k) as [b|] eqn:E; [|done].
    apply byKey_lookup in E as [E1 E2]; [|done]. by destruct (Hb b E1).
Qed.

(** The loop of messages: what is found is tested, what is left is missing. *)
Lemma tests_messages e (key : Message -> string) found (P : Message -> Message -> Prop) new old what :
  NoDup (map key new) -> NoDup (map key old) ->
  (forall a b, a ∈ new -> b ∈ old -> tests (found a b) (P a b)) ->
  tests (fun r =>
      let '(rest, r) := pairUp key found (fun _ r => r) new (byKey key old) r in
      fold_left (removed what) (range e rest) r)
    (forall b, b ∈ old -> exists a, a ∈ new /\ key a = key b /\ P a b).
Proof.
  intros Hn Ho Ht r. pose proof (pairUp_eq key found (fun _ r => r) new (byKey key old) r Hn) as Hp.
  destruct (pairUp _ _ _ _ _ _) as [rest r']. destruct Hp as [Hrest ->].
  assert (Hleft := tests_fold (removed what) (fun _ => False) (range e rest)
            (fun en _ => tests_AddMessage _)).
  rewrite (Hleft _). clear Hleft.
  assert (Hmatch := tests_fold
      (fun s a => match byKey key old !! key a with Some b => found a b s | None => s end)
      (fun a => forall b, b ∈ old -> key b = key a -> P a b) new).
  lapply Hmatch; clear Hmatch.
  2: { intros a Ha. destruct (byKey key old !! key a) as [b|] eqn:E.
       - apply byKey_lookup in E as [Hb Hk]; [|done]. eapply tests_iff; [by apply Ht|]. split; [|auto].
         intros HP b' Hb' Hk'. enough (b' = b) as -> by done.
         pose proof (proj2 (byKey_lookup key old (key a) b' Ho) (conj Hb' Hk')) as E1.
         pose proof (proj2 (byKey_lookup key old (key a) b Ho) (conj Hb Hk)) as E2. congruence.
       - eapply tests_iff; [apply tests_id|]. split; [|done]. intros _ b Hb Hk.
         eapply byKey_None in E; [|done..]. by destruct E. }
  intros Hmatch. rewrite (Hmatch r). clear Hmatch. split.
  - intros [[Hr Hm] Hleft]. split; [done|]. intros b Hb.
    destruct (decide (key b ∈ map key new)) as [Hin|Hni].
    + apply list_elem_of_In, in_map_iff in Hin as (a & Hk & Ha%list_elem_of_In). exists a. auto.
    + destruct (Hleft (key b, b)). apply elem_of_range. rewrite Hrest, decide_False by done.
      by rewrite (proj2 (byKey_lookup key old (key b) b Ho) (conj Hb eq_refl)).
  - intros [Hr Hall]. split; [split; [done|]|].
    + intros a Ha b Hb Hk. destruct (Hall b Hb) as (a' & Ha' & Hk' & HP). enough (a' = a) as <- by done.
      apply (NoDup_map_inj key new); [done..|congruence].
    + intros [k b] E%elem_of_range. rewrite Hrest in E. case_decide as D; [done|]. apply byKey_lookup in E as [Hb <-]; [|done].
      destruct (Hall b Hb) as (a & Ha & Hk & _). apply D. rewrite <- Hk. by apply in_map_key.
Qed.

(** ** Fields *)

Section files.
Context (newFile oldFile : FileDescriptor).
Hypothesis (Hkn : keyed newFile) (Hko : keyed oldFile) (Hcn : closed newFile) (Hco : closed oldFile).

Definition types_ok (newField oldField : Field) : Prop :=
  if decide (FieldKind newField = FieldKind oldField) then
    match FieldKind newField with
    | MessageKind =>
        exists n o, linked newFile !! TypeName newField = Some n /\ linked oldFile !! TypeName oldField = Some o /\
          simulates newFile oldFile n o
    | EnumKind => TypeName newField = TypeName oldField
    | _ => True
    end
  else areKindsWireCompatible (FieldKind newField) (FieldKind oldField) = true.

Lemma areTypesCompatible_spec newField oldField :
  areTypesCompatible newFile oldFile newField oldField = true <-> types_ok newField oldField.
Proof.
  unfold areTypesCompatible, types_ok.
  destruct (bool_decide_reflect (FieldKind newField = FieldKind oldField)); [rewrite decide_True by done|by rewrite decide_False].
  destruct (FieldKind newField); try tauto; [apply bool_decide_eq_true|].
  destruct (linked newFile !! TypeName newField) as [n|] eqn:En; [|split; [done|naive_solver]].
  destruct (linked oldFile !! TypeName oldField) as [o|] eqn:Eo; [|split; [done|naive_solver]].
  destruct (structural_decides newFile oldFile Hkn Hko Hcn Hco n o) as (ok & v & -> & ->);
    [by eapply linked_is_linked..|]. naive_solver.
Qed.

(** Every field keeps its cardinality, a required one may become anything, none
    becomes required, and optional and repeated exchange for the
    length-delimited kinds. *)
Definition cardinality_ok (newField oldField : Field) : bool :=
  match FieldCardinality oldField, FieldCardinality newField with
  | Required, _ => true
  | _, Required => false
  | Optional, Repeated => lengthDelimited (FieldKind oldField)
  | Repeated, Optional => lengthDelimited (FieldKind newField)
  | Optional, Optional | Repeated, Repeated => true
  end.

Lemma tests_checkCardinality newField oldField msgName :
  tests (checkCardinality newField oldField msgName) (cardinality_ok newField oldField = true).
Proof.
  intros r. unfold checkCardinality, cardinality_ok.
  generalize (lengthDelimited (FieldKind oldField)) (lengthDelimited (FieldKind newField)). intros old new.
  by destruct (FieldCardinality oldField), (FieldCardinality newField), old, new; simpl; intuition.
Qed.

Definition field_ok (newField oldField : Field) : Prop :=
  types_ok newField oldField /\ cardinality_ok newField oldField = true /\
  (isRealOneof oldField = true -> isRealOneof newField = true).

Lemma tests_checkFieldCompatibility newField oldField msgName :
  tests (checkFieldCompatibility newFile oldFile newField oldField msgName) (field_ok newField oldField).
Proof.
  eapply tests_iff.
  - exact (tests_then _ _ _ _ (tests_then _ _ _ _ (tests_say _ _) (tests_checkCardinality newField oldField msgName))
             (tests_say _ _)).
  - unfold field_ok. rewrite <- areTypesCompatible_spec.
    destruct (areTypesCompatible _ _ _ _), (isRealOneof oldField), (isRealOneof newField); simpl; intuition.
Qed.

(** The oneof a field of the new message has moved into. *)
Definition moved_into (oldMsg : Message) (f : Field) : option string :=
  match realOneof f with
  | Some o =>
      if existsb (fun g => bool_decide (Number g = Number f) && negb (isRealOneof g)) (Fields oldMsg)
      then Some (OneofName o) else None
  | None => None
  end.

Definition known (m : Message) (num : Z) : Prop := exists f, f ∈ Fields m /\ Number f = num.

Record fields_ok (newMsg oldMsg : Message) : Prop := {
  added_ok : forall f, f ∈ Fields newMsg -> ~ known oldMsg (Number f) -> FieldCardinality f <> Required;
  kept_ok : forall f g, f ∈ Fields newMsg -> g ∈ Fields oldMsg -> Number f = Number g -> field_ok f g;
  moved_ok : forall f h o, f ∈ Fields newMsg -> h ∈ Fields newMsg -> Name h <> Name f ->
    moved_into oldMsg f = Some (OneofName o) -> realOneof h = Some o -> ~ known oldMsg (Number h);
  removed_ok : forall g, g ∈ Fields oldMsg -> ~ known newMsg (Number g) ->
    FieldCardinality g <> Required /\ isRealOneof g = false
}.

(** *** The fields that move into a oneof *)

Definition move (oldMsg : Message) (moved : gmap string (list string)) (f : Field) : gmap string (list string) :=
  match moved_into oldMsg f with
  | Some x => <[x := (from_opt [] (moved !! x) ++ [Name f])%list]> moved
  | None => moved
  end.

Definition movers (oldMsg : Message) (fields : list Field) (x : string) : list Field :=
  List.filter (fun f => bool_decide (moved_into oldMsg f = Some x)) fields.

Lemma elem_of_movers oldMsg fields x f :
  f ∈ movers oldMsg fields x <-> f ∈ fields /\ moved_into oldMsg f = Some x.
Proof. unfold movers. by rewrite list_elem_of_In, filter_In, <- list_elem_of_In, bool_decide_eq_true. Qed.

Lemma fold_move oldMsg fields x : forall m : gmap string (list string),
  fold_left (move oldMsg) fields m !! x =
  if decide (movers oldMsg fields x = []) then m !! x
  else Some (from_opt [] (m !! x) ++ map Name (movers oldMsg fields x)).
Proof.
  induction fields as [|f fields IH]; intros m; simpl; [done|]. rewrite IH. unfold move.
  destruct (moved_into oldMsg f) as [y|] eqn:E.
  - destruct (decide (y = x)) as [->|Hne].
    + rewrite bool_decide_true, lookup_insert_eq by done. simpl.
      case_decide as D; [by rewrite D|]. by rewrite <- app_assoc.
    + rewrite bool_decide_false by naive_solver. by rewrite lookup_insert_ne.
  - by rewrite bool_decide_false.
Qed.

Definition moves (newMsg oldMsg : Message) : gmap string (list string) :=
  fold_left (move oldMsg) (Fields newMsg) ∅.

Lemma moves_Some newMsg oldMsg x l :
  moves newMsg oldMsg !! x = Some l <-> l <> [] /\ l = map Name (movers oldMsg (Fields newMsg) x).
Proof.
  unfold moves. rewrite fold_move, lookup_empty. simpl. case_decide as D.
  - rewrite D. split; [done|]. by intros [H ->].
  - split; [intros [= <-]; split; [|done]|intros [_ ->]; done]. by destruct (movers _ _ _).
Qed.

Lemma otherPreExistingMember_spec newMsg oldMsg x name :
  otherPreExistingMember newMsg oldMsg x name = true <->
  exists h o, h ∈ Fields newMsg /\ realOneof h = Some o /\ OneofName o = x /\ Name h <> name /\
    known oldMsg (Number h).
Proof.
  unfold otherPreExistingMember. rewrite existsb_exists. split.
  - intros (h & Hh%list_elem_of_In & H). destruct (realOneof h) as [o|] eqn:Eo; [|done].
    apply andb_true_iff in H as [[H1%bool_decide_eq_true H2%negb_true_iff%bool_decide_eq_false]%andb_true_iff H3].
    apply existsb_exists in H3 as (g & Hg%list_elem_of_In & H3%bool_decide_eq_true).
    exists h, o. split_and!; try done. by exists g.
  - intros (h & o & Hh & Eo & Ho & Hne & g & Hg & Hnum). exists h. split; [by apply list_elem_of_In|].
    rewrite Eo, bool_decide_true, bool_decide_false by done. simpl. apply existsb_exists. exists g.
    split; [by apply list_elem_of_In|]. by apply bool_decide_eq_true.
Qed.

Definition move_ok (newMsg oldMsg : Message) (entry : string * list string) : Prop :=
  (List.length entry.2 <= 1)%nat /\
  otherPreExistingMember newMsg oldMsg entry.1 (from_opt EmptyString (head entry.2)) = false.

Lemma tests_checkMoved newMsg oldMsg entry :
  tests (fun r => checkMoved newMsg oldMsg r entry) (move_ok newMsg oldMsg entry).
Proof.
  intros r. unfold checkMoved, move_ok. destruct entry as [x l]. simpl.
  destruct (Nat.ltb_spec 1 (List.length l)); [simpl; split; [done|lia]|].
  destruct (otherPreExistingMember _ _ _ _); simpl; intuition (done || lia).
Qed.

Lemma moved_into_known oldMsg f x :
  moved_into oldMsg f = Some x -> known oldMsg (Number f) /\ exists o, realOneof f = Some o /\ OneofName o = x.
Proof.
  unfold moved_into. destruct (realOneof f) as [o|]; [|done].
  destruct (existsb _ _) eqn:E; [|done]. intros [= <-]. split; [|by exists o].
  apply existsb_exists in E as (g & Hg%list_elem_of_In & [Hn%bool_decide_eq_true _]%andb_true_iff). by exists g.
Qed.

Lemma moves_ok newMsg oldMsg :
  NoDup (map Name (Fields newMsg)) ->
  (forall x l, moves newMsg oldMsg !! x = Some l -> move_ok newMsg oldMsg (x, l)) <->
  (forall f h o, f ∈ Fields newMsg -> h ∈ Fields newMsg -> Name h <> Name f ->
    moved_into oldMsg f = Some (OneofName o) -> realOneof h = Some o -> ~ known oldMsg (Number h)).
Proof.
  intros Hnd. split.
  - intros H f h o Hf Hh Hne Hm Ho Hk.
    set (l := map Name (movers oldMsg (Fields newMsg) (OneofName o))).
    assert (Hin : Name f ∈ l) by (apply in_map_key, elem_of_movers; done).
    destruct (H (OneofName o) l) as [Hlen Hother]; [apply moves_Some; split; [intros E; rewrite E in Hin; by apply elem_of_nil in Hin|done]|].
    simpl in *. destruct l as [|y [|z l]]; [by apply elem_of_nil in Hin| |simpl in Hlen; lia].
    apply list_elem_of_singleton in Hin as <-. simpl in Hother.
    apply not_true_iff_false in Hother. apply Hother, otherPreExistingMember_spec. by exists h, o.
  - intros H x l (Hne & ->)%moves_Some. pose proof (elem_of_movers oldMsg (Fields newMsg) x) as Hin.
    assert (Hnd' : NoDup (map Name (movers oldMsg (Fields newMsg) x))).
    { unfold movers. clear - Hnd. induction (Fields newMsg) as [|f fs IH]; [done|]. simpl in *.
      apply NoDup_cons in Hnd as [Hni Hnd]. destruct (bool_decide _); [|auto]. simpl. apply NoDup_cons.
      split; [|auto]. intros Hin. apply Hni. apply list_elem_of_In, in_map_iff in Hin as (g & <- & Hg).
      apply filter_In in Hg as [Hg _]. by apply in_map_key, list_elem_of_In. }
    destruct (movers oldMsg (Fields newMsg) x) as [|f fs]; [done|].
    destruct (proj1 (Hin f) ltac:(left)) as [Hf Hm]. pose proof (moved_into_known _ _ _ Hm) as (_ & o & _ & Eo).
    split; simpl.
    + destruct fs as [|g fs]; [done|]. destruct (proj1 (Hin g) ltac:(right; left)) as [Hg Hmg].
      apply moved_into_known in Hmg as (Hk & o' & Ho' & <-).
      destruct (H f g o' Hf Hg); [|done..]. simpl in Hnd'. apply NoDup_cons in Hnd' as [Hni _].
      intros E. apply Hni. rewrite E. left.
    + apply not_true_iff_false. intros (h & o' & Hh & Ho' & <- & Hn & Hk)%otherPreExistingMember_spec.
      by destruct (H f h o' Hf Hh Hn Hm Ho').
Qed.

(** *** All the fields of a message *)

Lemma fold_left_pair {A S T} (f : S -> A -> S) (g : T -> A -> T) l : forall s t,
  fold_left (fun st a => (f st.1 a, g st.2 a)) l (s, t) = (fold_left f l s, fold_left g l t).
Proof. induction l as [|a l IH]; intros s t; simpl; [done|]. apply IH. Qed.

(** What the first loop does with a new field, as far as the result goes. *)
Definition field_step (newMsg oldMsg : Message) (r : Result) (f : Field) : Result :=
  match byKey Number (Fields oldMsg) !! Number f with
  | Some g => checkFieldCompatibility newFile oldFile f g (FullName newMsg) r
  | None => fst (addedField (FullName newMsg) f (r, ∅))
  end.

Lemma fields_loop newMsg oldMsg r :
  NoDup (map Number (Fields newMsg)) -> NoDup (map Number (Fields oldMsg)) ->
  let '(rest, st) := pairUp Number (foundField newFile oldFile (FullName newMsg)) (addedField (FullName newMsg))
       (Fields newMsg) (byKey Number (Fields oldMsg)) (r, ∅) in
  (forall k, rest !! k = if decide (k ∈ map Number (Fields newMsg)) then None
                         else byKey Number (Fields oldMsg) !! k) /\
  st = (fold_left (field_step newMsg oldMsg) (Fields newMsg) r, moves newMsg oldMsg).
Proof.
  intros Hn Ho.
  pose proof (pairUp_eq Number (foundField newFile oldFile (FullName newMsg)) (addedField (FullName newMsg))
                (Fields newMsg) (byKey Number (Fields oldMsg)) (r, ∅) Hn) as Hp.
  destruct (pairUp _ _ _ _ _ _) as [rest st]. destruct Hp as [Hrest ->]. split; [done|].
  clear Hrest. unfold moves. rewrite <- fold_left_pair. generalize (r, ∅ : gmap string (list string)).
  induction (Fields newMsg) as [|f fields IH]; intros [r' m]; [done|]. simpl in *. apply NoDup_cons in Hn as [_ Hn].
  rewrite <- IH by done. f_equal. unfold field_step, move.
  destruct (byKey Number (Fields oldMsg) !! Number f) as [g|] eqn:E.
  - apply byKey_lookup in E as [Hg Hnum]; [|done]. simpl. f_equal. unfold moved_into.
    destruct (realOneof f) as [o|]; [|done].
    replace (existsb _ _) with (negb (isRealOneof g)); [by destruct (isRealOneof g)|].
    apply eq_true_iff_eq. rewrite existsb_exists. split.
    + intros Hr. exists g. split; [by apply list_elem_of_In|]. by rewrite bool_decide_true.
    + intros (g' & Hg'%list_elem_of_In & [Hnum'%bool_decide_eq_true Hr]%andb_true_iff).
      enough (g' = g) as -> by done. eapply NoDup_map_inj; eauto; congruence.
  - simpl. f_equal. unfold moved_into. destruct (realOneof f) as [o|]; [|done].
    replace (existsb _ _) with false; [done|]. symmetry. apply not_true_iff_false. rewrite existsb_exists.
    intros (g' & Hg'%list_elem_of_In & [Hnum'%bool_decide_eq_true Hr]%andb_true_iff).
    eapply byKey_None in E; [|done|exact Hg']. done.
Qed.

Lemma tests_field_step newMsg oldMsg f :
  NoDup (map Number (Fields oldMsg)) ->
  tests (fun r => field_step newMsg oldMsg r f)
    ((~ known oldMsg (Number f) -> FieldCardinality f <> Required) /\
     forall g, g ∈ Fields oldMsg -> Number f = Number g -> field_ok f g).
Proof.
  intros Ho. unfold field_step. destruct (byKey Number (Fields oldMsg) !! Number f) as [g|] eqn:E.
  - apply byKey_lookup in E as [Hg Hnum]; [|done]. eapply tests_iff; [apply tests_checkFieldCompatibility|].
    split; [intros Hok; split|naive_solver].
    + intros Hn. destruct Hn. by exists g.
    + intros g' Hg' Hnum'. enough (g' = g) as -> by done. eapply NoDup_map_inj; eauto; congruence.
  - assert (Hno : ~ known oldMsg (Number f)) by (intros (g & Hg & Hnum); eapply byKey_None in E; [|done|exact Hg]; by destruct E).
    eapply tests_iff; [apply tests_say|]. rewrite bool_decide_eq_false. split; [|naive_solver].
    intros Hc. split; [done|]. intros g Hg Hnum. destruct Hno. by exists g.
Qed.

Lemma tests_checkRemovedField msgName entry :
  tests (fun r => checkRemovedField msgName r entry)
    (FieldCardinality entry.2 <> Required /\ isRealOneof entry.2 = false).
Proof.
  intros r. destruct entry as [num g]. unfold checkRemovedField. simpl.
  destruct (bool_decide_reflect (FieldCardinality g = Required)); [simpl; naive_solver|].
  destruct (isRealOneof g); simpl; naive_solver.
Qed.

Lemma tests_checkMessageFields e newMsg oldMsg :
  NoDup (map Number (Fields newMsg)) -> NoDup (map Name (Fields newMsg)) ->
  NoDup (map Number (Fields oldMsg)) ->
  tests (checkMessageFields e newFile oldFile newMsg oldMsg) (fields_ok newMsg oldMsg).
Proof.
  intros Hn Hnn Ho r. unfold checkMessageFields. pose proof (fields_loop newMsg oldMsg r Hn Ho) as Hl.
  destruct (pairUp _ _ _ _ _ _) as [rest st]. destruct Hl as [Hrest ->].
  assert (H1 := tests_fold (field_step newMsg oldMsg) _ (Fields newMsg) (fun f _ => tests_field_step newMsg oldMsg f Ho)).
  assert (H2 := tests_fold (checkMoved newMsg oldMsg) _ (range e (moves newMsg oldMsg)) (fun en _ => tests_checkMoved newMsg oldMsg en)).
  assert (H3 := tests_fold (checkRemovedField (FullName newMsg)) _ (range e rest) (fun en _ => tests_checkRemovedField (FullName newMsg) en)).
  rewrite (tests_then _ _ _ _ (tests_then _ _ _ _ H1 H2) H3 r).
  assert (Hmoves : (forall en, en ∈ range e (moves newMsg oldMsg) -> move_ok newMsg oldMsg en) <->
            forall x l, moves newMsg oldMsg !! x = Some l -> move_ok newMsg oldMsg (x, l)).
  { split; [intros H x l Hx; by apply H, elem_of_range|]. intros H [x l] Hx%elem_of_range. by apply H. }
  rewrite Hmoves, (moves_ok _ _ Hnn).
  assert (Hgone : (forall en, en ∈ range e rest -> FieldCardinality en.2 <> Required /\ isRealOneof en.2 = false) <->
            forall g, g ∈ Fields oldMsg -> ~ known newMsg (Number g) ->
              FieldCardinality g <> Required /\ isRealOneof g = false).
  { assert (Hkn' : forall g, g ∈ Fields oldMsg -> known newMsg (Number g) <-> Number g ∈ map Number (Fields newMsg)).
    { intros g _. split; [intros (f & Hf & <-); by apply in_map_key|].
      intros (f & Hf & Hin)%list_elem_of_In%in_map_iff. exists f. split; [by apply list_elem_of_In|done]. }
    split.
    - intros H g Hg Hno. apply (H (Number g, g)), elem_of_range. rewrite Hrest, decide_False by (by rewrite <- Hkn').
      by apply byKey_lookup.
    - intros H [k g] Hin%elem_of_range. rewrite Hrest in Hin. case_decide as D; [done|].
      apply byKey_lookup in Hin as [Hg <-]; [|done]. apply H; [done|]. by rewrite Hkn'. }
  rewrite Hgone. split.
  - intros (Hr & (Hf & Hm) & Hg). split; [done|]. split; try done; intros f; [by intros; apply Hf|].
    intros g Hf' Hg'. by apply Hf.
  - intros (Hr & [Ha Hk Hm Hg]). split_and!; try done. intros f Hf. split; [by apply Ha|]. intros g Hg'. by apply Hk.
Qed.

(** ** Messages *)

Definition nested (m : Message) : list Message := List.filter (fun nm => negb (IsMapEntry nm)) (Messages m).

(** What the compiler guarantees of a message: field numbers and names, and the
    names of the messages in it, are distinct. *)
Inductive wf_message : Message -> Prop :=
  | wf_message_intro m :
      NoDup (map Number (Fields m)) -> NoDup (map Name (Fields m)) ->
      NoDup (map MessageName (nested m)) -> (forall nm, nm ∈ nested m -> wf_message nm) ->
      wf_message m.

(** The old message is found in the new one: its fields, and its nested
    messages by name. *)
Inductive message_ok : Message -> Message -> Prop :=
  | message_ok_intro newMsg oldMsg :
      fields_ok newMsg oldMsg ->
      (forall om, om ∈ nested oldMsg -> exists nm, nm ∈ nested newMsg /\ MessageName nm = MessageName om /\ message_ok nm om) ->
      message_ok newMsg oldMsg.

Lemma nested_nesting m nm : nm ∈ nested m -> (S (nesting nm) <= nesting m)%nat.
Proof.
  intros Hin%list_elem_of_In%filter_In. destruct Hin as [Hin _]. destruct m as [? ? ? ? ? messages ?].
  simpl in *. apply le_n_S. pose proof (proj1 (list_max_le (map nesting messages) _) (Nat.le_refl _)) as Hall.
  rewrite List.Forall_forall in Hall. by apply Hall, in_map.
Qed.

Lemma fold_same {A} (f : Result -> A -> Result) l r : (forall r a, f r a = r) -> fold_left f l r = r.
Proof. intros Hf. induction l as [|a l IH]; simpl; [done|]. by rewrite Hf. Qed.

Lemma pairUp_same {K A B} `{Countable K} (key : A -> K) found new : forall (old : gmap K B) r,
  (forall a b (r : Result), found a b r = r) -> snd (pairUp key found (fun _ r => r) new old r) = r.
Proof.
  intros old r Hf. unfold pairUp. revert old. induction new as [|a new IH]; intros old; simpl; [done|].
  destruct (old !! key a); [rewrite Hf|]; apply IH.
Qed.

Lemma checkEnumCompatibility_same n o r : checkEnumCompatibility n o r = r.
Proof. unfold checkEnumCompatibility. by apply pairUp_same. Qed.

Lemma checkEnums_same r : checkEnums newFile oldFile r = r.
Proof. apply pairUp_same, checkEnumCompatibility_same. Qed.

Lemma checkNestedEnums_same n o r : checkNestedEnums n o r = r.
Proof. apply pairUp_same, checkEnumCompatibility_same. Qed.

Lemma tests_checkMessageAt e d : forall n o,
  (nesting n <= d)%nat -> wf_message n -> wf_message o ->
  tests (checkMessageAt e newFile oldFile d n o) (message_ok n o).
Proof.
  induction d as [|d IH]; intros n o Hd Hn Ho; [destruct n; simpl in Hd; lia|].
  inversion Hn as [? Hn1 Hn2 Hn3 Hn4]; inversion Ho as [? Ho1 Ho2 Ho3 Ho4]; subst.
  assert (Hnest := tests_messages e MessageName (checkMessageAt e newFile oldFile d) message_ok (nested n) (nested o)
            (fun name => "Nested message '" ++ FullName o ++ "." ++ name ++ "' was removed")%string Hn3 Ho3).
  intros r. cbn [checkMessageAt]. rewrite checkNestedEnums_same.
  assert (Hall := tests_then _ _ _ _ (tests_checkMessageFields e n o Hn1 Hn2 Ho1) (Hnest (fun a b Ha Hb =>
            IH a b ltac:(pose proof (nested_nesting n a Ha); lia) (Hn4 a Ha) (Ho4 b Hb)))).
  unfold checkNestedMessages. fold (nested n) (nested o). rewrite (Hall r).
  split; intros [Hr H]; (split; [done|]); [destruct H as [Hf Hm]; by constructor|by inversion H].
Qed.

Definition wf_file (f : FileDescriptor) : Prop :=
  NoDup (map FullName (FileMessages f)) /\ forall m, m ∈ FileMessages f -> wf_message m.

(** The old file is found in the new one. *)
Definition file_ok : Prop :=
  Package newFile = Package oldFile /\
  forall o, o ∈ FileMessages oldFile ->
    exists n, n ∈ FileMessages newFile /\ FullName n = FullName o /\ message_ok n o.

Lemma checkFiles_decides e :
  wf_file newFile -> wf_file oldFile -> IsCompatible (checkFiles e newFile oldFile) = true <-> file_ok.
Proof.
  intros [Hn1 Hn2] [Ho1 Ho2]. unfold checkFiles, file_ok. rewrite checkEnums_same.
  assert (Hm := tests_messages e FullName (checkMessageCompatibility e newFile oldFile) message_ok
            (FileMessages newFile) (FileMessages oldFile) (fun name => "Message '" ++ name ++ "' was removed")%string
            Hn1 Ho1 (fun a b Ha Hb => tests_checkMessageAt e (nesting a) a b (Nat.le_refl _) (Hn2 a Ha) (Ho2 b Hb))).
  unfold checkMessages. rewrite (Hm _).
  destruct (bool_decide_reflect (Package newFile = Package oldFile)); simpl; naive_solver.
Qed.
End files.

(** ** The properties *)

(** Property C26.  Comparing two messages structurally comes to an end within the
    fuel, however the messages refer to each other, and finds them compatible
    exactly when the old message simulates in the new one: a relation between
    messages contains the pair under which fields of the same number have kinds
    written the same way, and related messages if they are messages. *)
Theorem structural_spec newFile oldFile n o :
  keyed newFile -> keyed oldFile -> closed newFile -> closed oldFile ->
  is_linked newFile n -> is_linked oldFile o ->
  exists ok visited,
    areMessagesStructurallyCompatible newFile oldFile (structural_fuel newFile oldFile) n o ∅ = Some (ok, visited) /\
    (ok = true <-> simulates newFile oldFile n o).
Proof. intros. by apply structural_decides. Qed.

(** Property C27.  The Protobuf checker finds a new file compatible exactly when it
    is in the same package and holds every message of the old one, at top level
    and nested: no required field is added or dropped, fields of the same number
    have compatible types and cardinalities and stay in their oneof, no member of
    a oneof is dropped, and no field moves into a oneof with a member that was
    there before.  The order of the checker's maps makes no difference. *)
Theorem checkFiles_spec e newFile oldFile :
  keyed newFile -> keyed oldFile -> closed newFile -> closed oldFile ->
  wf_file newFile -> wf_file oldFile ->
  IsCompatible (checkFiles e newFile oldFile) = true <-> file_ok newFile oldFile.
Proof. intros. by apply checkFiles_decides. Qed.

(** The messages of a file, nested ones included, have their field types linked. *)
Inductive fields_linked (file : FileDescriptor) : Message -> Prop :=
  | fields_linked_intro m :
      (forall f, f ∈ Fields m -> FieldKind f = MessageKind -> is_Some (linked file !! TypeName f)) ->
      (forall nm, nm ∈ nested m -> fields_linked file nm) ->
      fields_linked file m.

Lemma simulates_self file m : simulates file file m m.
Proof.
  exists (fun n o => n = o). split; [|done]. intros n o ->. left. unfold same_descriptor.
  by rewrite !bool_decide_true.
Qed.

Lemma fields_ok_self file m :
  NoDup (map Number (Fields m)) -> 
  (forall f, f ∈ Fields m -> FieldKind f = MessageKind -> is_Some (linked file !! TypeName f)) ->
  fields_ok file file m m.
Proof.
  intros Hnd Hl. split.
  - intros f Hf []. by exists f.
  - intros f g Hf Hg E. assert (g = f) as -> by (by apply (NoDup_map_inj Number (Fields m))). split_and!.
    + unfold types_ok. rewrite decide_True by done. destruct (FieldKind f) eqn:E'; try done.
      destruct (Hl f Hf E') as [n En]. exists n, n. split_and!; [done..|apply simulates_self].
    + unfold cardinality_ok. by destruct (FieldCardinality f).
    + done.
  - intros f h o Hf _ _ Hm _. exfalso. unfold moved_into in Hm. destruct (realOneof f) as [o'|] eqn:Eo; [|done].
    destruct (existsb _ _) eqn:E; [|done].
    apply existsb_exists in E as (g & Hg%list_elem_of_In & [Hnum%bool_decide_eq_true Hr]%andb_true_iff).
    assert (g = f) as -> by (by apply (NoDup_map_inj Number (Fields m))). unfold isRealOneof in Hr. by rewrite Eo in Hr.
  - intros g Hg []. by exists g.
Qed.

Lemma message_ok_self file m : wf_message m -> fields_linked file m -> message_ok file file m m.
Proof.
  intros Hwf. induction Hwf as [m H1 H2 H3 _ IH]. intros Hl. inversion Hl as [? Hf Hn]; subst.
  constructor; [by apply fields_ok_self|]. intros om Ho. exists om. auto.
Qed.

(** Registering a Protobuf file again is never refused: every
    well-formed file is compatible with itself, recursive messages included. *)
Theorem checkFiles_self e file :
  keyed file -> closed file -> wf_file file ->
  (forall m, m ∈ FileMessages file -> fields_linked file m) ->
  IsCompatible (checkFiles e file file) = true.
Proof.
  intros Hk Hc Hwf Hl. apply checkFiles_decides; try done. split; [done|].
  intros o Ho. exists o. split_and!; [done..|]. apply message_ok_self; [by apply Hwf|auto].
Qed.

(** ** A file to evaluate *)

(** [message Node { required int32 id = 1; repeated Node next = 2; }], in a
    package; [wide] makes the id an int64, [node] names the message. *)
Definition node_message (package : string) (wide : bool) : Message :=
  MkMessage "Node" (package ++ ".Node") "schema.proto" false
    [MkField "id" 1 (if wide then Int64Kind else Int32Kind) Required None "";
     MkField "next" 2 MessageKind Repeated None (package ++ ".Node")] [] [].

Definition node_file (package : string) (wide : bool) : FileDescriptor :=
  MkFile package [node_message package wide] [] {[(package ++ ".Node")%string := node_message package wide]}.

Lemma node_keyed package wide : keyed (node_file package wide).
Proof. intros name m Hm. unfold node_file in Hm; cbn [linked] in Hm; apply lookup_singleton_Some in Hm as [<- <-]. done. Qed.

Lemma node_closed package wide : closed (node_file package wide).
Proof.
  intros name m f Hm Hf Hk. unfold node_file in Hm; cbn [linked] in Hm; apply lookup_singleton_Some in Hm as [<- <-]. simpl in Hf.
  apply elem_of_cons in Hf as [->|Hf]; [by destruct wide|]. apply list_elem_of_singleton in Hf as ->.
  simpl. rewrite lookup_singleton_eq. eauto.
Qed.

Lemma node_wf package wide : wf_file (node_file package wide).
Proof.
  split; [apply NoDup_singleton|]. intros m ->%list_elem_of_singleton.
  constructor; simpl; try (apply (bool_decide_unpack _); vm_compute; done). by intros nm ?%elem_of_nil.
Qed.

Lemma structural_spec_witness :
  simulates (node_file "b" true) (node_file "a" false) (node_message "b" true) (node_message "a" false).
Proof.
  destruct (structural_spec (node_file "b" true) (node_file "a" false) (node_message "b" true) (node_message "a" false))
    as (ok & v & E & H); try apply node_keyed; try apply node_closed; try apply lookup_singleton_eq.
  apply H. apply (f_equal (fmap fst)) in E. simpl in E. apply (inj Some). rewrite <- E. vm_compute. reflexivity.
Defined.

Lemma checkFiles_spec_witness : file_ok (node_file "a" true) (node_file "a" false).
Proof.
  apply (checkFiles_spec env0); try apply node_keyed; try apply node_closed; try apply node_wf.
  vm_compute. reflexivity.
Defined.

Lemma checkFiles_self_witness : IsCompatible (checkFiles env0 (node_file "a" true) (node_file "a" true)) = true.
Proof.
  apply checkFiles_self; [apply node_keyed|apply node_closed|apply node_wf|].
  intros m ->%list_elem_of_singleton. constructor; [|by intros nm ?%elem_of_nil].
  intros f Hf Hk. apply (node_closed "a" true "a.Node" (node_message "a" true)); [|done..].
  apply lookup_singleton_eq.
Defined.

(** ** What the checker does not see *)

(** A map field is a repeated message, its entry.  The entries of the two files
    have the same name in the same file, and nested map entries are not
    compared: [map<string, int32> counts = 1] becomes [map<string, string>]. *)
Definition counts_entry (value : Kind) : Message :=
  MkMessage "CountsEntry" "p.M.CountsEntry" "schema.proto" true
    [MkField "key" 1 StringKind Optional None ""; MkField "value" 2 value Optional None ""] [] [].
Definition counts_file (value : Kind) : FileDescriptor :=
  let m := MkMessage "M" "p.M" "schema.proto" false
    [MkField "counts" 1 MessageKind Repeated None "p.M.CountsEntry"] [counts_entry value] [] in
  MkFile "p" [m] [] {["p.M"%string := m; "p.M.CountsEntry"%string := counts_entry value]}.

Example map_value_not_compared :
  areKindsWireCompatible StringKind Int32Kind = false /\
  IsCompatible (checkFiles env0 (counts_file StringKind) (counts_file Int32Kind)) = true.
Proof. split; vm_compute; reflexivity. Qed.

(** A message of an imported file: the two files have the same path when the
    references keep their name, whatever the versions they point to. *)
Definition import_file (amount : Kind) : FileDescriptor :=
  let money := MkMessage "Money" "q.Money" "money.proto" false [MkField "amount" 1 amount Optional None ""] [] [] in
  let m := MkMessage "Order" "p.Order" "schema.proto" false [MkField "total" 1 MessageKind Optional None "q.Money"] [] [] in
  MkFile "p" [m] [] {["p.Order"%string := m; "q.Money"%string := money]}.

Example import_not_compared :
  IsCompatible (checkFiles env0 (import_file StringKind) (import_file Int32Kind)) = true.
Proof. vm_compute. reflexivity. Qed.
