(* ===== verification/GoFloat.v ===== *)
(** * Go's [float64] and how [strconv] and [fmt] read and write it

    A [float64] is a [spec_float] of the Standard Library with the precision and
    the exponent range of binary64; its operations are those of IEEE 754. *)
From S2P Require Import Prelude GoStrings.
From Stdlib Require Import Ascii String.
From Stdlib Require Export SpecFloat.
From Stdlib Require DecimalString.

Local Open Scope Z_scope.

Abbreviation float64 := spec_float.

Module Float64.
Definition prec : Z := 53.
Definition emax : Z := 1024.

Definition zero : float64 := S754_zero false.
Definition div : float64 -> float64 -> float64 := SFdiv prec emax.
Definition sub : float64 -> float64 -> float64 := SFsub prec emax.

(** [float64(n)] of an integer. *)
Definition of_Z (n : Z) : float64 := binary_normalize prec emax n 0 false.

(** [math.Round]: halves go away from zero. *)
Definition Round (x : float64) : float64 :=
  match x with
  | S754_finite s m e =>
      if 0 <=? e then x
      else
        let d := 2 ^ (- e) in
        let q := (Zpos m + d / 2) / d in
        binary_normalize prec emax (if s then - q else q) 0 s
  | _ => x
  end.
End Float64.

(** ** Reading: [strconv.ParseFloat] *)

(** The number of decimal digits of [n]; none for 0. *)
Definition ndigits (n : Z) : Z :=
  if n <=? 0 then 0 else Z.of_nat (String.length (Itoa n)).

(** The [float64] nearest to [(-1)^neg * m * 10^e], for [0 <= m].  Beyond the
    exponents of [float64] the result is known without the power. *)
Definition of_decimal (neg : bool) (m e : Z) : float64 :=
  match m with
  | Zpos p =>
      if 310 <? ndigits m + e then S754_infinity neg
      else if ndigits m + e <? - 330 then S754_zero neg
      else if 0 <=? e then binary_normalize Float64.prec Float64.emax ((if neg then Z.opp else id) (m * 10 ^ e)) 0 neg
      else
        let '(q, e', loc) := SFdiv_core_binary Float64.prec Float64.emax m 0 (10 ^ (- e)) 0 in
        binary_round_aux Float64.prec Float64.emax neg q e' loc
  | _ => S754_zero neg
  end.

Definition is_digit (c : ascii) : bool :=
  (48 <=? nat_of_ascii c)%nat && (nat_of_ascii c <=? 57)%nat.
Definition digit_value (c : ascii) : Z := Z.of_nat (nat_of_ascii c) - 48.

(** The digits in front of [s]: their value after [acc], their number after [n],
    and what follows. *)
Fixpoint scan_digits (acc n : Z) (s : string) : Z * Z * string :=
  match s with
  | String c s' => if is_digit c then scan_digits (10 * acc + digit_value c) (n + 1) s' else (acc, n, s)
  | EmptyString => (acc, n, s)
  end.

(** ** Writing: the shortest digits that read back as the same number *)

(** The decimal exponent of the positive number [num / den]. *)
Definition log10 (num den : Z) : Z :=
  if den <=? num then ndigits (num / den) - 1
  else - ndigits ((den + num - 1) / num - 1).

(** The closest of the [n]-digit decimals around [num / den] that read back as
    [x], as a mantissa and an exponent of ten. *)
Definition digits_at (x : float64) (num den n : Z) : option (Z * Z) :=
  let s := n - 1 - log10 num den in
  let num' := if 0 <=? s then num * 10 ^ s else num in
  let den' := if 0 <=? s then den else den * 10 ^ (- s) in
  let lo := num' / den' in
  let r := num' mod den' in
  let hi := if lo + 1 =? 10 ^ n then (1, n - s) else (lo + 1, - s) in
  let below := SFeqb (of_decimal false lo (- s)) x in
  let above := SFeqb (of_decimal false (fst hi) (snd hi)) x in
  let nearer := (2 * r <? den') || ((2 * r =? den') && Z.even lo) in
  if below && (nearer || negb above) then Some (lo, - s)
  else if above then Some hi
  else None.

Fixpoint first_digits (x : float64) (num den n : Z) (rounds : nat) : option (Z * Z) :=
  match digits_at x num den n, rounds with
  | Some d, _ => Some d
  | None, S rounds => first_digits x num den (n + 1) rounds
  | None, O => None
  end.

(** 17 digits tell any two numbers apart. *)
Definition shortest (m : positive) (e : Z) : option (Z * Z) :=
  let num := if 0 <=? e then Zpos m * 2 ^ e else Zpos m in
  let den := if 0 <=? e then 1 else 2 ^ (- e) in
  first_digits (S754_finite false m e) num den 1 16.

Definition zeros (n : Z) : string := String.concat "" (repeat "0"%string (Z.to_nat n)).

(** [%e]: [d.ddde+XX], with at least [width] digits in the exponent. *)
Definition format_e (width : Z) (digits : string) (exp : Z) : string :=
  let rest := drop_str 1 digits in
  let x := Itoa (Z.abs exp) in
  (take_str 1 digits ++ (if decide (rest = ""%string) then "" else "." ++ rest)
    ++ (if (exp <? 0)%Z then "e-" else "e+")
    ++ zeros (width - Z.of_nat (String.length x))%Z ++ x)%string.

(** [%f]: the digits with the decimal point at position [dp]. *)
Definition format_f (digits : string) (dp : Z) : string :=
  let nd := Z.of_nat (String.length digits) in
  (if (dp <=? 0)%Z then "0." ++ zeros (- dp) ++ digits
   else if (nd <=? dp)%Z then digits ++ zeros (dp - nd)
   else take_str (Z.to_nat dp) digits ++ "." ++ drop_str (Z.to_nat dp) digits)%string.

(** A number with [plain d e] for its absolute value [d * 10^e]. *)
Definition format_float (plain : Z -> Z -> string) (x : float64) : string :=
  (match x with
   | S754_nan => "NaN"
   | S754_infinity s => if s then "-Inf" else "+Inf"
   | S754_zero s => if s then "-0" else "0"
   | S754_finite s m e =>
       let '(d, e10) := from_opt (0, 0) (shortest m e) in (if s then "-" else "") ++ plain d e10
   end)%string.

(** [%g] and [%v] of [fmt.Sprintf], which is [strconv.FormatFloat(x, 'g', -1, 64)]:
    [%e] for exponents below -4 and from 6 on. *)
Definition Sprint_float : float64 -> string :=
  format_float (fun d e10 =>
    let digits := Itoa d in
    let dp := Z.of_nat (String.length digits) + e10 in
    if (dp - 1 <? - 4) || (6 <=? dp - 1) then format_e 2 digits (dp - 1) else format_f digits dp).

(** How [json.Marshal] writes a number: [%e] below 1e-6 and from 1e21 on, with
    no zero in front of a one-digit negative exponent. *)
Definition Marshal_float : float64 -> string :=
  format_float (fun d e10 =>
    let digits := Itoa d in
    let dp := Z.of_nat (String.length digits) + e10 in
    if dp - 1 <? - 6 then format_e 1 digits (dp - 1)
    else if 21 <=? dp - 1 then format_e 2 digits (dp - 1)
    else format_f digits dp).

Local Open Scope string_scope.

Example shortest_examples :
  map Sprint_float [of_decimal false 1 (-1); of_decimal true 15 (-1); of_decimal false 5 (-324);
                    of_decimal false 123456789 0; of_decimal false 123456 0; of_decimal false 1 21; of_decimal false 3 300;
                    of_decimal false 9007199254740993 0; Float64.div (Float64.of_Z 1) (Float64.of_Z 3)] =
  ["0.1"; "-1.5"; "5e-324"; "1.23456789e+08"; "123456"; "1e+21"; "3e+300"; "9.007199254740992e+15"; "0.3333333333333333"].
Proof. vm_compute. reflexivity. Qed.

(** ** Digits in texts *)

Lemma uint_lacks c d : is_digit c = false -> lacks c (DecimalString.NilEmpty.string_of_uint d) = true.
Proof.
  intros Hc. induction d; [done|..]; unfold lacks in *; cbn [DecimalString.NilEmpty.string_of_uint contains_byte];
    rewrite negb_orb, IHd, andb_true_r;
    match goal with |- negb (Ascii.eqb ?x c) = true => destruct (Ascii.eqb_spec x c); [by subst|done] end.
Qed.

Lemma Itoa_lacks c z : is_digit c = false -> c <> "-"%char -> lacks c (Itoa z) = true.
Proof.
  intros Hc Hm. unfold Itoa. destruct z as [|p|p]; cbn [Z.to_int DecimalString.NilZero.string_of_int].
  - by apply (uint_lacks c (Decimal.D0 Decimal.Nil)).
  - pose proof (uint_lacks c (Pos.to_uint p) Hc). destruct (Pos.to_uint p); [|done..]. by apply (uint_lacks c (Decimal.D0 Decimal.Nil)).
  - pose proof (uint_lacks c (Pos.to_uint p) Hc) as Hp. unfold lacks in *. cbn [contains_byte].
    destruct (Ascii.eqb_spec "-" c); [congruence|]. destruct (Pos.to_uint p); [|done..]. by apply (uint_lacks c (Decimal.D0 Decimal.Nil)).
Qed.

(** ** Integers below 2^53 are exact *)

(** The number of binary digits. *)
Lemma digits2_log p : Z.pos (digits2_pos p) = Z.log2 (Z.pos p) + 1.
Proof.
  induction p as [p IH|p IH|]; [..|done]; cbn [digits2_pos]; rewrite Pos2Z.inj_succ, IH.
  - rewrite (Pos2Z.inj_xI p), Z.log2_succ_double by lia. lia.
  - rewrite (Pos2Z.inj_xO p), Z.log2_double by lia. lia.
Qed.

(** A number below 2^53, written with 53 digits. *)
Definition canon (n : Z) : float64 := S754_finite false (Z.to_pos (n * 2 ^ (52 - Z.log2 n))) (Z.log2 n - 52).

Lemma iter_xO d m : Zpos (Pos.iter xO m d) = Zpos m * 2 ^ Zpos d.
Proof.
  induction d as [|d IH] using Pos.peano_ind; [simpl; lia|].
  rewrite Pos.iter_succ, Pos2Z.inj_xO, IH, Pos2Z.inj_succ, Z.pow_succ_r by lia. lia.
Qed.

Lemma iter_pos_iter {A} (f : A -> A) d x : iter_pos f d x = Pos.iter f x d.
Proof. revert x. induction d as [d IH|d IH|]; intros x; simpl; rewrite ?IH, ?Pos.iter_swap; done. Qed.

Lemma iter_shr d m : 0 < m ->
  iter_pos shr_1 d (Build_shr_record (m * 2 ^ Zpos d) false false) = Build_shr_record m false false.
Proof.
  intros Hm. rewrite iter_pos_iter. induction d as [|d IH] using Pos.peano_ind.
  - replace (m * 2 ^ 1) with (2 * m) by lia. by destruct m.
  - rewrite Pos.iter_succ_r. rewrite Pos2Z.inj_succ, Z.pow_succ_r by lia.
    replace (m * (2 * 2 ^ Z.pos d)) with (2 * (m * 2 ^ Z.pos d)) by lia.
    assert (0 < m * 2 ^ Z.pos d) by (apply Z.mul_pos_pos; lia).
    destruct (m * 2 ^ Z.pos d) as [|q|q] eqn:E; [lia| |lia]. rewrite <- Pos2Z.inj_xO. cbn [shr_1 orb]. done.
Qed.

Lemma log2_shift n k : 0 < n -> 0 <= k -> Z.log2 (n * 2 ^ k) = Z.log2 n + k.
Proof. intros. rewrite Z.log2_mul_pow2; lia. Qed.

(** Rounding what has 53 digits, after zeros are dropped, changes nothing. *)
Lemma shr_53 m e d : Z.log2 (Zpos m) = 52 -> 0 <= d -> -1074 <= e + d ->
  shr_fexp Float64.prec Float64.emax (Zpos m * 2 ^ d) e loc_Exact = (Build_shr_record (Zpos m) false false, e + d).
Proof.
  intros Hm Hd He. unfold shr_fexp. cbn [shr_record_of_loc].
  assert (0 < 2 ^ d) by (apply Z.pow_pos_nonneg; lia).
  assert (fexp Float64.prec Float64.emax (Zdigits2 (Zpos m * 2 ^ d) + e) - e = d) as ->.
  { destruct (Zpos m * 2 ^ d) as [|p|p] eqn:E; [lia| |lia]. unfold fexp, Zdigits2, emin. rewrite digits2_log, <- E, log2_shift, Hm by lia.
    unfold Float64.prec, Float64.emax. lia. }
  destruct d as [|d|d]; [|by cbn [shr]; rewrite iter_shr|lia]. cbn [shr]. by rewrite Z.mul_1_r, Z.add_0_r.
Qed.

Lemma round_53 m e d : Z.log2 (Zpos m) = 52 -> 0 <= d -> -1074 <= e + d <= 971 ->
  binary_round_aux Float64.prec Float64.emax false (Zpos m * 2 ^ d) e loc_Exact = S754_finite false m (e + d).
Proof.
  intros Hm Hd He. unfold binary_round_aux. rewrite shr_53 by lia. cbn [shr_m loc_of_shr_record round_nearest_even].
  pose proof (shr_53 m (e + d) 0 Hm ltac:(lia) ltac:(lia)) as E. rewrite Z.mul_1_r, Z.add_0_r in E. rewrite E. cbn [shr_m].
  rewrite (proj2 (Z.leb_le _ _)); [done|]. unfold Float64.prec, Float64.emax. lia.
Qed.

Lemma normalize_exact n k : 0 < n < 2 ^ 53 -> 0 <= k <= 200 ->
  binary_normalize Float64.prec Float64.emax (n * 2 ^ k) (- k) false = canon n.
Proof.
  intros Hn Hk. assert (0 <= Z.log2 n < 53) as Hl by (split; [apply Z.log2_nonneg|apply Z.log2_lt_pow2; lia]).
  assert (0 < 2 ^ k) by (apply Z.pow_pos_nonneg; lia). assert (0 < n * 2 ^ (52 - Z.log2 n)) as Hq by (apply Z.mul_pos_pos; [lia|apply Z.pow_pos_nonneg; lia]).
  destruct (n * 2 ^ k) as [|p|p] eqn:E; [lia| |lia]. cbn [binary_normalize]. unfold binary_round.
  assert (Z.log2 (Zpos p) = Z.log2 n + k) as Hp by (rewrite <- E; apply log2_shift; lia).
  replace (fexp Float64.prec Float64.emax (Z.pos (digits2_pos p) + - k)) with (Z.log2 n - 52)
    by (unfold fexp, emin, Float64.prec, Float64.emax; rewrite digits2_log, Hp; lia).
  pose proof (round_53 (Z.to_pos (n * 2 ^ (52 - Z.log2 n)))) as R. rewrite Z2Pos.id, log2_shift in R by lia. unfold shl_align, canon.
  destruct (Z.log2 n - 52 - - k) as [|d|d] eqn:Ed.
  - specialize (R (- k) 0 ltac:(lia) ltac:(lia) ltac:(lia)). rewrite Z.mul_1_r, Z.add_0_r in R.
    replace (52 - Z.log2 n) with k in * by lia. rewrite <- E, R. f_equal; lia.
  - specialize (R (- k) (Zpos d) ltac:(lia) ltac:(lia) ltac:(lia)). rewrite <- Z.mul_assoc, <- Z.pow_add_r in R by lia.
    replace (52 - Z.log2 n + Zpos d) with k in R by lia. rewrite <- E, R. f_equal. lia.
  - specialize (R (Z.log2 n - 52) 0 ltac:(lia) ltac:(lia) ltac:(lia)). rewrite Z.mul_1_r, Z.add_0_r in R. rewrite <- R. f_equal.
    rewrite iter_xO, <- E, <- Z.mul_assoc, <- Z.pow_add_r by lia. do 2 f_equal. lia.
Qed.

Lemma of_Z_exact n : 0 < n < 2 ^ 53 -> Float64.of_Z n = canon n.
Proof. intros Hn. pose proof (normalize_exact n 0 Hn ltac:(lia)) as E. by rewrite Z.mul_1_r in E. Qed.

(** Counting down. *)
Lemma sub_one n : 0 < n < 2 ^ 53 -> Float64.sub (Float64.of_Z n) (Float64.of_Z 1) = Float64.of_Z (n - 1).
Proof.
  intros Hn. rewrite !of_Z_exact by lia.
  assert (0 <= Z.log2 n < 53) as Hl by (split; [apply Z.log2_nonneg|apply Z.log2_lt_pow2; lia]).
  assert (0 < n * 2 ^ (52 - Z.log2 n)) as Hq by (apply Z.mul_pos_pos; [lia|apply Z.pow_pos_nonneg; lia]).
  unfold Float64.sub, canon at 1 2, SFsub. replace (Z.min (Z.log2 n - 52) (Z.log2 1 - 52)) with (-52) by (simpl; lia).
  assert (forall q e, 0 < q -> -52 <= e -> Zpos (fst (shl_align (Z.to_pos q) e (-52))) = q * 2 ^ (e + 52)) as Ha.
  { intros q e Hq' He. unfold shl_align. destruct (-52 - e) as [|d|d] eqn:Ed; [|lia|].
    - replace (e + 52) with 0 by lia. cbn [fst]. rewrite Z2Pos.id by done. lia.
    - cbn [fst]. rewrite iter_xO, Z2Pos.id by done. do 2 f_equal. lia. }
  unfold cond_Zopp. rewrite !Ha by (simpl; lia). rewrite <- Z.mul_assoc, <- Z.pow_add_r by lia.
  replace (52 - Z.log2 n + (Z.log2 n - 52 + 52)) with 52 by lia.
  replace (n * 2 ^ 52 - 1 * 2 ^ (52 - Z.log2 1) * 2 ^ (Z.log2 1 - 52 + 52)) with ((n - 1) * 2 ^ 52) by (simpl; lia).
  destruct (decide (n = 1)) as [->|]; [by vm_compute|]. rewrite (of_Z_exact (n - 1)) by lia. apply normalize_exact; lia.
Qed.

(** The order is that of the integers. *)
Lemma ltb_exact n b : 0 <= n <= b -> b < 2 ^ 53 -> SFltb (Float64.of_Z b) (Float64.of_Z n) = false.
Proof.
  intros Hn Hb. destruct (decide (n = 0)) as [->|]; [destruct (decide (b = 0)) as [->|]; [done|]|]; rewrite !of_Z_exact by lia; [done|].
  unfold SFltb, canon. cbn [SFcompare]. pose proof (Z.log2_le_mono n b ltac:(lia)).
  destruct (Z.compare_spec (Z.log2 b - 52) (Z.log2 n - 52)) as [E|E|E]; [|lia|done].
  replace (Z.log2 b) with (Z.log2 n) by lia. assert (0 < 2 ^ (52 - Z.log2 n)).
  { apply Z.pow_pos_nonneg; [lia|]. assert (Z.log2 n < 53) by (apply Z.log2_lt_pow2; lia). lia. }
  rewrite Pos.compare_cont_spec. destruct (Pos.compare_spec (Z.to_pos (b * 2 ^ (52 - Z.log2 n))) (Z.to_pos (n * 2 ^ (52 - Z.log2 n)))) as [|L|]; try done.
  apply Pos2Z.pos_lt_pos in L. rewrite !Z2Pos.id in L by nia. nia.
Qed.

Lemma leb_exact n b : 0 <= n <= b -> b < 2 ^ 53 -> SFleb (Float64.of_Z n) (Float64.of_Z b) = true.
Proof.
  intros Hn Hb. destruct (decide (n = 0)) as [->|]; [destruct (decide (b = 0)) as [->|]; [done|by rewrite (of_Z_exact b) by lia]|].
  rewrite !of_Z_exact by lia.
  unfold SFleb, canon. cbn [SFcompare]. pose proof (Z.log2_le_mono n b ltac:(lia)).
  destruct (Z.compare_spec (Z.log2 n - 52) (Z.log2 b - 52)) as [E|E|E]; [|done|lia].
  replace (Z.log2 b) with (Z.log2 n) by lia. assert (0 < 2 ^ (52 - Z.log2 n)).
  { apply Z.pow_pos_nonneg; [lia|]. assert (Z.log2 n < 53) by (apply Z.log2_lt_pow2; lia). lia. }
  rewrite Pos.compare_cont_spec. destruct (Pos.compare_spec (Z.to_pos (n * 2 ^ (52 - Z.log2 n))) (Z.to_pos (b * 2 ^ (52 - Z.log2 n)))) as [| |L]; try done.
  apply Pos2Z.pos_lt_pos in L. rewrite !Z2Pos.id in L by nia. nia.
Qed.

(** Adding zero. *)
Lemma add_zero n s : 0 <= n < 2 ^ 53 -> SFadd Float64.prec Float64.emax (Float64.of_Z n) (S754_zero s) = Float64.of_Z n.
Proof. intros Hn. destruct (decide (n = 0)) as [->|]; [by destruct s|]. by rewrite of_Z_exact by lia. Qed.
