(* ===== verification/GoJson.v ===== *)
(** * Go's encoding/json: values, decoding and encoding

    What [json.Unmarshal] puts into an [interface{}]: a [map[string]interface{}]
    is a [gmap], whose entries Go visits in any order.  [Unmarshal] gives no text
    for its errors. *)
From S2P Require Import Prelude GoStrings GoFloat.
From Stdlib Require Import Ascii String.

Local Open Scope string_scope.
Local Open Scope nat_scope.

Inductive json :=
  | JNull
  | JBool (b : bool)
  | JNumber (x : float64)
  | JString (s : string)
  | JArray (l : list json)
  | JObject (m : gmap string json).

(** ** [reflect.DeepEqual], which compares numbers with [==] *)

Fixpoint DeepEqual (v w : json) : bool :=
  match v, w with
  | JNull, JNull => true
  | JBool b, JBool c => Bool.eqb b c
  | JNumber x, JNumber y => SFeqb x y
  | JString s, JString t => bool_decide (s = t)
  | JArray l, JArray k =>
      (fix eq_list (l k : list json) : bool :=
         match l, k with
         | [], [] => true
         | v :: l, w :: k => DeepEqual v w && eq_list l k
         | _, _ => false
         end) l k
  | JObject m, JObject n =>
      bool_decide (size m = size n) &&
      map_fold (fun key v same => match n !! key with Some w => DeepEqual v w && same | None => false end) true m
  | _, _ => false
  end.

(** ** UTF-8 *)

Definition byte_in (lo hi : nat) (c : ascii) : bool := (lo <=? nat_of_ascii c) && (nat_of_ascii c <=? hi).

(** The number of bytes of the multi-byte rune in front of [s], if it is valid. *)
Definition rune_length (s : string) : option nat :=
  let tail lo hi (s : string) := match s with String c _ => byte_in lo hi c | _ => false end in
  match s with
  | String a s1 =>
      let s2 := drop_str 1 s1 in
      let s3 := drop_str 2 s1 in
      if byte_in 194 223 a then if tail 128 191 s1 then Some 2 else None
      else if byte_in 224 239 a then
        let lo := if byte_in 224 224 a then 160 else 128 in
        let hi := if byte_in 237 237 a then 159 else 191 in
        if tail lo hi s1 && tail 128 191 s2 then Some 3 else None
      else if byte_in 240 244 a then
        let lo := if byte_in 240 240 a then 144 else 128 in
        let hi := if byte_in 244 244 a then 143 else 191 in
        if tail lo hi s1 && tail 128 191 s2 && tail 128 191 s3 then Some 4 else None
      else None
  | EmptyString => None
  end.

Definition RuneError : N := 65533.

(** [utf8.EncodeRune] of a code point. *)
Definition EncodeRune (r : N) : string :=
  let cont (r : N) := (128 + r mod 64)%N in
  fold_right (fun n s => String (ascii_of_N n) s) ""
    (if r <? 128 then [r]
     else if r <? 2048 then [192 + r / 64; cont r]
     else if r <? 65536 then [224 + r / 4096; cont (r / 64); cont r]
     else [240 + r / 262144; cont (r / 4096); cont (r / 64); cont r])%N.

(** ** Decoding *)

Definition is_space (c : ascii) : bool := bool_decide (nat_of_ascii c ∈ [9; 10; 13; 32]).

Fixpoint skip_space (s : string) : string :=
  match s with
  | String c s' => if is_space c then skip_space s' else s
  | EmptyString => s
  end.

Definition hex_digit (c : ascii) : option N :=
  if byte_in 48 57 c then Some (N_of_ascii c - 48)%N
  else if byte_in 97 102 c then Some (N_of_ascii c - 87)%N
  else if byte_in 65 70 c then Some (N_of_ascii c - 55)%N
  else None.

(** The four digits of a [\u] escape. *)
Definition hex4 (s : string) : option (N * string) :=
  match s with
  | String a (String b (String c (String d s))) =>
      match hex_digit a, hex_digit b, hex_digit c, hex_digit d with
      | Some a, Some b, Some c, Some d => Some ((((a * 16 + b) * 16 + c) * 16 + d)%N, s)
      | _, _, _, _ => None
      end
  | _ => None
  end.

(** The code point two halves of a surrogate pair stand for. *)
Definition utf16_pair (r r' : N) : option N :=
  if (r <? 56320)%N && (56320 <=? r')%N && (r' <? 57344)%N then Some (65536 + (r - 55296) * 1024 + (r' - 56320))%N
  else None.

(** What follows [\u], together with the other half of a surrogate pair. *)
Definition unicode_escape (s : string) : option (string * string) :=
  '(r, s) ← hex4 s;
  if (r <? 55296)%N || (57344 <=? r)%N then Some (EncodeRune r, s)
  else
    let pair := match s with
                | String "\" (String "u" s') =>
                    '(r', s'') ← hex4 s'; code ← utf16_pair r r'; Some (EncodeRune code, s'')
                | _ => None
                end in
    Some (from_opt (EncodeRune RuneError, s) pair).

Definition simple_escape (c : ascii) : option ascii :=
  match c with
  | "b" => Some "008" | "f" => Some "012" | "n" => Some "010" | "r" => Some "013"
  | "t" => Some "009" | "\" => Some "\" | "/" => Some "/" | "034" => Some "034"
  | _ => None
  end%char.

(** A string literal behind its opening quote, and what follows it. *)
Fixpoint scan_string (fuel : nat) (s : string) : option (string * string) :=
  match fuel, s with
  | S fuel, String c s' =>
      let following (piece rest : string) :=
        '(text, s) ← scan_string fuel rest; Some (piece ++ text, s) in
      if Ascii.eqb c "034" then Some ("", s')
      else if Ascii.eqb c "\" then
        match s' with
        | String "u" s'' => '(piece, rest) ← unicode_escape s''; following piece rest
        | String e s'' => c ← simple_escape e; following (String c "") s''
        | EmptyString => None
        end
      else if nat_of_ascii c <? 32 then None
      else if nat_of_ascii c <? 128 then following (String c "") s'
      else match rune_length s with
           | Some n => following (take_str n s) (drop_str n s)
           | None => following (EncodeRune RuneError) s'
           end
  | _, _ => None
  end.

(** The fraction and the exponent of a number with digits [m]: a sign and what
    follows it is [None] where a digit is missing. *)
Definition scan_fraction (m : Z) (s : string) : option (Z * Z * string) :=
  match s with
  | String "." s' =>
      let '(m', n, rest) := scan_digits m 0 s' in
      if (n =? 0)%Z then None else Some (m', n, rest)
  | _ => Some (m, 0%Z, s)
  end.

Definition scan_exponent (s : string) : option (Z * string) :=
  match s with
  | String ("e" | "E") s' =>
      let '(neg, s'') := match s' with
                         | String "-" r => (true, r)
                         | String "+" r => (false, r)
                         | _ => (false, s')
                         end in
      let '(e, n, rest) := scan_digits 0 0 s'' in
      if (n =? 0)%Z then None else Some (if neg then (- e)%Z else e, rest)
  | _ => Some (0%Z, s)
  end.

(** A number; one out of range is an error of [Unmarshal]. *)
Definition scan_number (s : string) : option (float64 * string) :=
  let '(neg, s) := match s with String "-" s' => (true, s') | _ => (false, s) end in
  '(m, s) ← match s with
            | String "0" s' => Some (0%Z, s')
            | _ => let '(m, n, rest) := scan_digits 0 0 s in
                   if (n =? 0)%Z then None else Some (m, rest)
            end;
  '(m, digits, s) ← scan_fraction m s;
  '(e, s) ← scan_exponent s;
  match of_decimal neg m (e - digits) with
  | S754_infinity _ => None
  | x => Some (x, s)
  end.

Definition scan_word (word : string) (v : json) (s : string) : option (json * string) :=
  if HasPrefix s word then Some (v, drop_str (String.length word) s) else None.

(** The nesting the scanner allows. *)
Definition maxNestingDepth : N := 10000.

Section containers.
Context (scan_value : string -> option (json * string)).

(** Behind a value: a comma and the next one, or the closing bracket. *)
Fixpoint scan_elements (fuel : nat) (s : string) : option (list json * string) :=
  match fuel with
  | O => None
  | S fuel =>
      '(v, s) ← scan_value s;
      match skip_space s with
      | String "]" s => Some ([v], s)
      | String "," s => '(l, s) ← scan_elements fuel s; Some (v :: l, s)
      | _ => None
      end
  end.

(** The members of an object in the order of the text. *)
Fixpoint scan_members (fuel : nat) (s : string) : option (list (string * json) * string) :=
  match fuel, skip_space s with
  | S fuel, String "034" s =>
      '(key, s) ← scan_string (String.length s) s;
      match skip_space s with
      | String ":" s =>
          '(v, s) ← scan_value s;
          match skip_space s with
          | String "}" s => Some ([(key, v)], s)
          | String "," s => '(l, s) ← scan_members fuel s; Some ((key, v) :: l, s)
          | _ => None
          end
      | _ => None
      end
  | _, _ => None
  end.
End containers.

(** Of two members with the same name the last counts. *)
Definition object_of (members : list (string * json)) : json :=
  JObject (list_to_map (rev members)).

Fixpoint scan_value (fuel : nat) (depth : N) (s : string) : option (json * string) :=
  match fuel with
  | O => None
  | S fuel =>
      let s := skip_space s in
      match s with
      | String "{" s =>
          if (maxNestingDepth <=? depth)%N then None
          else
            match skip_space s with
            | String "}" s => Some (JObject ∅, s)
            | s => '(l, s) ← scan_members (scan_value fuel (depth + 1)) fuel s; Some (object_of l, s)
            end
      | String "[" s =>
          if (maxNestingDepth <=? depth)%N then None
          else
            match skip_space s with
            | String "]" s => Some (JArray [], s)
            | s => '(l, s) ← scan_elements (scan_value fuel (depth + 1)) fuel s; Some (JArray l, s)
            end
      | String "034" s => '(text, s) ← scan_string (String.length s) s; Some (JString text, s)
      | String "n" _ => scan_word "null" JNull s
      | String "t" _ => scan_word "true" (JBool true) s
      | String "f" _ => scan_word "false" (JBool false) s
      | _ => '(x, s) ← scan_number s; Some (JNumber x, s)
      end
  end.

(** [json.Unmarshal(text, &v)] for [var v interface{}]. *)
Definition Unmarshal (text : string) : option json :=
  '(v, rest) ← scan_value (S (String.length text)) 0 text;
  if decide (skip_space rest = "") then Some v else None.

(** A [map[string]interface{}], which may be [nil]. *)
Abbreviation gomap := (option (gmap string json)).

(** [json.Unmarshal(text, &m)] for [var m map[string]interface{}]; [null] leaves
    it [nil]. *)
Definition UnmarshalMap (text : string) : option gomap :=
  match Unmarshal text with
  | Some JNull => Some None
  | Some (JObject m) => Some (Some m)
  | _ => None
  end.

(** ** Encoding *)

Definition hex_char (n : N) : ascii := ascii_of_N (if n <? 10 then 48 + n else 87 + n)%N.

Definition u_escape (r : N) : string :=
  "\u" ++ fold_right (fun n s => String (hex_char n) s) ""
    [(r / 4096) mod 16; (r / 256) mod 16; (r / 16) mod 16; r mod 16]%N.

Definition short_escape (c : ascii) : option ascii :=
  match c with
  | "008" => Some "b" | "012" => Some "f" | "010" => Some "n" | "013" => Some "r"
  | "009" => Some "t" | "\" => Some "\" | "034" => Some "034"
  | _ => None
  end%char.

(** An ASCII character of a string literal; [json.Marshal] also escapes what
    HTML gives a meaning. *)
Definition escape_ascii (c : ascii) : string :=
  match short_escape c with
  | Some e => String "\" (String e "")
  | None =>
      if (nat_of_ascii c <? 32) || bool_decide (c ∈ ["<"; ">"; "&"]%char) then u_escape (N_of_ascii c)
      else String c ""
  end.

(** The line and paragraph separators, U+2028 and U+2029. *)
Definition escape_rune (rune : string) : string :=
  if decide (rune = EncodeRune 8232) then u_escape 8232
  else if decide (rune = EncodeRune 8233) then u_escape 8233
  else rune.

Fixpoint escape (fuel : nat) (s : string) : string :=
  match fuel, s with
  | S fuel, String c s' =>
      if nat_of_ascii c <? 128 then escape_ascii c ++ escape fuel s'
      else match rune_length s with
           | Some n => escape_rune (take_str n s) ++ escape fuel (drop_str n s)
           | None => u_escape RuneError ++ escape fuel s'
           end
  | _, _ => ""
  end.

Definition quote (s : string) : string := String "034" (s ++ String "034" "").

(** [json.Marshal] of a string. *)
Definition Marshal_string (s : string) : string := quote (escape (String.length s) s).

(** The entries of a map in the order of their keys. *)
Definition by_key {A} (p q : string * A) : Prop := (fst p ≤ fst q)%string.
#[export] Instance by_key_dec {A} (p q : string * A) : Decision (by_key p q).
Proof. unfold by_key. apply _. Defined.

Definition sorted_entries {A} (m : gmap string A) : list (string * A) := merge_sort by_key (map_to_list m).

(** [json.Marshal] of a decoded value. *)
Fixpoint Marshal (v : json) : string :=
  match v with
  | JNull => "null"
  | JBool b => if b then "true" else "false"
  | JNumber x => Marshal_float x
  | JString s => Marshal_string s
  | JArray l => "[" ++ Join (map Marshal l) "," ++ "]"
  | JObject m =>
      "{" ++ Join (map (fun '(key, text) => Marshal_string key ++ ":" ++ text) (sorted_entries (Marshal <$> m))) "," ++ "}"
  end.

(** [fmt.Sprintf("%v", v)] *)
Fixpoint Sprint (v : json) : string :=
  match v with
  | JNull => "<nil>"
  | JBool b => if b then "true" else "false"
  | JNumber x => Sprint_float x
  | JString s => s
  | JArray l => "[" ++ Join (map Sprint l) " " ++ "]"
  | JObject m => "map[" ++ Join (map (fun '(key, text) => key ++ ":" ++ text) (sorted_entries (Sprint <$> m))) " " ++ "]"
  end.

(** ** Examples *)

(** JSON text with its quotes written as [']. *)
Fixpoint quoted (s : string) : string :=
  match s with
  | String c s => String (if Ascii.eqb c "'" then "034"%char else c) (quoted s)
  | EmptyString => ""
  end.

Example Unmarshal_example :
  Unmarshal (quoted " {'a': [1, -2.5e1, true, null], 'b\u00e9\ud83d\ude00': {'c': 'x\n'}, 'a': 0} ") =
  Some (JObject {[ "a" := JNumber Float64.zero;
                   "b" ++ EncodeRune 233 ++ EncodeRune 128512 := JObject {[ "c" := JString ("x" ++ bytes [10]) ]} ]}).
Proof. vm_compute. reflexivity. Qed.

Example Unmarshal_errors :
  map (fun s => Unmarshal (quoted s)) ["{'a':1,}"; "[1 2]"; "01"; "1e999"; "'a"; "nul"; "{} x"; ""] = repeat None 8.
Proof. vm_compute. reflexivity. Qed.

Example Marshal_example :
  Marshal <$> Unmarshal (quoted "{'b':[1.50,1e21,'<'],'a':{}}") = Some (quoted "{'a':{},'b':[1.5,1e+21,'\u003c']}").
Proof. vm_compute. reflexivity. Qed.

Example Sprint_example :
  Sprint <$> Unmarshal (quoted "{'b':[1.50,'x',null],'a':{}}") = Some "map[a:map[] b:[1.5 x <nil>]]".
Proof. vm_compute. reflexivity. Qed.
