(* ===== verification/JsonValue.v ===== *)
(** * JSON values: their nesting, induction on them, and when they are equal

    [DeepEqual] is an equivalence on values without a NaN, and two objects are
    equal when they have the same keys with equal values. *)
From S2P Require Import Prelude GoStrings GoFloat GoJson.
From Stdlib Require Import Ascii String.

Local Open Scope string_scope.

(** ** Nesting *)

(** The nesting of a value. *)
Fixpoint depth (v : json) : nat :=
  match v with
  | JArray l => S (list_max (map depth l))
  | JObject m => S (map_fold (fun _ v n => Nat.max (depth v) n) 0%nat m)
  | _ => 0%nat
  end.

Lemma depth_lookup (m : gmap string json) key v : m !! key = Some v -> (depth v < depth (JObject m))%nat.
Proof.
  intros Hv. simpl. rewrite <- (insert_delete_id m key v Hv), map_fold_insert_L; [lia| |by rewrite lookup_delete_eq].
  intros *; lia.
Qed.

Lemma depth_element l v : v ∈ l -> (depth v < depth (JArray l))%nat.
Proof.
  intros Hv. simpl. pose proof (proj1 (list_max_le (map depth l) _) (le_n _)) as H. rewrite List.Forall_forall in H.
  specialize (H (depth v)). enough (depth v <= list_max (map depth l))%nat by lia. apply H, in_map, list_elem_of_In, Hv.
Qed.

Lemma depth_array_le l n : (forall v, v ∈ l -> (depth v <= n)%nat) -> (depth (JArray l) <= S n)%nat.
Proof.
  intros Hl. simpl. apply le_n_S, list_max_le. rewrite List.Forall_forall. intros d (v & <- & Hv)%in_map_iff.
  by apply Hl, list_elem_of_In.
Qed.

Lemma depth_object_le m n : (forall key v, m !! key = Some v -> (depth v <= n)%nat) -> (depth (JObject m) <= S n)%nat.
Proof.
  simpl. intros Hm. apply le_n_S. revert Hm.
  apply (map_fold_weak_ind (fun d m => (forall key v, m !! key = Some v -> (depth v <= n)%nat) -> (d <= n)%nat)); [lia|].
  intros key v m' d Hk IH Hm. apply Nat.max_lub.
  - apply (Hm key). by rewrite lookup_insert_eq.
  - apply IH. intros key' v' Hv. apply (Hm key'). rewrite lookup_insert_ne; [done|]. intros <-. congruence.
Qed.

(** ** Equality of values *)

Lemma json_nested_ind (P : json -> Prop) :
  P JNull -> (forall b, P (JBool b)) -> (forall x, P (JNumber x)) -> (forall s, P (JString s)) ->
  (forall l, (forall v, v ∈ l -> P v) -> P (JArray l)) ->
  (forall m, (forall key v, m !! key = Some v -> P v) -> P (JObject m)) ->
  forall v, P v.
Proof.
  intros Hnull Hbool Hnum Hstr Harr Hobj v. remember (depth v) as d eqn:Hd. revert v Hd.
  induction (lt_wf d) as [d _ IH]. intros [| | | |l|m] ->; try done.
  - apply Harr. intros v Hv. eapply IH; [by apply depth_element|done].
  - apply Hobj. intros key v Hv. eapply IH; [by eapply depth_lookup|done].
Qed.

Lemma DeepEqual_array l k :
  DeepEqual (JArray l) (JArray k) = true <-> Forall2 (fun v w => DeepEqual v w = true) l k.
Proof.
  simpl. revert k. induction l as [|v l IH]; intros [|w k].
  - by split.
  - split; [done|]. intros H. inversion H.
  - split; [done|]. intros H. inversion H.
  - by rewrite andb_true_iff, IH, Forall2_cons.
Qed.

Lemma DeepEqual_object m n :
  DeepEqual (JObject m) (JObject n) = true <->
  size m = size n /\ forall key v, m !! key = Some v -> exists w, n !! key = Some w /\ DeepEqual v w = true.
Proof.
  simpl. rewrite andb_true_iff, bool_decide_eq_true. apply and_iff_compat_l.
  apply (map_fold_weak_ind (fun same m => same = true <->
    forall key v, m !! key = Some v -> exists w, n !! key = Some w /\ DeepEqual v w = true)).
  - split; [|done]. intros _ key v. by rewrite lookup_empty.
  - intros key v m' same Hk IH. setoid_rewrite lookup_insert_Some. split.
    + intros H key' v' [[<- <-]|[_ Hv]]; destruct (n !! key) as [w|]; try done; apply andb_true_iff in H as [H1 H2]; [eauto|].
      by eapply IH.
    + intros H. destruct (H key v) as (w & -> & Hw); [by left|]. apply andb_true_iff. split; [done|]. apply IH.
      intros key' v' Hv. apply (H key' v'). right. split; [|done]. intros <-. congruence.
Qed.

Lemma SFeqb_trans x y z : SFeqb x y = true -> SFeqb y z = true -> SFeqb x z = true.
Proof.
  unfold SFeqb, SFcompare. change (Pos.compare_cont Eq) with Pos.compare.
  destruct x as [sx|[]| |[] mx ex], y as [sy|[]| |[] my ey], z as [sz|[]| |[] mz ez]; try done.
  all: destruct (Z.compare_spec ex ey) as [->| |]; [|done..]; destruct (Pos.compare_spec mx my) as [->| |]; done.
Qed.

Lemma SFeqb_sym x y : SFeqb x y = SFeqb y x.
Proof.
  unfold SFeqb, SFcompare. change (Pos.compare_cont Eq) with Pos.compare.
  destruct x as [[]|[]| |[] mx ex], y as [[]|[]| |[] my ey]; try reflexivity.
  all: rewrite (Z.compare_antisym ex ey), (Pos.compare_antisym mx my).
  all: destruct (ex ?= ey)%Z; try reflexivity; by destruct (mx ?= my)%positive.
Qed.

(** Equal objects have equal values, or none, under every key. *)
Lemma DeepEqual_lookup m n :
  DeepEqual (JObject m) (JObject n) = true <->
  forall key, option_Forall2 (fun v w => DeepEqual v w = true) (m !! key) (n !! key).
Proof.
  rewrite DeepEqual_object. split.
  - intros [Hs Hm] key. destruct (m !! key) as [v|] eqn:E; [destruct (Hm key v E) as (w & -> & Hw); by constructor|].
    destruct (n !! key) as [w|] eqn:En; [|constructor]. exfalso. apply not_elem_of_dom in E. apply E.
    assert (Hsub : dom m ⊆ dom n).
    { intros k. rewrite !elem_of_dom. intros [v Hv]. destruct (Hm k v Hv) as (w' & -> & _). eauto. }
    rewrite (set_subseteq_size_eq _ _ Hsub) by (rewrite !size_dom; lia). apply elem_of_dom. eauto.
  - intros H. split.
    + rewrite <- !size_dom. f_equal. apply set_eq. intros key. rewrite !elem_of_dom.
      destruct (H key); [by split; eauto|done].
    + intros key v Hv. specialize (H key). rewrite Hv in H. inversion H; subst. eauto.
Qed.

Lemma DeepEqual_sym v : forall w, DeepEqual v w = true -> DeepEqual w v = true.
Proof.
  induction v as [|b|x|s|l IH|m IH] using json_nested_ind; intros w H; destruct w; try discriminate H; try done.
  - by destruct b, b0.
  - simpl in *. by rewrite SFeqb_sym.
  - simpl in *. apply bool_decide_eq_true in H as ->. by apply bool_decide_eq_true.
  - apply DeepEqual_array in H. apply DeepEqual_array. apply Forall2_flip.
    apply Forall2_same_length_lookup in H as [Hlen H]. apply Forall2_same_length_lookup. split; [done|].
    intros i v w Hv Hw. apply IH; [by eapply list_elem_of_lookup_2|by eapply H].
  - rewrite DeepEqual_lookup in *. intros key. specialize (H key).
    destruct (m !! key) as [v|] eqn:E; inversion H; subst; constructor. by eapply IH.
Qed.

Lemma DeepEqual_trans u : forall v w, DeepEqual u v = true -> DeepEqual v w = true -> DeepEqual u w = true.
Proof.
  induction u as [|b|x|s|l IH|m IH] using json_nested_ind; intros v w Huv Hvw; destruct v; try discriminate Huv;
    destruct w; try discriminate Hvw; simpl in Huv, Hvw; try done.
  - apply Bool.eqb_prop in Huv as ->. done.
  - by eapply SFeqb_trans.
  - apply bool_decide_eq_true in Huv as ->. done.
  - apply DeepEqual_array. apply DeepEqual_array in Huv. apply DeepEqual_array in Hvw.
    revert l1 Hvw. induction Huv as [|v w l k Hv Huv IHl]; intros l' Hvw; inversion Hvw; subst; [constructor|].
    constructor; [by eapply IH; [left|..]|]. apply IHl; [|done]. intros. eapply IH; [by right|..]; done.
  - apply DeepEqual_object in Huv as [Hs1 H1]. apply DeepEqual_object in Hvw as [Hs2 H2].
    apply DeepEqual_object. split; [congruence|]. intros key v Hv.
    destruct (H1 key v Hv) as (v' & Hv' & Hvv'). destruct (H2 key v' Hv') as (w & Hw & Hvw). exists w.
    split; [done|]. by eapply IH.
Qed.

