(* ===== verification/ProtoParser.v ===== *)
(** * The Protobuf parser (internal/schema/protobuf/parser.go, resolver.go)

    Compiling is github.com/bufbuild/protocompile's work: [Compile] takes the
    resolvers of imports and gives descriptors, which are here as far as the parser
    reads them.  [Kind] and [Cardinality] are those of the checker. *)
From S2P Require Import Prelude GoStrings GoJson StorageTypes MemStore ProtoCompat.
From Stdlib Require Import Ascii String.

Local Open Scope string_scope.

Module Proto.

(** ** Descriptors *)

Inductive Syntax := Proto2 | Proto3 | Editions.

#[export] Instance Syntax_eq_dec : EqDecision Syntax.
Proof. solve_decision. Defined.

(** A type, with its full name if it is a message or an enum. *)
Record FieldType := MkFieldType { TypeKind : Kind; TypeFullName : string }.

#[export] Instance FieldType_eq_dec : EqDecision FieldType.
Proof. solve_decision. Defined.

Record Field := MkField {
  FieldName : string;
  Number : Z;
  FieldCardinality : Cardinality;
  Type_ : FieldType;
  MapEntry : option (FieldType * FieldType);   (* [MapKey()] and [MapValue()] of a map *)
  OneofIndex : option Z                        (* of [ContainingOneof()] *)
}.

Record EnumValue := MkEnumValue { ValueName : string; ValueNumber : Z }.
Record Enum := MkEnum { EnumName : string; Values : list EnumValue }.

Record Oneof := MkOneof { OneofName : string; IsSynthetic : bool; OneofFields : list Field }.

Inductive Message :=
  MkMessage (name : string) (isMapEntry : bool) (fields : list Field) (messages : list Message)
    (enums : list Enum) (oneofs : list Oneof).

Definition MessageName (m : Message) : string := let '(MkMessage name _ _ _ _ _) := m in name.
Definition IsMapEntry (m : Message) : bool := let '(MkMessage _ isMapEntry _ _ _ _) := m in isMapEntry.
Definition Fields (m : Message) : list Field := let '(MkMessage _ _ fields _ _ _) := m in fields.

Record MethodDescriptor := MkMethod {
  MethodName : string; IsStreamingClient : bool; IsStreamingServer : bool; Input : string; Output : string
}.
Record Service := MkService { ServiceName : string; Methods : list MethodDescriptor }.

Record FileDescriptor := MkFile {
  Path : string;
  Package : string;
  FileSyntax : Syntax;
  Imports : list string;
  Messages : list Message;
  Enums : list Enum;
  Services : list Service
}.

(** ** The canonical text *)

Definition newline : string := String "010" "".

(** [strings.Repeat("  ", indent)] *)
Fixpoint prefix (indent : nat) : string :=
  match indent with O => "" | S indent => "  " ++ prefix indent end.

Definition typeName (t : FieldType) : string :=
  match TypeKind t with
  | BoolKind => "bool" | Int32Kind => "int32" | Sint32Kind => "sint32" | Uint32Kind => "uint32"
  | Int64Kind => "int64" | Sint64Kind => "sint64" | Uint64Kind => "uint64"
  | Sfixed32Kind => "sfixed32" | Fixed32Kind => "fixed32" | FloatKind => "float"
  | Sfixed64Kind => "sfixed64" | Fixed64Kind => "fixed64" | DoubleKind => "double"
  | StringKind => "string" | BytesKind => "bytes"
  | MessageKind => TypeFullName t | EnumKind => TypeFullName t
  | GroupKind => "group"
  end.

Definition protoTypeName (f : Field) : string := typeName (Type_ f).

(** A line of a declaration. *)
Definition item (indent : nat) (text : string) : string := prefix indent ++ text ++ ";" ++ newline.

Definition mapFieldText (key value name : string) (number : Z) : string :=
  "map<" ++ key ++ ", " ++ value ++ "> " ++ name ++ " = " ++ Itoa number.
Definition fieldText (label type name : string) (number : Z) : string :=
  label ++ type ++ " " ++ name ++ " = " ++ Itoa number.

Definition normalizeField (syntax : Syntax) (f : Field) (indent : nat) : string :=
  let plain label := item indent (fieldText label (protoTypeName f) (FieldName f) (Number f)) in
  match FieldCardinality f, MapEntry f with
  | Repeated, Some (key, value) => item indent (mapFieldText (typeName key) (typeName value) (FieldName f) (Number f))
  | Repeated, None => plain "repeated "
  | Optional, _ => if decide (syntax = Proto2) then plain "optional " else plain ""
  | Required, _ => plain "required "
  end.

(** [sort.Slice] by number, over texts with their numbers. *)
Definition by_number (a b : Z * string) : Prop := (fst a <= fst b)%Z.
#[export] Instance by_number_dec a b : Decision (by_number a b) := Z_le_dec (fst a) (fst b).

Definition sorted_texts (e : env) (l : list (Z * string)) : string :=
  String.concat "" (map snd (merge_sort by_number (shuffle e l))).

Definition open_block (indent : nat) (header : string) : string := prefix indent ++ header ++ " {" ++ newline.
Definition close_block (indent : nat) : string := prefix indent ++ "}" ++ newline.

Definition normalizeEnum (e : env) (enum : Enum) (indent : nat) : string :=
  open_block indent ("enum " ++ EnumName enum) ++
  sorted_texts e (map (fun v => (ValueNumber v, item (S indent) (ValueName v ++ " = " ++ Itoa (ValueNumber v)))) (Values enum)) ++
  close_block indent.

Definition normalizeOneof (e : env) (o : Oneof) (indent : nat) : string :=
  open_block indent ("oneof " ++ OneofName o) ++
  sorted_texts e (map (fun f => (Number f, item (S indent) (fieldText "" (protoTypeName f) (FieldName f) (Number f)))) (OneofFields o)) ++
  close_block indent.

(** Texts in order, one after the other. *)
Definition sorted_blocks (l : list string) : string := String.concat "" (sort_strings l).

Fixpoint normalizeMessage (e : env) (syntax : Syntax) (msg : Message) (indent : nat) : string :=
  match msg with
  | MkMessage name _ fields messages enums oneofs =>
      open_block indent ("message " ++ name) ++
      sorted_texts e (map (fun f => (Number f, normalizeField syntax f (S indent))) fields) ++
      sorted_blocks (flat_map (fun nm => if IsMapEntry nm then [] else [normalizeMessage e syntax nm (S indent)]) messages) ++
      sorted_blocks (map (fun enum => normalizeEnum e enum (S indent)) enums) ++
      sorted_blocks (flat_map (fun o => if IsSynthetic o then [] else [normalizeOneof e o (S indent)]) oneofs) ++
      close_block indent
  end.

Definition methodText (m : MethodDescriptor) : string :=
  let inputStream := if IsStreamingClient m then "stream " else "" in
  let outputStream := if IsStreamingServer m then "stream " else "" in
  "rpc " ++ MethodName m ++ " (" ++ inputStream ++ Input m ++ ") returns (" ++ outputStream ++ Output m ++ ")".

Definition normalizeService (s : Service) : string :=
  open_block 0 ("service " ++ ServiceName s) ++
  sorted_blocks (map (fun m => item 1 (methodText m)) (Methods s)) ++
  close_block 0.

Definition quoted_word (word : string) : string := String "034" (word ++ String "034" "").

Definition syntaxText (syntax : Syntax) : string :=
  "syntax = " ++ quoted_word (if decide (syntax = Proto3) then "proto3" else "proto2").

Definition normalize (e : env) (fd : FileDescriptor) : string :=
  (if decide (Package fd = "") then "" else item 0 ("package " ++ Package fd)) ++
  item 0 (syntaxText (FileSyntax fd)) ++
  sorted_blocks (map (fun msg => normalizeMessage e (FileSyntax fd) msg 0) (Messages fd)) ++
  sorted_blocks (map (fun enum => normalizeEnum e enum 0) (Enums fd)) ++
  sorted_blocks (map normalizeService (Services fd)).

(** ** The descriptor as a message *)

Record FieldProto := MkFieldProto {
  FPName : string; FPNumber : Z; FPType : Kind; FPLabel : Cardinality; FPTypeName : option string; FPOneofIndex : option Z
}.
Record EnumProto := MkEnumProto { EPName : string; EPValues : list (string * Z) }.
Inductive DescriptorProto :=
  MkDescriptorProto (name : string) (fields : list FieldProto) (oneofs : list string) (nested : list DescriptorProto) (enums : list EnumProto).
Record ServiceProto := MkServiceProto { SPName : string; SPMethods : list (string * string * string) }.
Record FileDescriptorProto := MkFileProto {
  FDName : string; FDPackage : option string; FDSyntax : string; FDDependency : list string;
  FDMessages : list DescriptorProto; FDEnums : list EnumProto; FDServices : list ServiceProto
}.

(** [None] is a panic: the full name of the message of an enum field, which is nil. *)
Definition fieldToProto (fd : Field) : option FieldProto :=
  let proto name := Some (MkFieldProto (FieldName fd) (Number fd) (TypeKind (Type_ fd)) (FieldCardinality fd) name (OneofIndex fd)) in
  match TypeKind (Type_ fd) with
  | MessageKind => proto (Some (TypeFullName (Type_ fd)))
  | EnumKind => None
  | _ => proto None
  end.

Definition enumToProto (ed : Enum) : EnumProto :=
  MkEnumProto (EnumName ed) (map (fun v => (ValueName v, ValueNumber v)) (Values ed)).

Fixpoint messageToProto (md : Message) : option DescriptorProto :=
  match md with
  | MkMessage name _ fields messages enums oneofs =>
      fields ← mapM fieldToProto fields;
      nested ← (fix all (l : list Message) : option (list DescriptorProto) :=
                  match l with
                  | [] => Some []
                  | m :: l => p ← messageToProto m; ps ← all l; Some (p :: ps)
                  end) messages;
      Some (MkDescriptorProto name fields (map OneofName oneofs) nested (map enumToProto enums))
  end.

Definition serviceToProto (sd : Service) : ServiceProto :=
  MkServiceProto (ServiceName sd) (map (fun m => (MethodName m, Input m, Output m)) (Methods sd)).

Definition toFileDescriptorProto (fd : FileDescriptor) : option FileDescriptorProto :=
  messages ← mapM messageToProto (Messages fd);
  Some (MkFileProto (Path fd) (if decide (Package fd = "") then None else Some (Package fd))
          (if decide (FileSyntax fd = Proto2) then "proto2" else "proto3") (Imports fd)
          messages (map enumToProto (Enums fd)) (map serviceToProto (Services fd))).

(** ** Imports: resolver.go *)

(** [getWellKnownTypes]; [quoted] makes single quotes double ones. *)
Definition getWellKnownTypes : gmap string string :=
  list_to_map (map (fun '(path, text) => (path, quoted text)) [
    ("google/protobuf/any.proto", "
syntax = 'proto3';
package google.protobuf;
message Any {
  string type_url = 1;
  bytes value = 2;
}");
    ("google/protobuf/timestamp.proto", "
syntax = 'proto3';
package google.protobuf;
message Timestamp {
  int64 seconds = 1;
  int32 nanos = 2;
}");
    ("google/protobuf/duration.proto", "
syntax = 'proto3';
package google.protobuf;
message Duration {
  int64 seconds = 1;
  int32 nanos = 2;
}");
    ("google/protobuf/empty.proto", "
syntax = 'proto3';
package google.protobuf;
message Empty {}");
    ("google/protobuf/struct.proto", "
syntax = 'proto3';
package google.protobuf;
message Struct {
  map<string, Value> fields = 1;
}
message Value {
  oneof kind {
    NullValue null_value = 1;
    double number_value = 2;
    string string_value = 3;
    bool bool_value = 4;
    Struct struct_value = 5;
    ListValue list_value = 6;
  }
}
message ListValue {
  repeated Value values = 1;
}
enum NullValue {
  NULL_VALUE = 0;
}");
    ("google/protobuf/wrappers.proto", "
syntax = 'proto3';
package google.protobuf;
message DoubleValue { double value = 1; }
message FloatValue { float value = 1; }
message Int64Value { int64 value = 1; }
message UInt64Value { uint64 value = 1; }
message Int32Value { int32 value = 1; }
message UInt32Value { uint32 value = 1; }
message BoolValue { bool value = 1; }
message StringValue { string value = 1; }
message BytesValue { bytes value = 1; }");
    ("google/protobuf/field_mask.proto", "
syntax = 'proto3';
package google.protobuf;
message FieldMask {
  repeated string paths = 1;
}");
    ("google/protobuf/descriptor.proto", "syntax = 'proto2'; package google.protobuf;")]).

(** The files of the schema and its references; [wellKnown] are the files the
    package itself has. *)
Record referenceResolver := MkResolver { refs : gmap string string; wellKnown : gmap string string }.

Definition withReferencesAndSchema (schema : string) (references : list Reference) : referenceResolver :=
  MkResolver
    (fold_left (fun files ref => if decide (RefName ref = "") then files else <[RefName ref := RefSchema ref]> files)
       references {[ "schema.proto" := schema ]})
    getWellKnownTypes.

Definition fileNotFound (path : string) : error := errors_New ("file not found: " ++ path).

Definition FindFileByPath (r : referenceResolver) (path : string) : result string :=
  let reference :=
    match refs r !! path with
    | Some content => if decide (content = "") then Err (fileNotFound path) else Ok content
    | None => Err (fileNotFound path)
    end in
  match wellKnown r !! path with
  | Some content => if decide (content = "") then reference else Ok content
  | None => reference
  end.

(** ** Parsing *)

Record ParsedProtobuf := MkParsed { raw : string; descriptor : FileDescriptor; references : list Reference }.

(** A resolver of imports: [protocompile.Resolver]. *)
Definition Resolver : Type := string -> result string.

Definition notFoundResolver : Resolver := fun path => Err (fileNotFound path).

(** The compiler, which asks its resolvers in turn, its resolver of standard
    imports, the encoder of descriptors ([None] is an error) and SHA-256. *)
Record ProtoLibrary := MkProtoLibrary {
  Compile : list Resolver -> string -> result (list FileDescriptor);
  WithStandardImports : Resolver -> Resolver;
  Marshal : FileDescriptorProto -> option string;
  base64_EncodeToString : string -> string;
  Sum256_hex : string -> string
}.

Section parser.
Context (lib : ProtoLibrary) (e : env).

Definition Parse (schemaStr : string) (references : list Reference) : result ParsedProtobuf :=
  let resolver := withReferencesAndSchema schemaStr references in
  match Compile lib [WithStandardImports lib notFoundResolver; FindFileByPath resolver] "schema.proto" with
  | Err err => Err (Errorf_w "failed to compile protobuf: " err "")
  | Ok [] => Err (errors_New "no files compiled")
  | Ok (fd :: _) => Ok (MkParsed schemaStr fd references)
  end.

Definition CanonicalString (p : ParsedProtobuf) : string := normalize e (descriptor p).
Definition Fingerprint (p : ParsedProtobuf) : string := Sum256_hex lib (normalize e (descriptor p)).
Definition Normalize (p : ParsedProtobuf) : ParsedProtobuf := MkParsed (normalize e (descriptor p)) (descriptor p) (references p).

Definition HasTopLevelField (p : ParsedProtobuf) (field : string) : bool :=
  existsb (fun m => existsb (fun f => bool_decide (FieldName f = field)) (Fields m)) (Messages (descriptor p)).

(** [None] is a panic. *)
Definition FormattedString (p : ParsedProtobuf) (format : string) : option string :=
  if decide (ToLower (TrimSpace format) = "serialized") then
    fdp ← toFileDescriptorProto (descriptor p);
    Some (match Marshal lib fdp with None => normalize e (descriptor p) | Some data => base64_EncodeToString lib data end)
  else Some (normalize e (descriptor p)).
End parser.
End Proto.
