(* ===== verification/ProtoParserFacts.v ===== *)
(** * What the canonical text of a Protobuf schema identifies

    The text is that of a tree of blocks, from which the tree can be read back
    line by line, so two schemas have one canonical text, and one fingerprint,
    exactly when they declare the same messages, enums and services up to the
    order of declarations, as far as the text shows them. *)
From S2P Require Import Prelude GoStrings GoFloat GoJson StorageTypes MemStore ProtoCompat ProtoParser.
From Stdlib Require Import Ascii String DecimalString.
From Stdlib Require DecimalPos DecimalZ.
From stdpp Require Import sorting.
Import Proto.

Local Open Scope string_scope.

(** ** Texts *)

(** A text of words. *)
Definition words (l : list string) : string := GoStrings.Join l " ".

Lemma words_inj l k :
  l <> [] -> k <> [] -> Forall (fun w => lacks " " w = true) l -> Forall (fun w => lacks " " w = true) k ->
  words l = words k -> l = k.
Proof.
  assert (Hsplit : forall l, l <> [] -> Forall (fun w => lacks " " w = true) l -> Split (words l) " " = l).
  { clear. intros l. induction l as [|w l IH]; [done|]. intros _ [Hw Hl]%Forall_cons. destruct l as [|w' l].
    - by apply Split_lacks.
    - change (words (w :: w' :: l)) with (w ++ String " " (words (w' :: l))). rewrite Split_app by done. by rewrite IH. }
  intros Hl Hk Fl Fk E. rewrite <- (Hsplit l Hl Fl), <- (Hsplit k Hk Fk). by rewrite E.
Qed.

(** ** Trees of blocks *)

Inductive block :=
  | Leaf (text : string)
  | Node (header : string) (children : list block).

Fixpoint render (n : nat) (b : block) : string :=
  match b with
  | Leaf t => item n t
  | Node h bs => open_block n h ++ String.concat "" (map (render (S n)) bs) ++ close_block n
  end.

Definition render_all (n : nat) (bs : list block) : string := String.concat "" (map (render n) bs).

(** Declarations take one line. *)
Fixpoint one_line (b : block) : bool :=
  match b with
  | Leaf t => lacks "010" t
  | Node h bs => lacks "010" h && forallb one_line bs
  end.

Fixpoint size (b : block) : nat :=
  match b with Leaf _ => 1 | Node _ bs => S (list_sum (map size bs)) end.
Definition size_all (bs : list block) : nat := list_sum (map size bs).

Lemma concat_cons x l : String.concat "" (x :: l) = x ++ String.concat "" l.
Proof. destruct l; [by rewrite append_nil_r|done]. Qed.

Lemma concat_app_string l k : String.concat "" (l ++ k) = String.concat "" l ++ String.concat "" k.
Proof. induction l as [|x l IH]; [done|]. rewrite <- app_comm_cons, !concat_cons, IH. by rewrite append_assoc. Qed.

Lemma render_all_cons n b bs : render_all n (b :: bs) = render n b ++ render_all n bs.
Proof. unfold render_all. apply concat_cons. Qed.

Lemma render_all_app n bs cs : render_all n (bs ++ cs) = render_all n bs ++ render_all n cs.
Proof. unfold render_all. by rewrite map_app, concat_app_string. Qed.

Lemma size_pos b : 0 < size b.
Proof. destruct b; simpl; lia. Qed.

(** What follows the blocks of one level: the brace of the level above, or nothing. *)
Inductive closing : nat -> string -> Prop :=
  | closing_file : closing 0 ""
  | closing_level n r : closing (S n) (close_block n ++ r).

Lemma lacks_prefix n : lacks "010" (prefix n) = true.
Proof. induction n; [done|]. cbn [prefix]. rewrite lacks_app, IHn. done. Qed.

(** A line of a block: its indent, its text and its last character. *)
Definition line (n : nat) (t : string) (last : ascii) : string := prefix n ++ t ++ String last "".

Lemma line_inj n t c u d r w :
  lacks "010" t = true -> lacks "010" u = true -> (c = ";"%char \/ c = "{"%char) -> (d = ";"%char \/ d = "{"%char) ->
  line n t c ++ String "010" r = line n u d ++ String "010" w -> t = u /\ c = d /\ r = w.
Proof.
  intros Ht Hu Hc Hd E. unfold line in E. apply until_inj in E as [E ->].
  - apply app_string_inj in E. apply app_last_inj in E as [-> ->]. done.
  - rewrite !lacks_app, lacks_prefix, Ht. by destruct Hc as [-> | ->].
  - rewrite !lacks_app, lacks_prefix, Hu. by destruct Hd as [-> | ->].
Qed.

Lemma render_leaf n t : render n (Leaf t) = line n t ";" ++ String "010" "".
Proof. simpl. unfold item, line, newline. rewrite !append_assoc. done. Qed.

Lemma render_node n h bs r :
  render n (Node h bs) ++ r = line n (h ++ " ") "{" ++ String "010" (render_all (S n) bs ++ close_block n ++ r).
Proof.
  cbn [render]. unfold open_block, line, newline, render_all. by rewrite !append_assoc.
Qed.

Lemma first_line n b : exists t c u, render n b = prefix n ++ t ++ String c u /\ (c = ";"%char \/ c = "{"%char).
Proof.
  destruct b as [t|h bs].
  - exists t, ";"%char, newline. eauto.
  - exists (h ++ " "), "{"%char. eexists. split; [|by right]. rewrite <- (append_nil_r (render _ _)), render_node.
    unfold line. by rewrite !append_assoc.
Qed.

(** The blocks of a level are not mistaken for its end. *)
Lemma block_not_closing n b r w : closing n w -> render n b ++ r <> w.
Proof.
  intros Hw E. destruct (first_line n b) as (t & c & u & Hb & _). rewrite Hb, !append_assoc in E. destruct Hw as [|n w].
  - by destruct t.
  - unfold close_block in E. revert E. clear. intros E.
    assert (Hp : forall n, prefix (S n) = prefix n ++ "  ").
    { clear. induction n; [done|]. cbn [prefix]. cbn [prefix] in IHn. rewrite IHn at 1. by rewrite append_assoc. }
    rewrite Hp, !append_assoc in E. by apply app_string_inj in E.
Qed.

Lemma render_all_inj_below k : forall n bs cs r w,
  size_all bs < k -> forallb one_line bs = true -> forallb one_line cs = true -> closing n r -> closing n w ->
  render_all n bs ++ r = render_all n cs ++ w -> bs = cs /\ r = w.
Proof.
  induction k as [|k IH]; [lia|]. intros n bs cs r w Hk Hbs Hcs Hr Hw E.
  destruct bs as [|b bs], cs as [|c cs].
  - done.
  - rewrite render_all_cons, append_assoc in E. symmetry in E. by apply block_not_closing in E.
  - rewrite render_all_cons, append_assoc in E. by apply block_not_closing in E.
  - rewrite !render_all_cons, !append_assoc in E. cbn [forallb] in Hbs, Hcs. apply andb_true_iff in Hbs as [Hb Hbs], Hcs as [Hc Hcs].
    cbn [size_all map list_sum] in Hk. change (size_all (b :: bs)) with (size b + size_all bs) in Hk. pose proof (size_pos b).
    destruct b as [t|h b], c as [u|i c].
    + rewrite !render_leaf, !append_assoc in E. apply line_inj in E as (-> & _ & E); [|by auto..].
      apply IH in E as [-> ->]; [done|lia|done..].
    + rewrite render_leaf, append_assoc, render_node in E. simpl in Hc. apply andb_true_iff in Hc as [Hi _].
      apply line_inj in E as (_ & Hl & _); [done|done| |by auto..]. by rewrite lacks_app, Hi.
    + rewrite render_leaf, append_assoc, render_node in E. simpl in Hb. apply andb_true_iff in Hb as [Hh _].
      apply line_inj in E as (_ & Hl & _); [done| |done|by auto..]. by rewrite lacks_app, Hh.
    + rewrite !render_node in E. simpl in Hb, Hc. apply andb_true_iff in Hb as [Hh Hb], Hc as [Hi Hc].
      apply line_inj in E as (Hl & _ & E); [|by rewrite lacks_app, ?Hh, ?Hi|by rewrite lacks_app, ?Hh, ?Hi|by auto..].
      apply app_last_inj in Hl as [-> _]. simpl in Hk. fold (size_all b) in Hk.
      apply IH in E as [-> E]; [|lia|done|done|constructor..].
      apply app_string_inj in E. apply IH in E as [-> ->]; [done|lia|done..].
Qed.

(** The tree is read back from its text. *)
Lemma render_all_inj bs cs :
  forallb one_line bs = true -> forallb one_line cs = true -> render_all 0 bs = render_all 0 cs -> bs = cs.
Proof.
  intros Hb Hc E. assert (bs = cs /\ "" = "") as [? _]; [|done].
  apply (render_all_inj_below (S (size_all bs)) 0 bs cs "" ""); [lia|done|done|constructor|constructor|by rewrite E].
Qed.

(** ** What the text shows of a declaration *)

(** A type as it is declared: a scalar type - or a group, of which the text has
    no more - or a message or enum by its full name. *)
Inductive TypeView := Scalar (k : Kind) | Named (fullName : string).

Definition type_view (t : FieldType) : TypeView :=
  match TypeKind t with
  | MessageKind | EnumKind => Named (TypeFullName t)
  | k => Scalar k
  end.

Inductive Shape :=
  | MapOf (key value : TypeView)
  | Plain (label : option string) (type : TypeView).

Definition label_of (syntax : Syntax) (c : Cardinality) : option string :=
  match c with
  | Repeated => Some "repeated"
  | Required => Some "required"
  | Optional => if decide (syntax = Proto2) then Some "optional" else None
  end.

(** The name, number and type of a field; the name and number of a value. *)
Definition field_view (syntax : Syntax) (f : Field) : string * Z * Shape :=
  (FieldName f, Number f,
   match FieldCardinality f, MapEntry f with
   | Repeated, Some (key, value) => MapOf (type_view key) (type_view value)
   | c, _ => Plain (label_of syntax c) (type_view (Type_ f))
   end).
Definition member_view (f : Field) : string * Z * Shape := (FieldName f, Number f, Plain None (type_view (Type_ f))).

(** The text of a type. *)
Definition type_text (v : TypeView) : string :=
  match v with Scalar k => typeName (MkFieldType k "") | Named fullName => fullName end.

Lemma typeName_text t : typeName t = type_text (type_view t).
Proof. unfold type_view, typeName. destruct (TypeKind t) eqn:E; done. Qed.

Definition shape_words (s : Shape) : list string :=
  match s with
  | MapOf key value => ["map<" ++ type_text key ++ ","; type_text value ++ ">"]
  | Plain label type => option_list label ++ [type_text type]
  end.

Definition field_words (v : string * Z * Shape) : list string :=
  let '(name, number, shape) := v in shape_words shape ++ [name; "="; Itoa number].

Definition parameter_words (stream : bool) (type : string) : list string :=
  if stream then ["(stream"; type ++ ")"] else ["(" ++ type ++ ")"].

Definition method_words (m : MethodDescriptor) : list string :=
  ["rpc"; MethodName m] ++ parameter_words (IsStreamingClient m) (Input m) ++
  "returns" :: parameter_words (IsStreamingServer m) (Output m).

Lemma normalizeField_text s f n : normalizeField s f n = item n (words (field_words (field_view s f))).
Proof.
  unfold normalizeField, field_view, label_of, mapFieldText, fieldText, protoTypeName, words.
  destruct (FieldCardinality f), (MapEntry f) as [[key value]|]; try case_decide; rewrite ?typeName_text;
    cbn [field_words shape_words option_list app GoStrings.Join]; by rewrite ?append_assoc.
Qed.

Lemma member_text f : fieldText "" (protoTypeName f) (FieldName f) (Number f) = words (field_words (member_view f)).
Proof. unfold protoTypeName. by rewrite typeName_text. Qed.

Lemma methodText_words m : methodText m = words (method_words m).
Proof.
  unfold methodText, method_words, words, parameter_words.
  destruct (IsStreamingClient m), (IsStreamingServer m); cbn [app GoStrings.Join]; by rewrite ?append_assoc.
Qed.

(** ** Names

    Identifiers, with the dots of a full name. *)
Definition name_char (c : ascii) : bool :=
  byte_in 48 57 c || byte_in 65 90 c || byte_in 97 122 c || Ascii.eqb c "_" || Ascii.eqb c ".".

Fixpoint name_chars (s : string) : bool :=
  match s with String c s => name_char c && name_chars s | EmptyString => true end.

Definition well_named (s : string) : bool := name_chars s && negb (String.eqb s "").

Lemma name_lacks c s : well_named s = true -> name_char c = false -> lacks c s = true.
Proof.
  unfold well_named, lacks. intros [Hs _]%andb_true_iff Hc. induction s as [|d s IH]; [done|].
  simpl in *. apply andb_true_iff in Hs as [Hd Hs]. destruct (Ascii.eqb_spec d c); [subst; congruence|]. by apply IH.
Qed.

(** No message or enum is called as a scalar type is written. *)
Definition keywords : list string :=
  ["bool"; "int32"; "sint32"; "uint32"; "int64"; "sint64"; "uint64"; "sfixed32"; "fixed32"; "float";
   "sfixed64"; "fixed64"; "double"; "string"; "bytes"; "group"].

Definition well_typed (t : FieldType) : bool :=
  match type_view t with
  | Named fullName => well_named fullName && negb (bool_decide (fullName ∈ keywords))
  | Scalar _ => true
  end.
Definition field_named (f : Field) : bool :=
  well_named (FieldName f) && well_typed (Type_ f) &&
  match MapEntry f with Some (key, value) => well_typed key && well_typed value | None => true end.
Definition enum_named (enum : Enum) : bool :=
  well_named (EnumName enum) && forallb (fun v => well_named (ValueName v)) (Values enum).
Definition oneof_named (o : Oneof) : bool := well_named (OneofName o) && forallb field_named (OneofFields o).
Definition method_named (m : MethodDescriptor) : bool :=
  well_named (MethodName m) && well_named (Input m) && well_named (Output m).
Definition service_named (s : Service) : bool := well_named (ServiceName s) && forallb method_named (Methods s).
Fixpoint message_named (m : Message) : bool :=
  let '(MkMessage name _ fields messages enums oneofs) := m in
  well_named name && forallb field_named fields && forallb message_named messages &&
  forallb enum_named enums && forallb oneof_named oneofs.

(** Every name of a file is one, and no type is called like a scalar type: what
    a compiled file has. *)
Definition file_named (f : FileDescriptor) : bool :=
  (bool_decide (Package f = "") || well_named (Package f)) && forallb message_named (Messages f) &&
  forallb enum_named (Enums f) && forallb service_named (Services f).

(** ** The views are read back *)

Definition good_type (v : TypeView) : Prop :=
  match v with
  | Scalar k => k <> MessageKind /\ k <> EnumKind
  | Named fullName => well_named fullName = true /\ fullName ∉ keywords
  end.
Definition good_shape (s : Shape) : Prop :=
  match s with
  | MapOf key value => good_type key /\ good_type value
  | Plain label type => label ∈ [None; Some "repeated"; Some "required"; Some "optional"] /\ good_type type
  end.
Definition good_view (v : string * Z * Shape) : Prop := well_named v.1.1 = true /\ good_shape v.2.

Lemma well_typed_good t : well_typed t = true -> good_type (type_view t).
Proof.
  unfold well_typed. intros H. destruct (type_view t) as [k|n] eqn:E; simpl.
  - unfold type_view in E. destruct (TypeKind t); simplify_eq; done.
  - apply andb_true_iff in H as [Hn Hk]. apply negb_true_iff, bool_decide_eq_false in Hk. done.
Qed.

Lemma good_type_text v : good_type v -> well_named (type_text v) = true.
Proof. destruct v as [k|n]; simpl; [by intros []; destruct k|tauto]. Qed.

(** Scalar types have texts of their own, all of them keywords. *)
Lemma scalar_keyword k : good_type (Scalar k) -> type_text (Scalar k) ∈ keywords.
Proof. intros []. apply (bool_decide_unpack _). by destruct k. Qed.

Lemma type_text_inj v w : good_type v -> good_type w -> type_text v = type_text w -> v = w.
Proof.
  destruct v as [k|n], w as [k'|n']; intros Hv Hw E.
  - destruct Hv, Hw. by destruct k, k'.
  - apply scalar_keyword in Hv. destruct Hw as [_ []]. change n' with (type_text (Named n')). by rewrite <- E.
  - apply scalar_keyword in Hw. destruct Hv as [_ []]. change n with (type_text (Named n)). by rewrite E.
  - simpl in E. congruence.
Qed.

Lemma good_field_view s f : field_named f = true -> good_view (field_view s f).
Proof.
  unfold field_named. intros [[Hn Ht%well_typed_good]%andb_true_iff Hm]%andb_true_iff. split; [done|].
  unfold field_view. cbn [fst snd]. assert (Hl : forall c, label_of s c ∈ [None; Some "repeated"; Some "required"; Some "optional"]).
  { unfold label_of. intros []; repeat case_decide; set_solver. }
  destruct (FieldCardinality f); try (by split; [apply Hl|]). destruct (MapEntry f) as [[key value]|]; [|by split; [apply Hl|]].
  apply andb_true_iff in Hm as [Hk%well_typed_good Hv%well_typed_good]. done.
Qed.

Lemma good_member_view f : field_named f = true -> good_view (member_view f).
Proof.
  unfold field_named. intros [[Hn Ht%well_typed_good]%andb_true_iff _]%andb_true_iff. split; [done|]. split; [set_solver|done].
Qed.

(** Words have no space and, like a line, no line feed. *)
Definition is_word (w : string) : bool := lacks " " w && lacks "010" w.

Lemma is_word_name s : well_named s = true -> is_word s = true.
Proof. intros H. unfold is_word. by rewrite !name_lacks. Qed.

Lemma is_word_app s t : is_word (s ++ t) = is_word s && is_word t.
Proof. unfold is_word. rewrite !lacks_app. by destruct (lacks " " s), (lacks " " t), (lacks "010" s), (lacks "010" t). Qed.

Lemma is_word_Itoa z : is_word (Itoa z) = true.
Proof. unfold is_word. by rewrite !Itoa_lacks. Qed.

Lemma field_words_are v : good_view v -> Forall (fun w => is_word w = true) (field_words v).
Proof.
  destruct v as [[name n] shape]. intros [Hn Hs]. simpl in *. apply Forall_app. split.
  - destruct shape as [key value|label type]; simpl in Hs.
    + destruct Hs as [Hk%good_type_text Hv%good_type_text]. cbn [shape_words].
      by rewrite !Forall_cons, !is_word_app, (is_word_name (type_text key)), (is_word_name (type_text value)).
    + destruct Hs as [Hl Ht%good_type_text]. cbn [shape_words]. apply Forall_app. split; [|by rewrite Forall_singleton, is_word_name].
      destruct label; [|constructor]. apply Forall_singleton. set_unfold in Hl. by destruct_or? Hl; simplify_eq.
  - rewrite !Forall_cons, is_word_name, is_word_Itoa by done. by repeat split.
Qed.

Lemma parameter_words_are stream type : well_named type = true -> Forall (fun w => is_word w = true) (parameter_words stream type).
Proof. intros H. destruct stream; cbn [parameter_words]; by rewrite !Forall_cons, !is_word_app, (is_word_name type). Qed.

Lemma method_words_are m : method_named m = true -> Forall (fun w => is_word w = true) (method_words m).
Proof.
  unfold method_named, method_words. rewrite !andb_true_iff. intros [[Hn Hi] Ho].
  cbn [app]. rewrite !Forall_cons, Forall_app, Forall_cons.
  repeat split; [by apply is_word_name|..]; by apply parameter_words_are.
Qed.

Lemma line_of_words l : Forall (fun w => is_word w = true) l -> lacks "010" (words l) = true.
Proof.
  induction 1 as [|w l Hw Hl IH]; [done|]. apply andb_true_iff in Hw as [_ Hw]. destruct l as [|w' l]; [done|].
  change (words (w :: w' :: l)) with (w ++ String " " (words (w' :: l))). by rewrite lacks_app, Hw.
Qed.

Lemma words_of_inj l k :
  l <> [] -> k <> [] -> Forall (fun w => is_word w = true) l -> Forall (fun w => is_word w = true) k -> words l = words k -> l = k.
Proof. intros ?? Hl Hk. apply words_inj; [done..|eapply Forall_impl; [exact Hl|]|eapply Forall_impl; [exact Hk|]]; by intros w [??]%andb_true_iff. Qed.

Lemma shape_words_inj s t : good_shape s -> good_shape t -> shape_words s = shape_words t -> s = t.
Proof.
  destruct s as [k v|l a], t as [k' v'|l' a']; intros Hs Ht E; simpl in *.
  - injection E as Ek Ev. apply app_last_inj in Ek as [Ek _], Ev as [Ev _].
    apply type_text_inj in Ek as ->, Ev as ->; tauto.
  - destruct Ht as [Hl _]. set_unfold in Hl. destruct_or? Hl; subst; simpl in E; simplify_eq.
  - destruct Hs as [Hl _]. set_unfold in Hl. destruct_or? Hl; subst; simpl in E; simplify_eq.
  - assert (l = l' /\ type_text a = type_text a') as [-> Ea%type_text_inj] by (by destruct l, l'; simpl in E; simplify_eq);
      [by subst|tauto..].
Qed.

Lemma field_words_inj v w : good_view v -> good_view w -> words (field_words v) = words (field_words w) -> v = w.
Proof.
  intros Hv Hw E. apply words_of_inj in E; try by apply field_words_are.
  - destruct v as [[n x] s], w as [[m y] t]. simpl in E. apply app_inj_2 in E as [Es En]; [|done].
    injection En as -> En. apply Itoa_inj in En as ->. apply shape_words_inj in Es as ->; [done|apply Hv|apply Hw].
  - destruct v as [[n x] s]. simpl. by destruct (shape_words s).
  - destruct w as [[n x] s]. simpl. by destruct (shape_words s).
Qed.

Lemma method_words_inj m m' :
  method_named m = true -> method_named m' = true -> words (method_words m) = words (method_words m') -> m = m'.
Proof.
  intros Hm Hm' E. apply words_of_inj in E; [|done|done|by apply method_words_are..].
  assert (Hopen : forall t, well_named t = true -> "(stream" <> "(" ++ t ++ ")").
  { intros t Ht [= E']. change "stream" with ("strea" ++ String "m" "") in E'. by apply app_last_inj in E' as [_ ?]. }
  unfold method_named in Hm, Hm'. rewrite !andb_true_iff in Hm, Hm'. destruct m as [n c s i o], m' as [n' c' s' i' o'].
  simpl in Hm, Hm'. unfold method_words in E. simpl in E.
  destruct c, s, c', s'; cbn [parameter_words app] in E; injection E as E; subst;
    repeat match goal with
    | H : _ ++ ")" = _ ++ ")" |- _ => apply app_last_inj in H as [-> _]
    end; simplify_eq; try done; exfalso; naive_solver.
Qed.

(** ** Same up to the order of declarations *)

(** The elements of two lists pair up. *)
Definition pairs_up {A B} (R : A -> B -> Prop) (l : list A) (k : list B) : Prop :=
  exists l', l ≡ₚ l' /\ Forall2 R l' k.

Definition shown_messages (l : list Message) : list Message := List.filter (fun m => negb (IsMapEntry m)) l.
Definition shown_oneofs (l : list Oneof) : list Oneof := List.filter (fun o => negb (IsSynthetic o)) l.

Definition same_enum (a b : Enum) : Prop := EnumName a = EnumName b /\ Values a ≡ₚ Values b.
Definition same_oneof (a b : Oneof) : Prop :=
  OneofName a = OneofName b /\ map member_view (OneofFields a) ≡ₚ map member_view (OneofFields b).
Definition same_service (a b : Service) : Prop := ServiceName a = ServiceName b /\ Methods a ≡ₚ Methods b.

(** Messages of files in two syntaxes, map entries and the oneofs of [optional]
    fields left aside. *)
Inductive same_message (s s' : Syntax) : Message -> Message -> Prop :=
  SameMessage name k k' fields fields' messages messages' enums enums' oneofs oneofs' paired :
    map (field_view s) fields ≡ₚ map (field_view s') fields' ->
    shown_messages messages ≡ₚ paired -> Forall2 (same_message s s') paired (shown_messages messages') ->
    pairs_up same_enum enums enums' -> pairs_up same_oneof (shown_oneofs oneofs) (shown_oneofs oneofs') ->
    same_message s s' (MkMessage name k fields messages enums oneofs) (MkMessage name k' fields' messages' enums' oneofs').

Definition same_file (f g : FileDescriptor) : Prop :=
  Package f = Package g /\ (FileSyntax f = Proto3 <-> FileSyntax g = Proto3) /\
  pairs_up (same_message (FileSyntax f) (FileSyntax g)) (Messages f) (Messages g) /\
  pairs_up same_enum (Enums f) (Enums g) /\ pairs_up same_service (Services f) (Services g).

(** Numbers are distinct, as they are but for the values of an enum with aliases. *)
Definition distinct_values (enum : Enum) : Prop := NoDup (map ValueNumber (Values enum)).
Definition distinct_members (o : Oneof) : Prop := NoDup (map Number (OneofFields o)).
Fixpoint distinct_numbers (m : Message) : Prop :=
  let '(MkMessage _ _ fields messages enums oneofs) := m in
  NoDup (map Number fields) /\ fold_right (fun m P => distinct_numbers m /\ P) True messages /\
  Forall distinct_values enums /\ Forall distinct_members oneofs.
Definition file_distinct (f : FileDescriptor) : Prop :=
  Forall distinct_numbers (Messages f) /\ Forall distinct_values (Enums f).

Section message_ind.
Variable P : Message -> Prop.
Hypothesis step : forall name k fields messages enums oneofs,
  Forall P messages -> P (MkMessage name k fields messages enums oneofs).

Fixpoint message_ind (m : Message) : P m :=
  let '(MkMessage name k fields messages enums oneofs) := m in
  step name k fields messages enums oneofs
    ((fix all (l : list Message) : Forall P l :=
        match l with [] => Forall_nil_2 P | m :: l => Forall_cons_2 P m l (message_ind m) (all l) end) messages).
End message_ind.

(** ** The tree of a text *)

Definition field_leaf (s : Syntax) (f : Field) : block := Leaf (words (field_words (field_view s f))).
Definition member_leaf (f : Field) : block := Leaf (words (field_words (member_view f))).
Definition value_leaf (v : EnumValue) : block := Leaf (words [ValueName v; "="; Itoa (ValueNumber v)]).
Definition method_leaf (m : MethodDescriptor) : block := Leaf (words (method_words m)).

(** A block named [keyword name] of lines that stand for [l] in some order. *)
Definition lists {A} (keyword name : string) (leaf : A -> block) (l : list A) (b : block) : Prop :=
  exists l', l ≡ₚ l' /\ b = Node (words [keyword; name]) (map leaf l').

Definition enum_block (enum : Enum) : block -> Prop := lists "enum" (EnumName enum) value_leaf (Values enum).
Definition oneof_block (o : Oneof) : block -> Prop := lists "oneof" (OneofName o) member_leaf (OneofFields o).
Definition service_block (s : Service) : block -> Prop := lists "service" (ServiceName s) method_leaf (Methods s).

Inductive message_block (s : Syntax) : Message -> block -> Prop :=
  MessageBlock name k fields messages enums oneofs fields' messages' ms es os :
    fields ≡ₚ fields' -> shown_messages messages ≡ₚ messages' -> Forall2 (message_block s) messages' ms ->
    pairs_up enum_block enums es -> pairs_up oneof_block (shown_oneofs oneofs) os ->
    message_block s (MkMessage name k fields messages enums oneofs)
      (Node (words ["message"; name]) (map (field_leaf s) fields' ++ ms ++ es ++ os)).

Lemma Forall2_build {A B} (R : A -> B -> Prop) l : Forall (fun x => exists y, R x y) l -> exists k, Forall2 R l k.
Proof. induction 1 as [|x l [y Hy] _ [k Hk]]; [by exists []|]. exists (y :: k). by constructor. Qed.

Lemma sort_strings_of {A} (f : A -> string) l : exists l', sort_strings (map f l) = map f l' /\ l ≡ₚ l'.
Proof. apply Permutation_map_inv. unfold sort_strings. by rewrite merge_sort_Permutation. Qed.

(** Sorted texts of blocks are the text of blocks that stand for the same declarations. *)
Lemma sorted_blocks_render {A} (f : A -> string) (R : A -> block -> Prop) n l :
  Forall (fun x => exists b, f x = render n b /\ R x b) l ->
  exists bs, sorted_blocks (map f l) = render_all n bs /\ pairs_up R l bs.
Proof.
  intros H. destruct (sort_strings_of f l) as (l' & E & Hl). unfold sorted_blocks. rewrite E. rewrite Hl in H. clear E.
  apply Forall2_build in H as [bs Hbs]. exists bs. split.
  - unfold render_all. f_equal. clear Hl. induction Hbs as [|x b ?? [Hx _] _ IH]; [done|]. simpl. by rewrite Hx, IH.
  - exists l'. split; [done|]. eapply Forall2_impl; [exact Hbs|]. by intros ?? [].
Qed.

Lemma sorted_texts_render {A} e (key : A -> Z) (text : A -> string) (leaf : A -> block) n l :
  (forall x, text x = render n (leaf x)) ->
  exists l', sorted_texts e (map (fun x => (key x, text x)) l) = render_all n (map leaf l') /\ l ≡ₚ l'.
Proof.
  intros Htext. destruct (Permutation_map_inv (l1 := merge_sort by_number (shuffle e (map (fun x => (key x, text x)) l)))
    (fun x => (key x, text x)) l) as (l' & E & Hl).
  { by rewrite merge_sort_Permutation, shuffle_perm. }
  exists l'. split; [|done]. unfold sorted_texts. rewrite E. unfold render_all. f_equal. rewrite !map_map. apply map_ext. done.
Qed.

Lemma flat_map_filter {A B} (p : A -> bool) (f : A -> B) l :
  flat_map (fun x => if p x then [] else [f x]) l = map f (List.filter (fun x => negb (p x)) l).
Proof. induction l as [|x l IH]; [done|]. simpl. rewrite IH. by destruct (p x). Qed.

Lemma render_node_of n keyword name bs t :
  t = render_all (S n) bs ->
  open_block n (keyword ++ " " ++ name) ++ t ++ close_block n = render n (Node (words [keyword; name]) bs).
Proof. by intros ->. Qed.

Section normalized.
Variable e : env.

Lemma normalizeEnum_block enum n : exists b, normalizeEnum e enum n = render n b /\ enum_block enum b.
Proof.
  destruct (sorted_texts_render e ValueNumber (fun v => item (S n) (ValueName v ++ " = " ++ Itoa (ValueNumber v))) value_leaf (S n) (Values enum))
    as (l & E & Hl); [done|].
  eexists. split; [|exists l; split; [exact Hl|reflexivity]]. by apply (render_node_of n "enum").
Qed.

Lemma normalizeOneof_block o n : exists b, normalizeOneof e o n = render n b /\ oneof_block o b.
Proof.
  destruct (sorted_texts_render e Number (fun f => item (S n) (fieldText "" (protoTypeName f) (FieldName f) (Number f))) member_leaf (S n) (OneofFields o))
    as (l & E & Hl).
  { intros f. by rewrite member_text. }
  eexists. split; [|exists l; split; [exact Hl|reflexivity]]. by apply (render_node_of n "oneof").
Qed.

Lemma normalizeService_block s : exists b, normalizeService s = render 0 b /\ service_block s b.
Proof.
  destruct (sort_strings_of (fun m => item 1 (methodText m)) (Methods s)) as (l & E & Hl).
  eexists. split; [|exists l; split; [exact Hl|reflexivity]]. unfold normalizeService. apply (render_node_of 0 "service").
  unfold sorted_blocks, render_all. rewrite E, !map_map. f_equal. apply map_ext. intros m. by rewrite methodText_words.
Qed.

Lemma normalizeMessage_block s m : forall n, exists b, normalizeMessage e s m n = render n b /\ message_block s m b.
Proof.
  induction m as [name k fields messages enums oneofs IH] using message_ind. intros n. cbn [normalizeMessage].
  rewrite !flat_map_filter. fold (shown_messages messages) (shown_oneofs oneofs).
  destruct (sorted_texts_render e Number (fun f => normalizeField s f (S n)) (field_leaf s) (S n) fields) as (fs & Ef & Hf).
  { intros f. apply normalizeField_text. }
  destruct (sorted_blocks_render (fun m => normalizeMessage e s m (S n)) (message_block s) (S n) (shown_messages messages))
    as (ms & Em & messages' & Hm & Hms).
  { apply List.Forall_forall. intros m [Hm _]%List.filter_In. by eapply List.Forall_forall in IH. }
  destruct (sorted_blocks_render (fun enum => normalizeEnum e enum (S n)) enum_block (S n) enums) as (es & Ee & He).
  { apply Forall_true. intros enum. apply normalizeEnum_block. }
  destruct (sorted_blocks_render (fun o => normalizeOneof e o (S n)) oneof_block (S n) (shown_oneofs oneofs)) as (os & Eo & Ho).
  { apply Forall_true. intros o. apply normalizeOneof_block. }
  eexists. split; [|by econstructor]. rewrite Ef, Em, Ee, Eo. rewrite <- (render_node_of n "message" name _ _ eq_refl).
  by rewrite !render_all_app, !append_assoc.
Qed.
End normalized.

(** ** The blocks take a line each *)

Lemma header_line keyword name : lacks "010" keyword = true -> well_named name = true -> lacks "010" (words [keyword; name]) = true.
Proof. intros Hk Hn. change (words [keyword; name]) with (keyword ++ " " ++ name). by rewrite !lacks_app, Hk, (name_lacks "010" name). Qed.

Lemma lists_one_line {A} (P : A -> bool) keyword name leaf l b :
  lacks "010" keyword = true -> well_named name = true -> (forall x, P x = true -> one_line (leaf x) = true) ->
  forallb P l = true -> lists keyword name leaf l b -> one_line b = true.
Proof.
  intros Hk Hn Hleaf Hl (l' & Hp & ->). cbn [one_line]. rewrite header_line by done. simpl.
  apply List.forallb_forall. intros b (x & <- & Hx)%in_map_iff. apply Hleaf. eapply List.forallb_forall in Hl; [exact Hl|].
  by rewrite Hp.
Qed.

Lemma field_leaf_line s f : field_named f = true -> one_line (field_leaf s f) = true.
Proof. intros H. by apply line_of_words, field_words_are, good_field_view. Qed.
Lemma member_leaf_line f : field_named f = true -> one_line (member_leaf f) = true.
Proof. intros H. by apply line_of_words, field_words_are, good_member_view. Qed.
Lemma method_leaf_line m : method_named m = true -> one_line (method_leaf m) = true.
Proof. intros H. by apply line_of_words, method_words_are. Qed.

Lemma value_words_are v : well_named (ValueName v) = true -> Forall (fun w => is_word w = true) [ValueName v; "="; Itoa (ValueNumber v)].
Proof. intros H. rewrite !Forall_cons, is_word_Itoa. repeat split; [by apply is_word_name|constructor]. Qed.

Lemma enum_block_line enum b : enum_named enum = true -> enum_block enum b -> one_line b = true.
Proof.
  intros [Hn Hv]%andb_true_iff Hb. eapply (lists_one_line _ "enum"); [done|exact Hn| |exact Hv|exact Hb].
  intros v Hv'. by apply line_of_words, value_words_are.
Qed.
Lemma oneof_block_line o b : oneof_named o = true -> oneof_block o b -> one_line b = true.
Proof. intros [Hn Hf]%andb_true_iff Hb. eapply (lists_one_line _ "oneof"); [done|exact Hn| |exact Hf|exact Hb]. apply member_leaf_line. Qed.
Lemma service_block_line s b : service_named s = true -> service_block s b -> one_line b = true.
Proof. intros [Hn Hm]%andb_true_iff Hb. eapply (lists_one_line _ "service"); [done|exact Hn| |exact Hm|exact Hb]. apply method_leaf_line. Qed.

Lemma pairs_up_forallb {A B} (R : A -> B -> Prop) (p : A -> bool) (q : B -> bool) l k :
  (forall x y, x ∈ l -> p x = true -> R x y -> q y = true) -> forallb p l = true -> pairs_up R l k -> forallb q k = true.
Proof.
  intros H Hp (l' & Hl & Hk). rewrite List.forallb_forall in Hp.
  assert (Hall : Forall (fun x => x ∈ l /\ p x = true) l').
  { apply List.Forall_forall. intros x Hx. assert (Hin : In x l) by by rewrite Hl.
    split; [by apply list_elem_of_In|by apply Hp]. }
  clear Hl Hp. induction Hk as [|x y ?? Hxy _ IH]; [done|]. apply Forall_cons in Hall as [[Hx Hpx] Hall]. simpl.
  by rewrite (H x y Hx Hpx Hxy), IH.
Qed.

Lemma forallb_filter {A} (p q : A -> bool) l : forallb p l = true -> forallb p (List.filter q l) = true.
Proof. rewrite !List.forallb_forall. intros H x [Hx _]%List.filter_In. by apply H. Qed.

Lemma message_block_line s m : forall b, message_named m = true -> message_block s m b -> one_line b = true.
Proof.
  induction m as [name k fields messages enums oneofs IH] using message_ind. intros b Hm Hb.
  inversion Hb as [? ? ? ? ? ? fields' messages' ms es os Hf Hp Hms He Ho]; subst. cbn [message_named] in Hm.
  rewrite !andb_true_iff in Hm. destruct Hm as ((((Hn & Hfn) & Hmn) & Hen) & Hon). cbn [one_line].
  rewrite header_line by done. rewrite !forallb_app. repeat (apply andb_true_iff; split); [done|..].
  - apply List.forallb_forall. intros l (f & <- & Hin)%in_map_iff. apply field_leaf_line. rewrite List.forallb_forall in Hfn.
    apply Hfn. by rewrite Hf.
  - apply (pairs_up_forallb (message_block s) message_named one_line (shown_messages messages)); [|by apply forallb_filter|by exists messages'].
    intros m b Hin Hmn' Hmb. rewrite Forall_forall in IH. apply (IH m); [|done..].
    apply list_elem_of_In in Hin. apply List.filter_In in Hin as [Hin _]. by apply list_elem_of_In.
  - eapply (pairs_up_forallb enum_block enum_named one_line); [|done..]. intros enum b _. apply enum_block_line.
  - eapply (pairs_up_forallb oneof_block oneof_named one_line); [|by apply forallb_filter|done]. intros o b _. apply oneof_block_line.
Qed.

(** ** Reading the sections of a block *)

(** The keyword a block starts with; a line has none. *)
Definition class (b : block) : string := match b with Leaf _ => "" | Node h _ => hd "" (Split h " ") end.

Lemma class_Node keyword name bs : lacks " " keyword = true -> class (Node (words [keyword; name]) bs) = keyword.
Proof. intros H. simpl. change (words [keyword; name]) with (keyword ++ String " " name). by rewrite Split_app. Qed.

Definition sections (classes : list string) (ls : list (list block)) : Prop :=
  Forall2 (fun c l => Forall (fun b => class b = c) l) classes ls.

Lemma app_sections_inj (P : block -> Prop) l r k w :
  Forall P l -> Forall P k -> Forall (fun b => ~ P b) r -> Forall (fun b => ~ P b) w -> (l ++ r)%list = (k ++ w)%list -> l = k /\ r = w.
Proof.
  intros Hl. revert k. induction Hl as [|b l Hb Hl IH]; intros k Hk Hr Hw E; destruct Hk as [|c k Hc Hk]; simpl in E.
  - done.
  - subst r. by apply Forall_cons in Hr as [? _].
  - subst w. by apply Forall_cons in Hw as [? _].
  - injection E as -> E. by apply (IH k) in E as [-> ->].
Qed.

Lemma sections_inj classes ls ks :
  NoDup classes -> sections classes ls -> sections classes ks -> concat ls = concat ks -> ls = ks.
Proof.
  intros Hc Hl. revert ks. induction Hl as [|c l cs ls Hl Hls IH]; intros ks Hk E; inversion Hk as [|? k ? ks' Hk1 Hks]; subst; [done|].
  apply NoDup_cons in Hc as [Hc Hcs]. simpl in E.
  assert (Hrest : forall ms, sections cs ms -> Forall (fun b => class b <> c) (concat ms)).
  { clear -Hc. intros ms H. induction H as [|d m ds ms Hm _ IH]; [constructor|]. simpl. apply Forall_app. split.
    - eapply Forall_impl; [exact Hm|]. intros b <- E. apply Hc. rewrite <- E. left.
    - apply IH. intros ?. apply Hc. by right. }
  apply (app_sections_inj (fun b => class b = c)) in E as [-> E]; [|done|done|by apply Hrest..]. f_equal. by apply IH.
Qed.

(** ** Two declarations with one block are the same *)

Lemma Forall2_permute {A B} (R : A -> B -> Prop) l k k' :
  Forall2 R l k -> k ≡ₚ k' -> exists l', l ≡ₚ l' /\ Forall2 R l' k'.
Proof.
  intros H Hk. apply Forall2_flip in H. destruct (Permutation_Forall2 Hk H) as (l' & Hl & H'). exists l'. split; [done|].
  by apply Forall2_flip in H'.
Qed.

Lemma pairs_up_join {A A' B} (R : A -> B -> Prop) (R' : A' -> B -> Prop) (S : A -> A' -> Prop) l k bs :
  (forall x y b, x ∈ l -> y ∈ k -> R x b -> R' y b -> S x y) -> pairs_up R l bs -> pairs_up R' k bs -> pairs_up S l k.
Proof.
  intros H (l' & Hl & Hlb) (k' & Hk & Hkb). setoid_rewrite Hl in H. setoid_rewrite Hk in H.
  assert (HS : Forall2 S l' k').
  { clear Hl Hk. revert k' Hkb H. induction Hlb as [|x b l' bs Hx _ IH]; intros k' Hkb H; inversion Hkb; subst; [by constructor|].
    constructor; [eapply H; [left|left|done..]|]. apply IH; [done|]. intros u v c Hu Hv. apply H; by right. }
  destruct (Forall2_permute S l' k' k HS (symmetry Hk)) as (m & Hm & HSm). exists m. split; [by rewrite Hl|done].
Qed.

Lemma map_join {A B C} (leaf leaf' : A -> B) (view view' : A -> C) (P : A -> Prop) l k :
  (forall x y, P x -> P y -> leaf x = leaf' y -> view x = view' y) -> Forall P l -> Forall P k ->
  map leaf l = map leaf' k -> map view l = map view' k.
Proof.
  intros H Hl. revert k. induction Hl as [|x l Hx _ IH]; intros k Hk E; destruct Hk as [|y k Hy Hk]; try done.
  simpl in *. injection E as Exy E. f_equal; [by apply H|by apply IH].
Qed.

Lemma forallb_perm {A} (p : A -> bool) l l' : forallb p l = true -> l ≡ₚ l' -> Forall (fun x => p x = true) l'.
Proof. rewrite List.forallb_forall. intros H%List.Forall_forall E. by rewrite <- E. Qed.

(** Leaves in two orders, read back. *)
Lemma leaves_join {A C} (leaf leaf' : A -> block) (view view' : A -> C) (p : A -> bool) l l1 k k1 :
  (forall x y, p x = true -> p y = true -> leaf x = leaf' y -> view x = view' y) ->
  forallb p l = true -> forallb p k = true -> l ≡ₚ l1 -> k ≡ₚ k1 -> map leaf l1 = map leaf' k1 -> map view l ≡ₚ map view' k.
Proof.
  intros H Hl Hk El Ek E. rewrite El, Ek. assert (map view l1 = map view' k1) as ->; [|done].
  apply (map_join leaf leaf' view view' (fun x => p x = true)); [done|by apply (forallb_perm p l)|by apply (forallb_perm p k)|done].
Qed.

Lemma lists_join {A C} keyword n n' (leaf : A -> block) (view : A -> C) (p : A -> bool) l k b :
  (forall x y, p x = true -> p y = true -> leaf x = leaf y -> view x = view y) ->
  forallb p l = true -> forallb p k = true -> lists keyword n leaf l b -> lists keyword n' leaf k b ->
  n = n' /\ map view l ≡ₚ map view k.
Proof.
  intros H Hl Hk (l1 & El & ->) (k1 & Ek & E). injection E as Eh E. split.
  - change (keyword ++ String " " n = keyword ++ String " " n') in Eh. apply app_string_inj in Eh. congruence.
  - by eapply leaves_join.
Qed.

Lemma Leaf_inj t u : Leaf t = Leaf u -> t = u.
Proof. congruence. Qed.

Lemma field_leaf_inj s s' f g : field_named f = true -> field_named g = true -> field_leaf s f = field_leaf s' g -> field_view s f = field_view s' g.
Proof. intros Hf Hg E%Leaf_inj%field_words_inj; [done|by apply good_field_view..]. Qed.
Lemma member_leaf_inj f g : field_named f = true -> field_named g = true -> member_leaf f = member_leaf g -> member_view f = member_view g.
Proof. intros Hf Hg E%Leaf_inj%field_words_inj; [done|by apply good_member_view..]. Qed.
Lemma method_leaf_inj m m' : method_named m = true -> method_named m' = true -> method_leaf m = method_leaf m' -> m = m'.
Proof. intros Hm Hm' E%Leaf_inj%method_words_inj; done. Qed.
Lemma value_leaf_inj v w : well_named (ValueName v) = true -> well_named (ValueName w) = true -> value_leaf v = value_leaf w -> v = w.
Proof.
  intros Hv Hw E%Leaf_inj%words_of_inj; [|done|done|by apply value_words_are..].
  destruct v, w. simpl in *. injection E as -> E. by apply Itoa_inj in E as ->.
Qed.

Lemma same_enum_of a b bl : enum_named a = true -> enum_named b = true -> enum_block a bl -> enum_block b bl -> same_enum a b.
Proof.
  intros [_ Ha]%andb_true_iff [_ Hb]%andb_true_iff Hab Hbb.
  destruct (lists_join _ _ _ _ (fun v => v) _ _ _ _ value_leaf_inj Ha Hb Hab Hbb) as [Hn Hv]. rewrite !map_id in Hv. done.
Qed.
Lemma same_oneof_of a b bl : oneof_named a = true -> oneof_named b = true -> oneof_block a bl -> oneof_block b bl -> same_oneof a b.
Proof.
  intros [_ Ha]%andb_true_iff [_ Hb]%andb_true_iff Hab Hbb. by eapply lists_join; [apply member_leaf_inj|..].
Qed.
Lemma same_service_of a b bl : service_named a = true -> service_named b = true -> service_block a bl -> service_block b bl -> same_service a b.
Proof.
  intros [_ Ha]%andb_true_iff [_ Hb]%andb_true_iff Hab Hbb.
  destruct (lists_join _ _ _ _ (fun v => v) _ _ _ _ method_leaf_inj Ha Hb Hab Hbb) as [Hn Hv]. rewrite !map_id in Hv. done.
Qed.

(** All blocks of a list that stands for declarations are of one class. *)
Lemma pairs_up_class {A} (R : A -> block -> Prop) c l bs :
  (forall x b, R x b -> class b = c) -> pairs_up R l bs -> Forall (fun b => class b = c) bs.
Proof. intros H (l' & _ & Hbs). induction Hbs as [|x b ?? Hx _ IH]; constructor; [by eapply H|done]. Qed.

Lemma class_lists {A} keyword n (leaf : A -> block) l b : lacks " " keyword = true -> lists keyword n leaf l b -> class b = keyword.
Proof. intros H (l' & _ & ->). by apply class_Node. Qed.
Lemma class_message s m b : message_block s m b -> class b = "message".
Proof. intros []. by apply class_Node. Qed.

Lemma class_enum enum b : enum_block enum b -> class b = "enum".
Proof. by apply class_lists. Qed.
Lemma class_oneof o b : oneof_block o b -> class b = "oneof".
Proof. by apply class_lists. Qed.
Lemma class_service s b : service_block s b -> class b = "service".
Proof. by apply class_lists. Qed.

Lemma leaves_class {A} (text : A -> string) l : Forall (fun b => class b = "") (map (fun x => Leaf (text x)) l).
Proof. induction l; by constructor. Qed.

Lemma shown_elem ms m : m ∈ shown_messages ms -> m ∈ ms.
Proof. intros [H _]%list_elem_of_In%List.filter_In. by apply list_elem_of_In. Qed.

Lemma named_elem {A} (p : A -> bool) l x : forallb p l = true -> x ∈ l -> p x = true.
Proof. rewrite List.forallb_forall. intros H ?%list_elem_of_In. by apply H. Qed.

Lemma same_message_of s s' m : forall m' b,
  message_named m = true -> message_named m' = true -> message_block s m b -> message_block s' m' b -> same_message s s' m m'.
Proof.
  induction m as [name k fields messages enums oneofs IH] using message_ind. intros m' b Hm Hm' Hb Hb'.
  destruct Hb' as [name' k' fields' messages' enums' oneofs' gs' paired' ms' es' os' Hf' Hp' Hms' He' Ho'].
  inversion Hb as [? ? ? ? ? ? gs paired ms es os Hf Hp Hms He Ho]; subst.
  cbn [message_named] in Hm, Hm'. rewrite !andb_true_iff in Hm, Hm'.
  destruct Hm as ((((Hn & Hfn) & Hmn) & Hen) & Hon), Hm' as ((((Hn' & Hfn') & Hmn') & Hen') & Hon').
  assert (Hms0 : pairs_up (message_block s) (shown_messages messages) ms) by by exists paired.
  assert (Hms0' : pairs_up (message_block s') (shown_messages messages') ms') by by exists paired'.
  assert ([map (field_leaf s) gs; ms; es; os] = [map (field_leaf s') gs'; ms'; es'; os']) as Es.
  { apply (sections_inj [""; "message"; "enum"; "oneof"]); [by apply (bool_decide_unpack _)|..|].
    1-2: unfold sections; repeat (apply Forall2_cons_2 || apply Forall2_nil_2); [apply leaves_class|by eapply pairs_up_class; [apply class_message|]|
      by eapply pairs_up_class; [apply class_enum|]|by eapply pairs_up_class; [apply class_oneof|]].
    simpl. rewrite !app_nil_r. done. }
  injection Es as E1 -> -> ->.
  assert (pairs_up (same_message s s') (shown_messages messages) (shown_messages messages')) as (ns & Hns & Hnp).
  { eapply pairs_up_join; [|exact Hms0|exact Hms0']. intros x y bl Hx%shown_elem Hy%shown_elem. rewrite Forall_forall in IH.
    apply (IH x Hx y bl); [by apply (named_elem _ messages)|by apply (named_elem _ messages')]. }
  apply (SameMessage _ _ _ _ _ _ _ _ _ _ _ _ _ ns); [|done|done|..].
  - by eapply leaves_join; [apply field_leaf_inj|..].
  - eapply pairs_up_join; [|done..]. intros x y bl Hx Hy. apply same_enum_of; [by apply (named_elem _ enums)|by apply (named_elem _ enums')].
  - eapply pairs_up_join; [|done..]. intros x y bl Hx Hy. apply same_oneof_of; (eapply named_elem; [|eassumption]); by apply forallb_filter.
Qed.

(** ** The same declarations have one text *)

Lemma sort_strings_perm l k : l ≡ₚ k -> sort_strings l = sort_strings k.
Proof.
  intros H. apply (Sorted_unique String.le); [apply Sorted_merge_sort; apply _..|].
  unfold sort_strings. by rewrite !merge_sort_Permutation.
Qed.

Lemma sorted_blocks_same {A B} (R : A -> B -> Prop) f g l k :
  (forall x y, x ∈ l -> R x y -> f x = g y) -> pairs_up R l k -> sorted_blocks (map f l) = sorted_blocks (map g k).
Proof.
  intros H (l' & Hl & Hk). unfold sorted_blocks. setoid_rewrite Hl in H.
  rewrite (sort_strings_perm (map f l) (map f l')) by by rewrite Hl. do 2 f_equal. clear Hl.
  induction Hk as [|x y ?? Hxy _ IH]; [done|]. simpl. f_equal; [apply H; [left|done]|]. apply IH. intros u v Hu. apply H. by right.
Qed.

Lemma sorted_texts_same {A B} e e' (f : A -> Z * string) (g : B -> Z * string) l k :
  map f l ≡ₚ map g k -> NoDup (map fst (map f l)) -> sorted_texts e (map f l) = sorted_texts e' (map g k).
Proof.
  intros H Hd. unfold sorted_texts. do 2 f_equal.
  assert (Htrans : Transitive by_number) by (intros x y z; unfold by_number; lia).
  assert (Htotal : Total by_number) by (intros x y; unfold by_number; lia).
  assert (Hp : merge_sort by_number (shuffle e (map f l)) ≡ₚ map f l) by by rewrite merge_sort_Permutation, shuffle_perm.
  assert (Hq : merge_sort by_number (shuffle e' (map g k)) ≡ₚ map f l) by by rewrite merge_sort_Permutation, shuffle_perm.
  apply (Sorted_unique_strong by_number); [|by apply Sorted_merge_sort..|by rewrite Hp, Hq].
  intros x y Hx Hy Hxy Hyx. rewrite Hp in Hx. rewrite Hq in Hy. unfold by_number in *.
  revert Hd Hx Hy. generalize (map f l). intros m Hd Hx Hy. induction m as [|z m IH]; [by apply elem_of_nil in Hx|].
  simpl in Hd. apply NoDup_cons in Hd as [Hz Hd].
  apply elem_of_cons in Hx as [-> | Hx], Hy as [-> | Hy]; [done| | |by apply IH].
  - exfalso. apply Hz. apply list_elem_of_fmap. exists y. split; [lia|done].
  - exfalso. apply Hz. apply list_elem_of_fmap. exists x. split; [lia|done].
Qed.

Section same_texts.
Context (e e' : env).

Lemma normalizeEnum_same a b n : distinct_values a -> same_enum a b -> normalizeEnum e a n = normalizeEnum e' b n.
Proof.
  intros Hd [Hn Hv]. unfold normalizeEnum. rewrite Hn. f_equal. f_equal.
  apply sorted_texts_same; [by rewrite Hv|by rewrite map_map].
Qed.

Lemma normalizeOneof_same a b n : distinct_members a -> same_oneof a b -> normalizeOneof e a n = normalizeOneof e' b n.
Proof.
  intros Hd [Hn Hv]. unfold normalizeOneof. rewrite Hn. f_equal. f_equal.
  assert (Htext : forall l, map (fun f => (Number f, item (S n) (fieldText "" (protoTypeName f) (FieldName f) (Number f)))) l =
    map (fun v => (v.1.2, item (S n) (words (field_words v)))) (map member_view l)).
  { intros l. rewrite map_map. apply map_ext. intros f. by rewrite member_text. }
  apply sorted_texts_same; [|by rewrite map_map]. by rewrite !Htext, Hv.
Qed.

Lemma normalizeService_same a b : same_service a b -> normalizeService a = normalizeService b.
Proof.
  intros [Hn Hm]. unfold normalizeService, sorted_blocks. rewrite Hn.
  by rewrite (sort_strings_perm (map (fun m => item 1 (methodText m)) (Methods a)) (map (fun m => item 1 (methodText m)) (Methods b))) by by rewrite Hm.
Qed.

Lemma fields_same s s' fs gs n :
  map (field_view s) fs ≡ₚ map (field_view s') gs -> NoDup (map Number fs) ->
  sorted_texts e (map (fun f => (Number f, normalizeField s f n)) fs) =
  sorted_texts e' (map (fun f => (Number f, normalizeField s' f n)) gs).
Proof.
  intros H Hd. apply sorted_texts_same; [|by rewrite map_map].
  assert (Hv : forall s fs, map (fun f => (Number f, normalizeField s f n)) fs =
    map (fun v => (v.1.2, item n (words (field_words v)))) (map (field_view s) fs)).
  { intros. rewrite map_map. apply map_ext. intros f. by rewrite normalizeField_text. }
  by rewrite !Hv, H.
Qed.

Lemma Forall_filter_elem {A} (P : A -> Prop) (p : A -> bool) l x : Forall P l -> x ∈ List.filter p l -> P x.
Proof. rewrite Forall_forall. intros H [Hx _]%list_elem_of_In%List.filter_In. apply H. by apply list_elem_of_In. Qed.

Lemma normalizeMessage_same s s' m : forall m' n,
  distinct_numbers m -> same_message s s' m m' -> normalizeMessage e s m n = normalizeMessage e' s' m' n.
Proof.
  induction m as [name k fields messages enums oneofs IH] using message_ind. intros m' n Hd H.
  inversion H as [? ? k' ? fields' ? messages' ? enums' ? oneofs' paired Hf Hp Hm He Ho]; subst.
  cbn [distinct_numbers] in Hd. destruct Hd as (Hdf & Hdm & Hde & Hdo). cbn [normalizeMessage]. rewrite !flat_map_filter.
  fold (shown_messages messages) (shown_messages messages') (shown_oneofs oneofs) (shown_oneofs oneofs').
  rewrite (fields_same s s' fields fields') by done.
  rewrite (sorted_blocks_same (same_message s s') _ (fun m => normalizeMessage e' s' m (S n)) (shown_messages messages) (shown_messages messages'));
    [|clear Hp Hm H|by exists paired].
  2: { intros x y Hx%shown_elem Hxy. rewrite Forall_forall in IH. apply IH; [done| |done].
       clear -Hdm Hx. induction Hx; simpl in Hdm; tauto. }
  rewrite (sorted_blocks_same same_enum _ (fun enum => normalizeEnum e' enum (S n)) enums enums'); [|clear -Hde|done].
  2: { intros x y Hx Hxy. rewrite Forall_forall in Hde. apply normalizeEnum_same; auto. }
  rewrite (sorted_blocks_same same_oneof _ (fun o => normalizeOneof e' o (S n)) (shown_oneofs oneofs) (shown_oneofs oneofs')); [done|clear -Hdo|done].
  intros x y Hx Hxy. apply normalizeOneof_same; [|done]. by eapply Forall_filter_elem.
Qed.
End same_texts.

(** ** Files *)

Definition head_leaves (f : FileDescriptor) : list block :=
  (if decide (Package f = "") then [] else [Leaf ("package " ++ Package f)]) ++ [Leaf (syntaxText (FileSyntax f))].

Lemma head_leaves_class f : Forall (fun b => class b = "") (head_leaves f).
Proof. unfold head_leaves. case_decide; repeat constructor. Qed.

Lemma head_leaves_line f : file_named f = true -> forallb one_line (head_leaves f) = true.
Proof.
  unfold file_named. rewrite !andb_true_iff. intros (((Hp & _) & _) & _). unfold head_leaves.
  rewrite forallb_app. apply andb_true_iff. split; [|by destruct (FileSyntax f)].
  destruct (decide (Package f = "")) as [E|E]; [done|].
  apply orb_true_iff in Hp as [Hp%bool_decide_eq_true|Hp]; [done|]. cbn [forallb one_line]. by rewrite lacks_app, (name_lacks "010" (Package f)).
Qed.

Lemma head_leaves_inj f g :
  head_leaves f = head_leaves g -> Package f = Package g /\ (FileSyntax f = Proto3 <-> FileSyntax g = Proto3).
Proof.
  unfold head_leaves. intros E. apply app_inj_2 in E as [Ep [= Es]]; [|done]. split.
  - destruct (decide (Package f = "")), (decide (Package g = "")); [congruence|done|done|].
    apply (app_string_inj "package "). congruence.
  - by destruct (FileSyntax f), (FileSyntax g).
Qed.

Lemma normalize_blocks e f : exists ms es ss,
  normalize e f = render_all 0 (head_leaves f ++ ms ++ es ++ ss) /\
  pairs_up (message_block (FileSyntax f)) (Messages f) ms /\ pairs_up enum_block (Enums f) es /\ pairs_up service_block (Services f) ss.
Proof.
  destruct (sorted_blocks_render (fun m => normalizeMessage e (FileSyntax f) m 0) (message_block (FileSyntax f)) 0 (Messages f))
    as (ms & Em & Hm). { apply Forall_true. intros m. apply normalizeMessage_block. }
  destruct (sorted_blocks_render (fun enum => normalizeEnum e enum 0) enum_block 0 (Enums f)) as (es & Ee & He).
  { apply Forall_true. intros enum. apply normalizeEnum_block. }
  destruct (sorted_blocks_render normalizeService service_block 0 (Services f)) as (ss & Es & Hs).
  { apply Forall_true. intros s. apply normalizeService_block. }
  exists ms, es, ss. split; [|done]. unfold normalize, head_leaves. rewrite Em, Ee, Es, !render_all_app, !append_assoc.
  by destruct (decide (Package f = "")).
Qed.

Lemma file_blocks_line f ms es ss :
  file_named f = true -> pairs_up (message_block (FileSyntax f)) (Messages f) ms -> pairs_up enum_block (Enums f) es ->
  pairs_up service_block (Services f) ss -> forallb one_line (head_leaves f ++ ms ++ es ++ ss) = true.
Proof.
  intros Hf Hm He Hs. rewrite !forallb_app, head_leaves_line by done. unfold file_named in Hf. rewrite !andb_true_iff in Hf.
  destruct Hf as (((_ & Hmn) & Hen) & Hsn). repeat (apply andb_true_iff; split); [done|..].
  - apply (pairs_up_forallb _ message_named one_line _ _ ltac:(intros m b _; apply message_block_line) Hmn Hm).
  - apply (pairs_up_forallb _ enum_named one_line _ _ ltac:(intros m b _; apply enum_block_line) Hen He).
  - apply (pairs_up_forallb _ service_named one_line _ _ ltac:(intros m b _; apply service_block_line) Hsn Hs).
Qed.

Lemma file_sections f ms es ss :
  pairs_up (message_block (FileSyntax f)) (Messages f) ms -> pairs_up enum_block (Enums f) es -> pairs_up service_block (Services f) ss ->
  sections [""; "message"; "enum"; "service"] [head_leaves f; ms; es; ss].
Proof.
  intros Hm He Hs. unfold sections. repeat (apply Forall2_cons_2 || apply Forall2_nil_2);
    [apply head_leaves_class|by eapply pairs_up_class; [apply class_message|]|
     by eapply pairs_up_class; [apply class_enum|]|by eapply pairs_up_class; [apply class_service|]].
Qed.

Lemma same_file_of e e' f g :
  file_named f = true -> file_named g = true -> normalize e f = normalize e' g -> same_file f g.
Proof.
  intros Hf Hg E. destruct (normalize_blocks e f) as (ms & es & ss & Ef & Hm & He & Hs).
  destruct (normalize_blocks e' g) as (ms' & es' & ss' & Eg & Hm' & He' & Hs'). rewrite Ef, Eg in E.
  apply render_all_inj in E; [|by apply file_blocks_line..].
  assert ([head_leaves f; ms; es; ss] = [head_leaves g; ms'; es'; ss']) as Es.
  { apply (sections_inj [""; "message"; "enum"; "service"]); [by apply (bool_decide_unpack _)|by apply file_sections..|].
    simpl. by rewrite !app_nil_r. }
  injection Es as Eh -> -> ->. apply head_leaves_inj in Eh as [Hp Hsyn].
  unfold file_named in Hf, Hg. rewrite !andb_true_iff in Hf, Hg.
  destruct Hf as (((_ & Hmn) & Hen) & Hsn), Hg as (((_ & Hmn') & Hen') & Hsn').
  do 2 (split; [done|]). split; [|split]; (eapply pairs_up_join; [|eassumption..]); intros x y b Hx Hy.
  - apply same_message_of; [by apply (named_elem _ (Messages f))|by apply (named_elem _ (Messages g))].
  - apply same_enum_of; [by apply (named_elem _ (Enums f))|by apply (named_elem _ (Enums g))].
  - apply same_service_of; [by apply (named_elem _ (Services f))|by apply (named_elem _ (Services g))].
Qed.

Lemma normalize_same e e' f g : file_distinct f -> same_file f g -> normalize e f = normalize e' g.
Proof.
  intros [Hd Hde] (Hp & Hsyn & Hm & He & Hs). unfold normalize. rewrite Hp.
  assert (syntaxText (FileSyntax f) = syntaxText (FileSyntax g)) as -> by (unfold syntaxText; repeat case_decide; tauto).
  rewrite Forall_forall in Hd. rewrite Forall_forall in Hde.
  rewrite (sorted_blocks_same _ _ (fun m => normalizeMessage e' (FileSyntax g) m 0) _ (Messages g)
    ltac:(intros x y Hx; apply normalizeMessage_same; by apply Hd) Hm).
  rewrite (sorted_blocks_same _ _ (fun enum => normalizeEnum e' enum 0) _ (Enums g)
    ltac:(intros x y Hx; apply normalizeEnum_same; by apply Hde) He).
  rewrite (sorted_blocks_same same_service normalizeService normalizeService (Services f) (Services g)); [done| |done].
  intros x y _. apply normalizeService_same.
Qed.

(** Property C33.  Of parsed Protobuf files whose names are identifiers, no message
    or enum called like a scalar type ([file_named]), two with one canonical text
    declare the same package, syntax (proto3 or not), messages, enums and services
    up to the order of declarations, with the name, number, label and type of
    every field - its scalar kind, or the full name of its message or enum.
    Conversely two that do have one canonical text, whatever order sorting leaves
    equal keys in, if the numbers in each declaration of the first are distinct
    ([file_distinct]): not those of an enum with [allow_alias]. *)
Theorem canonical_text_of_declarations e e' p q
  (Hp : file_named (descriptor p) = true) (Hq : file_named (descriptor q) = true) :
  (CanonicalString e p = CanonicalString e' q -> same_file (descriptor p) (descriptor q)) /\
  (file_distinct (descriptor p) -> same_file (descriptor p) (descriptor q) -> CanonicalString e p = CanonicalString e' q).
Proof. split; [by apply same_file_of|apply normalize_same]. Qed.

(** ** Examples *)

Definition scalar (k : Kind) : FieldType := MkFieldType k "".
Definition status : Enum := MkEnum "Status" [MkEnumValue "UNKNOWN" 0; MkEnumValue "PAID" 1].
Definition status_type : FieldType := MkFieldType EnumKind "shop.Status".
Definition id_field : Field := MkField "id" 1 Optional (scalar StringKind) None None.
Definition count_field (oneof : option Z) : Field := MkField "count" 2 Optional (scalar Int32Kind) None oneof.
Definition states_field : Field :=
  MkField "states" 3 Repeated (MkFieldType MessageKind "shop.Order.StatesEntry") (Some (scalar StringKind, status_type)) None.
Definition states_entry : Message := MkMessage "StatesEntry" true [] [] [] [].
Definition lookup_service : Service :=
  MkService "Lookup" [MkMethod "Get" false true "shop.Item" "shop.Order"; MkMethod "Find" false false "shop.Order" "shop.Item"].
Definition item_message : Message := MkMessage "Item" false [id_field] [] [] [].

Definition shop (fields : list Field) (oneofs : list Oneof) (ms : Message -> list Message) (services : list Service) : FileDescriptor :=
  MkFile "schema.proto" "shop" Proto3 [] (ms (MkMessage "Order" false fields [states_entry] [] oneofs)) [status] services.

Definition shop_1 : FileDescriptor :=
  shop [id_field; count_field None; states_field] [] (fun m => [m; item_message]) [lookup_service].
Definition shop_2 : FileDescriptor :=
  shop [states_field; count_field None; id_field] [] (fun m => [item_message; m])
    [MkService "Lookup" (rev (Methods lookup_service))].

Example shop_text : normalize env0 shop_1 = quoted "package shop;
syntax = 'proto3';
message Item {
  string id = 1;
}
message Order {
  string id = 1;
  int32 count = 2;
  map<string, shop.Status> states = 3;
}
enum Status {
  UNKNOWN = 0;
  PAID = 1;
}
service Lookup {
  rpc Find (shop.Order) returns (shop.Item);
  rpc Get (shop.Item) returns (stream shop.Order);
}
".
Proof. vm_compute. reflexivity. Qed.

Lemma canonical_text_of_declarations_witness :
  same_file shop_1 shop_2 /\
  CanonicalString env0 (MkParsed "" shop_1 []) = CanonicalString env_backwards (MkParsed "" shop_2 []).
Proof.
  destruct (canonical_text_of_declarations env0 env0 (MkParsed "a" shop_1 []) (MkParsed "b" shop_2 []) eq_refl eq_refl) as [Hsame _].
  assert (same_file shop_1 shop_2) as H by (apply Hsame; vm_compute; reflexivity).
  split; [exact H|].
  apply (canonical_text_of_declarations env0 env_backwards (MkParsed "" shop_1 []) (MkParsed "" shop_2 []) eq_refl eq_refl); [|exact H].
  repeat first [split | apply Forall_cons_2 | apply Forall_nil_2 | exact I | apply (bool_decide_unpack (NoDup _)); vm_compute; exact I].
Defined.

(** The presence a proto3 field declares with [optional] is not in the text. *)
Definition shop_optional : FileDescriptor :=
  shop [id_field; count_field (Some 0%Z); states_field] [MkOneof "_count" true [count_field (Some 0%Z)]] (fun m => [m; item_message])
    [lookup_service].
Example presence_dropped :
  count_field (Some 0%Z) <> count_field None /\ normalize env0 shop_optional = normalize env0 shop_1.
Proof. split; [done|vm_compute; reflexivity]. Qed.

(** ** The serialized form *)

Fixpoint has_enum_field (m : Message) : bool :=
  let '(MkMessage _ _ fields messages _ _) := m in
  existsb (fun f => bool_decide (TypeKind (Type_ f) = EnumKind)) fields || existsb has_enum_field messages.

Lemma field_panics f : fieldToProto f = None <-> bool_decide (TypeKind (Type_ f) = EnumKind) = true.
Proof. unfold fieldToProto. by destruct (TypeKind (Type_ f)). Qed.

Lemma mapM_panics {A B} (f : A -> option B) (p : A -> bool) l :
  Forall (fun x => f x = None <-> p x = true) l -> mapM f l = None <-> existsb p l = true.
Proof.
  induction 1 as [|x l Hx _ IH]; [done|]. cbn [mapM existsb]. rewrite orb_true_iff, <- IH, <- Hx.
  destruct (f x); simpl; [|by split; [left|]]. destruct (mapM f l); naive_solver.
Qed.

Lemma messageToProto_eq name k fields messages enums oneofs :
  messageToProto (MkMessage name k fields messages enums oneofs) =
  (fields ← mapM fieldToProto fields; nested ← mapM messageToProto messages;
   Some (MkDescriptorProto name fields (map OneofName oneofs) nested (map enumToProto enums))).
Proof.
  cbn [messageToProto]. destruct (mapM fieldToProto fields); [|done]. simpl.
  match goal with |- ?x ≫= _ = _ => assert (x = mapM messageToProto messages) as ->; [|done] end.
  induction messages as [|m ms IH]; [done|]. simpl. by rewrite IH.
Qed.

Lemma message_panics m : messageToProto m = None <-> has_enum_field m = true.
Proof.
  induction m as [name k fields messages enums oneofs IH] using message_ind. rewrite messageToProto_eq. cbn [has_enum_field].
  rewrite orb_true_iff, <- (mapM_panics fieldToProto) by (apply Forall_true, field_panics). rewrite <- (mapM_panics messageToProto) by done.
  destruct (mapM fieldToProto fields), (mapM messageToProto messages); naive_solver.
Qed.

(** The serialized form of a schema is a panic exactly when a message has a field
    of an enum type; every other form of a schema is text. *)
Lemma serialized_panics lib e p format :
  FormattedString lib e p format = None <->
  ToLower (TrimSpace format) = "serialized" /\ existsb has_enum_field (Messages (descriptor p)) = true.
Proof.
  unfold FormattedString. case_decide as Hf; [|naive_solver]. unfold toFileDescriptorProto.
  pose proof (mapM_panics messageToProto has_enum_field (Messages (descriptor p)) ltac:(apply Forall_true, message_panics)) as H.
  destruct (mapM messageToProto (Messages (descriptor p))); simpl; naive_solver.
Qed.
