(* ===== verification/Analysis.v ===== *)
(** * Schema analysis (internal/analysis)

    The fields of a schema, the casings of a name, similarity of names, and the
    quality of a schema.  Parsing Avro is github.com/hamba/avro's work: [AvroView]
    is a parsed schema as far as the walk looks at it.  Names are taken as ASCII
    text.  The expression that finds the fields of a Protobuf file is a matcher
    that tries alternatives in the order of [regexp].  The second half says what
    the functions compute. *)
From S2P Require Import Prelude Levenshtein GoStrings GoFloat GoJson JsonValue StorageTypes Glob.
From Stdlib Require Import Ascii String.

Local Open Scope string_scope.
Local Open Scope Z_scope.

(** ** fields.go: the fields of a schema *)

Record FieldInfo := MkFieldInfo {
  Name : string;
  Path : string;
  FieldType : string;
  Required : bool;
  HasDefault : bool;
  Doc : string
}.

(** *** Avro *)

(** A later use of a named type is a reference, which is not followed. *)
Inductive AvroView :=
  | VPrimitive (type : string)
  | VNull
  | VRecord (fields : list (string * AvroView * bool * string))   (* name, type, has a default, doc *)
  | VEnum
  | VFixed
  | VArray (items : AvroView)
  | VMap (values : AvroView)
  | VUnion (types : list AvroView)
  | VRef.

Fixpoint avroSchemaTypeName (s : AvroView) : string :=
  match s with
  | VPrimitive type => type
  | VRecord _ => "record"
  | VArray _ => "array"
  | VMap _ => "map"
  | VEnum => "enum"
  | VFixed => "fixed"
  | VUnion types => "union[" ++ Join (map avroSchemaTypeName types) "," ++ "]"
  | VRef => "ref"
  | VNull => "null"
  end.

Definition is_null (s : AvroView) : bool := match s with VNull => true | _ => false end.

Definition isAvroNullable (s : AvroView) : bool :=
  match s with VUnion types => existsb is_null types | _ => false end.

Definition sub_path (prefix name : string) : string := if decide (prefix = "") then name else prefix ++ "." ++ name.

(** [walkAvroFieldType]; of a record it is [walkAvroSchema]. *)
Fixpoint walkAvroFieldType (s : AvroView) (prefix : string) : list FieldInfo :=
  match s with
  | VRecord fields =>
      flat_map (fun '(name, type, hasDefault, doc) =>
        let path := sub_path prefix name in
        MkFieldInfo name path (avroSchemaTypeName type) (negb (isAvroNullable type)) hasDefault doc
          :: walkAvroFieldType type path) fields
  | VArray items => walkAvroFieldType items (prefix ++ "[]")
  | VMap values => walkAvroFieldType values (prefix ++ "{}")
  | VUnion types => flat_map (fun t => if is_null t then [] else walkAvroFieldType t prefix) types
  | _ => []
  end.

Definition walkAvroSchema (s : AvroView) (prefix : string) : list FieldInfo :=
  match s with VRecord _ => walkAvroFieldType s prefix | _ => [] end.

Definition extractAvroFields (avro_Parse : string -> option AvroView) (schemaStr : string) : list FieldInfo :=
  match avro_Parse schemaStr with Some schema => walkAvroSchema schema "" | None => [] end.

(** *** JSON Schema *)

(** [v.(string)] and [v.(map[string]interface{})] of a member that may be missing. *)
Definition as_string (v : option json) : option string := match v with Some (JString s) => Some s | _ => None end.
Definition as_object (v : option json) : option (gmap string json) := match v with Some (JObject m) => Some m | _ => None end.

(** The names in the [required] of an object. *)
Definition requiredNames (obj : gmap string json) : gset string :=
  match obj !! "required" with
  | Some (JArray l) => list_to_set (omap (fun v => as_string (Some v)) l)
  | _ => ∅
  end.

(** The walk; each level has its own order of the properties. *)
Fixpoint walkJSONSchemaProperties (fuel : nat) (e : env) (obj : gmap string json) (prefix : string)
    (parentRequired : gset string) : list FieldInfo :=
  match fuel, as_object (obj !! "properties") with
  | S fuel, Some props =>
      flat_map (fun '(name, propRaw) =>
        match propRaw with
        | JObject prop =>
            let path := sub_path prefix name in
            let typeName := from_opt "object" (as_string (prop !! "type")) in
            MkFieldInfo name path typeName (bool_decide (name ∈ parentRequired)) (bool_decide (is_Some (prop !! "default")))
                (from_opt "" (as_string (prop !! "description")))
              :: ((if decide (typeName = "object") then walkJSONSchemaProperties fuel e prop path (requiredNames prop) else []) ++
                  (if decide (typeName = "array") then
                     match as_object (prop !! "items") with
                     | Some items =>
                         if decide (as_string (items !! "type") = Some "object")
                         then walkJSONSchemaProperties fuel e items (path ++ "[]")%string (requiredNames items)
                         else []
                     | None => []
                     end
                   else []))%list
        | _ => []
        end) (range e props)
  | _, _ => []
  end.

Definition extractJSONSchemaFields (e : env) (schemaStr : string) : list FieldInfo :=
  match UnmarshalMap schemaStr with
  | Some (Some schema) => walkJSONSchemaProperties (depth (JObject schema)) e schema "" (requiredNames schema)
  | _ => []
  end.

(** *** Protobuf *)

(** [\s] and [\w]. *)
Definition is_white (c : ascii) : bool := bool_decide (nat_of_ascii c ∈ [9; 10; 12; 13; 32]%nat).
Definition is_word (c : ascii) : bool :=
  byte_in 48 57 c || byte_in 65 90 c || byte_in 97 122 c || Ascii.eqb c "_".

(** A class of characters as often as possible, then fewer times, in front of what
    has to follow; the text is handed on. *)
Fixpoint star {A} (p : ascii -> bool) (taken s : string) (k : string -> string -> option A) : option A :=
  match s with
  | String c s' =>
      if p c then match star p (taken ++ String c "") s' k with Some a => Some a | None => k taken s end
      else k taken s
  | EmptyString => k taken s
  end.

Definition plus {A} (p : ascii -> bool) (s : string) (k : string -> string -> option A) : option A :=
  match s with
  | String c s' => if p c then star p (String c "") s' k else None
  | EmptyString => None
  end.

Definition lit {A} (word s : string) (k : string -> option A) : option A :=
  if HasPrefix s word then k (drop_str (String.length word) s) else None.

(** The alternatives in order. *)
Definition orElse {A} (a b : option A) : option A := match a with Some _ => a | None => b end.

(** [^\s*(?:(optional|required|repeated)\s+)?(\w+)\s+(\w+)\s*=\s*\d+\s*;] at the
    beginning of a line: the groups, and what is left of the text. *)
Definition field_line (s : string) : option (string * string * string * string) :=
  star is_white "" s (fun _ s =>
    let typed (modifier s : string) :=
      plus is_word s (fun typeName s => plus is_white s (fun _ s => plus is_word s (fun name s =>
        star is_white "" s (fun _ s => lit "=" s (fun s => star is_white "" s (fun _ s =>
          plus is_digit s (fun _ s => star is_white "" s (fun _ s => lit ";" s (fun s =>
            Some (modifier, typeName, name, s)))))))))) in
    let modified (modifier : string) := lit modifier s (fun s => plus is_white s (fun _ s => typed modifier s)) in
    orElse (modified "optional") (orElse (modified "required") (orElse (modified "repeated") (typed "" s)))).

(** [FindAllStringSubmatch]: [skip] bytes belong to the last match. *)
Fixpoint field_lines (at_line : bool) (skip : nat) (s : string) : list (string * string * string) :=
  match s with
  | EmptyString => []
  | String c s' =>
      let at_line' := Ascii.eqb c "010" in
      match skip with
      | S skip => field_lines at_line' skip s'
      | O =>
          match (if at_line then field_line s else None) with
          | Some (modifier, typeName, name, rest) =>
              (modifier, typeName, name) :: field_lines at_line' (String.length s' - String.length rest)%nat s'
          | None => field_lines at_line' 0 s'
          end
      end
  end.

Definition extractProtobufFields (schemaStr : string) : list FieldInfo :=
  map (fun '(modifier, typeName, name) =>
    MkFieldInfo name name typeName (bool_decide (modifier = "required")) false "") (field_lines true 0 schemaStr).

Definition ExtractFields (avro_Parse : string -> option AvroView) (e : env) (schemaStr schemaType : string) : list FieldInfo :=
  if decide (schemaType = SchemaTypeAvro) then extractAvroFields avro_Parse schemaStr
  else if decide (schemaType = SchemaTypeJSON) then extractJSONSchemaFields e schemaStr
  else if decide (schemaType = SchemaTypeProtobuf) then extractProtobufFields schemaStr
  else [].

(** ** Names *)

Definition is_upper (c : ascii) : bool := byte_in 65 90 c.
Definition is_lower (c : ascii) : bool := byte_in 97 122 c.

(** [NormalizeFieldName], and [toSnakeCase] of fuzzy.go, from the second character on. *)
Fixpoint snake_rest (prev : ascii) (s : string) : string :=
  match s with
  | EmptyString => ""
  | String c s =>
      if bool_decide (c ∈ ["-"; "."; " "]%char) then String "_" (snake_rest c s)
      else
        let rest := String (lower_byte c) (snake_rest c s) in
        if is_upper c && (is_lower prev || is_digit prev) then String "_" rest else rest
  end.

Definition NormalizeFieldName (name : string) : string :=
  match name with
  | EmptyString => ""
  | String c s =>
      if bool_decide (c ∈ ["-"; "."; " "]%char) then String "_" (snake_rest c s)
      else String (lower_byte c) (snake_rest c s)
  end.

Definition toSnakeCase (name : string) : string := NormalizeFieldName name.

(** [strings.ToUpper(part[:1]) + part[1:]]; an empty part is left out. *)
Definition capitalized (part : string) : string :=
  match part with String c s => String (upper_byte c) s | EmptyString => "" end.

(** Values that are there for the first time. *)
Fixpoint deduplicated (seen l : list string) : list string :=
  match l with
  | [] => []
  | v :: l => if decide (v ∈ seen) then deduplicated seen l else v :: deduplicated (v :: seen) l
  end.

Definition NamingVariants (name : string) : list string :=
  match Split (toSnakeCase name) "_" with
  | [] => [name]
  | (first :: others) as parts =>
      let snakeCase := Join parts "_" in
      let camelCase := Join (ToLower first :: map capitalized others) "" in
      let pascalCase := Join (map capitalized parts) "" in
      let kebabCase := Join parts "-" in
      deduplicated [] [snakeCase; camelCase; pascalCase; kebabCase]
  end.

(** ** fuzzy.go: similarity *)

Definition float_one : float64 := Float64.of_Z 1.

Definition FuzzyScore (query target : string) : float64 :=
  let q := ToLower query in
  let t := ToLower target in
  if decide (q = t) then float_one
  else
    let maxLen := Nat.max (String.length q) (String.length t) in
    if (maxLen =? 0)%nat then float_one
    else
      let dist := LevenshteinDistance q t in
      Float64.sub float_one (Float64.div (Float64.of_Z (Z.of_nat dist)) (Float64.of_Z (Z.of_nat maxLen))).

Record FuzzyMatch := MkFuzzyMatch { Value : string; Score : float64 }.

Definition MatchFuzzy (query : string) (candidates : list string) (threshold : float64) : list FuzzyMatch :=
  omap (fun c =>
    let score := FuzzyScore query c in
    if SFleb threshold score then Some (MkFuzzyMatch c score) else None) candidates.

(** ** quality.go *)

Record CategoryScore := MkCategoryScore { CatScore : Z; CatMaxScore : Z; Details : list string }.

Record QualityResult := MkQualityResult {
  OverallScore : Z;
  MaxScore : Z;
  Grade : string;
  Categories : gmap string CategoryScore;
  QuickWins : list string
}.

Definition isGoodFieldName (name : string) : bool :=
  match name with
  | EmptyString => false
  | _ => forallb (fun c => negb (is_upper c) && negb (bool_decide (c ∈ ["-"; " "]%char))) (list_ascii_of_string name)
  end.

Definition isSpecificType (t : string) : bool := negb (bool_decide (ToLower t ∈ ["string"; "bytes"; "any"; "object"])).

(** [25 * n / len(fields)], and 25 without fields. *)
Definition share (n total : nat) : Z :=
  if (0 <? total)%nat then (25 * Z.of_nat n) `quot` Z.of_nat total else 25.

Definition count {A} (p : A -> bool) (l : list A) : nat := List.length (List.filter p l).

(** Each category with the quick wins it adds. *)
Definition namingScore (fields : list FieldInfo) : CategoryScore * list string :=
  let good f := isGoodFieldName (Name f) in
  let bad := List.filter (fun f => negb (good f)) fields in
  (MkCategoryScore (share (count good fields) (List.length fields)) 25
     (map (fun f => "Field '" ++ Name f ++ "' does not follow snake_case convention") bad),
   map (fun f => "Rename '" ++ Name f ++ "' to '" ++ NormalizeFieldName (Name f) ++ "'") bad).

Definition documentationScore (fields : list FieldInfo) : CategoryScore * list string :=
  let documented := count (fun f => negb (bool_decide (Doc f = ""))) fields in
  let total := List.length fields in
  let none := (0 <? total)%nat && (documented =? 0)%nat in
  (MkCategoryScore (share documented total) 25
     (if none then ["No fields have documentation"]
      else if (documented <? total)%nat then ["Only some fields have documentation"] else []),
   if none then ["Add documentation/descriptions to fields"] else []).

Definition typeSafetyScore (fields : list FieldInfo) : CategoryScore :=
  let safe f := isSpecificType (FieldType f) in
  MkCategoryScore (share (count safe fields) (List.length fields)) 25
    (map (fun f => "Field '" ++ Name f ++ "' uses generic type '" ++ FieldType f ++ "'") (List.filter (fun f => negb (safe f)) fields)).

Definition quoted_word (word : string) : string := String "034" (word ++ String "034" "").

Definition evolutionScore (fields : list FieldInfo) (schemaStr : string) : CategoryScore * list string :=
  let withDefaults := count HasDefault fields in
  let some_fields := (0 <? List.length fields)%nat in
  let defaults := some_fields && (0 <? withDefaults)%nat in
  let named := Contains schemaStr "namespace" || Contains schemaStr "package" in
  let described := Contains schemaStr (quoted_word "doc") || Contains schemaStr (quoted_word "description") in
  (MkCategoryScore ((if defaults then 10 else 0) + (if named then 8 else 0) + (if described then 7 else 0)) 25
     ((if defaults then ["Fields with defaults enable backward-compatible evolution"]
       else if some_fields then ["No fields have default values; consider adding defaults for evolution safety"] else []) ++
      (if named then [] else ["No namespace/package declaration found"]) ++
      (if described then [] else ["Schema-level documentation is missing"]))%list,
   ((if negb defaults && some_fields then ["Add default values to optional fields"] else []) ++
    (if named then [] else ["Add a namespace to prevent naming conflicts"]))%list).

Definition gradeOf (pct : Z) : string :=
  if 90 <=? pct then "A" else if 80 <=? pct then "B" else if 70 <=? pct then "C" else if 60 <=? pct then "D" else "F".

Definition ScoreSchemaQuality (e : env) (fields : list FieldInfo) (schemaStr schemaType : string) : QualityResult :=
  let '(naming, wins1) := namingScore fields in
  let '(docs, wins2) := documentationScore fields in
  let typeSafety := typeSafetyScore fields in
  let '(evolution, wins3) := evolutionScore fields schemaStr in
  let categories := <["evolution" := evolution]> (<["type_safety" := typeSafety]> (<["documentation" := docs]> {[ "naming" := naming ]})) in
  let cats := map snd (range e categories) in
  let overall := fold_left (fun n cat => n + CatScore cat) cats 0 in
  let max := fold_left (fun n cat => n + CatMaxScore cat) cats 0 in
  let pct := if 0 <? max then (100 * overall) `quot` max else 0 in
  MkQualityResult overall max (gradeOf pct) categories (wins1 ++ wins2 ++ wins3)%list.

(** ** What schema analysis computes

    The walk over a JSON Schema ends for the nesting of its text, and the fields
    are the same in whatever order its maps are visited.  Scores stay within their
    bounds.  A normalised name is normal. *)
(** ** The walk *)

Lemma as_object_depth (obj m : gmap string json) key :
  as_object (obj !! key) = Some m -> (depth (JObject m) < depth (JObject obj))%nat.
Proof. destruct (obj !! key) as [[| | | | |m']|] eqn:E; try done. intros [= ->]. by apply (depth_lookup obj key). Qed.

Lemma flat_map_ext_elem {A B} (f g : A -> list B) l : (forall a, a ∈ l -> f a = g a) -> flat_map f l = flat_map g l.
Proof.
  induction l as [|a l IH]; intros H; [done|]. simpl. rewrite H by left. f_equal. apply IH. intros b Hb. apply H. by right.
Qed.

(** A fuel above the nesting is as good as another. *)
Lemma walk_fuel fuel fuel' e obj prefix required :
  (depth (JObject obj) <= fuel)%nat -> (depth (JObject obj) <= fuel')%nat ->
  walkJSONSchemaProperties fuel e obj prefix required = walkJSONSchemaProperties fuel' e obj prefix required.
Proof.
  revert fuel' obj prefix required. induction fuel as [|fuel IH]; intros fuel' obj prefix required Hd Hd'; [simpl in Hd; lia|].
  destruct fuel' as [|fuel']; [simpl in Hd'; lia|]. cbn [walkJSONSchemaProperties].
  destruct (as_object (obj !! "properties")) as [props|] eqn:Ep; [|done]. apply as_object_depth in Ep.
  apply flat_map_ext_elem. intros [name v] Hv%elem_of_range%depth_lookup. destruct v as [| | | | |prop]; try done.
  f_equal. f_equal; case_decide; try done; [apply IH; lia|].
  destruct (as_object (prop !! "items")) as [items|] eqn:Ei; [|done]. apply as_object_depth in Ei. case_decide; [apply IH; lia|done].
Qed.

(** The order of the maps does not matter. *)
Lemma flat_map_perm {A B} (f g : A -> list B) l l' :
  l ≡ₚ l' -> (forall a, a ∈ l -> f a ≡ₚ g a) -> flat_map f l ≡ₚ flat_map g l'.
Proof.
  intros Hl Hf. transitivity (flat_map g l); [|by apply Permutation_flat_map].
  clear Hl. induction l as [|a l IH]; [done|]. simpl. apply Permutation_app; [apply Hf; left|].
  apply IH. intros b Hb. apply Hf. by right.
Qed.

Lemma walk_perm fuel e e' obj prefix required :
  walkJSONSchemaProperties fuel e obj prefix required ≡ₚ walkJSONSchemaProperties fuel e' obj prefix required.
Proof.
  revert obj prefix required. induction fuel as [|fuel IH]; intros obj prefix required; [done|]. cbn [walkJSONSchemaProperties].
  destruct (as_object (obj !! "properties")) as [props|]; [|done]. apply flat_map_perm; [by rewrite !range_perm|].
  intros [name [| | | | |prop]] _; try done. apply Permutation_skip, Permutation_app.
  - case_decide; [apply IH|done].
  - case_decide; [|done]. destruct (as_object (prop !! "items")) as [items|]; [|done]. case_decide; [apply IH|done].
Qed.

Lemma ExtractFields_perm avro_Parse e e' schemaStr schemaType :
  ExtractFields avro_Parse e schemaStr schemaType ≡ₚ ExtractFields avro_Parse e' schemaStr schemaType.
Proof.
  unfold ExtractFields, extractJSONSchemaFields. repeat case_decide; try done. repeat case_match; try done. apply walk_perm.
Qed.

(** ** Names *)

Definition normal_char (c : ascii) : Prop := is_upper c = false /\ c ∉ ["-"; "."; " "]%char.

Lemma lower_byte_normal c : c ∉ ["-"; "."; " "]%char -> normal_char (lower_byte c).
Proof.
  intros Hc. assert (forall c, is_upper (lower_byte c) = false) as Hu.
  { intros [[] [] [] [] [] [] [] []]; reflexivity. }
  split; [apply Hu|]. destruct (is_upper c) eqn:E.
  - revert E. clear. destruct c as [[] [] [] [] [] [] [] []]; try discriminate; intros _; by apply (bool_decide_unpack (_ ∉ _)).
  - assert (lower_byte c = c) as ->; [|done]. revert E. clear. destruct c as [[] [] [] [] [] [] [] []]; done.
Qed.

Lemma lower_byte_id c : is_upper c = false -> lower_byte c = c.
Proof. destruct c as [[] [] [] [] [] [] [] []]; done. Qed.

Lemma snake_rest_normal prev s : Forall normal_char (list_ascii_of_string (snake_rest prev s)).
Proof.
  assert (normal_char "_") as Hu by (split; [done|by apply (bool_decide_unpack (_ ∉ _))]).
  revert prev. induction s as [|c s IH]; intros prev; [constructor|]. cbn [snake_rest].
  case_bool_decide as D; cbn; [constructor; [done|apply IH]|]. apply lower_byte_normal in D.
  destruct (_ && _); cbn; repeat (constructor; try done); apply IH.
Qed.

Lemma normal_snake_rest prev s : Forall normal_char (list_ascii_of_string s) -> snake_rest prev s = s.
Proof.
  revert prev. induction s as [|c s IH]; intros prev; [done|]. cbn [list_ascii_of_string snake_rest]. intros [[Hu Hc] Hs]%Forall_cons.
  by rewrite bool_decide_false, Hu, lower_byte_id, IH by done.
Qed.

(** A normalised name is its own normal form. *)
Theorem NormalizeFieldName_idempotent name : NormalizeFieldName (NormalizeFieldName name) = NormalizeFieldName name.
Proof.
  assert (forall c s, Forall normal_char (list_ascii_of_string (String c s)) -> NormalizeFieldName (String c s) = String c s) as H.
  { intros c s [[Hu Hc] Hs]%Forall_cons. cbn [NormalizeFieldName]. by rewrite bool_decide_false, lower_byte_id, normal_snake_rest by done. }
  destruct name as [|c s]; [done|]. cbn [NormalizeFieldName]. case_bool_decide as D; apply H; cbn; (constructor; [|apply snake_rest_normal]).
  - split; [done|by apply (bool_decide_unpack (_ ∉ _))].
  - by apply lower_byte_normal.
Qed.

(** The casings of a name need not have its normal form: a search for a_b_c takes
    the field a_bc for the same. *)
Example variant_of_another_name : NamingVariants "a_b_c" = ["a_b_c"; "aBC"; "ABC"; "a-b-c"] /\
  map NormalizeFieldName (NamingVariants "a_b_c") = ["a_b_c"; "a_bc"; "abc"; "a_b_c"].
Proof. vm_compute. done. Qed.

(** ** Quality *)

Lemma share_bounds n total : (n <= total)%nat -> 0 <= share n total <= 25.
Proof.
  intros Hn. unfold share. destruct (Nat.ltb_spec 0 total) as [Ht|]; [|lia]. rewrite Z.quot_div_nonneg by lia.
  split; [apply Z.div_pos; lia|]. apply Z.div_le_upper_bound; lia.
Qed.

Lemma count_le {A} (p : A -> bool) l : (count p l <= List.length l)%nat.
Proof. unfold count. induction l as [|a l IH]; simpl; [done|]. destruct (p a); simpl; lia. Qed.

(** The four categories of a result. *)
Definition category_names : list string := ["naming"; "documentation"; "type_safety"; "evolution"].

Definition category_ok (cat : CategoryScore) : Prop := 0 <= CatScore cat <= 25 /\ CatMaxScore cat = 25.

Lemma category_ok_share p (fields : list FieldInfo) details :
  category_ok (MkCategoryScore (share (count p fields) (List.length fields)) 25 details).
Proof. split; [apply share_bounds, count_le|done]. Qed.

Lemma namingScore_ok fields : category_ok (fst (namingScore fields)).
Proof. apply category_ok_share. Qed.

Lemma documentationScore_ok fields : category_ok (fst (documentationScore fields)).
Proof. apply category_ok_share. Qed.

Lemma typeSafetyScore_ok fields : category_ok (typeSafetyScore fields).
Proof. apply category_ok_share. Qed.

Lemma evolutionScore_ok fields schemaStr : category_ok (fst (evolutionScore fields schemaStr)).
Proof.
  unfold evolutionScore. cbv zeta. split; cbn [fst CatScore CatMaxScore]; [|done].
  generalize (Contains schemaStr "namespace" || Contains schemaStr "package") as b.
  generalize (Contains schemaStr (quoted_word "doc") || Contains schemaStr (quoted_word "description")) as b'.
  generalize ((0 <? List.length fields)%nat && (0 <? count HasDefault fields)%nat) as b''. intros [] [] []; lia.
Qed.

Lemma fold_sum_perm {A} (f : A -> Z) l l' n : l ≡ₚ l' -> fold_left (fun n a => n + f a) l n = fold_left (fun n a => n + f a) l' n.
Proof. intros Hl. revert n. induction Hl; intros m; simpl; [done|auto|f_equal; lia|by rewrite IHHl1]. Qed.

Definition sum_of (f : CategoryScore -> Z) (m : gmap string CategoryScore) : Z :=
  fold_left (fun n cat => n + f cat) (map snd (map_to_list m)) 0.

Lemma range_sum e (f : CategoryScore -> Z) m : fold_left (fun n cat => n + f cat) (map snd (range e m)) 0 = sum_of f m.
Proof. apply fold_sum_perm. by rewrite (range_perm e m). Qed.

(** The quality of a schema does not depend on the order in which the
    categories are added up: it is the sum of four scores between 0 and 25, out of
    100, and the grade is that of this sum. *)
Theorem ScoreSchemaQuality_bounds e fields schemaStr schemaType :
  let result := ScoreSchemaQuality e fields schemaStr schemaType in
  exists naming docs types evolution,
    Categories result !! "naming" = Some naming /\ Categories result !! "documentation" = Some docs /\
    Categories result !! "type_safety" = Some types /\ Categories result !! "evolution" = Some evolution /\
    Forall category_ok [naming; docs; types; evolution] /\
    OverallScore result = CatScore naming + CatScore docs + CatScore types + CatScore evolution /\
    MaxScore result = 100 /\ Grade result = gradeOf (OverallScore result).
Proof.
  unfold ScoreSchemaQuality. cbv zeta.
  destruct (namingScore fields) as [naming wins1] eqn:E1. destruct (documentationScore fields) as [docs wins2] eqn:E2.
  destruct (evolutionScore fields schemaStr) as [evolution wins3] eqn:E3.
  set (types := typeSafetyScore fields). set (cats := <["evolution" := evolution]> _). cbn [Categories OverallScore MaxScore Grade].
  pose proof (namingScore_ok fields) as H1. pose proof (documentationScore_ok fields) as H2.
  pose proof (typeSafetyScore_ok fields) as H3. pose proof (evolutionScore_ok fields schemaStr) as H4.
  rewrite E1 in H1. rewrite E2 in H2. rewrite E3 in H4. fold types in H3. cbn [fst] in *.
  rewrite !range_sum.
  assert (forall f, sum_of f cats = f naming + f docs + f types + f evolution) as Hsum.
  { intros f. unfold sum_of, cats. rewrite (fold_sum_perm f _ [evolution; types; docs; naming]); [simpl; lia|].
    repeat (rewrite map_to_list_insert by (simpl_map; done)). rewrite map_to_list_singleton. done. }
  exists naming, docs, types, evolution. rewrite !Hsum.
  split_and!; try (unfold cats; by simpl_map); [by repeat (apply Forall_cons; split)| |].
  - by rewrite (proj2 H1), (proj2 H2), (proj2 H3), (proj2 H4).
  - rewrite (proj2 H1), (proj2 H2), (proj2 H3), (proj2 H4). f_equal. cbn [Z.add Pos.add Pos.succ Z.ltb Z.compare].
    by rewrite Z.mul_comm, Z.quot_mul.
Qed.
