(* ===== verification/RateLimit.v ===== *)
(** * Rate limits (internal/auth/ratelimit.go)

    A bucket of tokens per client, per endpoint or for all; buckets are shared by
    pointer, so they live in a heap.  A request is a procedure: it finds its
    bucket under the limiter's lock, reads what remains and takes a token, each
    under the bucket's lock.  Metrics are left out. *)
From S2P Require Import Prelude GoStrings GoFloat StorageTypes Procs.
From Stdlib Require Import Ascii String.

Local Open Scope Z_scope.
Local Open Scope proc_scope.
Local Open Scope string_scope.

(** ** Buckets *)

Definition fadd : float64 -> float64 -> float64 := SFadd Float64.prec Float64.emax.
Definition fmul : float64 -> float64 -> float64 := SFmul Float64.prec Float64.emax.

(** [config.RateLimitConfig] *)
Record RateLimitConfig := MkRateLimitConfig {
  Enabled : bool;
  RequestsPerSecond : Z;
  BurstSize : Z;
  PerClient : bool;
  PerEndpoint : bool
}.

Record tokenBucket := MkTokenBucket {
  tokens : float64;
  maxTokens : float64;
  refillRate : float64;
  lastRefill : Z
}.

(** The limiter and the heap of its buckets. *)
Record RateLimiter := MkRateLimiter {
  config : RateLimitConfig;
  buckets : list tokenBucket;
  global : option nat;
  clients : gmap string nat;
  endpoints : gmap string nat
}.

Definition newTokenBucket (now : Z) (maxTokens refillRate : float64) : tokenBucket :=
  MkTokenBucket maxTokens maxTokens refillRate now.

Definition configuredBucket (now : Z) (cfg : RateLimitConfig) : tokenBucket :=
  newTokenBucket now (Float64.of_Z (BurstSize cfg)) (Float64.of_Z (RequestsPerSecond cfg)).

Definition NewRateLimiter (now : Z) (cfg : RateLimitConfig) : RateLimiter :=
  if Enabled cfg then MkRateLimiter cfg [configuredBucket now cfg] (Some 0%nat) ∅ ∅
  else MkRateLimiter cfg [] None ∅ ∅.

(** [time.Duration.Seconds] of nanoseconds. *)
Definition Seconds (d : Z) : float64 :=
  fadd (Float64.of_Z (d `quot` 1000000000)) (Float64.div (Float64.of_Z (Z.rem d 1000000000)) (Float64.of_Z 1000000000)).

Definition token : float64 := Float64.of_Z 1.

Definition allow (now : Z) (tb : tokenBucket) : bool * tokenBucket :=
  let elapsed := Seconds (now - lastRefill tb) in
  let refilled := fadd (tokens tb) (fmul elapsed (refillRate tb)) in
  let refilled := if SFltb (maxTokens tb) refilled then maxTokens tb else refilled in
  if SFleb token refilled then (true, {| tb with tokens := Float64.sub refilled token; lastRefill := now |})
  else (false, {| tb with tokens := refilled; lastRefill := now |}).

(** [int(x)] of a finite number. *)
Definition int_of_float (x : float64) : Z :=
  match x with
  | S754_finite s m e => let n := Z.shiftl (Zpos m) e in if s then - n else n
  | _ => 0
  end.

Definition remaining (tb : tokenBucket) : Z := int_of_float (tokens tb).

(** ** Requests *)

(** What the limiter reads of a request. *)
Record Request := MkRequest { Method : string; URLPath : string; HeaderGet : string -> string; RemoteAddr : string }.

Fixpoint lastIndex (s : string) (sep : ascii) : option nat :=
  match s with
  | EmptyString => None
  | String c s =>
      match lastIndex s sep with
      | Some i => Some (S i)
      | None => if Ascii.eqb c sep then Some 0%nat else None
      end
  end.

Fixpoint trim_blank (s : string) : string :=
  match s with
  | String c s' => if bool_decide (c ∈ [" "; "009"]%char) then trim_blank s' else s
  | EmptyString => ""
  end.

Definition splitAndTrim (s : string) (sep : ascii) : list string :=
  List.filter (fun part => negb (bool_decide (part = "")))
    (map (fun part => rev_string (trim_blank (rev_string (trim_blank part)))) (Split s sep)).

Definition GetClientIP (r : Request) : string :=
  let addr := RemoteAddr r in
  let stripped := match lastIndex addr ":" with Some idx => take_str idx addr | None => addr end in
  let fromConnection :=
    match addr with
    | String "[" rest =>
        match lastIndex addr "]" with
        | Some idx => take_str (idx - 1) rest
        | None => stripped
        end
    | _ => stripped
    end in
  let fromProxy := if decide (HeaderGet r "X-Real-IP" = "") then fromConnection else HeaderGet r "X-Real-IP" in
  match splitAndTrim (HeaderGet r "X-Forwarded-For") "," with
  | ip :: _ => ip
  | [] => fromProxy
  end.

Definition bucket_at (rl : RateLimiter) (p : nat) : tokenBucket :=
  match buckets rl !! p with Some tb => tb | None => MkTokenBucket S754_nan S754_nan S754_nan 0 end.

(** [getClientBucket] and [getEndpointBucket]: the bucket of a key, a new one for
    a key without. *)
Definition getClientBucket (now : Z) (clientIP : string) (rl : RateLimiter) : nat * RateLimiter :=
  match clients rl !! clientIP with
  | Some p => (p, rl)
  | None =>
      let p := List.length (buckets rl) in
      (p, {| rl with buckets := (buckets rl ++ [configuredBucket now (config rl)])%list; clients := <[clientIP := p]> (clients rl) |})
  end.

Definition getEndpointBucket (now : Z) (endpoint : string) (rl : RateLimiter) : nat * RateLimiter :=
  match endpoints rl !! endpoint with
  | Some p => (p, rl)
  | None =>
      let p := List.length (buckets rl) in
      (p, {| rl with buckets := (buckets rl ++ [configuredBucket now (config rl)])%list; endpoints := <[endpoint := p]> (endpoints rl) |})
  end.

Definition clientKey (r : Request) : string := GetClientIP r.
Definition endpointKey (r : Request) : string := Method r ++ ":" ++ URLPath r.

(** Passed on or refused, with the two headers. *)
Inductive Answer :=
  | Passed (headers : option (Z * Z))
  | TooManyRequests (limit remaining : Z).

(** [allow] through the pointer. *)
Definition allowAt (now : Z) (p : nat) (rl : RateLimiter) : bool * RateLimiter :=
  let '(ok, tb) := allow now (bucket_at rl p) in (ok, {| rl with buckets := <[p := tb]> (buckets rl) |}).

(** [now i] are the readings of the clock: for a new bucket, and for the refill. *)
Definition Middleware (e : env) (cfg : RateLimitConfig) (r : Request) : proc RateLimiter Answer :=
  if negb (Enabled cfg) then retp (Passed None)
  else
    let* p := atomic (fun rl =>
      if PerClient cfg then getClientBucket (now e 0) (clientKey r) rl
      else if PerEndpoint cfg then getEndpointBucket (now e 0) (endpointKey r) rl
      else (from_opt 0%nat (global rl), rl)) in
    let* rem := atomic (fun rl => (remaining (bucket_at rl p), rl)) in
    let* ok := atomic (allowAt (now e 1) p) in
    retp (if ok then Passed (Some (RequestsPerSecond cfg, rem)) else TooManyRequests (RequestsPerSecond cfg) rem).

(** The clients whose bucket was used last more than [maxAge] ago are forgotten. *)
Definition CleanupStaleClients (now maxAge : Z) (rl : RateLimiter) : RateLimiter :=
  {| rl with clients := filter (fun '(_, p) => now - lastRefill (bucket_at rl p) <= maxAge) (clients rl) |}.

(** ** A burst *)

(** The bucket of a request. *)
Definition keyOf (cfg : RateLimitConfig) (r : Request) : string :=
  if PerClient cfg then clientKey r else if PerEndpoint cfg then endpointKey r else "".

(** Requests one after the other, with their answers. *)
Fixpoint serve (e : env) (cfg : RateLimitConfig) (rs : list Request) (rl : RateLimiter) : list (result Answer) * RateLimiter :=
  match rs with
  | [] => ([], rl)
  | r :: rs =>
      let '(answer, rl) := exec (Middleware e cfg r) rl in
      let '(answers, rl) := serve e cfg rs rl in (answer :: answers, rl)
  end.

Definition passed (answer : result Answer) : bool := match answer with Ok (Passed _) => true | _ => false end.

(** What the limiter is expected to do: count the requests of each key. *)
Fixpoint counted (cfg : RateLimitConfig) (seen : gmap string nat) (rs : list Request) : list bool :=
  match rs with
  | [] => []
  | r :: rs =>
      let n := from_opt 0%nat (seen !! keyOf cfg r) in
      bool_decide (Z.of_nat n < BurstSize cfg) :: counted cfg (<[keyOf cfg r := S n]> seen) rs
  end.

(** ** A burst is counted *)

Section burst.
Context (cfg : RateLimitConfig) (t : Z).
Context (burst : 0 <= BurstSize cfg < 2 ^ 53) (rate : 0 <= RequestsPerSecond cfg < 2 ^ 53).

(** The bucket after [n] requests at the time it was made. *)
Definition after (n : nat) : tokenBucket :=
  MkTokenBucket (Float64.of_Z (Z.max 0 (BurstSize cfg - Z.of_nat n))) (Float64.of_Z (BurstSize cfg))
    (Float64.of_Z (RequestsPerSecond cfg)) t.

Lemma no_time : Seconds 0 = S754_zero false.
Proof. vm_compute. reflexivity. Qed.

Lemma rate_times_zero : exists s, fmul (S754_zero false) (Float64.of_Z (RequestsPerSecond cfg)) = S754_zero s.
Proof.
  destruct (decide (RequestsPerSecond cfg = 0)) as [->|]; [by eexists|]. rewrite of_Z_exact by lia. by eexists.
Qed.

Lemma allow_after n : allow t (after n) = (bool_decide (Z.of_nat n < BurstSize cfg), after (S n)).
Proof.
  unfold allow, after. cbn [tokens maxTokens refillRate lastRefill]. rewrite Z.sub_diag, no_time.
  destruct rate_times_zero as [s ->]. set (k := Z.max 0 (BurstSize cfg - Z.of_nat n)).
  unfold fadd. rewrite add_zero, ltb_exact by lia. case_bool_decide.
  - unfold token. rewrite leb_exact, sub_one by lia. do 3 f_equal. lia.
  - replace k with 0 by lia. replace (SFleb token (Float64.of_Z 0)) with false by reflexivity. do 3 f_equal. lia.
Qed.

(** The bucket that a key has in a mode. *)
Definition bucketOf (rl : RateLimiter) (key : string) : option nat :=
  if PerClient cfg then clients rl !! key
  else if PerEndpoint cfg then endpoints rl !! key
  else if decide (key = "") then global rl else None.

(** Each key has a bucket of its own, after the requests that were seen. *)
Record counts (seen : gmap string nat) (rl : RateLimiter) : Prop := {
  counts_config : config rl = cfg;
  counts_bucket key p : bucketOf rl key = Some p -> buckets rl !! p = Some (after (from_opt 0%nat (seen !! key)));
  counts_own key key' p : bucketOf rl key = Some p -> bucketOf rl key' = Some p -> key = key';
  counts_new key : bucketOf rl key = None -> seen !! key = None;
  counts_global : PerClient cfg = false -> PerEndpoint cfg = false -> bucketOf rl "" = Some (from_opt 0%nat (global rl))
}.

(** The first action of a request. *)
Definition findBucket (r : Request) (rl : RateLimiter) : nat * RateLimiter :=
  if PerClient cfg then getClientBucket t (clientKey r) rl
  else if PerEndpoint cfg then getEndpointBucket t (endpointKey r) rl
  else (from_opt 0%nat (global rl), rl).

(** A bucket is added for a key without. *)
Lemma counts_add seen rl rl' key :
  counts seen rl -> bucketOf rl key = None ->
  buckets rl' = (buckets rl ++ [configuredBucket t cfg])%list -> config rl' = cfg ->
  (forall key', bucketOf rl' key' = if decide (key' = key) then Some (List.length (buckets rl)) else bucketOf rl key') ->
  (PerClient cfg = false -> PerEndpoint cfg = false -> False) ->
  counts seen rl' /\ bucketOf rl' key = Some (List.length (buckets rl)).
Proof.
  intros [Hc Hb Ho Hn Hg] Hk Hbs Hc' Hl Hm. split; [|by rewrite Hl, decide_True]. split.
  - done.
  - intros key' p. rewrite Hl, Hbs. case_decide as D.
    + intros [= <-]. subst. rewrite (Hn _ Hk). cbn. rewrite lookup_app_r, Nat.sub_diag by lia. cbn. f_equal.
      unfold configuredBucket, newTokenBucket, after. do 2 f_equal. lia.
    + intros Hp%Hb. by apply lookup_app_l_Some.
  - intros key1 key2 p. rewrite !Hl. assert (forall k q, bucketOf rl k = Some q -> q <> List.length (buckets rl)) as Hfresh.
    { intros k q Hq%Hb%lookup_lt_Some. lia. }
    case_decide; case_decide; [congruence| | |apply Ho]; intros H1 H2; [injection H1 as <-|injection H2 as <-]; exfalso; by eapply Hfresh.
  - intros key'. rewrite Hl. case_decide; [done|apply Hn].
  - intros H1 H2. by destruct (Hm H1 H2).
Qed.

Lemma findBucket_counts seen rl r :
  counts seen rl -> exists p rl', findBucket r rl = (p, rl') /\ counts seen rl' /\ bucketOf rl' (keyOf cfg r) = Some p.
Proof.
  intros Hc. unfold findBucket, keyOf. destruct (PerClient cfg) eqn:E1; [|destruct (PerEndpoint cfg) eqn:E2].
  - unfold getClientBucket. destruct (clients rl !! clientKey r) as [p|] eqn:E.
    + exists p, rl. split_and!; [done..|]. unfold bucketOf. by rewrite E1.
    + eexists _, _. split; [done|]. apply (counts_add seen rl); [done|unfold bucketOf; by rewrite E1|cbn; by rewrite (counts_config _ _ Hc)|apply Hc| |congruence].
      intros key'. unfold bucketOf. rewrite E1. cbn. case_decide as D; [subst; by rewrite lookup_insert_eq|by rewrite lookup_insert_ne].
  - unfold getEndpointBucket. destruct (endpoints rl !! endpointKey r) as [p|] eqn:E.
    + exists p, rl. split_and!; [done..|]. unfold bucketOf. by rewrite E1, E2.
    + eexists _, _. split; [done|]. apply (counts_add seen rl); [done|unfold bucketOf; by rewrite E1, E2|cbn; by rewrite (counts_config _ _ Hc)|apply Hc| |congruence].
      intros key'. unfold bucketOf. rewrite E1, E2. cbn. case_decide as D; [subst; by rewrite lookup_insert_eq|by rewrite lookup_insert_ne].
  - eexists _, rl. split_and!; [done..|]. by apply (counts_global _ _ Hc).
Qed.

Lemma allowAt_counts seen rl key p :
  counts seen rl -> bucketOf rl key = Some p ->
  let n := from_opt 0%nat (seen !! key) in
  exists rl', allowAt t p rl = (bool_decide (Z.of_nat n < BurstSize cfg), rl') /\ counts (<[key := S n]> seen) rl'.
Proof.
  intros [Hc Hb Ho Hn Hg] Hk n. pose proof (Hb _ _ Hk) as Hp. unfold allowAt, bucket_at. rewrite Hp, allow_after.
  eexists. split; [done|].
  assert (forall key', bucketOf {| rl with buckets := <[p := after (S n)]> (buckets rl) |} key' = bucketOf rl key') as Hl by done.
  split; [done| |intros *; rewrite !Hl; apply Ho| |done].
  - intros key' q. rewrite Hl. cbn. intros Hq. destruct (decide (q = p)) as [->|Hne].
    + assert (key' = key) as -> by by eapply Ho. rewrite list_lookup_insert_eq by by eapply lookup_lt_Some. by rewrite lookup_insert_eq.
    + rewrite list_lookup_insert_ne by done. rewrite lookup_insert_ne by congruence. by apply Hb.
  - intros key'. rewrite Hl. intros Hq. rewrite lookup_insert_ne by congruence. by apply Hn.
Qed.

Lemma counts_NewRateLimiter : Enabled cfg = true -> counts ∅ (NewRateLimiter t cfg).
Proof.
  intros He. unfold NewRateLimiter. rewrite He. unfold bucketOf. split; unfold bucketOf; cbn [config clients endpoints global buckets].
  - done.
  - intros key p. rewrite !lookup_empty. destruct (PerClient cfg), (PerEndpoint cfg); try done. case_decide; [|done].
    intros [= <-]. cbn. f_equal. unfold configuredBucket, newTokenBucket, after. do 2 f_equal. cbn. lia.
  - intros key key' p. rewrite !lookup_empty. destruct (PerClient cfg), (PerEndpoint cfg); try done. by do 2 (case_decide; [|done]); subst.
  - done.
  - by intros -> ->.
Qed.

Lemma serve_counts e seen rs rl :
  Enabled cfg = true -> (forall i, now e i = t) -> counts seen rl -> map passed (fst (serve e cfg rs rl)) = counted cfg seen rs.
Proof.
  intros He Ht. revert seen rl. induction rs as [|r rs IH]; intros seen rl Hc; [done|]. cbn [serve counted].
  unfold Middleware. rewrite He. cbn [negb]. rewrite exec_bindp, exec_atomic, !Ht.
  destruct (findBucket_counts seen rl r Hc) as (p & rl1 & E1 & Hc1 & Hp). unfold findBucket in E1. rewrite E1.
  rewrite exec_bindp, exec_atomic. rewrite exec_bindp, exec_atomic.
  destruct (allowAt_counts seen rl1 _ p Hc1 Hp) as (rl2 & E2 & Hc2). rewrite E2. cbn [exec retp].
  specialize (IH _ _ Hc2). destruct (serve e cfg rs rl2) as [answers rl3]. cbn [fst map] in *. rewrite IH. f_equal.
  unfold passed. by case_bool_decide.
Qed.

End burst.

(** Property C14.  Of the requests that reach a new limiter at one time, in whatever
    order the keys come, exactly the first [BurstSize] of every key pass, for a
    burst and a rate from 0 to below 2^53, where [float64] counts exactly: a client,
    or an endpoint, is not limited by the requests of another one. *)
Theorem burst_is_counted cfg t e rs :
  0 <= BurstSize cfg < 2 ^ 53 -> 0 <= RequestsPerSecond cfg < 2 ^ 53 ->
  Enabled cfg = true -> (forall i, now e i = t) ->
  map passed (fst (serve e cfg rs (NewRateLimiter t cfg))) = counted cfg ∅ rs.
Proof. intros Hb Hr He Ht. apply (serve_counts cfg t); [done..|]. by apply counts_NewRateLimiter. Qed.

(** ** Runs *)

Definition per_client : RateLimitConfig := MkRateLimitConfig true 10 2 true false.
Definition from (xff addr : string) : Request :=
  MkRequest "GET" "/subjects" (fun h => if decide (h = "X-Forwarded-For") then xff else "") addr.

Lemma burst_is_counted_witness :
  map passed (fst (serve env0 per_client (map (from "") ["10.0.0.1:80"; "10.0.0.1:81"; "10.0.0.2:80"; "10.0.0.1:82"])
                     (NewRateLimiter 0 per_client))) = [true; true; true; false].
Proof.
  rewrite (burst_is_counted per_client 0 env0); [vm_compute; reflexivity|by vm_compute|by vm_compute|reflexivity|reflexivity].
Defined.

Example client_addresses :
  map GetClientIP [from "" "10.0.0.1:80"; from "" "[::1]:8080"; from " , 1.2.3.4 ,5.6.7.8" "10.0.0.1:80"; from "" "unix"]
    = ["10.0.0.1"; "::1"; "1.2.3.4"; "unix"].
Proof. vm_compute. reflexivity. Qed.

(** The first address of X-Forwarded-For, which proxies leave to the client, names
    its bucket: with a new one each time a client is not limited. *)
Example forwarded_for_is_trusted :
  map passed (fst (serve env0 per_client (map (fun xff => from xff "10.0.0.1:80") ["a, 10.0.0.1"; "b, 10.0.0.1"; "c, 10.0.0.1"; "d, 10.0.0.1"])
                     (NewRateLimiter 0 per_client))) = [true; true; true; true].
Proof. vm_compute. reflexivity. Qed.

(** The header tells what remained when the bucket was used last: 0 for a request
    that passes after an hour. *)
Example remaining_is_stale :
  let at_time t := {| env0 with now := fun _ => t |} in
  let rl := snd (serve env0 per_client [from "" "a"; from "" "a"] (NewRateLimiter 0 per_client)) in
  fst (serve (at_time 3600000000000) per_client [from "" "a"] rl) = [Ok (Passed (Some (10, 0)))].
Proof. vm_compute. reflexivity. Qed.

(** The buckets of endpoints stay for good, one for every path that was asked for. *)
Example endpoints_are_kept :
  let cfg := MkRateLimitConfig true 10 2 false true in
  let visit path := MkRequest "GET" path (fun _ => "") "a" in
  let rl := snd (serve env0 cfg [visit "/a"; visit "/b"; visit "/c"] (NewRateLimiter 0 cfg)) in
  size (endpoints (CleanupStaleClients 7200000000000 3600000000000 rl)) = 3%nat.
Proof. vm_compute. reflexivity. Qed.
