(* ===== verification/AuditRecords.v ===== *)
(** * Audit records (internal/auth/audit.go, audit_format.go)

    Which requests are recorded, as what and about what, and the two formats of a
    record.  A request is as far as the audit middleware reads it; what comes of
    serving it are the hints the handlers leave and the status that is written.
    Delivery to the outputs is in AuditLog. *)
From S2P Require Import Prelude GoStrings GoFloat GoJson StorageTypes.
From S2P Require Rbac RateLimit.
From Stdlib Require Import Ascii String.

Local Open Scope Z_scope.
Local Open Scope string_scope.

(** ** Events *)

Inductive AuditEventType :=
  | AuditEventSchemaRegister | AuditEventSchemaDeleteSoft | AuditEventSchemaDeletePermanent
  | AuditEventSchemaGet | AuditEventSchemaLookup | AuditEventSchemaImport | AuditEventConfigGet
  | AuditEventConfigUpdate | AuditEventConfigDelete | AuditEventModeGet | AuditEventModeUpdate
  | AuditEventModeDelete | AuditEventAuthSuccess | AuditEventAuthFailure | AuditEventAuthForbidden
  | AuditEventSubjectDeleteSoft | AuditEventSubjectDeletePermanent | AuditEventSubjectList
  | AuditEventUserCreate | AuditEventUserUpdate | AuditEventUserDelete | AuditEventPasswordChange
  | AuditEventAPIKeyCreate | AuditEventAPIKeyUpdate | AuditEventAPIKeyDelete
  | AuditEventAPIKeyRevoke | AuditEventAPIKeyRotate | AuditEventKEKCreate | AuditEventKEKUpdate
  | AuditEventKEKDeleteSoft | AuditEventKEKDeletePermanent | AuditEventKEKUndelete
  | AuditEventKEKTest | AuditEventDEKCreate | AuditEventDEKDeleteSoft | AuditEventDEKDeletePermanent
  | AuditEventDEKUndelete | AuditEventCompatibilityCheck | AuditEventExporterCreate
  | AuditEventExporterUpdate | AuditEventExporterDelete | AuditEventExporterPause
  | AuditEventExporterResume | AuditEventExporterReset | AuditEventExporterConfigUpdate
  | AuditEventServerStartup | AuditEventServerShutdown | AuditEventMCPToolCall
  | AuditEventMCPToolError | AuditEventMCPAdminAction | AuditEventMCPConfirmIssued
  | AuditEventMCPConfirmRejected | AuditEventMCPConfirmed | AuditEventSecurityWarning
  | AuditEventAuthLDAPFallback.

Definition event_text (e : AuditEventType) : string :=
  match e with
  | AuditEventSchemaRegister => "schema_register"
  | AuditEventSchemaDeleteSoft => "schema_delete_soft"
  | AuditEventSchemaDeletePermanent => "schema_delete_permanent"
  | AuditEventSchemaGet => "schema_get"
  | AuditEventSchemaLookup => "schema_lookup"
  | AuditEventSchemaImport => "schema_import"
  | AuditEventConfigGet => "config_get"
  | AuditEventConfigUpdate => "config_update"
  | AuditEventConfigDelete => "config_delete"
  | AuditEventModeGet => "mode_get"
  | AuditEventModeUpdate => "mode_update"
  | AuditEventModeDelete => "mode_delete"
  | AuditEventAuthSuccess => "auth_success"
  | AuditEventAuthFailure => "auth_failure"
  | AuditEventAuthForbidden => "auth_forbidden"
  | AuditEventSubjectDeleteSoft => "subject_delete_soft"
  | AuditEventSubjectDeletePermanent => "subject_delete_permanent"
  | AuditEventSubjectList => "subject_list"
  | AuditEventUserCreate => "user_create"
  | AuditEventUserUpdate => "user_update"
  | AuditEventUserDelete => "user_delete"
  | AuditEventPasswordChange => "password_change"
  | AuditEventAPIKeyCreate => "apikey_create"
  | AuditEventAPIKeyUpdate => "apikey_update"
  | AuditEventAPIKeyDelete => "apikey_delete"
  | AuditEventAPIKeyRevoke => "apikey_revoke"
  | AuditEventAPIKeyRotate => "apikey_rotate"
  | AuditEventKEKCreate => "kek_create"
  | AuditEventKEKUpdate => "kek_update"
  | AuditEventKEKDeleteSoft => "kek_delete_soft"
  | AuditEventKEKDeletePermanent => "kek_delete_permanent"
  | AuditEventKEKUndelete => "kek_undelete"
  | AuditEventKEKTest => "kek_test"
  | AuditEventDEKCreate => "dek_create"
  | AuditEventDEKDeleteSoft => "dek_delete_soft"
  | AuditEventDEKDeletePermanent => "dek_delete_permanent"
  | AuditEventDEKUndelete => "dek_undelete"
  | AuditEventCompatibilityCheck => "compatibility_check"
  | AuditEventExporterCreate => "exporter_create"
  | AuditEventExporterUpdate => "exporter_update"
  | AuditEventExporterDelete => "exporter_delete"
  | AuditEventExporterPause => "exporter_pause"
  | AuditEventExporterResume => "exporter_resume"
  | AuditEventExporterReset => "exporter_reset"
  | AuditEventExporterConfigUpdate => "exporter_config_update"
  | AuditEventServerStartup => "server_startup"
  | AuditEventServerShutdown => "server_shutdown"
  | AuditEventMCPToolCall => "mcp_tool_call"
  | AuditEventMCPToolError => "mcp_tool_error"
  | AuditEventMCPAdminAction => "mcp_admin_action"
  | AuditEventMCPConfirmIssued => "mcp_confirm_issued"
  | AuditEventMCPConfirmRejected => "mcp_confirm_rejected"
  | AuditEventMCPConfirmed => "mcp_confirmed"
  | AuditEventSecurityWarning => "security_warning"
  | AuditEventAuthLDAPFallback => "auth_ldap_fallback"
  end.

(** [setDefaultEnabledEvents] *)
Definition defaultEvents : list AuditEventType :=
  [AuditEventSchemaRegister; AuditEventSchemaDeleteSoft; AuditEventSchemaDeletePermanent;
   AuditEventSchemaImport; AuditEventSchemaLookup; AuditEventCompatibilityCheck;
   AuditEventConfigUpdate; AuditEventConfigDelete; AuditEventModeUpdate; AuditEventModeDelete;
   AuditEventAuthFailure; AuditEventAuthForbidden; AuditEventSubjectDeleteSoft;
   AuditEventSubjectDeletePermanent; AuditEventUserCreate; AuditEventUserUpdate; AuditEventUserDelete;
   AuditEventPasswordChange; AuditEventAPIKeyCreate; AuditEventAPIKeyUpdate; AuditEventAPIKeyDelete;
   AuditEventAPIKeyRevoke; AuditEventAPIKeyRotate; AuditEventKEKCreate; AuditEventKEKUpdate;
   AuditEventKEKDeleteSoft; AuditEventKEKDeletePermanent; AuditEventKEKUndelete; AuditEventKEKTest;
   AuditEventDEKCreate; AuditEventDEKDeleteSoft; AuditEventDEKDeletePermanent; AuditEventDEKUndelete;
   AuditEventExporterCreate; AuditEventExporterUpdate; AuditEventExporterDelete;
   AuditEventExporterPause; AuditEventExporterResume; AuditEventExporterReset;
   AuditEventExporterConfigUpdate; AuditEventServerStartup; AuditEventServerShutdown;
   AuditEventMCPToolCall; AuditEventMCPToolError; AuditEventMCPAdminAction; AuditEventMCPConfirmIssued;
   AuditEventMCPConfirmRejected; AuditEventMCPConfirmed; AuditEventSecurityWarning;
   AuditEventAuthLDAPFallback].

(** [AuditEvent]; times are nanoseconds since the epoch. *)
Record AuditEvent := MkAuditEvent {
  Timestamp : Z;
  Duration : Z;
  EventType : AuditEventType;
  Outcome : string;
  ActorID : string;
  ActorType : string;
  Role : string;
  AuthMethod : string;
  TargetType : string;
  TargetID : string;
  SchemaID : Z;
  Version : Z;
  SchemaType : string;
  BeforeHash : string;
  AfterHash : string;
  Context : string;
  RequestID : string;
  TransportSecurity : string;
  SourceIP : string;
  UserAgent : string;
  Method : string;
  Path : string;
  StatusCode : Z;
  Reason : string;
  Error : string;
  RequestBody : string;
  Metadata : gmap string string
}.

Definition zeroEvent (e : AuditEventType) : AuditEvent :=
  MkAuditEvent 0 0 e "" "" "" "" "" "" "" 0 0 "" "" "" "" "" "" "" "" "" "" 0 "" "" "" ∅.

(** [AuditHints]: what handlers tell the middleware. *)
Record AuditHints := MkAuditHints {
  HBeforeHash : string;
  HAfterHash : string;
  HSchemaType : string;
  HSchemaID : Z;
  HVersion : Z;
  HContext : string;
  HOutcome : string;
  HReason : string;
  HTargetType : string;
  HTargetID : string;
  HActorID : string;
  HActorType : string;
  HRole : string;
  HAuthMethod : string;
  SuppressEvent : bool
}.

Definition noHints : AuditHints := MkAuditHints "" "" "" 0 0 "" "" "" "" "" "" "" "" "" false.

(** ** Requests *)

(** [TLS] has the number of client certificates of a secure connection. *)
Record Request := MkRequest {
  base : RateLimit.Request;
  QueryGet : string -> string;
  TLS : option Z;
  Body : option string;
  ReqID : string;
  ContextUser : option Rbac.User
}.

Definition method (r : Request) : string := RateLimit.Method (base r).
Definition path (r : Request) : string := RateLimit.URLPath (base r).

(** [contains]: the loop over the positions where [substr] still fits. *)
Fixpoint contains (s substr : string) : bool :=
  HasPrefix s substr || match s with String _ s => contains s substr | EmptyString => false end.

(** [toLower] is [strings.ToLower] of ASCII letters. *)
Fixpoint toLower (s : string) : string :=
  match s with String c s => String (lower_byte c) (toLower s) | EmptyString => "" end.

(** The type of an event: [has] says what the path contains, [subjects] that it
    is [/subjects]. *)
Definition eventTypeOf (has : string -> bool) (subjects : bool) (method : string) (permanent : bool) (statusCode : Z)
    : option AuditEventType :=
  let on m := bool_decide (method = m) in
  if bool_decide (statusCode = 401) then Some AuditEventAuthFailure
  else if bool_decide (statusCode = 403) then Some AuditEventAuthForbidden
  else if has "/import/" && on "POST" then Some AuditEventSchemaImport
  else if has "/compatibility/" && on "POST" then Some AuditEventCompatibilityCheck
  else
  let versioned :=
    if has "/subjects/" && has "/versions" then
      if on "POST" then Some AuditEventSchemaRegister
      else if on "DELETE" then Some (if permanent then AuditEventSchemaDeletePermanent else AuditEventSchemaDeleteSoft)
      else if on "GET" then Some AuditEventSchemaGet
      else None
    else None in
  match versioned with Some e => Some e | None =>
  if has "/subjects/" && negb (has "/versions") && on "POST" then Some AuditEventSchemaLookup
  else if has "/schemas/ids/" then Some AuditEventSchemaGet
  else if has "/subjects/" && negb (has "/versions") && on "DELETE" then
    Some (if permanent then AuditEventSubjectDeletePermanent else AuditEventSubjectDeleteSoft)
  else if subjects && on "GET" then Some AuditEventSubjectList
  else
  let user :=
    if has "/admin/users" then
      if on "POST" then Some AuditEventUserCreate
      else if on "PUT" then Some AuditEventUserUpdate
      else if on "DELETE" then Some AuditEventUserDelete
      else None
    else None in
  match user with Some e => Some e | None =>
  if has "/me/password" && on "POST" then Some AuditEventPasswordChange
  else
  let apikey :=
    if has "/admin/apikeys" then
      if has "/revoke" && on "POST" then Some AuditEventAPIKeyRevoke
      else if has "/rotate" && on "POST" then Some AuditEventAPIKeyRotate
      else if on "POST" then Some AuditEventAPIKeyCreate
      else if on "PUT" then Some AuditEventAPIKeyUpdate
      else if on "DELETE" then Some AuditEventAPIKeyDelete
      else None
    else None in
  match apikey with Some e => Some e | None =>
  let key :=
    if has "/dek-registry/v1/keks" then
      let dek :=
        if has "/deks/" then
          if on "POST" then Some (if has "/undelete" then AuditEventDEKUndelete else AuditEventDEKCreate)
          else if on "DELETE" then Some (if permanent then AuditEventDEKDeletePermanent else AuditEventDEKDeleteSoft)
          else None
        else if has "/deks" && on "POST" then Some AuditEventDEKCreate
        else None in
      match dek with Some e => Some e | None =>
        if negb (has "/deks") then
          if has "/test" && on "POST" then Some AuditEventKEKTest
          else if on "POST" then Some (if has "/undelete" then AuditEventKEKUndelete else AuditEventKEKCreate)
          else if on "PUT" then Some AuditEventKEKUpdate
          else if on "DELETE" then Some (if permanent then AuditEventKEKDeletePermanent else AuditEventKEKDeleteSoft)
          else None
        else None
      end
    else None in
  match key with Some e => Some e | None =>
  let exporter :=
    if has "/exporters" then
      if has "/pause" && on "PUT" then Some AuditEventExporterPause
      else if has "/resume" && on "PUT" then Some AuditEventExporterResume
      else if has "/reset" && on "PUT" then Some AuditEventExporterReset
      else if has "/config" && on "PUT" then Some AuditEventExporterConfigUpdate
      else if on "POST" then Some AuditEventExporterCreate
      else if on "PUT" then Some AuditEventExporterUpdate
      else if on "DELETE" then Some AuditEventExporterDelete
      else None
    else None in
  match exporter with Some e => Some e | None =>
  let config :=
    if has "/config" then
      if on "GET" then Some AuditEventConfigGet
      else if on "PUT" then Some AuditEventConfigUpdate
      else if on "DELETE" then Some AuditEventConfigDelete
      else None
    else None in
  match config with Some e => Some e | None =>
  if has "/mode" then
    if on "GET" then Some AuditEventModeGet
    else if on "PUT" then Some AuditEventModeUpdate
    else if on "DELETE" then Some AuditEventModeDelete
    else None
  else None
  end end end end end end.

(** [None] is the empty event type. *)
Definition determineEventType (r : Request) (statusCode : Z) : option AuditEventType :=
  eventTypeOf (contains (path r)) (bool_decide (path r = "/subjects")) (method r)
    (bool_decide (QueryGet r "permanent" = "true")) statusCode.

(** ** Targets *)

(** The loop to the next slash: [path[start:end]]. *)
Fixpoint until_slash (s : string) : string :=
  match s with
  | String c s => if Ascii.eqb c "/" then "" else String c (until_slash s)
  | EmptyString => ""
  end.
Definition segment_at (start : nat) (s : string) : string := until_slash (drop_str start s).

Definition extractSubject (path : string) : string :=
  let mode :=
    if (6 <? String.length path)%nat && contains path "/mode/" then segment_at 6 path else "" in
  let config :=
    if (8 <? String.length path)%nat && contains path "/config/" && negb (bool_decide (segment_at 8 path = ""))
    then segment_at 8 path else mode in
  if contains path "/subjects/" && (10 <? String.length path)%nat then segment_at 10 path else config.

(** The element after a prefix that the path contains. *)
Definition element (path prefix : string) : string :=
  if negb (contains path prefix) || (String.length path <=? String.length prefix)%nat then ""
  else segment_at (String.length prefix) path.

Definition extractKEKDEKTarget (path : string) : string * string :=
  let prefix := "/dek-registry/v1/keks/" in
  if negb (contains path prefix) || (String.length path <=? String.length prefix)%nat then ("kek", "")
  else if contains (drop_str (String.length prefix) path) "/deks" then ("dek", segment_at (String.length prefix) path)
  else ("kek", segment_at (String.length prefix) path).

Definition extractExporterTarget (path : string) : string * string := ("exporter", element path "/exporters/").

Definition extractAdminTarget (path prefix targetType : string) : string * string := (targetType, element path prefix).

Definition extractTarget (path : string) : string * string :=
  if contains path "/subjects/" then
    if decide (extractSubject path = "") then ("", "") else ("subject", extractSubject path)
  else if contains path "/schemas/ids/" then
    if (13 <? String.length path)%nat then ("schema", segment_at 13 path) else ("", "")
  else if contains path "/config" then
    ("config", if decide (extractSubject path = "") then "_global" else extractSubject path)
  else if contains path "/mode" then
    ("mode", if decide (extractSubject path = "") then "_global" else extractSubject path)
  else if contains path "/dek-registry/v1/keks" then extractKEKDEKTarget path
  else if contains path "/exporters" then extractExporterTarget path
  else if contains path "/admin/users" then extractAdminTarget path "/admin/users/" "user"
  else if contains path "/admin/apikeys" then extractAdminTarget path "/admin/apikeys/" "apikey"
  else if contains path "/import/" then ("schema", "")
  else ("", "").

(** ** Classification *)

Definition TransportSecurityFromRequest (r : Request) : string :=
  match TLS r with None => "none" | Some n => if (0 <? n)%Z then "mtls" else "tls" end.

Definition actorTypeFromAuthMethod (method : string) : string :=
  if decide (method = "api_key") then "api_key"
  else if decide (method ∈ ["basic"; "jwt"; "oidc"; "ldap"; "ldap_fallback"]) then "user"
  else "anonymous".

Definition outcomeFromStatusCode (statusCode : Z) : string :=
  if ((200 <=? statusCode) && (statusCode <? 400))%Z then "success" else "failure".

Definition reasonFromStatusCode (statusCode : Z) : string :=
  if ((200 <=? statusCode) && (statusCode <? 400))%Z then ""
  else if (statusCode =? 401)%Z then "no_valid_credentials"
  else if (statusCode =? 403)%Z then "permission_denied"
  else if (statusCode =? 404)%Z then "not_found"
  else if (statusCode =? 409)%Z then "already_exists"
  else if (statusCode =? 400)%Z then "validation_error"
  else if (statusCode =? 422)%Z then "invalid_schema"
  else if (statusCode =? 429)%Z then "rate_limited"
  else if (500 <=? statusCode)%Z then "internal_error"
  else "".

Definition classifyMCPError (errMsg : string) : string :=
  let lower := toLower errMsg in
  if contains lower "not found" then "not_found"
  else if contains lower "permission" || contains lower "forbidden" || contains lower "unauthorized" then "permission_denied"
  else if contains lower "already exists" || contains lower "duplicate" then "already_exists"
  else if contains lower "invalid schema" || contains lower "parse" then "invalid_schema"
  else if contains lower "incompatible" then "incompatible"
  else if contains lower "invalid" || contains lower "required" || contains lower "missing" then "validation_error"
  else "internal_error".

(** ** The middleware *)

(** The codes a handler writes; the wrapper keeps the last. *)
Definition statusWritten (codes : list Z) : Z := List.last codes 200.

Definition or_else (s t : string) : string := if decide (s = "") then t else s.

(** Who: the hints of authentication, else the user of the context. *)
Definition actorOf (hints : AuditHints) (user : option Rbac.User) : string * string * string * string :=
  if decide (HActorType hints = "") then
    match user with
    | Some u => (Rbac.Username u, actorTypeFromAuthMethod (Rbac.Method u), Rbac.UserRole u, Rbac.Method u)
    | None => ("", "anonymous", "", "")
    end
  else (HActorID hints, HActorType hints, HRole hints, HAuthMethod hints).

Definition requestBody (includeBody : bool) (r : Request) : string :=
  match Body r with
  | Some body =>
      if negb includeBody then ""
      else if (1000 <? String.length body)%nat then take_str 1000 body ++ "..." else body
  | None => ""
  end.

(** What [AuditLogger.Middleware] logs once a request is served. *)
Definition Middleware (enabled includeBody : bool) (start elapsed : Z) (r : Request) (served : AuditHints * list Z) : option AuditEvent :=
  let '(hints, codes) := served in
  let status := statusWritten codes in
  if negb enabled then None
  else
    match determineEventType r status with
    | None => None
    | Some eventType =>
        let '(actorID, actorType, role, authMethod) := actorOf hints (ContextUser r) in
        let '(targetType, targetID) := extractTarget (path r) in
        if SuppressEvent hints then None
        else Some {|
          Timestamp := start; Duration := elapsed; EventType := eventType;
          Outcome := or_else (HOutcome hints) (outcomeFromStatusCode status);
          ActorID := actorID; ActorType := actorType; Role := role; AuthMethod := authMethod;
          TargetType := or_else (HTargetType hints) targetType; TargetID := or_else (HTargetID hints) targetID;
          SchemaID := HSchemaID hints; Version := HVersion hints; SchemaType := HSchemaType hints;
          BeforeHash := HBeforeHash hints; AfterHash := HAfterHash hints;
          Context := or_else (HContext hints) "."; RequestID := ReqID r;
          TransportSecurity := TransportSecurityFromRequest r; SourceIP := RateLimit.GetClientIP (base r);
          UserAgent := RateLimit.HeaderGet (base r) "User-Agent"; Method := method r; Path := path r;
          StatusCode := status; Reason := or_else (HReason hints) (reasonFromStatusCode status);
          Error := ""; RequestBody := requestBody includeBody r; Metadata := ∅ |}
    end.

(** [LogEvent]: the event it logs; [hints] are those in the context, if any. *)
Definition LogEvent (enabled : bool) (now : Z) (eventType : AuditEventType) (r : Request) (hints : option AuditHints)
    (statusCode : Z) (err : option error) : option AuditEvent :=
  if negb enabled then None
  else
    let '(actorID, actorType, role, authMethod) := actorOf (from_opt noHints hints) (ContextUser r) in
    let '(targetType, targetID) := extractTarget (path r) in
    Some {| (zeroEvent eventType) with
      Timestamp := now; Outcome := outcomeFromStatusCode statusCode;
      ActorID := actorID; ActorType := actorType; Role := role; AuthMethod := authMethod;
      TargetType := targetType; TargetID := targetID;
      TransportSecurity := TransportSecurityFromRequest r; SourceIP := RateLimit.GetClientIP (base r);
      UserAgent := RateLimit.HeaderGet (base r) "User-Agent"; Method := method r; Path := path r;
      StatusCode := statusCode; Reason := reasonFromStatusCode statusCode;
      Error := match err with Some err => err_text err | None => "" end |}.

Definition LogMCPEvent (enabled : bool) (now : Z) (eventType : AuditEventType) (actorID actorType authMethod toolName status : string)
    (duration : Z) (err : option error) (subject registryCtx : string) (metadata : gmap string string) : option AuditEvent :=
  if negb enabled then None
  else
    let '(outcome, reason, errStr) :=
      match err with
      | Some err => ("failure", classifyMCPError (err_text err), err_text err)
      | None => if decide (status = "error") then ("failure", "internal_error", "") else ("success", "", "")
      end in
    Some {| (zeroEvent eventType) with
      Timestamp := now; Duration := duration; Outcome := outcome;
      ActorID := actorID; ActorType := actorType; AuthMethod := authMethod;
      TargetType := if decide (subject = "") then "" else "subject"; TargetID := subject;
      Method := "MCP"; Path := toolName; Context := registryCtx; Reason := reason; Error := errStr; Metadata := metadata |}.

Definition LogMCPConfirmationEvent (enabled : bool) (now : Z) (eventType : AuditEventType)
    (actorID actorType authMethod toolName registryCtx : string) (metadata : gmap string string) : option AuditEvent :=
  if negb enabled then None
  else
    Some {| (zeroEvent eventType) with
      Timestamp := now; Outcome := "success"; ActorID := actorID; ActorType := actorType; AuthMethod := authMethod;
      Method := "MCP"; Path := toolName; Context := registryCtx; Metadata := metadata |}.

(** ** Times

    [time.RFC3339] of an instant, by the civil calendar. *)
Definition days_to_civil (days : Z) : Z * Z * Z :=
  let z := (days + 719468)%Z in
  let era := (z / 146097)%Z in
  let doe := (z mod 146097)%Z in
  let yoe := ((doe - doe / 1460 + doe / 36524 - doe / 146096) / 365)%Z in
  let doy := (doe - (365 * yoe + yoe / 4 - yoe / 100))%Z in
  let mp := ((5 * doy + 2) / 153)%Z in
  let m := (if mp <? 10 then mp + 3 else mp - 9)%Z in
  ((yoe + era * 400 + if m <=? 2 then 1 else 0)%Z, m, (doy - (153 * mp + 2) / 5 + 1)%Z).

(** [appendInt]: at least [width] digits. *)
Definition padded (width : nat) (n : Z) : string :=
  let digits := Itoa (Z.abs n) in
  (if (n <? 0)%Z then "-" else "") ++ String.concat "" (repeat "0" (width - String.length digits)) ++ digits.

Definition second : Z := 1000000000.

(** The date and time of an instant at an offset in seconds, without fraction. *)
Definition date_time (t offset : Z) : string :=
  let s := (t / second + offset)%Z in
  let '(y, m, d) := days_to_civil (s / 86400) in
  let clock := (s mod 86400)%Z in
  padded 4 y ++ "-" ++ padded 2 m ++ "-" ++ padded 2 d ++ "T" ++
  padded 2 (clock / 3600) ++ ":" ++ padded 2 (clock / 60 mod 60) ++ ":" ++ padded 2 (clock mod 60).

Definition zone_text (offset : Z) : string :=
  if decide (offset = 0%Z) then "Z"
  else (if (offset <? 0)%Z then "-" else "+") ++ padded 2 (Z.abs offset / 3600) ++ ":" ++ padded 2 (Z.abs offset / 60 mod 60).

(** [Format(time.RFC3339)] in UTC. *)
Definition RFC3339_UTC (t : Z) : string := date_time t 0 ++ "Z".

(** Nine digits without the zeros at the end. *)
Fixpoint trim_zeros (s : string) : string :=
  match s with
  | String c s =>
      let rest := trim_zeros s in
      if Ascii.eqb c "0" && bool_decide (rest = "") then "" else String c rest
  | EmptyString => ""
  end.
Definition fraction_text (t : Z) : string :=
  let digits := trim_zeros (padded 9 (t mod second)) in
  if decide (digits = "") then "" else "." ++ digits.

(** [Time.MarshalJSON] at an offset; [None] is its error. *)
Definition marshal_time (t offset : Z) : option string :=
  let '(y, _, _) := days_to_civil ((t / second + offset) / 86400) in
  if ((0 <=? y) && (y <=? 9999) && (Z.abs offset <? 86400))%Z
  then Some (quote (date_time t offset ++ fraction_text t ++ zone_text offset)) else None.

(** [time.Duration.Milliseconds] *)
Definition Milliseconds (d : Z) : Z := d `quot` 1000000.

(** ** JSON *)

Definition member (name text : string) : list string := [Marshal_string name ++ ":" ++ text].
Definition omitempty (name value : string) : list string :=
  if decide (value = "") then [] else member name (Marshal_string value).
Definition omitzero (name : string) (value : Z) : list string :=
  if decide (value = 0%Z) then [] else member name (Itoa value).

Definition marshal_map (m : gmap string string) : string :=
  "{" ++ Join (map (fun '(key, value) => Marshal_string key ++ ":" ++ Marshal_string value) (sorted_entries m)) "," ++ "}".

(** The members in the order of the struct, the duration in milliseconds last;
    [offset] is that of the local zone. *)
Definition event_members (timestamp : string) (event : AuditEvent) : list string :=
  (member "timestamp" timestamp ++
   member "event_type" (Marshal_string (event_text (EventType event))) ++
   member "outcome" (Marshal_string (Outcome event)) ++
   member "actor_id" (Marshal_string (ActorID event)) ++
   member "actor_type" (Marshal_string (ActorType event)) ++
   omitempty "role" (Role event) ++
   omitempty "auth_method" (AuthMethod event) ++
   member "target_type" (Marshal_string (TargetType event)) ++
   member "target_id" (Marshal_string (TargetID event)) ++
   omitzero "schema_id" (SchemaID event) ++
   omitzero "version" (Version event) ++
   omitempty "schema_type" (SchemaType event) ++
   omitempty "before_hash" (BeforeHash event) ++
   omitempty "after_hash" (AfterHash event) ++
   omitempty "context" (Context event) ++
   omitempty "request_id" (RequestID event) ++
   omitempty "transport_security" (TransportSecurity event) ++
   member "source_ip" (Marshal_string (SourceIP event)) ++
   member "user_agent" (Marshal_string (UserAgent event)) ++
   member "method" (Marshal_string (Method event)) ++
   member "path" (Marshal_string (Path event)) ++
   member "status_code" (Itoa (StatusCode event)) ++
   omitempty "reason" (Reason event) ++
   omitempty "error" (Error event) ++
   omitempty "request_body" (RequestBody event) ++
   (if decide (Metadata event = ∅) then [] else member "metadata" (marshal_map (Metadata event))) ++
   member "duration_ms" (Itoa (Milliseconds (Duration event))))%list.

Definition MarshalJSON (offset : Z) (event : AuditEvent) : option string :=
  timestamp ← marshal_time (Timestamp event) offset;
  Some ("{" ++ Join (event_members timestamp event) "," ++ "}").

Definition newline : string := String "010" "".

Definition FormatJSON (offset : Z) (event : AuditEvent) : option string :=
  data ← MarshalJSON offset event; Some (data ++ newline).

(** ** CEF *)

(** [strings.ReplaceAll] of one byte. *)
Fixpoint replace_byte (c : ascii) (by_ : string) (s : string) : string :=
  match s with
  | String d s => if Ascii.eqb d c then by_ ++ replace_byte c by_ s else String d (replace_byte c by_ s)
  | EmptyString => ""
  end.

Definition cefEscapeHeader (s : string) : string := replace_byte "|" "\|" (replace_byte "\" "\\" s).

Definition cefEscapeExtValue (s : string) : string :=
  replace_byte "013" "\r" (replace_byte "010" "\n" (replace_byte "=" "\=" (replace_byte "\" "\\" s))).

Definition cefSeverity (event : AuditEvent) : Z :=
  if decide (Outcome event = "failure") then
    match EventType event with AuditEventAuthFailure | AuditEventAuthForbidden => 8 | _ => 5 end
  else
    match EventType event with
    | AuditEventAuthFailure | AuditEventAuthForbidden => 8
    | AuditEventSchemaRegister | AuditEventSchemaDeleteSoft | AuditEventSchemaDeletePermanent
      | AuditEventSubjectDeleteSoft | AuditEventSubjectDeletePermanent | AuditEventConfigUpdate
      | AuditEventConfigDelete | AuditEventModeUpdate | AuditEventModeDelete
      | AuditEventSchemaImport | AuditEventCompatibilityCheck | AuditEventUserCreate
      | AuditEventUserUpdate | AuditEventUserDelete | AuditEventPasswordChange
      | AuditEventAPIKeyCreate | AuditEventAPIKeyUpdate | AuditEventAPIKeyDelete
      | AuditEventAPIKeyRevoke | AuditEventAPIKeyRotate | AuditEventKEKCreate | AuditEventKEKUpdate
      | AuditEventKEKDeleteSoft | AuditEventKEKDeletePermanent | AuditEventKEKUndelete
      | AuditEventKEKTest | AuditEventDEKCreate | AuditEventDEKDeleteSoft
      | AuditEventDEKDeletePermanent | AuditEventDEKUndelete | AuditEventExporterCreate
      | AuditEventExporterUpdate | AuditEventExporterDelete | AuditEventExporterPause
      | AuditEventExporterResume | AuditEventExporterReset | AuditEventExporterConfigUpdate
      | AuditEventServerStartup | AuditEventServerShutdown => 5
    | AuditEventMCPToolCall | AuditEventMCPToolError | AuditEventMCPAdminAction
      | AuditEventMCPConfirmIssued | AuditEventMCPConfirmRejected | AuditEventMCPConfirmed => 5
    | AuditEventSchemaGet | AuditEventSchemaLookup | AuditEventConfigGet | AuditEventModeGet
      | AuditEventSubjectList => 3
    | _ => 3
    end.

Definition cefDescription (event : AuditEvent) : string :=
  match EventType event with
  | AuditEventSchemaRegister => "Schema registered"
  | AuditEventSchemaDeleteSoft => "Schema soft-deleted"
  | AuditEventSchemaDeletePermanent => "Schema permanently deleted"
  | AuditEventSchemaGet => "Schema retrieved"
  | AuditEventSchemaLookup => "Schema lookup"
  | AuditEventSchemaImport => "Schema imported"
  | AuditEventConfigGet => "Config retrieved"
  | AuditEventConfigUpdate => "Config updated"
  | AuditEventConfigDelete => "Config deleted"
  | AuditEventModeGet => "Mode retrieved"
  | AuditEventModeUpdate => "Mode updated"
  | AuditEventModeDelete => "Mode deleted"
  | AuditEventAuthSuccess => "Authentication succeeded"
  | AuditEventAuthFailure => "Authentication failed"
  | AuditEventAuthForbidden => "Access forbidden"
  | AuditEventSubjectDeleteSoft => "Subject soft-deleted"
  | AuditEventSubjectDeletePermanent => "Subject permanently deleted"
  | AuditEventSubjectList => "Subjects listed"
  | AuditEventUserCreate => "User created"
  | AuditEventUserUpdate => "User updated"
  | AuditEventUserDelete => "User deleted"
  | AuditEventPasswordChange => "Password changed"
  | AuditEventAPIKeyCreate => "API key created"
  | AuditEventAPIKeyUpdate => "API key updated"
  | AuditEventAPIKeyDelete => "API key deleted"
  | AuditEventAPIKeyRevoke => "API key revoked"
  | AuditEventAPIKeyRotate => "API key rotated"
  | AuditEventKEKCreate => "KEK created"
  | AuditEventKEKUpdate => "KEK updated"
  | AuditEventKEKDeleteSoft => "KEK soft-deleted"
  | AuditEventKEKDeletePermanent => "KEK permanently deleted"
  | AuditEventKEKUndelete => "KEK undeleted"
  | AuditEventKEKTest => "KEK tested"
  | AuditEventDEKCreate => "DEK created"
  | AuditEventDEKDeleteSoft => "DEK soft-deleted"
  | AuditEventDEKDeletePermanent => "DEK permanently deleted"
  | AuditEventDEKUndelete => "DEK undeleted"
  | AuditEventExporterCreate => "Exporter created"
  | AuditEventExporterUpdate => "Exporter updated"
  | AuditEventExporterDelete => "Exporter deleted"
  | AuditEventExporterPause => "Exporter paused"
  | AuditEventExporterResume => "Exporter resumed"
  | AuditEventExporterReset => "Exporter reset"
  | AuditEventExporterConfigUpdate => "Exporter config updated"
  | AuditEventCompatibilityCheck => "Compatibility check"
  | AuditEventServerStartup => "Server started"
  | AuditEventServerShutdown => "Server stopped"
  | AuditEventMCPToolCall => "MCP tool call"
  | AuditEventMCPToolError => "MCP tool error"
  | AuditEventMCPAdminAction => "MCP admin action"
  | AuditEventMCPConfirmIssued => "MCP confirmation issued"
  | AuditEventMCPConfirmRejected => "MCP confirmation rejected"
  | AuditEventMCPConfirmed => "MCP action confirmed"
  | e => event_text e
  end.

(** [writeExtField] appends to what is written. *)
Definition writeExtField (ext : string) (field : string * string) : string :=
  (if decide (ext = "") then "" else ext ++ " ") ++ fst field ++ "=" ++ cefEscapeExtValue (snd field).

(** A field that is left out when it is empty, with its label if it has one. *)
Definition unless_empty (value : string) (fields : list (string * string)) : list (string * string) :=
  if decide (value = "") then [] else fields.

Definition extFields (event : AuditEvent) : list (string * string) :=
  ([("rt", RFC3339_UTC (Timestamp event)); ("outcome", Outcome event)] ++
   unless_empty (ActorID event) [("suser", ActorID event)] ++
   unless_empty (ActorType event) [("cs1", ActorType event); ("cs1Label", "actorType")] ++
   unless_empty (AuthMethod event) [("cs2", AuthMethod event); ("cs2Label", "authMethod")] ++
   unless_empty (Role event) [("cs3", Role event); ("cs3Label", "role")] ++
   unless_empty (TargetType event) [("cs4", TargetType event); ("cs4Label", "targetType")] ++
   unless_empty (TargetID event) [("cs5", TargetID event); ("cs5Label", "targetID")] ++
   unless_empty (SourceIP event) [("src", SourceIP event)] ++
   unless_empty (UserAgent event) [("requestClientApplication", UserAgent event)] ++
   [("requestMethod", Method event); ("request", Path event)] ++
   (if decide (StatusCode event = 0%Z) then [] else [("cn1", Itoa (StatusCode event)); ("cn1Label", "statusCode")]) ++
   (if decide (SchemaID event = 0%Z) then [] else [("cn2", Itoa (SchemaID event)); ("cn2Label", "schemaID")]) ++
   (if (0 <? Duration event)%Z then [("cn3", Itoa (Milliseconds (Duration event))); ("cn3Label", "durationMs")] else []) ++
   unless_empty (Context event) [("cs6", Context event); ("cs6Label", "context")] ++
   unless_empty (Reason event) [("reason", Reason event)] ++
   unless_empty (Error event) [("msg", Error event)] ++
   unless_empty (BeforeHash event) [("oldFileHash", BeforeHash event)] ++
   unless_empty (AfterHash event) [("fileHash", AfterHash event)] ++
   unless_empty (RequestID event) [("externalId", RequestID event)])%list.

Definition FormatCEF (event : AuditEvent) : string :=
  "CEF:0|AxonOps|SchemaRegistry|1.0|" ++ cefEscapeHeader (event_text (EventType event)) ++ "|" ++
  cefEscapeHeader (cefDescription event) ++ "|" ++ Itoa (cefSeverity event) ++ "|" ++
  fold_left writeExtField (extFields event) "" ++ newline.

(** ** Examples *)

Definition posted (p : string) (query : string -> string) (m : string) : Request :=
  MkRequest (RateLimit.MkRequest m p (fun _ => "") "10.0.0.1:80") query None None "r-1" None.

Example CEF_example :
  FormatCEF {| (zeroEvent AuditEventSchemaRegister) with Timestamp := 1773239400000000000; Outcome := "success";
    ActorID := "ann"; TargetID := "a=b\c"; Method := "POST"; Path := "/subjects/a=b\c/versions"; StatusCode := 200; Duration := 42000000 |} =
  "CEF:0|AxonOps|SchemaRegistry|1.0|schema_register|Schema registered|5|rt=2026-03-11T14:30:00Z outcome=success suser=ann cs5=a\=b\\c cs5Label=targetID requestMethod=POST request=/subjects/a\=b\\c/versions cn1=200 cn1Label=statusCode cn3=42 cn3Label=durationMs" ++ newline.
Proof. vm_compute. reflexivity. Qed.

Example JSON_example :
  FormatJSON 3600 {| (zeroEvent AuditEventModeUpdate) with Timestamp := 1773239400120000000; Outcome := "success";
    ActorID := "ann"; Duration := 42000000; StatusCode := 200; Metadata := {[ "b" := "2"; "a" := "1" ]} |} =
  Some (quoted "{'timestamp':'2026-03-11T15:30:00.12+01:00','event_type':'mode_update','outcome':'success','actor_id':'ann','actor_type':'','target_type':'','target_id':'','source_ip':'','user_agent':'','method':'','path':'','status_code':200,'metadata':{'a':'1','b':'2'},'duration_ms':42}" ++ newline).
Proof. vm_compute. reflexivity. Qed.

(** Under a context the loops start at the wrong place: the target is taken from
    the path at the length of the prefix that would be there at the root. *)
Example target_in_context :
  extractTarget "/subjects/orders/versions" = ("subject", "orders") /\
  extractTarget "/contexts/.staging/subjects/orders/versions" = ("subject", ".staging") /\
  extractTarget "/contexts/.staging/config/orders" = ("config", "s") /\
  extractTarget "/contexts/.staging/exporters/mirror" = ("exporter", "staging").
Proof. vm_compute. done. Qed.

(** A data key's target is its key encryption key. *)
Example target_of_dek : extractTarget "/dek-registry/v1/keks/k1/deks/orders" = ("dek", "k1").
Proof. reflexivity. Qed.

(** An encoded slash in a name is a slash in the path: the deletion of the subject
    a/schemas/ids/b, asked for as DELETE /subjects/a%2Fschemas%2Fids%2Fb, is taken
    for a read, which is not logged by default. *)
Example slash_misleads :
  determineEventType (posted "/subjects/a/schemas/ids/b" (fun _ => "") "DELETE") 200 = Some AuditEventSchemaGet /\
  AuditEventSchemaGet ∉ defaultEvents.
Proof. split; [reflexivity|]. unfold defaultEvents. rewrite !not_elem_of_cons. repeat split; try discriminate. apply not_elem_of_nil. Qed.

(** Words in names: a change of a key encryption key that leaves no record, and
    events that are recorded as others. *)
Example names_mislead :
  map (fun '(m, p) => determineEventType (posted p (fun _ => "") m) 200)
    [("PUT", "/dek-registry/v1/keks/deks-prod"); ("DELETE", "/dek-registry/v1/keks/deks-prod");
     ("POST", "/dek-registry/v1/keks/test-key/undelete"); ("PUT", "/mode/config-topic");
     ("DELETE", "/config/exporters-log"); ("DELETE", "/subjects/versions")] =
  [None; None; Some AuditEventKEKTest; Some AuditEventConfigUpdate; Some AuditEventExporterDelete;
   Some AuditEventSchemaDeleteSoft].
Proof. vm_compute. reflexivity. Qed.

(** ** What a path contains

    A path is a list of elements; what the loops look for is one too, the last of
    which may be the beginning of an element. *)
Definition path_text (segs : list string) : string := String.concat "" (map (String "/") segs).

Fixpoint match_at (segs words : list string) : bool :=
  match words, segs with
  | [], _ => true
  | _, [] => false
  | [w], s :: _ => HasPrefix s w
  | w :: words, s :: segs => bool_decide (s = w) && match_at segs words
  end.

Fixpoint found (segs words : list string) : bool :=
  match_at segs words || match segs with _ :: segs => found segs words | [] => false end.

Definition no_slash (s : string) : bool := negb (contains_byte "/" s).

Lemma path_text_cons s segs : path_text (s :: segs) = String "/" (s ++ path_text segs).
Proof. unfold path_text. simpl. destruct segs; [by rewrite append_nil_r|done]. Qed.

Lemma HasPrefix_cons c s p : HasPrefix (String c s) (String c p) = HasPrefix s p.
Proof. unfold HasPrefix. simpl. by destruct (ascii_dec c c). Qed.

Lemma no_slash_cons c s : no_slash (String c s) = negb (Ascii.eqb c "/") && no_slash s.
Proof. unfold no_slash. simpl. by rewrite negb_orb. Qed.

(** An element is read to its slash. *)
Lemma HasPrefix_element s w t u :
  no_slash s = true -> no_slash w = true ->
  HasPrefix (s ++ String "/" t) (w ++ String "/" u) = bool_decide (s = w) && HasPrefix t u.
Proof.
  revert w. induction s as [|c s IH]; intros [|d w] Hs Hw; cbn [String.append].
  - by rewrite HasPrefix_cons.
  - rewrite no_slash_cons in Hw. apply andb_true_iff in Hw as [Hd _]. unfold HasPrefix. cbn [String.prefix].
    destruct (ascii_dec d "/") as [->|]; [done|]. by rewrite bool_decide_false.
  - rewrite no_slash_cons in Hs. apply andb_true_iff in Hs as [Hc _]. unfold HasPrefix. cbn [String.prefix].
    destruct (ascii_dec "/" c) as [<-|]; [done|]. by rewrite bool_decide_false.
  - rewrite no_slash_cons in Hs, Hw. apply andb_true_iff in Hs as [_ Hs], Hw as [_ Hw]. destruct (decide (c = d)) as [->|Hne].
    + rewrite HasPrefix_cons, IH by done. f_equal. apply bool_decide_ext. naive_solver.
    + unfold HasPrefix. cbn [String.prefix]. destruct (ascii_dec d c); [congruence|]. rewrite bool_decide_false; [done|congruence].
Qed.

Lemma HasPrefix_no_slash s w u : no_slash s = true -> HasPrefix s (w ++ String "/" u) = false.
Proof.
  revert w. induction s as [|c s IH]; intros [|d w]; [done..| |]; rewrite no_slash_cons, andb_true_iff; intros [Hc Hs];
    unfold HasPrefix in *; cbn [String.append String.prefix].
  - destruct (ascii_dec "/" c) as [<-|]; done.
  - destruct (ascii_dec d c); [by apply IH|done].
Qed.

Lemma match_at_cons s segs w w' words :
  match_at (s :: segs) (w :: w' :: words) = bool_decide (s = w) && match_at segs (w' :: words).
Proof. done. Qed.

Lemma match_at_path segs words :
  words <> [] -> forallb no_slash segs = true -> forallb no_slash words = true ->
  HasPrefix (path_text segs) (path_text words) = match_at segs words.
Proof.
  revert segs. induction words as [|w words IH]; [done|]. intros [|s segs] _ Hs Hw.
  { rewrite path_text_cons. by destruct words. }
  simpl in Hs, Hw. apply andb_true_iff in Hs as [Hs Hss], Hw as [Hw Hws].
  rewrite !path_text_cons, HasPrefix_cons. destruct words as [|w' words].
  - cbn [match_at]. unfold path_text at 2. cbn [map String.concat]. rewrite append_nil_r.
    destruct segs as [|s' segs]; [by rewrite append_nil_r|]. rewrite path_text_cons, Rbac.HasPrefix_slash; [done|].
    by apply negb_true_iff.
  - rewrite path_text_cons. destruct segs as [|s' segs].
    + unfold path_text at 1. cbn [map String.concat]. rewrite append_nil_r, HasPrefix_no_slash by done.
      rewrite match_at_cons. destruct words; by rewrite andb_false_r.
    + rewrite path_text_cons, HasPrefix_element by done. rewrite match_at_cons. f_equal.
      rewrite <- IH; [|done|done|done]. by rewrite !path_text_cons, HasPrefix_cons.
Qed.

Lemma contains_skip s t n : no_slash s = true -> contains (s ++ t) (String "/" n) = contains t (String "/" n).
Proof.
  induction s as [|c s IH]; [done|]. rewrite no_slash_cons, andb_true_iff. intros [Hc Hs]. cbn [String.append contains].
  rewrite IH by done. unfold HasPrefix. cbn [String.prefix]. destruct (ascii_dec "/" c) as [<-|]; done.
Qed.

Lemma contains_path segs words :
  words <> [] -> forallb no_slash segs = true -> forallb no_slash words = true ->
  contains (path_text segs) (path_text words) = found segs words.
Proof.
  intros Hne Hs Hw. induction segs as [|s segs IH].
  - destruct words as [|w words]; [done|]. rewrite path_text_cons. by destruct words.
  - cbn [found]. rewrite <- match_at_path by done. pose proof Hs as Hs'. simpl in Hs. apply andb_true_iff in Hs as [Hs Hss].
    rewrite <- IH by done. destruct words as [|w words]; [done|]. rewrite (path_text_cons w), (path_text_cons s).
    cbn [contains]. by rewrite contains_skip.
Qed.

(** ** What the path of a route contains *)

Definition is_parameter (seg : string) : bool := HasPrefix seg "{".
Definition value (v : string -> string) (seg : string) : string := if is_parameter seg then v seg else seg.
Definition elements (pattern : string) : list string := tail (Split pattern "/").

(** What is known before the parameters are; [plain] parameters begin with none
    of the words. *)
Fixpoint match_known (plain : bool) (segs words : list string) : option bool :=
  match words, segs with
  | [], _ => Some true
  | _, [] => Some false
  | [w], s :: _ =>
      if is_parameter s then (if decide (w = "") then Some true else if plain then Some false else None)
      else Some (HasPrefix s w)
  | w :: words, s :: segs =>
      if is_parameter s then
        (if plain then Some false else match match_known plain segs words with Some false => Some false | _ => None end)
      else if decide (s = w) then match_known plain segs words else Some false
  end.

Fixpoint found_known (plain : bool) (segs words : list string) : option bool :=
  match match_known plain segs words with
  | Some true => Some true
  | b =>
      match segs with
      | [] => b
      | _ :: segs =>
          match found_known plain segs words with
          | Some true => Some true
          | Some false => b
          | None => None
          end
      end
  end.

(** What [determineEventType] looks for, as words. *)
Definition needles : list (list string) :=
  [["import"; ""]; ["compatibility"; ""]; ["subjects"; ""]; ["versions"]; ["schemas"; "ids"; ""]; ["admin"; "users"];
   ["me"; "password"]; ["admin"; "apikeys"]; ["revoke"]; ["rotate"]; ["dek-registry"; "v1"; "keks"]; ["deks"; ""]; ["deks"];
   ["undelete"]; ["test"]; ["exporters"]; ["pause"]; ["resume"]; ["reset"]; ["config"]; ["mode"]].

Definition reserved : list string := List.filter (fun w => negb (String.eqb w "")) (List.concat needles).
Definition plain_name (s : string) : bool := forallb (fun w => negb (HasPrefix s w)) reserved.

Section known.
Context (v : string -> string) (plain : bool).
Hypothesis Hslash : forall p, no_slash (v p) = true.
Hypothesis Hplain : plain = true -> forall p, plain_name (v p) = true.

Lemma not_reserved w words p : plain = true -> words ∈ needles -> w ∈ words -> w <> "" -> HasPrefix (v p) w = false.
Proof.
  intros Hp Hn Hw Hne. specialize (Hplain Hp p). unfold plain_name in Hplain. rewrite forallb_forall in Hplain.
  apply negb_true_iff, Hplain, List.filter_In. split; [|by destruct w].
  apply in_concat. exists words. by rewrite <- !list_elem_of_In.
Qed.

Definition inner_words (words : list string) : bool := forallb (fun w => negb (String.eqb w "")) (removelast words).

Definition apart (words : list string) : Prop :=
  plain = true -> forall w p, w ∈ words -> w <> "" -> HasPrefix (v p) w = false.

Lemma match_known_sound segs words b :
  inner_words words = true -> apart words -> match_known plain segs words = Some b ->
  match_at (map (value v) segs) words = b.
Proof.
  revert segs b. induction words as [|w words IH]; intros segs b Hi Hw; [by destruct segs; intros [= <-]|].
  destruct segs as [|s segs]; [by destruct words; intros [= <-]|]. destruct words as [|w' words].
  - cbn [match_known match_at map]. unfold value. destruct (is_parameter s); [|by intros [= <-]].
    case_decide as Hd; [subst w; intros [= <-]; by destruct (v s)|].
    destruct (decide (plain = true)) as [Hp|Hp%not_true_is_false]; rewrite Hp; intros [= <-]. apply Hw; [done|left|done].
  - unfold inner_words in Hi. change (negb (String.eqb w "") && inner_words (w' :: words) = true) in Hi.
    apply andb_true_iff in Hi as [Hne Hi]. assert (Ha : apart (w' :: words)) by (intros Hp x p Hx; apply Hw; [done|by right]).
    specialize (IH segs). cbn [map]. rewrite match_at_cons.
    change (match_known plain (s :: segs) (w :: w' :: words)) with
      (if is_parameter s then
        (if plain then Some false else match match_known plain segs (w' :: words) with Some false => Some false | _ => None end)
       else if decide (s = w) then match_known plain segs (w' :: words) else Some false).
    destruct (is_parameter s) eqn:Ex.
    + assert (value v s = v s) as -> by (unfold value; by rewrite Ex).
      assert (Hpl : plain = true -> bool_decide (v s = w) = false).
      { intros Hp. apply bool_decide_eq_false. intros Heq. assert (HasPrefix (v s) w = false) as Hf by (apply Hw; [done|left|by intros ->]).
        pose proof (HasPrefix_app w "") as Hself. rewrite append_nil_r in Hself. rewrite Heq in Hf. congruence. }
      destruct (decide (plain = true)) as [Hp|Hp%not_true_is_false]; rewrite Hp; [intros [= <-]; by rewrite Hpl|]. rewrite Hp in IH.
      destruct (match_known false segs (w' :: words)) as [[]|]; intros [= <-]. by rewrite (IH false), andb_false_r.
    + assert (value v s = s) as -> by (unfold value; by rewrite Ex).
      case_decide as Hd; [rewrite bool_decide_true by done; by apply IH|]. rewrite bool_decide_false by done. by intros [= <-].
Qed.

Lemma found_known_sound segs words b :
  inner_words words = true -> apart words -> found_known plain segs words = Some b -> found (map (value v) segs) words = b.
Proof.
  intros Hi Ha. revert b. induction segs as [|s segs IH]; intros b; cbn [found_known found map].
  - destruct (match_known plain [] words) as [[]|] eqn:E; intros [= <-];
      apply (match_known_sound _ _ _ Hi Ha) in E; cbn [map] in E; by rewrite E.
  - destruct (match_known plain (s :: segs) words) as [[]|] eqn:E.
    + intros [= <-]. apply (match_known_sound _ _ _ Hi Ha) in E. cbn [map] in E. by rewrite E.
    + apply (match_known_sound _ _ _ Hi Ha) in E. cbn [map] in E. rewrite E.
      destruct (found_known plain segs words) as [[]|]; intros [= <-]; by apply IH.
    + destruct (found_known plain segs words) as [[]|]; intros [= <-]. rewrite (IH true eq_refl). by rewrite orb_true_r.
Qed.

(** The facts about the path of a pattern. *)
Lemma known_facts segs :
  forallb no_slash (List.filter (fun s => negb (is_parameter s)) segs) = true ->
  Forall (fun words => match found_known plain segs words with
                       | Some b => contains (path_text (map (value v) segs)) (path_text words) = b
                       | None => True
                       end) needles.
Proof.
  intros Hs. apply List.Forall_forall. intros words Hw. destruct (found_known plain segs words) as [b|] eqn:E; [|done].
  assert (Hall : forallb (fun words => inner_words words && forallb no_slash words && negb (bool_decide (words = []))) needles = true)
    by (vm_compute; reflexivity).
  rewrite forallb_forall in Hall. specialize (Hall _ Hw). rewrite !andb_true_iff in Hall. destruct Hall as [[Hi Hn] Hne].
  rewrite contains_path; [|by destruct words| |done].
  - apply found_known_sound; [done| |done]. intros Hp w p Hx. apply (not_reserved w words); [done|by apply list_elem_of_In|done].
  - rewrite forallb_forall in Hs. apply forallb_forall. intros s (x & <- & Hx)%in_map_iff. unfold value.
    destruct (is_parameter x) eqn:Ex; [done|]. apply Hs, List.filter_In. by rewrite Ex.
Qed.
End known.

(** ** Every change is recorded *)

Lemma Join_path x l : Join (x :: l) "/" = x ++ path_text l.
Proof.
  revert x. induction l as [|y l IH]; intros x; [by rewrite append_nil_r|].
  change (Join (x :: y :: l) "/") with (x ++ "/" ++ Join (y :: l) "/"). by rewrite IH, path_text_cons.
Qed.

(** Each route, with what precedes its pattern in a context. *)
Definition full_elements (in_context : bool) (r : Rbac.Route) : list string :=
  ((if in_context then ["contexts"; "{context}"] else []) ++ elements (Rbac.Pattern r))%list.

Definition with_context (name : string) (v : string -> string) (p : string) : string :=
  if String.eqb p "{context}" then name else v p.

Lemma routes_elements :
  forallb (fun r => bool_decide (head (Split (Rbac.Pattern r) "/") = Some "") &&
    forallb (fun s => negb (String.eqb s "{context}")) (elements (Rbac.Pattern r)) &&
    forallb no_slash (List.filter (fun s => negb (is_parameter s)) (full_elements true r))) Rbac.routes = true.
Proof. vm_compute. reflexivity. Qed.

(** A request of a route; the name of the context is the parameter [{context}]. *)
Definition request_of (r : Rbac.Route) (v : string -> string) (p : string) : Prop :=
  exists in_context : bool, (in_context = true -> r ∈ Rbac.mountRegistryRoutes) /\
    p = path_text (map (value v) (full_elements in_context r)).

(** They are the requests of access control. *)
Lemma request_of_path r v p :
  r ∈ Rbac.routes -> Rbac.request_path r v p -> exists name, no_slash name = true /\ request_of r (with_context name v) p.
Proof.
  intros Hr Hp. pose proof routes_elements as Hall. rewrite forallb_forall in Hall.
  specialize (Hall r (proj1 (list_elem_of_In _ _) Hr)). rewrite !andb_true_iff in Hall. destruct Hall as [[Hh Hc] _].
  assert (Hmap : forall name, map (value (with_context name v)) (elements (Rbac.Pattern r)) = map (value v) (elements (Rbac.Pattern r))).
  { intros name. apply map_ext_in. intros s Hs. rewrite forallb_forall in Hc. specialize (Hc s Hs).
    unfold value, with_context. by rewrite (proj1 (negb_true_iff _) Hc). }
  assert (Hpath : Rbac.path_of (Rbac.Pattern r) v = path_text (map (value v) (elements (Rbac.Pattern r)))).
  { unfold Rbac.path_of, elements. apply bool_decide_eq_true in Hh. destruct (Split _ _) as [|x l]; [done|].
    injection Hh as ->. cbn [map tail]. rewrite Join_path. done. }
  destruct Hp as [|name Hn Hm].
  - exists "". split; [done|]. exists false. split; [done|]. unfold full_elements. cbn [app]. by rewrite Hmap, Hpath.
  - exists name. split; [unfold no_slash; by rewrite Hn|]. exists true. split; [done|]. unfold full_elements. rewrite map_app, Hmap.
    cbn [app map]. rewrite !path_text_cons, Hpath. unfold value, with_context. simpl. done.
Qed.

(** The event a handler that changes something is recorded as. *)
Definition event_of (handler : string) (permanent : bool) : option AuditEventType :=
  let either soft hard := if permanent then hard else soft in
  snd <$> List.find (fun he => String.eqb (fst he) handler)
    [("RegisterSchema", AuditEventSchemaRegister);
     ("DeleteSubject", either AuditEventSubjectDeleteSoft AuditEventSubjectDeletePermanent);
     ("DeleteVersion", either AuditEventSchemaDeleteSoft AuditEventSchemaDeletePermanent);
     ("ImportSchemas", AuditEventSchemaImport);
     ("SetConfig", AuditEventConfigUpdate); ("DeleteGlobalConfig", AuditEventConfigDelete); ("DeleteConfig", AuditEventConfigDelete);
     ("SetMode", AuditEventModeUpdate); ("DeleteGlobalMode", AuditEventModeDelete); ("DeleteMode", AuditEventModeDelete);
     ("CreateExporter", AuditEventExporterCreate); ("UpdateExporter", AuditEventExporterUpdate);
     ("DeleteExporter", AuditEventExporterDelete); ("PauseExporter", AuditEventExporterPause);
     ("ResumeExporter", AuditEventExporterResume); ("ResetExporter", AuditEventExporterReset);
     ("UpdateExporterConfig", AuditEventExporterConfigUpdate);
     ("CreateKEK", AuditEventKEKCreate); ("UpdateKEK", AuditEventKEKUpdate);
     ("DeleteKEK", either AuditEventKEKDeleteSoft AuditEventKEKDeletePermanent); ("UndeleteKEK", AuditEventKEKUndelete);
     ("CreateDEK", AuditEventDEKCreate); ("CreateDEKWithSubject", AuditEventDEKCreate);
     ("DeleteDEK", either AuditEventDEKDeleteSoft AuditEventDEKDeletePermanent); ("UndeleteDEK", AuditEventDEKUndelete);
     ("DeleteDEKVersion", either AuditEventDEKDeleteSoft AuditEventDEKDeletePermanent); ("UndeleteDEKVersion", AuditEventDEKUndelete);
     ("CreateUser", AuditEventUserCreate); ("UpdateUser", AuditEventUserUpdate); ("DeleteUser", AuditEventUserDelete);
     ("ChangePassword", AuditEventPasswordChange);
     ("CreateAPIKey", AuditEventAPIKeyCreate); ("UpdateAPIKey", AuditEventAPIKeyUpdate); ("DeleteAPIKey", AuditEventAPIKeyDelete);
     ("RevokeAPIKey", AuditEventAPIKeyRevoke); ("RotateAPIKey", AuditEventAPIKeyRotate)].

(** The handlers access control guards as writes, and the change of one's password. *)
Lemma event_of_writes :
  forallb (fun hp => bool_decide (event_of (fst hp) false <> None)) (("ChangePassword", "") :: Rbac.write_permissions)%list = true.
Proof. vm_compute. reflexivity. Qed.

Definition facts (has : string -> bool) (plain : bool) (segs : list string) : Prop :=
  Forall (fun words => match found_known plain segs words with Some b => has (path_text words) = b | None => True end) needles.

Definition write_routes : list Rbac.Route :=
  List.filter (fun r => bool_decide (event_of (Rbac.Handler r) false <> None)) Rbac.routes.

(** A key encryption key that is updated or deleted under a name like a path of data keys. *)
Definition hidden (r : Rbac.Route) (v : string -> string) : bool :=
  bool_decide (Rbac.Handler r ∈ ["UpdateKEK"; "DeleteKEK"]) && HasPrefix (v "{name}") "deks".

Definition recorded (has : string -> bool) (r : Rbac.Route) (permanent : bool) (statusCode : Z) : Prop :=
  exists e, eventTypeOf has false (Rbac.RtMethod r) permanent statusCode = Some e /\ e ∈ defaultEvents.

#[export] Instance AuditEventType_eq_dec : EqDecision AuditEventType.
Proof. solve_decision. Defined.

Lemma eventTypeOf_served has subjects m permanent statusCode :
  statusCode <> 401%Z -> statusCode <> 403%Z ->
  eventTypeOf has subjects m permanent statusCode = eventTypeOf has subjects m permanent 200.
Proof. intros H1 H2. unfold eventTypeOf at 1. by rewrite !bool_decide_false by done. Qed.

(** Only what is looked for matters. *)
Lemma eventTypeOf_ext has has' subjects m permanent statusCode :
  (forall words, words ∈ needles -> has (path_text words) = has' (path_text words)) ->
  eventTypeOf has subjects m permanent statusCode = eventTypeOf has' subjects m permanent statusCode.
Proof.
  intros H.
  assert (Forall (fun n => has n = has' n) (map path_text needles)) as Hall.
  { apply List.Forall_forall. intros n (words & <- & Hw)%in_map_iff. apply H. by apply list_elem_of_In. }
  clear H. cbv [needles map path_text String.concat String.append] in Hall.
  repeat (apply Forall_cons in Hall as [?E Hall]). unfold eventTypeOf.
  repeat match goal with E : has _ = _ |- _ => rewrite !E; clear E end. reflexivity.
Qed.

(** The known facts, and [has] where there is none. *)
Definition informed (has : string -> bool) (plain : bool) (segs : list string) (n : string) : bool :=
  match found_known plain segs (tail (Split n "/")) with Some b => b | None => has n end.

Lemma informed_needles has plain segs : facts has plain segs ->
  forall words, words ∈ needles -> has (path_text words) = informed has plain segs (path_text words).
Proof.
  intros H words Hw. assert (forallb (fun w => bool_decide (tail (Split (path_text w) "/") = w)) needles = true) as Hall by (vm_compute; reflexivity).
  rewrite forallb_forall in Hall. specialize (Hall words (proj1 (list_elem_of_In _ _) Hw)). apply bool_decide_eq_true in Hall.
  unfold informed. rewrite Hall. unfold facts in H. rewrite Forall_forall in H. specialize (H words Hw).
  by destruct (found_known plain segs words).
Qed.

Lemma plain_routes in_context permanent :
  forallb (fun r => bool_decide (eventTypeOf (informed (fun _ => false) true (full_elements in_context r)) false (Rbac.RtMethod r) permanent 200 =
                                 event_of (Rbac.Handler r) permanent)) write_routes = true.
Proof. by destruct in_context, permanent; vm_compute. Qed.

Lemma plain_known in_context : forallb (fun r => forallb (fun words =>
  bool_decide (found_known true (full_elements in_context r) words <> None)) needles) write_routes = true.
Proof. by destruct in_context; vm_compute. Qed.

Definition logged_by_default (e : option AuditEventType) : bool :=
  match e with Some e => bool_decide (e ∈ defaultEvents) | None => false end.

(** What else is known of a key encryption key. *)
Definition visible (has : string -> bool) (r : Rbac.Route) : string -> bool :=
  fun n => if bool_decide (Rbac.Handler r ∈ ["UpdateKEK"; "DeleteKEK"]) && String.eqb n "/deks" then false else has n.

#[local] Existing Instance Rbac.Route_eq_dec.

Ltac decide_event has :=
  match goal with |- logged_by_default ?x = true => let y := eval vm_compute in x in change x with y end;
  match goal with
  | |- context [has ?n] => destruct (has n); decide_event has
  | |- _ => vm_compute; reflexivity
  end.

Lemma any_routes in_context permanent :
  Forall (fun r => forall has,
    logged_by_default (eventTypeOf (informed (visible has r) false (full_elements in_context r)) false (Rbac.RtMethod r) permanent 200) = true)
  (List.filter (fun r => negb in_context || bool_decide (r ∈ Rbac.mountRegistryRoutes)) write_routes).
Proof.
  destruct in_context, permanent;
  match goal with |- Forall _ ?l => let l' := eval vm_compute in l in change l with l' end;
  repeat first [apply Forall_cons_2 | apply Forall_nil_2]; intros has; decide_event has.
Qed.

Lemma eventTypeOf_subjects has subjects m permanent statusCode :
  m <> "GET" -> eventTypeOf has subjects m permanent statusCode = eventTypeOf has false m permanent statusCode.
Proof. intros H. unfold eventTypeOf. rewrite (bool_decide_false (m = "GET")) by done. by rewrite !andb_false_r. Qed.

Lemma write_route r : r ∈ Rbac.routes -> event_of (Rbac.Handler r) false <> None -> r ∈ write_routes /\ Rbac.RtMethod r <> "GET".
Proof.
  intros Hr He. assert (r ∈ write_routes) as Hw.
  { apply list_elem_of_In, List.filter_In. split; [by apply list_elem_of_In|by apply bool_decide_eq_true]. }
  split; [done|]. assert (forallb (fun r => negb (String.eqb (Rbac.RtMethod r) "GET")) write_routes = true) as Hall by (vm_compute; reflexivity).
  rewrite forallb_forall in Hall. specialize (Hall r (proj1 (list_elem_of_In _ _) Hw)). intros E. by rewrite E in Hall.
Qed.

Lemma full_elements_slash in_context r : r ∈ Rbac.routes ->
  forallb no_slash (List.filter (fun s => negb (is_parameter s)) (full_elements in_context r)) = true.
Proof.
  intros Hr. pose proof routes_elements as Hall. rewrite forallb_forall in Hall.
  specialize (Hall r (proj1 (list_elem_of_In _ _) Hr)). rewrite !andb_true_iff in Hall. destruct Hall as [_ Hall].
  destruct in_context; [done|]. rewrite forallb_forall in Hall |- *. intros s [Hs Hp]%List.filter_In. apply Hall, List.filter_In.
  split; [|done]. unfold full_elements in *. cbn [app] in *. by right; right.
Qed.

Lemma needle_words words : words ∈ needles -> tail (Split (path_text words) "/") = words.
Proof.
  intros Hw. assert (forallb (fun w => bool_decide (tail (Split (path_text w) "/") = w)) needles = true) as Hall by (vm_compute; reflexivity).
  rewrite forallb_forall in Hall. specialize (Hall words (proj1 (list_elem_of_In _ _) Hw)). by apply bool_decide_eq_true in Hall.
Qed.

Section served.
Context (r : Rbac.Route) (v : string -> string) (p : string).
Hypothesis Hr : r ∈ Rbac.routes.
Hypothesis He : event_of (Rbac.Handler r) false <> None.
Hypothesis Hslash : forall x, no_slash (v x) = true.
Hypothesis Hp : request_of r v p.

Lemma plain_event permanent : (forall x, plain_name (v x) = true) ->
  eventTypeOf (contains p) false (Rbac.RtMethod r) permanent 200 = event_of (Rbac.Handler r) permanent.
Proof.
  intros Hplain. destruct Hp as (c & _ & ->). destruct (write_route r Hr He) as [Hw _].
  pose proof (known_facts v true Hslash (fun _ => Hplain) _ (full_elements_slash c r Hr)) as Hk.
  pose proof (plain_routes c permanent) as Hall. pose proof (plain_known c) as Hkn. rewrite forallb_forall in Hall. rewrite forallb_forall in Hkn.
  specialize (Hall r (proj1 (list_elem_of_In _ _) Hw)). specialize (Hkn r (proj1 (list_elem_of_In _ _) Hw)). cbv beta in Hkn.
  rewrite forallb_forall in Hkn. apply bool_decide_eq_true in Hall. rewrite <- Hall. rewrite (eventTypeOf_ext _ _ _ _ _ _ (informed_needles _ _ _ Hk)).
  apply eventTypeOf_ext. intros words Hwd. unfold informed. rewrite needle_words by done.
  specialize (Hkn words (proj1 (list_elem_of_In _ _) Hwd)). apply bool_decide_eq_true in Hkn.
  by destruct (found_known true (full_elements c r) words).
Qed.

Lemma visible_keks : hidden r v = false ->
  forall words, words ∈ needles -> contains p (path_text words) = visible (contains p) r (path_text words).
Proof.
  intros Hh words _. unfold visible. destruct (bool_decide _ && _) eqn:E; [|done].
  apply andb_true_iff in E as [Hk Hd]. unfold hidden in Hh. rewrite Hk in Hh. cbn [andb] in Hh.
  apply String.eqb_eq in Hd. rewrite Hd. destruct Hp as (c & Hc & ->). apply bool_decide_eq_true in Hk.
  assert (forallb (fun r => negb (bool_decide (Rbac.Handler r ∈ ["UpdateKEK"; "DeleteKEK"])) ||
    bool_decide (elements (Rbac.Pattern r) = ["dek-registry"; "v1"; "keks"; "{name}"]) &&
    negb (bool_decide (r ∈ Rbac.mountRegistryRoutes))) Rbac.routes = true) as Hall by (vm_compute; reflexivity).
  rewrite forallb_forall in Hall. specialize (Hall r (proj1 (list_elem_of_In _ _) Hr)). rewrite bool_decide_true in Hall by done.
  cbn [negb orb] in Hall. apply andb_true_iff in Hall as [Hel%bool_decide_eq_true Hm%negb_true_iff%bool_decide_eq_false].
  destruct c; [by specialize (Hc eq_refl)|]. unfold full_elements. cbn [app]. rewrite Hel.
  change "/deks" with (path_text ["deks"]). rewrite contains_path; [|done| |done].
  - change (HasPrefix (v "{name}") "deks" || (false || false) = false). by rewrite Hh.
  - change (no_slash (v "{name}") && true = true). by rewrite Hslash.
Qed.

Lemma any_event permanent : hidden r v = false ->
  logged_by_default (eventTypeOf (contains p) false (Rbac.RtMethod r) permanent 200) = true.
Proof.
  intros Hh. destruct Hp as (c & Hc & Ep). destruct (write_route r Hr He) as [Hw _].
  assert (Hk : facts (visible (contains p) r) false (full_elements c r)).
  { pose proof (known_facts v false Hslash ltac:(done) _ (full_elements_slash c r Hr)) as Hk. rewrite <- Ep in Hk.
    unfold facts. rewrite Forall_forall in Hk |- *. intros words Hwd. specialize (Hk words Hwd).
    destruct (found_known false (full_elements c r) words); [|done]. by rewrite <- visible_keks. }
  rewrite (eventTypeOf_ext _ _ _ _ _ _ (visible_keks Hh)), (eventTypeOf_ext _ _ _ _ _ _ (informed_needles _ _ _ Hk)).
  pose proof (any_routes c permanent) as Hall. rewrite Forall_forall in Hall. apply Hall.
  apply list_elem_of_In, List.filter_In. split; [by apply list_elem_of_In|]. destruct c; [|done]. by apply bool_decide_eq_true, Hc.
Qed.
End served.

(** Property C38.  With auditing on, a served request of a route that changes
    something is recorded, as an event that is logged by default, under its method
    and path and with the status that was written, at the root or in a context -
    unless a parameter of its path has a slash, as an encoded one is
    ([slash_misleads]), the handler asked for no event, as bulk imports do, which
    record schema by schema, or it updates or deletes a key encryption key whose
    name begins with [deks] ([names_mislead]); and as the event of its handler if no
    parameter begins with a word the classification looks for and the caller was
    let in. *)
Theorem writes_are_recorded r v p req includeBody start elapsed hints codes
  (Hr : r ∈ Rbac.routes) (He : event_of (Rbac.Handler r) false <> None) (Hslash : forall x, no_slash (v x) = true)
  (Hp : request_of r v p) (Hh : hidden r v = false) (Hpath : path req = p) (Hm : method req = Rbac.RtMethod r)
  (Hs : SuppressEvent hints = false) :
  exists event, Middleware true includeBody start elapsed req (hints, codes) = Some event /\
    EventType event ∈ defaultEvents /\ Method event = Rbac.RtMethod r /\ Path event = p /\ StatusCode event = statusWritten codes /\
    ((forall x, plain_name (v x) = true) -> statusWritten codes <> 401%Z -> statusWritten codes <> 403%Z ->
     event_of (Rbac.Handler r) (bool_decide (QueryGet req "permanent" = "true")) = Some (EventType event)).
Proof.
  unfold Middleware. cbn [negb]. unfold determineEventType. rewrite Hpath, Hm, eventTypeOf_subjects by by apply write_route.
  set (permanent := bool_decide _). set (st := statusWritten codes). rewrite Hs.
  destruct (actorOf hints (ContextUser req)) as [[[actor kind] role] auth]. destruct (extractTarget p) as [tt ti].
  destruct (decide (st = 401%Z)) as [E|H1]; [|destruct (decide (st = 403%Z)) as [E|H3]].
  1-2: rewrite E; eexists; split; [reflexivity|]; split; [apply (bool_decide_unpack _); vm_compute; exact I|done].
  rewrite (eventTypeOf_served _ _ _ _ _ H1 H3). pose proof (any_event r v p Hr He Hslash Hp permanent Hh) as Hany.
  pose proof (plain_event r v p Hr He Hslash Hp permanent) as Hpl.
  destruct (eventTypeOf _ _ _ _ _) as [e|]; [|done]. eexists. split; [reflexivity|]. split; [by apply bool_decide_eq_true in Hany|].
  do 3 (split; [done|]). intros Hplain _ _. by rewrite <- Hpl.
Qed.

Definition delete_version : Rbac.Route := Rbac.MkRoute "DELETE" "/subjects/{subject}/versions/{version}" "DeleteVersion".
Definition staging (x : string) : string :=
  if String.eqb x "{context}" then ".staging" else if String.eqb x "{version}" then "3" else "orders".

Lemma writes_are_recorded_witness :
  exists event, Middleware true false 0 7 (posted "/contexts/.staging/subjects/orders/versions/3" (fun _ => "true") "DELETE") (noHints, []) = Some event /\
    EventType event ∈ defaultEvents.
Proof.
  destruct (writes_are_recorded delete_version staging "/contexts/.staging/subjects/orders/versions/3"
    (posted "/contexts/.staging/subjects/orders/versions/3" (fun _ => "true") "DELETE") false 0 7 noHints []) as (event & H & Hd & _).
  - apply (bool_decide_unpack _). vm_compute. exact I.
  - discriminate.
  - intros x. unfold staging. destruct (String.eqb x "{context}"); [reflexivity|]. destruct (String.eqb x "{version}"); reflexivity.
  - exists true. split; [intros _; apply (bool_decide_unpack _); vm_compute; exact I|]. vm_compute. reflexivity.
  - vm_compute. reflexivity.
  - reflexivity.
  - reflexivity.
  - reflexivity.
  - exists event. split; [exact H|exact Hd].
Defined.

(** ** Reading a CEF record back

    A value is written with its backslashes, equals signs and line ends escaped,
    so the first sign that is not ends a key. *)
Inductive sealed : string -> Prop :=
  | sealed_nil : sealed ""
  | sealed_char c s : c <> "\"%char -> c <> "="%char -> sealed s -> sealed (String c s)
  | sealed_pair c s : sealed s -> sealed (String "\" (String c s)).

Lemma sealed_app s t : sealed s -> sealed t -> sealed (s ++ t).
Proof. intros Hs Ht. induction Hs; simpl; [done|by apply sealed_char|by apply sealed_pair]. Qed.

Lemma sealed_until s t r u : sealed s -> sealed t -> s ++ String "=" r = t ++ String "=" u -> s = t /\ r = u.
Proof.
  intros Hs. revert t. induction Hs as [|c s Hb He Hs IH|c s Hs IH]; intros t Ht E; destruct Ht as [|d t Hd Hf Ht|d t Ht]; simpl in E.
  all: try (injection E as E1 E2; congruence).
  - by injection E as ->.
  - injection E as -> E. by apply IH in E as [-> ->].
  - injection E as -> E. by apply IH in E as [-> ->].
Qed.

Lemma sealed_not_key s t r : sealed s -> sealed t -> s <> t ++ String "=" r.
Proof.
  intros Hs. revert t. induction Hs as [|c s Hb He Hs IH|c s Hs IH]; intros t Ht E; destruct Ht as [|d t Hd Hf Ht|d t Ht]; simpl in E;
    try discriminate E; try (injection E as E1 E2; congruence).
  - injection E as -> E. by apply (IH t).
  - injection E as -> E. by apply (IH t).
Qed.

(** One character of a value. *)
Definition escape_char (c : ascii) : string :=
  if Ascii.eqb c "\" then "\\" else if Ascii.eqb c "=" then "\=" else if Ascii.eqb c "010" then "\n"
  else if Ascii.eqb c "013" then "\r" else String c "".

Lemma replace_app c w s t : replace_byte c w (s ++ t) = replace_byte c w s ++ replace_byte c w t.
Proof. induction s as [|d s IH]; simpl; [done|]. destruct (Ascii.eqb d c); by rewrite IH, ?append_assoc. Qed.

Lemma escape_cons c s : cefEscapeExtValue (String c s) = escape_char c ++ cefEscapeExtValue s.
Proof.
  unfold cefEscapeExtValue, escape_char. cbn [replace_byte].
  destruct (Ascii.eqb_spec c "\"); [by subst|]. cbn [replace_byte]. destruct (Ascii.eqb_spec c "="); [by subst|]. cbn [replace_byte].
  destruct (Ascii.eqb_spec c "010"); [by subst|]. cbn [replace_byte]. destruct (Ascii.eqb_spec c "013"); by subst.
Qed.

Lemma sealed_value s : sealed (cefEscapeExtValue s).
Proof.
  induction s as [|c s IH]; [constructor|]. rewrite escape_cons. apply sealed_app; [|done]. unfold escape_char.
  repeat match goal with |- context [Ascii.eqb ?x ?y] => destruct (Ascii.eqb_spec x y); [apply sealed_pair, sealed_nil|] end.
  by apply sealed_char; [| |apply sealed_nil].
Qed.

Lemma escape_char_inj c d s t : escape_char c ++ s = escape_char d ++ t -> c = d /\ s = t.
Proof.
  unfold escape_char. repeat match goal with |- context [Ascii.eqb ?x ?y] => destruct (Ascii.eqb_spec x y) end;
    subst; simpl; intros E; simplify_eq; done.
Qed.

Lemma cefEscapeExtValue_inj s t : cefEscapeExtValue s = cefEscapeExtValue t -> s = t.
Proof.
  assert (Hnil : forall c u, escape_char c ++ u <> "").
  { intros c u. unfold escape_char. by repeat match goal with |- context [Ascii.eqb ?x ?y] => destruct (Ascii.eqb_spec x y) end. }
  revert t. induction s as [|c s IH]; intros [|d t] E; rewrite ?escape_cons in E.
  - done.
  - by destruct (Hnil d (cefEscapeExtValue t)).
  - by destruct (Hnil c (cefEscapeExtValue s)).
  - apply escape_char_inj in E as [-> E]. by rewrite (IH t).
Qed.

(** Up to its last space, a text is read in one way. *)
Lemma last_space s t k l : lacks " " k = true -> lacks " " l = true -> s ++ String " " k = t ++ String " " l -> s = t /\ k = l.
Proof.
  intros Hk Hl. revert t. induction s as [|c s IH]; intros [|d t] E; cbn [String.append] in E; injection E; intros.
  - by subst.
  - subst. rewrite lacks_app, andb_true_iff in Hk. by destruct Hk as [_ ?].
  - subst. rewrite lacks_app, andb_true_iff in Hl. by destruct Hl as [_ ?].
  - subst. by apply IH in H as [-> ->].
Qed.

Definition key_ok (k : string) : bool := lacks " " k && lacks "=" k && lacks "\" k && negb (String.eqb k "").

Lemma sealed_key k : key_ok k = true -> sealed k.
Proof.
  unfold key_ok. rewrite !andb_true_iff. intros [[[_ He] Hb] _]. induction k as [|c k IH]; [constructor|].
  unfold lacks in He, Hb. simpl in He, Hb. rewrite negb_orb, andb_true_iff in He, Hb. destruct He as [He1 He], Hb as [Hb1 Hb].
  apply sealed_char; [by intros ->..|by apply IH].
Qed.

Lemma key_space k : key_ok k = true -> lacks " " k = true.
Proof. unfold key_ok. rewrite !andb_true_iff. tauto. Qed.

Definition field_text (f : string * string) : string := fst f ++ "=" ++ cefEscapeExtValue (snd f).

Definition rest_text (l : list (string * string)) : string := String.concat "" (map (fun f => " " ++ field_text f) l).

Lemma rest_text_cons f l : rest_text (f :: l) = " " ++ field_text f ++ rest_text l.
Proof. unfold rest_text. destruct l; [|done]. simpl. by rewrite append_nil_r. Qed.

Lemma fold_fields l : forall ext, ext <> "" -> fold_left writeExtField l ext = ext ++ rest_text l.
Proof.
  induction l as [|f l IH]; intros ext Hne; [by rewrite append_nil_r|]. cbn [fold_left]. unfold writeExtField at 2.
  rewrite decide_False by done. rewrite IH, rest_text_cons by by destruct ext. unfold field_text. by rewrite !append_assoc.
Qed.

Lemma written_fields f l : key_ok (fst f) = true -> fold_left writeExtField (f :: l) "" = field_text f ++ rest_text l.
Proof.
  intros Hk. cbn [fold_left]. unfold writeExtField at 2. rewrite decide_True by done. rewrite fold_fields; [done|].
  unfold key_ok in Hk. by destruct (fst f); rewrite ?andb_false_r in Hk.
Qed.

(** The fields are read back from their text. *)
Lemma fields_inj l : forall l' v v', forallb (fun f => key_ok (fst f)) l = true -> forallb (fun f => key_ok (fst f)) l' = true ->
  cefEscapeExtValue v ++ rest_text l = cefEscapeExtValue v' ++ rest_text l' -> v = v' /\ l = l'.
Proof.
  assert (Hsplit : forall v k w, (cefEscapeExtValue v ++ " " ++ (k ++ "=" ++ w)) = ((cefEscapeExtValue v ++ String " " k) ++ String "=" w)).
  { intros. by rewrite !append_assoc. }
  assert (Hseal : forall v k, key_ok k = true -> sealed (cefEscapeExtValue v ++ String " " k)).
  { intros v k Hk. apply sealed_app; [apply sealed_value|]. apply sealed_char; [done..|by apply sealed_key]. }
  induction l as [|[k w] l IH]; intros [|[k' w'] l'] v v' Hl Hl' E.
  - unfold rest_text in E. simpl in E. rewrite !append_nil_r in E. by apply cefEscapeExtValue_inj in E.
  - exfalso. simpl in Hl'. apply andb_true_iff in Hl' as [Hk' _]. rewrite rest_text_cons in E. unfold field_text in E. simpl fst in E. simpl snd in E.
    rewrite !append_assoc in E. change (rest_text []) with "" in E. rewrite append_nil_r, Hsplit in E.
    by apply sealed_not_key in E; [|apply sealed_value|apply Hseal].
  - exfalso. simpl in Hl. apply andb_true_iff in Hl as [Hk _]. rewrite rest_text_cons in E. unfold field_text in E. simpl fst in E. simpl snd in E.
    rewrite !append_assoc in E. change (rest_text []) with "" in E. rewrite append_nil_r, Hsplit in E. symmetry in E.
    by apply sealed_not_key in E; [|apply sealed_value|apply Hseal].
  - simpl in Hl, Hl'. apply andb_true_iff in Hl as [Hk Hl], Hl' as [Hk' Hl'].
    rewrite !rest_text_cons in E. unfold field_text in E. cbn [fst snd] in E. rewrite !append_assoc, !Hsplit in E.
    apply sealed_until in E as [E1 E2]; [|by apply Hseal..].
    apply last_space in E1 as [E1 ->]; [|by apply key_space..]. apply cefEscapeExtValue_inj in E1 as ->.
    by apply IH in E2 as [-> ->].
Qed.

(** ** A record identifies what it shows *)

Definition get (key : string) (l : list (string * string)) : string :=
  match List.find (fun f => String.eqb (fst f) key) l with Some f => snd f | None => "" end.

Definition missing (key : string) (l : list (string * string)) : bool := forallb (fun f => negb (String.eqb (fst f) key)) l.

Lemma get_skip key l k : missing key l = true -> get key (l ++ k) = get key k.
Proof.
  unfold missing, get. induction l as [|f l IH]; [done|]. simpl. rewrite andb_true_iff. intros [Hf Hl].
  destruct (String.eqb (fst f) key); [done|]. by apply IH.
Qed.

Lemma get_missing key l : missing key l = true -> get key l = "".
Proof. intros H. rewrite <- (app_nil_r l). by rewrite get_skip. Qed.

Lemma get_here key v l k : missing key k = true -> get key (unless_empty v ((key, v) :: l) ++ k) = v.
Proof.
  intros Hk. unfold unless_empty. case_decide as H; [subst; by apply get_missing|]. unfold get. simpl. by rewrite String.eqb_refl.
Qed.

Lemma get_last key v : get key (unless_empty v [(key, v)]) = v.
Proof. rewrite <- (app_nil_r (unless_empty _ _)). by apply get_here. Qed.

Lemma missing_app key l k : missing key (l ++ k) = missing key l && missing key k.
Proof. apply forallb_app. Qed.

Lemma missing_unless key v l : missing key l = true -> missing key (unless_empty v l) = true.
Proof. unfold unless_empty. by case_decide. Qed.

Lemma missing_if key (b : bool) l : missing key l = true -> missing key (if b then l else []) = true.
Proof. by destruct b. Qed.
Lemma missing_ifn key P `{Decision P} l : missing key l = true -> missing key (if decide P then [] else l) = true.
Proof. by case_decide. Qed.

Ltac miss := repeat first
  [ rewrite missing_app; apply andb_true_iff; split
  | apply missing_unless; reflexivity | apply missing_if; reflexivity | apply missing_ifn; reflexivity | reflexivity ].
Ltac find_field := unfold extFields; repeat first [reflexivity | apply get_last | apply get_here; solve [miss] | rewrite get_skip by solve [miss]].

(** What a record shows of an event: the time to the second, the duration if there
    is one, in milliseconds. *)
Definition shown (event : AuditEvent) : AuditEventType * string * option Z * Z * Z * list string :=
  (EventType event, RFC3339_UTC (Timestamp event),
   (if (0 <? Duration event)%Z then Some (Milliseconds (Duration event)) else None), StatusCode event, SchemaID event,
   [Outcome event; ActorID event; ActorType event; AuthMethod event; Role event; TargetType event; TargetID event;
    SourceIP event; UserAgent event; Method event; Path event; Context event; Reason event; Error event;
    BeforeHash event; AfterHash event; RequestID event]).

Definition text_keys : list string :=
  ["outcome"; "suser"; "cs1"; "cs2"; "cs3"; "cs4"; "cs5"; "src"; "requestClientApplication"; "requestMethod"; "request";
   "cs6"; "reason"; "msg"; "oldFileHash"; "fileHash"; "externalId"].

Definition number_text (n : Z) : string := if decide (n = 0%Z) then "" else Itoa n.

Lemma get_number key n label k : missing key k = true ->
  get key ((if decide (n = 0%Z) then [] else [(key, Itoa n); label]) ++ k) = number_text n.
Proof. intros Hk. unfold number_text. case_decide; [by apply get_missing|]. unfold get. simpl. by rewrite String.eqb_refl. Qed.

Lemma get_duration key (b : bool) n label k : missing key k = true ->
  get key ((if b then [(key, Itoa n); label] else []) ++ k) = if b then Itoa n else "".
Proof. intros Hk. destruct b; [|by apply get_missing]. unfold get. simpl. by rewrite String.eqb_refl. Qed.

Lemma get_texts event : map (fun key => get key (extFields event)) text_keys = snd (shown event).
Proof. unfold text_keys, shown. cbn [map snd]. repeat (apply f_equal2; [solve [find_field]|]). reflexivity. Qed.

Lemma get_numbers event :
  get "rt" (extFields event) = RFC3339_UTC (Timestamp event) /\
  get "cn1" (extFields event) = number_text (StatusCode event) /\ get "cn2" (extFields event) = number_text (SchemaID event) /\
  get "cn3" (extFields event) = if (0 <? Duration event)%Z then Itoa (Milliseconds (Duration event)) else "".
Proof. repeat split; find_field; solve [apply get_number; miss | apply get_duration; miss]. Qed.

Lemma Itoa_nonempty n : Itoa n <> "".
Proof.
  unfold Itoa. by destruct n; [|apply NilZero_string_nonempty|].
Qed.

Lemma number_text_inj n m : number_text n = number_text m -> n = m.
Proof.
  unfold number_text. repeat case_decide; subst; intros E; try done.
  - by destruct (Itoa_nonempty m).
  - by destruct (Itoa_nonempty n).
  - by apply Itoa_inj.
Qed.

Lemma extFields_keys event : exists f l, extFields event = f :: l /\ key_ok (fst f) = true /\ forallb (fun f => key_ok (fst f)) l = true.
Proof.
  assert (forallb (fun f => key_ok (fst f)) (extFields event) = true) as H.
  { unfold extFields, unless_empty. rewrite !forallb_app. repeat (apply andb_true_iff; split); try reflexivity; by case_match. }
  unfold extFields in *. eexists _, _. split; [reflexivity|]. apply andb_true_iff in H. done.
Qed.

(** ** The header *)

Lemma replace_lacks c w s : lacks c s = true -> replace_byte c w s = s.
Proof.
  unfold lacks. induction s as [|d s IH]; [done|]. simpl. rewrite negb_orb, andb_true_iff. intros [Hd Hs].
  destruct (Ascii.eqb d c); [done|]. by rewrite IH.
Qed.

Lemma header_text e : cefEscapeHeader (event_text e) = event_text e /\ lacks "|" (event_text e) = true.
Proof. by destruct e. Qed.

Lemma event_text_inj e e' : event_text e = event_text e' -> e = e'.
Proof. destruct e, e'; (reflexivity || discriminate). Qed.

(** ** One line *)

Definition line_end (c : ascii) : bool := bool_decide (c ∈ ["010"; "013"]%char).

Lemma value_line c s : line_end c = true -> lacks c (cefEscapeExtValue s) = true.
Proof.
  intros Hc%bool_decide_eq_true. induction s as [|d s IH]; [done|]. rewrite escape_cons, lacks_app, IH, andb_true_r. unfold escape_char.
  repeat match goal with |- context [if Ascii.eqb d ?x then _ else _] => destruct (Ascii.eqb_spec d x) end;
    set_unfold in Hc; destruct Hc as [-> |[-> |[]]]; try done; unfold lacks; simpl; by destruct (Ascii.eqb_spec d "010"), (Ascii.eqb_spec d "013").
Qed.

Lemma rest_line c l : line_end c = true -> forallb (fun f => lacks c (fst f)) l = true -> lacks c (rest_text l) = true.
Proof.
  intros Hc. induction l as [|f l IH]; [done|]. cbn [forallb]. rewrite andb_true_iff. intros [Hf Hl].
  rewrite rest_text_cons. unfold field_text. rewrite !lacks_app, Hf, value_line, IH by done.
  apply bool_decide_eq_true in Hc. set_unfold in Hc. by destruct Hc as [-> |[-> |[]]].
Qed.

Lemma CEF_line e c : line_end c = true -> exists line, FormatCEF e = line ++ newline /\ lacks c line = true.
Proof.
  intros Hc. destruct (extFields_keys e) as (f & l & El & Hf & Hl). unfold FormatCEF.
  assert (forallb (fun f => lacks c (fst f)) (f :: l) = true) as Hk.
  { rewrite <- El. unfold extFields, unless_empty. apply bool_decide_eq_true in Hc. set_unfold in Hc.
    destruct Hc as [-> |[-> |[]]]; rewrite !forallb_app; repeat (apply andb_true_iff; split); try reflexivity; by case_match. }
  apply andb_true_iff in Hk as [Hkf Hkl].
  exists ("CEF:0|AxonOps|SchemaRegistry|1.0|" ++ cefEscapeHeader (event_text (EventType e)) ++ "|" ++
    cefEscapeHeader (cefDescription e) ++ "|" ++ Itoa (cefSeverity e) ++ "|" ++ fold_left writeExtField (extFields e) "").
  split; [by rewrite !append_assoc|]. rewrite El, written_fields by done. unfold field_text.
  rewrite !lacks_app, Hkf, value_line, rest_line by done.
  unfold cefDescription. apply bool_decide_eq_true in Hc. set_unfold in Hc. destruct Hc as [-> |[-> |[]]];
    rewrite Itoa_lacks by done; by destruct (EventType e).
Qed.

Lemma FormatCEF_inj e e' : FormatCEF e = FormatCEF e' <-> shown e = shown e'.
Proof.
  split.
  - unfold FormatCEF. intros E. rewrite !(proj1 (header_text _)) in E. apply app_string_inj in E.
    apply until_inj in E as [Ht E]; [|apply header_text..]. apply event_text_inj in Ht.
    assert (cefDescription e = cefDescription e') as Hd by (unfold cefDescription; by rewrite Ht). rewrite Hd in E.
    apply app_string_inj, (app_string_inj "|") in E. apply until_inj in E as [_ E]; [|by apply Itoa_lacks..]. apply app_last_inj in E as [E _].
    destruct (extFields_keys e) as (f & l & El & Hf & Hl), (extFields_keys e') as (f' & l' & El' & Hf' & Hl').
    rewrite El, El', !written_fields in E by done.
    assert (extFields e = extFields e') as Ef.
    { rewrite El, El'. unfold field_text in E. rewrite !append_assoc in E.
      apply until_inj in E as [Ek E]; [|by unfold key_ok in *; rewrite !andb_true_iff in *; tauto..].
      apply fields_inj in E as [Ev ->]; [|done..]. f_equal. destruct f, f'. simpl in *. congruence. }
    pose proof (get_texts e) as Hx. rewrite Ef, get_texts in Hx.
    destruct (get_numbers e) as (Hr & H1 & H2 & H3), (get_numbers e') as (Hr' & H1' & H2' & H3'). rewrite Ef in *.
    unfold shown in *. cbn [snd] in Hx. rewrite Ht, <- Hr, Hr', <- Hx. rewrite (number_text_inj (StatusCode e) (StatusCode e')) by congruence.
    rewrite (number_text_inj (SchemaID e) (SchemaID e')) by congruence. repeat f_equal. rewrite H3 in H3'.
    repeat case_match; [f_equal; by apply Itoa_inj|by destruct (Itoa_nonempty (Milliseconds (Duration e)))| |done].
    symmetry in H3'. by destruct (Itoa_nonempty (Milliseconds (Duration e'))).
  - unfold shown. intros E. injection E as Ht Hr Hd Hs Hi ?????????????????. unfold FormatCEF, cefDescription, cefSeverity, extFields.
    assert ((if (0 <? Duration e)%Z then [("cn3", Itoa (Milliseconds (Duration e))); ("cn3Label", "durationMs")] else []) =
      (if (0 <? Duration e')%Z then [("cn3", Itoa (Milliseconds (Duration e'))); ("cn3Label", "durationMs")] else [])) as Hx
      by (repeat case_match; congruence).
    rewrite Hx, Ht, Hr, Hs, Hi. by repeat match goal with H : _ = _ |- _ => rewrite H; clear H end.
Qed.

(** Property C40.  A CEF record is one line, and two records are the same text
    exactly when they show the same: event, time, duration, status, schema and
    every name, address, path, reason and error, whatever characters those hold.
    No value of a request can be mistaken for another field or record. *)
Theorem CEF_identifies e :
  (forall c, line_end c = true -> exists line, FormatCEF e = line ++ newline /\ lacks c line = true) /\
  (forall e', FormatCEF e = FormatCEF e' <-> shown e = shown e').
Proof. split; [apply CEF_line|apply FormatCEF_inj]. Qed.
