(* ===== verification/AuditLog.v ===== *)
(** * Delivery of audit records (internal/auth/audit.go, audit_webhook.go, audit_file.go)

    The logger queues events on a bounded channel that one goroutine drains, and
    the webhook output does the same with the bytes it posts: [channel] is both,
    over what the goroutine does with an element ([Worker]).  Any number of
    goroutines send; a step of [runs] is one of theirs, the close or a move of
    the loop, in any order.  A worker that [Keeps] what it is handed loses nothing
    the channel took, and once it is stopped it ends.  [Logger] and [Webhook] are
    the two workers.  The destinations themselves (files, syslog, HTTP), the five
    seconds [Close] waits at most, logs and metrics are left out. *)
From S2P Require Import Prelude GoStrings GoFloat GoJson StorageTypes AuditRecords.
From Stdlib Require Import Ascii String.

Local Open Scope string_scope.
Local Open Scope list_scope.

(** ** A loop over a bounded channel *)

Inductive phase := Running | Draining | Done.

#[export] Instance phase_eq_dec : EqDecision phase.
Proof. solve_decision. Defined.

(** What the goroutine does: with an element, at a tick of its ticker if it has
    one, and when nothing is left. *)
Class Worker (A S : Type) := MkWorker {
  handle : A -> S -> S;
  tick : option (S -> S);
  finish : S -> S
}.

Record channel (A S : Type) := MkChannel {
  capacity : nat;
  ch : list A;          (* what is buffered *)
  stopCh : bool;        (* whether it is closed *)
  loop : phase;
  state : S
}.
Arguments MkChannel {A S}.
Arguments capacity {A S}.
Arguments ch {A S}.
Arguments stopCh {A S}.
Arguments loop {A S}.
Arguments state {A S}.

(** The moves of the loop.  A [select] with several cases ready takes any of them. *)
Inductive move := Receive | Tick | SeeStop | Finish.

Section channel.
Context {A S : Type} {worker : Worker A S}.
Implicit Types c : channel A S.

Definition new_channel (capacity : nat) (s : S) : channel A S := MkChannel capacity [] false Running s.

Definition full c : bool := (capacity c <=? List.length (ch c))%nat.

(** [select { case ch <- x: default: }]. *)
Definition offer (x : A) c : channel A S := if full c then c else {| c with ch := ch c ++ [x] |}.

(** [close(stopCh)]. *)
Definition stop c : channel A S := {| c with stopCh := true |}.

(** [None] is a move the loop cannot make. *)
Definition loop_step (m : move) c : option (channel A S) :=
  match m, loop c with
  | _, Done => None
  | Receive, _ =>
      match ch c with
      | [] => None
      | x :: rest => Some {| c with ch := rest; state := handle x (state c) |}
      end
  | Tick, Running => match tick with Some f => Some {| c with state := f (state c) |} | None => None end
  | SeeStop, Running => if stopCh c then Some {| c with loop := Draining |} else None
  | Finish, Draining => match ch c with [] => Some {| c with loop := Done; state := finish (state c) |} | _ => None end
  | _, _ => None
  end.

(** A run: what was taken from the senders and what was dropped, in order. *)
Inductive runs (c0 : channel A S) : list A -> list A -> channel A S -> Prop :=
  | runs_start : runs c0 [] [] c0
  | runs_offer taken dropped c x :
      runs c0 taken dropped c ->
      runs c0 (if full c then taken else taken ++ [x]) (if full c then dropped ++ [x] else dropped) (offer x c)
  | runs_stop taken dropped c : runs c0 taken dropped c -> runs c0 taken dropped (stop c)
  | runs_loop taken dropped c m c' :
      runs c0 taken dropped c -> loop_step m c = Some c' -> runs c0 taken dropped c'.

(** Moves of the loop alone; ticks are not counted. *)
Inductive loops : nat -> channel A S -> channel A S -> Prop :=
  | loops_none c : loops 0 c c
  | loops_tick n c c1 c2 : loop_step Tick c = Some c1 -> loops n c1 c2 -> loops n c c2
  | loops_move n m c c1 c2 : m <> Tick -> loop_step m c = Some c1 -> loops n c1 c2 -> loops (Datatypes.S n) c c2.

(** How many moves are left to a loop that is told to stop. *)
Definition moves_left c : nat :=
  match loop c with Running => List.length (ch c) + 2 | Draining => List.length (ch c) + 1 | Done => 0 end.

(** What a run guarantees, [holds l s] saying that the state [s] accounts for the
    elements [l] and [ended s] that nothing waits in it: what was taken is what
    the loop accounts for and then the buffer; nothing is dropped before as much
    was taken as the buffer holds; and a loop that is stopped can move until it
    has ended, whatever the ticker does, with everything that was taken. *)
Definition delivers (holds : list A -> S -> Prop) (ended : S -> Prop) (bound : nat) (taken dropped : list A) c : Prop :=
  (exists handled, holds handled (state c) /\ taken = handled ++ ch c) /\
  (List.length (ch c) <= bound)%nat /\
  (dropped <> [] -> (bound <= List.length taken)%nat) /\
  (stopCh c = true -> loop c <> Done -> forall n c', loops n c c' ->
     (n + moves_left c' = moves_left c)%nat /\
     (loop c' <> Done -> exists m c2, m <> Tick /\ loop_step m c' = Some c2) /\
     (loop c' = Done -> holds taken (state c') /\ ended (state c'))).

(** What the worker must keep for that. *)
Class Keeps (holds : list A -> S -> Prop) (ended : S -> Prop) := {
  keeps_handle l x s : holds l s -> holds (l ++ [x]) (handle x s);
  keeps_tick l f s : tick = Some f -> holds l s -> holds l (f s);
  keeps_finish l s : holds l s -> holds l (finish s) /\ ended (finish s)
}.

Section keeps.
Context {holds : list A -> S -> Prop} {ended : S -> Prop} {keeps : Keeps holds ended}.

(** What every move keeps. *)
Definition accounts (taken : list A) c : Prop :=
  (exists handled, holds handled (state c) /\ taken = handled ++ ch c) /\
  (loop c = Draining -> stopCh c = true).

Lemma loop_step_accounts m c c' taken : loop_step m c = Some c' -> accounts taken c ->
  accounts taken c' /\ capacity c' = capacity c /\ stopCh c' = stopCh c /\ (List.length (ch c') <= List.length (ch c))%nat /\
  (loop c' = Done -> ch c' = [] /\ ended (state c')).
Proof.
  unfold loop_step, accounts. intros Hs ((l & Hl & ->) & Hd).
  destruct m, (loop c) eqn:El; try done; repeat case_match; simplify_eq/=; rewrite ?El; (split; [|repeat split; try done; try lia]).
  - split; [|done]. exists (l ++ [a]). split; [by apply keeps_handle|by rewrite <- app_assoc].
  - split; [|done]. exists (l ++ [a]). split; [by apply keeps_handle|by rewrite <- app_assoc].
  - split; [|done]. exists l. split; [by eapply keeps_tick|done].
  - split; [|done]. by exists l.
  - split; [|done]. exists l. by destruct (keeps_finish l _ Hl).
  - by destruct (keeps_finish l _ Hl).
Qed.

Lemma offer_accounts x c taken : accounts taken c ->
  accounts (if full c then taken else taken ++ [x]) (offer x c).
Proof.
  unfold accounts, offer. intros ((l & Hl & ->) & Hd). destruct (full c); simpl; (split; [|done]).
  - by exists l.
  - exists l. by rewrite <- app_assoc.
Qed.

Lemma loop_step_moves m c c' : m <> Tick -> loop_step m c = Some c' -> moves_left c = Datatypes.S (moves_left c').
Proof.
  unfold loop_step, moves_left. intros Hm Hs.
  destruct m, (loop c) eqn:El; try done; repeat case_match; simplify_eq/=; rewrite ?El in *; simplify_eq/=; try lia; congruence.
Qed.

Lemma loop_step_tick c c' : loop_step Tick c = Some c' -> moves_left c' = moves_left c /\ loop c' <> Done.
Proof. unfold loop_step, moves_left. intros Hs. destruct (loop c) eqn:El; try done. repeat case_match; simplify_eq/=; by rewrite ?El. Qed.

(** A loop that is stopped has a move. *)
Lemma loop_step_progress c : stopCh c = true -> loop c <> Done -> exists m c2, m <> Tick /\ loop_step m c = Some c2.
Proof.
  intros Hs Hd. unfold loop_step. destruct (loop c) eqn:El; [|destruct (ch c) eqn:Ec|done].
  - exists SeeStop. by eexists; rewrite Hs.
  - exists Finish. by eexists.
  - exists Receive. by eexists.
Qed.

Lemma loops_end n c c' taken : loops n c c' -> accounts taken c -> stopCh c = true ->
  accounts taken c' /\ stopCh c' = true /\ (n + moves_left c' = moves_left c)%nat /\
  ((loop c = Done -> ch c = [] /\ ended (state c)) -> loop c' = Done -> ch c' = [] /\ ended (state c')).
Proof.
  intros Hl. induction Hl as [c|n c c1 c2 Ht Hl IH|n m c c1 c2 Hm Hs Hl IH]; intros Ha Hstop.
  - by do 3 (split; [done|]).
  - destruct (loop_step_accounts _ _ _ taken Ht Ha) as (Ha1 & _ & Hs1 & _ & Hd1), (loop_step_tick _ _ Ht) as [<- _].
    destruct IH as (? & ? & ? & Hd); [done|congruence|]. eauto.
  - destruct (loop_step_accounts _ _ _ taken Hs Ha) as (Ha1 & _ & Hs1 & _ & Hd1). pose proof (loop_step_moves _ _ _ Hm Hs).
    destruct IH as (? & ? & ? & Hd); [done|congruence|]. do 2 (split; [done|]). split; [lia|auto].
Qed.

Lemma runs_accounts bound s taken dropped c : holds [] s -> runs (new_channel bound s) taken dropped c ->
  accounts taken c /\ capacity c = bound /\ (List.length (ch c) <= bound)%nat /\ (dropped <> [] -> (bound <= List.length taken)%nat).
Proof.
  intros H0 Hr. induction Hr as [|taken dropped c x Hr IH|taken dropped c Hr IH|taken dropped c m c' Hr IH Hs].
  - unfold accounts. simpl. repeat split; try done; [|lia]. by exists [].
  - destruct IH as (Ha & Hc & Hl & Hdr). pose proof (offer_accounts x c taken Ha) as Ha'.
    destruct Ha as ((l & _ & El) & _). pose proof (f_equal (@List.length A) El) as Hlen. rewrite length_app in Hlen.
    unfold offer in *. destruct (full c) eqn:Ef; unfold full in Ef; simpl; rewrite ?length_app.
    + apply Nat.leb_le in Ef. repeat split; try apply Ha'; try done. lia.
    + apply Nat.leb_gt in Ef. repeat split; try apply Ha'; try done; simpl; [lia|]. intros ?%Hdr. lia.
  - destruct IH as ((Ha & Hd) & Hc & Hl & Hdr). by repeat split.
  - destruct IH as (Ha & Hc & Hl & Hdr). destruct (loop_step_accounts _ _ _ taken Hs Ha) as (Ha' & Hc' & _ & Hl' & _).
    repeat split; try apply Ha'; try done; [congruence|lia].
Qed.

Lemma runs_deliver bound s taken dropped c : holds [] s -> runs (new_channel bound s) taken dropped c ->
  delivers holds ended bound taken dropped c.
Proof.
  intros H0 Hr. destruct (runs_accounts _ _ _ _ _ H0 Hr) as (Ha & _ & Hl & Hdr).
  split; [apply Ha|]. do 2 (split; [done|]). intros Hs Hd n c' Hn.
  destruct (loops_end _ _ _ taken Hn Ha Hs) as (((l & Hh & El) & _) & Hs' & Hm & He).
  split; [done|]. split; [by intros; apply loop_step_progress|]. intros Hd'. destruct He as [He ?]; [done..|].
  rewrite He, app_nil_r in El. by rewrite El.
Qed.
End keeps.
End channel.

(** ** Where records go *)

(** [config.AuditConfig] and its parts; certificates and what only the
    destinations read are left out. *)
Record AuditStdoutConfig := MkStdoutConfig { stdout_Enabled : bool; stdout_FormatType : string }.
Record AuditFileConfig := MkFileConfig {
  file_Enabled : bool; file_Path : string; file_FormatType : string;
  MaxSizeMB : Z; MaxBackups : Z; MaxAgeDays : Z; Compress : option bool
}.
Record AuditSyslogConfig := MkSyslogConfig {
  syslog_Enabled : bool; Network : string; Address : string; AppName : string; Facility : string; syslog_FormatType : string
}.
Record AuditWebhookConfig := MkWebhookConfig {
  webhook_Enabled : bool; URL : string; webhook_FormatType : string; BatchSize : Z; MaxRetries : Z; webhook_BufferSize : Z
}.
Record AuditConfig := MkAuditConfig {
  Enabled : bool; LogFile : string; Events : list string; BufferSize : Z;
  Stdout : AuditStdoutConfig; File : AuditFileConfig; Syslog : AuditSyslogConfig; Webhook : AuditWebhookConfig
}.

(** The outputs, with what they are opened with. *)
Record FileOutput := MkFileOutput { Filename : string; maxSize : Z; maxBackups : Z; maxAge : Z; compress : bool }.
Record SyslogOutput := MkSyslogOutput { network : string; address : string; appName : string; facility : string }.
Record WebhookOutput := MkWebhookOutput { url : string; batchSize : Z; maxRetries : Z; bufferSize : Z }.
Inductive AuditOutput :=
  | StdoutOutput
  | WriterOutput (path : string)
  | ToFile (o : FileOutput)
  | ToSyslog (o : SyslogOutput)
  | ToWebhook (o : WebhookOutput).

(** What starting the outputs answers: an error, or nothing.  [Durations] is
    what reading the webhook's two durations does. *)
Class Environment := MkEnvironment {
  OpenFile : string -> option string;
  TLSConfig : AuditSyslogConfig -> option string;
  Dial : SyslogOutput -> option string;
  Durations : AuditWebhookConfig -> option string
}.

Definition positive_or (n default : Z) : Z := if (n <=? 0)%Z then default else n.

Definition NewFileOutput (cfg : AuditFileConfig) : string + FileOutput :=
  if decide (file_Path cfg = ""%string) then inl "audit file path is required"%string
  else inr (MkFileOutput (file_Path cfg) (positive_or (MaxSizeMB cfg) 100) (positive_or (MaxBackups cfg) 5)
              (positive_or (MaxAgeDays cfg) 30) (default true (Compress cfg))).

Definition parseFacility (name : string) : string :=
  if bool_decide (name ∈ ["kern"; "user"; "mail"; "daemon"; "auth"; "syslog"; "lpr"; "news"; "uucp"; "cron"; "authpriv"; "ftp";
                          "local1"; "local2"; "local3"; "local4"; "local5"; "local6"; "local7"]%string)
  then name else "local0".

Definition NewSyslogOutput `{Environment} (cfg : AuditSyslogConfig) : string + SyslogOutput :=
  if decide (Address cfg = ""%string) then inl "audit syslog address is required"%string
  else
    let o := MkSyslogOutput (or_else (Network cfg) "tcp") (Address cfg) (or_else (AppName cfg) "schema-registry")
               (parseFacility (Facility cfg)) in
    match (if decide (network o = "tcp+tls"%string) then TLSConfig cfg else None) with
    | Some e => inl ("syslog TLS config: " ++ e)%string
    | None =>
        match Dial o with
        | Some e => inl ("syslog dial " ++ network o ++ "://" ++ Address cfg ++ ": " ++ e)%string
        | None => inr o
        end
    end.

Definition NewWebhookOutput `{Environment} (cfg : AuditWebhookConfig) : string + WebhookOutput :=
  if decide (URL cfg = ""%string) then inl "audit webhook URL is required"%string
  else
    match Durations cfg with
    | Some e => inl e
    | None => inr (MkWebhookOutput (URL cfg) (positive_or (BatchSize cfg) 100) (positive_or (MaxRetries cfg) 3)
                     (positive_or (webhook_BufferSize cfg) 10000))
    end.

Definition normalizeFormat (f : string) : string := if decide (f = "cef"%string) then "cef" else "json".

(** An output that is enabled, before the ones after it are opened. *)
Definition add_output (enabled : bool) (opened : string + AuditOutput) (format : string)
    (rest : string + list (AuditOutput * string)) : string + list (AuditOutput * string) :=
  if enabled then
    match opened with
    | inl e => inl e
    | inr o => match rest with inl e => inl e | inr l => inr ((o, normalizeFormat format) :: l) end
    end
  else rest.

Definition in_output {O} (f : O -> AuditOutput) (o : string + O) : string + AuditOutput :=
  match o with inl e => inl e | inr o => inr (f o) end.

Definition openOutputs `{Environment} (cfg : AuditConfig) : string + list (AuditOutput * string) :=
  if stdout_Enabled (Stdout cfg) || file_Enabled (File cfg) || syslog_Enabled (Syslog cfg) || webhook_Enabled (Webhook cfg) then
    add_output (stdout_Enabled (Stdout cfg)) (inr StdoutOutput) (stdout_FormatType (Stdout cfg))
      (add_output (file_Enabled (File cfg)) (in_output ToFile (NewFileOutput (File cfg))) (file_FormatType (File cfg))
        (add_output (syslog_Enabled (Syslog cfg)) (in_output ToSyslog (NewSyslogOutput (Syslog cfg))) (syslog_FormatType (Syslog cfg))
          (add_output (webhook_Enabled (Webhook cfg)) (in_output ToWebhook (NewWebhookOutput (Webhook cfg)))
            (webhook_FormatType (Webhook cfg)) (inr []))))
  else if negb (bool_decide (LogFile cfg = ""%string)) then
    match OpenFile (LogFile cfg) with
    | Some e => inl e
    | None => inr [(WriterOutput (LogFile cfg), "json"%string)]
    end
  else inr [(StdoutOutput, "json"%string)].

(** ** The logger *)

Module Logger.

(** What was written: the output and the bytes of each [Write]. *)
Definition writes : Type := list (AuditOutput * string).

Section Logger.
(** The offset of the zone the events' times are in. *)
Variable offset : Z.

Fixpoint writeEvent (outputs : list (AuditOutput * string)) (event : AuditEvent) : writes :=
  match outputs with
  | [] => []
  | (o, format) :: rest =>
      if decide (format = "cef"%string) then (o, FormatCEF event) :: writeEvent rest event
      else
        match FormatJSON offset event with
        | Some data => (o, data) :: writeEvent rest event
        | None => []
        end
  end.

Definition drainLoop (outputs : list (AuditOutput * string)) : Worker AuditEvent writes :=
  MkWorker _ _ (fun event written => written ++ writeEvent outputs event) None (fun written => written).

(** [AuditLogger] with the queue [NewAuditLogger] starts. *)
Record AuditLogger := MkLogger {
  enabled : bool;
  outputs : list (AuditOutput * string);
  enabledEvents : list string;
  queue : channel AuditEvent writes
}.

Definition NewAuditLogger `{Environment} (cfg : AuditConfig) : string + AuditLogger :=
  match openOutputs cfg with
  | inl e => inl e
  | inr outputs =>
      inr (MkLogger (Enabled cfg) outputs
             (if decide (Events cfg = []) then map event_text defaultEvents else Events cfg)
             (new_channel (Z.to_nat (positive_or (BufferSize cfg) 10000)) []))
  end.

Definition wanted (al : AuditLogger) (event : AuditEvent) : bool :=
  enabled al && bool_decide (event_text (EventType event) ∈ enabledEvents al).

Definition Log (event : AuditEvent) (al : AuditLogger) : AuditLogger :=
  if wanted al event then {| al with queue := offer event (queue al) |} else al.

(** [Close], which closes the channel once. *)
Definition Close (al : AuditLogger) : AuditLogger := {| al with queue := stop (queue al) |}.

Definition drain_step (m : move) (al : AuditLogger) : option AuditLogger :=
  q ← loop_step (worker := drainLoop (outputs al)) m (queue al); Some {| al with queue := q |}.

(** A run of the logger: the events [Log] was called with, and those of them the
    full buffer dropped. *)
Inductive logs (al0 : AuditLogger) : list AuditEvent -> list AuditEvent -> AuditLogger -> Prop :=
  | logs_start : logs al0 [] [] al0
  | logs_log logged dropped al event :
      logs al0 logged dropped al ->
      logs al0 (logged ++ [event])
        (if wanted al event && full (queue al) then dropped ++ [event] else dropped) (Log event al)
  | logs_close logged dropped al : logs al0 logged dropped al -> logs al0 logged dropped (Close al)
  | logs_drain logged dropped al m al' :
      logs al0 logged dropped al -> drain_step m al = Some al' -> logs al0 logged dropped al'.

(** ** What is written of what is logged *)

Definition written_are (outputs : list (AuditOutput * string)) (events : list AuditEvent) (written : writes) : Prop :=
  written = List.concat (map (writeEvent outputs) events).

#[export] Instance drainLoop_keeps outputs :
  Keeps (worker := drainLoop outputs) (written_are outputs) (fun _ => True).
Proof.
  unfold written_are. split; simpl; [|done|done].
  intros l x s ->. by rewrite map_app, concat_app; simpl; rewrite app_nil_r.
Qed.

Lemma logs_queue al0 logged dropped al : logs al0 logged dropped al ->
  enabled al = enabled al0 /\ outputs al = outputs al0 /\ enabledEvents al = enabledEvents al0 /\
  exists taken, runs (worker := drainLoop (outputs al0)) (queue al0) taken dropped (queue al) /\
    taken `sublist_of` List.filter (wanted al0) logged /\ List.filter (wanted al0) logged ≡ₚ taken ++ dropped.
Proof.
  intros Hr. induction Hr as [|logged dropped al event Hr IH|logged dropped al Hr IH|logged dropped al m al' Hr IH Hs].
  - repeat split. exists []. repeat split; [apply runs_start|done|done].
  - destruct IH as (He & Ho & Hev & taken & Hq & Hsub & Hp). rewrite List.filter_app. simpl.
    unfold Log. assert (wanted al event = wanted al0 event) as -> by (unfold wanted; by rewrite He, Hev).
    destruct (wanted al0 event) eqn:Ew; simpl.
    + repeat split; [done..|]. pose proof (runs_offer _ _ _ _ event Hq) as Hq'. eexists. split; [exact Hq'|].
      destruct (full (queue al)); split.
      * by apply sublist_inserts_r.
      * by rewrite Hp, app_assoc.
      * by apply sublist_app.
      * rewrite Hp, <- !app_assoc. by rewrite (Permutation_app_comm dropped [event]).
    + repeat split; [done..|]. exists taken. by rewrite app_nil_r.
  - destruct IH as (He & Ho & Hev & taken & Hq & Hsub). repeat split; [done..|].
    exists taken. split; [by apply runs_stop|done].
  - destruct IH as (He & Ho & Hev & taken & Hq & Hsub). unfold drain_step in Hs. rewrite Ho in Hs.
    apply bind_Some in Hs as (q & Hm & [= <-]). simpl.
    repeat split; [done..|]. exists taken. split; [by eapply runs_loop|done].
Qed.

Lemma openOutputs_some `{Environment} cfg outs : openOutputs cfg = inr outs -> outs <> [].
Proof.
  unfold openOutputs, add_output. intros Ho. repeat case_match; simplify_eq/=; done.
Qed.

Lemma writeEvent_all outs event : FormatJSON offset event <> None -> map fst (writeEvent outs event) = map fst outs.
Proof.
  intros Hj. induction outs as [|[o f] outs IH]; [done|]. simpl. case_decide; simpl; [by rewrite IH|].
  destruct (FormatJSON offset event); simpl; [by rewrite IH|done].
Qed.
End Logger.

(** Property C39.  Delivery of the audit trail: for any configuration the logger
    starts with, any events logged by any goroutines and any interleaving with
    the drain loop and [Close], the enabled events are, up to the order of the
    drops, those the buffer took, in order, and those it dropped.  What was
    written so far is what each output gets for the first events taken, in their
    order, the rest being in the buffer, which stays within its size; none is
    dropped before that many were taken.  Once [Close] stops it and nothing more
    is sent, the loop is never stuck and ends within what is buffered plus two
    moves, with what [writeEvent] makes of every event it took.  There is always
    an output, and an event that has a JSON form is written to each of them. *)
Theorem Log_delivers (offset : Z) `{Environment} (cfg : AuditConfig) (al0 al : AuditLogger) (logged dropped : list AuditEvent) :
  NewAuditLogger cfg = inr al0 ->
  logs offset al0 logged dropped al ->
  (exists taken,
     taken `sublist_of` List.filter (wanted al0) logged /\
     List.filter (wanted al0) logged ≡ₚ taken ++ dropped /\
     delivers (worker := drainLoop offset (outputs al0)) (written_are offset (outputs al0)) (fun _ => True)
       (Z.to_nat (positive_or (BufferSize cfg) 10000)) taken dropped (queue al)) /\
  outputs al0 <> [] /\
  (forall event, FormatJSON offset event <> None -> map fst (writeEvent offset (outputs al0) event) = map fst (outputs al0)).
Proof.
  intros Hn Hl. destruct (logs_queue _ _ _ _ _ Hl) as (_ & _ & _ & taken & Hr & Hsub & Hp).
  unfold NewAuditLogger in Hn. destruct (openOutputs cfg) as [|outs] eqn:Eo; [done|]. injection Hn as <-. simpl in *.
  repeat split; [|by eapply openOutputs_some|intros event; apply writeEvent_all].
  exists taken. do 2 (split; [done|]). by eapply runs_deliver; [|exact Hr].
Qed.

Definition default_config : AuditConfig :=
  MkAuditConfig true "" [] 1 (MkStdoutConfig true "cef") (MkFileConfig false "" "" 0 0 0 None)
    (MkSyslogConfig false "" "" "" "" "") (MkWebhookConfig false "" "" 0 0 0).
Definition no_errors : Environment := MkEnvironment (fun _ => None) (fun _ => None) (fun _ => None) (fun _ => None).

(** Two events for a buffer of one: the second is dropped, the first written. *)
Lemma Log_delivers_witness :
  let e := zeroEvent AuditEventSchemaRegister in
  let al0 := MkLogger true [(StdoutOutput, "cef"%string)] (map event_text defaultEvents) (new_channel 1 []) in
  exists al, logs 0 al0 [e; e] [e] al /\ stopCh (queue al) = true /\
    exists taken, [e; e] ≡ₚ taken ++ [e] /\ forall n q, loops (worker := drainLoop 0 (outputs al0)) n (queue al) q ->
      (n + moves_left q = 3)%nat /\ (loop q = Done -> state q = List.concat (map (writeEvent 0 (outputs al0)) taken)).
Proof.
  intros e al0. exists (Close (Log e (Log e al0))).
  assert (logs 0 al0 [e; e] [e] (Close (Log e (Log e al0)))) as Hl.
  { apply logs_close. change [e; e] with ([e] ++ [e]).
    apply (logs_log 0 al0 [e] [] (Log e al0) e), (logs_log 0 al0 [] [] al0 e), logs_start. }
  destruct (Log_delivers 0 (H := no_errors) default_config al0 _ _ _ eq_refl Hl) as ((taken & _ & Hp & Hd) & _).
  split; [exact Hl|]. split; [done|]. exists taken. split; [exact Hp|]. intros n q Hn.
  destruct Hd as (_ & _ & _ & Hd). destruct (Hd eq_refl ltac:(done) n q Hn) as (Hm & _ & Hf).
  split; [exact Hm|]. intros Hq. apply (Hf Hq).
Defined.
End Logger.

(** ** The webhook *)

Module Webhook.

(** The batch that grows and the ones handed to [sendBatch]. *)
Record batches := MkBatches { batch : list string; sent : list (list string) }.

Definition flush (b : batches) : batches := match batch b with [] => b | _ => MkBatches [] (sent b ++ [batch b]) end.

(** [append], and [sendBatch] once the batch is full. *)
Definition add (size : Z) (data : string) (b : batches) : batches :=
  let b := {| b with batch := batch b ++ [data] |} in
  if (size <=? Z.of_nat (List.length (batch b)))%Z then flush b else b.

Definition flushLoop (w : WebhookOutput) : Worker string batches := MkWorker _ _ (add (batchSize w)) (Some flush) flush.

(** The channel [NewWebhookOutput] makes; [Write] is [offer]. *)
Definition webhook_channel (w : WebhookOutput) : channel string batches :=
  new_channel (Z.to_nat (bufferSize w)) (MkBatches [] []).

(** [sendBatch]: what became of the batch, and how long each pause was, in
    nanoseconds.  [reply] is the status the n-th request is answered, [None] an
    error; [created] is whether the URL makes a request. *)
Inductive sent_result := Delivered | NotCreated | Refused (status : Z) | Exhausted.

Definition millisecond : Z := 1000000.

Definition backoff (attempt : Z) : Z :=
  let shift := if (attempt <? 0)%Z then 0%Z else attempt in
  let shift := if (30 <? shift)%Z then 30%Z else shift in
  let d := (Z.shiftl 1 shift * (100 * millisecond))%Z in
  if (5000 * millisecond <? d)%Z then (5000 * millisecond)%Z else d.

Definition success (status : option Z) : bool :=
  match status with Some code => (200 <=? code)%Z && (code <? 300)%Z | None => false end.
Definition retriable (status : option Z) : bool :=
  match status with Some code => (500 <=? code)%Z | None => true end.

Fixpoint attempts (n : nat) (attempt : Z) (reply : Z -> option Z) : list Z * sent_result :=
  match n with
  | O => ([], Exhausted)
  | Datatypes.S n =>
      if success (reply attempt) then ([], Delivered)
      else if retriable (reply attempt) then
        let '(pauses, result) := attempts n (attempt + 1) reply in (backoff attempt :: pauses, result)
      else ([], Refused (default 0%Z (reply attempt)))
  end.

Definition sendBatch (w : WebhookOutput) (created : bool) (reply : Z -> option Z) : list Z * sent_result :=
  if (maxRetries w <=? 0)%Z then ([], Exhausted)
  else if created then attempts (Z.to_nat (maxRetries w)) 0 reply else ([], NotCreated).

(** ** What is sent of what is written *)

Definition sent_are (w : WebhookOutput) (l : list string) (b : batches) : Prop :=
  List.concat (sent b) ++ batch b = l /\ (Z.of_nat (List.length (batch b)) < batchSize w)%Z /\
  Forall (fun p => p <> [] /\ (Z.of_nat (List.length p) <= batchSize w)%Z) (sent b).

Lemma flush_sent w l b : (0 < batchSize w)%Z -> List.concat (sent b) ++ batch b = l ->
  (Z.of_nat (List.length (batch b)) <= batchSize w)%Z ->
  Forall (fun p => p <> [] /\ (Z.of_nat (List.length p) <= batchSize w)%Z) (sent b) ->
  sent_are w l (flush b) /\ batch (flush b) = [].
Proof.
  unfold sent_are, flush. intros Hw Hl Hn Hs. destruct (batch b) as [|x rest] eqn:Eb; simpl.
  - rewrite Eb. simpl. repeat split; done.
  - rewrite concat_app, app_nil_r. simpl. rewrite app_nil_r. repeat split; [done|done|].
    apply Forall_app. by repeat constructor.
Qed.

Lemma flushLoop_keeps w : (0 < batchSize w)%Z ->
  Keeps (worker := flushLoop w) (sent_are w) (fun b => batch b = []).
Proof.
  intros Hw. split; simpl.
  - intros l x b (Hl & Hn & Hs). unfold add. case_match eqn:E; simpl in *; rewrite length_app in E; simpl in E.
    + apply flush_sent; simpl; rewrite ?length_app; simpl; try done; [|lia]. by rewrite app_assoc, Hl.
    + unfold sent_are. simpl. rewrite app_assoc, Hl, length_app. simpl. apply Z.leb_gt in E. by repeat split.
  - intros l f b [= <-] (Hl & Hn & Hs). apply flush_sent; try done. lia.
  - intros l b (Hl & Hn & Hs). apply flush_sent; try done. lia.
Qed.

Lemma backoff_doubles attempt : (0 <= attempt)%Z ->
  backoff attempt = Z.min (100 * 2 ^ attempt * millisecond) (5000 * millisecond).
Proof.
  intros Ha. unfold backoff. rewrite (proj2 (Z.ltb_ge attempt 0)) by lia. rewrite Z.shiftl_1_l. unfold millisecond.
  destruct (Z.ltb_spec 30 attempt) as [Hb|Hb]; [|case_match; lia].
  pose proof (Z.pow_le_mono_r 2 30 attempt ltac:(lia) ltac:(lia)) as Hp. simpl in *. lia.
Qed.

Lemma attempts_spec n attempt reply pauses result : attempts n attempt reply = (pauses, result) ->
  let k := List.length pauses in
  (k <= n)%nat /\
  pauses = map (fun j => backoff (attempt + Z.of_nat j)%Z) (seq 0 k) /\
  (forall j, (j < k)%nat -> success (reply (attempt + Z.of_nat j)%Z) = false /\ retriable (reply (attempt + Z.of_nat j)%Z) = true) /\
  match result with
  | Delivered => (k < n)%nat /\ success (reply (attempt + Z.of_nat k)%Z) = true
  | Refused status => (k < n)%nat /\ reply (attempt + Z.of_nat k)%Z = Some status /\ (status < 500)%Z /\
                      success (Some status) = false
  | Exhausted => k = n
  | NotCreated => False
  end.
Proof.
  revert attempt pauses. induction n as [|n IH]; intros attempt pauses Ha; simpl in Ha.
  - injection Ha as <- <-. simpl. repeat split; [lia|intros; lia..].
  - destruct (success (reply attempt)) eqn:Es; [|destruct (retriable (reply attempt)) eqn:Er].
    + injection Ha as <- <-. simpl. rewrite Z.add_0_r. repeat split; try done; [lia|intros; lia..|lia].
    + destruct (attempts n (attempt + 1) reply) as [rest r] eqn:E. injection Ha as <- <-.
      destruct (IH _ _ E) as (Hk & Hp & Hj & Hr). simpl.
      assert (forall j, (attempt + 1 + Z.of_nat j = attempt + Z.of_nat (Datatypes.S j))%Z) as Hshift by lia.
      repeat setoid_rewrite Hshift in Hj. rewrite Hshift in Hr. repeat split; [lia| | | |].
      * rewrite Z.add_0_r. f_equal. rewrite Hp at 1. rewrite <- seq_shift, map_map.
        apply map_ext. intros j. by rewrite Hshift.
      * destruct j as [|j]; [by rewrite Z.add_0_r|]. apply Hj. lia.
      * destruct j as [|j]; [by rewrite Z.add_0_r|]. apply Hj. lia.
      * destruct r; [|done| |lia]; (split; [lia|apply Hr]).
    + injection Ha as <- <-. simpl. rewrite Z.add_0_r. unfold retriable in Er. destruct (reply attempt) as [status|] eqn:El; [|done].
      apply Z.leb_gt in Er. repeat split; try done; [lia|intros; lia..|lia].
Qed.

Lemma NewWebhookOutput_positive `{Environment} cfg w : NewWebhookOutput cfg = inr w ->
  (0 < batchSize w)%Z /\ (0 < maxRetries w)%Z /\ (0 < bufferSize w)%Z.
Proof.
  unfold NewWebhookOutput. intros Hn. repeat case_match; simplify_eq/=. unfold positive_or. repeat case_match; lia.
Qed.

(** Batching of the webhook: in any interleaving of [Write]s, ticks
    and close, the records written are those in the batches sent, in order, then
    those waiting, then those buffered; every batch sent has at least one record
    and at most the batch size, and fewer than that wait; the buffer keeps its
    bound and drops nothing before it took that many.  Once it is closed and
    nothing more is written, the loop ends within what is buffered plus two moves
    and the ticks, and then everything it took was sent. *)
Theorem batches_deliver `{Environment} (cfg : AuditWebhookConfig) (w : WebhookOutput) (taken dropped : list string)
    (c : channel string batches) :
  NewWebhookOutput cfg = inr w ->
  runs (worker := flushLoop w) (webhook_channel w) taken dropped c ->
  delivers (worker := flushLoop w) (sent_are w) (fun b => batch b = []) (Z.to_nat (bufferSize w)) taken dropped c.
Proof.
  intros Hn Hr. destruct (NewWebhookOutput_positive _ _ Hn) as (Hb & _).
  pose proof (flushLoop_keeps w Hb). eapply runs_deliver; [|exact Hr]. unfold sent_are. simpl. by repeat split.
Qed.

Definition webhook_config : AuditWebhookConfig := MkWebhookConfig true "http://h" "" 2 0 3.
Definition webhook : WebhookOutput := MkWebhookOutput "http://h" 2 3 3.

Lemma batches_deliver_witness :
  exists c, runs (worker := flushLoop webhook) (webhook_channel webhook) ["a"; "b"; "c"]%string [] c /\ stopCh c = true /\
    forall n c', loops (worker := flushLoop webhook) n c c' ->
      (n + moves_left c' = 3)%nat /\ (loop c' = Done -> List.concat (sent (state c')) = ["a"; "b"; "c"]%string).
Proof.
  pose (c3 := offer "c"%string (offer "b"%string (offer "a"%string (webhook_channel webhook)))).
  pose (c4 := MkChannel 3 ["b"; "c"]%string false Running (MkBatches ["a"%string] [])).
  pose (c5 := MkChannel 3 ["c"]%string false Running (MkBatches [] [["a"; "b"]%string])).
  assert (runs (worker := flushLoop webhook) (webhook_channel webhook) ["a"; "b"; "c"]%string [] (stop c5)) as Hr.
  { apply runs_stop, (runs_loop _ _ _ c4 Receive); [|reflexivity]. apply (runs_loop _ _ _ c3 Receive); [|reflexivity].
    pose proof (runs_offer _ _ _ _ "c"%string (runs_offer _ _ _ _ "b"%string (runs_offer _ _ _ _ "a"%string
      (runs_start (worker := flushLoop webhook) (webhook_channel webhook))))) as H. exact H. }
  exists (stop c5). split; [exact Hr|]. split; [reflexivity|]. intros n c' Hn.
  destruct (batches_deliver (H := Logger.no_errors) webhook_config webhook _ _ _ eq_refl Hr) as (_ & _ & _ & Hd).
  destruct (Hd eq_refl ltac:(done) n c' Hn) as (Hm & _ & Hf). split; [exact Hm|]. intros Hq.
  destruct (Hf Hq) as ((Hl & _) & He). by rewrite He, app_nil_r in Hl.
Defined.

(** What becomes of a batch: it is posted until a request is
    answered with success, or with a status that is neither success nor a server
    error, or as often as the configuration says; only errors and server errors
    are tried again, after pauses that double from 100 ms up to 5 s.  A batch
    counts as delivered exactly when the last request of these succeeded. *)
Theorem sendBatch_spec `{Environment} (cfg : AuditWebhookConfig) (w : WebhookOutput) (created : bool) (reply : Z -> option Z) :
  NewWebhookOutput cfg = inr w ->
  let '(pauses, result) := sendBatch w created reply in
  let retried := Z.of_nat (List.length pauses) in
  (forall j, (0 <= j < retried)%Z -> success (reply j) = false /\ retriable (reply j) = true) /\
  (forall j p, pauses !! j = Some p -> p = Z.min (100 * 2 ^ Z.of_nat j * millisecond) (5000 * millisecond)) /\
  match result with
  | Delivered => created = true /\ (retried < maxRetries w)%Z /\ success (reply retried) = true
  | NotCreated => created = false /\ retried = 0%Z
  | Refused status => (retried < maxRetries w)%Z /\ reply retried = Some status /\ (status < 500)%Z /\ success (Some status) = false
  | Exhausted => retried = maxRetries w
  end.
Proof.
  intros Hn. destruct (NewWebhookOutput_positive _ _ Hn) as (_ & Hm & _). unfold sendBatch.
  destruct (Z.leb_spec (maxRetries w) 0) as [?|_]; [lia|]. destruct created; [|simpl; repeat split; intros; try lia; done].
  destruct (attempts _ 0 reply) as [pauses result] eqn:Ea. destruct (attempts_spec _ _ _ _ _ Ea) as (Hk & Hp & Hj & Hr).
  simpl. split; [|split].
  - intros j ?. destruct (Hj (Z.to_nat j)) as [? ?]; [lia|]. rewrite Z.add_0_l, Z2Nat.id in *; [done|lia..].
  - intros j p Hl. rewrite Hp, list_lookup_fmap in Hl. apply fmap_Some in Hl as (i & Hi & ->).
    apply lookup_seq in Hi as [-> _]. apply backoff_doubles. lia.
  - rewrite Z.add_0_l in Hr. destruct result; try done; [split; [done|]| |]; try (split; [lia|]); try apply Hr. lia.
Qed.

Lemma sendBatch_spec_witness :
  NewWebhookOutput (H := Logger.no_errors) webhook_config = inr webhook /\
  let reply j := if (j =? 0)%Z then None else if (j =? 1)%Z then Some 503%Z else Some 204%Z in
  sendBatch webhook true reply = ([100 * millisecond; 200 * millisecond]%Z, Delivered) /\
  success (reply 2%Z) = true /\ forall j, (0 <= j < 2)%Z -> retriable (reply j) = true.
Proof.
  split; [reflexivity|]. intros reply.
  pose proof (sendBatch_spec (H := Logger.no_errors) webhook_config webhook true reply eq_refl) as Hs.
  change (sendBatch webhook true reply) with ([100 * millisecond; 200 * millisecond]%Z, Delivered) in *.
  destruct Hs as (Hj & _ & _ & _ & Hd). split; [reflexivity|]. split; [exact Hd|]. intros j H. apply (Hj j H).
Defined.
End Webhook.
