(* ===== verification/GoJsonFacts.v ===== *)
(** * Reading back what encoding/json and fmt write

    Numbers in the formats of [fmt] and [strconv], and string literals, are read
    back as what they were written from. *)
From S2P Require Import Prelude GoStrings GoFloat GoJson JsonValue.
From Stdlib Require Import Ascii String DecimalString DecimalPos DecimalN DecimalFacts.

Local Open Scope string_scope.
Local Open Scope Z_scope.

(** ** Decimal digits *)

Fixpoint all_digits (s : string) : bool :=
  match s with String c s => is_digit c && all_digits s | EmptyString => true end.

(** The number [s] continues from the digits with value [acc]. *)
Fixpoint value_from (acc : Z) (s : string) : Z :=
  match s with String c s => value_from (10 * acc + digit_value c) s | EmptyString => acc end.

(** Nothing in front of [s] would be read as part of a number. *)
Definition ends_number (s : string) : bool :=
  match s with
  | String c _ => negb (is_digit c || Ascii.eqb c "." || Ascii.eqb c "e" || Ascii.eqb c "E")
  | EmptyString => true
  end.

Definition no_digit (s : string) : bool := match s with String c _ => negb (is_digit c) | EmptyString => true end.

Lemma ends_number_no_digit s : ends_number s = true -> no_digit s = true.
Proof. destruct s as [|c s]; [done|]. simpl. by destruct (is_digit c). Qed.

Lemma scan_digits_app s rest : forall acc n,
  all_digits s = true -> no_digit rest = true ->
  scan_digits acc n (s ++ rest) = (value_from acc s, n + Z.of_nat (String.length s), rest).
Proof.
  induction s as [|c s IH]; intros acc n Hs Hr.
  - simpl. rewrite Z.add_0_r. destruct rest as [|c rest]; [done|]. simpl in *. by destruct (is_digit c).
  - cbn [all_digits] in Hs. apply andb_true_iff in Hs as [Hc Hs]. simpl. rewrite Hc, IH by done.
    f_equal. f_equal. lia.
Qed.

Lemma all_digits_app s t : all_digits (s ++ t) = all_digits s && all_digits t.
Proof. induction s as [|c s IH]; simpl; [done|]. by rewrite IH, andb_assoc. Qed.

Lemma value_from_app s t acc : value_from acc (s ++ t) = value_from (value_from acc s) t.
Proof. revert acc. induction s as [|c s IH]; intros acc; simpl; [done|apply IH]. Qed.

Lemma length_app_str s t : String.length (s ++ t) = (String.length s + String.length t)%nat.
Proof. induction s as [|c s IH]; simpl; [done|by rewrite IH]. Qed.

Lemma take_drop_str n s : take_str n s ++ drop_str n s = s.
Proof. revert n. induction s as [|c s IH]; intros [|n]; simpl; try done. by rewrite IH. Qed.

Lemma length_take_str n s : (n <= String.length s)%nat -> String.length (take_str n s) = n.
Proof. revert n. induction s as [|c s IH]; intros [|n] Hn; simpl in *; try lia. by rewrite IH by lia. Qed.

Lemma zeros_succ n : 0 <= n -> zeros (n + 1) = String "0" (zeros n).
Proof. intros Hn. unfold zeros. replace (Z.to_nat (n + 1)) with (S (Z.to_nat n)) by lia. simpl. by destruct (repeat _ _). Qed.

Lemma zeros_spec n acc :
  0 <= n -> all_digits (zeros n) = true /\ value_from acc (zeros n) = acc * 10 ^ n /\ Z.of_nat (String.length (zeros n)) = n.
Proof.
  intros Hn. revert acc. pattern n. apply natlike_ind; [| |done].
  - intros acc. split_and!; [done|simpl; lia|done].
  - intros k Hk IH acc. rewrite <- Z.add_1_r, zeros_succ by done. destruct (IH (10 * acc)) as (H1 & H2 & H3).
    simpl. rewrite H1. split_and!; [done| |lia].
    change (digit_value "0") with 0. rewrite Z.add_0_r, H2, Z.pow_add_r by lia. lia.
Qed.

(** ** Integers *)

Lemma scan_uint u : forall acc,
  all_digits (NilEmpty.string_of_uint u) = true /\
  value_from (Zpos acc) (NilEmpty.string_of_uint u) = Zpos (Pos.of_uint_acc u acc).
Proof.
  induction u as [|u IH|u IH|u IH|u IH|u IH|u IH|u IH|u IH|u IH|u IH]; intros acc; [done|..];
    cbn [NilEmpty.string_of_uint all_digits value_from Pos.of_uint_acc];
    (split; [rewrite (proj1 (IH acc)); reflexivity|]);
    match goal with |- context [digit_value ?c] => let v := eval vm_compute in (digit_value c) in change (digit_value c) with v end;
    match goal with |- value_from ?z _ = Zpos (Pos.of_uint_acc _ ?p) => replace z with (Zpos p) by lia end;
    apply IH.
Qed.

(** What [Itoa] writes of a positive number: its digits, the first not a zero. *)
Lemma Itoa_pos_digits p :
  exists c s, Itoa (Zpos p) = String c s /\ is_digit c = true /\ c <> "0"%char /\
    all_digits (Itoa (Zpos p)) = true /\ value_from 0 (Itoa (Zpos p)) = Zpos p.
Proof.
  unfold Itoa. change (NilZero.string_of_int (Z.to_int (Zpos p))) with (NilZero.string_of_uint (Pos.to_uint p)).
  pose proof (Unsigned.of_to (Npos p)) as Hof. change (N.to_uint (Npos p)) with (Pos.to_uint p) in Hof.
  pose proof (Unsigned.to_of (Pos.to_uint p)) as Hto. rewrite Hof in Hto.
  change (N.to_uint (Npos p)) with (Pos.to_uint p) in Hto.
  destruct (Pos.to_uint p) as [|u|u|u|u|u|u|u|u|u|u] eqn:E; [done| |..].
  { exfalso. simpl in Hto. unfold Decimal.unorm in Hto. simpl in Hto. destruct (Decimal.nzhead u) eqn:Eu;
      [injection Hto as ->; discriminate Hof|by apply nzhead_nonzero in Eu|discriminate Hto..]. }
  all: cbn [NilZero.string_of_uint NilEmpty.string_of_uint all_digits value_from];
    match goal with |- context [digit_value ?c] => let v := eval vm_compute in (digit_value c) in change (digit_value c) with v end;
    eexists _, _; (split; [reflexivity|]); (split; [reflexivity|]); (split; [done|]);
    match goal with |- context [value_from (10 * 0 + Zpos ?k) (NilEmpty.string_of_uint ?w)] =>
      destruct (scan_uint w k) as [Hd Hv]; change (10 * 0 + Zpos k) with (Zpos k) end;
    (split; [exact Hd|]); rewrite Hv; injection Hof as Hof; f_equal; exact Hof.
Qed.

Lemma digit_value_bound c : is_digit c = true -> 0 <= digit_value c <= 9.
Proof. unfold is_digit, digit_value. rewrite andb_true_iff, !Nat.leb_le. lia. Qed.

Lemma digit_value_pos c : is_digit c = true -> c <> "0"%char -> 1 <= digit_value c.
Proof.
  intros Hc H0. pose proof (digit_value_bound c Hc). enough (digit_value c <> 0) by lia. unfold digit_value.
  intros He. apply H0. rewrite <- (ascii_nat_embedding c). replace (nat_of_ascii c) with 48%nat by lia. reflexivity.
Qed.

Lemma value_from_bounds s : forall acc,
  all_digits s = true -> 0 <= acc ->
  acc * 10 ^ Z.of_nat (String.length s) <= value_from acc s < (acc + 1) * 10 ^ Z.of_nat (String.length s).
Proof.
  induction s as [|c s IH]; intros acc Hs Ha; [simpl; lia|].
  cbn [all_digits] in Hs. apply andb_true_iff in Hs as [Hc Hs].
  pose proof (digit_value_bound c Hc). cbn [String.length value_from].
  rewrite Nat2Z.inj_succ, Z.pow_succ_r by lia. specialize (IH (10 * acc + digit_value c) Hs ltac:(lia)).
  pose proof (Z.pow_pos_nonneg 10 (Z.of_nat (String.length s)) ltac:(lia) ltac:(lia)). nia.
Qed.

Lemma ndigits_bounds d : 0 < d -> 0 < ndigits d /\ 10 ^ (ndigits d - 1) <= d < 10 ^ ndigits d.
Proof.
  intros Hd. destruct d as [|p|p]; try lia.
  destruct (Itoa_pos_digits p) as (c & s & Hs & Hc & H0 & Hall & Hv).
  unfold ndigits. rewrite (proj2 (Z.leb_gt _ _) Hd). rewrite Hs in *.
  cbn [all_digits] in Hall. apply andb_true_iff in Hall as [_ Hall]. cbn [value_from] in Hv.
  pose proof (digit_value_bound c Hc). pose proof (digit_value_pos c Hc H0).
  pose proof (value_from_bounds s (10 * 0 + digit_value c) Hall ltac:(lia)) as Hb. rewrite Hv in Hb.
  cbn [String.length]. rewrite Nat2Z.inj_succ. replace (Z.succ _ - 1) with (Z.of_nat (String.length s)) by lia.
  rewrite Z.pow_succ_r by lia.
  pose proof (Z.pow_pos_nonneg 10 (Z.of_nat (String.length s)) ltac:(lia) ltac:(lia)). nia.
Qed.

Lemma ndigits_unique d k : 0 < k -> 10 ^ (k - 1) <= d < 10 ^ k -> ndigits d = k.
Proof.
  intros Hk Hd. pose proof (Z.pow_pos_nonneg 10 (k - 1) ltac:(lia) ltac:(lia)).
  destruct (ndigits_bounds d ltac:(lia)) as (Hn & Hlo & Hhi).
  assert (ndigits d - 1 < k) by (apply (Z.pow_lt_mono_r_iff 10); lia).
  assert (k - 1 < ndigits d) by (apply (Z.pow_lt_mono_r_iff 10); lia). lia.
Qed.

Lemma ndigits_shift d k : 0 < d -> 0 <= k -> ndigits (d * 10 ^ k) = ndigits d + k.
Proof.
  intros Hd Hk. destruct (ndigits_bounds d Hd) as (Hn & Hlo & Hhi).
  pose proof (Z.pow_pos_nonneg 10 k ltac:(lia) ltac:(lia)). apply ndigits_unique; [lia|].
  replace (ndigits d + k - 1) with ((ndigits d - 1) + k) by lia. rewrite !Z.pow_add_r by lia. nia.
Qed.

Lemma of_decimal_shift neg d k : 0 < d -> 0 <= k -> of_decimal neg (d * 10 ^ k) 0 = of_decimal neg d k.
Proof.
  intros Hd Hk. pose proof (Z.pow_pos_nonneg 10 k ltac:(lia) ltac:(lia)) as Hp.
  unfold of_decimal. rewrite ndigits_shift, Z.add_0_r by done.
  destruct (d * 10 ^ k) as [|q|q] eqn:E; [nia| |nia]. destruct d as [|p|p]; try lia.
  rewrite Z.pow_0_r, Z.mul_1_r. rewrite (proj2 (Z.leb_le 0 k) Hk). reflexivity.
Qed.

(** ** Numbers *)

Definition read_number (neg : bool) (d e : Z) (rest : string) : option (float64 * string) :=
  match of_decimal neg d e with S754_infinity _ => None | x => Some (x, rest) end.

(** [t] is a way to write [d * 10^e]. *)
Definition denotes (t : string) (d e : Z) : Prop :=
  forall neg rest, ends_number rest = true ->
    scan_number ((if neg : bool then "-" else "") ++ t ++ rest) = read_number neg d e rest.

Lemma scan_number_sign neg s :
  (forall r, s <> String "-" r) ->
  scan_number ((if neg : bool then "-" else "") ++ s) =
  ('(m, s) ← match s with
             | String "0" s' => Some (0, s')
             | _ => let '(m, n, rest) := scan_digits 0 0 s in if n =? 0 then None else Some (m, rest)
             end;
   '(m, digits, s) ← scan_fraction m s;
   '(e, s) ← scan_exponent s;
   match of_decimal neg m (e - digits) with S754_infinity _ => None | x => Some (x, s) end).
Proof.
  intros Hs. unfold scan_number. destruct neg; [reflexivity|]. simpl.
  destruct s as [|c s]; [reflexivity|]. destruct c as [[] [] [] [] [] [] [] []]; try reflexivity. by destruct (Hs s).
Qed.

Lemma scan_exponent_none s : ends_number s = true -> scan_exponent s = Some (0, s).
Proof.
  intros Hs. destruct s as [|c s]; [reflexivity|]. unfold scan_exponent.
  destruct c as [[] [] [] [] [] [] [] []]; try reflexivity; discriminate Hs.
Qed.

Lemma scan_fraction_none m s : ends_number s = true -> scan_fraction m s = Some (m, 0, s).
Proof.
  intros Hs. destruct s as [|c s]; [reflexivity|]. unfold scan_fraction.
  destruct c as [[] [] [] [] [] [] [] []]; try reflexivity; discriminate Hs.
Qed.

Definition int_part (s : string) : option (Z * string) :=
  match s with
  | String "0" s' => Some (0, s')
  | _ => let '(m, n, rest) := scan_digits 0 0 s in if n =? 0 then None else Some (m, rest)
  end.

Lemma int_part_digits c t rest :
  is_digit c = true -> c <> "0"%char -> all_digits t = true -> no_digit rest = true ->
  int_part (String c t ++ rest) = Some (value_from 0 (String c t), rest).
Proof.
  intros Hc H0 Ht Hr. unfold int_part.
  assert (Hm : forall A (x : A) f, match String c t ++ rest with String "0" s' => f s' | _ => x end = x).
  { intros A x f. cbn [String.append]. destruct c as [[] [] [] [] [] [] [] []]; try reflexivity. by destruct H0. }
  rewrite Hm, scan_digits_app by (cbn [all_digits]; by rewrite ?Hc). cbn [String.length].
  rewrite (proj2 (Z.eqb_neq _ _)) by lia. reflexivity.
Qed.

Lemma not_minus_digit c s : is_digit c = true -> forall r, String c s <> String "-" r.
Proof. intros Hc r [= ->]. discriminate Hc. Qed.

(** A number whose integer part is read. *)
Lemma scan_number_parts neg c t rest m s1 :
  is_digit c = true -> int_part (String c t ++ rest) = Some (m, s1) ->
  scan_number ((if neg : bool then "-" else "") ++ String c t ++ rest) =
  ('(m, digits, s) ← scan_fraction m s1;
   '(e, s) ← scan_exponent s;
   match of_decimal neg m (e - digits) with S754_infinity _ => None | x => Some (x, s) end).
Proof.
  intros Hc Hi. rewrite scan_number_sign by (cbn [String.append]; by apply not_minus_digit).
  fold (int_part (String c t ++ rest)). by rewrite Hi.
Qed.

Lemma scan_fraction_digits m t rest :
  t <> "" -> all_digits t = true -> no_digit rest = true ->
  scan_fraction m ("." ++ t ++ rest) = Some (value_from m t, Z.of_nat (String.length t), rest).
Proof.
  intros Hne Ht Hr. unfold scan_fraction. cbn [String.append]. rewrite scan_digits_app by done.
  rewrite (proj2 (Z.eqb_neq _ _)); [reflexivity|]. destruct t; [done|]. cbn [String.length]. lia.
Qed.

Lemma take_str_cons c t n : (0 < n)%nat -> take_str n (String c t) = String c (take_str (n - 1) t).
Proof. intros Hn. destruct n as [|n]; [lia|]. simpl. by rewrite Nat.sub_0_r. Qed.

Lemma all_digits_take_drop n s : all_digits s = true -> all_digits (take_str n s) = true /\ all_digits (drop_str n s) = true.
Proof. intros Hs. rewrite <- (take_drop_str n s), all_digits_app in Hs. by apply andb_true_iff. Qed.

Lemma length_drop_str n s : (n <= String.length s)%nat -> String.length (drop_str n s) = (String.length s - n)%nat.
Proof.
  intros Hn. pose proof (f_equal String.length (take_drop_str n s)) as H.
  rewrite length_app_str, length_take_str in H by done. lia.
Qed.

Section digits.
Context (d e : Z).
Hypothesis positive : 0 < d.

Let digits := Itoa d.
Let nd := Z.of_nat (String.length digits).

Lemma digits_spec :
  exists c t, digits = String c t /\ is_digit c = true /\ c <> "0"%char /\ all_digits t = true /\
    value_from 0 digits = d /\ nd = 1 + Z.of_nat (String.length t).
Proof.
  unfold nd, digits. destruct d as [|p|p]; try lia.
  destruct (Itoa_pos_digits p) as (c & t & Hs & Hc & H0 & Hall & Hv). exists c, t. rewrite Hs in *.
  cbn [all_digits] in Hall. apply andb_true_iff in Hall as [_ Hall]. cbn [String.length]. split_and!; try done. lia.
Qed.

Lemma denotes_small dp : dp = nd + e -> dp <= 0 -> denotes ("0." ++ zeros (- dp) ++ digits) d e.
Proof.
  intros Hdp Hle neg rest Hr. destruct digits_spec as (c & t & Hs & Hc & H0 & Ht & Hv & Hnd).
  destruct (zeros_spec (- dp) 0 ltac:(lia)) as (Hz & Hzv & Hzl).
  change ("0." ++ zeros (- dp) ++ digits) with (String "0" ("." ++ (zeros (- dp) ++ digits))).
  rewrite (scan_number_parts neg "0" ("." ++ (zeros (- dp) ++ digits)) rest 0 ("." ++ (zeros (- dp) ++ digits) ++ rest));
    [|reflexivity|reflexivity].
  assert (Hd : all_digits (zeros (- dp) ++ digits) = true).
  { rewrite all_digits_app, Hz, Hs. cbn [all_digits]. by rewrite Hc, Ht. }
  rewrite scan_fraction_digits; [|by rewrite Hs; destruct (zeros (- dp))|done|by apply ends_number_no_digit].
  cbn [mbind option_bind]. rewrite scan_exponent_none by done. cbn [mbind option_bind].
  rewrite value_from_app, Hzv, Z.mul_0_l, Hv, length_app_str, Nat2Z.inj_add. unfold read_number.
  replace (0 - _) with e; [done|]. unfold nd in *. lia.
Qed.

Lemma denotes_large : 0 <= e -> denotes (digits ++ zeros e) d e.
Proof.
  intros He neg rest Hr. destruct digits_spec as (c & t & Hs & Hc & H0 & Ht & Hv & Hnd).
  destruct (zeros_spec e d He) as (Hz & Hzv & Hzl).
  rewrite Hs. change (String c t ++ zeros e) with (String c (t ++ zeros e)).
  rewrite (scan_number_parts neg c (t ++ zeros e) rest (d * 10 ^ e) rest);
    [|done|].
  - rewrite scan_fraction_none by done. cbn [mbind option_bind]. rewrite scan_exponent_none by done.
    cbn [mbind option_bind]. unfold read_number. rewrite Z.sub_0_r. by rewrite of_decimal_shift.
  - rewrite int_part_digits; [|done|done|by rewrite all_digits_app, Ht, Hz|by apply ends_number_no_digit].
    change (String c (t ++ zeros e)) with (String c t ++ zeros e). rewrite <- Hs, value_from_app, Hv, Hzv. done.
Qed.

(** The first [n] digits, a point, and the others. *)
Lemma scan_pointed neg n rest :
  0 < n < nd -> ends_number rest = true \/ (exists x, rest = String "e" x) ->
  scan_number ((if neg : bool then "-" else "") ++
    (take_str (Z.to_nat n) digits ++ "." ++ drop_str (Z.to_nat n) digits) ++ rest) =
  ('(x, s) ← scan_exponent rest;
   match of_decimal neg d (x - (nd - n)) with S754_infinity _ => None | y => Some (y, s) end).
Proof.
  intros Hn Hr. destruct digits_spec as (c & t & Hs & Hc & H0 & Ht & Hv & Hnd).
  assert (Hall : all_digits digits = true) by (rewrite Hs; cbn [all_digits]; by rewrite Hc).
  assert (Hlen : String.length digits = Z.to_nat nd) by (unfold nd; lia).
  assert (Hnr : no_digit rest = true) by (destruct Hr as [Hr|[x ->]]; [by apply ends_number_no_digit|done]).
  destruct (all_digits_take_drop (Z.to_nat n) digits Hall) as [Ht1 Ht2].
  pose proof (length_drop_str (Z.to_nat n) digits ltac:(lia)) as Hdl.
  pose proof (take_drop_str (Z.to_nat n) digits) as Htd.
  remember (drop_str (Z.to_nat n) digits) as dr eqn:Edr.
  assert (Htake : take_str (Z.to_nat n) digits = String c (take_str (Z.to_nat n - 1) t)).
  { rewrite Hs. apply take_str_cons. lia. }
  rewrite Htake in *.
  change (String c (take_str (Z.to_nat n - 1) t) ++ "." ++ dr) with (String c (take_str (Z.to_nat n - 1) t ++ ("." ++ dr))).
  cbn [all_digits] in Ht1. apply andb_true_iff in Ht1 as [_ Ht1].
  rewrite (scan_number_parts neg c (take_str (Z.to_nat n - 1) t ++ ("." ++ dr)) rest
             (value_from 0 (String c (take_str (Z.to_nat n - 1) t))) ("." ++ dr ++ rest)); [|done|].
  - rewrite scan_fraction_digits; [|intros ->; simpl in Hdl; lia|done..]. cbn [mbind option_bind].
    rewrite <- value_from_app, Htd, Hv, Hdl. replace (Z.of_nat (String.length digits - Z.to_nat n)) with (nd - n) by lia.
    reflexivity.
  - change (String c (take_str (Z.to_nat n - 1) t ++ "." ++ dr) ++ rest)
      with (String c ((take_str (Z.to_nat n - 1) t ++ "." ++ dr) ++ rest)).
    rewrite append_assoc. change (("." ++ dr) ++ rest) with ("." ++ dr ++ rest).
    change (String c (take_str (Z.to_nat n - 1) t ++ "." ++ dr ++ rest))
      with (String c (take_str (Z.to_nat n - 1) t) ++ ("." ++ dr ++ rest)).
    by rewrite int_part_digits.
Qed.

Lemma denotes_f : denotes (format_f digits (nd + e)) d e.
Proof.
  unfold format_f. fold nd. destruct (Z.leb_spec (nd + e) 0); [by apply denotes_small|].
  destruct (Z.leb_spec nd (nd + e)).
  - replace (nd + e - nd) with e by lia. apply denotes_large. lia.
  - intros neg rest Hr. rewrite scan_pointed by (by left || lia). rewrite scan_exponent_none by done.
    cbn [mbind option_bind]. unfold read_number. by replace (0 - (nd - (nd + e))) with e by lia.
Qed.

Lemma scan_exponent_e (neg : bool) k x rest :
  0 < x -> 0 <= k -> ends_number rest = true ->
  scan_exponent ((if neg then "e-" else "e+") ++ (zeros k ++ Itoa x) ++ rest) = Some (if neg then - x else x, rest).
Proof.
  intros Hx Hk Hr. destruct x as [|p|p]; try lia.
  destruct (Itoa_pos_digits p) as (c & t & Hs & Hc & H0 & Hall & Hv). destruct (zeros_spec k 0 Hk) as (Hz & Hzv & _).
  assert (Hscan : scan_digits 0 0 ((zeros k ++ Itoa (Zpos p)) ++ rest) =
    (Zpos p, Z.of_nat (String.length (zeros k ++ Itoa (Zpos p))), rest)).
  { rewrite scan_digits_app; [|by rewrite all_digits_app, Hz|by apply ends_number_no_digit].
    by rewrite value_from_app, Hzv, Z.mul_0_l, Hv. }
  assert (Hne : Z.of_nat (String.length (zeros k ++ Itoa (Zpos p))) <> 0).
  { rewrite length_app_str, Hs. cbn [String.length]. lia. }
  unfold scan_exponent. destruct neg; cbn [String.append]; rewrite Hscan, (proj2 (Z.eqb_neq _ _) Hne); done.
Qed.

Lemma denotes_e w : nd + e - 1 <> 0 -> denotes (format_e w digits (nd + e - 1)) d e.
Proof.
  intros Hx neg rest Hr. unfold format_e. set (x := nd + e - 1) in *.
  set (k := w - Z.of_nat (String.length (Itoa (Z.abs x)))).
  assert (Hzk : zeros k = zeros (Z.max 0 k)) by (unfold zeros; f_equal; f_equal; lia). rewrite Hzk.
  set (ex := (if x <? 0 then "e-" else "e+") ++ (zeros (Z.max 0 k) ++ Itoa (Z.abs x))).
  assert (Hex : scan_exponent (ex ++ rest) = Some (x, rest)).
  { unfold ex. rewrite append_assoc, scan_exponent_e by (done || lia). destruct (Z.ltb_spec x 0); do 2 f_equal; lia. }
  destruct digits_spec as (c & t & Hs & Hc & H0 & Ht & Hv & Hnd).
  rewrite Hs. change (take_str 1 (String c t)) with (String c (take_str 0 t)). change (drop_str 1 (String c t)) with t.
  assert (Ht0 : take_str 0 t = "") by by destruct t. rewrite Ht0.
  destruct (decide (t = "")) as [->|Hne].
  - change (String c "" ++ "" ++ ex) with (String c ex).
    rewrite (scan_number_parts neg c ex rest d (ex ++ rest)); [|done|].
    + assert (scan_fraction d (ex ++ rest) = Some (d, 0, ex ++ rest)) as -> by (unfold ex; by destruct (x <? 0)).
      cbn [mbind option_bind]. rewrite Hex. cbn [mbind option_bind]. unfold read_number. rewrite Z.sub_0_r.
      replace x with e; [done|]. unfold x. cbn [String.length] in Hnd. lia.
    + change (String c ex ++ rest) with (String c "" ++ (ex ++ rest)). rewrite int_part_digits; [|done..|].
      * by rewrite <- Hs, Hv.
      * unfold ex. by destruct (x <? 0).
  - pose proof (scan_pointed neg 1 (ex ++ rest)) as Hp. change (Z.to_nat 1) with 1%nat in Hp. rewrite Hs in Hp.
    change (take_str 1 (String c t)) with (String c (take_str 0 t)) in Hp. change (drop_str 1 (String c t)) with t in Hp.
    rewrite Ht0 in Hp.
    assert (Hassoc : (String c "" ++ ("." ++ t) ++ ex) ++ rest = (String c "" ++ "." ++ t) ++ ex ++ rest).
    { rewrite !append_assoc. reflexivity. }
    rewrite Hassoc, Hp, Hex.
    + cbn [mbind option_bind]. unfold read_number. replace (x - (nd - 1)) with e by (unfold x; lia). done.
    + destruct t; [done|]. cbn [String.length] in Hnd. lia.
    + right. unfold ex. destruct (x <? 0); eexists; cbn [String.append]; reflexivity.
Qed.
End digits.

(** ** [float64] values *)

(** The shortest digits of [x] read back as [x]; true of every finite number. *)
Definition reads_back (x : float64) : bool :=
  match x with
  | S754_zero _ => true
  | S754_finite _ m e => match shortest m e with Some _ => true | None => false end
  | _ => false
  end.

Lemma digits_at_sound x num den n d e :
  digits_at x num den n = Some (d, e) -> SFeqb (of_decimal false d e) x = true.
Proof.
  unfold digits_at. cbv zeta. destruct (SFeqb (of_decimal false (_ / _) _) x) eqn:Hb; cbn [andb].
  - destruct (_ || negb _); [by intros [= <- <-]|].
    match goal with |- context [if SFeqb ?a x then _ else _] => destruct (SFeqb a x) eqn:Ha end; [|done].
    intros [= H]. rewrite H in Ha. done.
  - match goal with |- context [if SFeqb ?a x then _ else _] => destruct (SFeqb a x) eqn:Ha end; [|done].
    intros [= H]. rewrite H in Ha. done.
Qed.

Lemma first_digits_sound x num den rounds : forall n d e,
  first_digits x num den n rounds = Some (d, e) -> SFeqb (of_decimal false d e) x = true.
Proof.
  induction rounds as [|rounds IH]; intros n d e; cbn [first_digits];
    (destruct (digits_at x num den n) as [[d' e']|] eqn:E; [intros [= <- <-]; by eapply digits_at_sound|]); [done|].
  apply IH.
Qed.

Lemma binary_round_aux_opp m e l :
  binary_round_aux Float64.prec Float64.emax true m e l =
  SFopp (binary_round_aux Float64.prec Float64.emax false m e l).
Proof.
  unfold binary_round_aux. destruct (shr_fexp _ _ m e l) as [mrs e1].
  destruct (shr_fexp _ _ (round_nearest_even (shr_m mrs) (loc_of_shr_record mrs)) e1 loc_Exact) as [mrs2 e2].
  destruct (shr_m mrs2); [done| |done]. by destruct (e2 <=? _).
Qed.

Lemma of_decimal_opp d e : of_decimal true d e = SFopp (of_decimal false d e).
Proof.
  unfold of_decimal. destruct d as [|p|p]; [done| |done].
  destruct (_ <? _); [done|]. destruct (_ <? _); [done|]. destruct (0 <=? e) eqn:He.
  - unfold id. destruct (Zpos p * 10 ^ e) as [|q|q] eqn:Eq; [done| |].
    + simpl. unfold binary_round. destruct (shl_align _ _ _). apply binary_round_aux_opp.
    + exfalso. pose proof (Z.pow_pos_nonneg 10 e ltac:(lia) ltac:(lia)). lia.
  - destruct (SFdiv_core_binary _ _ _ _ _ _) as [[q e'] loc]. apply binary_round_aux_opp.
Qed.

Lemma SFeqb_opp x y : SFeqb (SFopp x) (SFopp y) = SFeqb x y.
Proof.
  unfold SFeqb, SFcompare. change (Pos.compare_cont Eq) with Pos.compare.
  destruct x as [[]|[]| |[] mx ex], y as [[]|[]| |[] my ey]; try reflexivity; simpl;
    destruct (ex ?= ey); try reflexivity; by destruct (mx ?= my)%positive.
Qed.

(** [number x] is read back as a number equal to [x]. *)
Definition legible (number : float64 -> string) (x : float64) : Prop :=
  exists y, SFeqb x y = true /\ forall rest, ends_number rest = true -> scan_number (number x ++ rest) = Some (y, rest).

Lemma scan_zero (neg : bool) rest :
  ends_number rest = true -> scan_number ((if neg then "-" else "") ++ "0" ++ rest) = Some (S754_zero neg, rest).
Proof.
  intros Hr. rewrite (scan_number_parts neg "0" "" rest 0 rest), scan_fraction_none by done.
  cbn [mbind option_bind]. rewrite scan_exponent_none by done. by destruct neg.
Qed.

(** A number in a format whose texts denote their digits. *)
Lemma format_float_legible plain x :
  (forall d e, 0 < d -> denotes (plain d e) d e) -> reads_back x = true -> legible (format_float plain) x.
Proof.
  intros Hplain Hx. destruct x as [s| | |s m e]; try done.
  - exists (S754_zero s). split; [done|]. intros rest Hr. destruct s; [by apply (scan_zero true)|by apply (scan_zero false)].
  - cbn [reads_back] in Hx. unfold legible, format_float. destruct (shortest m e) as [[d e10]|] eqn:E; [|done]. cbn [from_opt].
    pose proof (first_digits_sound _ _ _ _ _ _ _ E) as Heq.
    assert (Hd : 0 < d) by (destruct d; [by vm_compute in Heq|lia|by vm_compute in Heq]).
    assert (Hs : SFeqb (of_decimal s d e10) (S754_finite s m e) = true).
    { destruct s; [|done]. rewrite of_decimal_opp. change (S754_finite true m e) with (SFopp (S754_finite false m e)).
      by rewrite SFeqb_opp. }
    exists (of_decimal s d e10). split; [by rewrite SFeqb_sym|]. intros rest Hr.
    rewrite append_assoc, (Hplain d e10 Hd s rest Hr). unfold read_number.
    destruct (of_decimal s d e10) as [|s0| |]; [done|by destruct s0|done|done].
Qed.

Lemma Sprint_float_legible x : reads_back x = true -> legible Sprint_float x.
Proof.
  apply format_float_legible. intros d e Hd. cbv zeta.
  destruct (_ || _) eqn:E; [apply denotes_e; [done|]|by apply denotes_f].
  apply orb_true_iff in E as [E%Z.ltb_lt|E%Z.leb_le]; lia.
Qed.

Lemma Marshal_float_legible x : reads_back x = true -> legible Marshal_float x.
Proof.
  apply format_float_legible. intros d e Hd. cbv zeta.
  destruct (Z.ltb_spec (Z.of_nat (String.length (Itoa d)) + e - 1) (-6)); [apply denotes_e; [done|lia]|].
  destruct (Z.leb_spec 21 (Z.of_nat (String.length (Itoa d)) + e - 1)); [apply denotes_e; [done|lia]|by apply denotes_f].
Qed.

(** An integer, as [%d] writes it. *)
Lemma scan_Itoa n rest :
  n <> 0 -> ends_number rest = true -> scan_number (Itoa n ++ rest) = read_number (n <? 0) (Z.abs n) 0 rest.
Proof.
  intros Hn Hr.
  assert (Hpos : forall neg p, scan_number ((if neg : bool then "-" else "") ++ Itoa (Zpos p) ++ rest) = read_number neg (Zpos p) 0 rest).
  { intros neg p. destruct (Itoa_pos_digits p) as (c & t & Hs & Hc & H0 & Hall & Hv). rewrite Hs in *.
    cbn [all_digits] in Hall. apply andb_true_iff in Hall as [_ Hall].
    rewrite (scan_number_parts neg c t rest (Zpos p) rest), scan_fraction_none; [|done..|].
    - cbn [mbind option_bind]. by rewrite scan_exponent_none.
    - rewrite int_part_digits; [by rewrite Hv|done..|by apply ends_number_no_digit]. }
  destruct n as [|p|p]; [done|apply (Hpos false)|].
  change (Itoa (Zneg p)) with ("-" ++ Itoa (Zpos p)). rewrite append_assoc. apply (Hpos true).
Qed.
