(* ===== verification/JsonText.v ===== *)
(** * Reading back what encoding/json writes

    A decoded string is valid UTF-8, and a valid string is decoded from the
    literal [json.Marshal] writes of it; then the same of whole documents. *)
From S2P Require Import Prelude GoStrings GoFloat GoJson JsonValue GoJsonFacts.
From Stdlib Require Import Ascii String.

Local Open Scope string_scope.
Local Open Scope nat_scope.

(** ** Valid UTF-8 *)

Inductive utf8 : string -> Prop :=
  | utf8_nil : utf8 ""
  | utf8_ascii c s : nat_of_ascii c < 128 -> utf8 s -> utf8 (String c s)
  | utf8_rune n s : rune_length s = Some n -> utf8 (drop_str n s) -> utf8 s.

(** The bytes of a multi-byte rune, whatever follows them. *)
Lemma rune_length_spec s n :
  rune_length s = Some n ->
  2 <= n /\ n <= String.length s /\ (forall rest, rune_length (take_str n s ++ rest) = Some n) /\
  exists c s', s = String c s' /\ 128 <= nat_of_ascii c.
Proof.
  destruct s as [|a s]; [done|]. unfold rune_length. intros H.
  assert (Ha : 128 <= nat_of_ascii a).
  { unfold byte_in in H. repeat case_match; rewrite ?andb_true_iff, ?Nat.leb_le in *; try done; lia. }
  destruct (byte_in 194 223 a) eqn:E1; [|destruct (byte_in 224 239 a) eqn:E2; [|destruct (byte_in 240 244 a) eqn:E3; [|done]]].
  all: destruct s as [|b s]; [done|]; simpl in H.
  - destruct (byte_in 128 191 b) eqn:Eb; [|done]. injection H as <-.
    split_and!; [lia|simpl; lia| |eauto]. intros rest. simpl. by rewrite E1, Eb.
  - destruct (byte_in _ _ b) eqn:Eb in H; [|done]. destruct s as [|c s]; [done|]. simpl in H.
    destruct (byte_in 128 191 c) eqn:Ec; [|done]. injection H as <-.
    split_and!; [lia|simpl; lia| |eauto]. intros rest. simpl. by rewrite E1, E2, Eb, Ec.
  - destruct (byte_in _ _ b) eqn:Eb in H; [|done]. destruct s as [|c s]; [done|]. simpl in H.
    destruct (byte_in 128 191 c) eqn:Ec; [|done]. destruct s as [|d s]; [done|]. simpl in H.
    destruct (byte_in 128 191 d) eqn:Ed; [|done]. injection H as <-.
    split_and!; [lia|simpl; lia| |eauto]. intros rest. simpl. by rewrite E1, E2, E3, Eb, Ec, Ed.
Qed.

Lemma utf8_app s t : utf8 s -> utf8 t -> utf8 (s ++ t).
Proof.
  induction 1 as [|c s Hc _ IH|n s Hn _ IH]; intros Ht; [done|by apply utf8_ascii, IH|].
  destruct (rune_length_spec s n Hn) as (_ & Hl & Happ & _).
  rewrite <- (take_drop_str n s), append_assoc. apply (utf8_rune n); [apply Happ|].
  rewrite <- (length_take_str n s Hl) at 1. rewrite drop_str_app. by apply IH.
Qed.

(** ** Code points *)

Lemma nat_of_byte n : (n < 256)%N -> nat_of_ascii (ascii_of_N n) = N.to_nat n.
Proof. intros Hn. unfold nat_of_ascii. by rewrite N_ascii_embedding. Qed.

(** Arithmetic with quotients and remainders by constants. *)
Ltac div_lia := zify; Z.to_euclidean_division_equations; lia.

Lemma byte_in_N lo hi n :
  (n < 256)%N -> byte_in lo hi (ascii_of_N n) = (N.of_nat lo <=? n)%N && (n <=? N.of_nat hi)%N.
Proof.
  intros Hn. unfold byte_in. rewrite nat_of_byte by done. apply eq_true_iff_eq.
  rewrite !andb_true_iff, !Nat.leb_le, !N.leb_le. lia.
Qed.

Definition code_point (r : N) : Prop := (r < 55296)%N \/ (57344 <= r < 1114112)%N.

(** Decides the comparisons of bytes, the innermost first. *)
Ltac decide_bytes :=
  rewrite !byte_in_N by lia;
  repeat (match goal with
    | |- context [(?a <=? ?b)%N] =>
        lazymatch constr:((a, b)) with context [N.leb] => fail | _ => idtac end;
        destruct (N.leb_spec a b); try (exfalso; lia)
    end; cbn [andb]); reflexivity.

Lemma utf8_EncodeRune r t : code_point r -> utf8 t -> utf8 (EncodeRune r ++ t).
Proof.
  intros Hr Ht. unfold code_point in Hr. unfold EncodeRune.
  assert (Hd : exists a b c d, (a = r / 262144 /\ b = (r / 4096) mod 64 /\ c = (r / 64) mod 64 /\ d = r mod 64 /\
    r / 64 = 4096 * a + 64 * b + c /\ r / 4096 = 64 * a + b /\
    r = 262144 * a + 4096 * b + 64 * c + d /\ b < 64 /\ c < 64 /\ d < 64)%N).
  { eexists _, _, _, _. split_and!; try reflexivity; div_lia. }
  destruct Hd as (a & b & c & d & <- & <- & <- & <- & -> & -> & Hs & Hb & Hc & Hd). 
  destruct (N.ltb_spec r 128); [|destruct (N.ltb_spec r 2048); [|destruct (N.ltb_spec r 65536)]]; simpl.
  - apply utf8_ascii; [|done]. rewrite nat_of_byte; lia.
  - apply (utf8_rune 2); [|by destruct t]. unfold rune_length. decide_bytes.
  - apply (utf8_rune 3); [|by destruct t]. unfold rune_length. cbn [drop_str]. decide_bytes.
  - apply (utf8_rune 4); [|by destruct t]. unfold rune_length. cbn [drop_str]. decide_bytes.
Qed.

(** ** String literals *)

Lemma hex_digit_bound c n : hex_digit c = Some n -> (n < 16)%N.
Proof. destruct c as [[] [] [] [] [] [] [] []]; vm_compute; intros [= <-]; done. Qed.

Lemma hex4_bound s r t : hex4 s = Some (r, t) -> (r < 65536)%N.
Proof.
  unfold hex4. repeat (case_match; try done). intros [= <- _].
  repeat match goal with H : hex_digit _ = Some _ |- _ => apply hex_digit_bound in H end. lia.
Qed.

Lemma unicode_escape_utf8 s piece rest t : unicode_escape s = Some (piece, rest) -> utf8 t -> utf8 (piece ++ t).
Proof.
  unfold unicode_escape. destruct (hex4 s) as [[r s1]|] eqn:E; [|done]. apply hex4_bound in E. cbn [mbind option_bind].
  destruct ((r <? 55296)%N || (57344 <=? r)%N) eqn:Er.
  - intros [= <- _]. apply utf8_EncodeRune. unfold code_point.
    apply orb_true_iff in Er as [Er%N.ltb_lt|Er%N.leb_le]; lia.
  - intros [= H]. match type of H with from_opt _ ?o = _ => destruct o as [[piece' rest']|] eqn:Ep end; simpl in H.
    + injection H as <- _. assert (Hp : exists r' code, utf16_pair r r' = Some code /\ EncodeRune code = piece').
      { repeat (case_match; try done). destruct (hex4 _) as [[r' s'']|]; [|done]. cbn [mbind option_bind] in Ep.
        destruct (utf16_pair r r') as [code|] eqn:Ec; [|done]. injection Ep as <- _. eauto. }
      destruct Hp as (r' & code & Hc & <-). apply utf8_EncodeRune. unfold utf16_pair in Hc.
      apply orb_false_iff in Er as [Er1%N.ltb_ge _].
      destruct (_ && _) eqn:Eb in Hc; [|done]. rewrite !andb_true_iff, !N.ltb_lt, N.leb_le in Eb.
      injection Hc as <-. unfold code_point. lia.
    + injection H as <- _. apply utf8_EncodeRune. right. done.
Qed.

Lemma simple_escape_ascii c e : simple_escape c = Some e -> nat_of_ascii e < 128.
Proof. unfold simple_escape. repeat (case_match; try done); intros [= <-]; vm_compute; lia. Qed.

(** A decoded string literal is valid. *)
Lemma scan_string_utf8 fuel : forall s t rest, scan_string fuel s = Some (t, rest) -> utf8 t.
Proof.
  induction fuel as [|fuel IH]; intros [|c s] t rest; [done..|]. cbn [scan_string].
  assert (Hf : forall piece more, ('(text, s) ← scan_string fuel more; Some (piece ++ text, s)) = Some (t, rest) ->
    (forall text, utf8 text -> utf8 (piece ++ text)) -> utf8 t).
  { intros piece more H Hp. destruct (scan_string fuel more) as [[text s']|] eqn:E; [|done].
    injection H as <- _. by apply Hp, (IH more text s'). }
  destruct (Ascii.eqb c "034"); [intros [= <- _]; constructor|].
  destruct (Ascii.eqb c "\").
  { assert (Hsimple : forall e s'', (c ← simple_escape e; '(text, s) ← scan_string fuel s''; Some (String c "" ++ text, s)) = Some (t, rest) -> utf8 t).
    { intros e s'' H. destruct (simple_escape e) as [c'|] eqn:E; [|done]. eapply Hf; [exact H|]. intros text Ht.
      apply utf8_ascii; [by eapply simple_escape_ascii|done]. }
    destruct s as [|e s]; [done|]. destruct (ascii_dec e "u") as [->|He].
    - destruct (unicode_escape s) as [[piece more]|] eqn:E; [|done]. cbn [mbind option_bind]. intros H.
      eapply Hf; [exact H|]. intros text. by eapply unicode_escape_utf8.
    - intros H. apply (Hsimple e s). rewrite <- H. destruct e as [[] [] [] [] [] [] [] []]; try reflexivity. done. }
  destruct (nat_of_ascii c <? 32); [done|]. destruct (Nat.ltb_spec (nat_of_ascii c) 128).
  - intros Hs. eapply Hf; [exact Hs|]. intros text. by apply utf8_ascii.
  - destruct (rune_length (String c s)) as [n|] eqn:En; intros Hs; (eapply Hf; [exact Hs|]); intros text Ht.
    + destruct (rune_length_spec _ _ En) as (_ & Hl & Happ & _). apply (utf8_rune n); [apply Happ|].
      rewrite <- (length_take_str n _ Hl) at 1. by rewrite drop_str_app.
    + apply utf8_EncodeRune; [right; done|done].
Qed.

(** One step of reading a literal: the piece for one rune of the string. *)
Lemma scan_escape_ascii c fuel rest :
  nat_of_ascii c < 128 ->
  scan_string (S fuel) (escape_ascii c ++ rest) = '(text, s) ← scan_string fuel rest; Some (String c "" ++ text, s).
Proof.
  intros Hc. destruct c as [[] [] [] [] [] [] [] []]; try reflexivity; exfalso; vm_compute in Hc; lia.
Qed.

Lemma scan_escape_rune n s fuel rest :
  rune_length s = Some n ->
  scan_string (S fuel) (escape_rune (take_str n s) ++ rest) =
  '(text, s') ← scan_string fuel rest; Some (take_str n s ++ text, s').
Proof.
  intros Hn. destruct (rune_length_spec s n Hn) as (Hn2 & Hl & Happ & c & s' & -> & Hc).
  unfold escape_rune. destruct (decide _) as [->|_]; [reflexivity|]. destruct (decide _) as [->|_]; [reflexivity|].
  pose proof (Happ rest) as Hr. pose proof (length_take_str n _ Hl) as Ht.
  destruct n as [|n]; [lia|]. cbn [take_str] in *. cbn [String.append] in *. cbn [scan_string].
  assert (Hne : forall d, nat_of_ascii d < 128 -> Ascii.eqb c d = false).
  { intros d Hd. destruct (Ascii.eqb_spec c d) as [->|]; [lia|done]. }
  rewrite !Hne by (vm_compute; lia).
  destruct (Nat.ltb_spec (nat_of_ascii c) 32); [lia|]. destruct (Nat.ltb_spec (nat_of_ascii c) 128); [lia|].
  rewrite Hr. rewrite <- Ht.
  change (String c (take_str n s' ++ rest)) with (String c (take_str n s') ++ rest).
  by rewrite take_str_app, drop_str_app.
Qed.

Lemma scan_escape s : utf8 s -> forall n fuel rest,
  String.length s <= n -> String.length s < fuel ->
  scan_string fuel (escape n s ++ String "034" rest) = Some (s, rest).
Proof.
  assert (Hdone : forall n fuel rest, 0 < fuel -> scan_string fuel (escape n "" ++ String "034" rest) = Some ("", rest)).
  { intros n [|fuel] rest ?; [lia|]. by destruct n. }
  induction 1 as [|c s Hc _ IH|k s Hk _ IH]; intros [|n] fuel rest Hn Hf; try (apply Hdone; simpl in Hf; lia).
  - simpl in Hn. lia.
  - destruct fuel as [|fuel]; [lia|]. cbn [escape]. rewrite (proj2 (Nat.ltb_lt _ _) Hc), append_assoc, scan_escape_ascii by done.
    simpl in Hn, Hf. by rewrite IH by lia.
  - destruct (rune_length_spec s k Hk) as (? & ? & _). lia.
  - destruct (rune_length_spec s k Hk) as (Hk2 & Hl & _ & c & s' & -> & Hc). destruct fuel as [|fuel]; [lia|].
    cbn [escape]. destruct (Nat.ltb_spec (nat_of_ascii c) 128); [lia|]. rewrite Hk, append_assoc.
    rewrite scan_escape_rune by done.
    pose proof (length_drop_str k _ Hl) as Hd. rewrite IH by (rewrite Hd; simpl in Hn, Hf |- *; lia).
    cbn [mbind option_bind]. by rewrite take_drop_str.
Qed.

Lemma length_escape s : utf8 s -> forall n, String.length s <= n -> String.length s <= String.length (escape n s).
Proof.
  induction 1 as [|c s Hc _ IH|k s Hk _ IH]; intros [|n] Hn; try (simpl in *; lia).
  - cbn [escape]. apply Nat.ltb_lt in Hc as Hc'. rewrite Hc', length_app_str. specialize (IH n ltac:(simpl in Hn; lia)).
    assert (0 < String.length (escape_ascii c)) by (destruct c as [[] [] [] [] [] [] [] []]; vm_compute; lia). simpl. lia.
  - destruct (rune_length_spec s k Hk) as (Hk2 & Hl & _ & c & s' & -> & Hc). cbn [escape].
    destruct (Nat.ltb_spec (nat_of_ascii c) 128); [lia|]. rewrite Hk, length_app_str.
    pose proof (length_drop_str k _ Hl) as Hd. specialize (IH n ltac:(rewrite Hd; simpl in *; lia)).
    enough (k <= String.length (escape_rune (take_str k (String c s')))) by (rewrite Hd in IH; lia).
    pose proof (length_take_str k _ Hl) as Ht. unfold escape_rune.
    destruct (decide _) as [E|_]; [rewrite E in Ht; subst k; vm_compute; lia|].
    destruct (decide _) as [E|_]; [rewrite E in Ht; subst k; vm_compute; lia|lia].
Qed.

(** A written literal, behind its opening quote. *)
Lemma scan_Marshal_string s rest :
  utf8 s ->
  exists text, Marshal_string s ++ rest = String "034" text /\ scan_string (String.length text) text = Some (s, rest).
Proof.
  intros Hs. unfold Marshal_string, quote. eexists. split; [reflexivity|].
  rewrite append_assoc. cbn [String.append]. apply scan_escape; [done..|].
  rewrite length_app_str. pose proof (length_escape s Hs _ (le_n _)). simpl. lia.
Qed.

(** ** Reading back the JSON text of a document

    The strings of a decoded document are valid UTF-8; a document written with
    any way to write its numbers that can be read is decoded to an equal one. *)


(** ** Documents *)

(** A value whose strings are valid and whose numbers are [ok]. *)
Inductive text_value (ok : float64 -> Prop) : json -> Prop :=
  | text_null : text_value ok JNull
  | text_bool b : text_value ok (JBool b)
  | text_number x : ok x -> text_value ok (JNumber x)
  | text_string s : utf8 s -> text_value ok (JString s)
  | text_array l : (forall v, v ∈ l -> text_value ok v) -> text_value ok (JArray l)
  | text_object m :
      (forall key v, m !! key = Some v -> utf8 key) -> (forall key v, m !! key = Some v -> text_value ok v) ->
      text_value ok (JObject m).

(** The text of a value, with [number] for the text of a number. *)
Section write.
Context (number : float64 -> string).

Fixpoint write (v : json) : string :=
  match v with
  | JNull => "null"
  | JBool b => if b then "true" else "false"
  | JNumber x => number x
  | JString s => Marshal_string s
  | JArray l => "[" ++ Join (map write l) "," ++ "]"
  | JObject m =>
      "{" ++ Join (map (fun '(key, text) => Marshal_string key ++ ":" ++ text) (sorted_entries (write <$> m))) "," ++ "}"
  end.
End write.

Lemma write_Marshal v : write Marshal_float v = Marshal v.
Proof. reflexivity. Qed.

(** The first character of a value's text. *)
Definition starts_value (c : ascii) : bool :=
  is_digit c || bool_decide (c ∈ ["-"; "034"; "["; "{"; "n"; "t"; "f"]%char).

Lemma scan_number_starts c s y rest : scan_number (String c s) = Some (y, rest) -> is_digit c || Ascii.eqb c "-" = true.
Proof. intros H. destruct c as [[] [] [] [] [] [] [] []]; first [reflexivity|discriminate H]. Qed.

Lemma starts_value_skip c t : starts_value c = true -> skip_space (String c t) = String c t.
Proof. intros Hc. destruct c as [[] [] [] [] [] [] [] []]; try reflexivity; discriminate Hc. Qed.

(** Reading a value that starts like a number. *)
Lemma scan_value_number fuel d c s :
  is_digit c || Ascii.eqb c "-" = true ->
  scan_value (S fuel) d (String c s) = '(x, s) ← scan_number (String c s); Some (JNumber x, s).
Proof. intros Hc. destruct c as [[] [] [] [] [] [] [] []]; try discriminate Hc; reflexivity. Qed.

(** ** Containers *)

(** What follows the first part of a joined list. *)
Definition following (l : list string) (close : string) : string :=
  match l with [] => close | _ => String "," (Join l "," ++ close) end.

Lemma Join_cons_app t l close : Join (t :: l) "," ++ close = t ++ following l close.
Proof. destruct l as [|t' l]; [done|]. change (Join (t :: t' :: l) ",") with (t ++ "," ++ Join (t' :: l) ","). by rewrite !append_assoc. Qed.

Lemma following_ends l c close : ends_number (String c close) = true -> ends_number (following l (String c close)) = true.
Proof. by destruct l. Qed.

Definition entry_text (en : string * string) : string := let '(key, text) := en in Marshal_string key ++ ":" ++ text.

Section containers.
Context (f : string -> option (json * string)).

(** [f] reads [text] as [w], whatever follows. *)
Definition reads (text : string) (w : json) : Prop :=
  forall rest, ends_number rest = true -> f (text ++ rest) = Some (w, rest).

Lemma scan_elements_Join texts ws :
  Forall2 reads texts ws -> texts <> [] -> forall fuel rest,
  List.length texts <= fuel -> scan_elements f fuel (Join texts "," ++ String "]" rest) = Some (ws, rest).
Proof.
  induction 1 as [|t w texts ws Ht Hts IH]; [done|]. intros _ [|fuel] rest Hf; [simpl in Hf; lia|].
  cbn [scan_elements]. rewrite Join_cons_app, Ht by by apply following_ends. cbn [mbind option_bind].
  destruct Hts as [|t' w' texts ws Ht' Hts]; [done|]. cbn [following].
  change (skip_space (String "," ?s)) with (String "," s). cbv iota. rewrite IH; [done..|]. simpl in Hf |- *. lia.
Qed.

Lemma scan_members_Join entries ws :
  Forall2 (fun '(key, text) '(key', w) => key = key' /\ utf8 key /\ reads text w) entries ws -> entries <> [] ->
  forall fuel rest, List.length entries <= fuel ->
  scan_members f fuel (Join (map entry_text entries) "," ++ String "}" rest) = Some (ws, rest).
Proof.
  induction 1 as [|[k t] [k' w] entries ws (<- & Hk & Ht) Hts IH]; [done|]. intros _ [|fuel] rest Hf; [simpl in Hf; lia|].
  cbn [scan_members map]. rewrite Join_cons_app. cbn [entry_text]. rewrite !append_assoc.
  match goal with |- context [Marshal_string k ++ ?more] => destruct (scan_Marshal_string k more Hk) as (text & -> & Hscan) end.
  change (skip_space (String "034" text)) with (String "034" text). cbv iota. rewrite Hscan. cbn [mbind option_bind].
  change (skip_space (":" ++ ?s)) with (String ":" s). cbv iota. rewrite Ht by by apply following_ends. cbn [mbind option_bind].
  destruct Hts as [|e e' entries ws He Hts]; [done|]. cbn [map following].
  change (skip_space (String "," ?s)) with (String "," s). cbv iota. rewrite IH; [done..|]. simpl in Hf |- *. lia.
Qed.
End containers.

Lemma Forall2_choose {A B} (R : A -> B -> Prop) l : (forall a, a ∈ l -> exists b, R a b) -> exists k, Forall2 R l k.
Proof.
  induction l as [|a l IH]; intros Hl; [by exists []|].
  destruct (Hl a) as [b Hb]; [left|]. destruct IH as [k Hk]; [intros; apply Hl; by right|]. exists (b :: k). by constructor.
Qed.

Lemma length_Join_elem t l : t ∈ l -> String.length t <= String.length (Join l ",").
Proof.
  induction l as [|u l IH]; [by intros ?%not_elem_of_nil|]. intros [->|Ht]%elem_of_cons.
  - destruct l; [done|]. simpl. rewrite length_app_str. lia.
  - specialize (IH Ht). destruct l as [|w l]; [by apply not_elem_of_nil in Ht|].
    change (Join (u :: w :: l) ",") with (u ++ "," ++ Join (w :: l) ","). rewrite !length_app_str. lia.
Qed.

Lemma length_Join l : List.length l <= S (String.length (Join l ",")).
Proof.
  induction l as [|t l IH]; [simpl; lia|]. destruct l as [|u l]; [simpl; lia|].
  change (Join (t :: u :: l) ",") with (t ++ "," ++ Join (u :: l) ","). rewrite !length_app_str. simpl in *. lia.
Qed.

Lemma elem_of_sorted_entries {A} (m : gmap string A) key v : (key, v) ∈ sorted_entries m <-> m !! key = Some v.
Proof. unfold sorted_entries. by rewrite merge_sort_Permutation, elem_of_map_to_list. Qed.

Lemma NoDup_sorted_entries {A} (m : gmap string A) : NoDup (sorted_entries m).*1.
Proof. unfold sorted_entries. rewrite merge_sort_Permutation. apply NoDup_fst_map_to_list. Qed.

Lemma length_sorted_entries {A} (m : gmap string A) : List.length (sorted_entries m) = size m.
Proof. unfold sorted_entries. rewrite merge_sort_Permutation. apply length_map_to_list. Qed.

(** The members of an object, read back one by one. *)
Lemma DeepEqual_members (m : gmap string json) ws :
  NoDup ws.*1 -> List.length ws = size m ->
  (forall key w, (key, w) ∈ ws -> exists v, m !! key = Some v /\ DeepEqual v w = true) ->
  DeepEqual (JObject m) (object_of ws) = true.
Proof.
  intros Hnd Hlen Hws. unfold object_of.
  rewrite (list_to_map_proper (rev ws) ws) by (try done; by rewrite <- Permutation_rev).
  assert (Hm : forall key, is_Some (m !! key) -> is_Some ((list_to_map ws : gmap string json) !! key)).
  { assert (Hsub : dom (list_to_map ws : gmap string json) ⊆ dom m).
    { intros key. rewrite !elem_of_dom. intros [w Hw%elem_of_list_to_map_2]. destruct (Hws _ _ Hw) as (v & -> & _). eauto. }
    assert (Heq : dom m ⊆ dom (list_to_map ws : gmap string json)).
    { intros key. rewrite (set_subseteq_size_eq _ _ Hsub); [done|]. rewrite !size_dom, <- Hlen, map_size_list_to_map by done. done. }
    intros key Hk%elem_of_dom. by apply elem_of_dom, Heq. }
  apply DeepEqual_object. split; [by rewrite map_size_list_to_map|].
  intros key v Hv. destruct (Hm key) as [w Hw]; [by exists v|]. exists w. split; [done|].
  apply elem_of_list_to_map_2 in Hw. destruct (Hws _ _ Hw) as (v' & Hv' & Heq). by replace v with v' by congruence.
Qed.

(** ** Texts and the values they spell *)

(** [t] is read as [x], whatever comes behind it. *)
Definition spells_float (x : float64) (t : string) : Prop :=
  forall rest, ends_number rest = true -> scan_number (t ++ rest) = Some (x, rest).

(** [t] is a text of the value, with the members of its objects in any order. *)
Inductive spells : json -> string -> Prop :=
  | spells_null : spells JNull "null"
  | spells_bool (b : bool) : spells (JBool b) (if b then "true" else "false")
  | spells_number x t : spells_float x t -> spells (JNumber x) t
  | spells_string s : utf8 s -> spells (JString s) (Marshal_string s)
  | spells_array l ts : Forall2 spells l ts -> spells (JArray l) ("[" ++ Join ts "," ++ "]")
  | spells_object (m : gmap string json) entries :
      NoDup entries.*1 ->
      (forall key, is_Some (m !! key) -> key ∈ entries.*1) ->
      (forall key t, (key, t) ∈ entries -> utf8 key /\ exists v, m !! key = Some v /\ spells v t) ->
      spells (JObject m) ("{" ++ Join (map entry_text entries) "," ++ "}").

Lemma spells_starts v t : spells v t -> exists c t', t = String c t' /\ starts_value c = true.
Proof.
  intros Hv. destruct Hv as [|[]|x t Hx|s|l|m]; try (eexists _, _; split; reflexivity).
  specialize (Hx "" eq_refl). destruct t as [|c t]; [discriminate Hx|]. exists c, t. split; [done|].
  apply scan_number_starts in Hx. unfold starts_value. apply orb_true_iff in Hx as [->|Hc%Ascii.eqb_eq]; [done|].
  subst c. done.
Qed.

Lemma scan_value_array fuel d s c t :
  (d < maxNestingDepth)%N -> s = String c t -> starts_value c = true ->
  scan_value (S fuel) d (String "[" s) = '(l, s) ← scan_elements (scan_value fuel (d + 1)) fuel s; Some (JArray l, s).
Proof.
  intros Hd%N.leb_gt -> Hc. cbn [scan_value]. change (skip_space (String "[" ?s)) with (String "[" s). cbv iota. rewrite Hd.
  rewrite starts_value_skip by done. destruct c as [[] [] [] [] [] [] [] []]; try reflexivity; discriminate Hc.
Qed.

Lemma scan_value_object fuel d s t :
  (d < maxNestingDepth)%N -> s = String "034" t ->
  scan_value (S fuel) d (String "{" s) = '(l, s) ← scan_members (scan_value fuel (d + 1)) fuel s; Some (object_of l, s).
Proof.
  intros Hd%N.leb_gt ->. cbn [scan_value]. change (skip_space (String "{" ?s)) with (String "{" s). cbv iota. by rewrite Hd.
Qed.

Lemma scan_array fuel d ts ws :
  (d < maxNestingDepth)%N -> String.length ("[" ++ Join ts "," ++ "]") <= S fuel ->
  (forall t, t ∈ ts -> exists c t', t = String c t' /\ starts_value c = true) ->
  Forall2 (reads (scan_value fuel (d + 1))) ts ws ->
  reads (scan_value (S fuel) d) ("[" ++ Join ts "," ++ "]") (JArray ws).
Proof.
  intros Hd Hf Hts Hws rest _. rewrite !append_assoc. cbn [String.append].
  destruct Hws as [|t w ts ws Ht Hws].
  { apply N.leb_gt in Hd. cbn [scan_value]. change (skip_space (String "[" ?s)) with (String "[" s). cbv iota. by rewrite Hd. }
  destruct (Hts t) as (c & t' & Hstart & Hc); [by left|].
  assert (Hcons : exists t'', Join (t :: ts) "," ++ String "]" rest = String c t'').
  { rewrite Join_cons_app, Hstart. cbn [String.append]. eauto. }
  destruct Hcons as [t'' Hcons]. pose proof (length_Join (t :: ts)) as Hlen.
  rewrite (scan_value_array _ _ _ c t'') by done.
  rewrite (scan_elements_Join _ _ (w :: ws)); [done|by constructor|done|].
  cbn [String.append String.length] in Hf. rewrite !length_app_str in Hf. simpl in *. lia.
Qed.

Lemma scan_object fuel d entries ws :
  (d < maxNestingDepth)%N -> String.length ("{" ++ Join (map entry_text entries) "," ++ "}") <= S fuel ->
  Forall2 (fun '(key, text) '(key', w) => key = key' /\ utf8 key /\ reads (scan_value fuel (d + 1)) text w) entries ws ->
  reads (scan_value (S fuel) d) ("{" ++ Join (map entry_text entries) "," ++ "}") (object_of ws).
Proof.
  intros Hd Hf Hws rest _. rewrite !append_assoc. cbn [String.append] in *.
  destruct Hws as [|[k t] [k' w] entries ws He Hws].
  { apply N.leb_gt in Hd. cbn [scan_value]. change (skip_space (String "{" ?s)) with (String "{" s). cbv iota. by rewrite Hd. }
  pose proof (length_Join (map entry_text ((k, t) :: entries))) as Hlen.
  assert (Hstart : exists t', Join (map entry_text ((k, t) :: entries)) "," ++ String "}" rest = String "034" t').
  { cbn [map]. rewrite Join_cons_app. cbn [entry_text]. unfold Marshal_string, quote. cbn [String.append]. eauto. }
  destruct Hstart as [t' Hstart]. etrans; [apply (scan_value_object _ _ _ t' Hd Hstart)|].
  rewrite (scan_members_Join _ _ ((k', w) :: ws)); [done|by constructor|done|].
  rewrite length_map in Hlen. cbn [String.length] in Hf. rewrite length_app_str in Hf. cbn [String.length] in Hf. lia.
Qed.

Lemma length_entry key t entries : (key, t) ∈ entries -> String.length t <= String.length (Join (map entry_text entries) ",").
Proof.
  intros Hin. pose proof (length_Join_elem _ _ (list_elem_of_fmap_2 entry_text _ _ Hin)) as Hlen.
  change (entry_text <$> entries) with (map entry_text entries) in Hlen. cbn [entry_text] in Hlen.
  rewrite !length_app_str in Hlen. lia.
Qed.

(** The members that are read are those of the map. *)
Lemma object_of_entries (m : gmap string json) (ws : list (string * json)) :
  NoDup ws.*1 -> (forall key, is_Some (m !! key) -> key ∈ ws.*1) -> (forall key w, (key, w) ∈ ws -> m !! key = Some w) ->
  object_of ws = JObject m.
Proof.
  intros Hnd Hall Hws. unfold object_of. f_equal.
  rewrite (list_to_map_proper (rev ws) ws) by (try done; by rewrite <- Permutation_rev).
  apply map_eq. intros key. destruct (m !! key) as [v|] eqn:Hm.
  - destruct (proj1 (list_elem_of_fmap fst ws key)) as ([k w] & -> & Hin); [apply Hall; eauto|]. cbn [fst] in *.
    pose proof (Hws k w Hin) as Hw. apply elem_of_list_to_map_1; [done|]. by replace v with w by congruence.
  - apply not_elem_of_list_to_map_1. intros ([k w] & -> & Hin)%list_elem_of_fmap. apply Hws in Hin. cbn [fst] in *. congruence.
Qed.

Lemma scan_spells fuel : forall v t d,
  spells v t -> String.length t <= fuel -> (d + N.of_nat (depth v) <= maxNestingDepth)%N -> reads (scan_value (S fuel) d) t v.
Proof.
  induction fuel as [|fuel IH]; intros v t d Hv Hf Hd.
  { destruct (spells_starts v t Hv) as (c & t' & -> & _). simpl in Hf. lia. }
  destruct Hv as [|b|x t Hx|s Hs|l ts Hl|m entries Hnd Hall Hm].
  - intros rest _. by destruct rest.
  - intros rest _. by destruct b, rest.
  - pose proof (spells_starts (JNumber x) t (spells_number _ _ Hx)) as (c & t' & -> & _). intros rest Hr.
    specialize (Hx rest Hr). cbn [String.append] in *.
    rewrite scan_value_number by by eapply scan_number_starts. by rewrite Hx.
  - intros rest _. destruct (scan_Marshal_string s rest Hs) as (text & -> & Hscan).
    change (scan_value (S (S fuel)) d (String "034" text)) with ('(text, s) ← scan_string (String.length text) text; Some (JString text, s)).
    by rewrite Hscan.
  - pose proof (fun v (Hv : v ∈ l) => depth_element l v Hv) as Hdepth. apply scan_array; [simpl in Hd; lia|lia| |].
    + intros t (i & Ht)%list_elem_of_lookup. destruct (Forall2_lookup_r _ _ _ _ _ Hl Ht) as (v & _ & Hv). by eapply spells_starts.
    + apply Forall2_same_length_lookup_2; [by apply Forall2_length in Hl|]. intros i t v Ht Hv.
      apply IH; [by eapply Forall2_lookup_lr| |].
      * apply list_elem_of_lookup_2, length_Join_elem in Ht. rewrite !length_app_str in Hf. simpl in Hf. lia.
      * apply list_elem_of_lookup_2, Hdepth in Hv. lia.
  - pose proof (fun key v (Hv : m !! key = Some v) => depth_lookup m key v Hv) as Hdepth.
    destruct (Forall2_choose (fun '(key, text) '(key', w) => (key = key' /\ utf8 key /\ reads (scan_value (S fuel) (d + 1)) text w) /\
      m !! key = Some w) entries) as [ws Hws].
    { intros [key t] Hin. destruct (Hm key t Hin) as (Hkey & v & Hv & Ht). exists (key, v). split; [|done]. split_and!; [done..|].
      apply IH; [done| |apply Hdepth in Hv; lia].
      apply length_entry in Hin. rewrite !length_app_str in Hf. simpl in Hf. lia. }
    assert (Hk : ws.*1 = entries.*1).
    { clear -Hws. induction Hws as [|[k t] [k' w] ? ? [(<- & _) _] _ IH]; [done|]. cbn. f_equal. exact IH. }
    rewrite <- (object_of_entries m ws); [|by rewrite Hk|by rewrite Hk|].
    + apply scan_object; [simpl in Hd; lia|lia|]. eapply Forall2_impl; [exact Hws|by intros [] [] []].
    + intros key w (i & Hi)%list_elem_of_lookup. destruct (Forall2_lookup_r _ _ _ _ _ Hws Hi) as ([k t] & _ & (-> & _) & Hv). exact Hv.
Qed.

(** A text decodes to the value it spells. *)
Lemma Unmarshal_spells v t : spells v t -> (N.of_nat (depth v) <= maxNestingDepth)%N -> Unmarshal t = Some v.
Proof.
  intros Hv Hd. pose proof (scan_spells (String.length t) v t 0 Hv) as Hr. unfold Unmarshal.
  specialize (Hr ltac:(lia) ltac:(lia) "" eq_refl). rewrite append_nil_r in Hr. by rewrite Hr.
Qed.

(** ** The round trip *)

(** The text written for a value spells an equal one. *)
Lemma write_spells number v :
  text_value (legible number) v -> exists w, spells w (write number v) /\ DeepEqual v w = true /\ depth w <= depth v.
Proof.
  induction v as [|b|x|s|l IH|m IH] using json_nested_ind; intros Hv; inversion Hv as [| |? Hx|? Hs|? Hl|? Hkeys Hm]; subst; cbn [write].
  - exists JNull. split; [constructor|done].
  - exists (JBool b). split_and!; [constructor|by destruct b|done].
  - destruct Hx as (y & Hy & Hscan). exists (JNumber y). split_and!; [by constructor|done..].
  - exists (JString s). split_and!; [by constructor|simpl; by case_bool_decide|done].
  - destruct (Forall2_choose (fun v w => spells w (write number v) /\ DeepEqual v w = true /\ depth w <= depth v) l) as [ws Hws].
    { intros v Hv'. apply IH; [done|]. by apply Hl. }
    exists (JArray ws). split_and!.
    + constructor. apply Forall2_fmap_r, Forall2_flip. eapply Forall2_impl; [exact Hws|by intros ?? []].
    + apply DeepEqual_array. eapply Forall2_impl; [exact Hws|by intros ?? (? & ? & ?)].
    + apply depth_array_le. intros w (i & Hi)%list_elem_of_lookup.
      destruct (Forall2_lookup_r _ _ _ _ _ Hws Hi) as (v & Hv' & _ & _ & Hd).
      apply list_elem_of_lookup_2, depth_element in Hv'. apply Nat.lt_succ_r. eapply Nat.le_lt_trans; [exact Hd|exact Hv'].
  - destruct (Forall2_choose (fun '(key, v) '(key', w) => key = key' /\ m !! key = Some v /\
      spells w (write number v) /\ DeepEqual v w = true /\ depth w <= depth v) (sorted_entries m)) as [ws Hws].
    { intros [key v] Hv'%elem_of_sorted_entries. destruct (IH key v Hv' (Hm key v Hv')) as (w & Hw). by exists (key, w). }
    assert (Hk : ws.*1 = (sorted_entries m).*1).
    { clear -Hws. induction Hws as [|[k v] [k' w] ? ? (<- & _) _ IH]; [done|]. cbn. f_equal. exact IH. }
    assert (Hnd : NoDup ws.*1) by (rewrite Hk; apply NoDup_sorted_entries).
    assert (Hof : forall key w, (key, w) ∈ ws -> exists v, m !! key = Some v /\ spells w (write number v) /\ DeepEqual v w = true /\ depth w <= depth v).
    { intros key w (i & Hi)%list_elem_of_lookup. destruct (Forall2_lookup_r _ _ _ _ _ Hws Hi) as ([k v] & _ & -> & Hv'). eauto. }
    exists (object_of ws). split_and!.
    + unfold object_of. set (n := list_to_map (rev ws)).
      assert (Hn : forall key w, n !! key = Some w <-> (key, w) ∈ ws).
      { intros key w. unfold n. rewrite (list_to_map_proper (rev ws) ws) by (try done; by rewrite <- Permutation_rev).
        by rewrite elem_of_list_to_map. }
      assert (Hin : forall key t, (key, t) ∈ sorted_entries (write number <$> m) -> exists v w, m !! key = Some v /\ n !! key = Some w /\ spells w t).
      { intros key t Ht. rewrite elem_of_sorted_entries, lookup_fmap in Ht. apply fmap_Some in Ht as (v & Hv' & ->).
        assert (Hkey : key ∈ ws.*1).
        { rewrite Hk. apply list_elem_of_fmap. exists (key, v). by rewrite elem_of_sorted_entries. }
        apply list_elem_of_fmap in Hkey as ([k w] & -> & Hw). cbn [fst] in *. destruct (Hof k w Hw) as (v' & ? & ? & _).
        exists v', w. rewrite Hn. split_and!; [done..|]. by replace v with v' by congruence. }
      apply (spells_object n (sorted_entries (write number <$> m))).
      * apply NoDup_sorted_entries.
      * intros key [w Hw%Hn]. destruct (Hof key w Hw) as (v & Hv' & _). apply list_elem_of_fmap.
        exists (key, write number v). by rewrite elem_of_sorted_entries, lookup_fmap, Hv'.
      * intros key t Ht. destruct (Hin key t Ht) as (v & w & Hv' & Hw & Hs). split; [by eapply Hkeys|eauto].
    + apply DeepEqual_members; [done| |].
      * rewrite <- (Forall2_length _ _ _ Hws). apply length_sorted_entries.
      * intros key w Hin. destruct (Hof key w Hin) as (v & ? & _ & ? & _). eauto.
    + unfold object_of. apply depth_object_le. intros key w Hw%elem_of_list_to_map_2. rewrite list_elem_of_In, <- in_rev, <- list_elem_of_In in Hw.
      destruct (Hof key w Hw) as (v & Hv' & _ & _ & Hd). apply depth_lookup in Hv'.
      apply Nat.lt_succ_r. eapply Nat.le_lt_trans; [exact Hd|exact Hv'].
Qed.

Lemma SFeqb_cases x y :
  SFeqb x y = true -> x = y \/ exists s t, x = S754_zero s /\ y = S754_zero t.
Proof.
  unfold SFeqb, SFcompare. change (Pos.compare_cont Eq) with Pos.compare.
  destruct x as [sx|[]| |[] mx ex], y as [sy|[]| |[] my ey]; try (intros H; discriminate H); eauto.
  all: destruct (Z.compare_spec ex ey) as [->| |]; [|intros Heq; discriminate Heq..];
    destruct (Pos.compare_spec mx my) as [->| |]; intros Heq; try discriminate Heq; by left.
Qed.

(** [json.Marshal] writes numbers that are read as they were. *)
Lemma spells_Marshal_float x : reads_back x = true -> spells_float x (Marshal_float x).
Proof.
  intros Hx. destruct (Marshal_float_legible x Hx) as (y & Heq & Hscan).
  destruct (SFeqb_cases x y Heq) as [->|(s & t & -> & ->)]; [done|]. intros rest Hr.
  destruct s; [apply (scan_zero true)|apply (scan_zero false)]; done.
Qed.

Lemma spells_Marshal v : text_value (fun x => reads_back x = true) v -> spells v (Marshal v).
Proof.
  induction v as [|b|x|s|l IH|m IH] using json_nested_ind; intros Hv; inversion Hv as [| |? Hx|? Hs|? Hl|? Hkeys Hm]; subst; cbn [Marshal].
  - constructor.
  - constructor.
  - constructor. by apply spells_Marshal_float.
  - by constructor.
  - constructor. apply Forall2_fmap_r, Forall_Forall2_diag, Forall_forall. intros v Hin. apply IH; [done|]. by apply Hl.
  - apply (spells_object m (sorted_entries (Marshal <$> m))).
    + apply NoDup_sorted_entries.
    + intros key [v Hk]. apply list_elem_of_fmap. exists (key, Marshal v). by rewrite elem_of_sorted_entries, lookup_fmap, Hk.
    + intros key t Ht. rewrite elem_of_sorted_entries, lookup_fmap in Ht. apply fmap_Some in Ht as (v & Hk & ->).
      split; [by eapply Hkeys|]. exists v. split; [done|]. apply IH with key; [done|]. by eapply Hm.
Qed.

(** The written text of a value decodes to an equal value. *)
Lemma Unmarshal_write number v :
  text_value (legible number) v -> (N.of_nat (depth v) <= maxNestingDepth)%N ->
  exists w, Unmarshal (write number v) = Some w /\ DeepEqual v w = true.
Proof.
  intros Hv Hd. destruct (write_spells number v Hv) as (w & Hw & Heq & Hdepth). exists w. split; [|done].
  apply Unmarshal_spells; [done|lia].
Qed.

(** ** What decoding gives *)

(** A value found at nesting [d] in a text. *)
Definition scanned (d : N) (v : json) : Prop :=
  text_value (fun _ => True) v /\ (d + N.of_nat (depth v) <= maxNestingDepth)%N.

Lemma scanned_array d l :
  (d < maxNestingDepth)%N -> (forall v, v ∈ l -> scanned (d + 1) v) -> scanned d (JArray l).
Proof.
  intros Hd Hl. split; [constructor; intros v Hv; by apply Hl|].
  enough (depth (JArray l) <= S (N.to_nat (maxNestingDepth - (d + 1)))) by lia.
  apply depth_array_le. intros v Hv. destruct (Hl v Hv). lia.
Qed.

Lemma scanned_object d ws :
  (d < maxNestingDepth)%N -> (forall key v, (key, v) ∈ ws -> utf8 key /\ scanned (d + 1) v) -> scanned d (object_of ws).
Proof.
  intros Hd Hws. unfold object_of.
  assert (Hm : forall key v, (list_to_map (rev ws) : gmap string json) !! key = Some v -> utf8 key /\ scanned (d + 1) v).
  { intros key v Hv%elem_of_list_to_map_2. apply Hws. by rewrite list_elem_of_In, in_rev, <- list_elem_of_In. }
  split.
  - constructor; intros key v Hv; destruct (Hm key v Hv) as [? []]; done.
  - enough (depth (JObject (list_to_map (rev ws))) <= S (N.to_nat (maxNestingDepth - (d + 1)))) by lia.
    apply depth_object_le. intros key v Hv. destruct (Hm key v Hv) as [_ [_ ?]]. lia.
Qed.

Section scanning.
Context (f : string -> option (json * string)) (P : json -> Prop).
Hypothesis values : forall s v rest, f s = Some (v, rest) -> P v.

Lemma scan_elements_values fuel : forall s l rest, scan_elements f fuel s = Some (l, rest) -> forall v, v ∈ l -> P v.
Proof.
  induction fuel as [|fuel IH]; intros s l rest; [done|]. cbn [scan_elements].
  destruct (f s) as [[w s1]|] eqn:E; [|done]. cbn [mbind option_bind]. apply values in E.
  assert (Hmore : forall s2, ('(l, s) ← scan_elements f fuel s2; Some (w :: l, s)) = Some (l, rest) -> forall v, v ∈ l -> P v).
  { intros s2. destruct (scan_elements f fuel s2) as [[k s3]|] eqn:E2; [|done]. intros [= <- _] v [->|Hv]%elem_of_cons; [done|].
    exact (IH _ _ _ E2 v Hv). }
  intros H. repeat (case_match; try discriminate H); try exact (Hmore _ H).
  injection H as <- _. by intros v ->%list_elem_of_singleton.
Qed.

Lemma scan_members_values fuel : forall s l rest,
  scan_members f fuel s = Some (l, rest) -> forall key v, (key, v) ∈ l -> utf8 key /\ P v.
Proof.
  induction fuel as [|fuel IH]; intros s l rest; [done|]. cbn [scan_members].
  assert (Hkey : forall s1, ('(key, s) ← scan_string (String.length s1) s1;
      match skip_space s with
      | String ":" s =>
          '(v, s) ← f s;
          match skip_space s with
          | String "}" s => Some ([(key, v)], s)
          | String "," s => '(l, s) ← scan_members f fuel s; Some ((key, v) :: l, s)
          | _ => None
          end
      | _ => None
      end) = Some (l, rest) -> forall key v, (key, v) ∈ l -> utf8 key /\ P v).
  { intros s1. destruct (scan_string _ s1) as [[name s2]|] eqn:Es; [|done]. cbn [mbind option_bind].
    apply scan_string_utf8 in Es.
    assert (Hval : forall s3, ('(v, s) ← f s3;
          match skip_space s with
          | String "}" s => Some ([(name, v)], s)
          | String "," s => '(l, s) ← scan_members f fuel s; Some ((name, v) :: l, s)
          | _ => None
          end) = Some (l, rest) -> forall key v, (key, v) ∈ l -> utf8 key /\ P v).
    { intros s3. destruct (f s3) as [[w s4]|] eqn:Ef; [|done]. cbn [mbind option_bind]. apply values in Ef.
      assert (Hmore : forall s5, ('(l, s) ← scan_members f fuel s5; Some ((name, w) :: l, s)) = Some (l, rest) ->
        forall key v, (key, v) ∈ l -> utf8 key /\ P v).
      { intros s5. destruct (scan_members f fuel s5) as [[k s6]|] eqn:E; [|done].
        intros [= <- _] key v [[= -> ->]|Hv]%elem_of_cons; [done|]. exact (IH _ _ _ E key v Hv). }
      intros H. repeat (case_match; try discriminate H); try exact (Hmore _ H).
      injection H as <- _. by intros key v [= -> ->]%list_elem_of_singleton. }
    intros H. repeat (case_match; try discriminate H); exact (Hval _ H). }
  intros H. repeat (case_match; try discriminate H); exact (Hkey _ H).
Qed.
End scanning.

Lemma scan_value_scanned fuel : forall d s v rest,
  (d <= maxNestingDepth)%N -> scan_value fuel d s = Some (v, rest) -> scanned d v.
Proof.
  induction fuel as [|fuel IH]; intros d s v rest Hd; [done|].
  assert (Hleaf : forall w, text_value (fun _ => True) w -> depth w = 0 -> scanned d w) by (intros w Hw H0; split; [done|lia]).
  assert (Hnum : forall s, ('(x, s) ← scan_number s; Some (JNumber x, s)) = Some (v, rest) -> scanned d v).
  { intros s'. destruct (scan_number s') as [[x s1]|]; [|done]. intros [= <- _]. apply Hleaf; [by constructor|done]. }
  assert (Hstr : forall s, ('(text, s) ← scan_string (String.length s) s; Some (JString text, s)) = Some (v, rest) -> scanned d v).
  { intros s'. destruct (scan_string _ s') as [[t s1]|] eqn:E; [|done]. intros [= <- _]. apply scan_string_utf8 in E.
    apply Hleaf; [by constructor|done]. }
  assert (Hword : forall w x s, text_value (fun _ => True) x -> depth x = 0 -> scan_word w x s = Some (v, rest) -> scanned d v).
  { intros w x s' Hx H0. unfold scan_word. destruct (HasPrefix s' w); [|done]. intros [= <- _]. by apply Hleaf. }
  assert (Harr : forall s, (d < maxNestingDepth)%N ->
    ('(l, s) ← scan_elements (scan_value fuel (d + 1)) fuel s; Some (JArray l, s)) = Some (v, rest) -> scanned d v).
  { intros s' Hlt. destruct (scan_elements _ fuel s') as [[l s1]|] eqn:E; [|done]. intros [= <- _].
    apply scanned_array; [done|]. eapply scan_elements_values; [|exact E]. intros *. apply IH. lia. }
  assert (Hobj : forall s, (d < maxNestingDepth)%N ->
    ('(l, s) ← scan_members (scan_value fuel (d + 1)) fuel s; Some (object_of l, s)) = Some (v, rest) -> scanned d v).
  { intros s' Hlt. destruct (scan_members _ fuel s') as [[l s1]|] eqn:E; [|done]. intros [= <- _].
    apply scanned_object; [done|]. eapply scan_members_values; [|exact E]. intros *. apply IH. lia. }
  cbn [scan_value]. generalize (skip_space s) as t. intros t.
  destruct (maxNestingDepth <=? d)%N eqn:Hlt; [|apply N.leb_gt in Hlt].
  - clear Harr Hobj. intros H. repeat (case_match; try discriminate H); first
      [exact (Hnum _ H)|exact (Hstr _ H)|refine (Hword _ _ _ _ _ H); [constructor|reflexivity]].
  - specialize (fun s => Harr s Hlt). specialize (fun s => Hobj s Hlt).
    assert (scanned d (JArray [])) by (apply scanned_array; [done|by intros ? ?%not_elem_of_nil]).
    assert (scanned d (JObject ∅)) by (apply (scanned_object d []); [done|by intros ? ? ?%not_elem_of_nil]).
    intros H'. repeat (case_match; try discriminate H'); first
      [exact (Hnum _ H')|exact (Hstr _ H')|exact (Harr _ H')|exact (Hobj _ H')|by injection H' as <- _
      |refine (Hword _ _ _ _ _ H'); [constructor|reflexivity]].
Qed.

Lemma Unmarshal_text text v :
  Unmarshal text = Some v -> text_value (fun _ => True) v /\ (N.of_nat (depth v) <= maxNestingDepth)%N.
Proof.
  unfold Unmarshal. destruct (scan_value _ 0 text) as [[w rest]|] eqn:E; [|done]. cbn [mbind option_bind].
  destruct (decide _); [|done]. intros [= <-]. apply scan_value_scanned in E as [Hw Hd]; [done|lia].
Qed.

(** [p] holds of all numbers of a value. *)
Fixpoint all_numbers (p : float64 -> bool) (v : json) : bool :=
  match v with
  | JNumber x => p x
  | JArray l => forallb (all_numbers p) l
  | JObject m => map_fold (fun _ v ok => all_numbers p v && ok) true m
  | _ => true
  end.

Lemma all_numbers_object p m key v : all_numbers p (JObject m) = true -> m !! key = Some v -> all_numbers p v = true.
Proof.
  intros Hm Hv. cbn [all_numbers] in Hm. rewrite <- (insert_delete_id m key v Hv) in Hm.
  rewrite map_fold_insert_L in Hm; [by apply andb_true_iff in Hm as [? _]| |by rewrite lookup_delete_eq].
  intros. by rewrite !andb_assoc, (andb_comm (all_numbers p _)).
Qed.

Lemma text_value_numbers (p : float64 -> bool) (ok : float64 -> Prop) v :
  text_value (fun _ => True) v -> all_numbers p v = true -> (forall x, p x = true -> ok x) -> text_value ok v.
Proof.
  intros Hv Hp Hok. induction Hv as [| |x _|s Hs|l Hl IH|m Hk Hm IH]; try by constructor.
  - constructor. by apply Hok.
  - constructor. intros v Hv. apply IH; [done|]. cbn [all_numbers] in Hp. rewrite forallb_forall in Hp.
    by apply Hp, list_elem_of_In.
  - constructor; [done|]. intros key v Hv. eapply IH; [done|]. by eapply all_numbers_object.
Qed.

(** ** Equal values have equal texts *)

Lemma write_DeepEqual number v :
  (forall x y, SFeqb x y = true -> number x = number y) ->
  forall w, DeepEqual v w = true -> write number v = write number w.
Proof.
  intros Hnum. induction v as [|b|x|s|l IH|m IH] using json_nested_ind; intros w H; destruct w; try discriminate H; try done.
  - by apply Bool.eqb_prop in H as ->.
  - by apply Hnum.
  - simpl in H. by apply bool_decide_eq_true in H as ->.
  - apply DeepEqual_array in H. cbn [write]. do 3 f_equal.
    induction H as [|v w l k Hv Hl IHl]; [done|]. cbn [map]. f_equal; [by apply IH; [left|]|].
    apply IHl. intros u Hu. apply IH. by right.
  - rewrite DeepEqual_lookup in H. cbn [write]. do 5 f_equal. apply map_eq. intros key. rewrite !lookup_fmap.
    specialize (H key). destruct (m !! key) as [v|] eqn:E; inversion H; subst; [|done]. simpl. f_equal. by eapply IH.
Qed.
