(* ===== verification/AvroParser.v ===== *)
(** * The Avro parser (internal/schema/avro/parser.go)

    Parsing with references, the checks on the parsed schema, and the canonical
    text with its fingerprint.  github.com/hamba/avro, which decides what is a
    schema, is a parameter; of a parsed schema this is what the code looks at.  In messages
    names are quoted without escapes. *)
From S2P Require Import Prelude GoStrings GoFloat GoJson JsonValue StorageTypes.
From Stdlib Require Import Ascii String.

Local Open Scope string_scope.

(** ** Canonical text *)

(** [obj[key].(string)] *)
Definition string_member (obj : gmap string json) (key : string) : option string :=
  match obj !! key with Some (JString s) => Some s | _ => None end.

Definition isNonCanonicalField (field : string) : bool := bool_decide (field ∈ ["doc"; "aliases"; "default"; "order"]).

(** The keys of an object that are written, in their order. *)
Definition fieldOrder (schemaType : string) (obj : gmap string json) : list string :=
  if decide (schemaType ∈ ["record"; "error"]) then ["name"; "type"; "fields"]
  else if decide (schemaType = "enum") then ["name"; "type"; "symbols"]
  else if decide (schemaType = "array") then ["type"; "items"]
  else if decide (schemaType = "map") then ["type"; "values"]
  else if decide (schemaType = "fixed") then ["name"; "type"; "size"]
  else map fst (sorted_entries obj).

(** The namespace inside a type, and the object with its name qualified. *)
Definition qualify (schemaType : string) (obj : gmap string json) (parentNamespace : string) : string * gmap string json :=
  if decide (schemaType ∈ ["record"; "error"; "enum"; "fixed"]) then
    let name := from_opt "" (string_member obj "name") in
    let resolvedNamespace :=
      match string_member obj "namespace" with
      | Some explicitNS => if decide (explicitNS = "") then parentNamespace else explicitNS
      | None => parentNamespace
      end in
    (resolvedNamespace,
     if negb (contains_byte "." name) && negb (bool_decide (resolvedNamespace = ""))
     then <["name" := JString (resolvedNamespace ++ "." ++ name)]> obj else obj)
  else (parentNamespace, obj).

Definition quoted_value (v : json) : string := quote (Sprint v).

(** The members of an object under some of its keys, in the order of the keys,
    with the text (or value) each gets. *)
Definition chosen {A} (f : string -> json -> option A) (obj : gmap string json) (order : list string) : list (string * A) :=
  omap (fun key => val ← obj !! key; a ← f key val; Some (key, a)) order.

Definition join_members (parts : list (string * string)) : string :=
  "{" ++ Join (map (fun '(key, valStr) => quote key ++ ":" ++ valStr) parts) "," ++ "}".

Section object.
Context (canonicalizeValue : json -> string -> string).

Definition fieldPart (parentNamespace key : string) (val : json) : option string :=
  Some (if decide (key = "name") then quoted_value val
        else if decide (key = "type") then canonicalizeValue val parentNamespace
        else Marshal val).

Definition canonicalizeField (field : gmap string json) (parentNamespace : string) : string :=
  join_members (chosen (fieldPart parentNamespace) field ["name"; "type"; "default"]).

(** The text of a member; [None] is a member that is left out, or one whose text
    is empty: a fields or symbols entry that is no array. *)
Definition canonicalizeMember (resolvedNamespace key : string) (val : json) : option string :=
  if isNonCanonicalField key then None
  else if decide (key = "fields") then
    match val with
    | JArray fields =>
        Some ("[" ++ Join (map (fun f => match f with JObject fobj => canonicalizeField fobj resolvedNamespace | _ => "" end)
                             fields) "," ++ "]")
    | _ => None
    end
  else if decide (key = "symbols") then
    match val with
    | JArray symbols => Some ("[" ++ Join (map quoted_value symbols) "," ++ "]")
    | _ => None
    end
  else
    let valStr := canonicalizeValue val resolvedNamespace in
    if decide (valStr = "") then None else Some valStr.

Definition canonicalizeObject (obj : gmap string json) (parentNamespace : string) : string :=
  let schemaType := from_opt "" (string_member obj "type") in
  let '(resolvedNamespace, obj) := qualify schemaType obj parentNamespace in
  join_members (chosen (canonicalizeMember resolvedNamespace) obj (fieldOrder schemaType obj)).
End object.

(** The fuel is the nesting of the value. *)
Fixpoint canonicalizeValue (fuel : nat) (v : json) (parentNamespace : string) : string :=
  match fuel with
  | O => ""
  | S fuel =>
      match v with
      | JString val => quote val
      | JArray val => "[" ++ Join (map (fun item => canonicalizeValue fuel item parentNamespace) val) "," ++ "]"
      | JObject val => canonicalizeObject (canonicalizeValue fuel) val parentNamespace
      | val => Marshal val
      end
  end.

Definition canonicalize (schemaStr : string) : string :=
  match Unmarshal schemaStr with
  | None => TrimSpace schemaStr
  | Some obj => canonicalizeValue (S (depth obj)) obj ""
  end.

(** ** Parsed schemas *)

(** What every schema of hamba/avro has. *)
Record SchemaInfo := MkSchemaInfo {
  FullName : string;
  CacheFingerprint : string;
  SchemaString : string
}.

Inductive Schema :=
  | RecordSchema (info : SchemaInfo) (Fields : list (string * Schema))
  | FixedSchema (info : SchemaInfo) (Size : Z)
  | ArraySchema (info : SchemaInfo) (Items : Schema)
  | MapSchema (info : SchemaInfo) (Values : Schema)
  | UnionSchema (info : SchemaInfo) (Types : list Schema)
  | RefSchema (info : SchemaInfo)
  | OtherSchema (info : SchemaInfo).    (* primitive types, enums, null *)

Definition info (s : Schema) : SchemaInfo :=
  match s with
  | RecordSchema i _ | FixedSchema i _ | ArraySchema i _ | MapSchema i _ | UnionSchema i _ | RefSchema i | OtherSchema i => i
  end.

(** ** Checks on a parsed schema *)

Abbreviation visited_set := (gset string).

(** The outcome of a check and the fingerprints that were visited. *)
Definition check_state : Type := option error * visited_set.

Definition and_then (st : check_state) (k : visited_set -> check_state) : check_state :=
  match st with (Some err, visited) => (Some err, visited) | (None, visited) => k visited end.

Section children.
Context (check : Schema -> visited_set -> check_state).

(** The fields in order: a name that was seen is an error. *)
Fixpoint validateFields (fullName : string) (fields : list (string * Schema)) (seen : gset string) (visited : visited_set)
    : check_state :=
  match fields with
  | [] => (None, visited)
  | (name, type) :: fields =>
      if decide (name ∈ seen)
      then (Some (errors_New ("record " ++ quote fullName ++ " has duplicate field name " ++ quote name)), visited)
      else and_then (check type visited) (validateFields fullName fields ({[ name ]} ∪ seen))
  end.

Fixpoint validateTypes (types : list Schema) (visited : visited_set) : check_state :=
  match types with
  | [] => (None, visited)
  | t :: types => and_then (check t visited) (validateTypes types)
  end.
End children.

Fixpoint validateAvroSchemaRecursive (s : Schema) (visited : visited_set) : check_state :=
  match s with
  | RefSchema _ => (None, visited)
  | _ =>
      let fp := CacheFingerprint (info s) in
      if decide (fp ∈ visited) then (None, visited)
      else
        let visited := {[ fp ]} ∪ visited in
        match s with
        | RecordSchema i fields => validateFields validateAvroSchemaRecursive (FullName i) fields ∅ visited
        | FixedSchema i size =>
            if (size <=? 0)%Z
            then (Some (errors_New ("fixed type " ++ quote (FullName i) ++ " has invalid size " ++ Itoa size ++ ": must be greater than 0")),
                  visited)
            else (None, visited)
        | ArraySchema _ items => validateAvroSchemaRecursive items visited
        | MapSchema _ values => validateAvroSchemaRecursive values visited
        | UnionSchema _ types => validateTypes validateAvroSchemaRecursive types visited
        | _ => (None, visited)
        end
  end.

Definition validateAvroSchema (s : Schema) : option error := fst (validateAvroSchemaRecursive s ∅).

(** ** Parsing *)

(** github.com/hamba/avro: a cache of named types, and parsing with and without
    one of the caller's. *)
Record AvroLib := MkAvroLib {
  SchemaCache : Type;
  emptyCache : SchemaCache;
  ParseWithCache : string -> SchemaCache -> result Schema * SchemaCache;
  avro_Parse : string -> result Schema
}.

Record ParsedSchema := MkParsedSchema {
  canonical : string;
  fingerprint : string;
  rawSchema : Schema
}.

Section parser.
Context (lib : AvroLib) (Sum256_hex : string -> string).

Fixpoint addReferences (references : list Reference) (cache : SchemaCache lib) : result (SchemaCache lib) :=
  match references with
  | [] => Ok cache
  | ref :: references =>
      if decide (StorageTypes.RefSchema ref = "") then addReferences references cache
      else
        match ParseWithCache lib (StorageTypes.RefSchema ref) cache with
        | (Err err, _) => Err (Errorf_w ("invalid reference schema " ++ quote (RefName ref) ++ ": ") err "")
        | (Ok _, cache) => addReferences references cache
        end
  end.

Definition Parse (schemaStr : string) (references : list Reference) : result ParsedSchema :=
  let invalid err := Err (Errorf_w "invalid Avro schema: " err "") in
  let build avroSchema :=
    match avroSchema with
    | Err err => invalid err
    | Ok avroSchema =>
        match validateAvroSchema avroSchema with
        | Some err => invalid err
        | None => Ok (MkParsedSchema (canonicalize schemaStr) (Sum256_hex (canonicalize schemaStr)) avroSchema)
        end
    end in
  match references with
  | [] => build (avro_Parse lib schemaStr)
  | _ =>
      match addReferences references (emptyCache lib) with
      | Err err => Err err
      | Ok cache => build (fst (ParseWithCache lib schemaStr cache))
      end
  end.
End parser.

(** ** A parsed schema *)

Definition CanonicalString (p : ParsedSchema) : string := canonical p.
Definition Fingerprint (p : ParsedSchema) : string := fingerprint p.

Definition Normalize (p : ParsedSchema) : ParsedSchema := MkParsedSchema (canonical p) (fingerprint p) (rawSchema p).

Definition HasTopLevelField (p : ParsedSchema) (field : string) : bool :=
  match rawSchema p with
  | RecordSchema _ fields => existsb (fun '(name, _) => bool_decide (name = field)) fields
  | _ => false
  end.

Definition FormattedString (p : ParsedSchema) (format : string) : string :=
  if decide (ToLower (TrimSpace format) = "resolved") then SchemaString (info (rawSchema p)) else canonical p.

(** ** Examples *)

Definition canonical_of (text : string) : string := canonicalize (quoted text).

(** Names are qualified, attributes dropped, members ordered. *)
Example canonical_record :
  canonical_of "{'type':'record','namespace':'a.b','doc':'x','name':'R','fields':[
     {'type':{'type':'enum','name':'E','symbols':['A','B'],'default':'A'},'name':'e','default':'B'}]}"
  = quoted "{'name':'a.b.R','type':'record','fields':[{'name':'e','type':{'name':'a.b.E','type':'enum','symbols':['A','B']},'default':'B'}]}".
Proof. vm_compute. reflexivity. Qed.

(** A dotted name does not hand its namespace down, as the specification has it:
    the enum inside [a.b.R] is [a.b.E] in the first schema and [x.E] in the second,
    and both have one canonical text, so the second is answered with the first. *)
Example nested_names_conflated :
  let outer inner := ("{'type':'record','name':'O','namespace':'x','fields':[{'name':'r','type':
    {'type':'record','name':'a.b.R','fields':[{'name':'e','type':" ++ inner ++ "}]}}]}")%string in
  canonical_of (outer "{'type':'enum','name':'E','symbols':['A']}") =
  canonical_of (outer "{'type':'enum','name':'x.E','symbols':['A']}").
Proof. vm_compute. reflexivity. Qed.

(** The default of an enum is dropped, though a reader's resolution depends on it
    as on the default of a field, which is kept. *)
Example enum_default_dropped :
  canonical_of "{'type':'enum','name':'E','symbols':['A','B'],'default':'A'}" = canonical_of "{'type':'enum','name':'E','symbols':['A','B']}".
Proof. vm_compute. reflexivity. Qed.

(** Strings are written without escapes: two schemas with different attributes
    may have one text. *)
Example attributes_conflated :
  canonical_of "{'type':'string','x':'\u0022,\u0022y\u0022:\u0022'}" = canonical_of "{'type':'string','x':'','y':''}".
Proof. vm_compute. reflexivity. Qed.
