(* ===== verification/AvroParserFacts.v ===== *)
(** * What the canonical text of an Avro schema identifies

    [essence] is what of a schema document counts, said without the code's key
    lists: which attributes of which type, and the full names.  For documents
    whose names can be written without escapes, two canonical texts are equal
    exactly when the essences are, and a canonical text is its own canonical
    text.  On the way, [reduce] is the document a canonical text spells, built
    along the code's own order of keys.  The last part is about the checks that
    follow parsing. *)
From S2P Require Import Prelude GoFloat GoJson JsonValue GoJsonFacts JsonText GoStrings StorageTypes AvroParser.
From Stdlib Require Import Ascii String.

Local Open Scope string_scope.
Local Open Scope nat_scope.

(** ** What counts of a schema document *)

Definition named_type (schemaType : string) : bool :=
  bool_decide (schemaType ∈ ["record"; "error"; "enum"; "fixed"]).

(** The attributes of a type that count: those of each complex type, and all but
    the descriptive ones of any other. *)
Definition counts (schemaType key : string) : bool :=
  if decide (schemaType = "record" \/ schemaType = "error") then bool_decide (key ∈ ["type"; "name"; "fields"])
  else if decide (schemaType = "enum") then bool_decide (key ∈ ["type"; "name"; "symbols"])
  else if decide (schemaType = "fixed") then bool_decide (key ∈ ["type"; "name"; "size"])
  else if decide (schemaType = "array") then bool_decide (key ∈ ["type"; "items"])
  else if decide (schemaType = "map") then bool_decide (key ∈ ["type"; "values"])
  else negb (bool_decide (key ∈ ["doc"; "aliases"; "default"; "order"])).

(** The namespace in a type: its own one, or the one around it.  A dotted name
    hands nothing down, where the Avro specification says it does. *)
Definition namespace_in (schemaType : string) (obj : gmap string json) (outer : string) : string :=
  match obj !! "namespace" with
  | Some (JString own) => if named_type schemaType && negb (bool_decide (own = "")) then own else outer
  | _ => outer
  end.

Definition full_name (name ns : string) : string :=
  if contains_byte "." name || bool_decide (ns = "") then name else ns ++ "." ++ name.

(** The attributes with the full name of a named type in a namespace. *)
Definition with_full_name (schemaType : string) (obj : gmap string json) (ns : string) : gmap string json :=
  let name := from_opt "" (string_member obj "name") in
  if named_type schemaType && negb (bool_decide (full_name name ns = name))
  then <["name" := JString (full_name name ns)]> obj else obj.

Section essence_object.
Context (essence : json -> string -> json).

Definition field_essence (field : gmap string json) (ns : string) : json :=
  JObject (map_imap (fun key val =>
    if decide (key = "name") then Some (JString (Sprint val))
    else if decide (key = "type") then Some (essence val ns)
    else if decide (key = "default") then Some val
    else None) field).

Definition attribute_essence (ns key : string) (val : json) : option json :=
  if decide (key = "fields") then
    match val with
    | JArray fields => Some (JArray (map (fun f => match f with JObject fobj => field_essence fobj ns | f => f end) fields))
    | _ => None
    end
  else if decide (key = "symbols") then
    match val with JArray symbols => Some (JArray (map (fun v => JString (Sprint v)) symbols)) | _ => None end
  else Some (essence val ns).

Definition type_essence (obj : gmap string json) (outer : string) : json :=
  let schemaType := from_opt "" (string_member obj "type") in
  let ns := namespace_in schemaType obj outer in
  JObject (map_imap (fun key val => if counts schemaType key then attribute_essence ns key val else None)
             (with_full_name schemaType obj ns)).
End essence_object.

(** The fuel is the nesting of the value. *)
Fixpoint essence (fuel : nat) (v : json) (outer : string) : json :=
  match fuel with
  | O => v
  | S fuel =>
      match v with
      | JArray types => JArray (map (fun t => essence fuel t outer) types)
      | JObject obj => type_essence (essence fuel) obj outer
      | v => v
      end
  end.

(** ** The reduced document *)

Section reduce_object.
Context (reduce : json -> string -> json).

Definition reducePart (parentNamespace key : string) (val : json) : option json :=
  Some (if decide (key = "name") then JString (Sprint val)
        else if decide (key = "type") then reduce val parentNamespace
        else val).

Definition reduceField (field : gmap string json) (parentNamespace : string) : json :=
  JObject (list_to_map (chosen (reducePart parentNamespace) field ["name"; "type"; "default"])).

Definition reduceMember (resolvedNamespace key : string) (val : json) : option json :=
  if isNonCanonicalField key then None
  else if decide (key = "fields") then
    match val with
    | JArray fields =>
        Some (JArray (map (fun f => match f with JObject fobj => reduceField fobj resolvedNamespace | f => f end) fields))
    | _ => None
    end
  else if decide (key = "symbols") then
    match val with
    | JArray symbols => Some (JArray (map (fun v => JString (Sprint v)) symbols))
    | _ => None
    end
  else Some (reduce val resolvedNamespace).

Definition reduceObject (obj : gmap string json) (parentNamespace : string) : json :=
  let schemaType := from_opt "" (string_member obj "type") in
  let '(resolvedNamespace, obj) := qualify schemaType obj parentNamespace in
  JObject (list_to_map (chosen (reduceMember resolvedNamespace) obj (fieldOrder schemaType obj))).
End reduce_object.

Fixpoint reduce (fuel : nat) (v : json) (parentNamespace : string) : json :=
  match fuel with
  | O => v
  | S fuel =>
      match v with
      | JArray val => JArray (map (fun item => reduce fuel item parentNamespace) val)
      | JObject val => reduceObject (reduce fuel) val parentNamespace
      | val => val
      end
  end.

(** ** Members in order *)

Lemma elem_of_chosen {A} (f : string -> json -> option A) obj order key a :
  (key, a) ∈ chosen f obj order <-> key ∈ order /\ exists val, obj !! key = Some val /\ f key val = Some a.
Proof.
  unfold chosen. rewrite list_elem_of_omap. split.
  - intros (k & Hk & (val & Hval & (a' & Ha & [= -> ->])%bind_Some)%bind_Some). eauto.
  - intros (Hk & val & Hval & Ha). exists key. split; [done|]. rewrite Hval; simpl; by rewrite Ha.
Qed.

Lemma chosen_keys {A} (f : string -> json -> option A) obj order : (chosen f obj order).*1 `sublist_of` order.
Proof.
  induction order as [|key order IH]; [constructor|]. unfold chosen. cbn [omap list_omap].
  destruct (obj !! key ≫= _) as [[k a]|] eqn:E; [|by constructor].
  apply bind_Some in E as (val & _ & (a' & _ & [= <- <-])%bind_Some). cbn. by constructor.
Qed.

Lemma NoDup_chosen {A} (f : string -> json -> option A) obj order : NoDup order -> NoDup (chosen f obj order).*1.
Proof. intros Hnd. eapply sublist_NoDup; [exact Hnd|apply chosen_keys]. Qed.

Lemma lookup_chosen {A} (f : string -> json -> option A) obj order key :
  NoDup order ->
  (list_to_map (chosen f obj order) : gmap string A) !! key =
  if decide (key ∈ order) then val ← obj !! key; f key val else None.
Proof.
  intros Hnd. apply option_eq. intros a. rewrite <- elem_of_list_to_map by by apply NoDup_chosen.
  rewrite elem_of_chosen. case_decide; [|naive_solver]. rewrite bind_Some. naive_solver.
Qed.

Lemma NoDup_fieldOrder schemaType obj : NoDup (fieldOrder schemaType obj).
Proof.
  unfold fieldOrder. repeat case_decide; try (refine (proj1 (bool_decide_eq_true _) _); vm_compute; reflexivity).
  apply NoDup_sorted_entries.
Qed.

Lemma sorted_entries_sorted {A} (m : gmap string A) : StronglySorted by_key (sorted_entries m).
Proof.
  apply StronglySorted_merge_sort.
  - intros [a x] [b y] [c z]. unfold by_key. simpl. apply transitivity.
  - intros [a x] [b y]. unfold by_key. simpl. apply total. apply _.
Qed.

Lemma chosen_keys_sorted {A B} (f : string -> json -> option A) (m : gmap string json) (l : list (string * B)) :
  StronglySorted by_key l -> StronglySorted by_key (chosen f m (map fst l)).
Proof.
  induction 1 as [|[key b] l Hl IH Hb]; [constructor|]. unfold chosen. cbn [map fst omap list_omap].
  destruct (m !! key ≫= _) as [[k a]|] eqn:E; [|exact IH].
  apply bind_Some in E as (val & _ & (a' & _ & [= <- <-])%bind_Some). constructor; [exact IH|].
  apply Forall_forall. intros [k' a''] [Hk _]%elem_of_chosen. apply list_elem_of_fmap in Hk as ([k b'] & -> & Hin).
  rewrite Forall_forall in Hb. exact (Hb _ Hin).
Qed.

(** Over its sorted keys, the members of an object are those of the map of what
    each gets, sorted. *)
Lemma chosen_sorted {A} (f : string -> json -> option A) (m : gmap string json) :
  chosen f m (map fst (sorted_entries m)) = sorted_entries (map_imap f m).
Proof.
  assert (Hnd : NoDup (map fst (sorted_entries m))) by apply NoDup_sorted_entries.
  assert (Hin : forall key a, (key, a) ∈ chosen f m (map fst (sorted_entries m)) <-> (key, a) ∈ sorted_entries (map_imap f m)).
  { intros key a. rewrite elem_of_chosen, elem_of_sorted_entries, map_lookup_imap, bind_Some. split; [naive_solver|].
    intros (val & Hval & Ha). split; [|eauto]. apply list_elem_of_fmap. exists (key, val). by rewrite elem_of_sorted_entries. }
  apply (StronglySorted_unique_strong by_key).
  - intros [k a] [k' a'] H1%Hin H2 Hle Hge. rewrite elem_of_sorted_entries in H1, H2. unfold by_key in *. simpl in *.
    assert (k = k') as -> by by apply (anti_symm String.le). congruence.
  - apply chosen_keys_sorted, sorted_entries_sorted.
  - apply sorted_entries_sorted.
  - apply NoDup_Permutation; [by eapply NoDup_fmap_1, NoDup_chosen|eapply NoDup_fmap_1, NoDup_sorted_entries|].
    intros []. apply Hin.
Qed.

Lemma list_to_map_sorted {A} (m : gmap string A) : list_to_map (sorted_entries m) = m.
Proof.
  apply map_eq. intros key. apply option_eq. intros a.
  by rewrite <- elem_of_list_to_map, elem_of_sorted_entries by apply NoDup_sorted_entries.
Qed.

Lemma string_member_Some m key s : string_member m key = Some s <-> m !! key = Some (JString s).
Proof. unfold string_member. destruct (m !! key) as [[]|]; naive_solver. Qed.

Lemma Sprint_string s : Sprint (JString s) = s.
Proof. done. Qed.

(** ** Reducing a document does not change its text *)

(** [f'] gives a reduced member the text [f] gives the member. *)
Definition preserves {A} (g : string -> json -> option json) (f f' : string -> json -> option A) : Prop :=
  forall key val, match g key val with Some v => f' key v = f key val | None => f key val = None end.

Lemma chosen_reduced {A} g (f f' : string -> json -> option A) m order :
  NoDup order -> preserves g f f' -> chosen f' (list_to_map (chosen g m order)) order = chosen f m order.
Proof.
  intros Hnd Hp. unfold chosen at 1 3. apply list_omap_ext, Forall_Forall2_diag, Forall_forall. intros key Hkey.
  rewrite lookup_chosen, decide_True by done. destruct (m !! key) as [val|]; [|done]. simpl. specialize (Hp key val).
  destruct (g key val); simpl; by rewrite Hp.
Qed.

Lemma chosen_fieldOrder {A} g (f f' : string -> json -> option A) m schemaType :
  preserves g f f' ->
  let red := list_to_map (chosen g m (fieldOrder schemaType m)) in
  chosen f' red (fieldOrder schemaType red) = chosen f m (fieldOrder schemaType m).
Proof.
  intros Hp. pose proof (NoDup_fieldOrder schemaType m) as Hnd. cbv zeta. unfold fieldOrder in *.
  repeat case_decide; try by apply chosen_reduced.
  rewrite !chosen_sorted. f_equal. apply map_eq. intros key.
  rewrite list_to_map_sorted, !map_lookup_imap.
  destruct (m !! key) as [val|]; [|done]. simpl. specialize (Hp key val). destruct (g key val); simpl; by rewrite Hp.
Qed.

Section reduced_object.
Context (canon : json -> string -> string) (red : json -> string -> json).
Hypothesis same : forall v ns, canon (red v ns) "" = canon v ns.

Lemma preserves_part ns : preserves (reducePart red ns) (fieldPart canon ns) (fieldPart canon "").
Proof. intros key val. unfold reducePart, fieldPart. repeat case_decide; [done|by rewrite same|done]. Qed.

Lemma canonicalizeField_reduced fobj ns :
  exists m, reduceField red fobj ns = JObject m /\ canonicalizeField canon m "" = canonicalizeField canon fobj ns.
Proof.
  eexists. split; [done|]. unfold canonicalizeField. f_equal. apply chosen_reduced; [|apply preserves_part].
  refine (proj1 (bool_decide_eq_true _) _). vm_compute. reflexivity.
Qed.

Lemma preserves_member ns : preserves (reduceMember red ns) (canonicalizeMember canon ns) (canonicalizeMember canon "").
Proof.
  intros key val. unfold reduceMember, canonicalizeMember. destruct (isNonCanonicalField key); [done|].
  case_decide; [|case_decide; [|by cbv beta zeta; rewrite same]]; destruct val; try done.
  - do 4 f_equal. rewrite map_map. apply map_ext. intros [| | | | |fobj]; try done.
    by destruct (canonicalizeField_reduced fobj ns) as (m & -> & ->).
  - do 4 f_equal. rewrite map_map. apply map_ext. intros v. unfold quoted_value. by rewrite Sprint_string.
Qed.

Hypothesis strings : forall v ns s, red v ns = JString s <-> v = JString s.

(** A reduced object has the type of the object, and no namespace of its own if
    it is a named type. *)
Lemma string_member_reduced m ns schemaType :
  from_opt "" (string_member m "type") = schemaType ->
  let obj := list_to_map (chosen (reduceMember red ns) m (fieldOrder schemaType m)) in
  string_member obj "type" = string_member m "type" /\
  (schemaType ∈ ["record"; "error"; "enum"; "fixed"] -> string_member obj "namespace" = None).
Proof.
  intros Hty. pose proof (NoDup_fieldOrder schemaType m) as Hnd. split.
  - apply option_eq. intros s. rewrite !string_member_Some, lookup_chosen by done.
    assert (Hin : is_Some (m !! "type") -> "type" ∈ fieldOrder schemaType m).
    { intros [v Hv]. unfold fieldOrder. repeat case_decide; try (by left || by right; left).
      apply list_elem_of_fmap. exists ("type", v). by rewrite elem_of_sorted_entries. }
    destruct (m !! "type") as [v|]; [|by case_decide]. rewrite decide_True by by apply Hin.
    change (Some (red v ns) = Some (JString s) <-> Some v = Some (JString s)). split; intros [= Hs]; f_equal; by apply (strings v ns s).
  - intros Hn. unfold string_member. rewrite lookup_chosen by done. rewrite decide_False; [done|].
    unfold fieldOrder. repeat case_decide; set_solver.
Qed.

Lemma canonicalizeObject_reduced obj ns :
  exists m, reduceObject red obj ns = JObject m /\ canonicalizeObject canon m "" = canonicalizeObject canon obj ns.
Proof.
  unfold reduceObject, canonicalizeObject. set (schemaType := from_opt "" (string_member obj "type")).
  destruct (qualify schemaType obj ns) as [ns' obj'] eqn:Eq. eexists. split; [done|]. set (m := list_to_map _).
  assert (Hty : from_opt "" (string_member obj' "type") = schemaType).
  { unfold qualify in Eq. case_decide; [|by simplify_eq]. injection Eq as <- <-. case_match; [|done].
    unfold string_member. by rewrite lookup_insert_ne. }
  destruct (string_member_reduced obj' ns' schemaType Hty) as [Hmt Hmn]. fold m in Hmt, Hmn.
  rewrite Hmt, Hty.
  assert (Hq : qualify schemaType m "" = ("", m)).
  { unfold qualify. case_decide as Hn; [|done]. rewrite (Hmn Hn). cbn. by rewrite andb_false_r. }
  rewrite Hq. f_equal. apply chosen_fieldOrder, preserves_member.
Qed.
End reduced_object.

Lemma reduce_string fuel v ns s : reduce fuel v ns = JString s <-> v = JString s.
Proof.
  destruct fuel; [done|]. destruct v; try done. cbn [reduce]. unfold reduceObject. by destruct (qualify _ _ _).
Qed.

(** The text of a document is that of the reduced document. *)
Lemma canonicalizeValue_reduce fuel : forall v ns, canonicalizeValue fuel (reduce fuel v ns) "" = canonicalizeValue fuel v ns.
Proof.
  induction fuel as [|fuel IH]; intros v ns; [done|]. destruct v as [| | | |l|m]; try done; cbn [reduce].
  - cbn [canonicalizeValue]. do 3 f_equal. rewrite map_map. by apply map_ext.
  - destruct (canonicalizeObject_reduced _ _ IH (reduce_string fuel) m ns) as (m' & -> & Hm'). exact Hm'.
Qed.

(** ** Documents that are written without escapes *)

Definition plain_char (c : ascii) : bool :=
  byte_in 32 126 c && negb (bool_decide (c ∈ ["034"; "\"; "<"; ">"; "&"]%char)).

Fixpoint plain (s : string) : bool :=
  match s with String c s => plain_char c && plain s | EmptyString => true end.

Lemma plain_utf8 s : plain s = true -> utf8 s.
Proof.
  induction s as [|c s IH]; [constructor|]. intros [Hc Hs]%andb_true_iff. apply utf8_ascii; [|by apply IH].
  apply andb_true_iff in Hc as [Hc _]. unfold byte_in in Hc. apply andb_true_iff in Hc as [_ Hc%Nat.leb_le]. lia.
Qed.

Lemma escape_plain_char c : plain_char c = true -> (nat_of_ascii c <? 128) = true /\ escape_ascii c = String c "".
Proof. destruct c as [[] [] [] [] [] [] [] []]; vm_compute; (discriminate || by split). Qed.

Lemma Marshal_plain s : plain s = true -> Marshal_string s = quote s.
Proof.
  intros Hs. unfold Marshal_string. f_equal. revert Hs. induction s as [|c s IH]; [done|].
  intros [Hc Hs]%andb_true_iff. destruct (escape_plain_char c Hc) as [H1 H2]. cbn [String.length escape]. rewrite H1, H2. simpl.
  by rewrite IH.
Qed.

Section tidy_object.
Context (tidy : json -> string -> bool).

Definition tidyPart (parentNamespace key : string) (val : json) : bool :=
  if decide (key = "name") then plain (Sprint val)
  else if decide (key = "type") then tidy val parentNamespace
  else all_numbers reads_back val.

Definition tidyMembers (member : string -> json -> bool) (obj : gmap string json) (order : list string) : bool :=
  forallb (fun key => plain key && match obj !! key with Some val => member key val | None => true end) order.

Definition tidyField (field : gmap string json) (parentNamespace : string) : bool :=
  tidyMembers (tidyPart parentNamespace) field ["name"; "type"; "default"].

Definition tidyMember (resolvedNamespace key : string) (val : json) : bool :=
  if isNonCanonicalField key then true
  else if decide (key = "fields") then
    match val with
    | JArray fields => forallb (fun f => match f with JObject fobj => tidyField fobj resolvedNamespace | _ => false end) fields
    | _ => true
    end
  else if decide (key = "symbols") then
    match val with JArray symbols => forallb (fun v => plain (Sprint v)) symbols | _ => true end
  else tidy val resolvedNamespace.

Definition tidyObject (obj : gmap string json) (parentNamespace : string) : bool :=
  let schemaType := from_opt "" (string_member obj "type") in
  let '(resolvedNamespace, obj) := qualify schemaType obj parentNamespace in
  tidyMembers (tidyMember resolvedNamespace) obj (fieldOrder schemaType obj).
End tidy_object.

(** Names, symbols and keys that are written have no character to escape, fields
    are objects, and numbers are read as they are written. *)
Fixpoint tidy (fuel : nat) (v : json) (parentNamespace : string) : bool :=
  match fuel with
  | O => false
  | S fuel =>
      match v with
      | JString val => plain val
      | JNumber x => reads_back x
      | JArray val => forallb (fun item => tidy fuel item parentNamespace) val
      | JObject val => tidyObject (tidy fuel) val parentNamespace
      | _ => true
      end
  end.

Lemma tidyMembers_in member obj order key :
  tidyMembers member obj order = true -> key ∈ order ->
  plain key = true /\ forall val, obj !! key = Some val -> member key val = true.
Proof.
  unfold tidyMembers. rewrite forallb_forall. intros H Hin. apply list_elem_of_In, H, andb_true_iff in Hin as [Hk Hm].
  split; [done|]. intros val Hv. by rewrite Hv in Hm.
Qed.

(** ** A canonical text spells the reduced document *)

Lemma spells_members m order (f : string -> json -> option string) (g : string -> json -> option json) :
  NoDup order -> (forall key, key ∈ order -> plain key = true) ->
  (forall key val, key ∈ order -> m !! key = Some val ->
     match g key val, f key val with Some v, Some t => spells v t | None, None => True | _, _ => False end) ->
  spells (JObject (list_to_map (chosen g m order))) (join_members (chosen f m order)).
Proof.
  intros Hnd Hkeys Hs. unfold join_members.
  assert (Htext : map (fun '(key, valStr) => quote key ++ ":" ++ valStr) (chosen f m order) = map entry_text (chosen f m order)).
  { apply map_ext_in. intros [key t] [Hin _]%list_elem_of_In%elem_of_chosen. cbn [entry_text]. by rewrite Marshal_plain by by apply Hkeys. }
  rewrite Htext. constructor.
  - by apply NoDup_chosen.
  - intros key [v Hv]. rewrite lookup_chosen in Hv by done. case_decide as Hin; [|done].
    apply bind_Some in Hv as (val & Hval & Hv). specialize (Hs key val Hin Hval). rewrite Hv in Hs.
    destruct (f key val) as [t|] eqn:Ht; [|done]. apply list_elem_of_fmap. exists (key, t). split; [done|]. apply elem_of_chosen. eauto.
  - intros key t (Hin & val & Hval & Ht)%elem_of_chosen. specialize (Hs key val Hin Hval). rewrite Ht in Hs.
    destruct (g key val) as [v|] eqn:Hv; [|done]. split; [by apply plain_utf8, Hkeys|]. exists v. split; [|done].
    rewrite lookup_chosen, decide_True by done. by rewrite Hval.
Qed.

Abbreviation decoded := (text_value (fun _ => True)).

Section spelled.
Context (bound : nat) (canon : json -> string -> string) (red : json -> string -> json) (tidy : json -> string -> bool).
Hypothesis IH : forall v ns,
  depth v < bound -> utf8 ns -> decoded v -> tidy v ns = true -> spells (red v ns) (canon v ns).

Lemma decoded_member m key v : decoded (JObject m) -> m !! key = Some v -> decoded v.
Proof. intros Hm Hv. inversion Hm. eauto. Qed.

Lemma decoded_element l v : decoded (JArray l) -> v ∈ l -> decoded v.
Proof. intros Hl Hv. inversion Hl. eauto. Qed.

Lemma spells_field fobj ns :
  depth (JObject fobj) < bound -> utf8 ns -> decoded (JObject fobj) -> tidyField tidy fobj ns = true ->
  spells (reduceField red fobj ns) (canonicalizeField canon fobj ns).
Proof.
  intros Hd Hns Hobj Ht. unfold reduceField, canonicalizeField. apply spells_members.
  - refine (proj1 (bool_decide_eq_true _) _). vm_compute. reflexivity.
  - intros key Hkey. by eapply tidyMembers_in.
  - intros key val Hkey Hval. destruct (tidyMembers_in _ _ _ _ Ht Hkey) as [_ Hm]. specialize (Hm val Hval).
    unfold tidyPart in Hm. unfold reducePart, fieldPart. pose proof (decoded_member _ _ _ Hobj Hval) as Hv.
    case_decide; [|case_decide].
    + unfold quoted_value. rewrite <- Marshal_plain by done. constructor. by apply plain_utf8.
    + apply IH; [|done..]. apply depth_lookup in Hval. lia.
    + apply spells_Marshal. eapply text_value_numbers; [done..|]. done.
Qed.

Lemma spells_list {A} (l : list A) (g : A -> json) (f : A -> string) :
  (forall a, a ∈ l -> spells (g a) (f a)) -> spells (JArray (map g l)) ("[" ++ Join (map f l) "," ++ "]").
Proof.
  intros Hl. constructor. change (map g l) with (g <$> l). change (map f l) with (f <$> l).
  apply Forall2_fmap_2, Forall_Forall2_diag, Forall_forall, Hl.
Qed.

Lemma spells_member ns key val :
  depth val < bound -> utf8 ns -> decoded val -> tidyMember tidy ns key val = true ->
  match reduceMember red ns key val, canonicalizeMember canon ns key val with
  | Some v, Some t => spells v t
  | None, None => True
  | _, _ => False
  end.
Proof.
  intros Hd Hns Hv Ht. unfold tidyMember in Ht. unfold reduceMember, canonicalizeMember.
  destruct (isNonCanonicalField key); [done|]. case_decide; [|case_decide].
  - destruct val as [| | | |l|]; try done. apply spells_list. intros f Hf. rewrite forallb_forall in Ht.
    specialize (Ht f (proj1 (list_elem_of_In _ _) Hf)). destruct f as [| | | | |fobj]; try done.
    apply spells_field; [|done| |done]; [apply depth_element in Hf; lia|by eapply decoded_element].
  - destruct val as [| | | |l|]; try done. apply spells_list. intros v Hin. rewrite forallb_forall in Ht.
    specialize (Ht v (proj1 (list_elem_of_In _ _) Hin)). unfold quoted_value. rewrite <- Marshal_plain by done.
    constructor. by apply plain_utf8.
  - cbv zeta. pose proof (IH val ns Hd Hns Hv Ht) as Hs. case_decide as E; [|done].
    destruct (spells_starts _ _ Hs) as (c & t & Hc & _). congruence.
Qed.

Lemma qualify_member schemaType obj ns ns' obj' :
  utf8 ns -> decoded (JObject obj) -> qualify schemaType obj ns = (ns', obj') ->
  utf8 ns' /\ forall key val, obj' !! key = Some val -> decoded val /\ depth val < depth (JObject obj).
Proof.
  intros Hns Hobj. assert (Hmem : forall key val, obj !! key = Some val -> decoded val /\ depth val < depth (JObject obj)).
  { intros key val Hval. split; [by eapply decoded_member|by eapply depth_lookup]. }
  unfold qualify. case_decide; [|by intros [= <- <-]].
  assert (Hstr : forall key s, string_member obj key = Some s -> utf8 s).
  { intros key s Hs%string_member_Some. destruct (Hmem _ _ Hs) as [Hd _]. by inversion Hd. }
  set (resolved := match string_member obj "namespace" with Some _ => _ | None => _ end).
  assert (Hres : utf8 resolved).
  { unfold resolved. destruct (string_member obj "namespace") as [explicit|] eqn:E; [|done]. case_decide; [done|by eapply Hstr]. }
  intros [= <- <-]. split; [done|]. destruct (negb _ && negb _); [|done]. intros key val. rewrite lookup_insert.
  case_decide; [intros [= <-]|by apply Hmem]. split; [|cbn [depth]; lia]. constructor. apply utf8_app; [done|].
  apply (utf8_app "."); [by repeat constructor|]. destruct (string_member obj "name") as [name|] eqn:E; [by eapply Hstr|constructor].
Qed.

Lemma spells_object_text obj ns :
  depth (JObject obj) <= bound -> utf8 ns -> decoded (JObject obj) -> tidyObject tidy obj ns = true ->
  spells (reduceObject red obj ns) (canonicalizeObject canon obj ns).
Proof.
  intros Hd Hns Hobj Ht. unfold tidyObject in Ht. unfold reduceObject, canonicalizeObject.
  destruct (qualify _ obj ns) as [ns' obj'] eqn:Eq. destruct (qualify_member _ _ _ _ _ Hns Hobj Eq) as [Hns' Hmem].
  apply spells_members.
  - apply NoDup_fieldOrder.
  - intros key Hkey. by eapply tidyMembers_in.
  - intros key val Hkey Hval. destruct (tidyMembers_in _ _ _ _ Ht Hkey) as [_ Hm]. destruct (Hmem key val Hval).
    apply spells_member; [lia|done..|]. by apply Hm.
Qed.
End spelled.

Lemma spells_canonicalizeValue fuel : forall v ns,
  depth v < fuel -> utf8 ns -> decoded v -> tidy fuel v ns = true -> spells (reduce fuel v ns) (canonicalizeValue fuel v ns).
Proof.
  induction fuel as [|fuel IH]; intros v ns Hd Hns Hv Ht; [done|].
  destruct v as [|b|x|s|l|m]; cbn [reduce canonicalizeValue tidy] in *.
  - constructor.
  - apply (spells_bool b).
  - constructor. by apply spells_Marshal_float.
  - rewrite <- Marshal_plain by done. constructor. by apply plain_utf8.
  - apply spells_list. intros v Hin. rewrite forallb_forall in Ht. apply IH; [|done| |].
    + apply depth_element in Hin. lia.
    + by eapply decoded_element.
    + by apply Ht, list_elem_of_In.
  - eapply spells_object_text; [exact IH|lia|done..].
Qed.

(** ** Fuel *)

Lemma chosen_ext {A} (f f' : string -> json -> option A) m order :
  (forall key val, m !! key = Some val -> f key val = f' key val) -> chosen f m order = chosen f' m order.
Proof.
  intros H. unfold chosen. apply list_omap_ext, Forall_Forall2_diag, Forall_forall. intros key _.
  destruct (m !! key) as [val|] eqn:E; [|done]. simpl. by rewrite (H key val E).
Qed.

Lemma qualify_depth schemaType obj ns key val :
  snd (qualify schemaType obj ns) !! key = Some val -> depth val < depth (JObject obj).
Proof.
  unfold qualify. case_decide; [|apply depth_lookup]. cbn [snd]. destruct (negb _ && negb _); [|apply depth_lookup].
  rewrite lookup_insert. case_decide; [intros [= <-]; cbn [depth]; lia|apply depth_lookup].
Qed.

Lemma canonicalizeObject_ext c c' obj ns :
  (forall v ns, depth v < depth (JObject obj) -> c v ns = c' v ns) -> canonicalizeObject c obj ns = canonicalizeObject c' obj ns.
Proof.
  intros Hc. unfold canonicalizeObject. pose proof (qualify_depth (from_opt "" (string_member obj "type")) obj ns) as Hq.
  destruct (qualify _ obj ns) as [ns' obj']. cbn [snd] in Hq. f_equal. apply chosen_ext. intros key val Hval. apply Hq in Hval.
  unfold canonicalizeMember. destruct (isNonCanonicalField key); [done|]. case_decide; [|case_decide; [done|by rewrite Hc]].
  destruct val as [| | | |l|]; try done. do 4 f_equal. apply map_ext_in. intros f Hf%list_elem_of_In. destruct f as [| | | | |fobj]; try done.
  unfold canonicalizeField. f_equal. apply chosen_ext. intros k v Hv. unfold fieldPart. repeat case_decide; try done.
  rewrite Hc; [done|]. apply depth_lookup in Hv. apply depth_element in Hf. lia.
Qed.

Lemma canonicalizeValue_fuel f : forall f' v ns, depth v < f -> depth v < f' -> canonicalizeValue f v ns = canonicalizeValue f' v ns.
Proof.
  induction f as [|f IH]; intros [|f'] v ns Hf Hf'; [lia..|]. destruct v as [| | | |l|m]; try done; cbn [canonicalizeValue].
  - do 3 f_equal. apply map_ext_in. intros v Hv%list_elem_of_In%depth_element. apply IH; lia.
  - apply canonicalizeObject_ext. intros v ns' Hv. apply IH; lia.
Qed.

Lemma depth_object_lt m n : (forall key v, m !! key = Some v -> depth v < n) -> 0 < n -> depth (JObject m) <= n.
Proof. intros Hm Hn. destruct n as [|n]; [lia|]. apply depth_object_le. intros key v Hv%Hm. lia. Qed.

Lemma depth_array_lt l n : (forall v, v ∈ l -> depth v < n) -> 0 < n -> depth (JArray l) <= n.
Proof. intros Hl Hn. destruct n as [|n]; [lia|]. apply depth_array_le. intros v Hv%Hl. lia. Qed.

Lemma chosen_depth g m order n :
  NoDup order -> (forall key val v, m !! key = Some val -> g key val = Some v -> depth v < n) -> 0 < n ->
  depth (JObject (list_to_map (chosen g m order))) <= n.
Proof.
  intros Hnd Hg Hn. apply depth_object_lt; [|done]. intros key v Hv. rewrite lookup_chosen in Hv by done.
  case_decide; [|done]. apply bind_Some in Hv as (val & Hval & Hv). eauto.
Qed.

Lemma depth_reduce fuel : forall v ns, depth (reduce fuel v ns) <= depth v.
Proof.
  induction fuel as [|fuel IH]; intros v ns; [done|]. destruct v as [| | | |l|m]; try done; cbn [reduce].
  - apply depth_array_lt; [|cbn [depth]; lia]. intros v (w & -> & Hw)%list_elem_of_fmap.
    pose proof (IH w ns). apply depth_element in Hw. lia.
  - unfold reduceObject. pose proof (qualify_depth (from_opt "" (string_member m "type")) m ns) as Hq.
    destruct (qualify _ m ns) as [ns' obj']. cbn [snd] in Hq.
    apply chosen_depth; [apply NoDup_fieldOrder| |cbn [depth]; lia]. intros key val v Hval%Hq Hv. unfold reduceMember in Hv.
    destruct (isNonCanonicalField key); [done|]. case_decide; [|case_decide; [|injection Hv as <-; pose proof (IH val ns'); lia]].
    + destruct val as [| | | |l|]; try done. injection Hv as <-. eapply Nat.le_lt_trans; [|exact Hval].
      apply depth_array_lt; [|cbn [depth]; lia]. intros f (w & -> & Hw)%list_elem_of_fmap. apply depth_element in Hw.
      destruct w as [| | | | |fobj]; try done. eapply Nat.le_lt_trans; [|exact Hw]. unfold reduceField.
      apply chosen_depth; [refine (proj1 (bool_decide_eq_true _) _); vm_compute; reflexivity| |cbn [depth]; lia].
      intros k x y Hx%depth_lookup [= <-]. repeat case_decide; [cbn [depth]; lia|pose proof (IH x ns'); lia|lia].
    + destruct val as [| | | |l|]; try done. injection Hv as <-. eapply Nat.le_lt_trans; [|exact Hval].
      apply depth_array_lt; [|cbn [depth]; lia]. intros f (w & -> & Hw)%list_elem_of_fmap. cbn [depth]. lia.
Qed.

(** ** The reduced document is the essence *)

(** Choosing keys in some order or over the whole object gives one map. *)
Lemma chosen_map_imap g m order :
  NoDup order -> (list_to_map (chosen g m order) : gmap string json) =
  map_imap (fun key val => if decide (key ∈ order) then g key val else None) m.
Proof.
  intros Hnd. apply map_eq. intros key. rewrite lookup_chosen, map_lookup_imap by done.
  case_decide; destruct (m !! key); done.
Qed.

Lemma map_imap_ext_keys {A} (f g : string -> json -> option A) (m : gmap string json) :
  (forall key val, m !! key = Some val -> f key val = g key val) -> map_imap f m = map_imap g m.
Proof.
  intros H. apply map_eq. intros key. rewrite !map_lookup_imap. destruct (m !! key) as [val|] eqn:E; [|done]. by apply H.
Qed.

(** The literal key lists [l] and [l'] have the same keys, none of them in [d]. *)
Definition same_keys (l l' d : list string) : bool :=
  forallb (fun k => bool_decide (k ∈ l') && negb (bool_decide (k ∈ d))) l && forallb (fun k => bool_decide (k ∈ l)) l'.

Lemma same_keys_spec l l' d key :
  same_keys l l' d = true -> bool_decide (key ∈ l) = bool_decide (key ∈ l') && negb (bool_decide (key ∈ d)).
Proof.
  unfold same_keys. rewrite andb_true_iff, !forallb_forall. setoid_rewrite <- list_elem_of_In. intros [H1 H2].
  destruct (bool_decide_reflect (key ∈ l)) as [Hl|Hl].
  - by rewrite (H1 _ Hl).
  - case_bool_decide as Hl'; [|done]. apply H2, bool_decide_eq_true in Hl'. by destruct Hl.
Qed.

Lemma fieldOrder_counts schemaType (obj : gmap string json) key :
  is_Some (obj !! key) ->
  counts schemaType key = bool_decide (key ∈ fieldOrder schemaType obj) && negb (isNonCanonicalField key).
Proof.
  intros [v Hv]. unfold counts, isNonCanonicalField.
  destruct (decide (schemaType = "record" \/ schemaType = "error")) as [[->| ->]|Hr]; [by apply same_keys_spec..|].
  destruct (decide (schemaType = "enum")) as [->|]; [by apply same_keys_spec|].
  destruct (decide (schemaType = "fixed")) as [->|]; [by apply same_keys_spec|].
  destruct (decide (schemaType = "array")) as [->|]; [by apply same_keys_spec|].
  destruct (decide (schemaType = "map")) as [->|]; [by apply same_keys_spec|].
  unfold fieldOrder. rewrite (decide_False (P := schemaType ∈ _)) by set_solver. rewrite !decide_False by done.
  rewrite (bool_decide_true (key ∈ map fst _)); [done|]. apply list_elem_of_fmap. exists (key, v). by rewrite elem_of_sorted_entries.
Qed.

Lemma qualify_full_name schemaType obj ns :
  qualify schemaType obj ns =
  (namespace_in schemaType obj ns, with_full_name schemaType obj (namespace_in schemaType obj ns)).
Proof.
  unfold qualify, with_full_name, namespace_in, named_type.
  destruct (decide (schemaType ∈ ["record"; "error"; "enum"; "fixed"])) as [Hn|Hn];
    [rewrite (bool_decide_true (schemaType ∈ _)) by exact Hn|rewrite (bool_decide_false (schemaType ∈ _)) by exact Hn; by destruct (obj !! "namespace") as [[]|]].
  cbn [andb]. set (ns' := match string_member obj "namespace" with Some _ => _ | None => _ end).
  assert (Hns : match obj !! "namespace" with
                | Some (JString own) => if negb (bool_decide (own = "")) then own else ns | _ => ns end = ns').
  { unfold ns', string_member. destruct (obj !! "namespace") as [[]|]; try done. by repeat case_decide. }
  rewrite Hns. f_equal. generalize (from_opt "" (string_member obj "name")) as name. intros name. unfold full_name.
  destruct (contains_byte "." name); cbn [negb andb orb]; [by rewrite bool_decide_true|].
  destruct (bool_decide_reflect (ns' = "")); cbn [negb]; [by rewrite bool_decide_true|].
  rewrite bool_decide_false; [done|]. intros E%(f_equal String.length). rewrite !length_app_str in E. cbn in E. lia.
Qed.

Lemma reduceField_essence red ess fobj ns :
  (forall v ns, red v ns = ess v ns) -> reduceField red fobj ns = field_essence ess fobj ns.
Proof.
  intros H. unfold reduceField, field_essence. f_equal.
  rewrite chosen_map_imap by (refine (proj1 (bool_decide_eq_true _) _); vm_compute; reflexivity).
  apply map_imap_ext_keys. intros key val _. unfold reducePart. rewrite H.
  destruct (decide (key = "name")) as [->|]; [by rewrite decide_True by by left|].
  destruct (decide (key = "type")) as [->|]; [by rewrite decide_True by by right; left|].
  destruct (decide (key = "default")) as [->|]; [by rewrite decide_True by by right; right; left|].
  rewrite decide_False; [done|]. set_solver.
Qed.

Lemma reduceObject_essence red ess obj ns :
  (forall v ns, red v ns = ess v ns) -> reduceObject red obj ns = type_essence ess obj ns.
Proof.
  intros H. unfold reduceObject, type_essence. rewrite qualify_full_name. cbv zeta. f_equal.
  rewrite chosen_map_imap by apply NoDup_fieldOrder. apply map_imap_ext_keys. intros key val Hval.
  rewrite (fieldOrder_counts _ _ key (mk_is_Some _ _ Hval)). unfold reduceMember, attribute_essence.
  case_decide as Hin; [rewrite bool_decide_true by done|by rewrite bool_decide_false by done].
  destruct (isNonCanonicalField key); [done|]. cbn [andb negb].
  case_decide; [|case_decide; [done|by rewrite H]]. destruct val as [| | | |l|]; try done. do 2 f_equal.
  apply map_ext. intros [| | | | |fobj]; try done. by apply reduceField_essence.
Qed.

Lemma reduce_essence fuel : forall v ns, reduce fuel v ns = essence fuel v ns.
Proof.
  induction fuel as [|fuel IH]; intros v ns; [done|]. destruct v as [| | | |l|m]; try done; cbn [reduce essence].
  - f_equal. by apply map_ext.
  - by apply reduceObject_essence.
Qed.

(** ** What a canonical text identifies *)

(** What counts of a text, and whether it is written without escapes. *)
Definition essence_of (text : string) : option json := (fun v => essence (S (depth v)) v "") <$> Unmarshal text.
Definition tidy_text (text : string) : Prop := exists v, Unmarshal text = Some v /\ tidy (S (depth v)) v "" = true.

Lemma tidy_text_check text :
  match Unmarshal text with Some v => tidy (S (depth v)) v "" | None => false end = true -> tidy_text text.
Proof. unfold tidy_text. destruct (Unmarshal text) as [v|]; [eauto|done]. Qed.

(** A canonical text is a text of the reduced document. *)
Lemma Unmarshal_canonicalize text v :
  Unmarshal text = Some v -> tidy (S (depth v)) v "" = true -> Unmarshal (canonicalize text) = Some (reduce (S (depth v)) v "").
Proof.
  intros U Ht. pose proof (Unmarshal_text _ _ U) as [Hv Hd]. unfold canonicalize. rewrite U. apply Unmarshal_spells.
  - apply spells_canonicalizeValue; [lia|constructor|done..].
  - pose proof (depth_reduce (S (depth v)) v ""). lia.
Qed.

Lemma canonicalize_reduced text v :
  Unmarshal text = Some v -> forall fuel, depth (reduce (S (depth v)) v "") < fuel ->
  canonicalizeValue fuel (reduce (S (depth v)) v "") "" = canonicalize text.
Proof.
  intros U fuel Hf. unfold canonicalize. rewrite U. etrans; [|apply canonicalizeValue_reduce].
  apply canonicalizeValue_fuel; [done|]. pose proof (depth_reduce (S (depth v)) v ""). lia.
Qed.

(** Property C32.  Two Avro schemas whose names, symbols and keys need no escape
    and whose numbers read back have the same canonical text exactly when the same
    of them counts ([essence]): the types, of each complex type the attributes its
    kind has - name, fields, symbols, size, items, values -, the full names, and
    of a field its name, type and default; whatever their formatting,
    documentation and aliases.  A full name takes the namespace of the type or the
    one around it; a dotted name hands none down, unlike the specification
    ([nested_names_conflated]). *)
Theorem canonical_text_identifies t1 t2 :
  tidy_text t1 -> tidy_text t2 -> canonicalize t1 = canonicalize t2 <-> essence_of t1 = essence_of t2.
Proof.
  intros (v1 & U1 & H1) (v2 & U2 & H2). unfold essence_of. rewrite U1, U2.
  change (canonicalize t1 = canonicalize t2 <-> Some (essence (S (depth v1)) v1 "") = Some (essence (S (depth v2)) v2 "")).
  rewrite <- !reduce_essence. split.
  - intros E. pose proof (Unmarshal_canonicalize t1 v1 U1 H1). pose proof (Unmarshal_canonicalize t2 v2 U2 H2). congruence.
  - intros E%(inj Some). set (d := S (depth (reduce (S (depth v1)) v1 ""))).
    rewrite <- (canonicalize_reduced t1 v1 U1 d), <- (canonicalize_reduced t2 v2 U2 d); [by rewrite E| |apply Nat.lt_succ_diag_r].
    rewrite <- E. apply Nat.lt_succ_diag_r.
Qed.

(** The canonical text of a schema whose names need no escape is a
    schema text with itself as canonical text: normalising twice is normalising
    once. *)
Theorem canonicalize_idempotent text :
  tidy_text text -> canonicalize (canonicalize text) = canonicalize text.
Proof.
  intros (v & U & H). pose proof (Unmarshal_canonicalize _ _ U H) as U'. unfold canonicalize at 1. rewrite U'.
  apply (canonicalize_reduced text v U). apply Nat.lt_succ_diag_r.
Qed.

(** A schema and its re-formatted text with documentation. *)
Definition user_text : string :=
  quoted "{'type':'record','name':'User','namespace':'app','fields':[{'name':'id','type':'long','default':0}]}".
Definition user_text_documented : string :=
  quoted " {'name':'app.User', 'doc':'a user', 'type':'record', 'fields':[{'type':'long','name':'id','default':0.0,'doc':'x'}]}".

Lemma tidy_user_text : tidy_text user_text /\ tidy_text user_text_documented.
Proof. split; apply tidy_text_check; vm_compute; reflexivity. Qed.

Lemma canonical_text_identifies_witness : canonicalize user_text = canonicalize user_text_documented.
Proof.
  apply (canonical_text_identifies user_text user_text_documented); [apply tidy_user_text..|]. vm_compute. reflexivity.
Defined.

Lemma canonicalize_idempotent_witness : canonicalize (canonicalize user_text) = canonicalize user_text.
Proof. apply (canonicalize_idempotent user_text), tidy_user_text. Defined.

(** ** The checks on a parsed Avro schema

    The walk over a schema that keeps the fingerprints it has visited finds a
    schema in order exactly when every type in it is, provided that types with one
    fingerprint are equal. *)
Lemma Schema_nested_ind (P : Schema -> Prop) :
  (forall i fields, (forall name t, (name, t) ∈ fields -> P t) -> P (RecordSchema i fields)) ->
  (forall i size, P (FixedSchema i size)) -> (forall i t, P t -> P (ArraySchema i t)) -> (forall i t, P t -> P (MapSchema i t)) ->
  (forall i types, (forall t, t ∈ types -> P t) -> P (UnionSchema i types)) ->
  (forall i, P (RefSchema i)) -> (forall i, P (OtherSchema i)) -> forall s, P s.
Proof.
  intros Hr Hf Ha Hm Hu Href Ho. fix IH 1. intros [i fields|i size|i t|i t|i types|i|i];
    [|apply Hf|apply Ha, IH|apply Hm, IH| |apply Href|apply Ho].
  - apply Hr. induction fields as [|[n u] fields IHf]; intros name t Ht; [destruct (not_elem_of_nil _ Ht)|].
    apply elem_of_cons in Ht as [[= -> ->]|Ht]; [apply IH|exact (IHf name t Ht)].
  - apply Hu. induction types as [|u types IHt]; intros t Ht; [destruct (not_elem_of_nil _ Ht)|].
    apply elem_of_cons in Ht as [->|Ht]; [apply IH|exact (IHt t Ht)].
Qed.

(** [t] is a type inside [s], or [s]. *)
Inductive inside (t : Schema) : Schema -> Prop :=
  | inside_here : inside t t
  | inside_record i fields name u : (name, u) ∈ fields -> inside t u -> inside t (RecordSchema i fields)
  | inside_array i u : inside t u -> inside t (ArraySchema i u)
  | inside_map i u : inside t u -> inside t (MapSchema i u)
  | inside_union i types u : u ∈ types -> inside t u -> inside t (UnionSchema i types).

(** What the checks ask of one type. *)
Definition in_order (s : Schema) : Prop :=
  match s with
  | RecordSchema _ fields => NoDup fields.*1
  | FixedSchema _ size => (0 < size)%Z
  | _ => True
  end.

Definition all_in_order (s : Schema) : Prop := forall t, inside t s -> in_order t.

Fixpoint nodes (s : Schema) : nat :=
  match s with
  | RecordSchema _ fields => S (sum_list (map (fun '(_, t) => nodes t) fields))
  | ArraySchema _ t | MapSchema _ t => S (nodes t)
  | UnionSchema _ types => S (sum_list (map nodes types))
  | _ => 1
  end.

Lemma sum_list_elem n l : n ∈ l -> (n <= sum_list l)%nat.
Proof. induction l as [|m l IH]; [by intros ?%not_elem_of_nil|]. intros [->|H]%elem_of_cons; simpl; [|apply IH in H]; lia. Qed.

Lemma inside_nodes t s : inside t s -> (nodes t <= nodes s)%nat.
Proof.
  induction 1 as [|i fields name u Hin _ IH|i u _ IH|i u _ IH|i types u Hin _ IH]; simpl; [lia| |lia|lia|].
  - assert (Hn : nodes u ∈ map (fun '(_, t) => nodes t) fields) by (apply list_elem_of_fmap; by exists (name, u)).
    apply sum_list_elem in Hn. lia.
  - assert (Hn : nodes u ∈ map nodes types) by (apply list_elem_of_fmap; by exists u). apply sum_list_elem in Hn. lia.
Qed.

Lemma inside_trans t u s : inside t u -> inside u s -> inside t s.
Proof. intros Ht. induction 1; [done|by econstructor..]. Qed.

Definition not_ref (s : Schema) : bool := match s with RefSchema _ => false | _ => true end.

Section walk.
(** The types of [root] with one fingerprint are equal. *)
Context (root : Schema).
Hypothesis fingerprints_identify : forall t u,
  inside t root -> inside u root -> not_ref t = true -> not_ref u = true ->
  CacheFingerprint (info t) = CacheFingerprint (info u) -> t = u.

(** [t] of the root was visited. *)
Definition seen_in (visited : visited_set) (t : Schema) : Prop :=
  inside t root /\ not_ref t = true /\ CacheFingerprint (info t) ∈ visited.

(** The walk from [visited] to [visited'] passed over types in order. *)
Definition passed (visited visited' : visited_set) : Prop :=
  forall t, seen_in visited' t -> seen_in visited t \/ all_in_order t.

Definition checks (check : Schema -> visited_set -> check_state) (s : Schema) : Prop :=
  forall visited, (forall t, inside t s -> seen_in visited t -> all_in_order t) ->
  match check s visited with
  | (None, visited') => all_in_order s /\ passed visited visited'
  | (Some _, _) => exists t, inside t s /\ ~ in_order t
  end.

Lemma passed_refl visited : passed visited visited.
Proof. by left. Qed.

Lemma passed_trans v1 v2 v3 : passed v1 v2 -> passed v2 v3 -> passed v1 v3.
Proof. intros H1 H2 t [Ht|Ht]%H2; [by apply H1|by right]. Qed.

Lemma checks_types check types :
  (forall t, t ∈ types -> checks check t) ->
  forall visited, (forall u t, u ∈ types -> inside t u -> seen_in visited t -> all_in_order t) ->
  match validateTypes check types visited with
  | (None, visited') => (forall t, t ∈ types -> all_in_order t) /\ passed visited visited'
  | (Some _, _) => exists u t, u ∈ types /\ inside t u /\ ~ in_order t
  end.
Proof.
  induction types as [|u types IH]; intros Hc visited Hv; cbn [validateTypes].
  { split; [by intros ? ?%not_elem_of_nil|apply passed_refl]. }
  pose proof (Hc u ltac:(left) visited (fun t => Hv u t ltac:(left))) as Hu.
  destruct (check u visited) as [[err|] visited1]; cbn [and_then].
  { destruct Hu as (t & ? & ?). exists u, t. split_and!; [by left|done..]. }
  destruct Hu as [Hu Hp]. specialize (IH (fun t Ht => Hc t ltac:(by right)) visited1).
  destruct (validateTypes check types visited1) as [[err|] visited2].
  - destruct IH as (w & t & ? & ? & ?); [|exists w, t; split_and!; [by right|done..]].
    intros w t Hw Ht [Hs|Hs]%Hp; [eapply Hv; [by right|done..]|done].
  - destruct IH as [IH Hp']; [|split; [by intros t [->|Ht]%elem_of_cons; [|apply IH]|by eapply passed_trans]].
    intros w t Hw Ht [Hs|Hs]%Hp; [eapply Hv; [by right|done..]|done].
Qed.

Lemma checks_fields check name fields :
  (forall n t, (n, t) ∈ fields -> checks check t) ->
  forall seen visited, (forall n u t, (n, u) ∈ fields -> inside t u -> seen_in visited t -> all_in_order t) ->
  match validateFields check name fields seen visited with
  | (None, visited') =>
      NoDup fields.*1 /\ (forall n, n ∈ fields.*1 -> n ∉ seen) /\ (forall n t, (n, t) ∈ fields -> all_in_order t) /\
      passed visited visited'
  | (Some _, _) =>
      ~ NoDup fields.*1 \/ (exists n, n ∈ fields.*1 /\ n ∈ seen) \/ exists n u t, (n, u) ∈ fields /\ inside t u /\ ~ in_order t
  end.
Proof.
  induction fields as [|[n u] fields IH]; intros Hc seen visited Hv; cbn [validateFields].
  { split_and!; [constructor|by intros ? ?%not_elem_of_nil|by intros ? ? ?%not_elem_of_nil|apply passed_refl]. }
  case_decide as Hn; [right; left; exists n; split; [by left|done]|].
  pose proof (Hc n u ltac:(left) visited (fun t => Hv n u t ltac:(left))) as Hu.
  destruct (check u visited) as [[err|] visited1]; cbn [and_then].
  { destruct Hu as (t & ? & ?). right; right. exists n, u, t. split_and!; [by left|done..]. }
  destruct Hu as [Hu Hp]. specialize (IH (fun n' t Ht => Hc n' t ltac:(by right)) ({[ n ]} ∪ seen) visited1).
  assert (Hv' : forall n' w t, (n', w) ∈ fields -> inside t w -> seen_in visited1 t -> all_in_order t).
  { intros n' w t Hw Ht [Hs|Hs]%Hp; [eapply Hv; [by right|done..]|done]. }
  specialize (IH Hv'). destruct (validateFields check name fields _ visited1) as [[err|] visited2]; rewrite fmap_cons, NoDup_cons; cbn [fst].
  - destruct IH as [Hnd|[(m & Hm & Hs)|(m & w & t & ? & ? & ?)]].
    + left. tauto.
    + apply elem_of_union in Hs as [->%elem_of_singleton|Hs]; [left; tauto|]. right; left. exists m. split; [by right|done].
    + right; right. exists m, w, t. split_and!; [by right|done..].
  - destruct IH as (Hnd & Hfresh & Hall & Hp'). split_and!.
    + intros Hin. apply Hfresh in Hin. set_solver.
    + done.
    + intros m [->|Hm]%elem_of_cons; [done|]. apply Hfresh in Hm. set_solver.
    + intros m t [[= -> ->]|Ht]%elem_of_cons; [done|by eapply Hall].
    + by eapply passed_trans.
Qed.

(** A type that is entered: its own fingerprint is new, and no type inside it has it. *)
Lemma entered s visited u t :
  inside s root -> not_ref s = true -> (nodes u < nodes s)%nat -> inside t u -> inside u s ->
  (forall t, inside t s -> seen_in visited t -> all_in_order t) ->
  seen_in ({[ CacheFingerprint (info s) ]} ∪ visited) t -> all_in_order t.
Proof.
  intros Hroot Href Hn Ht Hu Hv (Hin & Hnt & [Hfp%elem_of_singleton|Hfp]%elem_of_union).
  - pose proof (fingerprints_identify t s Hin Hroot Hnt Href Hfp) as ->. apply inside_nodes in Ht. lia.
  - apply Hv; [exact (inside_trans _ _ _ Ht Hu)|by split_and!].
Qed.

(** Leaving it, what was passed is passed for the walk that came to it. *)
Lemma left_behind s visited visited' :
  inside s root -> not_ref s = true -> all_in_order s ->
  passed ({[ CacheFingerprint (info s) ]} ∪ visited) visited' -> passed visited visited'.
Proof.
  intros Hroot Href Hs Hp t [(Hin & Hnt & [Hfp%elem_of_singleton|Hfp]%elem_of_union)|Ht]%Hp; [| |by right].
  - right. by rewrite (fingerprints_identify t s Hin Hroot Hnt Href Hfp).
  - by left.
Qed.

Lemma checks_single s u visited :
  inside s root -> not_ref s = true -> (forall t, inside t u -> inside t s) -> (forall t, inside t s -> t = s \/ inside t u) ->
  (nodes u < nodes s)%nat -> in_order s -> checks validateAvroSchemaRecursive u ->
  (forall t, inside t s -> seen_in visited t -> all_in_order t) ->
  match validateAvroSchemaRecursive u ({[ CacheFingerprint (info s) ]} ∪ visited) with
  | (None, visited') => all_in_order s /\ passed visited visited'
  | (Some _, _) => exists t, inside t s /\ ~ in_order t
  end.
Proof.
  intros Hroot Href Hin Hcases Hn Hs Hu Hv.
  specialize (Hu ({[ CacheFingerprint (info s) ]} ∪ visited)
    (fun t Ht => entered s visited u t Hroot Href Hn Ht (Hin u (inside_here u)) Hv)).
  destruct (validateAvroSchemaRecursive u _) as [[err|] visited'].
  - destruct Hu as (t & Ht & Hno). eauto.
  - destruct Hu as [Hu Hp]. assert (Hord : all_in_order s) by (intros t [->|Ht]%Hcases; [done|by apply Hu]).
    split; [done|]. by eapply left_behind.
Qed.

Lemma validate_checks s : inside s root -> checks validateAvroSchemaRecursive s.
Proof.
  assert (Hleaf : forall s, (forall t, inside t s -> t = s) -> in_order s -> all_in_order s) by (intros ? H ? t ->%H; done).
  induction s as [i fields IH|i size|i u IH|i u IH|i types IH|i|i] using Schema_nested_ind; intros Hroot visited Hv;
    cbn [validateAvroSchemaRecursive info]; try (case_decide as Hfp; [split; [apply Hv; [constructor|by split_and!]|apply passed_refl]|]).
  - assert (Hchild : forall n u, (n, u) ∈ fields -> inside u (RecordSchema i fields)) by (intros; eapply inside_record; [done|constructor]).
    assert (Hpre : forall n u t, (n, u) ∈ fields -> inside t u -> seen_in ({[ CacheFingerprint i ]} ∪ visited) t -> all_in_order t).
    { intros n u t Hu Ht. apply (entered (RecordSchema i fields) visited u); [done|done| |done|by eapply Hchild|done].
      cbn [nodes]. apply Nat.lt_succ_r, sum_list_elem, list_elem_of_fmap. by exists (n, u). }
    pose proof (checks_fields validateAvroSchemaRecursive (FullName i) fields
      (fun n u Hu => IH n u Hu (inside_trans _ _ _ (Hchild n u Hu) Hroot)) ∅ _ Hpre) as Hf.
    destruct (validateFields _ _ fields _ _) as [[err|] visited'].
    + destruct Hf as [Hnd|[(n & _ & Hn)|(n & u & t & Hu & Ht & Hno)]]; [|set_solver|].
      * exists (RecordSchema i fields). by split; [constructor|].
      * exists t. split; [by eapply inside_record|done].
    + destruct Hf as (Hnd & _ & Hall & Hp).
      assert (Hord : all_in_order (RecordSchema i fields)) by (intros t Ht; inversion Ht; subst; [done|by eapply Hall]).
      split; [done|]. by eapply (left_behind (RecordSchema i fields)).
  - destruct (Z.leb_spec size 0); [exists (FixedSchema i size); split; [constructor|simpl; lia]|].
    assert (Hord : all_in_order (FixedSchema i size)) by (apply Hleaf; [by inversion 1|done]).
    split; [done|]. apply (left_behind (FixedSchema i size)); [done..|apply passed_refl].
  - apply (checks_single (ArraySchema i u)); try done; [intros; by apply inside_array|by inversion 1; auto|simpl; lia|].
    apply IH. eapply inside_trans; [|done]. apply inside_array. constructor.
  - apply (checks_single (MapSchema i u)); try done; [intros; by apply inside_map|by inversion 1; auto|simpl; lia|].
    apply IH. eapply inside_trans; [|done]. apply inside_map. constructor.
  - assert (Hchild : forall u, u ∈ types -> inside u (UnionSchema i types)) by (intros; eapply inside_union; [done|constructor]).
    assert (Hpre : forall u t, u ∈ types -> inside t u -> seen_in ({[ CacheFingerprint i ]} ∪ visited) t -> all_in_order t).
    { intros u t Hu Ht. apply (entered (UnionSchema i types) visited u); [done|done| |done|by apply Hchild|done].
      cbn [nodes]. apply Nat.lt_succ_r, sum_list_elem, list_elem_of_fmap. by exists u. }
    pose proof (checks_types validateAvroSchemaRecursive types
      (fun u Hu => IH u Hu (inside_trans _ _ _ (Hchild u Hu) Hroot)) _ Hpre) as Hf.
    destruct (validateTypes _ types _) as [[err|] visited'].
    + destruct Hf as (u & t & Hu & Ht & Hno). exists t. split; [by eapply inside_union|done].
    + destruct Hf as [Hall Hp].
      assert (Hord : all_in_order (UnionSchema i types)) by (intros t Ht; inversion Ht; subst; [done|by eapply Hall]).
      split; [done|]. by eapply (left_behind (UnionSchema i types)).
  - split; [|apply passed_refl]. apply Hleaf; [by inversion 1|done].
  - assert (Hord : all_in_order (OtherSchema i)) by (apply Hleaf; [by inversion 1|done]).
    split; [done|]. apply (left_behind (OtherSchema i)); [done..|apply passed_refl].
Qed.
End walk.

(** A parsed schema passes the checks exactly when no record in it
    has two fields of one name and no fixed type a size below 1, provided types
    with one fingerprint are equal. *)
Theorem validateAvroSchema_spec s :
  (forall t u, inside t s -> inside u s -> not_ref t = true -> not_ref u = true ->
     CacheFingerprint (info t) = CacheFingerprint (info u) -> t = u) ->
  validateAvroSchema s = None <-> forall t, inside t s -> in_order t.
Proof.
  intros Hfp. pose proof (validate_checks s Hfp s (inside_here s) ∅) as H. unfold validateAvroSchema.
  destruct (validateAvroSchemaRecursive s ∅) as [[err|] visited]; cbn [fst].
  - split; [done|]. intros Hall. destruct H as (t & Ht & Hno); [intros t _ (_ & _ & Hin); set_solver|]. by destruct Hno; apply Hall.
  - split; [|done]. intros _. apply H. intros t _ (_ & _ & Hin). set_solver.
Qed.

(** The types of a schema, as a list. *)
Fixpoint types_of (s : Schema) : list Schema :=
  s :: match s with
       | RecordSchema _ fields => List.concat (map (fun '(_, t) => types_of t) fields)
       | ArraySchema _ t | MapSchema _ t => types_of t
       | UnionSchema _ types => List.concat (map types_of types)
       | _ => []
       end.

Lemma inside_types_of t s : inside t s -> t ∈ types_of s.
Proof.
  induction 1 as [|i fields name u Hin _ IH|i u _ IH|i u _ IH|i types u Hin _ IH]; [by destruct t; left| |by right..|];
    cbn [types_of]; right; apply list_elem_of_In, in_concat; exists (types_of u); (split; [|by apply list_elem_of_In]).
  - apply in_map_iff. exists (name, u). split; [done|by apply list_elem_of_In].
  - apply in_map_iff. exists u. split; [done|by apply list_elem_of_In].
Qed.

(** A record that refers to itself. *)
Definition list_schema : Schema :=
  RecordSchema (MkSchemaInfo "L" "fp_L" "")
    [("value", OtherSchema (MkSchemaInfo "" "fp_long" ""));
     ("next", UnionSchema (MkSchemaInfo "" "fp_union" "") [OtherSchema (MkSchemaInfo "" "fp_null" ""); RefSchema (MkSchemaInfo "L" "fp_L" "")])].

Lemma validateAvroSchema_spec_witness : validateAvroSchema list_schema = None.
Proof.
  apply (validateAvroSchema_spec list_schema).
  - intros t u Ht%inside_types_of%list_elem_of_In Hu%inside_types_of%list_elem_of_In. simpl in Ht, Hu.
    decompose [or] Ht; decompose [or] Hu; subst; simpl; intros; congruence || contradiction.
  - intros t Ht%inside_types_of%list_elem_of_In. simpl in Ht.
    decompose [or] Ht; subst; simpl; try exact I; [|contradiction].
    refine (proj1 (bool_decide_eq_true _) _). vm_compute. reflexivity.
Defined.
