(* ===== verification/JsonCompat.v ===== *)
(** * JSON Schema compatibility: internal/compatibility/jsonschema/checker.go

    A schema is the [map[string]interface{}] that encoding/json decodes it to;
    the recursion of checkCompatibility has a fuel.  The one comparison that can
    panic, [!=] of two [interface{}], is an outcome of its own.  Loops over maps
    take their order from an [env]. *)
From S2P Require Import Prelude GoStrings GoFloat GoJson JsonValue StorageTypes Compat.
From Stdlib Require Import Ascii String.

Local Open Scope string_scope.

Inductive outcome (A : Type) :=
  | Done (a : A)
  | Panic
  | NoFuel.
Arguments Done {A} a.
Arguments Panic {A}.
Arguments NoFuel {A}.

Definition after {A B} (m : outcome A) (k : A -> outcome B) : outcome B :=
  match m with Done a => k a | Panic => Panic | NoFuel => NoFuel end.
Notation "'let!' x := m 'in' k" := (after m (fun x => k)) (at level 10, x name, m at level 100, k at level 200).

Fixpoint foldM {A B} (f : B -> A -> outcome B) (l : list A) (b : B) : outcome B :=
  match l with
  | [] => Done b
  | a :: l => let! b := f b a in foldM f l b
  end.

(** ** Helpers *)

(** [schema[key]] with and without the second result. *)
Definition at_key (schema : gomap) (key : string) : option json := m ← schema; m !! key.
Definition val (schema : gomap) (key : string) : json := from_opt JNull (at_key schema key).
Definition has (schema : gomap) (key : string) : bool :=
  match at_key schema key with Some _ => true | None => false end.

(** [v.(map[string]interface{})], [v.([]interface{})], and [v == b] of a bool. *)
Definition as_map (v : json) : option (gmap string json) := match v with JObject m => Some m | _ => None end.
Definition as_array (v : json) : option (list json) := match v with JArray l => Some l | _ => None end.
Definition as_string (v : json) : option string := match v with JString s => Some s | _ => None end.
Definition is_bool (b : bool) (v : json) : bool := match v with JBool c => Bool.eqb b c | _ => false end.
Definition is_nil (v : json) : bool := match v with JNull => true | _ => false end.

Definition is_some {A} (o : option A) : bool := match o with Some _ => true | None => false end.

Definition joinPath (base prop : string) : string :=
  if decide (base = "") then prop else base ++ "." ++ prop.
Definition pathOrRoot (path : string) : string := if decide (path = "") then "root" else path.

Definition toFloat64 (v : json) : float64 := match v with JNumber x => x | _ => Float64.zero end.

Definition getType (schema : gomap) : json := val schema "type".
Definition typeString (t : json) : string := from_opt "" (as_string t).
Definition getTypeString (schema : gomap) : string := typeString (getType schema).
Definition getProperties (schema : gomap) : gmap string json := from_opt ∅ (as_map (val schema "properties")).
Definition getRequiredSet (schema : gomap) : gset string :=
  list_to_set (omap as_string (from_opt [] (as_array (val schema "required")))).
Definition getItems (schema : gomap) : option (gmap string json) := as_map (val schema "items").
Definition getEnum (schema : gomap) : option (list json) := as_array (val schema "enum").
Definition getAdditionalPropertiesSchema (schema : gomap) : option (gmap string json) :=
  as_map (val schema "additionalProperties").

Definition hasOpenContentModel (schema : gomap) : bool :=
  match at_key schema "additionalProperties" with
  | None => true
  | Some (JBool b) => b
  | Some _ => false
  end.

Definition hasCoveringPatternProperties (schema : gomap) : bool :=
  match as_map (val schema "patternProperties") with
  | Some m => negb (bool_decide (m = ∅))
  | None => false
  end.

Definition getSchemaArrayValue (schema : gomap) (key : string) : list (gmap string json) :=
  omap as_map (from_opt [] (as_array (val schema key))).

Definition hasObjectKeywords (schema : gomap) : bool :=
  existsb (has schema) ["properties"; "required"; "patternProperties"; "additionalProperties"].
Definition hasArrayKeywords (schema : gomap) : bool :=
  existsb (has schema) ["prefixItems"; "additionalItems"; "items"; "minItems"; "maxItems"; "uniqueItems"].
Definition hasCompositionKeyword (schema : gomap) : bool :=
  existsb (has schema) ["oneOf"; "anyOf"; "allOf"].

Definition deduplicateSchemas (schemas : list (gmap string json)) : list (gmap string json) :=
  fold_left (fun result s =>
      if existsb (fun existing => DeepEqual (JObject s) (JObject existing)) result then result
      else (result ++ [s])%list)
    schemas [].

Definition schemaExistsIn (schema : gmap string json) (schemas : list (gmap string json)) : bool :=
  existsb (fun s => DeepEqual (JObject schema) (JObject s)) schemas.

Definition getTupleItems (schema : gomap) : list json :=
  match as_array (val schema "prefixItems") with
  | Some l => l
  | None => from_opt [] (as_array (val schema "items"))
  end.

Definition getAdditionalItemsSchema (schema : gomap) : option (gmap string json) :=
  if has schema "prefixItems" then as_map (val schema "items")
  else as_map (val schema "additionalItems").

(** ** Types *)

Definition isTypePromotion (oldType newType : string) : bool :=
  bool_decide (oldType = "integer") && bool_decide (newType = "number").

Definition normalizeType (t : json) : list string :=
  match t with
  | JString s => [s]
  | JArray l => merge_sort String.le (omap as_string l)
  | _ => []
  end.

Definition areTypesCompatible (newType oldType : json) : bool :=
  is_nil oldType || is_nil newType ||
  forallb (fun ot => existsb (fun nt => bool_decide (nt = ot) || isTypePromotion ot nt) (normalizeType newType))
    (normalizeType oldType).

(** ** [$ref] *)

Definition buildExternalRefMap (refs : list Reference) : gmap string gomap :=
  fold_left (fun result ref =>
      if decide (RefSchema ref = "") then result
      else match UnmarshalMap (RefSchema ref) with
           | Some parsed => <[RefName ref := parsed]> result
           | None => result
           end)
    refs ∅.

Definition getDefinitions (schema : gomap) : gomap :=
  match as_map (val schema "definitions") with
  | Some defs => Some defs
  | None => as_map (val schema "$defs")
  end.

Definition resolveLocalRef (ref : string) (defs : gomap) : option (gmap string json) :=
  let behind prefix :=
    if HasPrefix ref prefix then
      def ← at_key defs (drop_str (String.length prefix) ref); as_map def
    else None in
  match behind "#/definitions/" with
  | Some def => Some def
  | None => behind "#/$defs/"
  end.

Definition resolveRef (ref : string) (defs : gomap) (extRefs : gmap string gomap) : option (gmap string json) :=
  match resolveLocalRef ref defs with
  | Some def => Some def
  | None => from_opt ∅ <$> extRefs !! ref
  end.

Section refs.
Context (defs : gomap) (extRefs : gmap string gomap).

(** The definitions of a schema stay as they are. *)
Definition keepDefinitions (schema resolved : gmap string json) : gmap string json :=
  fold_right (fun key m => match schema !! key with Some v => <[key := v]> m | None => m end)
    resolved ["definitions"; "$defs"].

(** What resolveRefsInMap puts in place of an entry: Go replaces in place, and
    never enters what it has put in. *)
Fixpoint resolveEntry (v : json) : json :=
  match v with
  | JObject m =>
      match m !! "$ref" with
      | Some (JString ref) =>
          match resolveRef ref defs extRefs with Some def => JObject def | None => v end
      | _ => JObject (keepDefinitions m (resolveEntry <$> m))
      end
  | JArray l => JArray (map (fun item => match item with JObject _ => resolveEntry item | _ => item end) l)
  | _ => v
  end.

Definition resolveRefsInMap (schema : gmap string json) : gmap string json :=
  keepDefinitions schema (resolveEntry <$> schema).
End refs.

Definition resolveAllRefs (schema : gomap) (extRefs : gmap string gomap) : gomap :=
  resolveRefsInMap (getDefinitions schema) extRefs <$> schema.

(** The shape of the checks of [not] and of dependencies: a keyword that is new,
    one that both schemas have as an object, and every other case. *)
Definition bothObjects {A} (oldSchema newSchema : gomap) (key : string) (added same : A)
    (check : gmap string json -> gmap string json -> A) : A :=
  match at_key oldSchema key, at_key newSchema key with
  | None, Some _ => added
  | Some (JObject o), Some (JObject n) => check o n
  | _, _ => same
  end.

(** ** Checks that do not recurse *)

Section leaves.
Context (e : env) (newSchema oldSchema : gomap) (path : string).

Definition at_path (text : string) : string := text ++ " at '" ++ pathOrRoot path ++ "'".

Definition checkType (result : Result) : Result :=
  if areTypesCompatible (getType newSchema) (getType oldSchema) then result
  else AddMessage result ("Type changed at " ++ pathOrRoot path
         ++ " from '" ++ Sprint (getType oldSchema) ++ "' to '" ++ Sprint (getType newSchema) ++ "'").

Definition checkConstraintChange (constraint : string) (isMinConstraint : bool) (result : Result) : Result :=
  let newVal := val newSchema constraint in
  let oldVal := val oldSchema constraint in
  let tighter :=
    if isMinConstraint then SFltb (toFloat64 oldVal) (toFloat64 newVal)
    else SFltb (toFloat64 newVal) (toFloat64 oldVal) in
  if has newSchema constraint && (negb (has oldSchema constraint) || tighter) then
    AddMessage result (at_path ("'" ++ constraint ++ "' constraint tightened")
      ++ " (was " ++ Sprint oldVal ++ ", now " ++ Sprint newVal ++ ")")
  else result.

Definition enumSet (enum : list json) : gset string := list_to_set (map Sprint enum).

Definition checkEnumCompatibility (result : Result) : Result :=
  match getEnum oldSchema, getEnum newSchema with
  | None, Some _ => AddMessage result (at_path "Enum constraint added")
  | Some oldEnum, Some newEnum =>
      fold_left (fun result '(oldVal, _) =>
          if decide (oldVal ∈ enumSet newEnum) then result
          else AddMessage result (at_path ("Enum value '" ++ oldVal ++ "' was removed")))
        (range e (gset_to_gmap true (enumSet oldEnum))) result
  | _, _ => result
  end.

Definition checkConstCompatibility (result : Result) : Result :=
  match at_key oldSchema "const", at_key newSchema "const" with
  | None, Some _ => AddMessage result (at_path "const constraint added")
  | Some oldConst, Some newConst =>
      if DeepEqual oldConst newConst then result
      else AddMessage result (at_path "const value changed"
             ++ " from '" ++ Sprint oldConst ++ "' to '" ++ Sprint newConst ++ "'")
  | _, _ => result
  end.

(** [v != w] of two [interface{}] values: maps and slices cannot be compared. *)
Definition interface_neq (v w : json) : outcome bool :=
  match v, w with
  | JObject _, JObject _ | JArray _, JArray _ => Panic
  | _, _ => Done (negb (DeepEqual v w))
  end.

Definition checkPattern (result : Result) : outcome Result :=
  match at_key oldSchema "pattern", at_key newSchema "pattern" with
  | Some oldPattern, Some newPattern =>
      let! changed := interface_neq oldPattern newPattern in
      Done (if changed then AddMessage result (at_path "pattern changed"
              ++ " from '" ++ Sprint oldPattern ++ "' to '" ++ Sprint newPattern ++ "'")
            else result)
  | None, Some _ => Done (AddMessage result (at_path "pattern constraint added"))
  | _, None => Done result
  end.

Definition checkStringConstraints (result : Result) : outcome Result :=
  checkPattern (checkConstraintChange "maxLength" false (checkConstraintChange "minLength" true result)).

(** The tolerance of the check of multipleOf. *)
Definition epsilon : float64 := of_decimal false 1 (-9).

Definition checkMultipleOf (result : Result) : Result :=
  match at_key oldSchema "multipleOf", at_key newSchema "multipleOf" with
  | Some oldMul, Some newMul =>
      let oldVal := toFloat64 oldMul in
      let newVal := toFloat64 newMul in
      if negb (SFeqb oldVal Float64.zero) && negb (SFeqb newVal Float64.zero) then
        let ratio := Float64.div oldVal newVal in
        if SFltb epsilon (SFabs (Float64.sub ratio (Float64.Round ratio))) then
          AddMessage result (at_path "multipleOf changed" ++ " from " ++ Sprint oldMul ++ " to " ++ Sprint newMul)
        else result
      else result
  | None, Some _ => AddMessage result (at_path "multipleOf constraint added")
  | _, None => result
  end.

Definition checkNumericConstraints (result : Result) : Result :=
  let result := checkConstraintChange "minimum" true result in
  let result := checkConstraintChange "maximum" false result in
  let result := checkConstraintChange "exclusiveMinimum" true result in
  let result := checkConstraintChange "exclusiveMaximum" false result in
  checkMultipleOf result.

Definition checkPropertyCountConstraints (result : Result) : Result :=
  checkConstraintChange "maxProperties" false (checkConstraintChange "minProperties" true result).

Definition compareNots (oldNot newNot : gmap string json) (result : Result) : Result :=
  let oldNotType := getTypeString (Some oldNot) in
  let newNotType := getTypeString (Some newNot) in
  let result :=
    if negb (bool_decide (oldNotType = "")) && negb (bool_decide (newNotType = "")) &&
       negb (bool_decide (oldNotType = newNotType)) && negb (isTypePromotion newNotType oldNotType)
    then AddMessage result (at_path "'not' schema changed"
           ++ " from '" ++ oldNotType ++ "' to '" ++ newNotType ++ "'")
    else result in
  if negb (DeepEqual (JObject oldNot) (JObject newNot)) && bool_decide (oldNotType = newNotType) &&
     (size newNot <? size oldNot)%nat
  then AddMessage result (at_path "'not' schema broadened")
  else result.

Definition checkNotSchema (result : Result) : Result :=
  bothObjects oldSchema newSchema "not" (AddMessage result (at_path "'not' constraint added")) result
    (fun oldNot newNot => compareNots oldNot newNot result).

Definition checkUniqueItems (result : Result) : Result :=
  if is_bool true (val newSchema "uniqueItems") && negb (is_bool true (val oldSchema "uniqueItems"))
  then AddMessage result (at_path "uniqueItems constraint added")
  else result.

Definition checkItemsBoolean (result : Result) : Result :=
  match at_key oldSchema "items", at_key newSchema "items" with
  | Some (JBool true), Some (JBool false) => AddMessage result (at_path "items changed from allowed to forbidden")
  | Some (JBool _), _ => result
  | Some _, Some (JBool false) => AddMessage result (at_path "items changed from schema to forbidden")
  | _, _ => result
  end.

(** The part the three checks of dependencies have in common: the entries the
    new schema has on its own. *)
Definition addedDependencies (message : string) (newDeps oldDeps : gmap string json) (result : Result) : Result :=
  fold_left (fun result '(propName, _) =>
      if is_some (oldDeps !! propName) then result
      else AddMessage result (at_path (message ++ " added for property '" ++ propName ++ "'")))
    (range e newDeps) result.

Definition compareRequired (oldDeps newDeps : gmap string json) (result : Result) : Result :=
  let result := addedDependencies "dependentRequired" newDeps oldDeps result in
  let result := fold_left (fun result '(propName, _) =>
      if is_some (newDeps !! propName) then result
      else AddMessage result (at_path ("dependentRequired removed for property '" ++ propName ++ "'")))
    (range e oldDeps) result in
  fold_left (fun result '(propName, oldDep) =>
      match newDeps !! propName with
      | Some newDep =>
          if DeepEqual oldDep newDep then result
          else AddMessage result (at_path ("dependentRequired changed for property '" ++ propName ++ "'"))
      | None => result
      end)
    (range e oldDeps) result.

Definition checkDependentRequired (result : Result) : Result :=
  bothObjects oldSchema newSchema "dependentRequired"
    (AddMessage result (at_path "dependentRequired added")) result
    (fun oldDeps newDeps => compareRequired oldDeps newDeps result).
End leaves.

(** ** Sum and product types *)

Definition typeOptions (schema : gomap) : list (gmap string json) :=
  map (fun t => {[ "type" := JString t ]}) (normalizeType (getType schema)).

Definition collectSumTypeOptionsExcludeAllOf (schema : gomap) : list (gmap string json) :=
  match getSchemaArrayValue schema "oneOf", getSchemaArrayValue schema "anyOf" with
  | (_ :: _) as opts, _ => opts
  | [], (_ :: _) as opts => opts
  | [], [] => typeOptions schema
  end.

(** The types that the members of an allOf name. *)
Definition namedTypes (opts : list (gmap string json)) : gset string :=
  list_to_set (List.filter (fun t => negb (bool_decide (t = ""))) (map (fun opt => getTypeString (Some opt)) opts)).

Definition collectSumTypeOptions (schema : gomap) : list (gmap string json) :=
  match getSchemaArrayValue schema "oneOf", getSchemaArrayValue schema "anyOf",
        elements (namedTypes (getSchemaArrayValue schema "allOf")) with
  | (_ :: _) as opts, _, _ => opts
  | [], (_ :: _) as opts, _ => opts
  | [], [], [t] => [{[ "type" := JString t ]}]
  | [], [], _ => typeOptions schema
  end.

Definition hasCompatibleSumOption (newOptions : list (gmap string json)) (oldOpt : gmap string json) : bool :=
  let oldType := getTypeString (Some oldOpt) in
  existsb (fun newOpt =>
      let newType := getTypeString (Some newOpt) in
      bool_decide (newType = oldType) || isTypePromotion oldType newType)
    newOptions.

Definition checkSumTypeCompatibility (newSchema oldSchema : gomap) (path : string) (result : Result) : Result :=
  let newOptions := collectSumTypeOptions newSchema in
  fold_left (fun result oldOpt =>
      if hasCompatibleSumOption newOptions oldOpt then result
      else
        let oldType := getTypeString (Some oldOpt) in
        AddMessage result (at_path path ("Type option '" ++ (if decide (oldType = "") then "schema" else oldType) ++ "' removed")))
    (collectSumTypeOptions oldSchema) result.

Definition schemaSubsumedBy (newConstraint oldSchema : gomap) : bool :=
  let newType := getTypeString newConstraint in
  let oldType := getTypeString oldSchema in
  if negb (bool_decide (newType = "")) && negb (bool_decide (oldType = "")) then
    bool_decide (newType = oldType) || isTypePromotion oldType newType
  else
    match newConstraint, oldSchema with
    | Some m, Some n => DeepEqual (JObject m) (JObject n)
    | None, None => true
    | _, _ => false
    end.

Definition hasMatchingElement (newElem : gmap string json) (oldSchemas : list (gmap string json)) : bool :=
  existsb (fun oldElem : gmap string json =>
      negb (bool_decide (newElem = ∅)) && negb (bool_decide (oldElem = ∅)) &&
      bool_decide (dom newElem ⊆ dom oldElem))
    oldSchemas.

Section allOf.
Context (e : env) (newSchema oldSchema : gomap) (path : string).

(** An element of a new allOf that the old schema, which has none, implies. *)
Definition impliedByOld (newElem : gmap string json) : bool :=
  let newType := getTypeString (Some newElem) in
  let oldType := getTypeString oldSchema in
  (negb (bool_decide (newType = "")) && negb (bool_decide (oldType = "")) &&
   (bool_decide (newType = oldType) || isTypePromotion oldType newType)) ||
  (negb (bool_decide (newType = "")) &&
   existsb (fun oldOpt =>
       bool_decide (newType = getTypeString (Some oldOpt)) || isTypePromotion (getTypeString (Some oldOpt)) newType)
     (collectSumTypeOptionsExcludeAllOf oldSchema)) ||
  schemaSubsumedBy (Some newElem) oldSchema.

(** An element of both allOfs, or one that stands for another of the same type
    or the same keys; two enums are compared. *)
Definition checkAllOfElement (oldDeduped : list (gmap string json)) (result : Result) (newElem : gmap string json) : Result :=
  let newType := getTypeString (Some newElem) in
  if schemaExistsIn newElem oldDeduped then result
  else if negb (bool_decide (newType = "")) &&
    existsb (fun oldElem =>
        bool_decide (getTypeString (Some oldElem) = newType) || isTypePromotion (getTypeString (Some oldElem)) newType)
      oldDeduped
  then result
  else
    match getEnum (Some newElem), List.find (fun oldElem => is_some (getEnum (Some oldElem))) oldDeduped with
    | Some _, Some oldElem =>
        fold_left AddMessage
          (Messages (checkEnumCompatibility e (Some newElem) (Some oldElem) path NewCompatibleResult)) result
    | _, _ =>
        if hasMatchingElement newElem oldDeduped then result
        else AddMessage result (at_path path "New constraint added to allOf")
    end.

Definition allOfTypeChanged (oldElem newElem : gmap string json) : bool :=
  let oldType := getTypeString (Some oldElem) in
  let newType := getTypeString (Some newElem) in
  negb (bool_decide (oldType = "")) && negb (bool_decide (newType = "")) && negb (bool_decide (newType = oldType)) &&
  negb (isTypePromotion oldType newType) && (size oldElem =? 1)%nat && (size newElem =? 1)%nat.

Definition checkAllOfCompatibility (result : Result) : Result :=
  match deduplicateSchemas (getSchemaArrayValue oldSchema "allOf"),
        deduplicateSchemas (getSchemaArrayValue newSchema "allOf") with
  | _, [] => result
  | [], newDeduped =>
      if forallb impliedByOld newDeduped then result
      else AddMessage result (at_path path "New constraint added to allOf")
  | oldDeduped, newDeduped =>
      let result := fold_left (checkAllOfElement oldDeduped) newDeduped result in
      fold_left (fun result oldElem =>
          fold_left (fun result newElem =>
              if allOfTypeChanged oldElem newElem then
                AddMessage result (at_path path "Type changed in allOf" ++ " from '" ++ getTypeString (Some oldElem)
                  ++ "' to '" ++ getTypeString (Some newElem) ++ "'")
              else result)
            newDeduped result)
        oldDeduped result
  end.
End allOf.

(** ** Checks that recurse *)

Section recursive.
Context (e : env).
Context (checkCompatibility : gomap -> gomap -> string -> Result -> outcome Result).

(** A comparison of its own, of which only the outcome counts. *)
Definition checkLocal (newSchema oldSchema : gmap string json) (path message : string) (result : Result) : outcome Result :=
  let! localResult := checkCompatibility (Some newSchema) (Some oldSchema) path NewCompatibleResult in
  Done (if IsCompatible localResult then result else AddMessage result message).

(** Two values that are compared when both are schemas. *)
Definition checkBoth (newVal oldVal : json) (path : string) (result : Result) : outcome Result :=
  match as_map newVal, as_map oldVal with
  | Some n, Some o => checkCompatibility (Some n) (Some o) path result
  | _, _ => Done result
  end.

(** The members of two compositions one by one; [false]: one of them failed,
    which ends the check. *)
Fixpoint checkMembers (path : string) (members : list (gmap string json * gmap string json)) (result : Result)
    : outcome (Result * bool) :=
  match members with
  | [] => Done (result, true)
  | (newElem, oldElem) :: members =>
      let! localResult := checkCompatibility (Some newElem) (Some oldElem) path NewCompatibleResult in
      if IsCompatible localResult then checkMembers path members result
      else Done (AddMessage result (at_path path "Composed schema element changed"), false)
  end.

Section at_schemas.
Context (newSchema oldSchema : gomap) (path : string).

Definition checkMembersOf (keyword : string) (result : Result) : outcome (Result * bool) :=
  let oldElems := getSchemaArrayValue oldSchema keyword in
  let newElems := getSchemaArrayValue newSchema keyword in
  if (List.length oldElems =? List.length newElems)%nat then checkMembers path (combine newElems oldElems) result
  else Done (result, true).

Definition checkCompositionSubschemas (result : Result) : outcome Result :=
  let! st := checkMembersOf "oneOf" result in
  let '(result, go_on) := st in
  if go_on then let! st := checkMembersOf "anyOf" result in Done (fst st) else Done result.

Definition checkCompositionCompatibility (result : Result) : outcome Result :=
  let result := checkSumTypeCompatibility newSchema oldSchema path result in
  let result := checkAllOfCompatibility e newSchema oldSchema path result in
  checkCompositionSubschemas result.

(** A property of the old schema. *)
Definition checkRemovedProperty (result : Result) (entry : string * json) : outcome Result :=
  let '(propName, oldProp) := entry in
  let propPath := joinPath path propName in
  if is_some (getProperties newSchema !! propName) || is_bool false oldProp
     || hasOpenContentModel newSchema || hasCoveringPatternProperties newSchema then Done result
  else
    match getAdditionalPropertiesSchema newSchema with
    | Some readerAPSchema =>
        match as_map oldProp with
        | Some oldPropMap =>
            checkLocal readerAPSchema oldPropMap propPath
              ("Property '" ++ propPath ++ "' removed but not covered by additionalProperties") result
        | None => Done result
        end
    | None => Done (AddMessage result ("Property '" ++ propPath ++ "' was removed"))
    end.

(** A property of the new schema. *)
Definition checkNewProperty (result : Result) (entry : string * json) : outcome Result :=
  let '(propName, newProp) := entry in
  let propPath := joinPath path propName in
  let isRequired := bool_decide (propName ∈ getRequiredSet newSchema) in
  if is_some (getProperties oldSchema !! propName) then
    Done (if negb (bool_decide (propName ∈ getRequiredSet oldSchema)) && isRequired
          then AddMessage result ("Property '" ++ propPath ++ "' changed from optional to required")
          else result)
  else if is_bool true newProp then Done result
  else if isRequired then Done (AddMessage result ("New required property '" ++ propPath ++ "' was added"))
  else if hasOpenContentModel oldSchema then
    Done (AddMessage result ("Property '" ++ propPath ++ "' was added to open content model"))
  else
    match getAdditionalPropertiesSchema oldSchema, as_map newProp with
    | Some apSchema, Some newPropMap =>
        checkLocal newPropMap apSchema propPath
          ("Property '" ++ propPath ++ "' added with type incompatible with additionalProperties") result
    | _, _ => Done result
    end.

Definition checkExistingProperty (result : Result) (entry : string * json) : outcome Result :=
  let '(propName, newProp) := entry in
  match getProperties oldSchema !! propName with
  | Some oldProp => checkBoth newProp oldProp (joinPath path propName) result
  | None => Done result
  end.

(** The loop over the required names that comes last does nothing. *)
Definition checkObjectCompatibility (result : Result) : outcome Result :=
  let! result := foldM checkRemovedProperty (range e (getProperties oldSchema)) result in
  let! result := foldM checkNewProperty (range e (getProperties newSchema)) result in
  foldM checkExistingProperty (range e (getProperties newSchema)) result.

(** The positions of a tuple, numbered from [i]. *)
Fixpoint checkTuplePairs (i : Z) (newItems oldItems : list json) (result : Result) : outcome Result :=
  match newItems, oldItems with
  | newItem :: newItems, oldItem :: oldItems =>
      let! result := checkBoth newItem oldItem (joinPath path ("items/" ++ Itoa i)) result in
      checkTuplePairs (i + 1) newItems oldItems result
  | _, _ => Done result
  end.

(** The positions one of the tuples has on its own, against the schema the other
    has for additional items. *)
Fixpoint checkTupleRest (check : gmap string json -> string -> string -> Result -> outcome Result)
    (what : string) (i : Z) (items : list json) (result : Result) : outcome Result :=
  match items with
  | [] => Done result
  | item :: items =>
      let! result :=
        match as_map item with
        | Some m => check m (joinPath path ("items/" ++ Itoa i))
                      ("Item " ++ what ++ " at position " ++ Itoa i ++ " not covered by additionalItems") result
        | None => Done result
        end in
      checkTupleRest check what (i + 1) items result
  end.

Definition checkTupleItems (result : Result) : outcome Result :=
  let oldTuple := getTupleItems oldSchema in
  let newTuple := getTupleItems newSchema in
  let minLen := Nat.min (List.length oldTuple) (List.length newTuple) in
  let! result := checkTuplePairs 0 newTuple oldTuple result in
  let! result :=
    match getAdditionalItemsSchema oldSchema with
    | Some oldAISchema =>
        checkTupleRest (fun newItem => checkLocal newItem oldAISchema) "added" (Z.of_nat minLen) (drop minLen newTuple) result
    | None => Done result
    end in
  match getAdditionalItemsSchema newSchema with
  | Some newAISchema =>
      checkTupleRest (checkLocal newAISchema) "removed" (Z.of_nat minLen) (drop minLen oldTuple) result
  | None => Done result
  end.

Definition checkArrayCompatibility (result : Result) : outcome Result :=
  let! result :=
    match getItems newSchema, getItems oldSchema with
    | Some newItems, Some oldItems =>
        checkCompatibility (Some newItems) (Some oldItems) (joinPath path "items") result
    | Some _, None =>
        Done (if has oldSchema "items" then result
              else AddMessage result (at_path path "items schema added"))
    | None, _ => Done result
    end in
  let! result := checkTupleItems result in
  let result := checkConstraintChange newSchema oldSchema path "minItems" true result in
  Done (checkConstraintChange newSchema oldSchema path "maxItems" false result).

Definition checkAdditionalPropertiesCompatibility (result : Result) : outcome Result :=
  let oldAllowsAll := negb (has oldSchema "additionalProperties") || is_bool true (val oldSchema "additionalProperties") in
  let result :=
    if oldAllowsAll && is_bool false (val newSchema "additionalProperties") then
      AddMessage result (at_path path "additionalProperties changed from allowed to forbidden")
    else result in
  match getAdditionalPropertiesSchema newSchema, getAdditionalPropertiesSchema oldSchema with
  | Some newAPSchema, Some oldAPSchema =>
      checkCompatibility (Some newAPSchema) (Some oldAPSchema) (joinPath path "additionalProperties") result
  | Some _, None =>
      Done (if oldAllowsAll then AddMessage result (at_path path "additionalProperties narrowed") else result)
  | None, _ => Done result
  end.

(** A dependency of the old schema, in the wording of Draft-07. *)
Definition checkDependency (newDeps : gmap string json) (result : Result) (entry : string * json) : outcome Result :=
  let '(propName, oldDep) := entry in
  match newDeps !! propName with
  | None =>
      Done (if is_some (as_map oldDep) then result
            else AddMessage result (at_path path ("dependency removed for property '" ++ propName ++ "'")))
  | Some newDep =>
      match as_map newDep, as_map oldDep with
      | Some n, Some o => checkCompatibility (Some n) (Some o) (joinPath path ("dependencies/" ++ propName)) result
      | _, _ =>
          Done (if DeepEqual oldDep newDep then result
                else AddMessage result (at_path path ("dependency changed for property '" ++ propName ++ "'")))
      end
  end.

Definition checkDependencies (result : Result) : outcome Result :=
  bothObjects oldSchema newSchema "dependencies"
    (Done (AddMessage result (at_path path "dependencies added"))) (Done result)
    (fun oldDeps newDeps =>
      let result := addedDependencies e path "dependency" newDeps oldDeps result in
      foldM (checkDependency newDeps) (range e oldDeps) result).

Definition checkDependentSchema (newDeps : gmap string json) (result : Result) (entry : string * json) : outcome Result :=
  let '(propName, oldDep) := entry in
  match newDeps !! propName with
  | Some newDep => checkBoth newDep oldDep (joinPath path ("dependencies/" ++ propName)) result
  | None => Done result
  end.

Definition checkDependentSchemas (result : Result) : outcome Result :=
  bothObjects oldSchema newSchema "dependentSchemas"
    (Done (AddMessage result (at_path path "dependentSchemas added"))) (Done result)
    (fun oldDeps newDeps =>
      let result := addedDependencies e path "dependentSchema" newDeps oldDeps result in
      foldM (checkDependentSchema newDeps) (range e oldDeps) result).

Definition checkAdditionalItems (result : Result) : outcome Result :=
  let result :=
    if (negb (has oldSchema "additionalItems") || is_bool true (val oldSchema "additionalItems"))
       && is_bool false (val newSchema "additionalItems") then
      AddMessage result (at_path path "additionalItems changed from allowed to forbidden")
    else result in
  checkBoth (val newSchema "additionalItems") (val oldSchema "additionalItems") (joinPath path "additionalItems") result.

(** Both schemas are nothing but their composition. *)
Definition purelyCompositional : bool :=
  is_nil (getType newSchema) && is_nil (getType oldSchema) &&
  negb (hasObjectKeywords newSchema) && negb (hasObjectKeywords oldSchema).

(** The checks behind the one of composition. *)
Definition checkKeywords (result : Result) : outcome Result :=
  let result := checkType newSchema oldSchema path result in
  let isKind (kind : string) (keywords : gomap -> bool) :=
    bool_decide (getTypeString newSchema = kind) || bool_decide (getTypeString oldSchema = kind)
    || keywords newSchema || keywords oldSchema in
  let! result := if isKind "object" hasObjectKeywords then checkObjectCompatibility result else Done result in
  let! result := if isKind "array" hasArrayKeywords then checkArrayCompatibility result else Done result in
  let result := checkEnumCompatibility e newSchema oldSchema path result in
  let result := checkConstCompatibility newSchema oldSchema path result in
  let! result := checkAdditionalPropertiesCompatibility result in
  let! result := checkStringConstraints newSchema oldSchema path result in
  let result := checkNumericConstraints newSchema oldSchema path result in
  let result := checkPropertyCountConstraints newSchema oldSchema path result in
  let result := checkNotSchema newSchema oldSchema path result in
  let! result := checkDependencies result in
  let result := checkDependentRequired e newSchema oldSchema path result in
  let! result := checkDependentSchemas result in
  let result := checkUniqueItems newSchema oldSchema path result in
  let! result := checkAdditionalItems result in
  Done (checkItemsBoolean newSchema oldSchema path result).

Definition checkSchema (result : Result) : outcome Result :=
  if hasCompositionKeyword newSchema || hasCompositionKeyword oldSchema then
    let! result := checkCompositionCompatibility result in
    if purelyCompositional then Done result else checkKeywords result
  else checkKeywords result.
End at_schemas.
End recursive.

Fixpoint checkCompatibility (e : env) (fuel : nat) (newSchema oldSchema : gomap) (path : string)
    (result : Result) : outcome Result :=
  match fuel with
  | O => NoFuel
  | S fuel => checkSchema e (checkCompatibility e fuel) newSchema oldSchema path result
  end.

(** ** Check *)

(** The nesting of a schema bounds the recursion. *)
Definition map_depth (schema : gomap) : nat := match schema with Some m => depth (JObject m) | None => 1%nat end.

(** The schema of a text with its references resolved. *)
Definition loadSchema (s : SchemaWithRefs) : option gomap :=
  schema ← UnmarshalMap (SWRSchema s);
  Some (resolveAllRefs schema (buildExternalRefMap (SWRReferences s))).

(** [syntax_error text]: what [json.Unmarshal] says of a text it refuses. *)
Definition JsonCheck (e : env) (syntax_error : string -> string) (reader writer : SchemaWithRefs) : outcome Result :=
  match loadSchema reader with
  | None => Done (NewIncompatibleResult ["failed to parse new schema: " ++ syntax_error (SWRSchema reader)])
  | Some newSchema =>
      match loadSchema writer with
      | None => Done (NewIncompatibleResult ["failed to parse old schema: " ++ syntax_error (SWRSchema writer)])
      | Some oldSchema =>
          checkCompatibility e (map_depth newSchema) newSchema oldSchema "" NewCompatibleResult
      end
  end.
