(* ===== verification/JsonRules.v ===== *)
(** * The rules of JSON Schema compatibility

    What the checker asks of two schemas ([fits]) and which subschemas it compares
    ([compared]), as relations that take from the checker only how it reads a
    keyword; and what each check that does not recurse decides. *)
From S2P Require Import Prelude GoStrings GoFloat GoJson StorageTypes Compat JsonCompat.
From Stdlib Require Import Ascii String.

Local Open Scope string_scope.

(** ** What a check does to the result *)

Definition extend (r : Result) (messages : list string) : Result :=
  MkResult (IsCompatible r && bool_decide (messages = [])) (Messages r ++ messages)%list.

(** What has to hold for a check to panic. *)
Class Hazard : Type := hazard : Prop.

(** The check adds messages, and none exactly when [P]; or it panics. *)
Definition decides {U : Hazard} (m : outcome Result) (r : Result) (P : Prop) : Prop :=
  (m = Panic /\ hazard) \/ exists messages, m = Done (extend r messages) /\ (messages = [] <-> P).

Lemma extend_nil r : extend r [] = r.
Proof. unfold extend. rewrite andb_true_r, app_nil_r. by destruct r. Qed.

Lemma extend_extend r l k : extend (extend r l) k = extend r (l ++ k).
Proof.
  unfold extend; simpl. f_equal; [|by rewrite app_assoc].
  rewrite <- andb_assoc. f_equal. destruct l; simpl; [|done]. by destruct k.
Qed.

Section verdicts.
Context {U : Hazard}.

Lemma decides_iff m r P Q : (P <-> Q) -> decides m r P -> decides m r Q.
Proof. intros H [?|(l & -> & Hl)]; [by left|right]. exists l. by rewrite Hl. Qed.

Lemma decides_done r (P : Prop) : P -> decides (Done r) r P.
Proof. intros HP. right. exists []. by rewrite extend_nil. Qed.

Lemma decides_message r m (P : Prop) : ~ P -> decides (Done (AddMessage r m)) r P.
Proof. intros HP. right. exists [m]. unfold extend, AddMessage. by rewrite andb_false_r. Qed.

Lemma decides_if (b : bool) r m P : (b = true <-> P) -> decides (Done (if b then r else AddMessage r m)) r P.
Proof. destruct b; intros H; [apply decides_done|apply decides_message]; naive_solver. Qed.

Lemma decides_unless (b : bool) r m P : (b = false <-> P) -> decides (Done (if b then AddMessage r m else r)) r P.
Proof. destruct b; intros H; [apply decides_message|apply decides_done]; naive_solver. Qed.

Lemma decides_bind m k r P Q :
  decides m r P -> (forall r', decides (k r') r' Q) -> decides (let! x := m in k x) r (P /\ Q).
Proof.
  intros [[-> Hh]|(l & -> & Hl)] Hk; [by left|]. simpl.
  destruct (Hk (extend r l)) as [[-> Hh]|(l' & -> & Hl')]; [by left|right].
  exists (l ++ l')%list. rewrite extend_extend, app_nil. naive_solver.
Qed.

(** A check that cannot fail, as the first of several. *)
Lemma decides_then f k r P Q :
  decides (Done (f r)) r P -> (forall r', decides (k r') r' Q) -> decides (k (f r)) r (P /\ Q).
Proof. intros Hf Hk. by apply (decides_bind (Done (f r)) k). Qed.
End verdicts.

(** The first of the remaining checks, by its lemma. *)
Ltac peel lem :=
  lazymatch goal with |- decides _ ?r _ =>
    lazymatch type of (lem r) with decides (Done ?t) _ _ =>
      pattern t;
      lazymatch goal with |- (fun x => decides (@?k x) _ _) _ =>
        eapply (decides_then (fun _ => t) k r); [exact (lem r)|intros ?; cbv beta]
      end
    end
  end.

Section loops.
Context {U : Hazard}.

Lemma decides_foldM {A} (f : Result -> A -> outcome Result) (P : A -> Prop) l : forall r,
  (forall r x, x ∈ l -> decides (f r x) r (P x)) -> decides (foldM f l r) r (forall x, x ∈ l -> P x).
Proof.
  induction l as [|x l IH]; intros r Hf; simpl.
  - apply decides_done. intros x Hx. by apply not_elem_of_nil in Hx.
  - eapply decides_iff; [|apply decides_bind; [apply Hf; left|intros; apply IH; intros; apply Hf; by right]].
    setoid_rewrite elem_of_cons. naive_solver.
Qed.

Lemma decides_fold {A} (f : Result -> A -> Result) (P : A -> Prop) l r :
  (forall r x, x ∈ l -> decides (Done (f r x)) r (P x)) ->
  decides (Done (fold_left f l r)) r (forall x, x ∈ l -> P x).
Proof.
  intros Hf. assert (Done (fold_left f l r) = foldM (fun r x => Done (f r x)) l r) as ->.
  { revert r Hf. induction l as [|x l IH]; intros r Hf; simpl; [done|]. apply IH. intros. apply Hf. by right. }
  by apply decides_foldM.
Qed.

(** Loops over a map. *)
Lemma decides_rangeM (e : env) (m : gmap string json) f (P : string -> json -> Prop) r :
  (forall r k v, m !! k = Some v -> decides (f r (k, v)) r (P k v)) ->
  decides (foldM f (range e m) r) r (forall k v, m !! k = Some v -> P k v).
Proof.
  intros Hf. eapply decides_iff; [|apply (decides_foldM f (fun kv => P (fst kv) (snd kv)))].
  - split; [|intros H [k v] Hkv; by apply H, (elem_of_range e)].
    intros H k v Hkv. by apply (H (k, v)), elem_of_range.
  - intros r' [k v] Hkv%elem_of_range. by apply Hf.
Qed.

Lemma decides_range {A} (e : env) (m : gmap string A) f (P : string -> A -> Prop) r :
  (forall r k v, m !! k = Some v -> decides (Done (f r (k, v))) r (P k v)) ->
  decides (Done (fold_left f (range e m) r)) r (forall k v, m !! k = Some v -> P k v).
Proof.
  intros Hf. eapply decides_iff; [|apply (decides_fold f (fun kv => P (fst kv) (snd kv)))].
  - split; [|intros H [k v] Hkv; by apply H, (elem_of_range e)].
    intros H k v Hkv. by apply (H (k, v)), elem_of_range.
  - intros r' [k v] Hkv%elem_of_range. by apply Hf.
Qed.

End loops.

(** ** The words of the rules *)

Definition promoted (old new : string) : Prop := old = "integer" /\ new = "number".

(** What has the old type has the new one. *)
Definition widens (old new : string) : Prop := new = old \/ promoted old new.

Definition type_names (t : json) : list string :=
  match t with JString s => [s] | JArray l => omap as_string l | _ => [] end.

Definition type_of (schema : gomap) : string :=
  match at_key schema "type" with Some (JString t) => t | _ => "" end.

Definition types_fit (new old : json) : Prop :=
  old = JNull \/ new = JNull \/
  forall t, t ∈ type_names old -> exists u, u ∈ type_names new /\ widens t u.

(** Properties that are not described are allowed; or patterns describe some. *)
Definition open_content (schema : gomap) : Prop :=
  at_key schema "additionalProperties" = None \/ at_key schema "additionalProperties" = Some (JBool true).
Definition covering (schema : gomap) : Prop :=
  exists m, at_key schema "patternProperties" = Some (JObject m) /\ m <> ∅.

(** Every value of the old enum prints like one of the new. *)
Definition enum_covers (new old : list json) : Prop :=
  forall v, v ∈ old -> exists w, w ∈ new /\ Sprint w = Sprint v.

Definition has_any (schema : gomap) (keys : list string) : bool := existsb (has schema) keys.

(** The alternatives of a schema, and the types they name: the members of oneOf,
    or of anyOf, or the one type that an allOf names, or the types of the schema. *)
Definition alternatives (schema : gomap) : list (gmap string json) :=
  match getSchemaArrayValue schema "oneOf" with [] => getSchemaArrayValue schema "anyOf" | l => l end.

Definition alternative_types (schema : gomap) : list string :=
  match alternatives schema with
  | [] => type_names (val schema "type")
  | l => map (fun m => type_of (Some m)) l
  end.

Definition sum_types (schema : gomap) : list string :=
  match alternatives schema,
        remove_dups (filter (fun t => t <> "") (map (fun m => type_of (Some m)) (getSchemaArrayValue schema "allOf"))) with
  | [], [t] => [t]
  | _, _ => alternative_types schema
  end.

(** How far a ratio of two multiples may be from an integer. *)
Definition tolerance : float64 := of_decimal false 1 (-9).

(** ** The rules *)

Section rules.
Context (new old : gomap).

(** The bounds the checker compares, with whether they are lower bounds. *)
Definition bounds : list (string * bool) :=
  [("minItems", true); ("maxItems", false); ("minLength", true); ("maxLength", false); ("minimum", true);
   ("maximum", false); ("exclusiveMinimum", true); ("exclusiveMaximum", false); ("minProperties", true);
   ("maxProperties", false)].

Definition bound_fits (key : string) (lower : bool) : Prop :=
  has new key = true -> has old key = true /\
  (if lower then SFltb (toFloat64 (val old key)) (toFloat64 (val new key))
   else SFltb (toFloat64 (val new key)) (toFloat64 (val old key))) = false.

(** A keyword the new schema has, the old one has too, and [rel] holds. *)
Definition keyword_fits (key : string) (rel : json -> json -> Prop) : Prop :=
  forall v, at_key new key = Some v -> exists w, at_key old key = Some w /\ rel w v.

Definition multiple_fits (w v : json) : Prop :=
  SFeqb (toFloat64 w) Float64.zero = true \/ SFeqb (toFloat64 v) Float64.zero = true \/
  let ratio := Float64.div (toFloat64 w) (toFloat64 v) in
  SFltb tolerance (SFabs (Float64.sub ratio (Float64.Round ratio))) = false.

Definition not_fits (w v : json) : Prop :=
  forall o n, w = JObject o -> v = JObject n ->
    let oldType := type_of (Some o) in
    let newType := type_of (Some n) in
    (oldType = "" \/ newType = "" \/ widens newType oldType) /\
    (DeepEqual w v = true \/ oldType <> newType \/ (size o <= size n)%nat).

(** Dependencies: the new ones are among the old ones, and [rel] holds of each. *)
Definition dependencies_fit (rel : json -> option json -> Prop) (w v : json) : Prop :=
  forall o n, w = JObject o -> v = JObject n ->
    (forall name d, n !! name = Some d -> is_some (o !! name) = true) /\
    (forall name d, o !! name = Some d -> rel d (n !! name)).

Definition dependency_fits (d : json) (d' : option json) : Prop :=
  match d' with
  | None => is_some (as_map d) = true
  | Some d' => is_some (as_map d) && is_some (as_map d') = true \/ DeepEqual d d' = true
  end.

Definition dependentRequired_fits (d : json) (d' : option json) : Prop :=
  match d' with None => False | Some d' => DeepEqual d d' = true end.

Definition oldAllowsAll (key : string) : Prop := at_key old key = None \/ val old key = JBool true.

(** What is asked of two schemas themselves, composition apart. *)
Record keywords_fit : Prop := {
  type_fits : types_fit (val new "type") (val old "type");
  removed_fits : forall name v, getProperties old !! name = Some v -> getProperties new !! name = None ->
    v = JBool false \/ open_content new \/ covering new \/ exists m, val new "additionalProperties" = JObject m;
  required_fits : forall name v, getProperties new !! name = Some v -> name ∈ getRequiredSet new ->
    if is_some (getProperties old !! name) then name ∈ getRequiredSet old else v = JBool true;
  added_fits : forall name v, getProperties new !! name = Some v -> getProperties old !! name = None ->
    v = JBool true \/ ~ open_content old;
  items_fit : is_some (getItems new) = true -> is_some (getItems old) = true \/ has old "items" = true;
  bounds_fit : forall key lower, (key, lower) ∈ bounds -> bound_fits key lower;
  enum_fits : forall l, getEnum new = Some l -> exists k, getEnum old = Some k /\ enum_covers l k;
  const_fits : keyword_fits "const" (fun w v => DeepEqual w v = true);
  additionalProperties_fits : oldAllowsAll "additionalProperties" ->
    is_bool false (val new "additionalProperties") = false /\ getAdditionalPropertiesSchema new = None;
  pattern_fits : keyword_fits "pattern" (fun w v => DeepEqual w v = true);
  multipleOf_fits : keyword_fits "multipleOf" multiple_fits;
  not_schema_fits : keyword_fits "not" not_fits;
  dependencies_fits : keyword_fits "dependencies" (dependencies_fit dependency_fits);
  dependentRequired_fit : keyword_fits "dependentRequired" (dependencies_fit dependentRequired_fits);
  dependentSchemas_fits : keyword_fits "dependentSchemas" (dependencies_fit (fun _ _ => True));
  uniqueItems_fits : val new "uniqueItems" = JBool true -> val old "uniqueItems" = JBool true;
  additionalItems_fits : oldAllowsAll "additionalItems" -> is_bool false (val new "additionalItems") = false;
  itemsBoolean_fits : at_key new "items" = Some (JBool false) ->
    at_key old "items" = None \/ at_key old "items" = Some (JBool false)
}.

(** An element of a new allOf that stands for one of the old allOf: it is equal to one, or
    of the type of one or a wider type; or it is an enum and covers the first enum
    there; or, if not both have one, its keys are among those of one. *)
Definition element_fits (oldElems : list (gmap string json)) (n : gmap string json) : Prop :=
  (exists o, o ∈ oldElems /\ DeepEqual (JObject n) (JObject o) = true) \/
  (type_of (Some n) <> "" /\ exists o, o ∈ oldElems /\ widens (type_of (Some o)) (type_of (Some n))) \/
  match getEnum (Some n), List.find (fun o => is_some (getEnum (Some o))) oldElems with
  | Some l, Some o => forall k, getEnum (Some o) = Some k -> enum_covers l k
  | _, _ => exists o, o ∈ oldElems /\ n <> ∅ /\ o <> ∅ /\ dom n ⊆ dom o
  end.

(** An element of a new allOf, where the old schema has none: the old schema is of
    its type or a narrower one, or an alternative of it is, or it is equal to it
    and the types do not tell. *)
Definition implied (n : gmap string json) : Prop :=
  let newType := type_of (Some n) in
  (newType <> "" /\ type_of old <> "" /\ widens (type_of old) newType) \/
  (newType <> "" /\ exists t, t ∈ alternative_types old /\ widens t newType) \/
  ((newType = "" \/ type_of old = "") /\ exists o, old = Some o /\ DeepEqual (JObject n) (JObject o) = true).

(** Two elements that are nothing but types, of which neither is the other's. *)
Definition retyped (o n : gmap string json) : Prop :=
  type_of (Some o) <> "" /\ type_of (Some n) <> "" /\ ~ widens (type_of (Some o)) (type_of (Some n)) /\
  size o = 1%nat /\ size n = 1%nat.

Definition allOf_fits : Prop :=
  let oldElems := deduplicateSchemas (getSchemaArrayValue old "allOf") in
  let newElems := deduplicateSchemas (getSchemaArrayValue new "allOf") in
  if decide (oldElems = []) then forall n, n ∈ newElems -> implied n
  else
    (forall n, n ∈ newElems -> element_fits oldElems n) /\
    (forall o n, o ∈ oldElems -> n ∈ newElems -> ~ retyped o n).

(** Every type the old alternatives name is one of the new, or narrower. *)
Definition composition_fits : Prop :=
  (forall t, t ∈ sum_types old -> exists u, u ∈ sum_types new /\ widens t u) /\ allOf_fits.

Definition composed : bool := has_any new ["oneOf"; "anyOf"; "allOf"] || has_any old ["oneOf"; "anyOf"; "allOf"].

Definition only_composition (schema : gomap) : bool :=
  is_nil (val schema "type") && negb (has_any schema ["properties"; "required"; "patternProperties"; "additionalProperties"]).

(** Two schemas that are nothing but compositions are compared no further. *)
Definition keyword_level : bool := negb (composed && only_composition new && only_composition old).

Record fits : Prop := {
  fits_composition : composed = true -> composition_fits;
  fits_keywords : keyword_level = true -> keywords_fit
}.

(** The pairs of subschemas that are compared. *)
Inductive compared : gmap string json -> gmap string json -> Prop :=
  | compared_member key i n o :
      key ∈ ["oneOf"; "anyOf"] ->
      List.length (getSchemaArrayValue new key) = List.length (getSchemaArrayValue old key) ->
      getSchemaArrayValue new key !! i = Some n -> getSchemaArrayValue old key !! i = Some o -> compared n o
  | compared_property name n o :
      keyword_level = true ->
      getProperties new !! name = Some (JObject n) -> getProperties old !! name = Some (JObject o) -> compared n o
  | compared_removed name n o :
      keyword_level = true -> ~ covering new ->
      getProperties old !! name = Some (JObject o) -> getProperties new !! name = None ->
      getAdditionalPropertiesSchema new = Some n -> compared n o
  | compared_added name n o :
      keyword_level = true -> name ∉ getRequiredSet new ->
      getProperties new !! name = Some (JObject n) -> getProperties old !! name = None ->
      getAdditionalPropertiesSchema old = Some o -> compared n o
  | compared_items n o :
      keyword_level = true -> getItems new = Some n -> getItems old = Some o -> compared n o
  | compared_position i n o :
      keyword_level = true ->
      getTupleItems new !! i = Some (JObject n) -> getTupleItems old !! i = Some (JObject o) -> compared n o
  | compared_position_added i n o :
      keyword_level = true -> getTupleItems new !! i = Some (JObject n) -> getTupleItems old !! i = None ->
      getAdditionalItemsSchema old = Some o -> compared n o
  | compared_position_removed i n o :
      keyword_level = true -> getTupleItems old !! i = Some (JObject o) -> getTupleItems new !! i = None ->
      getAdditionalItemsSchema new = Some n -> compared n o
  | compared_additional key n o :
      keyword_level = true -> key ∈ ["additionalProperties"; "additionalItems"] ->
      val new key = JObject n -> val old key = JObject o -> compared n o
  | compared_dependency key name ns os n o :
      keyword_level = true -> key ∈ ["dependencies"; "dependentSchemas"] ->
      val new key = JObject ns -> val old key = JObject os ->
      ns !! name = Some (JObject n) -> os !! name = Some (JObject o) -> compared n o.

(** Comparing the two patterns does not panic. *)
Definition pattern_safe : Prop :=
  match at_key new "pattern", at_key old "pattern" with
  | Some (JObject _), Some (JObject _) | Some (JArray _), Some (JArray _) => False
  | _, _ => True
  end.
End rules.

(** Every pair of subschemas the checker reaches fits. *)
Inductive accepted (new old : gomap) : Prop :=
  | accepted_intro :
      fits new old -> (forall n o, compared new old n o -> accepted (Some n) (Some o)) -> accepted new old.

(** Comparing two schemas reaches two patterns whose comparison panics. *)
Inductive meets_unsafe (new old : gomap) : Prop :=
  | unsafe_here : ~ pattern_safe new old -> meets_unsafe new old
  | unsafe_below n o : compared new old n o -> meets_unsafe (Some n) (Some o) -> meets_unsafe new old.

(** ** The checks that do not recurse *)

Lemma is_bool_iff b v : is_bool b v = true <-> v = JBool b.
Proof. destruct v; simpl; try (split; [done|intros [=]]). by destruct b, b0. Qed.

Lemma val_at schema key v : at_key schema key = Some v -> val schema key = v.
Proof. unfold val. by intros ->. Qed.

Lemma has_at schema key : has schema key = true <-> exists v, at_key schema key = Some v.
Proof. unfold has. destruct (at_key schema key); naive_solver. Qed.

(** *** The words in the code *)

Lemma isTypePromotion_iff o n : isTypePromotion o n = true <-> promoted o n.
Proof. unfold isTypePromotion, promoted. by rewrite andb_true_iff, !bool_decide_eq_true. Qed.

Lemma widens_iff o n : bool_decide (n = o) || isTypePromotion o n = true <-> widens o n.
Proof. unfold widens. by rewrite orb_true_iff, bool_decide_eq_true, isTypePromotion_iff. Qed.

Lemma getTypeString_of schema : getTypeString schema = type_of schema.
Proof. unfold getTypeString, getType, typeString, type_of, val. by destruct (at_key schema "type") as [[]|]. Qed.

Lemma normalizeType_names t u : u ∈ normalizeType t <-> u ∈ type_names t.
Proof. destruct t; try done. simpl. by rewrite merge_sort_Permutation. Qed.

Lemma areTypesCompatible_iff new old : areTypesCompatible new old = true <-> types_fit new old.
Proof.
  unfold areTypesCompatible, types_fit. rewrite !orb_true_iff, forallb_forall.
  assert (Hnil : forall v, is_nil v = true <-> v = JNull) by (by intros []).
  rewrite !Hnil. etrans; [symmetry; apply or_assoc|]. apply or_iff_compat_l, or_iff_compat_l. split; intros H t Ht.
  - specialize (H t). rewrite <- list_elem_of_In, normalizeType_names in H. apply H, existsb_exists in Ht as (u & Hu & Hw).
    exists u. rewrite <- widens_iff, <- normalizeType_names. by rewrite list_elem_of_In.
  - apply list_elem_of_In, normalizeType_names, H in Ht as (u & Hu & Hw). apply existsb_exists. exists u.
    rewrite <- list_elem_of_In, normalizeType_names. by rewrite widens_iff.
Qed.

Lemma hasOpenContentModel_iff schema : hasOpenContentModel schema = true <-> open_content schema.
Proof. unfold hasOpenContentModel, open_content. destruct (at_key schema "additionalProperties") as [[|[]| | | |]|]; naive_solver. Qed.

Lemma hasCoveringPatternProperties_iff schema : hasCoveringPatternProperties schema = true <-> covering schema.
Proof.
  unfold hasCoveringPatternProperties, covering, val. destruct (at_key schema "patternProperties") as [[| | | | |m]|]; simpl;
    try naive_solver. rewrite negb_true_iff, bool_decide_eq_false. naive_solver.
Qed.

Lemma enumSet_covers k l : enumSet k ⊆ enumSet l <-> enum_covers l k.
Proof.
  unfold enum_covers, enumSet. rewrite elem_of_subseteq. setoid_rewrite elem_of_list_to_set. setoid_rewrite list_elem_of_fmap. split.
  - intros H v Hv. destruct (H (Sprint v)) as (w & E & Hw); [by exists v|]. by exists w.
  - intros H t (v & -> & Hv). destruct (H v Hv) as (w & Hw & E). by exists w.
Qed.

Lemma purelyCompositional_only new old : purelyCompositional new old = only_composition new && only_composition old.
Proof.
  unfold purelyCompositional, only_composition. change (hasObjectKeywords new) with (has_any new ["properties"; "required"; "patternProperties"; "additionalProperties"]).
  change (hasObjectKeywords old) with (has_any old ["properties"; "required"; "patternProperties"; "additionalProperties"]).
  change (getType new) with (val new "type"). change (getType old) with (val old "type").
  destruct (is_nil (val new "type")), (is_nil (val old "type")), (has_any new _), (has_any old _); done.
Qed.

Lemma existsb_type_match (f : gmap string json -> bool) (l : list (gmap string json)) :
  existsb f l = true <-> exists o, o ∈ l /\ f o = true.
Proof. rewrite existsb_exists. by setoid_rewrite list_elem_of_In. Qed.

(** The types of the options that are collected. *)
Definition option_type (t : string) (l : list (gmap string json)) : Prop := exists m, m ∈ l /\ type_of (Some m) = t.

Lemma option_type_map t l : option_type t l <-> t ∈ map (fun m => type_of (Some m)) l.
Proof. unfold option_type. rewrite list_elem_of_fmap. naive_solver. Qed.

Lemma typeOptions_types schema t : option_type t (typeOptions schema) <-> t ∈ type_names (val schema "type").
Proof.
  unfold option_type, typeOptions. setoid_rewrite list_elem_of_fmap. change (getType schema) with (val schema "type"). split.
  - intros (m & (u & -> & Hu%normalizeType_names) & <-). unfold type_of. simpl. by rewrite lookup_singleton_eq.
  - intros Ht%normalizeType_names. eexists. split; [by exists t|]. unfold type_of. simpl. by rewrite lookup_singleton_eq.
Qed.

Lemma exclude_types schema t : option_type t (collectSumTypeOptionsExcludeAllOf schema) <-> t ∈ alternative_types schema.
Proof.
  unfold collectSumTypeOptionsExcludeAllOf, alternative_types, alternatives.
  destruct (getSchemaArrayValue schema "oneOf"), (getSchemaArrayValue schema "anyOf");
    apply option_type_map || apply typeOptions_types.
Qed.

Lemma namedTypes_single l t :
  elements (namedTypes l) = [t] <-> remove_dups (filter (fun t => t <> "") (map (fun m => type_of (Some m)) l)) = [t].
Proof.
  assert (Hp : elements (namedTypes l) ≡ₚ remove_dups (filter (fun t => t <> "") (map (fun m => type_of (Some m)) l))).
  { apply NoDup_Permutation; [apply NoDup_elements|apply NoDup_remove_dups|]. intros u. unfold namedTypes.
    rewrite elem_of_elements, elem_of_list_to_set, elem_of_remove_dups, list_elem_of_filter, list_elem_of_In, List.filter_In.
    rewrite negb_true_iff, bool_decide_eq_false, <- list_elem_of_In.
    etrans; [|apply (comm and)]. rewrite (map_ext (fun opt => getTypeString (Some opt)) (fun m => type_of (Some m))); [done|]. intros m. apply getTypeString_of. }
  split; intros E; rewrite E in Hp; [symmetry in Hp|]; by apply Permutation_singleton_r.
Qed.

Lemma sum_option_types schema t : option_type t (collectSumTypeOptions schema) <-> t ∈ sum_types schema.
Proof.
  unfold collectSumTypeOptions, sum_types.
  destruct (alternatives schema) as [|m l] eqn:Ea.
  - assert (getSchemaArrayValue schema "oneOf" = [] /\ getSchemaArrayValue schema "anyOf" = []) as [-> ->].
    { unfold alternatives in Ea. by destruct (getSchemaArrayValue schema "oneOf"). }
    pose proof (namedTypes_single (getSchemaArrayValue schema "allOf")) as Hs.
    assert (Halt : t ∈ alternative_types schema <-> option_type t (typeOptions schema))
      by (unfold alternative_types; rewrite Ea; symmetry; apply typeOptions_types).
    destruct (elements (namedTypes (getSchemaArrayValue schema "allOf"))) as [|u [|u' us]].
    + destruct (remove_dups _) as [|v [|]]; [by rewrite Halt| |by rewrite Halt]. by pose proof (proj2 (Hs v) eq_refl).
    + rewrite (proj1 (Hs u) eq_refl). rewrite option_type_map. simpl. unfold type_of. simpl. by rewrite lookup_singleton_eq.
    + destruct (remove_dups _) as [|v [|]]; [by rewrite Halt| |by rewrite Halt]. by pose proof (proj2 (Hs v) eq_refl).
  - unfold alternatives in Ea. unfold alternative_types, alternatives.
    destruct (getSchemaArrayValue schema "oneOf"), (getSchemaArrayValue schema "anyOf"); try discriminate Ea;
      rewrite option_type_map; done.
Qed.

Lemma keyword_fits_none new old key rel : at_key new key = None -> keyword_fits new old key rel.
Proof. intros H v. by rewrite H. Qed.

Lemma keyword_fits_added new old key rel v :
  at_key new key = Some v -> at_key old key = None -> ~ keyword_fits new old key rel.
Proof. intros Hn Ho H. destruct (H v Hn) as (w & Hw & _). congruence. Qed.

Lemma keyword_fits_both new old key (rel : json -> json -> Prop) v w :
  at_key new key = Some v -> at_key old key = Some w -> keyword_fits new old key rel <-> rel w v.
Proof. unfold keyword_fits. naive_solver. Qed.

Section leaves.
Context {U : Hazard} (e : env) (new old : gomap) (path : string).

Lemma decides_type r :
  decides (Done (checkType new old path r)) r (types_fit (val new "type") (val old "type")).
Proof. apply decides_if, areTypesCompatible_iff. Qed.

Lemma decides_constraint key lower r :
  decides (Done (checkConstraintChange new old path key lower r)) r (bound_fits new old key lower).
Proof.
  unfold checkConstraintChange, bound_fits. apply decides_unless.
  destruct (has new key), (has old key), lower; simpl; try naive_solver; destruct (SFltb _ _); naive_solver.
Qed.

Lemma decides_enum r :
  decides (Done (checkEnumCompatibility e new old path r)) r
    (forall l, getEnum new = Some l -> exists k, getEnum old = Some k /\ enum_covers l k).
Proof.
  eapply decides_iff with (P := forall l, getEnum new = Some l -> exists k, getEnum old = Some k /\ enumSet k ⊆ enumSet l).
  { by setoid_rewrite enumSet_covers. }
  unfold checkEnumCompatibility. destruct (getEnum old) as [k|], (getEnum new) as [l|];
    [|by apply decides_done|apply decides_message; naive_solver|by apply decides_done].
  eapply decides_iff; [|apply (decides_range e _ _ (fun v _ => v ∈ enumSet l))].
  - split.
    + intros H l' [= <-]. exists k. split; [done|]. intros v Hv. apply (H v true).
      by apply lookup_gset_to_gmap_Some.
    + intros H v b [Hv _]%lookup_gset_to_gmap_Some. destruct (H l eq_refl) as (k' & [= <-] & Hk). by apply Hk.
  - intros r' v b _. destruct (decide (v ∈ enumSet l)); [by apply decides_done|by apply decides_message].
Qed.

Lemma decides_const r :
  decides (Done (checkConstCompatibility new old path r)) r
    (keyword_fits new old "const" (fun w v => DeepEqual w v = true)).
Proof.
  unfold checkConstCompatibility. destruct (at_key new "const") as [v|] eqn:Hn;
    [|destruct (at_key old _); apply decides_done; by apply keyword_fits_none].
  destruct (at_key old "const") as [w|] eqn:Ho; [|apply decides_message; by eapply keyword_fits_added].
  apply decides_if. by rewrite keyword_fits_both.
Qed.

Lemma decides_pattern r :
  (~ pattern_safe new old -> hazard) ->
  decides (checkPattern new old path r) r (keyword_fits new old "pattern" (fun w v => DeepEqual w v = true)).
Proof.
  unfold checkPattern, pattern_safe. intros Hs. destruct (at_key new "pattern") as [v|] eqn:Hn;
    [|destruct (at_key old _); apply decides_done; by apply keyword_fits_none].
  destruct (at_key old "pattern") as [w|] eqn:Ho; [|apply decides_message; by eapply keyword_fits_added].
  assert (interface_neq w v = Panic /\ hazard \/ interface_neq w v = Done (negb (DeepEqual w v))) as [[-> Hh]| ->].
  { destruct v, w; try (by right); left; split; [done|apply Hs; tauto|done|apply Hs; tauto]. }
  { by left. }
  apply decides_unless. by rewrite keyword_fits_both, negb_false_iff.
Qed.

Lemma decides_strings r :
  (~ pattern_safe new old -> hazard) ->
  decides (checkStringConstraints new old path r) r
    (bound_fits new old "minLength" true /\ bound_fits new old "maxLength" false /\
     keyword_fits new old "pattern" (fun w v => DeepEqual w v = true)).
Proof.
  intros Hs. unfold checkStringConstraints.
  peel (decides_constraint "minLength" true). peel (decides_constraint "maxLength" false).
  by apply decides_pattern.
Qed.

Lemma decides_multipleOf r :
  decides (Done (checkMultipleOf new old path r)) r (keyword_fits new old "multipleOf" multiple_fits).
Proof.
  unfold checkMultipleOf. destruct (at_key new "multipleOf") as [v|] eqn:Hn;
    [|destruct (at_key old _); apply decides_done; by apply keyword_fits_none].
  destruct (at_key old "multipleOf") as [w|] eqn:Ho; [|apply decides_message; by eapply keyword_fits_added].
  eapply decides_iff; [symmetry; by apply keyword_fits_both|]. unfold multiple_fits. cbv zeta.
  change tolerance with epsilon. generalize (SFltb epsilon (SFabs (Float64.sub (Float64.div (toFloat64 w) (toFloat64 v))
    (Float64.Round (Float64.div (toFloat64 w) (toFloat64 v)))))).
  generalize (SFeqb (toFloat64 w) Float64.zero) (SFeqb (toFloat64 v) Float64.zero). intros w0 v0 far.
  destruct w0, v0; cbn [negb andb]; try (apply decides_done; tauto). apply decides_unless. intuition discriminate.
Qed.

Lemma decides_numeric r :
  decides (Done (checkNumericConstraints new old path r)) r
    (bound_fits new old "minimum" true /\ bound_fits new old "maximum" false /\
     bound_fits new old "exclusiveMinimum" true /\ bound_fits new old "exclusiveMaximum" false /\
     keyword_fits new old "multipleOf" multiple_fits).
Proof.
  unfold checkNumericConstraints. cbv zeta.
  peel (decides_constraint "minimum" true). peel (decides_constraint "maximum" false).
  peel (decides_constraint "exclusiveMinimum" true). peel (decides_constraint "exclusiveMaximum" false).
  apply decides_multipleOf.
Qed.

Lemma decides_counts r :
  decides (Done (checkPropertyCountConstraints new old path r)) r
    (bound_fits new old "minProperties" true /\ bound_fits new old "maxProperties" false).
Proof.
  unfold checkPropertyCountConstraints. peel (decides_constraint "minProperties" true).
  apply decides_constraint.
Qed.
End leaves.

(** ** The remaining keywords *)

Section keywords.
Context {U : Hazard} (e : env) (new old : gomap) (path : string).

(** A check of the shape [bothObjects], for a relation that only two objects can
    violate. *)
Lemma decides_bothObjects key (rel : json -> json -> Prop) message check r :
  (forall w v, (forall o n, w = JObject o -> v = JObject n -> rel w v) -> rel w v) ->
  (forall o n, at_key old key = Some (JObject o) -> at_key new key = Some (JObject n) ->
     decides (check o n) r (rel (JObject o) (JObject n))) ->
  decides (bothObjects old new key (Done (AddMessage r message)) (Done r) check) r (keyword_fits new old key rel).
Proof.
  intros Hrel Hc. unfold bothObjects. destruct (at_key new key) as [v|] eqn:Hn.
  - destruct (at_key old key) as [w|] eqn:Ho; [|apply decides_message; by eapply keyword_fits_added].
    eapply decides_iff; [symmetry; by apply keyword_fits_both|].
    destruct w as [| | | | |o], v as [| | | | |n]; try (by apply Hc); apply decides_done, Hrel; naive_solver.
  - assert (keyword_fits new old key rel) by by apply keyword_fits_none.
    destruct (at_key old key) as [[]|]; by apply decides_done.
Qed.

Lemma Done_bothObjects key r r' check :
  Done (bothObjects old new key r r' check) =
  bothObjects old new key (Done r) (Done r') (fun o n => Done (check o n : Result)).
Proof. unfold bothObjects. by destruct (at_key old key) as [[]|], (at_key new key) as [[]|]. Qed.

Lemma decides_not r :
  decides (Done (checkNotSchema new old path r)) r (keyword_fits new old "not" not_fits).
Proof.
  unfold checkNotSchema. rewrite Done_bothObjects.
  apply decides_bothObjects; [intros w v H o n Ho Hn; exact (H o n Ho Hn o n Ho Hn)|].
  intros o n _ _. unfold compareNots. cbv zeta.
  eapply decides_iff; [|apply (decides_then (fun r => if _ : bool then AddMessage r _ else r)
     (fun r => Done (if _ : bool then AddMessage r _ else r)));
     [apply decides_unless; reflexivity|intros r'; apply decides_unless; reflexivity]].
  unfold not_fits. rewrite !getTypeString_of.
  rewrite !andb_false_iff, !negb_false_iff, !bool_decide_eq_true, bool_decide_eq_false, Nat.ltb_ge, isTypePromotion_iff.
  unfold widens.
  split; [intros H o' n' [= <-] [= <-]|intros H; specialize (H o n eq_refl eq_refl)]; tauto.
Qed.

Lemma decides_uniqueItems r :
  decides (Done (checkUniqueItems new old path r)) r
    (val new "uniqueItems" = JBool true -> val old "uniqueItems" = JBool true).
Proof.
  apply decides_unless. rewrite andb_false_iff, negb_false_iff, <- !is_bool_iff.
  destruct (is_bool true (val new "uniqueItems")); naive_solver.
Qed.

Lemma decides_itemsBoolean r :
  decides (Done (checkItemsBoolean new old path r)) r
    (at_key new "items" = Some (JBool false) ->
     at_key old "items" = None \/ at_key old "items" = Some (JBool false)).
Proof.
  unfold checkItemsBoolean.
  destruct (at_key old "items") as [[|[]| | | |]|], (at_key new "items") as [[|[]| | | |]|];
    first [apply decides_done; naive_solver | apply decides_message; naive_solver].
Qed.

Lemma decides_added message n o r :
  decides (Done (addedDependencies e path message n o r)) r
    (forall name d, n !! name = Some d -> is_some (o !! name) = true).
Proof. apply (decides_range e n). intros r' name d _. by apply decides_if. Qed.

(** The three loops of the check of dependentRequired. *)
Definition dependencies_rules (n o : gmap string json) : Prop :=
  (forall name d, n !! name = Some d -> is_some (o !! name) = true) /\
  (forall name d, o !! name = Some d -> is_some (n !! name) = true) /\
  (forall name d, o !! name = Some d -> match n !! name with Some d' => DeepEqual d d' = true | None => True end).

Lemma decides_dependentRequired r :
  decides (Done (checkDependentRequired e new old path r)) r
    (keyword_fits new old "dependentRequired" (dependencies_fit dependentRequired_fits)).
Proof.
  unfold checkDependentRequired. rewrite Done_bothObjects.
  apply decides_bothObjects; [unfold dependencies_fit; naive_solver|]. intros o n _ _. unfold compareRequired.
  apply (decides_iff _ _ (dependencies_rules n o)).
  - unfold dependencies_fit, dependentRequired_fits. split.
    + intros (H1 & H2 & H3) o' n' [= <-] [= <-]. split; [done|]. intros name d Hd.
      specialize (H2 name d Hd). specialize (H3 name d Hd). by destruct (n !! name).
    + intros H. destruct (H o n eq_refl eq_refl) as [H1 H2]. split_and!; [done|..];
        intros name d Hd; specialize (H2 name d Hd); by destruct (n !! name).
  - peel (decides_added "dependentRequired" n o).
    apply (decides_then (fun r => fold_left _ (range e o) r) (fun r => Done (fold_left _ (range e o) r))); intros.
    + apply (decides_range e o _ (fun name _ => is_some (n !! name) = true)). intros. by apply decides_if.
    + apply (decides_range e o _ (fun name d => match n !! name with Some d' => DeepEqual d d' = true | None => True end)).
      intros r2 name d _. destruct (n !! name); [by apply decides_if|by apply decides_done].
Qed.

(** ** Composition *)

Lemma decides_sum r :
  decides (Done (checkSumTypeCompatibility new old path r)) r
    (forall t, t ∈ sum_types old -> exists u, u ∈ sum_types new /\ widens t u).
Proof.
  eapply decides_iff; [|apply (decides_fold _ (fun o => hasCompatibleSumOption (collectSumTypeOptions new) o = true))].
  - assert (Hone : forall o, hasCompatibleSumOption (collectSumTypeOptions new) o = true <->
        exists u, u ∈ sum_types new /\ widens (type_of (Some o)) u).
    { intros o. unfold hasCompatibleSumOption. rewrite existsb_type_match. split.
      - intros (m & Hm & Hw). rewrite !getTypeString_of, widens_iff in Hw. exists (type_of (Some m)). split; [|done].
        apply sum_option_types. by exists m.
      - intros (u & (m & Hm & <-)%sum_option_types & Hw). exists m. by rewrite !getTypeString_of, widens_iff. }
    setoid_rewrite Hone. setoid_rewrite <- (sum_option_types old). unfold option_type. naive_solver.
  - intros r' o _. by apply decides_if.
Qed.
End keywords.

Section allOf.
Context {U : Hazard} (e : env) (new old : gomap) (path : string).

Lemma fold_AddMessage l : forall r, fold_left AddMessage l r = extend r l.
Proof.
  induction l as [|m l IH]; intros r; simpl; [by rewrite extend_nil|].
  rewrite IH. unfold extend, AddMessage; simpl. f_equal; [by rewrite andb_false_r|by rewrite <- app_assoc].
Qed.

Lemma schemaExistsIn_iff n l : schemaExistsIn n l = true <-> exists o, o ∈ l /\ DeepEqual (JObject n) (JObject o) = true.
Proof. apply existsb_type_match. Qed.

Lemma hasMatchingElement_iff n l :
  hasMatchingElement n l = true <-> exists o, o ∈ l /\ n <> ∅ /\ o <> ∅ /\ dom n ⊆ dom o.
Proof.
  unfold hasMatchingElement. rewrite existsb_type_match.
  assert (Ho : forall o : gmap string json, negb (bool_decide (n = ∅)) && negb (bool_decide (o = ∅)) && bool_decide (dom n ⊆ dom o) = true <->
    n <> ∅ /\ o <> ∅ /\ dom n ⊆ dom o).
  { intros o. rewrite !andb_true_iff, !negb_true_iff, !bool_decide_eq_false, bool_decide_eq_true. tauto. }
  by setoid_rewrite Ho.
Qed.

(** An element has the type of one of the list, or a wider one. *)
Lemma typed_in_iff (n : gmap string json) (l : list (gmap string json)) (ty : string) :
  ty = type_of (Some n) ->
  existsb (fun o => bool_decide (getTypeString (Some o) = ty) || isTypePromotion (getTypeString (Some o)) ty) l = true <->
  exists o, o ∈ l /\ widens (type_of (Some o)) ty.
Proof.
  intros ->. rewrite existsb_type_match.
  assert (Ho : forall o : gmap string json, bool_decide (getTypeString (Some o) = type_of (Some n)) ||
      isTypePromotion (getTypeString (Some o)) (type_of (Some n)) = true <-> widens (type_of (Some o)) (type_of (Some n))).
  { intros o. rewrite getTypeString_of, <- widens_iff, !orb_true_iff, !bool_decide_eq_true. by split; intros [->|]; auto. }
  by setoid_rewrite Ho.
Qed.

Lemma impliedByOld_iff n : impliedByOld old n = true <-> implied old n.
Proof.
  unfold impliedByOld, implied, schemaSubsumedBy. rewrite !getTypeString_of. cbv zeta.
  assert (Hopt : existsb (fun o => bool_decide (type_of (Some n) = getTypeString (Some o)) ||
      isTypePromotion (getTypeString (Some o)) (type_of (Some n))) (collectSumTypeOptionsExcludeAllOf old) = true <->
    exists t, t ∈ alternative_types old /\ widens t (type_of (Some n))).
  { rewrite existsb_type_match. split.
    - intros (o & Ho & Hw). rewrite getTypeString_of, widens_iff in Hw. exists (type_of (Some o)). split; [|done].
      apply exclude_types. by exists o.
    - intros (t & (o & Ho & <-)%exclude_types & Hw). exists o. by rewrite getTypeString_of, widens_iff. }
  rewrite !orb_true_iff, !andb_true_iff, !negb_true_iff, !bool_decide_eq_false, Hopt.
  assert (Hsub : (match old with Some o => DeepEqual (JObject n) (JObject o) | None => false end) = true <->
    exists o, old = Some o /\ DeepEqual (JObject n) (JObject o) = true) by (destruct old; naive_solver).
  pose proof (widens_iff (type_of old) (type_of (Some n))) as Hw. rewrite orb_true_iff in Hw.
  rewrite bool_decide_eq_true in Hw. rewrite <- Hsub.
  destruct (decide (type_of (Some n) = "")) as [En|En]; [rewrite (bool_decide_true _ En)|rewrite (bool_decide_false _ En)];
    (destruct (decide (type_of old = "")) as [Eo|Eo]; [rewrite (bool_decide_true _ Eo)|rewrite (bool_decide_false _ Eo)]);
    cbn [negb andb]; rewrite ?orb_true_iff, ?bool_decide_eq_true, ?Hw; tauto.
Qed.

Lemma allOfTypeChanged_iff o n : allOfTypeChanged o n = false <-> ~ retyped o n.
Proof.
  rewrite <- not_true_iff_false. unfold allOfTypeChanged, retyped. rewrite !getTypeString_of. cbv zeta.
  rewrite !andb_true_iff, !negb_true_iff, !bool_decide_eq_false, !Nat.eqb_eq, <- widens_iff, orb_true_iff, bool_decide_eq_true,
    <- (not_true_iff_false (isTypePromotion _ _)). tauto.
Qed.

Lemma decides_element oldElems n r :
  decides (Done (checkAllOfElement e path oldElems r n)) r (element_fits oldElems n).
Proof.
  unfold checkAllOfElement, element_fits. rewrite getTypeString_of. pose proof (schemaExistsIn_iff n oldElems) as Hex.
  destruct (schemaExistsIn n oldElems); [apply decides_done; left; by apply Hex|].
  assert (Hnex : ~ exists o, o ∈ oldElems /\ DeepEqual (JObject n) (JObject o) = true) by (rewrite <- Hex; done).
  pose proof (typed_in_iff n oldElems _ eq_refl) as Hty.
  destruct (negb _ && existsb _ _) eqn:Et.
  - apply decides_done. right; left. apply andb_true_iff in Et as [Hn Ht%Hty].
    by rewrite negb_true_iff, bool_decide_eq_false in Hn.
  - assert (Hnt : ~ (type_of (Some n) <> "" /\ exists o, o ∈ oldElems /\ widens (type_of (Some o)) (type_of (Some n)))).
    { intros [Hn Ht%Hty]. apply not_true_iff_false in Et. destruct Et. apply andb_true_iff.
      by rewrite negb_true_iff, bool_decide_eq_false. }
    eapply decides_iff with (P := match getEnum (Some n), List.find (fun o => is_some (getEnum (Some o))) oldElems with
      | Some l, Some o => forall k, getEnum (Some o) = Some k -> enum_covers l k
      | _, _ => exists o, o ∈ oldElems /\ n <> ∅ /\ o <> ∅ /\ dom n ⊆ dom o end); [tauto|].
    pose proof (hasMatchingElement_iff n oldElems) as Hm.
    destruct (getEnum (Some n)) as [l|] eqn:Hl; [|by apply decides_if].
    destruct (List.find _ oldElems) as [o|] eqn:Ho; [|by apply decides_if].
    apply find_some in Ho as [_ Ho]. destruct (getEnum (Some o)) as [k|] eqn:Hk; [|done].
    destruct (decides_enum e (Some n) (Some o) path NewCompatibleResult) as [[? _]|(ms & Hms & HP)]; [done|].
    injection Hms as Hms. rewrite Hms, fold_AddMessage. right. exists ms. split; [done|]. rewrite HP.
    split; [|naive_solver]. intros H k' [= <-]. destruct (H l Hl) as (k2 & Hk2 & Hsub). by simplify_eq.
Qed.

Lemma decides_allOf r :
  decides (Done (checkAllOfCompatibility e new old path r)) r (allOf_fits new old).
Proof.
  unfold checkAllOfCompatibility, allOf_fits.
  destruct (deduplicateSchemas (getSchemaArrayValue old "allOf")) as [|o os],
    (deduplicateSchemas (getSchemaArrayValue new "allOf")) as [|n ns];
    rewrite ?decide_True, ?decide_False by done.
  - apply decides_done. by intros ? ?%not_elem_of_nil.
  - apply decides_if. rewrite forallb_forall. split; intros H x Hx; apply impliedByOld_iff, H; by apply list_elem_of_In.
  - apply decides_done. split; [by intros ? ?%not_elem_of_nil|]. by intros ? ? _ ?%not_elem_of_nil.
  - assert (Helems : forall r, decides (Done (fold_left (checkAllOfElement e path (o :: os)) (n :: ns) r)) r
      (forall n', n' ∈ n :: ns -> element_fits (o :: os) n')).
    { intros r'. apply decides_fold. intros. apply decides_element. }
    peel Helems.
    eapply decides_iff; [|apply (decides_fold _ (fun o' => forall n', n' ∈ n :: ns -> ~ retyped o' n'))].
    { naive_solver. }
    intros r2 o' _. apply (decides_fold _ (fun n' => ~ retyped o' n')).
    intros r3 n' _. apply decides_unless, allOfTypeChanged_iff.
Qed.
End allOf.
