(* ===== verification/JsonFacts.v ===== *)
(** * What the JSON Schema checker decides

    The checker ends within the nesting of the new schema.  Unless it meets two
    patterns that Go cannot compare, it finds a schema compatible exactly when
    every pair of subschemas it reaches satisfies the rules of JsonRules, whatever
    the order of the maps it ranges over. *)
From S2P Require Import Prelude GoStrings GoFloat GoJson JsonValue StorageTypes Compat JsonCompat JsonRules.
From Stdlib Require Import Ascii String.

Local Open Scope string_scope.

(** ** The checks that recurse *)

Section recursive.
Context {U : Hazard} (e : env) (rec : gomap -> gomap -> string -> Result -> outcome Result).
Context (ok : gmap string json -> gmap string json -> Prop).

(** The recursive call decides [ok] of the pair. *)
Definition rec_ok (n o : gmap string json) : Prop :=
  forall path r, decides (rec (Some n) (Some o) path r) r (ok n o).

Lemma decides_local n o path message r :
  rec_ok n o -> decides (checkLocal rec n o path message r) r (ok n o).
Proof.
  intros H. unfold checkLocal. destruct (H path NewCompatibleResult) as [[-> Hh]|(l & -> & Hl)]; [by left|]. simpl.
  apply decides_if. by rewrite bool_decide_eq_true.
Qed.

(** Both values are schemas. *)
Definition both (v w : json) (P : gmap string json -> gmap string json -> Prop) : Prop :=
  forall n o, v = JObject n -> w = JObject o -> P n o.

Lemma decides_both v w path r :
  both v w rec_ok -> decides (checkBoth rec v w path r) r (both v w ok).
Proof.
  unfold checkBoth, both. intros H.
  destruct v as [| | | | |n], w as [| | | | |o]; simpl; try (by apply decides_done).
  eapply decides_iff; [|by apply H]. naive_solver.
Qed.

Section at_schemas.
Context (new old : gomap) (path : string).
Hypothesis rec_compared : forall n o, compared new old n o -> rec_ok n o.

(** *** Composition *)

Lemma combine_lookup {A B} (l : list A) (k : list B) i a b :
  combine l k !! i = Some (a, b) <-> l !! i = Some a /\ k !! i = Some b.
Proof.
  revert k i. induction l as [|x l IH]; intros [|y k] [|i]; simpl; naive_solver.
Qed.

(** The same of a check that says whether to go on. *)
Definition decides_on (m : outcome (Result * bool)) (r : Result) (P : Prop) : Prop :=
  (m = Panic /\ hazard) \/
  exists messages, m = Done (extend r messages, bool_decide (messages = [])) /\ (messages = [] <-> P).

Lemma decides_on_done r (P : Prop) : P -> decides_on (Done (r, true)) r P.
Proof. right. exists []. by rewrite extend_nil. Qed.

Lemma checkMembers_spec l r :
  (forall n o, (n, o) ∈ l -> rec_ok n o) ->
  decides_on (checkMembers rec path l r) r (forall n o, (n, o) ∈ l -> ok n o).
Proof.
  induction l as [|[n o] l IH]; intros Hl.
  - apply decides_on_done. intros n o Hno. by apply not_elem_of_nil in Hno.
  - simpl. destruct (Hl n o ltac:(left) path NewCompatibleResult) as [[-> Hh]|(ms & -> & Hms)]; [by left|]. simpl.
    destruct (bool_decide_reflect (ms = [])) as [->|Hne].
    + destruct IH as [[-> Hh]|(ms & -> & Hms2)]; [intros; apply Hl; by right|by left|right]. exists ms. split; [done|].
      rewrite Hms2. setoid_rewrite elem_of_cons. naive_solver.
    + right. eexists [_]. unfold extend, AddMessage. rewrite bool_decide_false, andb_false_r by done.
      split; [reflexivity|]. split; [done|]. intros H. destruct Hne. apply Hms, H. left.
Qed.

Definition members_ok (key : string) : Prop :=
  List.length (getSchemaArrayValue new key) = List.length (getSchemaArrayValue old key) ->
  forall i n o, getSchemaArrayValue new key !! i = Some n -> getSchemaArrayValue old key !! i = Some o -> ok n o.

Lemma checkMembersOf_spec key r :
  key ∈ ["oneOf"; "anyOf"] -> decides_on (checkMembersOf rec new old path key r) r (members_ok key).
Proof.
  intros Hkey. unfold checkMembersOf, members_ok.
  destruct (Nat.eqb_spec (List.length (getSchemaArrayValue old key)) (List.length (getSchemaArrayValue new key))) as [Hl|Hl];
    [|apply decides_on_done; congruence].
  destruct (checkMembers_spec (combine (getSchemaArrayValue new key) (getSchemaArrayValue old key)) r)
    as [?|(ms & -> & Hms)]; [|by left|right].
  { intros n o [i [Hn Ho]%combine_lookup]%list_elem_of_lookup. by eapply rec_compared, compared_member. }
  exists ms. split; [done|]. rewrite Hms. split.
  - intros H _ i n o Hn Ho. apply H, list_elem_of_lookup. exists i. by apply combine_lookup.
  - intros H n o [i [Hn Ho]%combine_lookup]%list_elem_of_lookup. by eapply H.
Qed.

Lemma decides_members r :
  decides (checkCompositionSubschemas rec new old path r) r (members_ok "oneOf" /\ members_ok "anyOf").
Proof.
  unfold checkCompositionSubschemas.
  destruct (checkMembersOf_spec "oneOf" r) as [[-> Hh]|(ms & -> & Hms)]; [set_solver|by left|]. simpl.
  destruct (bool_decide_reflect (ms = [])) as [->|Hne].
  - rewrite extend_nil. destruct (checkMembersOf_spec "anyOf" r) as [[-> Hh]|(ms & -> & Hms2)]; [set_solver|by left|].
    simpl. right. exists ms. split; [done|]. naive_solver.
  - right. exists ms. split; [done|]. naive_solver.
Qed.

(** *** Objects *)

Hypothesis level : keyword_level new old = true.

Lemma open_without_schema schema m :
  getAdditionalPropertiesSchema schema = Some m -> hasOpenContentModel schema = false.
Proof.
  unfold getAdditionalPropertiesSchema, hasOpenContentModel, val.
  destruct (at_key schema "additionalProperties") as [[]|]; naive_solver.
Qed.

Definition removed_ok (name : string) (v : json) : Prop :=
  getProperties new !! name = None ->
  (is_bool false v = true \/ hasOpenContentModel new = true \/ hasCoveringPatternProperties new = true \/
   is_some (getAdditionalPropertiesSchema new) = true) /\
  (hasCoveringPatternProperties new = false ->
   forall n o, v = JObject o -> getAdditionalPropertiesSchema new = Some n -> ok n o).

Lemma decides_removed name v r :
  getProperties old !! name = Some v ->
  decides (checkRemovedProperty rec new path r (name, v)) r (removed_ok name v).
Proof.
  intros Hv. unfold checkRemovedProperty, removed_ok. cbv zeta.
  destruct (getProperties new !! name) as [w|] eqn:Hw; simpl; [by apply decides_done|].
  destruct (is_bool false v) eqn:Hf; simpl.
  { apply decides_done. intros _. split; [by left|]. intros _ n o ->. done. }
  destruct (hasOpenContentModel new) eqn:Ho; simpl.
  { apply decides_done. intros _. split; [by right; left|]. intros _ n o _ Hn%open_without_schema. congruence. }
  destruct (hasCoveringPatternProperties new) eqn:Hc; simpl; [apply decides_done; naive_solver|].
  destruct (getAdditionalPropertiesSchema new) as [n|] eqn:Hap; [|apply decides_message; naive_solver].
  destruct v as [| | | | |o]; simpl; try (apply decides_done; naive_solver).
  eapply decides_iff; [|apply decides_local; eapply rec_compared, compared_removed; try done].
  - naive_solver.
  - by rewrite <- hasCoveringPatternProperties_iff, Hc.
Qed.

Definition new_ok (name : string) (v : json) : Prop :=
  (name ∈ getRequiredSet new ->
   if is_some (getProperties old !! name) then name ∈ getRequiredSet old else is_bool true v = true) /\
  (getProperties old !! name = None -> is_bool true v = true \/ hasOpenContentModel old = false) /\
  (name ∉ getRequiredSet new -> getProperties old !! name = None ->
   forall n o, v = JObject n -> getAdditionalPropertiesSchema old = Some o -> ok n o).

Lemma decides_new name v r :
  getProperties new !! name = Some v ->
  decides (checkNewProperty rec new old path r (name, v)) r (new_ok name v).
Proof.
  intros Hv. unfold checkNewProperty, new_ok. cbv zeta.
  destruct (getProperties old !! name) as [w|] eqn:Hw; simpl.
  { apply decides_unless. rewrite andb_false_iff, negb_false_iff, bool_decide_eq_true, bool_decide_eq_false.
    destruct (decide (name ∈ getRequiredSet new)); naive_solver. }
  destruct (is_bool true v) eqn:Ht; simpl; [apply decides_done; split_and!; [done|by left|by intros _ _ n o ->]|].
  destruct (bool_decide_reflect (name ∈ getRequiredSet new)) as [Hr|Hr]; [apply decides_message; naive_solver|].
  destruct (hasOpenContentModel old) eqn:Ho; [apply decides_message; naive_solver|].
  destruct (getAdditionalPropertiesSchema old) as [o|] eqn:Hap; [|apply decides_done; naive_solver].
  destruct v as [| | | | |n]; simpl; try (apply decides_done; naive_solver).
  eapply decides_iff; [|apply decides_local; by eapply rec_compared, compared_added]. naive_solver.
Qed.

Definition existing_ok (name : string) (v : json) : Prop :=
  forall w, getProperties old !! name = Some w -> both v w ok.

Lemma decides_existing name v r :
  getProperties new !! name = Some v ->
  decides (checkExistingProperty rec old path r (name, v)) r (existing_ok name v).
Proof.
  intros Hv. unfold checkExistingProperty, existing_ok.
  destruct (getProperties old !! name) as [w|] eqn:Hw; [|by apply decides_done].
  eapply decides_iff; [|apply decides_both; intros n o -> ->; by eapply rec_compared, compared_property]. naive_solver.
Qed.

Definition objects_ok : Prop :=
  (forall name v, getProperties old !! name = Some v -> removed_ok name v) /\
  (forall name v, getProperties new !! name = Some v -> new_ok name v) /\
  (forall name v, getProperties new !! name = Some v -> existing_ok name v).

Lemma decides_object r : decides (checkObjectCompatibility e rec new old path r) r objects_ok.
Proof.
  unfold checkObjectCompatibility.
  apply decides_bind; [apply decides_rangeM; intros; by apply decides_removed|intros r1].
  apply decides_bind; [apply decides_rangeM; intros; by apply decides_new|intros r2].
  apply decides_rangeM; intros; by apply decides_existing.
Qed.

(** *** Arrays *)

Lemma decides_tuple_pairs l k : forall i r,
  (forall j v w, l !! j = Some v -> k !! j = Some w -> both v w rec_ok) ->
  decides (checkTuplePairs rec path i l k r) r
    (forall j v w, l !! j = Some v -> k !! j = Some w -> both v w ok).
Proof.
  revert k. induction l as [|v l IH]; intros [|w k] i r H; simpl; try (by apply decides_done).
  eapply decides_iff; [|apply decides_bind; [apply decides_both; by apply (H 0%nat)|
    intros r'; apply IH; intros j; apply (H (S j))]].
  split.
  - intros [H1 H2] [|j] v' w' Hv Hw; simpl in *; [by simplify_eq|by eapply H2].
  - intros H'. split; [by apply (H' 0%nat)|]. intros j. apply (H' (S j)).
Qed.

Lemma decides_tuple_rest check (P : gmap string json -> Prop) what l : forall i r,
  (forall m path message r, JObject m ∈ l -> decides (check m path message r) r (P m)) ->
  decides (checkTupleRest path check what i l r) r (forall m, JObject m ∈ l -> P m).
Proof.
  induction l as [|v l IH]; intros i r H; simpl.
  - apply decides_done. intros m Hm. by apply not_elem_of_nil in Hm.
  - eapply decides_iff; [|apply (decides_bind _ _ _ (forall m, v = JObject m -> P m));
      [|intros r'; apply IH; intros; apply H; by right]].
    + setoid_rewrite elem_of_cons. naive_solver.
    + destruct v as [| | | | |m]; simpl; try (by apply decides_done).
      eapply decides_iff; [|apply H; left]. naive_solver.
Qed.

Definition tuple_ok : Prop :=
  (forall i v w, getTupleItems new !! i = Some v -> getTupleItems old !! i = Some w -> both v w ok) /\
  (forall i n o, getTupleItems new !! i = Some (JObject n) -> getTupleItems old !! i = None ->
     getAdditionalItemsSchema old = Some o -> ok n o) /\
  (forall i n o, getTupleItems old !! i = Some (JObject o) -> getTupleItems new !! i = None ->
     getAdditionalItemsSchema new = Some n -> ok n o).

Lemma elem_of_drop_min {A} (l k : list A) x :
  x ∈ drop (Nat.min (List.length k) (List.length l)) l <-> exists i, l !! i = Some x /\ k !! i = None.
Proof.
  rewrite list_elem_of_lookup. setoid_rewrite lookup_drop. setoid_rewrite lookup_ge_None. split.
  - intros [i Hi]. pose proof (lookup_lt_Some _ _ _ Hi). eexists. split; [done|]. lia.
  - intros (i & Hi & Hk). pose proof (lookup_lt_Some _ _ _ Hi).
    exists (i - Nat.min (List.length k) (List.length l))%nat. rewrite <- Hi. f_equal. lia.
Qed.

Lemma decides_tuple r : decides (checkTupleItems rec new old path r) r tuple_ok.
Proof.
  unfold checkTupleItems. cbv zeta. apply decides_bind; [|intros r1; apply decides_bind; [|intros r2]].
  - apply decides_tuple_pairs. intros i v w Hv Hw n o -> ->. by eapply rec_compared, compared_position.
  - destruct (getAdditionalItemsSchema old) as [oai|] eqn:Hai; [|apply decides_done; naive_solver].
    eapply decides_iff; [|apply (decides_tuple_rest _ (fun n => ok n oai))].
    + setoid_rewrite elem_of_drop_min. naive_solver.
    + intros n p m r' (i & Hn & Ho)%elem_of_drop_min. by eapply decides_local, rec_compared, compared_position_added.
  - destruct (getAdditionalItemsSchema new) as [nai|] eqn:Hai; [|apply decides_done; naive_solver].
    rewrite Nat.min_comm. eapply decides_iff; [|apply (decides_tuple_rest _ (fun o => ok nai o))].
    + setoid_rewrite elem_of_drop_min. naive_solver.
    + intros o p m r' (i & Ho & Hn)%elem_of_drop_min. by eapply decides_local, rec_compared, compared_position_removed.
Qed.

Definition items_ok : Prop :=
  (is_some (getItems new) = true -> is_some (getItems old) = true \/ has old "items" = true) /\
  (forall n o, getItems new = Some n -> getItems old = Some o -> ok n o).

Definition arrays_ok : Prop :=
  items_ok /\ tuple_ok /\ bound_fits new old "minItems" true /\ bound_fits new old "maxItems" false.

Lemma decides_items r :
  decides (match getItems new, getItems old with
           | Some n, Some o => rec (Some n) (Some o) (joinPath path "items") r
           | Some _, None => Done (if has old "items" then r else AddMessage r (at_path path "items schema added"))
           | None, _ => Done r
           end) r items_ok.
Proof.
  unfold items_ok. destruct (getItems new) as [n|] eqn:Hn; simpl; [|by apply decides_done].
  destruct (getItems old) as [o|] eqn:Ho; simpl.
  - eapply decides_iff; [|by apply rec_compared, compared_items]. naive_solver.
  - apply decides_if. naive_solver.
Qed.

Lemma decides_array r : decides (checkArrayCompatibility rec new old path r) r arrays_ok.
Proof.
  unfold checkArrayCompatibility, arrays_ok.
  apply decides_bind; [apply decides_items|intros r1]. apply decides_bind; [apply decides_tuple|intros r2].
  peel (decides_constraint new old path "minItems" true). apply decides_constraint.
Qed.

(** *** The other keywords with subschemas *)

Lemma oldAllowsAll_iff key :
  negb (has old key) || is_bool true (val old key) = true <-> oldAllowsAll old key.
Proof.
  unfold oldAllowsAll, has, val. destruct (at_key old key) as [v|]; simpl; [|naive_solver].
  rewrite is_bool_iff. naive_solver.
Qed.

Lemma as_map_Some v m : as_map v = Some m <-> v = JObject m.
Proof. destruct v; simpl; naive_solver. Qed.

Definition additional_ok (key : string) : Prop := both (val new key) (val old key) ok.

Lemma decides_forbidden key message r :
  decides (Done (if (negb (has old key) || is_bool true (val old key)) && is_bool false (val new key)
                 then AddMessage r message else r)) r
    (oldAllowsAll old key -> is_bool false (val new key) = false).
Proof.
  apply decides_unless. rewrite andb_false_iff, <- oldAllowsAll_iff.
  destruct (_ || _), (is_bool false _); naive_solver.
Qed.

Lemma decides_additionalProperties r :
  decides (checkAdditionalPropertiesCompatibility rec new old path r) r
    ((oldAllowsAll old "additionalProperties" -> is_bool false (val new "additionalProperties") = false) /\
     (oldAllowsAll old "additionalProperties" -> getAdditionalPropertiesSchema new = None) /\
     additional_ok "additionalProperties").
Proof.
  unfold checkAdditionalPropertiesCompatibility. cbv zeta.
  peel (decides_forbidden "additionalProperties" (at_path path "additionalProperties changed from allowed to forbidden")).
  unfold additional_ok, both, getAdditionalPropertiesSchema.
  destruct (as_map (val new "additionalProperties")) as [n|] eqn:Hn.
  - apply as_map_Some in Hn. destruct (as_map (val old "additionalProperties")) as [o|] eqn:Ho.
    + apply as_map_Some in Ho. eapply decides_iff; [|apply rec_compared; eapply compared_additional; [done| |done..]; set_solver].
      rewrite Hn, Ho. split; [|naive_solver]. intros H. split; [|naive_solver]. intros [Hk|Hk]; [|congruence].
      unfold val in Ho. by rewrite Hk in Ho.
    + apply decides_unless. rewrite <- not_true_iff_false, oldAllowsAll_iff. split; [|naive_solver].
      intros H. split; [naive_solver|]. intros n' o' _ Ho'. rewrite Ho' in Ho. done.
  - apply decides_done. split; [done|]. intros n' o' Hn'. by rewrite Hn' in Hn.
Qed.

Lemma decides_additionalItems r :
  decides (checkAdditionalItems rec new old path r) r
    ((oldAllowsAll old "additionalItems" -> is_bool false (val new "additionalItems") = false) /\
     additional_ok "additionalItems").
Proof.
  unfold checkAdditionalItems. cbv zeta.
  peel (decides_forbidden "additionalItems" (at_path path "additionalItems changed from allowed to forbidden")).
  apply decides_both. intros n o Hn Ho. eapply rec_compared, compared_additional; [done| |done..]. set_solver.
Qed.

(** The subschemas of a keyword with dependencies. *)
Definition dependent_ok (key : string) : Prop :=
  forall ns os name n o, val new key = JObject ns -> val old key = JObject os ->
    ns !! name = Some (JObject n) -> os !! name = Some (JObject o) -> ok n o.

Lemma dependent_relation key (rel : json -> option json -> Prop) :
  keyword_fits new old key (fun w v => dependencies_fit rel w v /\
    forall o n name n' o', w = JObject o -> v = JObject n ->
      n !! name = Some (JObject n') -> o !! name = Some (JObject o') -> ok n' o') <->
  keyword_fits new old key (dependencies_fit rel) /\ dependent_ok key.
Proof.
  unfold keyword_fits, dependent_ok, val. split.
  - intros H. split; [intros v Hv; destruct (H v Hv) as (w & Hw & Hr & _); eauto|].
    intros ns os name n o Hns Hos Hn Ho. destruct (at_key new key) as [v|] eqn:Hv; [|done].
    destruct (H v eq_refl) as (w & Hw & _ & Hr). rewrite Hw in Hos. simpl in *. by eapply Hr.
  - intros [H1 H2] v Hv. destruct (H1 v Hv) as (w & Hw & Hr). exists w. split_and!; [done..|].
    intros o n name n' o' -> -> Hn Ho. rewrite Hv, Hw in H2. by eapply H2.
Qed.

Lemma decides_dependencies r :
  decides (checkDependencies e rec new old path r) r
    (keyword_fits new old "dependencies" (dependencies_fit dependency_fits) /\ dependent_ok "dependencies").
Proof.
  eapply decides_iff; [apply dependent_relation|]. unfold checkDependencies.
  apply decides_bothObjects; [unfold dependencies_fit; naive_solver|]. intros o n Ho Hn. cbv zeta.
  eapply decides_iff; [|peel (decides_added e path "dependency" n o);
    apply (decides_rangeM e o _ (fun name d => dependency_fits d (n !! name) /\
      forall n' o', n !! name = Some (JObject n') -> d = JObject o' -> ok n' o'))].
  - unfold dependencies_fit. split.
    + intros [H1 H2]. split; [intros o' n' [= <-] [= <-]; split; [done|]; intros; by apply H2|].
      intros o' n' name n2 o2 [= <-] [= <-] Hn2 Ho2. by eapply (proj2 (H2 name _ Ho2)).
    + intros [H1 H2]. destruct (H1 o n eq_refl eq_refl) as [H3 H4]. split; [done|]. intros name d Hd.
      split; [by apply H4|]. intros n' o' Hn' ->. by eapply H2.
  - intros r1 name d Hd. unfold checkDependency, dependency_fits.
    destruct (n !! name) as [d'|] eqn:Hd'; [|apply decides_if; naive_solver].
    assert (Hkey : forall n' o', d' = JObject n' -> d = JObject o' -> rec_ok n' o').
    { intros n' o' -> ->. eapply rec_compared, compared_dependency with (key := "dependencies"); [done|set_solver|..];
        eauto using val_at. }
    destruct (as_map d') as [n'|] eqn:En, (as_map d) as [o'|] eqn:Eo; simpl;
      try (by apply decides_if; split; [intros H; split; [by right|]; intros ? ? [= Hx] Hy; subst|intros [[?|?] _]]).
    apply as_map_Some in En as ->, Eo as ->. eapply decides_iff; [|by apply Hkey]. naive_solver.
Qed.

Lemma decides_dependentSchemas r :
  decides (checkDependentSchemas e rec new old path r) r
    (keyword_fits new old "dependentSchemas" (dependencies_fit (fun _ _ => True)) /\ dependent_ok "dependentSchemas").
Proof.
  eapply decides_iff; [apply dependent_relation|]. unfold checkDependentSchemas.
  apply decides_bothObjects; [unfold dependencies_fit; naive_solver|]. intros o n Ho Hn. cbv zeta.
  eapply decides_iff; [|peel (decides_added e path "dependentSchema" n o);
    apply (decides_rangeM e o _ (fun name d => forall n' o', n !! name = Some (JObject n') -> d = JObject o' -> ok n' o'))].
  - unfold dependencies_fit. naive_solver.
  - intros r1 name d Hd. unfold checkDependentSchema.
    destruct (n !! name) as [d'|] eqn:Hd'; [|by apply decides_done].
    eapply decides_iff; [|apply decides_both].
    + unfold both. naive_solver.
    + intros n' o' -> ->. eapply rec_compared, compared_dependency with (key := "dependentSchemas"); [done|set_solver|..];
        eauto using val_at.
Qed.

(** *** All keywords *)

Lemma absent_properties schema : hasObjectKeywords schema = false -> getProperties schema = ∅.
Proof.
  unfold hasObjectKeywords, getProperties, val, has. simpl.
  by destruct (at_key schema "properties").
Qed.

Lemma objects_absent : hasObjectKeywords new = false -> hasObjectKeywords old = false -> objects_ok.
Proof.
  intros Hn%absent_properties Ho%absent_properties. unfold objects_ok. rewrite Hn, Ho.
  split_and!; intros name v; by rewrite lookup_empty.
Qed.

Lemma absent_keyword schema key :
  key ∈ ["prefixItems"; "additionalItems"; "items"; "minItems"; "maxItems"; "uniqueItems"] ->
  hasArrayKeywords schema = false -> at_key schema key = None.
Proof.
  unfold hasArrayKeywords. intros Hk Hn. destruct (at_key schema key) eqn:E; [|done].
  apply not_true_iff_false in Hn. destruct Hn. apply existsb_exists. exists key.
  by rewrite <- list_elem_of_In, has_at, E; eauto.
Qed.

Lemma arrays_absent : hasArrayKeywords new = false -> hasArrayKeywords old = false -> arrays_ok.
Proof.
  intros Hn Ho. assert (Hv : forall schema key, hasArrayKeywords schema = false ->
    key ∈ ["prefixItems"; "additionalItems"; "items"; "minItems"; "maxItems"; "uniqueItems"] -> val schema key = JNull).
  { intros schema key Hs Hk. unfold val. by rewrite absent_keyword. }
  assert (Ht : forall schema, hasArrayKeywords schema = false -> getTupleItems schema = []).
  { intros schema Hs. unfold getTupleItems. rewrite !Hv by set_solver. done. }
  unfold arrays_ok, items_ok, tuple_ok, bound_fits, getItems, has. rewrite !Ht by done.
  rewrite (absent_keyword new "minItems"), (absent_keyword new "maxItems"), !Hv by set_solver.
  split_and!; try done; intros *; by rewrite lookup_nil.
Qed.

Definition keywords_ok : Prop :=
  types_fit (val new "type") (val old "type") /\ objects_ok /\ arrays_ok /\
  (forall l, getEnum new = Some l -> exists k, getEnum old = Some k /\ enum_covers l k) /\
  keyword_fits new old "const" (fun w v => DeepEqual w v = true) /\
  ((oldAllowsAll old "additionalProperties" -> is_bool false (val new "additionalProperties") = false) /\
   (oldAllowsAll old "additionalProperties" -> getAdditionalPropertiesSchema new = None) /\
   additional_ok "additionalProperties") /\
  (bound_fits new old "minLength" true /\ bound_fits new old "maxLength" false /\
   keyword_fits new old "pattern" (fun w v => DeepEqual w v = true)) /\
  (bound_fits new old "minimum" true /\ bound_fits new old "maximum" false /\
   bound_fits new old "exclusiveMinimum" true /\ bound_fits new old "exclusiveMaximum" false /\
   keyword_fits new old "multipleOf" multiple_fits) /\
  (bound_fits new old "minProperties" true /\ bound_fits new old "maxProperties" false) /\
  keyword_fits new old "not" not_fits /\
  (keyword_fits new old "dependencies" (dependencies_fit dependency_fits) /\ dependent_ok "dependencies") /\
  keyword_fits new old "dependentRequired" (dependencies_fit dependentRequired_fits) /\
  (keyword_fits new old "dependentSchemas" (dependencies_fit (fun _ _ => True)) /\ dependent_ok "dependentSchemas") /\
  (val new "uniqueItems" = JBool true -> val old "uniqueItems" = JBool true) /\
  ((oldAllowsAll old "additionalItems" -> is_bool false (val new "additionalItems") = false) /\
   additional_ok "additionalItems") /\
  (at_key new "items" = Some (JBool false) ->
   at_key old "items" = None \/ at_key old "items" = Some (JBool false)).

Lemma decides_kind (b : bool) (P : Prop) m r :
  (b = false -> P) -> decides m r P -> decides (if b then m else Done r) r P.
Proof. destruct b; [done|]. intros H _. by apply decides_done, H. Qed.

Lemma decides_keywords r :
  (~ pattern_safe new old -> hazard) -> decides (checkKeywords e rec new old path r) r keywords_ok.
Proof.
  intros Hs. unfold checkKeywords, keywords_ok. cbv zeta.
  peel (decides_type new old path). apply decides_bind; [apply decides_kind; [|apply decides_object]|intros r2].
  { rewrite !orb_false_iff. intros [[_ Hn] Ho]. by apply objects_absent. }
  apply decides_bind; [apply decides_kind; [|apply decides_array]|intros r3].
  { rewrite !orb_false_iff. intros [[_ Hn] Ho]. by apply arrays_absent. }
  peel (decides_enum e new old path). peel (decides_const new old path).
  apply decides_bind; [apply decides_additionalProperties|intros r4].
  apply decides_bind; [by apply decides_strings|intros r5].
  peel (decides_numeric new old path). peel (decides_counts new old path). peel (decides_not new old path).
  apply decides_bind; [apply decides_dependencies|intros r6].
  peel (decides_dependentRequired e new old path).
  apply decides_bind; [apply decides_dependentSchemas|intros r7].
  peel (decides_uniqueItems new old path).
  apply decides_bind; [apply decides_additionalItems|intros r8].
  apply decides_itemsBoolean.
Qed.
End at_schemas.

(** *** A pair of schemas *)

Section pair.
Context (new old : gomap) (path : string).
Hypothesis rec_compared : forall n o, compared new old n o -> rec_ok n o.

Definition pair_ok : Prop :=
  (composed new old = true -> composition_fits new old /\ members_ok new old "oneOf" /\ members_ok new old "anyOf") /\
  (keyword_level new old = true -> keywords_ok new old).

Lemma decides_composition r :
  decides (checkCompositionCompatibility e rec new old path r) r
    (composition_fits new old /\ members_ok new old "oneOf" /\ members_ok new old "anyOf").
Proof.
  unfold checkCompositionCompatibility, composition_fits. cbv zeta.
  eapply decides_iff; [apply and_assoc|].
  peel (decides_sum new old path). peel (decides_allOf e new old path). by apply decides_members.
Qed.

Lemma decides_schema r :
  (~ pattern_safe new old -> hazard) -> decides (checkSchema e rec new old path r) r pair_ok.
Proof.
  intros Hs. unfold checkSchema, pair_ok, keyword_level. cbv zeta. rewrite <- andb_assoc, <- purelyCompositional_only.
  change (composed new old) with (hasCompositionKeyword new || hasCompositionKeyword old).
  destruct (hasCompositionKeyword new || hasCompositionKeyword old) eqn:Hc; simpl.
  - apply decides_bind; [eapply decides_iff; [|apply decides_composition]; naive_solver|intros r1].
    destruct (purelyCompositional new old) eqn:Hp; [by apply decides_done|]. simpl.
    eapply decides_iff; [|apply decides_keywords; [done|..]]; [naive_solver| |done].
    unfold keyword_level. by rewrite <- andb_assoc, <- purelyCompositional_only, Hp, andb_false_r.
  - eapply decides_iff; [|apply decides_keywords; [done|..]]; [naive_solver| |done].
    unfold keyword_level.
    change (composed new old) with (hasCompositionKeyword new || hasCompositionKeyword old). by rewrite Hc.
Qed.
End pair.
End recursive.

(** ** The pairs a check reaches *)

Section reaches.
Context (new old : gomap) (ok : gmap string json -> gmap string json -> Prop).

Lemma bounds_fit_iff :
  (forall key lower, (key, lower) ∈ bounds -> bound_fits new old key lower) <->
  Forall (fun b => bound_fits new old (fst b) (snd b)) bounds.
Proof. rewrite Forall_forall. split; [intros H [k b]; apply H|intros H k b Hb; by apply (H (k, b))]. Qed.

Lemma additional_schema schema :
  is_some (getAdditionalPropertiesSchema schema) = true <-> exists m, val schema "additionalProperties" = JObject m.
Proof. unfold getAdditionalPropertiesSchema. destruct (val schema "additionalProperties"); simpl; naive_solver. Qed.

(** The rules of the keywords, with nothing asked of subschemas. *)
Lemma keywords_ok_fit : keywords_ok ok new old -> keywords_fit new old.
Proof.
  intros (Htype & (Hremoved & Hnew & _) & ([Hitems _] & _ & Hb1 & Hb2) & Henum & Hconst & (Hap1 & Hap2 & _) &
    (Hb3 & Hb4 & Hpattern) & (Hb5 & Hb6 & Hb7 & Hb8 & Hmul) & (Hb9 & Hb10) & Hnot & (Hdeps & _) & Hreq & (Hdep & _) &
    Hunique & (Hai & _) & Hbool).
  split; try done.
  - intros name v Hv Hn. destruct (proj1 (Hremoved name v Hv Hn)) as [H|[H|[H|H]]].
    + left. by apply is_bool_iff.
    + right; left. by apply hasOpenContentModel_iff.
    + right; right; left. by apply hasCoveringPatternProperties_iff.
    + right; right; right. by apply additional_schema.
  - intros name v Hv Hr. destruct (Hnew name v Hv) as [H _]. specialize (H Hr).
    destruct (getProperties old !! name); [done|by apply is_bool_iff].
  - intros name v Hv Hn. destruct (Hnew name v Hv) as (_ & H & _).
    destruct (H Hn) as [?%is_bool_iff|H']; [by left|right]. rewrite <- hasOpenContentModel_iff, H'. done.
  - apply bounds_fit_iff. unfold bounds. rewrite !Forall_cons, Forall_nil. by split_and!.
  - auto.
Qed.

Lemma keywords_ok_compared n o :
  keywords_ok ok new old -> compared new old n o ->
  (exists key i, key ∈ ["oneOf"; "anyOf"] /\
     List.length (getSchemaArrayValue new key) = List.length (getSchemaArrayValue old key) /\
     getSchemaArrayValue new key !! i = Some n /\ getSchemaArrayValue old key !! i = Some o) \/ ok n o.
Proof.
  intros (_ & (Hremoved & Hnew & Hex) & ([_ Hitems] & (Hpos & Hadd & Hrem) & _) & _ & _ & (_ & _ & Hap) &
    _ & _ & _ & _ & (_ & Hdeps) & _ & (_ & Hdep) & _ & (_ & Hai) & _) Hc.
  inversion Hc as [key i ? ? Hk|name ? ? _ Hn Ho|name ? ? _ Hcov Ho Hn|name ? ? _ Hr Hn Ho|
    |i ? ? _ Hn Ho| | |key ? ? _ Hk Hn Ho|key name ns os ? ? _ Hk Hns Hos Hn Ho]; subst.
  - left. eauto 10.
  - right. by eapply Hex.
  - right. eapply (Hremoved name _ Ho); try done.
    by rewrite <- hasCoveringPatternProperties_iff, not_true_iff_false in Hcov.
  - right. by eapply (Hnew name _ Hn).
  - right. eauto.
  - right. by eapply Hpos.
  - right. eauto.
  - right. eauto.
  - right. repeat (apply elem_of_cons in Hk as [->|Hk]); [by apply Hap|by apply Hai|by apply not_elem_of_nil in Hk].
  - right. repeat (apply elem_of_cons in Hk as [->|Hk]); [by eapply Hdeps|by eapply Hdep|by apply not_elem_of_nil in Hk].
Qed.

Lemma keywords_fit_ok :
  keyword_level new old = true -> keywords_fit new old -> (forall n o, compared new old n o -> ok n o) ->
  keywords_ok ok new old.
Proof.
  intros Hl H Hc. pose proof (bounds_fit _ _ H) as Hb.
  apply bounds_fit_iff in Hb. unfold bounds in Hb. rewrite !Forall_cons in Hb. simpl in Hb.
  unfold keywords_ok, objects_ok, arrays_ok, items_ok, tuple_ok. split_and!; try tauto; try apply H; try (intros; by apply H).
  - intros name v Hv Hn. split.
    + rewrite is_bool_iff, hasOpenContentModel_iff, hasCoveringPatternProperties_iff, additional_schema.
      by eapply (removed_fits _ _ H).
    + intros Hcov n o -> Hap. eapply Hc, compared_removed; try done.
      by rewrite <- hasCoveringPatternProperties_iff, Hcov.
  - intros name v Hv. split_and!.
    { intros Hr. generalize (required_fits _ _ H name v Hv Hr). destruct (getProperties old !! name); [done|by intros ->]. }
    { intros Hn. destruct (added_fits _ _ H name v Hv Hn) as [->|Ho]; [by left|right].
      by rewrite <- hasOpenContentModel_iff, not_true_iff_false in Ho. }
    intros Hr Ho n o -> Hap. by eapply Hc, compared_added.
  - intros name v Hv w Hw n o -> ->. by eapply Hc, compared_property.
  - intros n o Hn Ho. by apply Hc, compared_items.
  - intros i v w Hv Hw n o -> ->. by eapply Hc, compared_position.
  - intros i n o Hn Ho Hai. by eapply Hc, compared_position_added.
  - intros i n o Ho Hn Hai. by eapply Hc, compared_position_removed.
  - intros n o Hn Ho. eapply Hc, compared_additional; [done| |done..]. set_solver.
  - intros ns os name n o Hns Hos Hn Ho. eapply Hc, compared_dependency; [done| |done..]. set_solver.
  - intros ns os name n o Hns Hos Hn Ho. eapply Hc, compared_dependency; [done| |done..]. set_solver.
  - intros n o Hn Ho. eapply Hc, compared_additional; [done| |done..]. set_solver.
Qed.

Lemma members_composed key i m schema :
  key ∈ ["oneOf"; "anyOf"] -> getSchemaArrayValue schema key !! i = Some m -> hasCompositionKeyword schema = true.
Proof.
  unfold getSchemaArrayValue, hasCompositionKeyword, val. intros Hk Hi. apply existsb_exists. exists key.
  split; [set_solver|]. unfold has. by destruct (at_key schema key).
Qed.

(** The check of a pair decides the rules of the pair, and [ok] of every pair of
    subschemas it compares. *)
Lemma pair_ok_iff :
  pair_ok ok new old <-> fits new old /\ forall n o, compared new old n o -> ok n o.
Proof.
  unfold pair_ok. split.
  - intros [Hcomp Hkey]. split; [split; [intros Hco; by apply Hcomp|intros Hl; by eapply keywords_ok_fit, Hkey]|].
    intros n o Hc.
    assert (Hm : forall key i, key ∈ ["oneOf"; "anyOf"] ->
      List.length (getSchemaArrayValue new key) = List.length (getSchemaArrayValue old key) ->
      getSchemaArrayValue new key !! i = Some n -> getSchemaArrayValue old key !! i = Some o -> ok n o).
    { intros key i Hk Hlen Hn Ho. destruct Hcomp as (_ & Hone & Hany).
      - change (composed new old) with (hasCompositionKeyword new || hasCompositionKeyword old).
        by erewrite members_composed.
      - repeat (apply elem_of_cons in Hk as [->|Hk]); [by eapply Hone|by eapply Hany|by apply not_elem_of_nil in Hk]. }
    destruct (keyword_level new old) eqn:Hl.
    + destruct (keywords_ok_compared n o (Hkey eq_refl) Hc) as [(key & i & Hk & Hlen & Hn & Ho)|Hok]; [|done]. by eapply Hm.
    + inversion Hc; subst; try congruence. by eapply Hm.
  - intros [[Hcomp Hkey] Hc]. split.
    + intros Hco. split_and!; [by apply Hcomp|..]; intros Hlen i n o Hn Ho; (eapply Hc, compared_member; [|done..]); set_solver.
    + intros Hl. apply keywords_fit_ok; auto.
Qed.
End reaches.

(** ** Termination *)

Lemma depth_val schema key v : at_key schema key = Some v -> (depth v < map_depth schema)%nat.
Proof. unfold at_key. destruct schema as [m|]; [|done]. apply depth_lookup. Qed.

Lemma depth_entry schema key m name v :
  val schema key = JObject m -> m !! name = Some v -> (depth v < map_depth schema)%nat.
Proof.
  unfold val. destruct (at_key schema key) as [w|] eqn:E; [|done]. simpl. intros -> Hv%depth_lookup.
  apply depth_val in E. lia.
Qed.

Lemma depth_member schema key l v :
  as_array (val schema key) = Some l -> v ∈ l -> (depth v < map_depth schema)%nat.
Proof.
  unfold val. destruct (at_key schema key) as [w|] eqn:E; [|done]. simpl. destruct w; [done..| |done].
  intros [= ->] Hv%depth_element. apply depth_val in E. lia.
Qed.

Lemma depth_map schema key m : as_map (val schema key) = Some m -> (depth (JObject m) < map_depth schema)%nat.
Proof.
  unfold val. destruct (at_key schema key) as [w|] eqn:E; [|done]. simpl. intros ->%as_map_Some.
  by apply depth_val in E.
Qed.

Lemma getProperties_lookup schema name v :
  getProperties schema !! name = Some v <-> exists m, val schema "properties" = JObject m /\ m !! name = Some v.
Proof.
  unfold getProperties. destruct (val schema "properties"); simpl; try (rewrite lookup_empty; naive_solver).
  naive_solver.
Qed.

Lemma depth_tuple schema i v : getTupleItems schema !! i = Some v -> (depth v < map_depth schema)%nat.
Proof.
  unfold getTupleItems. destruct (as_array (val schema "prefixItems")) as [l|] eqn:E.
  - intros Hv%list_elem_of_lookup_2. exact (depth_member _ _ _ _ E Hv).
  - destruct (as_array (val schema "items")) as [l|] eqn:E2; simpl; [|done].
    intros Hv%list_elem_of_lookup_2. exact (depth_member _ _ _ _ E2 Hv).
Qed.

Lemma depth_array_value schema key i m :
  getSchemaArrayValue schema key !! i = Some m -> (depth (JObject m) < map_depth schema)%nat.
Proof.
  unfold getSchemaArrayValue. destruct (as_array (val schema key)) as [l|] eqn:E; simpl; [|done].
  intros (v & Hv & ->%as_map_Some)%list_elem_of_lookup_2%list_elem_of_omap.
  exact (depth_member _ _ _ _ E Hv).
Qed.

Lemma depth_additional_items schema m :
  getAdditionalItemsSchema schema = Some m -> (depth (JObject m) < map_depth schema)%nat.
Proof. unfold getAdditionalItemsSchema. destruct (has schema _); apply depth_map. Qed.

(** The checker only goes down into the new schema. *)
Lemma compared_depth new old n o : compared new old n o -> (depth (JObject n) < map_depth new)%nat.
Proof.
  intros [key i ? ? _ _ Hn _|name ? ? _ Hn _|name ? ? _ _ _ _ Hn|name ? ? _ _ Hn _ _|? ? _ Hn _|i ? ? _ Hn _
    |i ? ? _ Hn _ _|i ? ? _ _ _ Hn|key ? ? _ _ Hn _|key name ns os ? ? _ _ Hns _ Hn _].
  - by apply depth_array_value in Hn.
  - apply getProperties_lookup in Hn as (m & Hm & Hn). exact (depth_entry _ _ _ _ _ Hm Hn).
  - by eapply depth_map.
  - apply getProperties_lookup in Hn as (m & Hm & Hn). exact (depth_entry _ _ _ _ _ Hm Hn).
  - by eapply depth_map.
  - by apply depth_tuple in Hn.
  - by apply depth_tuple in Hn.
  - by apply depth_additional_items.
  - apply (depth_map _ key). by rewrite Hn.
  - exact (depth_entry _ _ _ _ _ Hns Hn).
Qed.

Lemma accepted_iff new old :
  accepted new old <-> fits new old /\ forall n o, compared new old n o -> accepted (Some n) (Some o).
Proof. split; [by intros []|intros []; by constructor]. Qed.

(** ** What the checker decides *)

(** The JSON Schema checker ends within the nesting of the new schema.  It panics
    only if it meets two patterns that Go cannot compare; otherwise it adds
    messages to the result it is given exactly when some pair of subschemas it
    compares breaks a rule - whatever the order of the maps it ranges over, the
    path it reports under and the messages it had. *)
Theorem checkCompatibility_spec e fuel new old path r :
  (map_depth new <= fuel)%nat ->
  decides (U := meets_unsafe new old) (checkCompatibility e fuel new old path r) r (accepted new old).
Proof.
  revert new old path r. induction fuel as [|fuel IH]; intros new old path r Hf.
  - destruct new; simpl in Hf; lia.
  - simpl. apply (decides_iff (U := meets_unsafe new old) _ _ (pair_ok (fun n o => accepted (Some n) (Some o)) new old)).
    + by rewrite pair_ok_iff, <- accepted_iff.
    + apply decides_schema; [|by apply unsafe_here]. intros n o Hno p r'.
      destruct (IH (Some n) (Some o) p r') as [[Hp Hh]|Hd]; [|left|by right].
      * apply compared_depth in Hno. simpl in *. lia.
      * split; [done|]. by eapply unsafe_below.
Qed.

(** A schema whose only subschemas are those of its properties. *)
Lemma compared_object new old n o :
  (forall key, key ∈ ["oneOf"; "anyOf"; "items"; "prefixItems"; "additionalItems"; "additionalProperties";
     "dependencies"; "dependentSchemas"] -> at_key new key = None) ->
  compared new old n o ->
  exists name, getProperties new !! name = Some (JObject n) /\
    (getProperties old !! name = Some (JObject o) \/ getAdditionalPropertiesSchema old = Some o).
Proof.
  intros Hnone Hc.
  assert (Hval : forall key, key ∈ ["oneOf"; "anyOf"; "items"; "prefixItems"; "additionalItems"; "additionalProperties";
     "dependencies"; "dependentSchemas"] -> val new key = JNull).
  { intros key Hk. unfold val. by rewrite Hnone. }
  assert (Ht : getTupleItems new = []) by (unfold getTupleItems; by rewrite !Hval by set_solver).
  inversion Hc as [key ? ? ? Hk _ Hn _|name ? ? _ Hn Ho|? ? ? _ _ _ _ Hn|name ? ? _ _ Hn _ Ho|? ? _ Hn _|? ? ? _ Hn
    |? ? ? _ Hn|? ? ? _ _ _ Hn|? ? ? _ Hk Hn|? ? ? ? ? ? _ Hk Hn]; subst; eauto; exfalso.
  - unfold getSchemaArrayValue in Hn. by rewrite Hval in Hn by set_solver.
  - unfold getAdditionalPropertiesSchema in Hn. by rewrite Hval in Hn by set_solver.
  - unfold getItems in Hn. by rewrite Hval in Hn by set_solver.
  - by rewrite Ht in Hn.
  - by rewrite Ht in Hn.
  - unfold getAdditionalItemsSchema in Hn. rewrite !Hval in Hn by set_solver. by destruct (has _ _).
  - by rewrite Hval in Hn by set_solver.
  - by rewrite Hval in Hn by set_solver.
Qed.

(** Property C28.  Checking two texts always ends, never for want of fuel.  With a
    result, that is compatible exactly when both texts decode to schemas and
    every pair of subschemas that is reached keeps the rules ([accepted]), and an
    incompatible one always says why.  Without one, Go has panicked: both decode,
    and a pair that is reached has two patterns that are both arrays or both
    objects, which [!=] cannot compare ([pattern_panics]). *)
Theorem JsonCheck_spec e syntax_error reader writer :
  match JsonCheck e syntax_error reader writer with
  | Done r =>
      (IsCompatible r = true <->
       exists new old, loadSchema reader = Some new /\ loadSchema writer = Some old /\ accepted new old) /\
      (IsCompatible r = true <-> Messages r = [])
  | Panic => exists new old, loadSchema reader = Some new /\ loadSchema writer = Some old /\ meets_unsafe new old
  | NoFuel => False
  end.
Proof.
  unfold JsonCheck.
  destruct (loadSchema reader) as [new|]; [|naive_solver].
  destruct (loadSchema writer) as [old|]; [|naive_solver].
  destruct (checkCompatibility_spec e (map_depth new) new old "" NewCompatibleResult) as [[-> Hh]|(ms & -> & Hms)]; [done|eauto|].
  unfold extend; simpl. rewrite bool_decide_eq_true, Hms. split; [naive_solver|done].
Qed.

(** ** An example: an integer property becomes a number *)

Definition old_item : string := quoted "{'type':'object','properties':{'price':{'type':'integer'}},'required':['price']}".
Definition new_item : string := quoted "{'type':'object','properties':{'price':{'type':'number'}}}".

Definition price (t : string) : gmap string json := {[ "type" := JString t ]}.
Definition old_schema : gmap string json :=
  {[ "type" := JString "object"; "properties" := JObject {[ "price" := JObject (price "integer") ]};
     "required" := JArray [JString "price"] ]}.
Definition new_schema : gmap string json :=
  {[ "type" := JString "object"; "properties" := JObject {[ "price" := JObject (price "number") ]} ]}.

Lemma load_new_item : loadSchema (MkSchemaWithRefs new_item []) = Some (Some new_schema).
Proof. vm_compute. reflexivity. Qed.
Lemma load_old_item : loadSchema (MkSchemaWithRefs old_item []) = Some (Some old_schema).
Proof. vm_compute. reflexivity. Qed.

(** Each of the keys of a list, in turn. *)
Ltac each_key := apply Forall_forall; repeat (apply Forall_cons; split; [reflexivity|]); by apply Forall_nil.

Lemma price_compared old n o t : ~ compared (Some (price t)) old n o.
Proof.
  intros Hc. apply compared_object in Hc as (name & Hn & _); [done|].
  each_key.
Qed.

Lemma new_schema_compared n o :
  compared (Some new_schema) (Some old_schema) n o -> n = price "number" /\ o = price "integer".
Proof.
  intros Hc. apply compared_object in Hc as (name & Hn & Ho).
  - change (getProperties (Some new_schema)) with ({[ "price" := JObject (price "number") ]} : gmap string json) in Hn.
    apply lookup_singleton_Some in Hn as [<- [= <-]]. split; [done|].
    destruct Ho as [Ho|Ho]; [|discriminate Ho].
    change (getProperties (Some old_schema)) with ({[ "price" := JObject (price "integer") ]} : gmap string json) in Ho.
    rewrite lookup_singleton_eq in Ho. by injection Ho as <-.
  - each_key.
Qed.
