(* ===== verification/JsonSchema.v ===== *)
(** * What a JSON Schema means, and what the checker's verdict says of documents

    The validation of a document by a schema made of the keywords of [validates],
    as the JSON Schema specification (Draft-07) defines it and independent of the
    checker; if the checker accepts a new schema, every document of the old one
    is a document of the new one, for the pairs of schemas [tame] describes.
    Outside it the checker overlooks incompatible changes: the examples at the
    end show one for each condition. *)
From S2P Require Import Prelude GoStrings GoFloat GoJson JsonValue StorageTypes Compat JsonCompat JsonRules JsonFacts.
From Stdlib Require Import Ascii String.

Local Open Scope string_scope.

(** ** Numbers *)

Definition is_number (x : float64) : bool := match x with S754_nan => false | _ => true end.

(** The order of floats, by cases: numbers of one sign go by exponent, then by
    mantissa. *)
Definition float_le (x y : float64) : Prop :=
  match x, y with
  | S754_nan, _ | _, S754_nan => False
  | S754_infinity true, _ | _, S754_infinity false => True
  | S754_infinity false, _ | _, S754_infinity true => False
  | S754_zero _, S754_zero _ => True
  | S754_zero _, S754_finite s _ _ => s = false
  | S754_finite s _ _, S754_zero _ => s = true
  | S754_finite true _ _, S754_finite false _ _ => True
  | S754_finite false _ _, S754_finite true _ _ => False
  | S754_finite false m e, S754_finite false n f => (e < f \/ e = f /\ Zpos m <= Zpos n)%Z
  | S754_finite true m e, S754_finite true n f => (f < e \/ e = f /\ Zpos n <= Zpos m)%Z
  end.

Lemma SFleb_iff x y : SFleb x y = true <-> float_le x y.
Proof.
  unfold SFleb, SFcompare, float_le. change (Pos.compare_cont Eq) with Pos.compare.
  destruct x as [sx|[]| |[] mx ex], y as [sy|[]| |[] my ey]; try done; try (by destruct sy); try (by destruct sx).
  all: destruct (Z.compare_spec ex ey); simpl; [subst|split; [try done; lia|try done; lia]..].
  all: destruct (Pos.compare_spec mx my); simpl; split; try done; lia.
Qed.

Lemma SFltb_iff x y : SFltb x y = true <-> is_number x = true /\ is_number y = true /\ ~ float_le y x.
Proof.
  unfold SFltb, SFcompare, float_le, is_number. change (Pos.compare_cont Eq) with Pos.compare.
  destruct x as [sx|[]| |[] mx ex], y as [sy|[]| |[] my ey]; try (simpl; intuition congruence).
  all: destruct (Z.compare_spec ex ey) as [->| |]; [destruct (Pos.compare_spec mx my)| |]; simpl.
  all: split; [intros H'; try discriminate H'; repeat split; lia|intros (_ & _ & H'); try reflexivity; exfalso; lia].
Qed.

Lemma SFleb_trans x y z : SFleb x y = true -> SFleb y z = true -> SFleb x z = true.
Proof.
  rewrite !SFleb_iff. unfold float_le.
  destruct x as [sx|[]| |[] mx ex], y as [sy|[]| |[] my ey], z as [sz|[]| |[] mz ez]; try done; lia.
Qed.

Lemma SFleb_not_lt x y : is_number x = true -> is_number y = true -> SFltb x y = false -> SFleb y x = true.
Proof.
  rewrite <- not_true_iff_false, SFltb_iff, SFleb_iff. intros Hx Hy H.
  destruct (SFleb y x) eqn:E; [by apply SFleb_iff|]. destruct H. split_and!; [done..|]. rewrite <- SFleb_iff. congruence.
Qed.

(** ** Validation *)

(** The number of characters of a string: of its bytes that do not continue one. *)
Fixpoint rune_count (s : string) : Z :=
  match s with
  | EmptyString => 0
  | String c s => (if byte_in 128 191 c then 0 else 1) + rune_count s
  end.

Definition is_integral (x : float64) : bool :=
  match x with
  | S754_zero _ => true
  | S754_finite _ m e => bool_decide (0 <= e)%Z || (Zpos m mod 2 ^ (- e) =? 0)%Z
  | _ => false
  end.

Definition has_type (t : string) (v : json) : bool :=
  match v with
  | JNull => bool_decide (t = "null")
  | JBool _ => bool_decide (t = "boolean")
  | JNumber x => bool_decide (t = "number") || bool_decide (t = "integer") && is_integral x
  | JString _ => bool_decide (t = "string")
  | JArray _ => bool_decide (t = "array")
  | JObject _ => bool_decide (t = "object")
  end.

(** What the bounds of a kind of value limit, in a number. *)
Definition measure (key : string) (v : json) : option float64 :=
  match v with
  | JNumber x => if bool_decide (key ∈ ["minimum"; "maximum"; "exclusiveMinimum"; "exclusiveMaximum"]) then Some x else None
  | JString s => if bool_decide (key ∈ ["minLength"; "maxLength"]) then Some (Float64.of_Z (rune_count s)) else None
  | JArray l => if bool_decide (key ∈ ["minItems"; "maxItems"]) then Some (Float64.of_Z (Z.of_nat (List.length l))) else None
  | JObject m => if bool_decide (key ∈ ["minProperties"; "maxProperties"]) then Some (Float64.of_Z (Z.of_nat (size m))) else None
  | _ => None
  end.

Definition strict (key : string) : bool := bool_decide (key ∈ ["exclusiveMinimum"; "exclusiveMaximum"]).

Definition within (key : string) (lower : bool) (bound x : float64) : bool :=
  let '(lo, hi) := if lower then (bound, x) else (x, bound) in
  if strict key then SFltb lo hi else SFleb lo hi.

Section validation.
(** Which strings a regular expression matches. *)
Context (matches : string -> string -> Prop).

(** A document of a schema made of these keywords; [true] and [false] are
    schemas too. *)
Inductive validates : json -> json -> Prop :=
  | validates_true v : validates (JBool true) v
  | validates_schema m v :
      let schema := Some m in
      (forall t, getType schema = JString t -> has_type t v = true) ->
      (forall l, getType schema = JArray l -> exists t, JString t ∈ l /\ has_type t v = true) ->
      (forall l, getEnum schema = Some l -> exists c, c ∈ l /\ DeepEqual v c = true) ->
      (forall c, at_key schema "const" = Some c -> DeepEqual v c = true) ->
      (forall key lower b x, (key, lower) ∈ bounds -> at_key schema key = Some (JNumber b) ->
         measure key v = Some x -> within key lower b x = true) ->
      (forall p s, at_key schema "pattern" = Some (JString p) -> v = JString s -> matches p s) ->
      (forall l, val schema "uniqueItems" = JBool true -> v = JArray l ->
         ForallOrdPairs (fun a b => DeepEqual a b = false) l) ->
      (forall items l x, at_key schema "items" = Some items -> v = JArray l -> x ∈ l -> validates items x) ->
      (forall name doc, v = JObject doc -> name ∈ getRequiredSet schema -> is_some (doc !! name) = true) ->
      (forall name sub doc x, v = JObject doc -> getProperties schema !! name = Some sub -> doc !! name = Some x ->
         validates sub x) ->
      (forall name sub doc x, v = JObject doc -> at_key schema "additionalProperties" = Some sub ->
         getProperties schema !! name = None -> doc !! name = Some x -> validates sub x) ->
      validates (JObject m) v.

(** ** The schemas the theorem is about *)

(** Keywords that constrain documents and are left out here. *)
Definition other_keywords : list string :=
  ["$ref"; "oneOf"; "anyOf"; "allOf"; "not"; "if"; "then"; "else"; "patternProperties"; "propertyNames"; "contains";
   "dependencies"; "dependentRequired"; "dependentSchemas"; "prefixItems"; "additionalItems"; "multipleOf"].

Definition is_schema (v : json) : bool := is_some (as_map v).

(** A schema without these keywords, its bounds numbers and its
    [additionalProperties] a schema or a boolean. *)
Record plain (schema : gomap) : Prop := {
  plain_other : forall key, key ∈ other_keywords -> at_key schema key = None;
  plain_additional : forall v, at_key schema "additionalProperties" = Some v ->
    is_schema v = true \/ is_bool true v = true \/ is_bool false v = true;
  plain_bounds : forall key lower v, (key, lower) ∈ bounds -> at_key schema key = Some v ->
    exists x, v = JNumber x /\ is_number x = true
}.

(** What is asked of a pair of schemas: the old one names its types if the new
    one does; a property or the items of the new one are an object or [true], those of
    the old one an object or [false]; the new one describes by an object what it requires; an
    enum value of the new one that prints like one of the old one is equal to it;
    and a schema for additional properties does not become [false]. *)
Record tame_here (new old : gomap) : Prop := {
  tame_new : plain new;
  tame_old : plain old;
  tame_type : getType new = JNull \/ (exists t, getType old = JString t) \/ (exists l, getType old = JArray l);
  tame_properties_new : forall name v, getProperties new !! name = Some v -> is_schema v = true \/ is_bool true v = true;
  tame_properties_old : forall name v, getProperties old !! name = Some v -> is_schema v = true \/ is_bool false v = true;
  tame_required : forall name, name ∈ getRequiredSet new ->
    exists v, getProperties new !! name = Some v /\ is_schema v = true;
  tame_items_new : forall v, at_key new "items" = Some v -> is_schema v = true \/ is_bool true v = true;
  tame_items_old : forall v, at_key old "items" = Some v -> is_schema v = true \/ is_bool false v = true;
  tame_enum : forall l k c d, getEnum new = Some l -> getEnum old = Some k -> c ∈ l -> d ∈ k ->
    Sprint c = Sprint d -> DeepEqual d c = true;
  tame_closing : is_some (getAdditionalPropertiesSchema old) = true -> is_bool false (val new "additionalProperties") = false
}.

(** Every pair of subschemas that is compared is such a pair. *)
Inductive tame (new old : gomap) : Prop :=
  | tame_intro : tame_here new old -> (forall n o, compared new old n o -> tame (Some n) (Some o)) -> tame new old.

(** ** Soundness *)

Lemma plain_composition schema : plain schema -> hasCompositionKeyword schema = false.
Proof.
  intros H. apply not_true_iff_false. intros (key & Hk%list_elem_of_In & Hh)%existsb_exists.
  unfold has in Hh. rewrite (plain_other _ H) in Hh; [done|]. unfold other_keywords. set_solver.
Qed.

Lemma plain_level new old : plain new -> plain old -> keyword_level new old = true.
Proof.
  intros Hn Ho. unfold keyword_level.
  change (composed new old) with (hasCompositionKeyword new || hasCompositionKeyword old). by rewrite !plain_composition.
Qed.

Lemma is_schema_iff v : is_schema v = true <-> exists m, v = JObject m.
Proof. destruct v; simpl; naive_solver. Qed.

Section sound.
Context (new old : gmap string json).
Hypothesis here : tame_here (Some new) (Some old).
Hypothesis level_fits : keywords_fit (Some new) (Some old).

Lemma has_type_promoted s t v : has_type s v = true -> widens s t -> has_type t v = true.
Proof. intros Hs [->|[-> ->]]; [done|]. by destruct v. Qed.

(** Some type the schema names. *)
Definition named_type (schema : gomap) (v : json) : Prop := exists t, t ∈ type_names (getType schema) /\ has_type t v = true.

Lemma named_types l t : t ∈ type_names (JArray l) <-> JString t ∈ l.
Proof.
  simpl. rewrite list_elem_of_omap. split; [|intros H; by exists (JString t)].
  intros (x & Hx & E). by destruct x; simplify_eq/=.
Qed.

Lemma sound_type v :
  (forall s, getType (Some old) = JString s -> has_type s v = true) ->
  (forall l, getType (Some old) = JArray l -> exists t, JString t ∈ l /\ has_type t v = true) ->
  getType (Some new) = JNull \/ named_type (Some new) v.
Proof.
  intros Hs Hl. destruct (tame_type _ _ here) as [?|Ht]; [by left|].
  assert (named_type (Some old) v) as (s & Hin & Hv).
  { destruct Ht as [[t Et]|[l El]]; [exists t|].
    - rewrite Et. split; [by left|by apply Hs].
    - destruct (Hl l El) as (t & Hin & Hv). exists t. rewrite El. by rewrite named_types. }
  destruct (type_fits _ _ level_fits) as [H|[H|H]]; [|by left|right].
  - change (getType (Some old) = JNull) in H. destruct Ht as [[t Et]|[l El]]; congruence.
  - destruct (H s Hin) as (t & Hn & Hw). exists t. split; [done|]. by eapply has_type_promoted.
Qed.

Lemma within_weaker key (lower : bool) b b' x :
  is_number b = true -> is_number b' = true ->
  (if lower then SFltb b' b else SFltb b b') = false -> within key lower b' x = true -> within key lower b x = true.
Proof.
  intros Hb Hb' H. unfold within. destruct lower; (apply SFleb_not_lt in H; [|done..]);
    destruct (strict key); try (intros Hx; by eapply SFleb_trans).
  - rewrite !SFltb_iff, <- !SFleb_iff. intros (_ & Hx & Hlt). split_and!; [done..|]. intros Hle.
    apply Hlt. by eapply SFleb_trans.
  - rewrite !SFltb_iff, <- !SFleb_iff. intros (Hx & _ & Hlt). split_and!; [done..|]. intros Hle.
    apply Hlt. by eapply SFleb_trans.
Qed.

Lemma sound_bound key lower b x v :
  (key, lower) ∈ bounds -> at_key (Some new) key = Some (JNumber b) -> measure key v = Some x ->
  (forall b', at_key (Some old) key = Some (JNumber b') -> within key lower b' x = true) ->
  within key lower b x = true.
Proof.
  intros Hk Hb Hm Ho. destruct (bounds_fit _ _ level_fits key lower Hk) as [Hh Hlt]; [apply has_at; eauto|].
  apply has_at in Hh as [w Hw].
  destruct (plain_bounds _ (tame_new _ _ here) _ _ _ Hk Hb) as (b1 & [= <-] & Hn1).
  destruct (plain_bounds _ (tame_old _ _ here) _ _ _ Hk Hw) as (b2 & -> & Hn2).
  rewrite (val_at _ _ _ Hb), (val_at _ _ _ Hw) in Hlt. simpl in Hlt.
  eapply within_weaker; [..|by apply Ho]; [done..|]. by destruct lower.
Qed.

Lemma sound_enum l v :
  getEnum (Some new) = Some l ->
  (forall k, getEnum (Some old) = Some k -> exists c, c ∈ k /\ DeepEqual v c = true) ->
  exists c, c ∈ l /\ DeepEqual v c = true.
Proof.
  intros Hl Ho. destruct (enum_fits _ _ level_fits l Hl) as (k & Hk & Hsub). destruct (Ho _ Hk) as (d & Hd & Hv).
  destruct (Hsub d Hd) as (c & Hc & E). exists c. split; [done|].
  eapply DeepEqual_trans; [done|]. by eapply (tame_enum _ _ here l k).
Qed.
End sound.

Lemma validates_false v : ~ validates (JBool false) v.
Proof. inversion 1. Qed.

Lemma validates_inv m v :
  validates (JObject m) v ->
  let schema := Some m in
  (forall t, getType schema = JString t -> has_type t v = true) /\
  (forall l, getType schema = JArray l -> exists t, JString t ∈ l /\ has_type t v = true) /\
  (forall l, getEnum schema = Some l -> exists c, c ∈ l /\ DeepEqual v c = true) /\
  (forall c, at_key schema "const" = Some c -> DeepEqual v c = true) /\
  (forall key lower b x, (key, lower) ∈ bounds -> at_key schema key = Some (JNumber b) ->
     measure key v = Some x -> within key lower b x = true) /\
  (forall p s, at_key schema "pattern" = Some (JString p) -> v = JString s -> matches p s) /\
  (forall l, val schema "uniqueItems" = JBool true -> v = JArray l ->
     ForallOrdPairs (fun a b => DeepEqual a b = false) l) /\
  (forall items l x, at_key schema "items" = Some items -> v = JArray l -> x ∈ l -> validates items x) /\
  (forall name doc, v = JObject doc -> name ∈ getRequiredSet schema -> is_some (doc !! name) = true) /\
  (forall name sub doc x, v = JObject doc -> getProperties schema !! name = Some sub -> doc !! name = Some x ->
     validates sub x) /\
  (forall name sub doc x, v = JObject doc -> at_key schema "additionalProperties" = Some sub ->
     getProperties schema !! name = None -> doc !! name = Some x -> validates sub x).
Proof. inversion 1; subst. by split_and!. Qed.

Lemma additional_cases schema :
  plain schema ->
  at_key schema "additionalProperties" = None \/ at_key schema "additionalProperties" = Some (JBool true) \/
  at_key schema "additionalProperties" = Some (JBool false) \/
  exists m, at_key schema "additionalProperties" = Some (JObject m).
Proof.
  intros Hp. destruct (at_key schema "additionalProperties") as [v|] eqn:E; [|by left].
  destruct (plain_additional _ Hp v E) as [H|[H|H]].
  - apply is_schema_iff in H as [m ->]. eauto.
  - apply is_bool_iff in H as ->. auto.
  - apply is_bool_iff in H as ->. auto.
Qed.

Lemma no_covering schema : plain schema -> ~ covering schema.
Proof. intros Hp (m & Hm & _). rewrite (plain_other _ Hp "patternProperties") in Hm; [done|]. unfold other_keywords. set_solver. Qed.

(** The documents of one level, given those of the subschemas that are compared. *)
Section level.
Context (new old : gmap string json) (v : json).
Hypothesis here : tame_here (Some new) (Some old).
Hypothesis level_fits : keywords_fit (Some new) (Some old).
Hypothesis subschemas : forall n o, compared (Some new) (Some old) n o ->
  forall x, validates (JObject o) x -> validates (JObject n) x.
Hypothesis old_valid : validates (JObject old) v.

Hypothesis at_level : keyword_level (Some new) (Some old) = true.

(** A value of a property of the new schema. *)
Lemma sound_property name sub doc x :
  v = JObject doc -> getProperties (Some new) !! name = Some sub -> doc !! name = Some x -> validates sub x.
Proof.
  intros Hv Hsub Hx. destruct (validates_inv _ _ old_valid) as (_ & _ & _ & _ & _ & _ & _ & _ & _ & Hprops & Hap).
  destruct (tame_properties_new _ _ here _ _ Hsub) as [[n ->]%is_schema_iff| ->%is_bool_iff]; [|apply validates_true].
  destruct (getProperties (Some old) !! name) as [w|] eqn:Hw.
  - destruct (tame_properties_old _ _ here _ _ Hw) as [[o ->]%is_schema_iff| ->%is_bool_iff];
      [|destruct (validates_false x); by eapply Hprops].
    apply (subschemas n o); [by eapply compared_property|]. by eapply Hprops.
  - assert (Hr : name ∉ getRequiredSet (Some new)).
    { intros Hr. pose proof (required_fits _ _ level_fits _ _ Hsub Hr) as H. by rewrite Hw in H. }
    destruct (added_fits _ _ level_fits _ _ Hsub Hw) as [|Hopen]; [done|].
    destruct (additional_cases _ (tame_old _ _ here)) as [E|[E|[E|[o E]]]].
    1, 2: destruct Hopen; unfold open_content; rewrite E; auto.
    + by destruct (validates_false x); eapply Hap.
    + apply (subschemas n o); [|by eapply Hap].
      eapply compared_added; [done..|]. unfold getAdditionalPropertiesSchema. by rewrite (val_at _ _ _ E).
Qed.

(** A value the new schema does not describe. *)
Lemma sound_additional name sub doc x :
  v = JObject doc -> at_key (Some new) "additionalProperties" = Some sub ->
  getProperties (Some new) !! name = None -> doc !! name = Some x -> validates sub x.
Proof.
  intros Hv Hsub Hnone Hx. destruct (validates_inv _ _ old_valid) as (_ & _ & _ & _ & _ & _ & _ & _ & _ & Hprops & Hap).
  pose proof (tame_closing _ _ here) as no_closing. pose proof (tame_new _ _ here) as new_plain.
  pose proof (additionalProperties_fits _ _ level_fits) as Hfit. unfold oldAllowsAll in Hfit.
  rewrite (val_at _ _ _ Hsub) in Hfit, no_closing. unfold getAdditionalPropertiesSchema in Hfit, no_closing.
  rewrite (val_at _ _ _ Hsub) in Hfit.
  destruct (getProperties (Some old) !! name) as [w|] eqn:Hw.
  - destruct (tame_properties_old _ _ here _ _ Hw) as [[o ->]%is_schema_iff| ->%is_bool_iff];
      [|destruct (validates_false x); by eapply Hprops].
    destruct (additional_cases _ new_plain) as [E|[E|[E|[n E]]]]; rewrite Hsub in E; try discriminate E;
      injection E as ->; [apply validates_true| |].
    + destruct (removed_fits _ _ level_fits _ _ Hw Hnone) as [|[H|[H|H]]]; [done|..].
      * unfold open_content in H. rewrite Hsub in H. naive_solver.
      * by destruct (no_covering _ new_plain).
      * destruct H as [m H]. by rewrite (val_at _ _ _ Hsub) in H.
    + apply (subschemas n o); [|by eapply Hprops].
      eapply compared_removed; [done|by apply no_covering|done..|].
      unfold getAdditionalPropertiesSchema. by rewrite (val_at _ _ _ Hsub).
  - destruct (additional_cases _ new_plain) as [E|[E|[E|[n E]]]]; rewrite Hsub in E; try discriminate E;
      injection E as ->; [apply validates_true| |];
      (destruct (additional_cases _ (tame_old _ _ here)) as [E'|[E'|[E'|[o E']]]];
       [by destruct Hfit; [left|]|by destruct Hfit; [right; by apply val_at|]|by destruct (validates_false x); eapply Hap|]).
    + rewrite (val_at _ _ _ E') in no_closing. by discriminate no_closing.
    + apply (subschemas n o); [|by eapply Hap].
      eapply compared_additional with (key := "additionalProperties"); [done|set_solver|by apply val_at..].
Qed.

Lemma sound_items items l x :
  at_key (Some new) "items" = Some items -> v = JArray l -> x ∈ l -> validates items x.
Proof.
  intros Hitems Hv Hx. destruct (validates_inv _ _ old_valid) as (_ & _ & _ & _ & _ & _ & _ & Hit & _).
  destruct (tame_items_new _ _ here _ Hitems) as [[n ->]%is_schema_iff| ->%is_bool_iff]; [|apply validates_true].
  assert (Hn : getItems (Some new) = Some n) by (unfold getItems; by rewrite (val_at _ _ _ Hitems)).
  assert (Hold : exists w, at_key (Some old) "items" = Some w).
  { destruct (items_fit _ _ level_fits) as [H|H]; [by rewrite Hn| |by apply has_at].
    unfold getItems, val in H. destruct (at_key (Some old) "items"); naive_solver. }
  destruct Hold as [w Ho]. destruct (tame_items_old _ _ here _ Ho) as [[o ->]%is_schema_iff| ->%is_bool_iff];
    [|destruct (validates_false x); by eapply Hit].
  apply (subschemas n o); [|by eapply Hit]. apply compared_items; [done..|]. unfold getItems. by rewrite (val_at _ _ _ Ho).
Qed.

Lemma sound_level : validates (JObject new) v.
Proof.
  destruct (validates_inv _ _ old_valid) as (Htype & Htypes & Henum & Hconst & Hbounds & Hpattern & Hunique & _ & Hrequired & _ & _).
  apply validates_schema.
  - intros t Ht. destruct (sound_type new old here level_fits v Htype Htypes) as [E|(u & Hu & Hv)]; rewrite ?E, ?Ht in *; [done|].
    by apply list_elem_of_singleton in Hu as ->.
  - intros l Hl. destruct (sound_type new old here level_fits v Htype Htypes) as [E|(u & Hu & Hv)]; rewrite ?E, ?Hl in *; [done|].
    exists u. by rewrite <- named_types.
  - intros l Hl. by apply (sound_enum new old).
  - intros c Hc. destruct (const_fits _ _ level_fits c Hc) as (w & Hw & Heq). eapply DeepEqual_trans; [by apply Hconst|done].
  - intros key lower b x Hk Hb Hx. eapply (sound_bound new old); [done..|]. intros b' Hb'. by eapply Hbounds.
  - intros p s Hp Hs. destruct (pattern_fits _ _ level_fits _ Hp) as (w & Hw & Heq).
    destruct w; try discriminate Heq. simpl in Heq. apply bool_decide_eq_true in Heq as ->. by eapply Hpattern.
  - intros l Hu Hl. apply Hunique; [|done]. by apply (uniqueItems_fits _ _ level_fits).
  - apply sound_items.
  - intros name doc Hd Hr. destruct (tame_required _ _ here _ Hr) as (sub & Hsub & [n ->]%is_schema_iff).
    pose proof (required_fits _ _ level_fits _ _ Hsub Hr) as H. destruct (is_some (getProperties (Some old) !! name)).
    + by apply Hrequired.
    + done.
  - apply sound_property.
  - apply sound_additional.
Qed.
End level.

Lemma accepted_sound new old :
  accepted new old -> tame new old ->
  forall n o v, new = Some n -> old = Some o -> validates (JObject o) v -> validates (JObject n) v.
Proof.
  induction 1 as [new old Hfits _ IH]. intros [Hhere Htame] n o v -> -> Hv.
  pose proof (plain_level _ _ (tame_new _ _ Hhere) (tame_old _ _ Hhere)) as Hlevel.
  eapply sound_level; [done|by apply Hfits| |done|done].
  - intros n' o' Hc x. by eapply IH; [|apply Htame|..].
Qed.

(** Property C29.  If the checker accepts a new schema for an old one, every
    document of the old schema is a document of the new one, for two schemas of
    the fragment [tame]: every pair of subschemas that is compared has no
    combinator or other keyword of [other_keywords] - only type, enum, const, the
    bounds, pattern, uniqueItems, items, required, properties and
    additionalProperties constrain -; the old schema names its types if the new
    one does; subschemas of the new one are objects or [true], of the old one
    objects or [false]; the new one describes what it requires by an object; no
    enum value of it prints like a different one of the old schema; a schema for
    additional properties does not become [false]; bounds are numbers.  The
    checker overlooks what this leaves out: [type_added], [items_narrowed], [property_forbidden],
    [undescribed_required], [enum_value_retyped], [additional_schema_forbidden]. *)
Theorem JsonCheck_sound e syntax_error reader writer new old r v :
  loadSchema reader = Some (Some new) -> loadSchema writer = Some (Some old) -> tame (Some new) (Some old) ->
  JsonCheck e syntax_error reader writer = Done r -> IsCompatible r = true ->
  validates (JObject old) v -> validates (JObject new) v.
Proof.
  intros Hn Ho Ht Hr Hok Hv. unfold JsonCheck in Hr. rewrite Hn, Ho in Hr.
  destruct (checkCompatibility_spec e (map_depth (Some new)) (Some new) (Some old) "" NewCompatibleResult)
    as [[Hp _]|(ms & Hms & Hacc)]; [done|congruence|].
  rewrite Hms in Hr. injection Hr as <-. unfold extend in Hok. simpl in Hok. rewrite bool_decide_eq_true in Hok.
  apply (accepted_sound _ _ (proj1 Hacc Hok) Ht new old v eq_refl eq_refl Hv).
Qed.
End validation.

(** ** The example of JsonFacts *)

Ltac no_keyword := intros; discriminate.

Lemma no_bounds schema :
  Forall (fun b => at_key schema (fst b) = None) bounds ->
  forall key lower v, (key, lower) ∈ bounds -> at_key schema key = Some v -> False.
Proof. rewrite Forall_forall. intros H key lower v Hk. specialize (H _ Hk). simpl in H. by rewrite H. Qed.

(** A schema without bounds. *)
Ltac no_bound Hk Hv :=
  exfalso; eapply no_bounds; [|exact Hk|exact Hv]; repeat (apply Forall_cons; split; [reflexivity|]); by apply Forall_nil.

Lemma plain_small schema :
  Forall (fun key => at_key schema key = None) (other_keywords ++ ["additionalProperties"] ++ bounds.*1) -> plain schema.
Proof.
  rewrite Forall_forall. intros H. split.
  - intros key Hk. apply H. rewrite !elem_of_app. by left.
  - intros v Hv. rewrite H in Hv; [done|]. rewrite !elem_of_app. right; left. by left.
  - intros key lower v Hk Hv. rewrite H in Hv; [done|]. rewrite !elem_of_app. right; right.
    apply list_elem_of_fmap. by exists (key, lower).
Qed.

(** Each of some keywords is absent, in turn. *)
Ltac each_absent := simpl; repeat (apply Forall_cons; split; [reflexivity|]); by apply Forall_nil.

Lemma tame_price : tame (Some (price "number")) (Some (price "integer")).
Proof.
  constructor; [|intros n o []%price_compared].
  split; try no_keyword; try (by apply plain_small; each_absent); try done.
  right; left. by exists "integer".
Qed.

Lemma tame_item : tame (Some new_schema) (Some old_schema).
Proof.
  constructor; [|intros n o [-> ->]%new_schema_compared; apply tame_price].
  split; try no_keyword; try (by apply plain_small; each_absent); try done.
  - right; left. by exists "object".
  - change (getProperties (Some new_schema)) with ({[ "price" := JObject (price "number") ]} : gmap string json).
    intros name v [<- <-]%lookup_singleton_Some. by left.
  - change (getProperties (Some old_schema)) with ({[ "price" := JObject (price "integer") ]} : gmap string json).
    intros name v [<- <-]%lookup_singleton_Some. by left.
Qed.

(** The document [{'price': 3}]. *)
Definition item : gmap string json := {[ "price" := JNumber (Float64.of_Z 3) ]}.

Lemma old_item_valid matches : validates matches (JObject old_schema) (JObject item).
Proof.
  constructor; try no_keyword.
  - intros t [= <-]. reflexivity.
  - intros key lower b x Hk Hv. no_bound Hk Hv.
  - intros name doc [= <-] Hr. assert (name = "price") as -> by set_solver. reflexivity.
  - intros name sub doc x [= <-] Hsub Hx. unfold item in Hx. apply lookup_singleton_Some in Hx as [<- <-].
    change (getProperties (Some old_schema)) with ({[ "price" := JObject (price "integer") ]} : gmap string json) in Hsub.
    rewrite lookup_singleton_eq in Hsub. injection Hsub as <-. constructor; try no_keyword.
    + intros t [= <-]. reflexivity.
    + intros key lower b x Hk Hv. no_bound Hk Hv.
Qed.

Lemma JsonCheck_sound_witness :
  exists r, JsonCheck env0 (fun _ => "") (MkSchemaWithRefs new_item []) (MkSchemaWithRefs old_item []) = Done r /\
    IsCompatible r = true /\ validates (fun _ _ => False) (JObject new_schema) (JObject item).
Proof.
  refine (ex_intro _ (MkResult true []) (conj _ (conj eq_refl _))); [vm_compute; reflexivity|].
  refine (JsonCheck_sound (fun _ _ => False) env0 (fun _ => "") (MkSchemaWithRefs new_item []) (MkSchemaWithRefs old_item [])
    new_schema old_schema (MkResult true []) (JObject item) load_new_item load_old_item tame_item _ eq_refl (old_item_valid _)).
  vm_compute. reflexivity.
Defined.

(** ** What the checker overlooks

    Each of these new schemas is found compatible, and refuses a document of the
    old one. *)

Definition verdict (new old : string) : outcome bool :=
  let! r := JsonCheck env0 (fun _ => "") (MkSchemaWithRefs (quoted new) []) (MkSchemaWithRefs (quoted old) []) in
  Done (IsCompatible r).

(** A schema without a type accepts everything; the new one only strings. *)
Example type_added : verdict "{'type':'string'}" "{}" = Done true.
Proof. vm_compute. reflexivity. Qed.

(** A required property that is not described. *)
Example undescribed_required : verdict "{'required':['id']}" "{}" = Done true.
Proof. vm_compute. reflexivity. Qed.

(** Additional properties of one type are forbidden altogether. *)
Example additional_schema_forbidden :
  verdict "{'additionalProperties':false}" "{'additionalProperties':{'type':'string'}}" = Done true.
Proof. vm_compute. reflexivity. Qed.

(** Enum values are compared as printed: the number 1 and the string '1'. *)
Example enum_value_retyped : verdict "{'enum':['1']}" "{'enum':[1]}" = Done true.
Proof. vm_compute. reflexivity. Qed.

(** A property's schema becomes [false], which no value satisfies. *)
Example property_forbidden :
  verdict "{'properties':{'a':false}}" "{'properties':{'a':{'type':'string'}}}" = Done true.
Proof. vm_compute. reflexivity. Qed.

(** The items of an array, all allowed by [true], get a type. *)
Example items_narrowed : verdict "{'items':{'type':'string'}}" "{'items':true}" = Done true.
Proof. vm_compute. reflexivity. Qed.

(** References inside definitions stay unresolved, and so does one at the root:
    what they stand for is never compared. *)
Example nested_reference_not_followed :
  verdict "{'properties':{'a':{'$ref':'#/definitions/A'}},'definitions':{'A':{'properties':{'b':{'$ref':'#/definitions/B'}}},'B':{'type':'string'}}}"
          "{'properties':{'a':{'$ref':'#/definitions/A'}},'definitions':{'A':{'properties':{'b':{'$ref':'#/definitions/B'}}},'B':{'type':'integer'}}}"
  = Done true.
Proof. vm_compute. reflexivity. Qed.

Example root_reference_not_followed :
  verdict "{'$ref':'#/definitions/A','definitions':{'A':{'type':'string'}}}"
          "{'$ref':'#/definitions/A','definitions':{'A':{'type':'integer'}}}" = Done true.
Proof. vm_compute. reflexivity. Qed.

(** ** What it refuses or does not survive *)

(** A schema that is not compatible with itself: integers, written as an allOf. *)
Example not_reflexive :
  verdict "{'allOf':[{'type':'number'},{'type':'integer'}]}" "{'allOf':[{'type':'number'},{'type':'integer'}]}" = Done false.
Proof. vm_compute. reflexivity. Qed.

(** Two patterns that are arrays: Go's [!=] panics. *)
Example pattern_panics : verdict "{'pattern':[]}" "{'pattern':[]}" = Panic.
Proof. vm_compute. reflexivity. Qed.
