(* ===== verification/JsonParser.v ===== *)
(** * The JSON Schema parser (internal/schema/jsonschema/parser.go)

    Parsing, the canonical text and its fingerprint, and the accessors of a
    schema.  The compiler of github.com/santhosh-tekuri/jsonschema, which decides
    what is a schema, is a parameter.  The second half says what the canonical text
    identifies. *)
From S2P Require Import Prelude GoStrings GoFloat GoJson JsonValue GoJsonFacts JsonText StorageTypes RegistrySchemas.
From Stdlib Require Import Ascii String.

Local Open Scope string_scope.

(** ** Canonical text *)

Section canonical.
(** The result of the conversion [int64(x)] for an [x] beyond the range of
    [int64], which the language leaves to the implementation. *)
Context (overflow : float64 -> Z).

Definition int64_of (x : float64) : Z :=
  match x with
  | S754_zero _ => 0
  | S754_finite s m e =>
      let n := (if 0 <=? e then Zpos m * 2 ^ e else Zpos m / 2 ^ (- e))%Z in
      let n := if s then (- n)%Z else n in
      if decide (Int64.in_range n) then n else overflow x
  | _ => overflow x
  end.

(** [%d] for an integer, [%g] for any other number. *)
Definition canonicalNumber (val : float64) : string :=
  if SFeqb val (Float64.of_Z (int64_of val)) then Itoa (int64_of val) else Sprint_float val.

Fixpoint canonicalizeValue (v : json) : string :=
  match v with
  | JNull => "null"
  | JBool val => if val then "true" else "false"
  | JNumber val => canonicalNumber val
  | JString val => Marshal_string val
  | JArray val => "[" ++ Join (map canonicalizeValue val) "," ++ "]"
  | JObject val =>
      "{" ++ Join (map (fun '(k, valStr) => Marshal_string k ++ ":" ++ valStr)
                     (sorted_entries (canonicalizeValue <$> val))) "," ++ "}"
  end.

Definition canonicalize (v : json) : string := canonicalizeValue v.
End canonical.

(** ** Parsing *)

(** github.com/santhosh-tekuri/jsonschema: a compiler for draft 7 and the
    resources added to it; and the error of encoding/json for a malformed text. *)
Record JsonLib := MkJsonLib {
  Compiler : Type;
  CompiledSchema : Type;
  NewCompiler : Compiler;
  AddResource : string -> string -> Compiler -> result Compiler;
  Compile : string -> Compiler -> result CompiledSchema;
  syntax_error : string -> error
}.

Record ParsedJSONSchema (compiled_schema : Type) := MkParsedJSONSchema {
  raw : string;
  schemaMap : gmap string json;
  compiled : compiled_schema;
  references : list Reference;
  isBooleanSchema : bool
}.
Arguments MkParsedJSONSchema {compiled_schema}.
Arguments raw {compiled_schema}.
Arguments schemaMap {compiled_schema}.
Arguments compiled {compiled_schema}.
Arguments references {compiled_schema}.
Arguments isBooleanSchema {compiled_schema}.

Section parser.
Context (lib : JsonLib) (overflow : float64 -> Z) (Sum256_hex : string -> string).
Abbreviation Parsed := (ParsedJSONSchema (CompiledSchema lib)).

(** The root of a document as a map: [true] accepts everything, [false] nothing. *)
Definition rootMap (v : json) : option (bool * gmap string json) :=
  match v with
  | JBool true => Some (true, ∅)
  | JBool false => Some (true, {[ "not" := JObject ∅ ]})
  | JObject m => Some (false, m)
  | _ => None
  end.

Fixpoint addReferences (refs : list Reference) (compiler : Compiler lib) : result (Compiler lib) :=
  match refs with
  | [] => Ok compiler
  | ref :: refs =>
      if decide (RefSchema ref = "") then addReferences refs compiler
      else
        match AddResource lib (RefName ref) (RefSchema ref) compiler with
        | Err err => Err (Errorf_w ("failed to add reference " ++ quote (RefName ref) ++ ": ") err "")
        | Ok compiler => addReferences refs compiler
        end
  end.

Definition schemaURL : string := "schema.json".

Definition compileSchema (schemaStr : string) (refs : list Reference) : result (CompiledSchema lib) :=
  match addReferences refs (NewCompiler lib) with
  | Err err => Err err
  | Ok compiler =>
      match AddResource lib schemaURL schemaStr compiler with
      | Err err => Err (Errorf_w "failed to add schema resource: " err "")
      | Ok compiler =>
          match Compile lib schemaURL compiler with
          | Err err => Err (Errorf_w "failed to compile JSON schema: " err "")
          | Ok compiled => Ok compiled
          end
      end
  end.

Definition Parse (schemaStr : string) (refs : list Reference) : result Parsed :=
  match Unmarshal schemaStr with
  | None => Err (Errorf_w "invalid JSON: " (syntax_error lib schemaStr) "")
  | Some document =>
      match rootMap document with
      | None => Err (errors_New "invalid JSON Schema: root must be object or boolean")
      | Some (isBooleanSchema, schemaMap) =>
          match compileSchema schemaStr refs with
          | Err err => Err err
          | Ok compiled => Ok (MkParsedJSONSchema schemaStr schemaMap compiled refs isBooleanSchema)
          end
      end
  end.

(** ** A parsed schema *)

Definition CanonicalString (p : Parsed) : string :=
  if isBooleanSchema p then TrimSpace (raw p) else canonicalize overflow (JObject (schemaMap p)).

Definition Fingerprint (p : Parsed) : string := Sum256_hex (CanonicalString p).

Definition Normalize (p : Parsed) : Parsed :=
  MkParsedJSONSchema (CanonicalString p) (schemaMap p) (compiled p) (references p) (isBooleanSchema p).

Definition HasTopLevelField (p : Parsed) (field : string) : bool :=
  match schemaMap p !! "properties" with
  | Some (JObject props) => bool_decide (is_Some (props !! field))
  | _ => false
  end.

Definition FormattedString (p : Parsed) (format : string) : string := CanonicalString p.
End parser.

(** ** Accessors of a schema *)

Definition GetSchemaType (schemaMap : gmap string json) : string :=
  match schemaMap !! "type" with
  | Some (JString t) | Some (JArray (JString t :: _)) => t
  | _ => ""
  end.

Definition GetProperties (schemaMap : gmap string json) : gomap :=
  match schemaMap !! "properties" with Some (JObject props) => Some props | _ => None end.

(** [None] is the nil slice. *)
Definition GetRequired (schemaMap : gmap string json) : option (list string) :=
  match schemaMap !! "required" with
  | Some (JArray required) => Some (omap (fun r => match r with JString s => Some s | _ => None end) required)
  | _ => None
  end.

Definition GetItems (schemaMap : gmap string json) : gomap :=
  match schemaMap !! "items" with Some (JObject items) => Some items | _ => None end.

Definition GetAdditionalProperties (schemaMap : gmap string json) : option json := schemaMap !! "additionalProperties".

Definition GetEnum (schemaMap : gmap string json) : option (list json) :=
  match schemaMap !! "enum" with Some (JArray enum) => Some enum | _ => None end.

(** ** What the canonical text of a JSON Schema identifies

    The canonical text of a schema decodes to the schema's document; two schemas
    have one canonical text, and one fingerprint, exactly when their documents
    are equal. *)


(** ** White space around a word *)

Fixpoint all_space (s : string) : bool :=
  match s with String c s => is_space c && all_space s | EmptyString => true end.

Lemma skip_space_split s : exists ws, s = ws ++ skip_space s /\ all_space ws = true.
Proof.
  induction s as [|c s (ws & Hs & Hws)]; [by exists ""|]. simpl. destruct (is_space c) eqn:E; [|by exists ""].
  exists (String c ws). simpl. by rewrite E, Hws, <- Hs.
Qed.

Lemma rev_string_app_spec s acc : rev_string_app s acc = rev_string s ++ acc.
Proof.
  unfold rev_string. revert acc. induction s as [|c s IH]; intros acc; [done|]. cbn [rev_string_app].
  rewrite IH, (IH (String c "")). by rewrite append_assoc.
Qed.

Lemma rev_string_cons c s : rev_string (String c s) = rev_string s ++ String c "".
Proof. unfold rev_string. cbn [rev_string_app]. apply rev_string_app_spec. Qed.

Lemma rev_string_append s t : rev_string (s ++ t) = rev_string t ++ rev_string s.
Proof.
  induction s as [|c s IH]; [by rewrite append_nil_r|]. cbn [String.append]. by rewrite !rev_string_cons, IH, append_assoc.
Qed.

Lemma rev_string_involutive s : rev_string (rev_string s) = s.
Proof. induction s as [|c s IH]; [done|]. by rewrite rev_string_cons, rev_string_append, IH. Qed.

Lemma length_rev_string s : String.length (rev_string s) = String.length s.
Proof. induction s as [|c s IH]; [done|]. rewrite rev_string_cons, length_app_str, IH. simpl. lia. Qed.

Lemma all_space_app s t : all_space (s ++ t) = all_space s && all_space t.
Proof. induction s as [|c s IH]; simpl; [done|]. by rewrite IH, andb_assoc. Qed.

Lemma all_space_rev s : all_space (rev_string s) = all_space s.
Proof. induction s as [|c s IH]; [done|]. rewrite rev_string_cons, all_space_app, IH. simpl. by rewrite andb_true_r, andb_comm. Qed.

Lemma is_space_cases c : is_space c = true -> c = "009"%char \/ c = "010"%char \/ c = "013"%char \/ c = " "%char.
Proof. destruct c as [[] [] [] [] [] [] [] []]; try (intros H; discriminate H); auto. Qed.

Section trim.
Context (ps : list string) (s : string).
Hypothesis spaces : forall c t, is_space c = true -> find_prefix ps (String c t) = Some t.
Hypothesis stops : find_prefix ps s = None.

Lemma trim_left_spaces ws fuel : all_space ws = true -> (String.length ws <= fuel)%nat -> trim_left ps fuel (ws ++ s) = s.
Proof.
  revert fuel. induction ws as [|c ws IH]; intros fuel Hws Hf.
  - destruct fuel; [done|]. simpl. by rewrite stops.
  - destruct fuel as [|fuel]; [simpl in Hf; lia|]. cbn [all_space] in Hws. apply andb_true_iff in Hws as [Hc Hws].
    cbn [trim_left String.append]. rewrite spaces by done. apply IH; [done|]. simpl in Hf. lia.
Qed.
End trim.

Lemma find_space c t : is_space c = true -> find_prefix space_encodings (String c t) = Some t.
Proof. intros [->|[->|[->| ->]]]%is_space_cases; by destruct t. Qed.

Lemma find_space_rev c t : is_space c = true -> find_prefix (rev_string <$> space_encodings) (String c t) = Some t.
Proof. intros [->|[->|[->| ->]]]%is_space_cases; by destruct t. Qed.

Lemma TrimSpace_around ws word ws' :
  all_space ws = true -> all_space ws' = true ->
  find_prefix space_encodings (word ++ ws') = None -> find_prefix (rev_string <$> space_encodings) (rev_string word) = None ->
  TrimSpace (ws ++ word ++ ws') = word.
Proof.
  intros Hws Hws' Hl Hr. unfold TrimSpace.
  rewrite (trim_left_spaces _ _ find_space Hl) by (rewrite ?length_app_str; try done; lia).
  rewrite rev_string_append, (trim_left_spaces _ _ find_space_rev Hr); [|by rewrite all_space_rev|].
  - apply rev_string_involutive.
  - rewrite length_rev_string, length_app_str. lia.
Qed.

Definition bool_word (b : bool) : string := if b then "true" else "false".

Lemma scan_word_Some w v s x rest : scan_word w v s = Some (x, rest) -> x = v /\ s = w ++ rest.
Proof.
  unfold scan_word. destruct (HasPrefix s w) eqn:E; [|done]. apply HasPrefix_iff in E as [t ->]. rewrite drop_str_app. by intros [= <- <-].
Qed.

Lemma scan_value_bool fuel d s b rest : scan_value fuel d s = Some (JBool b, rest) -> skip_space s = bool_word b ++ rest.
Proof.
  destruct fuel as [|fuel]; [done|]. cbn [scan_value]. generalize (skip_space s). intros t.
  assert (Hnum : forall s, ('(x, s) ← scan_number s; Some (JNumber x, s)) <> Some (JBool b, rest)) by (intros s'; by destruct (scan_number s') as [[]|]).
  assert (Hstr : forall s, ('(text, s) ← scan_string (String.length s) s; Some (JString text, s)) <> Some (JBool b, rest))
    by (intros s'; by destruct (scan_string _ s') as [[]|]).
  assert (Harr : forall s, ('(l, s) ← scan_elements (scan_value fuel (d + 1)) fuel s; Some (JArray l, s)) <> Some (JBool b, rest))
    by (intros s'; by destruct (scan_elements _ fuel s') as [[]|]).
  assert (Hobj : forall s, ('(l, s) ← scan_members (scan_value fuel (d + 1)) fuel s; Some (object_of l, s)) <> Some (JBool b, rest))
    by (intros s'; by destruct (scan_members _ fuel s') as [[]|]).
  intros H. destruct (maxNestingDepth <=? d)%N;
    repeat (case_match; try discriminate H); first
      [by destruct (Hnum _ H)|by destruct (Hstr _ H)|by destruct (Harr _ H)|by destruct (Hobj _ H)
      |apply scan_word_Some in H as [[= ->] ->]; done|apply scan_word_Some in H as [[=] _]].
Qed.

Lemma Unmarshal_bool text b : Unmarshal text = Some (JBool b) -> TrimSpace text = bool_word b.
Proof.
  unfold Unmarshal. destruct (scan_value _ 0 text) as [[v rest]|] eqn:E; [|done]. cbn [mbind option_bind].
  destruct (decide _) as [Hr|]; [|done]. intros [= ->]. apply scan_value_bool in E.
  destruct (skip_space_split text) as (ws & Hs & Hws). destruct (skip_space_split rest) as (ws' & Hs' & Hws').
  rewrite Hr, append_nil_r in Hs'. subst rest. rewrite Hs, E.
  apply TrimSpace_around; [done..|by destruct b|by destruct b].
Qed.

(** ** Canonical numbers *)

Section canonical.
Context (overflow : float64 -> Z).
Hypothesis overflow_range : forall x, Int64.in_range (overflow x).

Lemma int64_of_range x : Int64.in_range (int64_of overflow x).
Proof. destruct x; simpl; try apply overflow_range; [done|]. by case_decide. Qed.

Lemma ndigits_int64 n : Int64.in_range n -> (n <> 0 -> ndigits (Z.abs n) <= 19)%Z.
Proof.
  unfold Int64.in_range, Int64.min, Int64.max. intros Hn H0.
  destruct (ndigits_bounds (Z.abs n)) as [Hp [Hl _]]; [lia|].
  destruct (Z.le_gt_cases (ndigits (Z.abs n)) 19) as [|Hgt]; [done|]. exfalso.
  pose proof (Z.pow_le_mono_r 10 19 (ndigits (Z.abs n) - 1) ltac:(lia) ltac:(lia)) as Hpow.
  change (10 ^ 19)%Z with 10000000000000000000%Z in Hpow. change (2 ^ 63)%Z with 9223372036854775808%Z in Hn. lia.
Qed.

(** The decimal text of an integer is read as the float nearest to it. *)
Lemma read_int64 n rest y :
  Int64.in_range n -> n <> 0%Z -> Float64.of_Z n = y -> (forall s, y <> S754_infinity s) ->
  read_number (n <? 0)%Z (Z.abs n) 0 rest = Some (y, rest).
Proof.
  intros Hn H0 Hy Hfin. unfold read_number. enough (of_decimal (n <? 0)%Z (Z.abs n) 0 = y) as -> by (by destruct y; [|destruct (Hfin s)| |]).
  pose proof (ndigits_int64 n Hn H0) as Hd. destruct (ndigits_bounds (Z.abs n)) as [Hp _]; [lia|].
  unfold of_decimal. destruct n as [|p|p]; [done|..];
    [change (Z.abs (Zpos p)) with (Zpos p) in *|change (Z.abs (Zneg p)) with (Zpos p) in *].
  all: destruct (Z.ltb_spec 310 (ndigits (Zpos p) + 0)); [lia|]; destruct (Z.ltb_spec (ndigits (Zpos p) + 0) (-330)); [lia|].
  all: rewrite <- Hy; simpl; by rewrite Pos.mul_1_r.
Qed.

Lemma canonicalNumber_legible x : reads_back x = true -> legible (canonicalNumber overflow) x.
Proof.
  intros Hx. unfold legible, canonicalNumber. destruct (SFeqb x _) eqn:E; [|by apply Sprint_float_legible].
  pose proof (int64_of_range x) as Hn. set (n := int64_of overflow x) in *. clearbody n.
  destruct (decide (n = 0%Z)) as [->|H0].
  - exists (S754_zero false). split; [exact E|]. intros rest Hr. by apply (scan_zero false).
  - exists (Float64.of_Z n). split; [done|]. intros rest Hr. rewrite scan_Itoa by done. apply read_int64; [done..|].
    intros s Hs. rewrite Hs in E. destruct x as [|[]| |[]]; try discriminate Hx; by destruct s.
Qed.

Lemma canonicalNumber_equal x y : SFeqb x y = true -> canonicalNumber overflow x = canonicalNumber overflow y.
Proof. intros [->|(s & t & -> & ->)]%SFeqb_cases; [done|]. by destruct s, t. Qed.

Lemma write_canonicalize v : write (canonicalNumber overflow) v = canonicalizeValue overflow v.
Proof. reflexivity. Qed.

(** A document all of whose numbers are read back from their shortest digits. *)
Definition readable (v : json) : bool := all_numbers reads_back v.

Lemma canonicalize_text doc text :
  Unmarshal text = Some doc -> readable doc = true ->
  exists doc', Unmarshal (canonicalizeValue overflow doc) = Some doc' /\ DeepEqual doc doc' = true.
Proof.
  intros [Ht Hd]%Unmarshal_text Hr. rewrite <- write_canonicalize. apply Unmarshal_write; [|done].
  eapply text_value_numbers; [done..|]. apply canonicalNumber_legible.
Qed.

Lemma canonicalize_DeepEqual v w : DeepEqual v w = true -> canonicalizeValue overflow v = canonicalizeValue overflow w.
Proof. intros H. rewrite <- !write_canonicalize. by apply write_DeepEqual; [apply canonicalNumber_equal|]. Qed.

Lemma canonicalize_iff t1 t2 d1 d2 :
  Unmarshal t1 = Some d1 -> Unmarshal t2 = Some d2 -> readable d1 = true -> readable d2 = true ->
  canonicalizeValue overflow d1 = canonicalizeValue overflow d2 <-> DeepEqual d1 d2 = true.
Proof.
  intros H1 H2 Hr1 Hr2. split; [|apply canonicalize_DeepEqual]. intros Heq.
  destruct (canonicalize_text d1 t1 H1 Hr1) as (d & Hd & E1). destruct (canonicalize_text d2 t2 H2 Hr2) as (d' & Hd' & E2).
  rewrite Heq, Hd' in Hd. injection Hd as ->. eapply DeepEqual_trans; [done|]. by apply DeepEqual_sym.
Qed.
End canonical.

(** ** Parsed schemas *)

Section parser.
Context (lib : JsonLib) (overflow : float64 -> Z) (Sum256_hex : string -> string).
Hypothesis overflow_range : forall x, Int64.in_range (overflow x).

(** The canonical text of a parsed schema is that of its document, boolean roots
    included. *)
Lemma Parse_canonical text refs p :
  Parse lib text refs = Ok p ->
  raw p = text /\ exists doc, Unmarshal text = Some doc /\
    CanonicalString lib overflow p = canonicalizeValue overflow doc /\
    rootMap doc = Some (isBooleanSchema p, schemaMap p).
Proof.
  unfold Parse. destruct (Unmarshal text) as [doc|] eqn:E; [|done]. destruct (rootMap doc) as [[b m]|] eqn:Er; [|done].
  destruct (compileSchema lib text refs); [|done]. intros [= <-]. split; [done|]. exists doc. split; [done|]. split; [|done].
  unfold CanonicalString. cbn [isBooleanSchema raw schemaMap].
  destruct doc as [|[]| | | |m']; try discriminate Er; injection Er as <- <-; try by apply Unmarshal_bool in E.
  done.
Qed.

Lemma Normalize_canonical text refs p :
  Parse lib text refs = Ok p -> CanonicalString lib overflow (Normalize lib overflow p) = CanonicalString lib overflow p.
Proof.
  intros H. destruct (Parse_canonical _ _ _ H) as (Hraw & doc & U & C & Hroot). unfold CanonicalString in *.
  destruct p as [t m cp rf b]. cbn [Normalize isBooleanSchema raw schemaMap] in *. destruct b; [|done].
  unfold CanonicalString. cbn [isBooleanSchema raw]. subst t.
  destruct doc as [|b| | | |m']; try (destruct b); try discriminate Hroot; by rewrite (Unmarshal_bool _ _ U).
Qed.

(** Property C30.  Two JSON Schemas that parse have the same canonical text exactly
    when their documents are equal values, however the texts are formatted and
    their members ordered; then they have the same fingerprint. *)
Theorem canonical_identifies_document t1 t2 refs1 refs2 p1 p2 d1 d2 :
  Parse lib t1 refs1 = Ok p1 -> Parse lib t2 refs2 = Ok p2 ->
  Unmarshal t1 = Some d1 -> Unmarshal t2 = Some d2 -> readable d1 = true -> readable d2 = true ->
  (CanonicalString lib overflow p1 = CanonicalString lib overflow p2 <-> DeepEqual d1 d2 = true) /\
  (DeepEqual d1 d2 = true -> Fingerprint lib overflow Sum256_hex p1 = Fingerprint lib overflow Sum256_hex p2).
Proof.
  intros H1 H2 U1 U2 R1 R2.
  destruct (Parse_canonical _ _ _ H1) as (_ & d & Hd & C1 & _). replace d with d1 in * by congruence.
  destruct (Parse_canonical _ _ _ H2) as (_ & d' & Hd' & C2 & _). replace d' with d2 in * by congruence.
  assert (Hiff : CanonicalString lib overflow p1 = CanonicalString lib overflow p2 <-> DeepEqual d1 d2 = true).
  { rewrite C1, C2. by apply (canonicalize_iff overflow overflow_range t1 t2). }
  split; [done|]. intros He%Hiff. unfold Fingerprint. by rewrite He.
Qed.

(** The text of a normalised schema decodes to a document equal to
    the one that was parsed; parsed again, it is refused by the compiler or has
    the same canonical text, so that normalising is idempotent. *)
Theorem Normalize_roundtrip text refs refs' p doc :
  Parse lib text refs = Ok p -> Unmarshal text = Some doc -> readable doc = true ->
  (exists doc', Unmarshal (raw (Normalize lib overflow p)) = Some doc' /\ DeepEqual doc doc' = true) /\
  match compileSchema lib (raw (Normalize lib overflow p)) refs' with
  | Err err => Parse lib (raw (Normalize lib overflow p)) refs' = Err err
  | Ok _ => exists p', Parse lib (raw (Normalize lib overflow p)) refs' = Ok p' /\
      CanonicalString lib overflow p' = raw (Normalize lib overflow p)
  end.
Proof.
  intros H U R. destruct (Parse_canonical _ _ _ H) as (_ & d & Hd & C & Hroot). replace d with doc in * by congruence. clear Hd.
  cbn [Normalize raw]. rewrite C.
  destruct (canonicalize_text overflow overflow_range doc text U R) as (doc' & U' & He).
  split; [by exists doc'|].
  assert (Hroot' : exists bm, rootMap doc' = Some bm).
  { destruct doc as [|[]| | | |m], doc' as [|[]| | | |m']; try discriminate Hroot; try discriminate He; by eexists. }
  destruct Hroot' as [[b m] Hroot']. unfold Parse at 1 2. rewrite U', Hroot'.
  destruct (compileSchema lib _ refs') as [compiled|err] eqn:Ec; [|done]. eexists. split; [done|].
  assert (Hp : Parse lib (canonicalizeValue overflow doc) refs' = Ok (MkParsedJSONSchema (canonicalizeValue overflow doc) m compiled refs' b)).
  { unfold Parse. by rewrite U', Hroot', Ec. }
  destruct (Parse_canonical _ _ _ Hp) as (_ & d' & Hd' & C' & _). rewrite C'. replace d' with doc' by congruence.
  symmetry. by apply canonicalize_DeepEqual.
Qed.
End parser.

(** ** Concrete schemas *)

(** A compiler that takes every resource and every schema. *)
Definition accepting_lib : JsonLib := {|
  Compiler := list (string * string);
  CompiledSchema := list (string * string);
  NewCompiler := [];
  AddResource := fun url text resources => Ok ((url, text) :: resources);
  Compile := fun _ resources => Ok resources;
  syntax_error := fun _ => errors_New "invalid character"
|}.

(** What amd64 does with a number out of range. *)
Definition min_overflow (_ : float64) : Z := Int64.min.

Definition order_text : string :=
  quoted "{'type':'object','properties':{'id':{'type':'integer','minimum':1.0}},'not':false}".
Definition order_text' : string :=
  quoted " { 'not' : false, 'properties': {'id':{'minimum':10e-1,'type':'integer'}}, 'type': 'obj\u0065ct' } ".
Definition order_doc (text : string) : json := from_opt JNull (Unmarshal text).

Definition order_parsed (text : string) : ParsedJSONSchema (CompiledSchema accepting_lib) :=
  MkParsedJSONSchema text (match order_doc text with JObject m => m | _ => ∅ end) [(schemaURL, text)] [] false.

Lemma min_overflow_range x : Int64.in_range (min_overflow x).
Proof. done. Qed.

Lemma canonical_identifies_document_witness :
  CanonicalString accepting_lib min_overflow (order_parsed order_text) =
    quoted "{'not':false,'properties':{'id':{'minimum':1,'type':'integer'}},'type':'object'}" /\
  Fingerprint accepting_lib min_overflow id (order_parsed order_text) =
    Fingerprint accepting_lib min_overflow id (order_parsed order_text').
Proof.
  split; [vm_compute; reflexivity|].
  apply (canonical_identifies_document accepting_lib min_overflow id min_overflow_range order_text order_text' [] []
           (order_parsed order_text) (order_parsed order_text') (order_doc order_text) (order_doc order_text'));
    vm_compute; reflexivity.
Defined.

Lemma Normalize_roundtrip_witness :
  exists doc', Unmarshal (raw (Normalize accepting_lib min_overflow (order_parsed order_text))) = Some doc' /\
    DeepEqual (order_doc order_text) doc' = true.
Proof.
  apply (Normalize_roundtrip accepting_lib min_overflow min_overflow_range order_text [] [] (order_parsed order_text) (order_doc order_text));
    vm_compute; reflexivity.
Defined.

(** A boolean root keeps its text, less the white space around it. *)
Example boolean_root :
  match Parse accepting_lib (" false" ++ bytes [10]) [] with
  | Ok p => (CanonicalString accepting_lib min_overflow p, schemaMap p)
  | Err _ => ("", ∅)
  end = ("false", {[ "not" := JObject ∅ ]}).
Proof. vm_compute. reflexivity. Qed.

(** A number is a float64: neighbouring integers beyond 2^53 are one value, and
    two schemas that differ in them have one fingerprint. *)
Example large_integers_are_one :
  Unmarshal (quoted "{'maximum':9007199254740993}") = Unmarshal (quoted "{'maximum':9007199254740992}").
Proof. vm_compute. reflexivity. Qed.

(** Numbers: integers within the range of [int64] as integers, others by [%g],
    of which 2^63 is one where an overflowing conversion gives the least integer
    and none where it gives the greatest. *)
Example canonical_numbers :
  map (canonicalNumber min_overflow)
    [S754_zero true; Float64.of_Z (-42); of_decimal false 15 (-1); of_decimal false 1 6; of_decimal false 1 21;
     Float64.of_Z (2 ^ 63)] =
  ["0"; "-42"; "1.5"; "1000000"; "1e+21"; "9.223372036854776e+18"] /\
  canonicalNumber (fun _ => Int64.max) (Float64.of_Z (2 ^ 63)) = "9223372036854775807".
Proof. split; vm_compute; reflexivity. Qed.
