(* ===== verification/JsonRegistry.v ===== *)
(** * The registry with its JSON Schema parser

    What the registry relies on of the parser behind the type JSON, and what
    follows for registrations and lookups: they see a schema's document, not how
    its text is formatted. *)
From S2P Require Import Prelude GoStrings GoFloat GoJson JsonValue JsonText StorageTypes MemState StorageIface RegistryRefs ProgLogic Rules JsonParser RegistryConfig RegistryMeta RegistrySchemas RegistryOps Compat.
From Stdlib Require Import Ascii String.

Local Open Scope string_scope.

(** ** Programs that agree *)

Section agree.

(** The two programs make the same calls and end in results that [R] relates. *)
Definition agree_at {St} `{Storage St} {A B} (R : A -> B -> Prop) (p : prog A) (q : prog B) ρ (s : St) : Prop :=
  R (fst (run p ρ s)) (fst (run q ρ s)) /\ snd (run p ρ s) = snd (run q ρ s) /\ used p ρ s = used q ρ s.

Definition agree {A B} (R : A -> B -> Prop) (p : prog A) (q : prog B) : Prop :=
  forall St (HS : Storage St) ρ (s : St), agree_at R p q ρ s.

Lemma used_bind {St A B} `{Storage St} (p : prog A) (f : A -> prog B) : forall ρ s,
  used (bind p f) ρ s =
  (used p ρ s + used (f (fst (run p ρ s))) (fun i => ρ (used p ρ s + i)%nat) (snd (run p ρ s)))%nat.
Proof.
  induction p as [a|C c k IH|k IH]; intros ρ s; simpl; [done| |].
  - destruct (handle _ c s) as [b s']. by rewrite IH.
  - by rewrite IH.
Qed.

Lemma agree_ret {A B} (R : A -> B -> Prop) a b : R a b -> agree R (Ret a) (Ret b).
Proof. by intros ? St HS ρ s. Qed.

Lemma agree_refl {A} (p : prog A) : agree eq p p.
Proof. by intros St HS ρ s. Qed.

(** The first programs at one state, what comes after at every one. *)
Lemma agree_bind_at {St} {HS : Storage St} {A A' B B'} (R : A -> A' -> Prop) (S : B -> B' -> Prop) p p'
    (f : A -> prog B) (f' : A' -> prog B') ρ (s : St) :
  agree_at R p p' ρ s -> (forall a a', R a a' -> agree S (f a) (f' a')) -> agree_at S (bind p f) (bind p' f') ρ s.
Proof.
  intros (HR & Hs & Hu) Hf. unfold agree_at. rewrite !used_bind, !run_bind, <- Hs, <- Hu.
  destruct (run p ρ s) as [a s1], (run p' ρ s) as [a' s1']. simpl in *. subst s1'.
  destruct (Hf a a' HR St HS (fun i => ρ (used p ρ s + i)%nat) s1) as (? & ? & ->). auto.
Qed.

Lemma agree_bind {A A' B B'} (R : A -> A' -> Prop) (S : B -> B' -> Prop) p p' (f : A -> prog B) (f' : A' -> prog B') :
  agree R p p' -> (forall a a', R a a' -> agree S (f a) (f' a')) -> agree S (bind p f) (bind p' f').
Proof. intros Hp Hf St HS ρ s. eapply agree_bind_at; [apply Hp|exact Hf]. Qed.

Lemma agree_bind_eq {A B} (p : prog A) (f g : A -> prog B) R :
  (forall a, agree R (f a) (g a)) -> agree R (bind p f) (bind p g).
Proof. intros Hf. apply (agree_bind eq); [apply agree_refl|]. by intros a ? <-. Qed.

Lemma agree_bind_fuel_at {St} {HS : Storage St} {A B} (R : A -> A -> Prop) (p p' : prog (option A))
    (f f' : A -> prog (option B)) ρ (s : St) :
  agree_at (option_Forall2 R) p p' ρ s -> (forall a a', R a a' -> agree eq (f a) (f' a')) ->
  agree_at eq (bind_fuel p f) (bind_fuel p' f') ρ s.
Proof. intros Hp Hf. eapply agree_bind_at; [exact Hp|]. intros ? ? []; [by apply Hf|by apply agree_ret]. Qed.

(** A first program the two have in common: what it returns is known. *)
Lemma agree_after {St} {HS : Storage St} {A B B'} (S : B -> B' -> Prop) (p : prog A) (f : A -> prog B) (f' : A -> prog B') ρ (s : St) :
  agree S (f (fst (run p ρ s))) (f' (fst (run p ρ s))) -> agree_at S (bind p f) (bind p f') ρ s.
Proof.
  intros Hf. apply (agree_bind_at (fun a a' => a = fst (run p ρ s) /\ a' = fst (run p ρ s))); [done|]. by intros ? ? [-> ->].
Qed.

Lemma agree_run {St A} {HS : Storage St} (p q : prog A) ρ s : agree_at eq p q ρ s -> run p ρ s = run q ρ s.
Proof. intros (H1 & H2 & _). destruct (run p ρ s), (run q ρ s). simpl in *. by subst. Qed.
End agree.

Ltac agrees :=
  repeat first
    [ apply agree_refl
    | apply agree_bind_eq; intros ?
    | match goal with
      | |- agree _ (if decide ?P then _ else _) _ => destruct (decide P)
      | |- agree _ (if ?b then _ else _) _ => destruct b
      | |- agree _ (match ?x with _ => _ end) _ => destruct x
      end ].

(** ** What the registry sees of a parsed schema *)

(** Two parsed schemas the registry cannot tell apart. *)
Record alike (r : Registry) (p q : parsed r) : Prop := {
  alike_canonical : CanonicalString r p = CanonicalString r q;
  alike_fingerprint : ParsedFingerprint r p = ParsedFingerprint r q;
  alike_field : forall field, HasTopLevelField r p field = HasTopLevelField r q field
}.

Section alike.
Context (r : Registry) (fuel : nat) (c subject ty : string) (refs : list Reference).

Lemma alike_globalFingerprint p q : alike r p q -> globalFingerprint r p refs = globalFingerprint r q refs.
Proof. intros H. unfold globalFingerprint. by rewrite (alike_fingerprint _ _ _ H). Qed.

Lemma agree_checkReserved p q meta :
  alike r p q -> agree eq (checkReserved r c subject p meta) (checkReserved r c subject q meta).
Proof.
  intros H. unfold checkReserved. apply agree_bind_eq. intros enabled. destruct (negb enabled); [apply agree_refl|].
  apply (agree_bind eq); [|intros msgs ? <-; apply agree_refl].
  unfold validateReservedFields. apply agree_bind_eq. intros latest St HS ρ s. unfold agree_at. simpl. split; [|done]. f_equal.
  apply list_omap_ext. apply Forall2_same_length_lookup_2; [done|]. intros i [field b] [field' b'] -> [= <- <-].
  by rewrite (alike_field _ _ _ H).
Qed.

Lemma agree_registerParsed p q schemaStr resolvedRefs opt :
  alike r p q ->
  agree eq (registerParsed r fuel c subject schemaStr ty refs resolvedRefs p opt)
           (registerParsed r fuel c subject schemaStr ty refs resolvedRefs q opt).
Proof.
  intros H. unfold registerParsed. rewrite (alike_globalFingerprint p q H). apply agree_bind_eq. intros existing.
  match goal with |- agree _ (match existing with Ok _ => if _ then _ else ?x | Err _ => _ end)
                            (match existing with Ok _ => if _ then _ else ?y | Err _ => _ end) =>
    assert (Hp : agree eq x y); [|destruct existing; [destruct (_ && _ && _); [apply agree_refl|done]|done]] end.
  apply agree_bind_eq. intros [[|]|]; [|apply agree_refl..].
  apply (agree_bind eq); [by apply agree_checkReserved|]. intros reserved ? <-. apply agree_refl.
Qed.
End alike.

(** ** The parser behind the type JSON *)

(** What the registry relies on of the parser it has for the type JSON: it is
    the parser of internal/schema/jsonschema, seen through the interface. *)
Class JsonParserIn (r : Registry) (lib : JsonLib) (overflow : float64 -> Z) := {
  inject : ParsedJSONSchema (CompiledSchema lib) -> parsed r;
  json_parse : string -> list Reference -> result (parsed r);
  json_parser : schemaParser r !! SchemaTypeJSON = Some json_parse;
  json_parse_Ok text refs p : JsonParser.Parse lib text refs = Ok p -> json_parse text refs = Ok (inject p);
  json_parse_Err text refs err : JsonParser.Parse lib text refs = Err err -> json_parse text refs = Err err;
  json_canonical p : CanonicalString r (inject p) = JsonParser.CanonicalString lib overflow p;
  json_fingerprint p : ParsedFingerprint r (inject p) = JsonParser.Fingerprint lib overflow (sha256_hex r) p;
  json_normalize p : NormalizeParsed r (inject p) = inject (JsonParser.Normalize lib overflow p);
  json_field p field : HasTopLevelField r (inject p) field = JsonParser.HasTopLevelField lib p field
}.

(** A registry with this parser only. *)
Definition json_registry (lib : JsonLib) (overflow : float64 -> Z) (sha : string -> string) (check : SchemaChecker)
    (level : string) : Registry := {|
  parsed := ParsedJSONSchema (CompiledSchema lib);
  CanonicalString := JsonParser.CanonicalString lib overflow;
  ParsedFingerprint := JsonParser.Fingerprint lib overflow sha;
  FormattedString := JsonParser.FormattedString lib overflow;
  NormalizeParsed := JsonParser.Normalize lib overflow;
  HasTopLevelField := JsonParser.HasTopLevelField lib;
  schemaParser := {[ SchemaTypeJSON := JsonParser.Parse lib ]};
  compatChecker := {[ SchemaTypeJSON := check ]};
  defaultConfig := level;
  sha256_hex := sha
|}.

#[export] Instance json_registry_parser lib overflow sha check level :
  JsonParserIn (json_registry lib overflow sha check level) lib overflow.
Proof.
  by refine {| inject := fun p => p : parsed (json_registry lib overflow sha check level); json_parse := JsonParser.Parse lib |}.
Defined.

(** Both texts parse with these references, or both are refused with one error. *)
Definition same_verdict (lib : JsonLib) (t1 t2 : string) (resolved : list Reference) : Prop :=
  match JsonParser.Parse lib t1 resolved, JsonParser.Parse lib t2 resolved with
  | Ok _, Ok _ => True
  | Err e1, Err e2 => e1 = e2
  | _, _ => False
  end.

Section registry.
Context {St : Type} {HS : Storage St} (ρ : nat -> env) (s : St).
Context (r : Registry) (lib : JsonLib) (overflow : float64 -> Z) `{!JsonParserIn r lib overflow}.
Context (t1 t2 : string) (d1 d2 : json).
Hypothesis decodes1 : Unmarshal t1 = Some d1.
Hypothesis decodes2 : Unmarshal t2 = Some d2.
Hypothesis same : DeepEqual d1 d2 = true.
Context (fuel : nat) (c : string) (refs : list Reference).
Hypothesis verdict : forall resolved,
  fst (run (resolveReferences fuel c refs) ρ s) = Some (Ok resolved) -> same_verdict lib t1 t2 resolved.

Lemma same_field res res' p q field :
  JsonParser.Parse lib t1 res = Ok p -> JsonParser.Parse lib t2 res' = Ok q ->
  JsonParser.HasTopLevelField lib p field = JsonParser.HasTopLevelField lib q field.
Proof.
  intros Hp Hq. destruct (Parse_canonical lib overflow _ _ _ Hp) as (_ & d & Hd & _ & Hrp). replace d with d1 in * by congruence.
  destruct (Parse_canonical lib overflow _ _ _ Hq) as (_ & d' & Hd' & _ & Hrq). replace d' with d2 in * by congruence.
  unfold JsonParser.HasTopLevelField. destruct p as [t m cp rf b], q as [t' m' cp' rf' b']. cbn [schemaMap isBooleanSchema] in *.
  pose proof same as He. destruct d1 as [|[]| | | |n], d2 as [|[]| | | |n']; try discriminate Hrp; try discriminate He.
  - injection Hrp as <- <-. injection Hrq as <- <-. done.
  - injection Hrp as <- <-. injection Hrq as <- <-. done.
  - injection Hrp as <- <-. injection Hrq as <- <-. rewrite DeepEqual_lookup in He. specialize (He "properties").
    destruct (n !! "properties") as [v|]; inversion He as [? w Hvw|]; subst; [|done].
    destruct v as [| | | | |props], w as [| | | | |props']; try discriminate Hvw; try done.
    rewrite DeepEqual_lookup in Hvw. specialize (Hvw field). apply bool_decide_ext.
    destruct (props !! field); inversion Hvw; subst; split; intros; eauto.
Qed.

Lemma same_alike res res' p q :
  JsonParser.Parse lib t1 res = Ok p -> JsonParser.Parse lib t2 res' = Ok q ->
  alike r (inject p) (inject q) /\ alike r (NormalizeParsed r (inject p)) (NormalizeParsed r (inject q)).
Proof.
  intros Hp Hq. pose proof (fun f => same_field _ _ _ _ f Hp Hq) as Hf.
  destruct (Parse_canonical lib overflow _ _ _ Hp) as (_ & d & Hd & Cp & Rp). replace d with d1 in * by congruence.
  destruct (Parse_canonical lib overflow _ _ _ Hq) as (_ & d' & Hd' & Cq & Rq). replace d' with d2 in * by congruence.
  assert (HC : JsonParser.CanonicalString lib overflow p = JsonParser.CanonicalString lib overflow q).
  { rewrite Cp, Cq. by apply canonicalize_DeepEqual. }
  split; constructor; rewrite ?json_normalize, ?json_canonical, ?json_fingerprint; unfold JsonParser.Fingerprint;
    rewrite ?(Normalize_canonical lib overflow _ _ _ Hp), ?(Normalize_canonical lib overflow _ _ _ Hq), ?HC;
    try done; intros field; rewrite !json_field; apply Hf.
Qed.

(** Parsing makes the same calls, and gives schemas that look alike. *)
Lemma agree_parseSchema :
  agree_at (option_Forall2 (fun a b =>
      match a, b with
      | Ok (refs1, p), Ok (refs2, q) =>
          refs1 = refs2 /\ alike r p q /\ alike r (NormalizeParsed r p) (NormalizeParsed r q)
      | Err e1, Err e2 => e1 = e2
      | _, _ => False
      end))
    (parseSchema r fuel c t1 SchemaTypeJSON refs) (parseSchema r fuel c t2 SchemaTypeJSON refs) ρ s.
Proof.
  unfold parseSchema. rewrite json_parser. apply agree_after. cbv beta.
  destruct (fst (run (resolveReferences fuel c refs) ρ s)) as [[resolved|err]|] eqn:E;
    [|by apply agree_ret; constructor|apply agree_ret; constructor].
  pose proof (verdict resolved eq_refl) as Hv. unfold same_verdict in Hv.
  destruct (JsonParser.Parse lib t1 resolved) as [p|e1] eqn:Hp, (JsonParser.Parse lib t2 resolved) as [q|e2] eqn:Hq; try done.
  - rewrite (json_parse_Ok _ _ _ Hp), (json_parse_Ok _ _ _ Hq). apply agree_ret. constructor.
    destruct (same_alike _ _ _ _ Hp Hq). auto.
  - rewrite (json_parse_Err _ _ _ Hp), (json_parse_Err _ _ _ Hq), Hv. apply agree_ret. by constructor.
Qed.

Lemma agree_LookupSchema subject deleted normalize :
  agree_at eq (LookupSchema r fuel c subject t1 SchemaTypeJSON refs deleted normalize)
           (LookupSchema r fuel c subject t2 SchemaTypeJSON refs deleted normalize) ρ s.
Proof.
  unfold LookupSchema. eapply agree_bind_fuel_at; [apply agree_parseSchema|].
  intros [[refs1 p]|e1] [[refs2 q]|e2]; try done; [|intros <-; apply agree_refl]. intros (<- & Ha & Hn).
  apply agree_bind_eq. intros norm. destruct norm.
  - rewrite (alike_globalFingerprint r refs _ _ Hn). apply agree_refl.
  - rewrite (alike_globalFingerprint r refs _ _ Ha). apply agree_refl.
Qed.

Lemma agree_RegisterSchema subject opt :
  OptNormalize opt = true ->
  agree_at eq (RegisterSchema r fuel c subject t1 SchemaTypeJSON refs (Some opt))
           (RegisterSchema r fuel c subject t2 SchemaTypeJSON refs (Some opt)) ρ s.
Proof.
  intros Hopt. unfold RegisterSchema. eapply agree_bind_fuel_at; [apply agree_parseSchema|].
  intros [[refs1 p]|e1] [[refs2 q]|e2]; try done; [|intros <-; apply agree_refl]. intros (<- & _ & Hn).
  cbn [from_opt]. destruct (ValidateRuleSet _); [apply agree_refl|]. rewrite Hopt. cbn [bind].
  rewrite (alike_canonical _ _ _ Hn). by apply agree_registerParsed.
Qed.

Lemma agree_CheckCompatibility subject version :
  agree_at eq (CheckCompatibility r fuel c subject t1 SchemaTypeJSON refs version true)
           (CheckCompatibility r fuel c subject t2 SchemaTypeJSON refs version true) ρ s.
Proof.
  unfold CheckCompatibility. eapply agree_bind_fuel_at; [apply agree_parseSchema|].
  intros [[refs1 p]|e1] [[refs2 q]|e2]; try done; [|intros <-; apply agree_refl]. intros (<- & _ & Hn).
  cbn [bind]. rewrite (alike_canonical _ _ _ Hn). apply agree_refl.
Qed.
End registry.

(** Property C31.  For two JSON Schema texts with equal documents, however they are
    formatted, a lookup gives the same record; with normalisation asked for, a
    registration and a compatibility check of one do exactly what those of the
    other do, to the result and to the store - provided that the compiler, which
    is given the texts, answers the two alike with the references the store
    resolves for the call: it takes both, or refuses both with one error. *)
Theorem formatting_is_irrelevant {St} `{Storage St} r lib overflow `{!JsonParserIn r lib overflow} t1 t2 d1 d2 fuel c subject refs
    deleted normalize opt version ρ (s : St) :
  Unmarshal t1 = Some d1 -> Unmarshal t2 = Some d2 -> DeepEqual d1 d2 = true ->
  (forall resolved, fst (run (resolveReferences fuel c refs) ρ s) = Some (Ok resolved) -> same_verdict lib t1 t2 resolved) ->
  OptNormalize opt = true ->
  run (LookupSchema r fuel c subject t1 SchemaTypeJSON refs deleted normalize) ρ s =
    run (LookupSchema r fuel c subject t2 SchemaTypeJSON refs deleted normalize) ρ s /\
  run (RegisterSchema r fuel c subject t1 SchemaTypeJSON refs (Some opt)) ρ s =
    run (RegisterSchema r fuel c subject t2 SchemaTypeJSON refs (Some opt)) ρ s /\
  run (CheckCompatibility r fuel c subject t1 SchemaTypeJSON refs version true) ρ s =
    run (CheckCompatibility r fuel c subject t2 SchemaTypeJSON refs version true) ρ s.
Proof.
  intros U1 U2 He Hv Hopt. split_and!; apply agree_run.
  - by eapply agree_LookupSchema.
  - by eapply agree_RegisterSchema.
  - by eapply agree_CheckCompatibility.
Qed.

(** A compiler that refuses a resource that is no JSON text. *)
Definition json_lib : JsonLib := {|
  Compiler := list (string * json);
  CompiledSchema := list (string * json);
  NewCompiler := [];
  AddResource := fun url text resources =>
    match Unmarshal text with Some doc => Ok ((url, doc) :: resources) | None => Err (errors_New "invalid character") end;
  Compile := fun _ resources => Ok resources;
  syntax_error := fun _ => errors_New "invalid character"
|}.

Definition order_registry : Registry :=
  json_registry json_lib min_overflow id (fun _ _ => NewCompatibleResult) "BACKWARD".

Lemma formatting_is_irrelevant_witness :
  run (RegisterSchema order_registry 3 "." "orders" order_text SchemaTypeJSON [] (Some (MkRegisterOpts true None None)))
      (fun _ => env0) NewStore =
  run (RegisterSchema order_registry 3 "." "orders" order_text' SchemaTypeJSON [] (Some (MkRegisterOpts true None None)))
      (fun _ => env0) NewStore.
Proof.
  apply (formatting_is_irrelevant order_registry json_lib min_overflow order_text order_text' (order_doc order_text)
           (order_doc order_text') 3 "." "orders" [] false false (MkRegisterOpts true None None) "" (fun _ => env0) NewStore).
  - vm_compute. reflexivity.
  - vm_compute. reflexivity.
  - vm_compute. reflexivity.
  - intros resolved E. vm_compute in E. injection E as <-. vm_compute. exact I.
  - reflexivity.
Defined.

(** A reference to a text that is no JSON: both registrations are refused, alike. *)
Example broken_reference :
  same_verdict json_lib order_text order_text' [MkReference "address.json" "address" 1 "{"] /\
  ~ exists p, JsonParser.Parse json_lib order_text [MkReference "address.json" "address" 1 "{"] = Ok p.
Proof. split; [vm_compute; reflexivity|]. intros [p E]. vm_compute in E. discriminate E. Qed.

(** Without normalisation the second text is found as the first, not stored. *)
Example reformatted_is_duplicate :
  let reg text s := run (RegisterSchema order_registry 3 "." "orders" text SchemaTypeJSON [] None) (fun _ => env0) s in
  let '(first, s1) := reg order_text NewStore in
  let '(second, s2) := reg order_text' s1 in
  match first, second with
  | Some (Ok a), Some (Ok b) => (ID a, Version a, Schema b) = (ID b, Version b, order_text)
  | _, _ => False
  end.
Proof. vm_compute. reflexivity. Qed.
