(* ===== verification/Http.v ===== *)
(** * HTTP requests and responses (internal/api/types, internal/api/handlers/handlers.go)

    A request is what the handlers read of it; a response its status and the value
    that is written as JSON.  Decoding a request body is encoding/json's work: a
    handler takes the decoded body, [None] where decoding fails. *)
From S2P Require Import Prelude GoStrings GoFloat StorageTypes HttpCodes.
From S2P Require RegContext.
From Stdlib Require Import Ascii String.

Local Open Scope string_scope.
Local Open Scope Z_scope.

(** ** Bodies *)

(** [types.ResolvedReference]: a reference with its content; [None] where the
    version was not found. *)
Record ResolvedReference := MkResolvedReference {
  RRName : string;
  RRSubject : string;
  RRVersion : Z;
  RRSchema : option string
}.

Inductive ReferenceList :=
  | Plain (refs : list Reference)
  | Resolved (refs : list ResolvedReference).

Record SchemaListItem := MkSchemaListItem {
  ItemSubject : string;
  ItemVersion : Z;
  ItemID : Z;
  ItemSchemaType : string;
  ItemSchema : string;
  ItemReferences : list Reference
}.

(** A [map[string]any] and the values in it. *)
Inductive Any :=
  | ANull
  | AString (s : string)
  | AInt (n : Z)
  | ABool (b : bool)
  | AFloat (x : float64)
  | AStrings (l : list string)
  | ACounts (m : gmap string Z)
  | AList (l : list Any)
  | AMap (entries : list (string * Any)).

Inductive Body :=
  | ErrorResponse (code : Z) (message : string)
  | SchemaByIDResponse (schema schemaType : string) (references : ReferenceList)
      (metadata : option Metadata) (ruleSet : option RuleSet) (maxId : option Z)
  | SubjectVersionResponse (subject : string) (id version : Z) (schemaType schema : string)
      (references : ReferenceList) (metadata : option Metadata) (ruleSet : option RuleSet)
  | RegisterSchemaResponse (id : Z)
  | CompatibilityCheckResponse (compatible : bool) (messages : list string)
  | ConfigResponse (config : ConfigRecord)
  | ConfigRequest (config : ConfigRecord)     (* with the key compatibility for the level *)
  | ModeResponse (mode : string)
  | MetadataResponse (metadata : Metadata)
  | SchemaListResponse (items : list SchemaListItem)
  | ImportSchemasResponse (imported errors : Z) (results : list (Z * string * Z * bool * string)) (warning : option string)
  | SubjectVersionPairs (pairs : list (string * Z))
  | KEKResponse (name kmsType kmsKeyId : string) (kmsProps : option (gmap string string)) (doc : string) (shared : bool)
      (ts : Z) (deleted : bool)
  | DEKResponse (kekName subject : string) (version : Z) (algorithm encryptedKeyMaterial keyMaterial : string)
      (ts : Z) (deleted : bool)
  | ExporterNameResponse (name : string)
  | ExporterResponse (name contextType context : string) (subjects : list string) (subjectRenameFormat : string)
      (config : option (gmap string string))
  | ExporterStatusResponse (name state : string) (offset ts : Z) (trace : string)
  | StringMap (m : gmap string string)
  | AnyMap (entries : list (string * Any))
  | Names (l : list string)
  | Numbers (l : list Z)
  | Number (n : Z)
  | RawText (text : string)
  | NoBody.

Record Response := MkResponse { Status : Z; ResponseBody : Body }.

Definition writeJSON (status : Z) (data : Body) : Response := MkResponse status data.
Definition writeError (status code : Z) (message : string) : Response := MkResponse status (ErrorResponse code message).

(** The error is logged, not sent. *)
Definition writeInternalError (err : error) : Response :=
  writeError 500 ErrorCodeInternalServerError "Internal server error".

(** A panic in a handler, which the Recoverer middleware answers. *)
Definition recovered : Response := MkResponse 500 NoBody.

(** The response of [rejectGlobalContext]. *)
Definition globalContextRejected : Response :=
  writeError 400 ErrorCodeOperationNotPermitted
    ("Subject operations are not permitted on the " ++ RegContext.GlobalContext ++ " context").

(** ** Requests *)

Record Request := MkRequest {
  RequestContext : RegContext.request_ctx;   (* what the context middleware set *)
  URLParam : string -> string;               (* [chi.URLParam] *)
  Query : string -> list string              (* [r.URL.Query()] *)
}.

(** [url.Values.Get] *)
Definition QueryGet (r : Request) (key : string) : string := from_opt "" (head (Query r key)).

Definition query_true (r : Request) (key : string) : bool := bool_decide (QueryGet r key = "true").

Definition getRegistryContext (r : Request) : string := RegContext.RegistryContextFromRequest (RequestContext r).

Definition requestSubject (r : Request) : string * string :=
  RegContext.resolveSubjectAndContext (RequestContext r) (URLParam r "subject").

(** ** Numbers in a query *)

(** The value [strconv.Atoi] returns next to an error: 0 for bad syntax, the
    nearest bound for a number out of range. *)
Fixpoint parse_uint (n : Z) (s : string) : Z :=
  match s with
  | EmptyString => n
  | String c s =>
      let d := Z.of_nat (nat_of_ascii c) - 48 in
      if (d <? 0) || (9 <? d) then 0
      else if 2 ^ 64 <=? 10 * n + d then 2 ^ 64 - 1
      else parse_uint (10 * n + d) s
  end.

Definition Atoi_value (s : string) : Z :=
  match s with
  | String "-" s => Z.max (- 2 ^ 63) (- parse_uint 0 s)
  | String "+" s => Z.min (2 ^ 63 - 1) (parse_uint 0 s)
  | _ => Z.min (2 ^ 63 - 1) (parse_uint 0 s)
  end.

(** [l[start:end]]; [None] is the panic of bounds out of range. *)
Definition slice {A} (l : list A) (first last : Z) : option (list A) :=
  if (0 <=? first) && (first <=? last) && (last <=? Z.of_nat (List.length l))
  then Some (take (Z.to_nat (last - first)) (drop (Z.to_nat first) l))
  else None.

(** A number of a query that [parsePagination] takes: there, readable and not
    negative. *)
Definition pageNumber (r : Request) (key : string) : option Z :=
  if decide (QueryGet r key = "") then None
  else match Atoi (QueryGet r key) with
       | Some n => if 0 <=? n then Some n else None
       | None => None
       end.

(** The window of a list of [total] elements that a request asks for. *)
Definition parsePagination (r : Request) (total : Z) : Z * Z :=
  let start := from_opt 0 (pageNumber r "offset") in
  let last := match pageNumber r "limit" with Some l => Int64.wrap (start + l) | None => total end in
  let start := if total <? start then total else start in
  let last := if total <? last then total else last in
  (start, last).

(** [strings.EqualFold(s, t)] for a [t] of ASCII letters other than K: the long s
    (U+017F) is the only other character that folds to one of them. *)
Fixpoint fold_upper (s : string) : string :=
  match s with
  | EmptyString => EmptyString
  | String c (String d s' as t) =>
      if Ascii.eqb c "197" && Ascii.eqb d "191" then String "S" (fold_upper s')
      else String (upper_byte c) (fold_upper t)
  | String c EmptyString => String (upper_byte c) EmptyString
  end.
Definition EqualFold (s t : string) : bool := bool_decide (fold_upper s = fold_upper t).

(** ** Pieces of responses *)

Definition schemaTypeForResponse (st : string) : string := if decide (st = "") then SchemaTypeAvro else st.

(** A copy of the metadata with its confluent:version. *)
Definition withConfluentVersion (meta : option Metadata) (version : Z) : option Metadata :=
  if version <=? 0 then meta
  else
    let m := from_opt no_Metadata meta in
    Some {| m with Properties := Some (<["confluent:version" := Itoa version]> (from_opt ∅ (Properties m))) |}.

Definition configToResponse (config : ConfigRecord) : Body := ConfigResponse config.

(** GET of one version, and a lookup. *)
Definition versionResponse (schema : SchemaRecord) (text : string) (references : ReferenceList) : Response :=
  writeJSON 200 (SubjectVersionResponse (Subject schema) (ID schema) (Version schema)
    (schemaTypeForResponse (SchemaType schema)) text references
    (withConfluentVersion (SchemaMetadata schema) (Version schema)) (SchemaRuleSet schema)).
