(* ===== verification/HandlersRead.v ===== *)
(** * The handlers that read (internal/api/handlers/handlers.go)

    One definition per GET handler, and for the lookup and the compatibility check,
    over the registry's operations.  What a handler reads for its audit record
    only, and metrics, is left out. *)
From S2P Require Import Prelude GoStrings StorageTypes StorageIface RegistryRefs RegistryConfig RegistrySchemas Compat RegistryOps HttpCodes Http.
From S2P Require RegContext.
From Stdlib Require Import Ascii String.

Local Open Scope prog_scope.
Local Open Scope string_scope.

Section handlers.
Context (reg : Registry) (fuel : nat).
Implicit Types r : Request.

(** [h.resolveReferenceSchemasForResponse] *)
Fixpoint resolveReferenceSchemasForResponse (registryCtx : string) (refs : list Reference) : prog (list ResolvedReference) :=
  match refs with
  | [] => Ret []
  | ref :: refs =>
      let! schemaRecord := invoke (CGetSchemaBySubjectVersion registryCtx (RefSubject ref) (RefVersion ref)) in
      let! rest := resolveReferenceSchemasForResponse registryCtx refs in
      Ret (MkResolvedReference (RefName ref) (RefSubject ref) (RefVersion ref)
             (match schemaRecord with Ok s => Some (Schema s) | Err _ => None end) :: rest)
  end.

(** The references of a response, resolved when the request asks for it. *)
Definition responseReferences r (registryCtx : string) (schema : SchemaRecord) : prog ReferenceList :=
  if EqualFold (QueryGet r "referenceFormat") "RESOLVED" && negb (bool_decide (References schema = [])) then
    let! resolved := resolveReferenceSchemasForResponse registryCtx (References schema) in
    Ret (Resolved resolved)
  else Ret (Plain (References schema)).

Definition formatted r (registryCtx : string) (schema : SchemaRecord) : prog string :=
  FormatSchema reg registryCtx schema (QueryGet r "format").

(** ** Schemas by ID *)

Definition invalidSchemaID : Response := writeError 400 ErrorCodeInvalidSchema "Invalid schema ID".

(** The answer to an error of a lookup by ID. *)
Definition schemaError (err : error) : Response :=
  if errors_Is err ErrSchemaNotFound then writeError 404 ErrorCodeSchemaNotFound "Schema not found"
  else writeInternalError err.

(** An assignment to the record [GetSchemaByID] returned, which a backend may
    share with its callers: the ID, and the new metadata and rules. *)
Record SharedWrite := MkSharedWrite {
  WrittenID : Z;
  WrittenMetadata : option Metadata;
  WrittenRuleSet : option RuleSet
}.

(** The metadata and rules of the first version of [subject] that has the ID. *)
Definition subjectMetadata (registryCtx subject : string) (id : Z) : prog (option SharedWrite) :=
  let! svs := invoke (CGetVersionsBySchemaID registryCtx id true) in
  match List.find (fun sv => bool_decide (SVSubject sv = subject)) (match svs with Ok l => l | Err _ => [] end) with
  | None => Ret None
  | Some sv =>
      let! full := invoke (CGetSchemaBySubjectVersion registryCtx subject (SVVersion sv)) in
      Ret (match full with
           | Ok full => Some (MkSharedWrite id (SchemaMetadata full) (SchemaRuleSet full))
           | Err _ => None
           end)
  end.

Definition maxId r (registryCtx : string) : prog (option Z) :=
  if query_true r "fetchMaxId" then
    let! maxID := invoke (CGetMaxSchemaID registryCtx) in
    Ret (match maxID with Ok n => Some n | Err _ => None end)
  else Ret None.

(** GET /schemas/ids/{id}, and the assignment it makes through the pointer the
    storage gave it. *)
Definition GetSchemaByID r : prog (Response * option SharedWrite) :=
  let registryCtx := getRegistryContext r in
  if RegContext.rejectGlobalContext registryCtx then Ret (globalContextRejected, None)
  else
    match Atoi (URLParam r "id") with
    | None => Ret (invalidSchemaID, None)
    | Some id =>
        let! schema := invoke (CGetSchemaByID registryCtx id) in
        match schema with
        | Err err => Ret (schemaError err, None)
        | Ok schema =>
            let subject := QueryGet r "subject" in
            let! write := (if decide (subject = "") then Ret None else subjectMetadata registryCtx subject id) in
            let schema :=
              match write with
              | Some w => {| schema with SchemaMetadata := WrittenMetadata w; SchemaRuleSet := WrittenRuleSet w |}
              | None => schema
              end in
            let! schemaStr := formatted r registryCtx schema in
            let! references := responseReferences r registryCtx schema in
            let! maxID := maxId r registryCtx in
            Ret (writeJSON 200 (SchemaByIDResponse schemaStr (schemaTypeForResponse (SchemaType schema)) references
                                  (SchemaMetadata schema) (SchemaRuleSet schema) maxID), write)
        end
    end.

(** GET /schemas/ids/{id}/schema *)
Definition GetRawSchemaByID r : prog Response :=
  let registryCtx := getRegistryContext r in
  if RegContext.rejectGlobalContext registryCtx then Ret globalContextRejected
  else
    match Atoi (URLParam r "id") with
    | None => Ret invalidSchemaID
    | Some id =>
        let! schema := invoke (CGetSchemaByID registryCtx id) in
        match schema with
        | Err err => Ret (schemaError err)
        | Ok schema => let! result := formatted r registryCtx schema in Ret (MkResponse 200 (RawText result))
        end
    end.

(** A page of a list that is not filtered by subject. *)
Definition page {A} r (wrap : list A -> Body) (l : list A) : Response :=
  let '(first, last) := parsePagination r (Z.of_nat (List.length l)) in
  match slice l first last with Some l => writeJSON 200 (wrap l) | None => recovered end.

(** GET /schemas/ids/{id}/subjects *)
Definition GetSubjectsBySchemaID r : prog Response :=
  let registryCtx := getRegistryContext r in
  if RegContext.rejectGlobalContext registryCtx then Ret globalContextRejected
  else
    match Atoi (URLParam r "id") with
    | None => Ret invalidSchemaID
    | Some id =>
        let! subjects := invoke (CGetSubjectsBySchemaID registryCtx id (query_true r "deleted")) in
        match subjects with
        | Err err => Ret (schemaError err)
        | Ok subjects =>
            let subjectFilter := QueryGet r "subject" in
            Ret (if decide (subjectFilter = "") then page r Names subjects
                 else writeJSON 200 (Names (List.filter (fun s => bool_decide (s = subjectFilter)) subjects)))
        end
    end.

(** GET /schemas/ids/{id}/versions *)
Definition GetVersionsBySchemaID r : prog Response :=
  let registryCtx := getRegistryContext r in
  if RegContext.rejectGlobalContext registryCtx then Ret globalContextRejected
  else
    match Atoi (URLParam r "id") with
    | None => Ret invalidSchemaID
    | Some id =>
        let! versions := invoke (CGetVersionsBySchemaID registryCtx id (query_true r "deleted")) in
        match versions with
        | Err err => Ret (schemaError err)
        | Ok versions =>
            let subjectFilter := QueryGet r "subject" in
            let result := List.filter (fun sv => bool_decide (subjectFilter = "") || bool_decide (SVSubject sv = subjectFilter)) versions in
            Ret (page r SubjectVersionPairs (map (fun sv => (SVSubject sv, SVVersion sv)) result))
        end
    end.

(** GET /schemas *)
Definition ListSchemas r : prog Response :=
  let registryCtx := getRegistryContext r in
  if RegContext.rejectGlobalContext registryCtx then Ret globalContextRejected
  else
    let params := MkListSchemasParams (QueryGet r "subjectPrefix") (query_true r "deleted") (query_true r "latestOnly")
                    (from_opt 0%Z (Atoi (QueryGet r "offset"))) (from_opt 0%Z (Atoi (QueryGet r "limit"))) in
    let! schemas := invoke (CListSchemas registryCtx params) in
    Ret (match schemas with
         | Err err => writeInternalError err
         | Ok l =>
             writeJSON 200 (SchemaListResponse (map (fun s =>
               MkSchemaListItem (Subject s) (Version s) (ID s) (schemaTypeForResponse (SchemaType s)) (Schema s) (References s)) l))
         end).

(** ** Subjects and versions *)

Definition offset_of r : Z := Z.max 0 (Atoi_value (QueryGet r "offset")).
Definition limit_of r : Z := if decide (QueryGet r "limit" = "") then -1 else Atoi_value (QueryGet r "limit").

(** The pages of [ListSubjects]: an offset, then at most [limit] subjects. *)
Definition subjectsPage r (subjects : list string) : list string :=
  let subjects := if (Z.of_nat (List.length subjects) <=? offset_of r)%Z then [] else drop (Z.to_nat (offset_of r)) subjects in
  if (0 <? limit_of r)%Z && (limit_of r <? Z.of_nat (List.length subjects))%Z
  then take (Z.to_nat (limit_of r)) subjects else subjects.

(** GET /subjects *)
Definition ListSubjects r : prog Response :=
  let registryCtx := getRegistryContext r in
  if RegContext.rejectGlobalContext registryCtx then Ret globalContextRejected
  else
    let deletedOnly := query_true r "deletedOnly" in
    let subjectPrefix := QueryGet r "subjectPrefix" in
    let! subjects := invoke (CListSubjects registryCtx (query_true r "deleted" || deletedOnly)) in
    match subjects with
    | Err err => Ret (writeInternalError err)
    | Ok subjects =>
        let answer (subjects : list string) :=
          writeJSON 200 (Names (subjectsPage r (List.filter (fun s => HasPrefix s subjectPrefix) subjects))) in
        if deletedOnly then
          let! activeSubjects := invoke (CListSubjects registryCtx false) in
          Ret (match activeSubjects with
               | Err err => writeInternalError err
               | Ok active => answer (List.filter (fun s => negb (bool_decide (s ∈ active))) subjects)
               end)
        else Ret (answer subjects)
    end.

Definition subjectNotFound : Response := writeError 404 ErrorCodeSubjectNotFound "Subject not found".
Definition versionNotFound : Response := writeError 404 ErrorCodeVersionNotFound "Version not found".
Definition versionSoftDeleted : Response := writeError 404 ErrorCodeSchemaVersionSoftDeleted "Schema version is soft deleted".
Definition invalidVersion (versionStr : string) : Response :=
  writeError 422 ErrorCodeInvalidVersion
    ("The specified version '" ++ versionStr ++ "' is not a valid version id. Allowed values are between [1, 2^31-1] and the string "
     ++ String "034" ("latest" ++ String "034" "")).

(** Runs [k] in the request's context with the subject its alias stands for. *)
Definition withSubject {A} r (reject : A) (k : string -> string -> prog A) : prog A :=
  let '(registryCtx, subject) := requestSubject r in
  if RegContext.rejectGlobalContext registryCtx then Ret reject
  else let! subject := ResolveAlias registryCtx subject in k registryCtx subject.

(** GET /subjects/{subject}/versions *)
Definition GetVersions r : prog Response :=
  withSubject r globalContextRejected (fun registryCtx subject =>
    let deletedOnly := query_true r "deletedOnly" in
    let! versions := RegistryOps.GetVersions registryCtx subject (query_true r "deleted" || deletedOnly) in
    match versions with
    | Err err => Ret (if errors_Is err ErrSubjectNotFound then subjectNotFound else writeInternalError err)
    | Ok versions =>
        if deletedOnly then
          let! activeVersions := RegistryOps.GetVersions registryCtx subject false in
          let rest (active : list Z) :=
            writeJSON 200 (Numbers (List.filter (fun v => negb (bool_decide (v ∈ active))) versions)) in
          Ret (match activeVersions with
               | Ok active => rest active
               | Err err => if errors_Is err ErrSubjectNotFound then rest [] else writeInternalError err
               end)
        else Ret (page r Numbers versions)
    end).

(** The record with the greatest version; the first of equal ones. *)
Definition greatest (schemas : list SchemaRecord) : option SchemaRecord :=
  fold_left (fun latest s =>
    match latest with
    | Some l => if (Version l <? Version s)%Z then Some s else latest
    | None => Some s
    end) schemas None.

Definition findDeletedVersion (registryCtx subject : string) (version : Z) : prog (result SchemaRecord) :=
  let! schemas := invoke (CGetSchemasBySubject registryCtx subject true) in
  Ret (match schemas with
       | Err err => Err err
       | Ok [] => fail ErrSubjectNotFound
       | Ok schemas =>
           match (if (version =? -1)%Z then greatest schemas
                  else List.find (fun s => (Version s =? version)%Z) schemas) with
           | Some s => Ok s
           | None => fail ErrVersionNotFound
           end
       end).

Definition isSubjectFullyDeleted (registryCtx subject : string) : prog bool :=
  let! allVersions := RegistryOps.GetVersions registryCtx subject true in
  match allVersions with
  | Err _ | Ok [] => Ret false
  | Ok _ =>
      let! activeVersions := RegistryOps.GetVersions registryCtx subject false in
      Ret (match activeVersions with
           | Err err => errors_Is err ErrSubjectNotFound
           | Ok l => bool_decide (l = [])
           end)
  end.

Definition isVersionSoftDeleted (registryCtx subject : string) (version : Z) : prog bool :=
  let! deleted := findDeletedVersion registryCtx subject version in
  Ret (match deleted with Ok s => Deleted s | Err _ => false end).

(** The answer where a version is not found: [mayBeDeleted] asks whether it is
    soft-deleted. *)
Definition versionError (registryCtx subject : string) (version : Z) (mayBeDeleted : bool) (err : error) : prog Response :=
  if errors_Is err ErrSubjectNotFound then Ret subjectNotFound
  else if errors_Is err ErrVersionNotFound then
    let! fullyDeleted := isSubjectFullyDeleted registryCtx subject in
    if fullyDeleted then Ret subjectNotFound
    else
      let! softDeleted := (if mayBeDeleted then isVersionSoftDeleted registryCtx subject version else Ret false) in
      Ret (if softDeleted then versionSoftDeleted else versionNotFound)
  else Ret (writeInternalError err).

(** GET /subjects/{subject}/versions/{version} *)
Definition GetVersion r : prog Response :=
  withSubject r globalContextRejected (fun registryCtx subject =>
    match ParseVersion (URLParam r "version") with
    | Err _ => Ret (invalidVersion (URLParam r "version"))
    | Ok version =>
        let includeDeleted := query_true r "deleted" in
        let! live := invoke (CGetSchemaBySubjectVersion registryCtx subject version) in
        let! schema :=
          match live with
          | Err err =>
              if includeDeleted && (errors_Is err ErrVersionNotFound || errors_Is err ErrSubjectNotFound)
              then findDeletedVersion registryCtx subject version else Ret live
          | Ok _ => Ret live
          end in
        match schema with
        | Err err => versionError registryCtx subject version (negb includeDeleted) err
        | Ok schema =>
            let! schemaStr := formatted r registryCtx schema in
            let! references := responseReferences r registryCtx schema in
            Ret (versionResponse schema schemaStr references)
        end
    end).

(** GET /subjects/{subject}/versions/{version}/schema *)
Definition GetRawSchemaByVersion r : prog Response :=
  withSubject r globalContextRejected (fun registryCtx subject =>
    match ParseVersion (URLParam r "version") with
    | Err _ => Ret (invalidVersion (URLParam r "version"))
    | Ok version =>
        let! schema := invoke (CGetSchemaBySubjectVersion registryCtx subject version) in
        match schema with
        | Err err => versionError registryCtx subject version true err
        | Ok schema => let! result := formatted r registryCtx schema in Ret (MkResponse 200 (RawText result))
        end
    end).

(** The IDs of the referencing versions that are still there. *)
Fixpoint referencingIDs (registryCtx : string) (refs : list SubjectVersion) : prog (list Z) :=
  match refs with
  | [] => Ret []
  | ref :: refs =>
      let! schema := invoke (CGetSchemaBySubjectVersion registryCtx (SVSubject ref) (SVVersion ref)) in
      let! rest := referencingIDs registryCtx refs in
      Ret (match schema with Ok s => ID s :: rest | Err _ => rest end)
  end.

(** GET /subjects/{subject}/versions/{version}/referencedby *)
Definition GetReferencedBy r : prog Response :=
  withSubject r globalContextRejected (fun registryCtx subject =>
    match ParseVersion (URLParam r "version") with
    | Err _ => Ret (invalidVersion (URLParam r "version"))
    | Ok version =>
        let! schema := invoke (CGetSchemaBySubjectVersion registryCtx subject version) in
        match schema with
        | Err err =>
            Ret (if errors_Is err ErrSubjectNotFound then subjectNotFound
                 else if errors_Is err ErrVersionNotFound || errors_Is err ErrSchemaNotFound then versionNotFound
                 else writeInternalError err)
        | Ok _ =>
            let! refs := invoke (CGetReferencedBy registryCtx subject version) in
            match refs with
            | Err err => Ret (writeInternalError err)
            | Ok refs => let! ids := referencingIDs registryCtx refs in Ret (writeJSON 200 (Numbers ids))
            end
        end
    end).

(** Whether the properties of a version agree with the filter. *)
Definition metadataMatches (filter : gmap string string) (s : SchemaRecord) : bool :=
  match SchemaMetadata s ≫= Properties with
  | None => false
  | Some props => bool_decide (filter ⊆ props)
  end.

(** GET /subjects/{subject}/metadata *)
Definition GetSubjectMetadata r : prog Response :=
  withSubject r globalContextRejected (fun registryCtx subject =>
    let keys := Query r "key" in
    let values := Query r "value" in
    let subjectError err := if errors_Is err ErrSubjectNotFound then subjectNotFound else writeInternalError err in
    if (0 <? List.length keys)%nat && (List.length keys =? List.length values)%nat then
      let metadataFilter : gmap string string := list_to_map (rev (combine keys values)) in
      let! schemas := invoke (CGetSchemasBySubject registryCtx subject (query_true r "deleted")) in
      Ret (match schemas with
           | Err err => subjectError err
           | Ok schemas =>
               match List.find (metadataMatches metadataFilter) (rev schemas) with
               | None => writeError 404 ErrorCodeSchemaNotFound "No schema version found matching the specified metadata"
               | Some matched => versionResponse matched (Schema matched) (Plain (References matched))
               end
           end)
    else
      let! schema := invoke (CGetLatestSchema registryCtx subject) in
      Ret (match schema with
           | Err err => subjectError err
           | Ok schema => writeJSON 200 (MetadataResponse (from_opt no_Metadata (SchemaMetadata schema)))
           end)).
End handlers.
