(* ===== verification/HandlersWrite.v ===== *)
(** * The handlers that write (internal/api/handlers/handlers.go)

    Registration, deletion, configuration, modes and import, with the guards on
    the mode each has in front, and the status each error of the registry is
    answered with. *)
From S2P Require Import Prelude GoStrings StorageTypes StorageIface RegistryRefs RegistryConfig RegistryMeta RegistrySchemas Compat RegistryOps HttpCodes Http HandlersRead.
From S2P Require RegContext.
From Stdlib Require Import Ascii String.

Local Open Scope prog_scope.
Local Open Scope string_scope.

Section handlers.
Context (reg : Registry) (fuel : nat).
Implicit Types r : Request.

Definition notPermitted (message : string) : Response := writeError 422 ErrorCodeOperationNotPermitted message.

(** The mode check in front of a write: [k] goes on when writes are allowed. *)
Definition checkedForWrite {A} (registryCtx subject : string) (answer : Response -> A) (what : string -> string)
    (k : prog A) : prog A :=
  let! mode := CheckModeForWrite registryCtx subject in
  match mode with
  | Err err => Ret (answer (writeInternalError err))
  | Ok mode => if decide (mode = "") then k else Ret (answer (notPermitted (what mode)))
  end.

Definition subjectInMode (subject mode : string) : string := "Subject '" ++ subject ++ "' is in " ++ mode ++ " mode".

(** ** Registration *)

Record RegisterSchemaRequest := MkRegisterSchemaRequest {
  RegSchema : string;
  RegSchemaType : string;
  RegReferences : list Reference;
  RegID : Z;
  RegVersion : Z;
  RegMetadata : option Metadata;
  RegRuleSet : option RuleSet
}.

(** The answer to an error of a registration. *)
Definition registerError (req : RegisterSchemaRequest) (err : error) : Response :=
  let invalid := writeError 422 ErrorCodeInvalidSchema (err_text err) in
  if errors_Is err ErrInvalidRuleSet then invalid
  else if errors_Is err ErrInvalidSchema then invalid
  else if errors_Is err ErrUnsupportedSchemaType then invalid
  else if errors_Is err ErrFailedResolveReferences then invalid
  else if errors_Is err ErrIncompatibleSchema then writeError 409 ErrorCodeIncompatibleSchema (err_text err)
  else if errors_Is err ErrImportIDConflict
  then notPermitted ("Overwrite new schema with id " ++ Itoa (RegID req) ++ " is not permitted.")
  else writeInternalError err.

Definition invalidSchemaType (schemaType : string) : Response :=
  writeError 422 ErrorCodeInvalidSchema
    ("Invalid schema type '" ++ schemaType ++ "'. Accepted types are AVRO, PROTOBUF, and JSON").

Definition invalidBody (code : Z) : Response := writeError 400 code "Invalid request body".
Definition emptySchema : Response := writeError 422 ErrorCodeInvalidSchema "Empty schema".

(** The registration itself: with an ID in IMPORT mode, without one in any mode
    but that. *)
Definition registerInMode r (req : RegisterSchemaRequest) (registryCtx subject schemaType : string) : prog (option Response) :=
  let! mode := GetMode registryCtx subject in
  if (0 <? RegID req)%Z then
    match mode with
    | Err _ => ret_fuel (writeError 500 ErrorCodeStorageError "Failed to check mode")
    | Ok mode =>
        if negb (bool_decide (mode = "IMPORT")) then
          ret_fuel (notPermitted ("Subject '" ++ subject ++
            "' is not in import mode. Registering schemas with explicit IDs requires IMPORT mode."))
        else
          let? outcome := RegisterSchemaWithID reg fuel registryCtx subject (RegSchema req) schemaType
                            (RegReferences req) (RegID req) (RegVersion req) in
          match outcome with
          | (_, Some err) => ret_fuel (registerError req err)
          | (Some schema, None) => ret_fuel (writeJSON 200 (RegisterSchemaResponse (ID schema)))
          | (None, None) => ret_fuel recovered
          end
    end
  else
    match mode with
    | Err err => ret_fuel (writeInternalError err)
    | Ok mode =>
        if bool_decide (mode = "READONLY") || bool_decide (mode = "READONLY_OVERRIDE") then
          ret_fuel (notPermitted ("Subject '" ++ subject ++ "' is in read-only mode"))
        else if bool_decide (mode = "IMPORT") then
          ret_fuel (notPermitted
            "Subject is in import mode. Normal registration (without explicit ID) is not permitted in IMPORT mode.")
        else
          let? outcome := RegistrySchemas.RegisterSchema reg fuel registryCtx subject (RegSchema req) schemaType
                            (RegReferences req)
                            (Some (MkRegisterOpts (query_true r "normalize") (RegMetadata req) (RegRuleSet req))) in
          match outcome with
          | Err err => ret_fuel (registerError req err)
          | Ok schema => ret_fuel (writeJSON 200 (RegisterSchemaResponse (ID schema)))
          end
    end.

(** POST /subjects/{subject}/versions *)
Definition RegisterSchema r (body : option RegisterSchemaRequest) : prog (option Response) :=
  withSubject r (Some globalContextRejected) (fun registryCtx subject =>
    match body with
    | None => ret_fuel (invalidBody ErrorCodeInvalidSchema)
    | Some req =>
        if decide (RegSchema req = "") then ret_fuel emptySchema
        else
          match ParseSchemaType (RegSchemaType req) with
          | (_, false) => ret_fuel (invalidSchemaType (RegSchemaType req))
          | (schemaType, true) =>
              checkedForWrite registryCtx subject Some (subjectInMode subject)
                (registerInMode r req registryCtx subject schemaType)
          end
    end).

(** ** Lookup and compatibility *)

Record LookupSchemaRequest := MkLookupSchemaRequest {
  LookSchema : string;
  LookSchemaType : string;
  LookReferences : list Reference
}.

(** The answer to an error of a lookup. *)
Definition lookupError (subject : string) (err : error) : Response :=
  if errors_Is err ErrSubjectNotFound
  then writeError 404 ErrorCodeSubjectNotFound ("Subject '" ++ subject ++ "' not found.")
  else if errors_Is err ErrSchemaNotFound || errors_Is err ErrVersionNotFound
  then writeError 404 ErrorCodeSchemaNotFound "Schema not found"
  else if errors_Is err ErrInvalidSchema then writeError 422 ErrorCodeInvalidSchema (err_text err)
  else writeInternalError err.

(** POST /subjects/{subject} *)
Definition LookupSchema r (body : option LookupSchemaRequest) : prog (option Response) :=
  withSubject r (Some globalContextRejected) (fun registryCtx subject =>
    match body with
    | None => ret_fuel (invalidBody ErrorCodeInvalidSchema)
    | Some req =>
        if decide (LookSchema req = "") then ret_fuel (writeError 404 ErrorCodeSchemaNotFound "Schema not found")
        else
          match ParseSchemaType (LookSchemaType req) with
          | (_, false) => ret_fuel (invalidSchemaType (LookSchemaType req))
          | (schemaType, true) =>
              let? schema := RegistryOps.LookupSchema reg fuel registryCtx subject (LookSchema req) schemaType
                               (LookReferences req) (query_true r "deleted") (query_true r "normalize") in
              match schema with
              | Err err => ret_fuel (lookupError subject err)
              | Ok schema => ret_fuel (versionResponse schema (Schema schema) (Plain (References schema)))
              end
          end
    end).

(** The answer to an error of a compatibility check against [versionStr]. *)
Definition compatibilityError (versionStr : string) (err : error) : Response :=
  if errors_Is err ErrInvalidSchema then writeError 422 ErrorCodeInvalidSchema (err_text err)
  else if errors_Is err ErrSubjectNotFound then
    if negb (bool_decide (versionStr = "")) && negb (bool_decide (versionStr = "latest"))
    then writeError 404 ErrorCodeVersionNotFound ("Version " ++ versionStr ++ " not found")
    else subjectNotFound
  else if errors_Is err ErrVersionNotFound then writeError 404 ErrorCodeVersionNotFound (err_text err)
  else if errors_Is err ErrInvalidVersion then writeError 422 ErrorCodeInvalidVersion (err_text err)
  else writeInternalError err.

(** POST /compatibility/subjects/{subject}/versions/{version}, where the request
    body has the fields of a lookup. *)
Definition CheckCompatibility r (body : option LookupSchemaRequest) : prog (option Response) :=
  withSubject r (Some globalContextRejected) (fun registryCtx subject =>
    let versionStr := URLParam r "version" in
    match body with
    | None => ret_fuel (invalidBody ErrorCodeInvalidSchema)
    | Some req =>
        if decide (LookSchema req = "") then ret_fuel emptySchema
        else
          match ParseSchemaType (LookSchemaType req) with
          | (_, false) => ret_fuel (writeError 422 ErrorCodeInvalidSchema ("Invalid schema type: " ++ LookSchemaType req))
          | (schemaType, true) =>
              let? result := RegistryOps.CheckCompatibility reg fuel registryCtx subject (LookSchema req) schemaType
                               (LookReferences req) versionStr (query_true r "normalize") in
              match result with
              | Err err => ret_fuel (compatibilityError versionStr err)
              | Ok result =>
                  ret_fuel (writeJSON 200 (CompatibilityCheckResponse (IsCompatible result)
                              (if query_true r "verbose" then Messages result else [])))
              end
          end
    end).

(** ** Deletion *)

(** The answer to an error of a subject's deletion. *)
Definition deleteSubjectError (subject : string) (err : error) : Response :=
  if errors_Is err ErrSubjectNotFound then subjectNotFound
  else if errors_Is err ErrSubjectDeleted
  then writeError 404 ErrorCodeSubjectSoftDeleted
         ("Subject '" ++ subject ++ "' was soft deleted. Set permanent=true to delete permanently")
  else if errors_Is err ErrSubjectNotSoftDeleted
  then writeError 404 ErrorCodeSubjectNotSoftDeleted
         ("Subject '" ++ subject ++ "' was not deleted first before being permanently deleted")
  else if errors_Is err ErrReferenceExists then writeError 422 ErrorCodeReferenceExists (err_text err)
  else writeInternalError err.

(** DELETE /subjects/{subject} *)
Definition DeleteSubject r : prog Response :=
  withSubject r globalContextRejected (fun registryCtx subject =>
    checkedForWrite registryCtx subject id (subjectInMode subject)
      (let! versions := RegistryOps.DeleteSubject registryCtx subject (query_true r "permanent") in
       Ret (match versions with
            | Err err => deleteSubjectError subject err
            | Ok versions => writeJSON 200 (Numbers versions)
            end))).

(** The answer to an error of a version's deletion. *)
Definition deleteVersionError (subject versionStr : string) (err : error) : Response :=
  if errors_Is err ErrSubjectNotFound then subjectNotFound
  else if errors_Is err ErrVersionNotFound then versionNotFound
  else if errors_Is err ErrVersionNotSoftDeleted
  then writeError 404 ErrorCodeVersionNotSoftDeleted
         ("Subject '" ++ subject ++ "' Version " ++ versionStr ++ " was not deleted first before being permanently deleted")
  else if errors_Is err ErrReferenceExists then writeError 422 ErrorCodeReferenceExists (err_text err)
  else writeInternalError err.

(** DELETE /subjects/{subject}/versions/{version} *)
Definition DeleteVersion r : prog Response :=
  withSubject r globalContextRejected (fun registryCtx subject =>
    let versionStr := URLParam r "version" in
    checkedForWrite registryCtx subject id (subjectInMode subject)
      (match ParseVersion versionStr with
       | Err _ => Ret (invalidVersion versionStr)
       | Ok version =>
           let! deletedVersion := RegistryOps.DeleteVersion registryCtx subject version (query_true r "permanent") in
           Ret (match deletedVersion with
                | Err err => deleteVersionError subject versionStr err
                | Ok v => writeJSON 200 (Number v)
                end)
       end)).
End handlers.
