(* ===== verification/HandlersConfig.v ===== *)
(** * The handlers of configuration, modes and import (internal/api/handlers/handlers.go) *)
From S2P Require Import Prelude GoStrings StorageTypes StorageIface RegistryRefs RegistryConfig RegistrySchemas RegistryOps HttpCodes Http HandlersRead HandlersWrite.
From S2P Require RegContext.
From Stdlib Require Import Ascii String.

Local Open Scope prog_scope.
Local Open Scope string_scope.

Section handlers.
Context (reg : Registry) (fuel : nat).
Implicit Types r : Request.

(** A result as it is, or an internal error. *)
Definition orInternalError {A} (res : result A) (k : A -> Response) : Response :=
  match res with Err err => writeInternalError err | Ok a => k a end.

(** ** Configuration *)

(** GET /config and GET /config/{subject} *)
Definition GetConfig r : prog Response :=
  let '(registryCtx, subject) := requestSubject r in
  let defaultToGlobal := query_true r "defaultToGlobal" in
  if negb (bool_decide (subject = "")) && negb defaultToGlobal then
    let! config := GetSubjectConfigFull registryCtx subject in
    Ret (match config with
         | Err err =>
             if errors_Is err ErrNotFound
             then writeError 404 ErrorCodeSubjectCompatNotFound
                    ("Subject '" ++ subject ++ "' does not have subject-level compatibility configured")
             else writeInternalError err
         | Ok config => writeJSON 200 (configToResponse config)
         end)
  else
    let! config := (if bool_decide (subject = "") && negb defaultToGlobal
                    then GetGlobalConfigDirect (defaultConfig reg) registryCtx
                    else GetConfigFull (defaultConfig reg) registryCtx subject) in
    Ret (orInternalError config (fun config => writeJSON 200 (configToResponse config))).

(** [types.ConfigRequest]: the level as it is written, and the other fields. *)
Definition configOpts (req : ConfigRecord) : SetConfigOpts :=
  MkSetConfigOpts (Alias req) (CompatibilityGroup req) (ValidateFields req) (DefaultMetadata req) (OverrideMetadata req)
    (DefaultRuleSet req) (OverrideRuleSet req) (AliasForDeks req) (CompatibilityPolicy req).

(** The answer to an error of [SetConfig]. *)
Definition setConfigError (err : error) : Response :=
  if errors_Is err ErrInvalidCompatibility then writeError 422 ErrorCodeInvalidCompatibilityLevel (err_text err)
  else if errors_Is err ErrInvalidRuleSet then writeError 422 ErrorCodeInvalidSchema (err_text err)
  else writeInternalError err.

(** PUT /config and PUT /config/{subject} *)
Definition SetConfig r (body : option ConfigRecord) : prog Response :=
  let '(registryCtx, subject) := requestSubject r in
  checkedForWrite registryCtx subject id (subjectInMode subject)
    (match body with
     | None => Ret (invalidBody ErrorCodeInvalidCompatibilityLevel)
     | Some req =>
         if decide (CompatibilityLevel req = "") then
           let! level := RegistryConfig.GetConfig (defaultConfig reg) registryCtx subject in
           Ret (orInternalError level (fun level => writeJSON 200 (ConfigRequest (level_config level))))
         else
           let! res := RegistryConfig.SetConfig registryCtx subject (CompatibilityLevel req) (Normalize req)
                         (Some (configOpts req)) in
           Ret (match res with
                | Err err => setConfigError err
                | Ok _ => writeJSON 200 (ConfigRequest {| req with CompatibilityLevel := ToUpper (CompatibilityLevel req) |})
                end)
     end).

(** DELETE /config/{subject} *)
Definition DeleteConfig r : prog Response :=
  let '(registryCtx, subject) := requestSubject r in
  checkedForWrite registryCtx subject id (subjectInMode subject)
    (let! level := RegistryConfig.DeleteConfig (defaultConfig reg) registryCtx subject in
     Ret (match level with
          | Err err =>
              if errors_Is err ErrNotFound then writeError 404 ErrorCodeSubjectNotFound "Config not found for subject"
              else writeInternalError err
          | Ok level => writeJSON 200 (ConfigResponse (level_config level))
          end)).

(** DELETE /config *)
Definition DeleteGlobalConfig r : prog Response :=
  let registryCtx := getRegistryContext r in
  checkedForWrite registryCtx "" id (fun mode => "Global config is in " ++ mode ++ " mode")
    (let! level := RegistryConfig.DeleteGlobalConfig (defaultConfig reg) registryCtx in
     Ret (orInternalError level (fun level => writeJSON 200 (ConfigResponse (level_config level))))).

(** ** Modes *)

(** GET /mode and GET /mode/{subject} *)
Definition GetMode r : prog Response :=
  let '(registryCtx, subject) := requestSubject r in
  let defaultToGlobal := query_true r "defaultToGlobal" in
  if negb (bool_decide (subject = "")) && negb defaultToGlobal then
    let! mode := GetSubjectMode registryCtx subject in
    Ret (match mode with
         | Err err =>
             if errors_Is err ErrNotFound
             then writeError 404 ErrorCodeSubjectModeNotFound
                    ("Subject '" ++ subject ++ "' does not have subject-level mode configured")
             else writeInternalError err
         | Ok mode => writeJSON 200 (ModeResponse mode)
         end)
  else
    let! mode := (if bool_decide (subject = "") && negb defaultToGlobal
                  then GetGlobalModeDirect registryCtx else RegistryConfig.GetMode registryCtx subject) in
    Ret (orInternalError mode (fun mode => writeJSON 200 (ModeResponse mode))).

(** The answer to an error of [SetMode]. *)
Definition setModeError (err : error) : Response :=
  if errors_Is err ErrInvalidMode then writeError 422 ErrorCodeInvalidMode (err_text err)
  else if errors_Is err ErrOperationNotPermitted then notPermitted (err_text err)
  else writeInternalError err.

(** PUT /mode and PUT /mode/{subject}; an empty mode deletes the setting. *)
Definition SetMode r (body : option string) : prog Response :=
  let '(registryCtx, subject) := requestSubject r in
  match body with
  | None => Ret (invalidBody ErrorCodeInvalidMode)
  | Some mode =>
      if decide (mode = "") then
        let! res := (if decide (subject = "") then RegistryConfig.DeleteGlobalMode registryCtx
                     else RegistryConfig.DeleteMode registryCtx subject) in
        Ret (match res with
             | Err err => if errors_Is err ErrNotFound then writeJSON 200 (ModeResponse "") else writeInternalError err
             | Ok _ => writeJSON 200 (ModeResponse "")
             end)
      else
        let! res := RegistryConfig.SetMode registryCtx subject mode (query_true r "force") in
        Ret (match res with
             | Err err => setModeError err
             | Ok _ => writeJSON 200 (ModeResponse (ToUpper mode))
             end)
  end.

(** DELETE /mode/{subject} *)
Definition DeleteMode r : prog Response :=
  let '(registryCtx, subject) := requestSubject r in
  let! mode := RegistryConfig.DeleteMode registryCtx subject in
  Ret (match mode with
       | Err err =>
           if errors_Is err ErrNotFound then writeError 404 ErrorCodeSubjectNotFound "Mode not found for subject"
           else writeInternalError err
       | Ok mode => writeJSON 200 (ModeResponse mode)
       end).

(** DELETE /mode *)
Definition DeleteGlobalMode r : prog Response :=
  let! mode := RegistryConfig.DeleteGlobalMode (getRegistryContext r) in
  Ret (orInternalError mode (fun mode => writeJSON 200 (ModeResponse mode))).

(** GET /contexts *)
Definition GetContexts r : prog Response :=
  let! contexts := ListContexts in
  Ret (writeJSON 200 (Names (match contexts with Ok l => l | Err _ => ["."] end))).

(** ** Import *)

(** An element of the request; its type in any case, AVRO by default. *)
Definition importRequest (s : ImportSchemaRequest) : ImportSchemaRequest :=
  let schemaType := ToUpper (ReqSchemaType s) in
  {| s with ReqSchemaType := if decide (schemaType = "") then SchemaTypeAvro else schemaType |}.

Definition importStatusCode (result : ImportResult) : Z :=
  if (Imported result =? 0)%Z && (0 <? Errors result)%Z then 422 else 200.

Definition importResultToResponse (result : ImportResult) (warning : option error) : Body :=
  ImportSchemasResponse (Imported result) (Errors result)
    (map (fun res => (ResID res, ResSubject res, ResVersion res, Success res, ResError res)) (Results result))
    (err_text <$> warning).

(** POST /import/schemas; an error next to the result is a warning header. *)
Definition ImportSchemas r (body : option (list ImportSchemaRequest)) : prog (option Response) :=
  let registryCtx := getRegistryContext r in
  if RegContext.rejectGlobalContext registryCtx then ret_fuel globalContextRejected
  else
    let! mode := RegistryConfig.GetMode registryCtx "" in
    match mode with
    | Err _ => ret_fuel (writeError 500 ErrorCodeStorageError "Failed to check mode")
    | Ok mode =>
        if negb (bool_decide (mode = "IMPORT")) then
          ret_fuel (notPermitted "Import is not permitted. The registry must be in IMPORT mode to import schemas.")
        else
          match body with
          | None => ret_fuel (invalidBody ErrorCodeInvalidSchema)
          | Some [] => ret_fuel (writeError 400 ErrorCodeInvalidSchema "No schemas provided")
          | Some schemas =>
              let? outcome := RegistryOps.ImportSchemas reg fuel registryCtx (map importRequest schemas) in
              let '(result, warning) := outcome in
              ret_fuel (writeJSON (importStatusCode result) (importResultToResponse result warning))
          end
    end.
End handlers.
