(* ===== verification/HandlersAnalysis.v ===== *)
(** * The analysis handlers (internal/api/handlers/analysis.go)

    One definition per route.  A request body is a record, [None] where decoding
    fails.  Expressions of requests are compiled by [regexp_Compile], the [regexp]
    package; [avro_Parse] is that of the Avro library. *)
From S2P Require Import Prelude GoStrings GoFloat StorageTypes StorageIface RegistryRefs RegistryConfig RegistrySchemas Compat RegistryOps Glob Analysis HttpCodes Http.
From S2P Require RegContext.
From Stdlib Require Import Ascii String.

Local Open Scope prog_scope.
Local Open Scope string_scope.

(** ** Requests *)

Record SchemaRequest := MkSchemaRequest { ReqSchema : string; ReqSchemaType : string }.
Record SearchRequest := MkSearchRequest { SearchQuery : string; SearchRegex : bool; SearchLimit : Z }.
Record FieldSearchRequest := MkFieldSearchRequest { SearchField : string; FieldMode : string; FieldThreshold : float64; FieldLimit : Z }.
Record SimilarRequest := MkSimilarRequest { SimilarSubject : string; SimilarThreshold : float64; SimilarLimit : Z }.
Record QualityRequest := MkQualityRequest { QualitySchema : string; QualitySchemaType : string; QualitySubject : string }.
Record MatchRequest := MkMatchRequest { MatchPattern : string; MatchMode : string; MatchThreshold : float64 }.
Record CheckMultiRequest := MkCheckMultiRequest { MultiSchema : string; MultiSchemaType : string; MultiSubjects : list string }.

(** ** Answers *)

Definition answerMap (entries : list (string * Any)) : Response := writeJSON 200 (AnyMap entries).
Definition badRequest (message : string) : Response := writeError 400 ErrorCodeInvalidSchema message.
Definition invalidBody : Response := badRequest "Invalid request body".
Definition invalidSchemaType (schemaType : string) : Response :=
  writeError 422 ErrorCodeInvalidSchema
    ("Invalid schema type '" ++ schemaType ++ "'. Accepted types are AVRO, PROTOBUF, and JSON").
Definition noSuchSubject : Response := writeError 404 ErrorCodeSubjectNotFound "Subject not found".
Definition versionMissing (version : Z) : Response :=
  writeError 404 ErrorCodeVersionNotFound ("Version " ++ Itoa version ++ " not found").

(** A slice that starts as [nil] and one that is replaced by an empty one. *)
Definition nilable (l : list Any) : Any := match l with [] => ANull | _ => AList l end.
Definition nilable_strings (l : list string) : Any := match l with [] => ANull | _ => AStrings l end.

Definition count_of {A} (l : list A) : Any := AInt (Z.of_nat (List.length l)).

(** Defaults and caps of requests. *)
Definition clampLimit (default limit : Z) : Z :=
  let limit := if (limit <=? 0)%Z then default else limit in
  if (1000 <? limit)%Z then 1000%Z else limit.

Definition clampThreshold (default threshold : float64) : float64 :=
  let threshold := if SFleb threshold Float64.zero then default else threshold in
  if SFltb float_one threshold then float_one else threshold.

Definition tenths (n : Z) : float64 := GoFloat.of_decimal false n (-1).

(** The level a response shows: [BACKWARD] where the configuration cannot be read. *)
Definition shownLevel (config : result ConfigRecord) : string :=
  match config with Ok config => CompatibilityLevel config | Err _ => "BACKWARD" end.

(** [m[k]++] *)
Definition increment (key : string) (counts : gmap string Z) : gmap string Z :=
  <[key := (from_opt 0 (counts !! key) + 1)%Z]> counts.

(** The sets and maps the handlers make of fields. *)
Definition fieldTypes (fields : list FieldInfo) : gmap string string :=
  fold_left (fun set f => <[Name f := FieldType f]> set) fields ∅.
Definition fieldNames (fields : list FieldInfo) : gmap string bool :=
  fold_left (fun set f => <[Name f := true]> set) fields ∅.
Definition normalizedNames (fields : list FieldInfo) : gmap string bool :=
  fold_left (fun set f => <[NormalizeFieldName (Name f) := true]> set) fields ∅.

Section handlers.
Context (reg : Registry) (fuel : nat).
Context (regexp_Compile : string -> result (string -> bool)) (avro_Parse : string -> option AvroView).
Implicit Types r : Request.

Definition extract (schemaStr schemaType : string) : prog (list FieldInfo) :=
  Choose (fun e => Ret (ExtractFields avro_Parse e schemaStr schemaType)).

(** The handlers of one subject; aliases are not resolved. *)
Definition inSubject {A} r (reject : A) (k : string -> string -> prog A) : prog A :=
  let '(registryCtx, subject) := requestSubject r in
  if RegContext.rejectGlobalContext registryCtx then Ret reject else k registryCtx subject.

(** The handlers over all subjects of the context. *)
Definition overSubjects r (k : string -> list string -> prog Response) : prog Response :=
  let registryCtx := getRegistryContext r in
  let! subjects := invoke (CListSubjects registryCtx false) in
  match subjects with Err err => Ret (writeInternalError err) | Ok subjects => k registryCtx subjects end.

(** The loop over the latest schemas of subjects that ends when there are [limit] results. *)
Fixpoint latestSchemas (registryCtx : string) (limit : option Z) (found : string -> SchemaRecord -> prog (list Any))
    (subjects : list string) (results : list Any) : prog (list Any) :=
  match subjects with
  | [] => Ret results
  | subj :: subjects =>
      if match limit with Some limit => (limit <=? Z.of_nat (List.length results))%Z | None => false end then Ret results
      else
        let! latest := invoke (CGetLatestSchema registryCtx subj) in
        match latest with
        | Err _ => latestSchemas registryCtx limit found subjects results
        | Ok latest =>
            let! more := found subj latest in
            latestSchemas registryCtx limit found subjects (results ++ more)%list
        end
  end.

(** A matcher of the request: its expression, or the text. *)
Definition compiled {A} (regex : bool) (expr : string) (plain : string -> bool) (onError : error -> A) (k : (string -> bool) -> A) : A :=
  if regex then match regexp_Compile expr with Err err => onError err | Ok matches => k matches end else k plain.

Definition invalidRegex (err : error) : prog Response := Ret (badRequest ("Invalid regex: " ++ err_text err)).

(** ** Schemas *)

(** POST /schemas/validate *)
Definition ValidateSchema r (body : option SchemaRequest) : prog (option Response) :=
  match body with
  | None => ret_fuel invalidBody
  | Some req =>
      if decide (ReqSchema req = "") then ret_fuel (badRequest "Schema is required")
      else
        match ParseSchemaType (ToUpper (ReqSchemaType req)) with
        | (_, false) => ret_fuel (invalidSchemaType (ReqSchemaType req))
        | (st, true) =>
            let! result := RegistryOps.ValidateSchema reg fuel (getRegistryContext r) (ReqSchema req) st [] in
            Ret (result ← result;
                 Some (answerMap [("is_valid", ABool (Valid result)); ("schema_type", AString st); ("error", AString (ValError result))]))
        end
  end.

(** POST /schemas/normalize *)
Definition NormalizeSchema r (body : option SchemaRequest) : prog (option Response) :=
  match body with
  | None => ret_fuel invalidBody
  | Some req =>
      if decide (ReqSchema req = "") then ret_fuel (badRequest "Schema is required")
      else
        match ParseSchemaType (ToUpper (ReqSchemaType req)) with
        | (_, false) => ret_fuel (invalidSchemaType (ReqSchemaType req))
        | (st, true) =>
            let? result := RegistryOps.NormalizeSchema reg fuel (getRegistryContext r) (ReqSchema req) st [] in
            match result with
            | Err err => ret_fuel (writeError 422 ErrorCodeInvalidSchema (err_text err))
            | Ok result =>
                ret_fuel (answerMap [("schema_type", AString st); ("canonical", AString (NormText result));
                                     ("fingerprint", AString (NormFingerprint result))])
            end
        end
  end.

(** POST /schemas/search *)
Definition SearchSchemas r (body : option SearchRequest) : prog Response :=
  match body with
  | None => Ret invalidBody
  | Some req =>
      let query := SearchQuery req in
      if decide (query = "") then Ret (badRequest "Query is required")
      else
        overSubjects r (fun registryCtx subjects =>
          compiled (SearchRegex req) query (fun text => Contains text query) invalidRegex (fun matches =>
            let! found := latestSchemas registryCtx (Some (clampLimit 50 (SearchLimit req))) (fun subj latest =>
              Ret (if matches (Schema latest)
                   then [AMap [("subject", AString subj); ("version", AInt (Version latest)); ("schema_type", AString (SchemaType latest))]]
                   else [])) subjects [] in
            Ret (answerMap [("query", AString query); ("count", count_of found); ("matches", AList found)])))
  end.

(** The score of a field in a search for fields; [None] if it is not found. *)
Definition fieldScore (req : FieldSearchRequest) (mode : string) (threshold : float64) (variants : list string)
    (re : string -> bool) (f : FieldInfo) : option float64 :=
  if decide (mode = "exact") then
    if existsb (fun v => EqualFold (Name f) v) variants then Some float_one else None
  else if decide (mode = "fuzzy") then
    let score := FuzzyScore (SearchField req) (Name f) in
    if SFleb threshold score then Some score else None
  else if decide (mode = "regex") then if re (Name f) then Some float_one else None
  else None.

(** POST /schemas/search/field *)
Definition FindSchemasByField r (body : option FieldSearchRequest) : prog Response :=
  match body with
  | None => Ret invalidBody
  | Some req =>
      let field := SearchField req in
      if decide (field = "") then Ret (badRequest "Field is required")
      else
        let mode := if decide (FieldMode req = "") then "exact" else FieldMode req in
        let threshold := clampThreshold (tenths 6) (FieldThreshold req) in
        overSubjects r (fun registryCtx subjects =>
          let variants := NamingVariants field in
          compiled (bool_decide (mode = "regex")) field (fun _ => false) invalidRegex (fun re =>
            let! found := latestSchemas registryCtx (Some (clampLimit 50 (FieldLimit req))) (fun subj latest =>
              let! fields := extract (Schema latest) (SchemaType latest) in
              Ret (omap (fun f =>
                score ← fieldScore req mode threshold variants re f;
                Some (AMap [("subject", AString subj); ("field_name", AString (Name f)); ("field_type", AString (FieldType f));
                            ("field_path", AString (Path f)); ("score", AFloat score);
                            ("schema_type", AString (SchemaType latest))])) fields)) subjects [] in
            Ret (answerMap [("field", AString field); ("mode", AString mode); ("count", count_of found); ("matches", AList found)])))
  end.

(** POST /schemas/search/type *)
Definition FindSchemasByType r (body : option SearchRequest) : prog Response :=
  match body with
  | None => Ret invalidBody
  | Some req =>
      let pattern := SearchQuery req in
      if decide (pattern = "") then Ret (badRequest "type_pattern is required")
      else
        overSubjects r (fun registryCtx subjects =>
          compiled (SearchRegex req) pattern
            (fun type => EqualFold type pattern || Contains (ToLower type) (ToLower pattern)) invalidRegex (fun matches =>
            let! found := latestSchemas registryCtx (Some (clampLimit 50 (SearchLimit req))) (fun subj latest =>
              let! fields := extract (Schema latest) (SchemaType latest) in
              Ret (map (fun f => AMap [("subject", AString subj); ("field_name", AString (Name f)); ("field_type", AString (FieldType f))])
                     (List.filter (fun f => matches (FieldType f)) fields))) subjects [] in
            Ret (answerMap [("type_pattern", AString pattern); ("count", count_of found); ("matches", AList found)])))
  end.

(** The similarity of two sets of names, and the names in both. *)
Definition jaccard (e : env) (sourceSet targetSet : gmap string bool) : option (float64 * list string) :=
  let shared := List.filter (fun name => bool_decide (is_Some (targetSet !! name))) (map fst (range e sourceSet)) in
  let union := sourceSet ∪ targetSet in
  if decide (size union = 0%nat) then None
  else Some (Float64.div (Float64.of_Z (Z.of_nat (List.length shared))) (Float64.of_Z (Z.of_nat (size union))), shared).

(** POST /schemas/similar *)
Definition FindSimilarSchemas r (body : option SimilarRequest) : prog Response :=
  match body with
  | None => Ret invalidBody
  | Some req =>
      let subject := SimilarSubject req in
      if decide (subject = "") then Ret (badRequest "Subject is required")
      else
        let threshold := clampThreshold (tenths 3) (SimilarThreshold req) in
        let! source := invoke (CGetLatestSchema (getRegistryContext r) subject) in
        match source with
        | Err _ => Ret noSuchSubject
        | Ok source =>
            let! sourceFields := extract (Schema source) (SchemaType source) in
            let sourceSet := normalizedNames sourceFields in
            overSubjects r (fun registryCtx subjects =>
              let! found := latestSchemas registryCtx (Some (clampLimit 10 (SimilarLimit req))) (fun subj latest =>
                let! targetFields := extract (Schema latest) (SchemaType latest) in
                Choose (fun e => Ret
                  match jaccard e sourceSet (normalizedNames targetFields) with
                  | Some (sim, shared) =>
                      if SFleb threshold sim
                      then [AMap [("subject", AString subj); ("similarity", AFloat sim); ("shared_fields", nilable_strings shared)]]
                      else []
                  | None => []
                  end)) (List.filter (fun subj => negb (bool_decide (subj = subject))) subjects) [] in
              Ret (answerMap [("subject", AString subject); ("count", count_of found); ("similar", AList found)]))
        end
  end.

(** The schema a request gives, or that of the subject it names. *)
Definition givenSchema r (req : QualityRequest) (k : string -> string -> prog Response) : prog Response :=
  let withType schemaStr schemaType :=
    if decide (schemaStr = "") then Ret (badRequest "Schema or subject is required")
    else match ParseSchemaType (ToUpper schemaType) with
         | (_, false) => Ret (invalidSchemaType schemaType)
         | (st, true) => k schemaStr st
         end in
  if decide (QualitySchema req = "" /\ QualitySubject req <> "") then
    let! latest := invoke (CGetLatestSchema (getRegistryContext r) (QualitySubject req)) in
    match latest with
    | Err _ => Ret noSuchSubject
    | Ok latest => withType (Schema latest) (SchemaType latest)
    end
  else withType (QualitySchema req) (QualitySchemaType req).

(** [omitempty] *)
Definition unless_empty (key : string) (l : list string) : list (string * Any) :=
  match l with [] => [] | _ => [(key, AStrings l)] end.

Definition categoryBody (c : CategoryScore) : Any :=
  AMap ([("score", AInt (CatScore c)); ("max_score", AInt (CatMaxScore c))] ++ unless_empty "details" (Details c))%list.

(** POST /schemas/quality *)
Definition ScoreSchemaQuality r (body : option QualityRequest) : prog Response :=
  match body with
  | None => Ret invalidBody
  | Some req =>
      givenSchema r req (fun schemaStr st =>
        let! fields := extract schemaStr st in
        Choose (fun e =>
          let result := Analysis.ScoreSchemaQuality e fields schemaStr st in
          Ret (answerMap ([("overall_score", AInt (OverallScore result)); ("max_score", AInt (MaxScore result));
                           ("grade", AString (Grade result));
                           ("categories", AMap (map (fun '(name, c) => (name, categoryBody c)) (map_to_list (Categories result))))]
                          ++ unless_empty "quick_wins" (QuickWins result))%list)))
  end.

(** [strings.Count(path, ".") + 1] *)
Definition pathDepth (path : string) : Z := Z.of_nat (List.length (Split path ".")).

Definition complexityGrade (fieldCount maxDepth : Z) : string :=
  if (50 <? fieldCount)%Z || (5 <? maxDepth)%Z then "D"
  else if (30 <? fieldCount)%Z || (4 <? maxDepth)%Z then "C"
  else if (15 <? fieldCount)%Z || (3 <? maxDepth)%Z then "B"
  else "A".

(** POST /schemas/complexity *)
Definition GetSchemaComplexity r (body : option QualityRequest) : prog Response :=
  match body with
  | None => Ret invalidBody
  | Some req =>
      givenSchema r req (fun schemaStr st =>
        let! fields := extract schemaStr st in
        let maxDepth := fold_left (fun depth f => Z.max depth (pathDepth (Path f))) fields 0%Z in
        let fieldCount := Z.of_nat (List.length fields) in
        Ret (answerMap [("schema_type", AString st); ("field_count", AInt fieldCount); ("max_depth", AInt maxDepth);
                        ("grade", AString (complexityGrade fieldCount maxDepth))]))
  end.

(** ** Subjects *)

(** [isValidIdentifier] *)
Definition isValidIdentifier (s : string) : bool :=
  let letter c := is_lower c || is_upper c || Ascii.eqb c "_" in
  match s with
  | EmptyString => false
  | String c _ => letter c && forallb (fun c => letter c || is_digit c) (list_ascii_of_string s)
  end.

(** Whether a name fits a strategy, what is wrong and a better name. *)
Definition checkName (subject strategy : string) : bool * list string * string :=
  if decide (strategy = "topic_name") then
    if negb (HasSuffix subject "-key") && negb (HasSuffix subject "-value")
    then (false, ["TopicNameStrategy subjects must end with '-key' or '-value'"], subject ++ "-value")
    else (true, [], "")
  else if decide (strategy = "record_name") then
    if forallb (fun p => negb (bool_decide (p = "")) && isValidIdentifier p) (Split subject ".")
    then (true, [], "")
    else (false, ["RecordNameStrategy subjects must be valid qualified names (e.g., com.example.User)"], "")
  else if decide (strategy = "topic_record_name") then
    if Contains subject "-" then (true, [], "")
    else (false, ["TopicRecordNameStrategy subjects must contain a topic and record name"], "")
  else (true, [], "").

(** POST /subjects/validate, with the subject and the strategy *)
Definition ValidateSubjectName (body : option (string * string)) : Response :=
  match body with
  | None => invalidBody
  | Some (subject, strategy) =>
      if decide (subject = "") then badRequest "Subject is required"
      else
        let strategy := if decide (strategy = "") then "topic_name" else strategy in
        let '(valid, issues, suggestion) := checkName subject strategy in
        answerMap [("subject", AString subject); ("strategy", AString strategy); ("valid", ABool valid);
                   ("issues", nilable_strings issues); ("suggestion", AString suggestion)]
  end.

(** POST /subjects/match *)
Definition MatchSubjects r (body : option MatchRequest) : prog Response :=
  match body with
  | None => Ret invalidBody
  | Some req =>
      let pattern := MatchPattern req in
      if decide (pattern = "") then Ret (badRequest "Pattern is required")
      else
        let mode := if decide (MatchMode req = "") then "regex" else MatchMode req in
        let threshold := clampThreshold (tenths 6) (MatchThreshold req) in
        overSubjects r (fun _ subjects =>
          let plain s :=
            if decide (mode = "glob") then globMatch pattern s
            else if decide (mode = "fuzzy") then SFleb threshold (FuzzyScore pattern s)
            else false in
          compiled (bool_decide (mode = "regex")) pattern plain invalidRegex (fun matches =>
            let matched := List.filter matches subjects in
            Ret (answerMap [("pattern", AString pattern); ("mode", AString mode); ("count", count_of matched);
                            ("matches", AStrings matched)])))
  end.

(** GET /subjects/{subject}/history *)
Definition GetSchemaHistory r : prog Response :=
  inSubject r globalContextRejected (fun registryCtx subject =>
    let! schemas := invoke (CGetSchemasBySubject registryCtx subject false) in
    Ret (match schemas with
         | Err _ => noSuchSubject
         | Ok schemas =>
             let history := take 50 schemas in
             answerMap [("subject", AString subject); ("count", count_of history);
                        ("history", AList (map (fun s => AMap [("version", AInt (Version s)); ("schema_id", AInt (ID s));
                                                               ("schema_type", AString (SchemaType s))]) history))]
         end)).

Definition invalidVersionNumber : Response := writeError 400 ErrorCodeInvalidVersion "Invalid version".
Definition noSuchSchema : Response := writeError 404 ErrorCodeSchemaNotFound "Schema not found".

(** GET /subjects/{subject}/versions/{version}/dependencies *)
Definition GetDependencyGraph r : prog Response :=
  inSubject r globalContextRejected (fun registryCtx subject =>
    match Atoi (URLParam r "version") with
    | None => Ret invalidVersionNumber
    | Some version =>
        let! rec := invoke (CGetSchemaBySubjectVersion registryCtx subject version) in
        match rec with
        | Err _ => Ret noSuchSchema
        | Ok rec =>
            let! referencedBy := invoke (CGetReferencedBy registryCtx subject version) in
            let refs := map (fun sv => AMap [("subject", AString (SVSubject sv)); ("version", AInt (SVVersion sv))])
                          (match referencedBy with Ok l => l | Err _ => [] end) in
            Ret (answerMap [("subject", AString subject); ("version", AInt version); ("schema_id", AInt (ID rec));
                            ("referenced_by", AList refs)])
        end
    end).

(** The differences between two sets of fields, each in the order of its map. *)
Definition addedFields (e : env) (set1 set2 : gmap string string) : list (string * string) :=
  List.filter (fun '(name, _) => negb (bool_decide (is_Some (set1 !! name)))) (range e set2).

Definition changedFields (e : env) (set1 set2 : gmap string string) : list (string * string * string) :=
  omap (fun '(name, t) =>
    old ← set1 !! name;
    if decide (old = t) then None else Some (name, old, t)) (range e set2).

Definition diffEntry (added : string * string) : Any :=
  let '(name, t) := added in AMap [("field", AString name); ("type", AString t)].
Definition diffChange (changed : string * string * string) : Any :=
  let '(name, old, t) := changed in AMap [("field", AString name); ("old_type", AString old); ("new_type", AString t)].

(** POST /subjects/{subject}/diff, with the two versions *)
Definition DiffSchemas r (body : option (Z * Z)) : prog Response :=
  inSubject r globalContextRejected (fun registryCtx subject =>
    match body with
    | None => Ret invalidBody
    | Some (version1, version2) =>
        let version1 := if decide (version1 = 0%Z) then 1%Z else version1 in
        let! schema1 := invoke (CGetSchemaBySubjectVersion registryCtx subject version1) in
        match schema1 with
        | Err _ => Ret (versionMissing version1)
        | Ok schema1 =>
            let diff (v2 : Z) : prog Response :=
              let! schema2 := invoke (CGetSchemaBySubjectVersion registryCtx subject v2) in
              match schema2 with
              | Err _ => Ret (versionMissing v2)
              | Ok schema2 =>
                  let! fields1 := extract (Schema schema1) (SchemaType schema1) in
                  let! fields2 := extract (Schema schema2) (SchemaType schema2) in
                  let set1 := fieldTypes fields1 in
                  let set2 := fieldTypes fields2 in
                  Choose (fun e =>
                    Ret (answerMap [("subject", AString subject); ("version1", AInt version1); ("version2", AInt v2);
                                    ("added", nilable (map diffEntry (addedFields e set1 set2)));
                                    ("removed", nilable (map diffEntry (addedFields e set2 set1)));
                                    ("changed", nilable (map diffChange (changedFields e set1 set2)))]))
              end in
            if decide (version2 = 0%Z) then
              let! latest := invoke (CGetLatestSchema registryCtx subject) in
              match latest with Err _ => Ret noSuchSubject | Ok latest => diff (Version latest) end
            else diff version2
        end
    end).

(** The latest schema of the subject and its configuration. *)
Definition latestAndLevel r (k : string -> string -> SchemaRecord -> string -> prog Response) : prog Response :=
  inSubject r globalContextRejected (fun registryCtx subject =>
    let! latest := invoke (CGetLatestSchema registryCtx subject) in
    match latest with
    | Err _ => Ret noSuchSubject
    | Ok latest =>
        let! config := GetConfigFull (defaultConfig reg) registryCtx subject in
        k registryCtx subject latest (shownLevel config)
    end).

(** POST /subjects/{subject}/evolve, with the number of changes *)
Definition SuggestSchemaEvolution r (body : option Z) : prog Response :=
  let '(registryCtx, _) := requestSubject r in
  if RegContext.rejectGlobalContext registryCtx then Ret globalContextRejected
  else
    match body with
    | None => Ret invalidBody
    | Some changes =>
        latestAndLevel r (fun _ subject latest level =>
          Ret (answerMap [("subject", AString subject); ("current_version", AInt (Version latest));
                          ("compatibility_level", AString level); ("changes_requested", AInt changes);
                          ("message", AString "Schema evolution suggestions are available via the MCP tool suggest_schema_evolution for richer analysis")]))
    end.

Definition migrationSteps (sourceFields targetFields : list FieldInfo) : list string :=
  let sourceSet := fieldNames sourceFields in
  let targetSet := fieldNames targetFields in
  let steps :=
    (omap (fun f =>
       if decide (is_Some (sourceSet !! Name f)) then None
       else Some ("Add field '" ++ Name f ++ "' (type: " ++ FieldType f ++ ") with a default value")%string) targetFields ++
     omap (fun f =>
       if decide (is_Some (targetSet !! Name f)) then None
       else Some ("Remove field '" ++ Name f ++ "' (may require compatibility level change)")%string) sourceFields)%list in
  match steps with [] => ["No migration steps needed — schemas have the same fields"] | _ => steps end.

(** POST /subjects/{subject}/migrate *)
Definition PlanMigrationPath r (body : option SchemaRequest) : prog Response :=
  let '(registryCtx, _) := requestSubject r in
  if RegContext.rejectGlobalContext registryCtx then Ret globalContextRejected
  else
    match body with
    | None => Ret invalidBody
    | Some req =>
        if decide (ReqSchema req = "") then Ret (badRequest "target_schema is required")
        else
          latestAndLevel r (fun _ subject latest level =>
            let! sourceFields := extract (Schema latest) (SchemaType latest) in
            let st := if decide (ToUpper (ReqSchemaType req) = "") then SchemaType latest else ToUpper (ReqSchemaType req) in
            let! targetFields := extract (ReqSchema req) st in
            let steps := migrationSteps sourceFields targetFields in
            Ret (answerMap [("subject", AString subject); ("current_version", AInt (Version latest));
                            ("compatibility_level", AString level); ("steps", AStrings steps); ("step_count", count_of steps)]))
    end.

(** GET /subjects/{subject}/export *)
Definition ExportSubject r : prog Response :=
  inSubject r globalContextRejected (fun registryCtx subject =>
    let! schemas := invoke (CGetSchemasBySubject registryCtx subject false) in
    Ret (match schemas with
         | Err _ => noSuchSubject
         | Ok schemas =>
             answerMap [("subject", AString subject); ("count", count_of schemas);
                        ("versions", AList (map (fun s => AMap [("subject", AString subject); ("version", AInt (Version s)); ("id", AInt (ID s));
                                                                ("schema", AString (Schema s)); ("schema_type", AString (SchemaType s))]) schemas))]
         end)).

(** GET /subjects/{subject}/versions/{version}/export *)
Definition ExportSchema r : prog Response :=
  inSubject r globalContextRejected (fun registryCtx subject =>
    match Atoi (URLParam r "version") with
    | None => Ret invalidVersionNumber
    | Some version =>
        let! rec := invoke (CGetSchemaBySubjectVersion registryCtx subject version) in
        match rec with
        | Err _ => Ret noSuchSchema
        | Ok rec =>
            let! config := GetConfigFull (defaultConfig reg) registryCtx subject in
            Ret (answerMap [("subject", AString subject); ("version", AInt version); ("id", AInt (ID rec)); ("schema", AString (Schema rec));
                            ("schema_type", AString (SchemaType rec)); ("compatibility_level", AString (shownLevel config))])
        end
    end).

(** ** Compatibility *)

Fixpoint checkSubjects (registryCtx schemaStr st : string) (subjects : list string) : prog (option (list Any)) :=
  match subjects with
  | [] => ret_fuel []
  | subj :: subjects =>
      let? result := RegistryOps.CheckCompatibility reg fuel registryCtx subj schemaStr st [] "latest" false in
      let entry :=
        match result with
        | Err err => [("subject", AString subj); ("is_compatible", ABool false)] ++
                       (if decide (err_text err = "") then [] else [("error", AString (err_text err))])
        | Ok result => [("subject", AString subj); ("is_compatible", ABool (IsCompatible result))]
        end%list in
      let? results := checkSubjects registryCtx schemaStr st subjects in
      ret_fuel (AMap entry :: results)
  end.

(** POST /compatibility/check *)
Definition CheckCompatibilityMulti r (body : option CheckMultiRequest) : prog (option Response) :=
  match body with
  | None => ret_fuel invalidBody
  | Some req =>
      if decide (MultiSchema req = "") then ret_fuel (badRequest "Schema is required")
      else
        let? results := checkSubjects (getRegistryContext r) (MultiSchema req) (defaultType (ToUpper (MultiSchemaType req))) (MultiSubjects req) in
        ret_fuel (answerMap [("results", AList results)])
  end.

(** The advice for a level. *)
Definition suggestions (level : string) : list string :=
  let level := ToUpper level in
  if decide (level ∈ ["BACKWARD"; "BACKWARD_TRANSITIVE"])
  then ["Add new fields with default values"; "Do NOT remove existing fields"; "Do NOT change field types"]
  else if decide (level ∈ ["FORWARD"; "FORWARD_TRANSITIVE"])
  then ["Remove fields (new consumers will ignore them)"; "Do NOT add required fields without defaults"]
  else if decide (level ∈ ["FULL"; "FULL_TRANSITIVE"])
  then ["Only add optional fields with defaults"; "Do NOT remove or rename fields"]
  else if decide (level = "NONE") then ["Any change is allowed (no compatibility checks)"]
  else [].

(** POST /compatibility/subjects/{subject}/suggest *)
Definition SuggestCompatibleChange r : prog Response :=
  inSubject r globalContextRejected (fun registryCtx subject =>
    let! config := GetConfigFull (defaultConfig reg) registryCtx subject in
    let level := shownLevel config in
    Ret (answerMap [("subject", AString subject); ("compatibility_level", AString level);
                    ("suggestions", nilable_strings (suggestions level))])).

(** POST /compatibility/subjects/{subject}/explain *)
Definition ExplainCompatibilityFailure r (body : option SchemaRequest) : prog (option Response) :=
  inSubject r (Some globalContextRejected) (fun registryCtx subject =>
    match body with
    | None => ret_fuel invalidBody
    | Some req =>
        if decide (ReqSchema req = "") then ret_fuel (badRequest "Schema is required")
        else
          let? result := RegistryOps.CheckCompatibility reg fuel registryCtx subject (ReqSchema req)
                           (defaultType (ToUpper (ReqSchemaType req))) [] "latest" false in
          let! config := GetConfigFull (defaultConfig reg) registryCtx subject in
          let level := shownLevel config in
          let answer isCompatible more :=
            answerMap ([("subject", AString subject); ("compatibility_level", AString level); ("is_compatible", ABool isCompatible)] ++ more)%list in
          ret_fuel (match result with
                    | Ok result => answer (IsCompatible result) []
                    | Err err =>
                        answer false [("error", AString (err_text err));
                          ("explanation", AString ("The schema is not compatible with the existing schema under " ++ level ++ " compatibility")%string)]
                    end)
    end).

(** POST /compatibility/compare, with the two subjects *)
Definition CompareSubjects r (body : option (string * string)) : prog Response :=
  match body with
  | None => Ret invalidBody
  | Some (subject1, subject2) =>
      if decide (subject1 = "" \/ subject2 = "") then Ret (badRequest "Both subject1 and subject2 are required")
      else
        let registryCtx := getRegistryContext r in
        let missing which := Ret (writeError 404 ErrorCodeSubjectNotFound (which ++ " not found")%string) in
        let! s1 := invoke (CGetLatestSchema registryCtx subject1) in
        match s1 with
        | Err _ => missing "Subject1"
        | Ok s1 =>
            let! s2 := invoke (CGetLatestSchema registryCtx subject2) in
            match s2 with
            | Err _ => missing "Subject2"
            | Ok s2 =>
                let! fields1 := extract (Schema s1) (SchemaType s1) in
                let! fields2 := extract (Schema s2) (SchemaType s2) in
                let set1 := fieldTypes fields1 in
                let set2 := fieldTypes fields2 in
                Choose (fun e =>
                  let names := map fst (range e set1) in
                  let shared := List.filter (fun name => bool_decide (is_Some (set2 !! name))) names in
                  let onlyIn1 := List.filter (fun name => negb (bool_decide (is_Some (set2 !! name)))) names in
                  let onlyIn2 := List.filter (fun name => negb (bool_decide (is_Some (set1 !! name)))) (map fst (range e set2)) in
                  Ret (answerMap [("subject1", AString subject1); ("subject2", AString subject2); ("shared", nilable_strings shared);
                                  ("only_in_sub1", nilable_strings onlyIn1); ("only_in_sub2", nilable_strings onlyIn2)]))
            end
        end
  end.

(** ** Statistics *)

Fixpoint countAll (registryCtx : string) (subjects : list string) (typeCounts : gmap string Z) (totalVersions : Z)
    : prog (gmap string Z * Z) :=
  match subjects with
  | [] => Ret (typeCounts, totalVersions)
  | subj :: subjects =>
      let! versions := RegistryOps.GetVersions registryCtx subj false in
      let totalVersions :=
        match versions with Ok versions => (totalVersions + Z.of_nat (List.length versions))%Z | Err _ => totalVersions end in
      let! latest := invoke (CGetLatestSchema registryCtx subj) in
      let typeCounts := match latest with Ok latest => increment (SchemaType latest) typeCounts | Err _ => typeCounts end in
      countAll registryCtx subjects typeCounts totalVersions
  end.

(** GET /statistics *)
Definition GetRegistryStatistics r : prog Response :=
  overSubjects r (fun registryCtx subjects =>
    let! counts := countAll registryCtx subjects ∅ 0 in
    Ret (answerMap [("subject_count", count_of subjects); ("version_count", AInt (snd counts)); ("type_counts", ACounts (fst counts))])).

(** The fields of all subjects that are used, each with its subject. *)
Fixpoint usages (registryCtx : string) (used : FieldInfo -> bool) (subjects : list string) : prog (list (string * FieldInfo)) :=
  match subjects with
  | [] => Ret []
  | subj :: subjects =>
      let! latest := invoke (CGetLatestSchema registryCtx subj) in
      match latest with
      | Err _ => usages registryCtx used subjects
      | Ok latest =>
          let! fields := extract (Schema latest) (SchemaType latest) in
          let! more := usages registryCtx used subjects in
          Ret (map (fun f => (subj, f)) (List.filter used fields) ++ more)%list
      end
  end.

Definition count_by (key : string * FieldInfo -> string) (l : list (string * FieldInfo)) : gmap string Z :=
  fold_left (fun counts x => increment (key x) counts) l ∅.

(** GET /statistics/fields/{field} *)
Definition CheckFieldConsistency r : prog Response :=
  let field := URLParam r "field" in
  if decide (field = "") then Ret (badRequest "Field name is required")
  else
    overSubjects r (fun registryCtx subjects =>
      let variants := NamingVariants field in
      let! found := usages registryCtx (fun f =>
        existsb (fun v => bool_decide (NormalizeFieldName v = NormalizeFieldName (Name f))) variants) subjects in
      let typeCounts := count_by (fun '(_, f) => FieldType f) found in
      Ret (answerMap [("field", AString field); ("consistent", ABool (size typeCounts <=? 1)%nat); ("type_counts", ACounts typeCounts);
                      ("usages", AList (map (fun '(subj, f) => AMap [("subject", AString subj); ("field_name", AString (Name f));
                                                                    ("field_type", AString (FieldType f))]) found))])).

(** GET /statistics/patterns *)
Definition DetectSchemaPatterns r : prog Response :=
  overSubjects r (fun registryCtx subjects =>
    let! found := usages registryCtx (fun _ => true) subjects in
    let fieldCounts := count_by (fun '(_, f) => NormalizeFieldName (Name f)) found in
    Choose (fun e =>
      let common := List.filter (fun '(_, n) => (2 <=? n)%Z) (range e fieldCounts) in
      Ret (answerMap [("subject_count", count_of subjects);
                      ("common_fields", AList (map (fun '(name, n) => AMap [("field", AString name); ("count", AInt n)]) common));
                      ("pattern_count", count_of common)]))).

(** GET /subjects/count *)
Definition CountSubjects r : prog Response :=
  overSubjects r (fun _ subjects => Ret (answerMap [("count", count_of subjects)])).

(** GET /subjects/{subject}/versions/count *)
Definition CountVersions r : prog Response :=
  inSubject r globalContextRejected (fun registryCtx subject =>
    let! versions := RegistryOps.GetVersions registryCtx subject false in
    Ret (match versions with
         | Err _ => noSuchSubject
         | Ok versions => answerMap [("subject", AString subject); ("count", count_of versions)]
         end)).
End handlers.
