(* ===== verification/HandlersAnalysisFacts.v ===== *)
(** * What the analysis requests answer

    They change nothing.  The difference of two versions is that of their fields
    while no name has two types. *)
From S2P Require Import Prelude GoStrings GoFloat StorageTypes StorageIface ProgLogic RegistryRefs RegistryConfig RegistrySchemas Compat RegistryOps RegistryFacts MemStore Glob Analysis HttpCodes Http HandlersAnalysis.
From Stdlib Require Import Ascii String.

Local Open Scope string_scope.

Section reads.
Context (reg : Registry) (fuel : nat).
Context (regexp_Compile : string -> result (string -> bool)) (avro_Parse : string -> option AvroView).
Implicit Types r : Request.

Lemma reads_inSubject {A} r (a : A) k : (forall c subject, reads_only (k c subject)) -> reads_only (inSubject r a k).
Proof. intros Hk. unfold inSubject. destruct (requestSubject r) as [c subject]. by case_match. Qed.

Lemma reads_overSubjects r k : (forall c subjects, reads_only (k c subjects)) -> reads_only (overSubjects r k).
Proof. intros Hk. unfold overSubjects. cbv zeta. reads. Qed.

Lemma reads_extract s t : reads_only (extract avro_Parse s t).
Proof. by intros e. Qed.

Lemma reads_latestSchemas c limit found subjects results :
  (forall subj latest, reads_only (found subj latest)) -> reads_only (latestSchemas c limit found subjects results).
Proof.
  intros Hf. revert results. induction subjects as [|subj subjects IH]; intros results; simpl; [done|].
  case_match; [done|]. split; [done|]. intros [latest|err]; [|apply IH]. apply reads_only_bind; [apply Hf|intros; apply IH].
Qed.

Lemma reads_compiled {B} regex expr plain (onError : error -> prog B) k :
  (forall err, reads_only (onError err)) -> (forall m, reads_only (k m)) -> reads_only (compiled regexp_Compile regex expr plain onError k).
Proof. intros He Hk. unfold compiled. by repeat case_match. Qed.

Lemma reads_givenSchema r req k : (forall s t, reads_only (k s t)) -> reads_only (givenSchema r req k).
Proof. intros Hk. unfold givenSchema. cbv zeta. reads. Qed.

Lemma reads_latestAndLevel r k : (forall c s latest level, reads_only (k c s latest level)) -> reads_only (latestAndLevel reg r k).
Proof.
  intros Hk. unfold latestAndLevel. apply reads_inSubject. intros c subject. unfold GetConfigFull. reads.
Qed.

Lemma reads_usages c used subjects : reads_only (usages avro_Parse c used subjects).
Proof.
  induction subjects as [|subj subjects IH]; simpl; [done|]. split; [done|]. intros [latest|err]; [|done].
  intros e. by apply reads_only_bind.
Qed.

Lemma reads_countAll c subjects counts n : reads_only (countAll c subjects counts n).
Proof.
  revert counts n. induction subjects as [|subj subjects IH]; intros counts n; [done|].
  cbn [countAll]. unfold RegistryOps.GetVersions. reads.
Qed.

Lemma reads_CheckCompatibility c subj s st refs version b :
  reads_only (RegistryOps.CheckCompatibility reg fuel c subj s st refs version b).
Proof. unfold RegistryOps.CheckCompatibility, isNormalizeEnabled. reads. Qed.

Lemma reads_checkSubjects c s st subjects : reads_only (checkSubjects reg fuel c s st subjects).
Proof.
  induction subjects as [|subj subjects IH]; simpl; [done|].
  apply reads_only_bind_fuel; [apply reads_CheckCompatibility|]. intros result. by apply reads_only_bind_fuel.
Qed.

(** The requests of the analysis routes. *)
Inductive analysis_request r : forall A, prog A -> Prop :=
  | AValidateSchema body : analysis_request r _ (ValidateSchema reg fuel r body)
  | ANormalizeSchema body : analysis_request r _ (NormalizeSchema reg fuel r body)
  | ASearchSchemas body : analysis_request r _ (SearchSchemas regexp_Compile r body)
  | AFindSchemasByField body : analysis_request r _ (FindSchemasByField regexp_Compile avro_Parse r body)
  | AFindSchemasByType body : analysis_request r _ (FindSchemasByType regexp_Compile avro_Parse r body)
  | AFindSimilarSchemas body : analysis_request r _ (FindSimilarSchemas avro_Parse r body)
  | AScoreSchemaQuality body : analysis_request r _ (ScoreSchemaQuality avro_Parse r body)
  | AGetSchemaComplexity body : analysis_request r _ (GetSchemaComplexity avro_Parse r body)
  | AMatchSubjects body : analysis_request r _ (MatchSubjects regexp_Compile r body)
  | AGetSchemaHistory : analysis_request r _ (GetSchemaHistory r)
  | AGetDependencyGraph : analysis_request r _ (GetDependencyGraph r)
  | ADiffSchemas body : analysis_request r _ (DiffSchemas avro_Parse r body)
  | ASuggestSchemaEvolution body : analysis_request r _ (SuggestSchemaEvolution reg r body)
  | APlanMigrationPath body : analysis_request r _ (PlanMigrationPath reg avro_Parse r body)
  | AExportSubject : analysis_request r _ (ExportSubject r)
  | AExportSchema : analysis_request r _ (ExportSchema reg r)
  | ACheckCompatibilityMulti body : analysis_request r _ (CheckCompatibilityMulti reg fuel r body)
  | ASuggestCompatibleChange : analysis_request r _ (SuggestCompatibleChange reg r)
  | AExplainCompatibilityFailure body : analysis_request r _ (ExplainCompatibilityFailure reg fuel r body)
  | ACompareSubjects body : analysis_request r _ (CompareSubjects avro_Parse r body)
  | AGetRegistryStatistics : analysis_request r _ (GetRegistryStatistics r)
  | ACheckFieldConsistency : analysis_request r _ (CheckFieldConsistency avro_Parse r)
  | ADetectSchemaPatterns : analysis_request r _ (DetectSchemaPatterns avro_Parse r)
  | ACountSubjects : analysis_request r _ (CountSubjects r)
  | ACountVersions : analysis_request r _ (CountVersions r).

Ltac analysis_step :=
  match goal with
  | |- reads_only (inSubject _ _ _) => apply reads_inSubject; intros ? ?
  | |- reads_only (overSubjects _ _) => apply reads_overSubjects; intros ? ?
  | |- reads_only (compiled _ _ _ _ _ _) => apply reads_compiled; intros ?
  | |- reads_only (givenSchema _ _ _) => apply reads_givenSchema; intros ? ?
  | |- reads_only (latestAndLevel _ _ _) => apply reads_latestAndLevel; intros ? ? ? ?
  | |- reads_only (latestSchemas _ _ _ _ _) => apply reads_latestSchemas; intros ? ?
  | |- reads_only (extract _ _ _) => apply reads_extract
  | |- reads_only (usages _ _ _ _) => apply reads_usages
  | |- reads_only (countAll _ _ _ _) => apply reads_countAll
  | |- reads_only (checkSubjects _ _ _ _ _ _) => apply reads_checkSubjects
  | |- reads_only (RegistryOps.CheckCompatibility _ _ _ _ _ _ _ _ _) => apply reads_CheckCompatibility
  | |- reads_only (bind _ _) => apply reads_only_bind; [|intros ?]
  | |- reads_only (bind_fuel _ _) => apply reads_only_bind_fuel; [|intros ?]
  | |- reads_only (invalidRegex _) => exact I
  | |- reads_only (match ?x with _ => _ end) => destruct x
  | |- _ => progress reads
  end.

Lemma analysis_reads r A (p : prog A) : analysis_request r A p -> reads_only p.
Proof.
  destruct 1;
    [unfold ValidateSchema, RegistryOps.ValidateSchema|unfold NormalizeSchema, RegistryOps.NormalizeSchema|unfold SearchSchemas
    |unfold FindSchemasByField|unfold FindSchemasByType|unfold FindSimilarSchemas|unfold ScoreSchemaQuality|unfold GetSchemaComplexity
    |unfold MatchSubjects|unfold GetSchemaHistory|unfold GetDependencyGraph|unfold DiffSchemas|unfold SuggestSchemaEvolution
    |unfold PlanMigrationPath|unfold ExportSubject|unfold ExportSchema, GetConfigFull|unfold CheckCompatibilityMulti
    |unfold SuggestCompatibleChange, GetConfigFull|unfold ExplainCompatibilityFailure, GetConfigFull|unfold CompareSubjects
    |unfold GetRegistryStatistics|unfold CheckFieldConsistency|unfold DetectSchemaPatterns|unfold CountSubjects
    |unfold CountVersions, RegistryOps.GetVersions]; cbv zeta; repeat analysis_step.
Qed.
End reads.

(** ** Differences *)

Section diff.
Context (avro_Parse : string -> option AvroView).

(** A field of a schema, in whatever order its maps are visited. *)
Definition field_of (s : SchemaRecord) (name t : string) : Prop :=
  exists f, f ∈ ExtractFields avro_Parse env0 (Schema s) (SchemaType s) /\ Name f = name /\ FieldType f = t.

Definition unambiguous (s : SchemaRecord) : Prop := forall name t t', field_of s name t -> field_of s name t' -> t = t'.

Definition lacks (s : SchemaRecord) (name : string) : Prop := forall t, ~ field_of s name t.

Lemma fieldTypes_app l f : fieldTypes (l ++ [f]) = <[Name f := FieldType f]> (fieldTypes l).
Proof. unfold fieldTypes. by rewrite fold_left_app. Qed.

Lemma fieldTypes_elem fields name t :
  fieldTypes fields !! name = Some t -> exists f, f ∈ fields /\ Name f = name /\ FieldType f = t.
Proof.
  revert t. induction fields as [|f fields IH] using rev_ind; intros t; [done|]. rewrite fieldTypes_app.
  intros [[<- <-]|[_ H]]%lookup_insert_Some; [exists f|apply IH in H as (g & Hg & H); exists g]; (split; [set_solver|done]).
Qed.

Lemma fieldTypes_total fields f : f ∈ fields -> is_Some (fieldTypes fields !! Name f).
Proof.
  induction fields as [|g fields IH] using rev_ind; [by intros ?%not_elem_of_nil|]. rewrite fieldTypes_app, elem_of_app, list_elem_of_singleton.
  intros [Hf| ->]; [|by rewrite lookup_insert_eq]. destruct (decide (Name g = Name f)) as [->|Hn]; [by rewrite lookup_insert_eq|].
  rewrite lookup_insert_ne by done. auto.
Qed.

(** The map of a schema is its fields. *)
Lemma fieldTypes_spec e s name t :
  unambiguous s -> fieldTypes (ExtractFields avro_Parse e (Schema s) (SchemaType s)) !! name = Some t <-> field_of s name t.
Proof.
  intros Hu. pose proof (ExtractFields_perm avro_Parse e env0 (Schema s) (SchemaType s)) as Hp.
  assert (forall name t, fieldTypes (ExtractFields avro_Parse e (Schema s) (SchemaType s)) !! name = Some t -> field_of s name t) as H.
  { intros name' t' (f & Hf & H)%fieldTypes_elem. exists f. by rewrite <- Hp. }
  split; [apply H|]. intros Hf. pose proof Hf as (f & Hin & <- & Ht). rewrite <- Hp in Hin.
  apply fieldTypes_total in Hin as [t' Ht']. rewrite Ht'. f_equal. eapply Hu; [by apply H|]. exact Hf.
Qed.

Lemma fieldTypes_lacks e s name :
  unambiguous s -> fieldTypes (ExtractFields avro_Parse e (Schema s) (SchemaType s)) !! name = None <-> lacks s name.
Proof.
  intros Hu. rewrite eq_None_not_Some. split.
  - intros Hn t Ht. apply Hn. exists t. by apply fieldTypes_spec.
  - intros Hl [t Ht]. apply (Hl t). by apply (fieldTypes_spec e).
Qed.

Lemma elem_of_added e set1 set2 name t : (name, t) ∈ addedFields e set1 set2 <-> set2 !! name = Some t /\ set1 !! name = None.
Proof.
  unfold addedFields. rewrite list_elem_of_In, filter_In, <- list_elem_of_In, elem_of_range, negb_true_iff, bool_decide_eq_false.
  by rewrite eq_None_not_Some.
Qed.

Lemma elem_of_changed e set1 set2 name old t :
  (name, old, t) ∈ changedFields e set1 set2 <-> set1 !! name = Some old /\ set2 !! name = Some t /\ old <> t.
Proof.
  unfold changedFields. rewrite list_elem_of_omap. split.
  - intros ([name' t'] & Hr%elem_of_range & H). destruct (set1 !! name') as [old'|] eqn:E; [|done]. cbn in H. case_decide; [done|].
    by injection H as -> -> ->.
  - intros (H1 & H2 & Hn). exists (name, t). split; [by apply elem_of_range|]. rewrite H1. cbn. by rewrite decide_False.
Qed.

(** A version that is stored under the subject of a request. *)
Definition has_version (r : Request) (s : MemState.Store) (v : Z) (schema : SchemaRecord) : Prop :=
  forall e, GetSchemaBySubjectVersion e (fst (requestSubject r)) (snd (requestSubject r)) v s = Ok schema.

(** The difference of two stored versions in which no field name has
    two types is answered in full: the fields that only the second has, those that
    only the first has, and those whose type differs, with both types, in whatever
    order maps are visited. *)
Theorem DiffSchemas_spec r v1 v2 schema1 schema2 ρ (s : MemState.Store) :
  RegContext.rejectGlobalContext (fst (requestSubject r)) = false -> v1 <> 0%Z -> v2 <> 0%Z ->
  has_version r s v1 schema1 -> has_version r s v2 schema2 -> unambiguous schema1 -> unambiguous schema2 ->
  exists added removed changed,
    run (DiffSchemas avro_Parse r (Some (v1, v2))) ρ s =
      (answerMap [("subject", AString (snd (requestSubject r))); ("version1", AInt v1); ("version2", AInt v2);
                  ("added", nilable (map diffEntry added)); ("removed", nilable (map diffEntry removed));
                  ("changed", nilable (map diffChange changed))], s) /\
    (forall name t, (name, t) ∈ added <-> field_of schema2 name t /\ lacks schema1 name) /\
    (forall name t, (name, t) ∈ removed <-> field_of schema1 name t /\ lacks schema2 name) /\
    (forall name t t', (name, t, t') ∈ changed <-> field_of schema1 name t /\ field_of schema2 name t' /\ t <> t').
Proof.
  intros Hg Hv1 Hv2 H1 H2 Hu1 Hu2. unfold DiffSchemas, inSubject. unfold has_version in *.
  destruct (requestSubject r) as [c subject]. cbn [fst snd] in *. rewrite Hg. cbv zeta. rewrite !decide_False by done.
  cbn [bind invoke extract run handle memory_storage memory_handle pure]. rewrite H1. rewrite (decide_False _ _ Hv2). cbn [bind run handle memory_storage memory_handle pure invoke].
  rewrite H2. cbn [bind run extract].
  eexists _, _, _. split; [done|]. split_and!; intros *.
  - by rewrite elem_of_added, fieldTypes_spec, fieldTypes_lacks.
  - by rewrite elem_of_added, fieldTypes_spec, fieldTypes_lacks.
  - by rewrite elem_of_changed, !fieldTypes_spec.
Qed.
End diff.

(** ** Runs *)

(** The text of a JSON Schema with these properties. *)
Definition with_properties (properties : string) : string :=
  GoJson.quoted ("{'type':'object','properties':{" ++ properties ++ "}}").

(** A store with these texts as the versions of a subject. *)
Definition people (texts : list string) : MemState.Store :=
  fold_left (fun s text =>
    snd (CreateSchema env0 "." (MkSchemaRecord 0 "people" 0 SchemaTypeJSON text [] None None text false 0) s)) texts MemState.NewStore.

Definition people_store : MemState.Store :=
  people [with_properties "'id':{'type':'string'},'old':{'type':'integer'}"; with_properties "'id':{'type':'integer'},'name':{'type':'string'}"].

Definition people_request : Request := MkRequest None (fun _ => "people") (fun _ => []).

Definition no_avro : string -> option AvroView := fun _ => None.

Definition version_of (s : MemState.Store) (v : Z) : SchemaRecord :=
  match GetSchemaBySubjectVersion env0 "." "people" v s with
  | Ok schema => schema
  | Err _ => MkSchemaRecord 0 "" 0 "" "" [] None None "" false 0
  end.

Lemma unambiguous_NoDup avro_Parse s : NoDup (map Name (ExtractFields avro_Parse env0 (Schema s) (SchemaType s))) -> unambiguous avro_Parse s.
Proof.
  intros Hn name t t' (f & Hf & <- & <-) (g & Hg & E & <-). f_equal.
  apply list_elem_of_lookup in Hf as [i Hi], Hg as [j Hj].
  assert (i = j) as ->; [|congruence].
  eapply (NoDup_lookup _ i j (Name f)); [done|by rewrite list_lookup_fmap, Hi|by rewrite list_lookup_fmap, Hj; cbn; rewrite E].
Qed.

Lemma DiffSchemas_spec_witness : exists added removed changed,
  run (DiffSchemas no_avro people_request (Some (1, 2)%Z)) (fun _ => env0) people_store =
    (answerMap [("subject", AString "people"); ("version1", AInt 1); ("version2", AInt 2);
                ("added", nilable (map diffEntry added)); ("removed", nilable (map diffEntry removed));
                ("changed", nilable (map diffChange changed))], people_store) /\
  (forall name t t', (name, t, t') ∈ changed <->
    field_of no_avro (version_of people_store 1) name t /\ field_of no_avro (version_of people_store 2) name t' /\ t <> t').
Proof.
  destruct (DiffSchemas_spec no_avro people_request 1 2 (version_of people_store 1) (version_of people_store 2) (fun _ => env0) people_store)
    as (added & removed & changed & E & _ & _ & H).
  - reflexivity.
  - discriminate.
  - discriminate.
  - intros e. vm_compute. reflexivity.
  - intros e. vm_compute. reflexivity.
  - apply unambiguous_NoDup. vm_compute. by apply (bool_decide_unpack (NoDup _)).
  - apply unambiguous_NoDup. vm_compute. by apply (bool_decide_unpack (NoDup _)).
  - exists added, removed, changed. split; [exact E|exact H].
Defined.

(** Two properties of one name at different levels: the map holds the type of the
    one that is visited last, and a version may differ from itself. *)
Definition nested_store : MemState.Store :=
  people [with_properties "'id':{'type':'string'},'owner':{'type':'object','properties':{'id':{'type':'integer'}}}"].

Example differs_from_itself :
  let changes (ρ : nat -> env) := ResponseBody (fst (run (DiffSchemas no_avro people_request (Some (1, 1)%Z)) ρ nested_store)) in
  changes (fun _ => env0) <> changes (fun i => if (i =? 2)%nat then env_backwards else env0).
Proof. vm_compute. done. Qed.

(** One result is asked for, two are found in the first subject. *)
Example limit_exceeded :
  let request := MkFieldSearchRequest "i." "regex" Float64.zero 1 in
  let find := FindSchemasByField (fun _ => Ok (fun name => HasPrefix name "i")) no_avro people_request (Some request) in
  let store := people [with_properties "'id':{'type':'string'},'iban':{'type':'string'}"] in
  match ResponseBody (fst (run find (fun _ => env0) store)) with
  | AnyMap [_; _; count; _] => count = ("count", AInt 2)
  | _ => False
  end.
Proof. vm_compute. reflexivity. Qed.
