(* ===== verification/HandlersKeys.v ===== *)
(** * The handlers of keys and exporters (internal/api/handlers/dek.go, exporter.go)

    One definition per route of /dek-registry/v1 and of /exporters.  What a handler reads for its
    audit record only is left out. *)
From S2P Require Import Prelude GoStrings StorageTypes StorageIface HttpCodes Http.
From S2P Require RegistryKeys.
From Stdlib Require Import Ascii String.

Local Open Scope prog_scope.
Local Open Scope string_scope.

(** ** Requests and responses *)

Record CreateKEKRequest := MkCreateKEKRequest {
  CKName : string; CKKmsType : string; CKKmsKeyID : string; CKKmsProps : option (gmap string string);
  CKDoc : string; CKShared : bool
}.

Record UpdateKEKRequest := MkUpdateKEKRequest {
  UKKmsProps : option (gmap string string); UKDoc : string; UKShared : option bool
}.

Record CreateDEKRequest := MkCreateDEKRequest {
  CDSubject : string; CDVersion : Z; CDAlgorithm : string; CDEncryptedKeyMaterial : string
}.

Definition kekToResponse (kek : KEKRecord) : Body :=
  KEKResponse (KEKName kek) (KmsType kek) (KmsKeyID kek) (KmsProps kek) (KEKDoc kek) (Shared kek) (KEKTs kek) (KEKDeleted kek).

Definition dekToResponse (dek : DEKRecord) : Body :=
  DEKResponse (DEKKekName dek) (DEKSubject dek) (DEKVersion dek) (Algorithm dek) (EncryptedKeyMaterial dek) (KeyMaterial dek)
    (DEKTs dek) (DEKDeleted dek).

(** Without the plaintext. *)
Definition dekToGetResponse (dek : DEKRecord) : Body :=
  DEKResponse (DEKKekName dek) (DEKSubject dek) (DEKVersion dek) (Algorithm dek) (EncryptedKeyMaterial dek) ""
    (DEKTs dek) (DEKDeleted dek).

Definition noContent : Response := MkResponse 204 NoBody.
Definition invalidRequestBody : Response := writeError 400 ErrorCodeInvalidSchema "Invalid request body".

(** A body that may be empty. *)
Inductive OptionalBody (A : Type) :=
  | Empty
  | Invalid
  | Decoded (a : A).
Arguments Empty {A}.
Arguments Invalid {A}.
Arguments Decoded {A} a.

(** ** Pages *)

Definition parsePaginationParams (r : Request) : Z * Z :=
  let offset := if decide (QueryGet r "offset" = "") then 0%Z else Z.max 0 (Atoi_value (QueryGet r "offset")) in
  let limit := if decide (QueryGet r "limit" = "") then 0%Z else Atoi_value (QueryGet r "limit") in
  (offset, limit).

(** [applyStringPagination] and [applyIntPagination]. *)
Definition applyPagination {A} (items : list A) (r : Request) : list A :=
  let '(offset, limit) := parsePaginationParams r in
  if (0 <? offset)%Z && (Z.of_nat (List.length items) <=? offset)%Z then []
  else
    let items := if (0 <? offset)%Z then drop (Z.to_nat offset) items else items in
    if (0 <? limit)%Z && (limit <? Z.of_nat (List.length items))%Z then take (Z.to_nat limit) items else items.

(** ** Answers to errors *)

Definition kekNotFound (name : string) : Response :=
  writeError 404 ErrorCodeKEKNotFound ("Key encryption key not found: " ++ name).
Definition dekNotFound : Response := writeError 404 ErrorCodeDEKNotFound "Data encryption key not found".

Definition kekError (name : string) (err : error) : Response :=
  if errors_Is err ErrKEKNotFound then kekNotFound name else writeInternalError err.

Definition dekError (kekName : string) (err : error) : Response :=
  if errors_Is err ErrKEKNotFound then kekNotFound kekName
  else if errors_Is err ErrDEKNotFound then dekNotFound
  else writeInternalError err.

Definition createDEKError (kekName : string) (err : error) : Response :=
  if errors_Is err ErrKEKNotFound then kekNotFound kekName
  else if errors_Is err ErrDEKExists then writeError 409 ErrorCodeDEKExists "Data encryption key already exists"
  else writeError 422 ErrorCodeInvalidSchema (err_text err).

(** The version of a route; [None] for the answer 422. *)
Definition positiveVersion (r : Request) : option Z :=
  match Atoi (URLParam r "version") with
  | Some version => if (version <=? 0)%Z then None else Some version
  | None => None
  end.

Definition invalidVersion : Response :=
  writeError 422 ErrorCodeInvalidVersion "Invalid version: must be a positive integer".

Section handlers.
Context (kms : RegistryKeys.kmsRegistry).
Implicit Types r : Request.

(** ** Key encryption keys *)

(** GET /keks *)
Definition ListKEKs r : prog Response :=
  let! keks := invoke (CListKEKs (query_true r "deleted")) in
  Ret (match keks with
       | Err err => writeInternalError err
       | Ok keks => writeJSON 200 (Names (applyPagination (map KEKName keks) r))
       end).

(** POST /keks *)
Definition CreateKEK r (body : option CreateKEKRequest) : prog Response :=
  match body with
  | None => Ret invalidRequestBody
  | Some req =>
      let kek := MkKEKRecord (CKName req) (CKKmsType req) (CKKmsKeyID req) (CKKmsProps req) (CKDoc req) (CKShared req) false 0 0 0 in
      let! created := RegistryKeys.CreateKEK kek in
      Ret (match created with
           | (Err err, _) =>
               if errors_Is err ErrKEKExists
               then writeError 409 ErrorCodeKEKExists ("Key encryption key already exists: " ++ CKName req)
               else writeError 422 ErrorCodeInvalidSchema (err_text err)
           | (Ok _, kek) => writeJSON 200 (kekToResponse kek)
           end)
  end.

(** GET /keks/{name} *)
Definition GetKEK r : prog Response :=
  let name := URLParam r "name" in
  let! kek := invoke (CGetKEK name (query_true r "deleted")) in
  Ret (match kek with Err err => kekError name err | Ok kek => writeJSON 200 (kekToResponse kek) end).

(** The fields of the request that are there replace those of the record. *)
Definition updatedKEK (existing : KEKRecord) (req : UpdateKEKRequest) : KEKRecord :=
  {| existing with
     KmsProps := match UKKmsProps req with Some props => Some props | None => KmsProps existing end;
     KEKDoc := if decide (UKDoc req = "") then KEKDoc existing else UKDoc req;
     Shared := from_opt (Shared existing) (UKShared req) |}.

(** PUT /keks/{name} *)
Definition UpdateKEK r (body : option UpdateKEKRequest) : prog Response :=
  let name := URLParam r "name" in
  match body with
  | None => Ret invalidRequestBody
  | Some req =>
      let! existing := invoke (CGetKEK name false) in
      match existing with
      | Err err => Ret (kekError name err)
      | Ok existing =>
          let! updated := RegistryKeys.UpdateKEK (updatedKEK existing req) in
          Ret (match updated with
               | (Err err, _) => writeInternalError err
               | (Ok _, kek) => writeJSON 200 (kekToResponse kek)
               end)
      end
  end.

(** DELETE /keks/{name} *)
Definition DeleteKEK r : prog Response :=
  let name := URLParam r "name" in
  let! deleted := invoke (CDeleteKEK name (query_true r "permanent")) in
  Ret (match deleted with Err err => kekError name err | Ok _ => noContent end).

(** POST /keks/{name}/undelete *)
Definition UndeleteKEK r : prog Response :=
  let name := URLParam r "name" in
  let! restored := invoke (CUndeleteKEK name) in
  Ret (match restored with Err err => kekError name err | Ok _ => noContent end).

(** POST /keks/{name}/test *)
Definition TestKEK r : prog Response :=
  let name := URLParam r "name" in
  let! kek := invoke (CGetKEK name false) in
  Ret (match kek with
       | Err err => kekError name err
       | Ok kek =>
           match RegistryKeys.TestKEK kms kek with
           | Some err => writeError 422 ErrorCodeInvalidSchema ("KMS connection test failed: " ++ err_text err)
           | None => writeJSON 200 (kekToResponse kek)
           end
       end).

(** ** Data encryption keys *)

(** GET /keks/{name}/deks *)
Definition ListDEKs r : prog Response :=
  let kekName := URLParam r "name" in
  let! subjects := invoke (CListDEKs kekName (query_true r "deleted")) in
  Ret (match subjects with
       | Err err => kekError kekName err
       | Ok subjects => writeJSON 200 (Names (applyPagination subjects r))
       end).

(** The end of both handlers that create a key. *)
Definition createDEK (dek : DEKRecord) : prog Response :=
  let! created := RegistryKeys.CreateDEK kms dek in
  Ret (match created with
       | (Err err, _) => createDEKError (DEKKekName dek) err
       | (Ok _, dek) => writeJSON 200 (dekToResponse dek)
       end).

(** POST /keks/{name}/deks *)
Definition CreateDEK r (body : option CreateDEKRequest) : prog Response :=
  match body with
  | None => Ret invalidRequestBody
  | Some req =>
      createDEK (MkDEKRecord (URLParam r "name") (CDSubject req) (CDVersion req) (CDAlgorithm req)
                   (CDEncryptedKeyMaterial req) "" false 0)
  end.

(** GET /keks/{name}/deks/{subject} and .../versions/{version} *)
Definition getDEK r (version : Z) : prog Response :=
  let kekName := URLParam r "name" in
  let! dek := invoke (CGetDEK kekName (URLParam r "subject") version (QueryGet r "algorithm") (query_true r "deleted")) in
  Ret (match dek with Err err => dekError kekName err | Ok dek => writeJSON 200 (dekToGetResponse dek) end).

Definition GetDEK r : prog Response := getDEK r (-1).

Definition GetDEKVersion r : prog Response :=
  match positiveVersion r with None => Ret invalidVersion | Some version => getDEK r version end.

(** GET /keks/{name}/deks/{subject}/versions *)
Definition ListDEKVersions r : prog Response :=
  let kekName := URLParam r "name" in
  let! versions := invoke (CListDEKVersions kekName (URLParam r "subject") (QueryGet r "algorithm") (query_true r "deleted")) in
  Ret (match versions with
       | Err err => kekError kekName err
       | Ok versions => writeJSON 200 (Numbers (applyPagination versions r))
       end).

(** DELETE /keks/{name}/deks/{subject} and .../versions/{version} *)
Definition deleteDEK r (version : Z) : prog Response :=
  let kekName := URLParam r "name" in
  let! deleted := invoke (CDeleteDEK kekName (URLParam r "subject") version (QueryGet r "algorithm") (query_true r "permanent")) in
  Ret (match deleted with Err err => dekError kekName err | Ok _ => noContent end).

Definition DeleteDEK r : prog Response := deleteDEK r (-1).

Definition DeleteDEKVersion r : prog Response :=
  match positiveVersion r with None => Ret invalidVersion | Some version => deleteDEK r version end.

(** POST /keks/{name}/deks/{subject}/undelete and .../versions/{version}/undelete *)
Definition undeleteDEK r (version : Z) : prog Response :=
  let kekName := URLParam r "name" in
  let! restored := invoke (CUndeleteDEK kekName (URLParam r "subject") version (QueryGet r "algorithm")) in
  Ret (match restored with Err err => dekError kekName err | Ok _ => noContent end).

Definition UndeleteDEK r : prog Response := undeleteDEK r (-1).

Definition UndeleteDEKVersion r : prog Response :=
  match positiveVersion r with None => Ret invalidVersion | Some version => undeleteDEK r version end.

(** The answer to an error of a rewrap. *)
Definition rewrapError (kekName : string) (err : error) : Response :=
  if errors_Is err ErrKEKNotFound then kekNotFound kekName
  else if errors_Is err ErrDEKNotFound then dekNotFound
  else writeError 422 ErrorCodeInvalidSchema (err_text err).

Definition rewrapDEK r (kekName subject : string) : prog Response :=
  let! dek := RegistryKeys.RewrapDEK kms kekName subject (-1) (QueryGet r "algorithm") in
  Ret (match dek with Err err => rewrapError kekName err | Ok dek => writeJSON 200 (dekToGetResponse dek) end).

(** POST /keks/{name}/deks/{subject}, with rewrap=true a rewrap *)
Definition CreateDEKWithSubject r (body : OptionalBody CreateDEKRequest) : prog Response :=
  let kekName := URLParam r "name" in
  let subject := URLParam r "subject" in
  if query_true r "rewrap" then rewrapDEK r kekName subject
  else
    let create req := createDEK (MkDEKRecord kekName subject (CDVersion req) (CDAlgorithm req) (CDEncryptedKeyMaterial req) "" false 0) in
    match body with
    | Invalid => Ret invalidRequestBody
    | Empty => create (MkCreateDEKRequest "" 0 "" "")
    | Decoded req => create req
    end.
End handlers.

(** ** The handlers of exporters (internal/api/handlers/exporter.go)

    One definition per route of /exporters.  What a handler reads for its audit
    record only is left out. *)


(** [types.CreateExporterRequest]; a request to update has no name. *)
Record ExporterRequest := MkExporterRequest {
  ERName : string; ERContextType : string; ERContext : string; ERSubjects : list string;
  ERSubjectRenameFormat : string; ERConfig : option (gmap string string)
}.

(** The record of a request. *)
Definition requestedExporter (name : string) (req : ExporterRequest) : ExporterRecord :=
  MkExporterRecord name (ERContextType req) (ERContext req) (ERSubjects req) (ERSubjectRenameFormat req) (ERConfig req) 0 0.

Definition exporterNotFound (name : string) : Response :=
  writeError 404 ErrorCodeExporterNotFound ("Exporter not found: " ++ name).

Definition exporterError (name : string) (err : error) : Response :=
  if errors_Is err ErrExporterNotFound then exporterNotFound name else writeInternalError err.

(** The name, once an operation on it has succeeded. *)
Definition exporterDone (name : string) (res : result unit) : Response :=
  match res with Err err => exporterError name err | Ok _ => writeJSON 200 (ExporterNameResponse name) end.

Section handlers.
Implicit Types r : Request.

(** GET /exporters *)
Definition ListExporters : prog Response :=
  let! names := invoke CListExporters in
  Ret (match names with Err err => writeInternalError err | Ok names => writeJSON 200 (Names names) end).

(** POST /exporters *)
Definition CreateExporter (body : option ExporterRequest) : prog Response :=
  match body with
  | None => Ret invalidRequestBody
  | Some req =>
      if decide (ERName req = "") then Ret (writeError 422 ErrorCodeInvalidSchema "Exporter name is required")
      else
        let! created := RegistryKeys.CreateExporter (requestedExporter (ERName req) req) in
        Ret (match created with
             | Err err =>
                 if errors_Is err ErrExporterExists
                 then writeError 409 ErrorCodeExporterExists ("Exporter already exists: " ++ ERName req)
                 else writeError 422 ErrorCodeInvalidSchema (err_text err)
             | Ok _ => writeJSON 200 (ExporterNameResponse (ERName req))
             end)
  end.

(** GET /exporters/{name} *)
Definition GetExporter r : prog Response :=
  let name := URLParam r "name" in
  let! exporter := invoke (CGetExporter name) in
  Ret (match exporter with
       | Err err => exporterError name err
       | Ok x => writeJSON 200 (ExporterResponse (ExporterName x) (ContextType x) (ExporterContext x) (ExporterSubjects x)
                                  (SubjectRenameFormat x) (ExporterConfig x))
       end).

(** PUT /exporters/{name} *)
Definition UpdateExporter r (body : option ExporterRequest) : prog Response :=
  let name := URLParam r "name" in
  match body with
  | None => Ret invalidRequestBody
  | Some req =>
      let! updated := RegistryKeys.UpdateExporter (requestedExporter name req) in
      Ret (match updated with
           | Err err =>
               if errors_Is err ErrExporterNotFound then exporterNotFound name
               else writeError 422 ErrorCodeInvalidSchema (err_text err)
           | Ok _ => writeJSON 200 (ExporterNameResponse name)
           end)
  end.

(** DELETE /exporters/{name} *)
Definition DeleteExporter r : prog Response :=
  let name := URLParam r "name" in
  let! deleted := invoke (CDeleteExporter name) in Ret (exporterDone name deleted).

(** PUT /exporters/{name}/pause, resume and reset *)
Definition PauseExporter r : prog Response :=
  let name := URLParam r "name" in
  let! res := RegistryKeys.PauseExporter name in Ret (exporterDone name res).

Definition ResumeExporter r : prog Response :=
  let name := URLParam r "name" in
  let! res := RegistryKeys.ResumeExporter name in Ret (exporterDone name res).

Definition ResetExporter r : prog Response :=
  let name := URLParam r "name" in
  let! res := RegistryKeys.ResetExporter name in Ret (exporterDone name res).

(** GET /exporters/{name}/status *)
Definition GetExporterStatus r : prog Response :=
  let name := URLParam r "name" in
  let! status := invoke (CGetExporterStatus name) in
  Ret (match status with
       | Err err => exporterError name err
       | Ok s => writeJSON 200 (ExporterStatusResponse (StatusName s) (State s) (StatusOffset s) (StatusTs s) (Trace s))
       end).

(** GET /exporters/{name}/config *)
Definition GetExporterConfig r : prog Response :=
  let name := URLParam r "name" in
  let! config := invoke (CGetExporterConfig name) in
  Ret (match config with Err err => exporterError name err | Ok config => writeJSON 200 (StringMap config) end).

(** PUT /exporters/{name}/config, with the configuration of the body *)
Definition UpdateExporterConfig r (body : option (option (gmap string string))) : prog Response :=
  let name := URLParam r "name" in
  match body with
  | None => Ret invalidRequestBody
  | Some config => let! res := invoke (CUpdateExporterConfig name config) in Ret (exporterDone name res)
  end.
End handlers.
