(* ===== verification/HandlersFacts.v ===== *)
(** * What the handlers answer

    Handlers that read change nothing; handlers that write change nothing in a
    read-only mode; and the status of an answer says what was done. *)
From S2P Require Import Prelude GoStrings StorageTypes MemState MemStore MemInvariant MemStoreFacts MemDelete MemQueries StorageIface ProgLogic RegistryRefs RegistryConfig RegistryMeta RegistrySchemas Compat RegistryOps RegistryFacts HttpCodes Http HandlersRead HandlersWrite HandlersConfig HandlersKeys Analysis HandlersAnalysisFacts.
From S2P Require RegContext.
From Stdlib Require Import Ascii String.

Local Open Scope string_scope.

(** A request at the root, with its parameters and query as association lists. *)
Definition get (params query : list (string * string)) : Request :=
  MkRequest None (fun key => from_opt "" (snd <$> List.find (fun kv => bool_decide (fst kv = key)) params))
    (fun key => map snd (List.filter (fun kv => bool_decide (fst kv = key)) query)).

Definition orders : Request := get [("subject", "orders"); ("version", "1")] [].

(** ** Reading *)

Lemma reads_resolveReferenceSchemas c refs : reads_only (resolveReferenceSchemasForResponse c refs).
Proof. induction refs as [|ref refs IH]; simpl; [done|]. split; [done|]. intros b. by apply reads_only_bind. Qed.

Lemma reads_referencingIDs c refs : reads_only (referencingIDs c refs).
Proof. induction refs as [|ref refs IH]; simpl; [done|]. split; [done|]. intros b. by apply reads_only_bind. Qed.

#[export] Hint Resolve reads_resolveReferenceSchemas reads_referencingIDs : reads.

Lemma reads_ResolveAlias c subject : reads_only (ResolveAlias c subject).
Proof. unfold ResolveAlias, GetSubjectConfigFull. reads. Qed.
#[export] Hint Resolve reads_ResolveAlias : reads.

Lemma reads_withSubject {A} r (a : A) k :
  (forall c subject, reads_only (k c subject)) -> reads_only (withSubject r a k).
Proof.
  intros Hk. unfold withSubject. destruct (requestSubject r) as [c subject]. destruct (RegContext.rejectGlobalContext c); [done|].
  apply reads_only_bind; [apply reads_ResolveAlias|]. intros; apply Hk.
Qed.

Lemma reads_formatted reg r c schema : reads_only (formatted reg r c schema).
Proof. unfold formatted, FormatSchema. reads. Qed.

Lemma reads_responseReferences r c schema : reads_only (responseReferences r c schema).
Proof. unfold responseReferences. reads. Qed.

Lemma reads_findDeletedVersion c subject v : reads_only (findDeletedVersion c subject v).
Proof. unfold findDeletedVersion. reads. Qed.

Lemma reads_GetVersions c subject d : reads_only (RegistryOps.GetVersions c subject d).
Proof. unfold RegistryOps.GetVersions. reads. Qed.

#[export] Hint Resolve reads_formatted reads_responseReferences reads_findDeletedVersion reads_GetVersions : reads.

Lemma reads_versionError c subject v b err : reads_only (versionError c subject v b err).
Proof. unfold versionError, isSubjectFullyDeleted, isVersionSoftDeleted. reads. Qed.
#[export] Hint Resolve reads_versionError : reads.

(** Every request that is answered without a write. *)
Inductive read_handler (reg : Registry) (fuel : nat) (r : Request) : forall A, prog A -> Prop :=
  | RGetSchemaByID : QueryGet r "subject" = "" -> read_handler reg fuel r _ (GetSchemaByID reg r)
  | RGetRawSchemaByID : read_handler reg fuel r _ (GetRawSchemaByID reg r)
  | RGetSubjectsBySchemaID : read_handler reg fuel r _ (GetSubjectsBySchemaID r)
  | RGetVersionsBySchemaID : read_handler reg fuel r _ (GetVersionsBySchemaID r)
  | RListSchemas : read_handler reg fuel r _ (ListSchemas r)
  | RListSubjects : read_handler reg fuel r _ (ListSubjects r)
  | RGetVersions : read_handler reg fuel r _ (GetVersions r)
  | RGetVersion : read_handler reg fuel r _ (GetVersion reg r)
  | RGetRawSchemaByVersion : read_handler reg fuel r _ (GetRawSchemaByVersion reg r)
  | RGetReferencedBy : read_handler reg fuel r _ (GetReferencedBy r)
  | RGetSubjectMetadata : read_handler reg fuel r _ (GetSubjectMetadata r)
  | RLookupSchema body : read_handler reg fuel r _ (LookupSchema reg fuel r body)
  | RCheckCompatibility body : read_handler reg fuel r _ (CheckCompatibility reg fuel r body)
  | RGetConfig : read_handler reg fuel r _ (GetConfig reg r)
  | RGetMode : read_handler reg fuel r _ (GetMode r)
  | RGetContexts : read_handler reg fuel r _ (GetContexts r)
  | RListKEKs : read_handler reg fuel r _ (ListKEKs r)
  | RGetKEK : read_handler reg fuel r _ (GetKEK r)
  | RTestKEK kms : read_handler reg fuel r _ (TestKEK kms r)
  | RListDEKs : read_handler reg fuel r _ (ListDEKs r)
  | RGetDEK : read_handler reg fuel r _ (GetDEK r)
  | RGetDEKVersion : read_handler reg fuel r _ (GetDEKVersion r)
  | RListDEKVersions : read_handler reg fuel r _ (ListDEKVersions r)
  | RListExporters : read_handler reg fuel r _ ListExporters
  | RGetExporter : read_handler reg fuel r _ (GetExporter r)
  | RGetExporterStatus : read_handler reg fuel r _ (GetExporterStatus r)
  | RGetExporterConfig : read_handler reg fuel r _ (GetExporterConfig r)
  | RAnalysis regexp_Compile avro_Parse A p :
      analysis_request reg fuel regexp_Compile avro_Parse r A p -> read_handler reg fuel r A p.

Ltac handler_reads := try (apply reads_withSubject; intros ? ?); reads.

Lemma read_handler_reads reg fuel r A (p : prog A) : read_handler reg fuel r A p -> reads_only p.
Proof.
  destruct 1 as [| | | | | | | | | | | | | | | | | | | | | | | | | | |regexp_Compile avro_Parse A p Ha];
    [..|by eapply analysis_reads];
    unfold ListKEKs, GetKEK, TestKEK, ListDEKs, GetDEK, GetDEKVersion, getDEK, ListDEKVersions, ListExporters, GetExporter,
      GetExporterStatus, GetExporterConfig, GetSchemaByID, GetRawSchemaByID, GetSubjectsBySchemaID, GetVersionsBySchemaID, ListSchemas, ListSubjects, GetVersions,
      GetVersion, GetRawSchemaByVersion, GetReferencedBy, GetSubjectMetadata, LookupSchema, CheckCompatibility, GetConfig, GetMode,
      GetContexts, subjectMetadata, maxId, RegistryOps.LookupSchema, RegistryOps.CheckCompatibility, GetSubjectConfigFull,
      GetGlobalConfigDirect, GetSubjectMode, GetGlobalModeDirect, ListContexts, isNormalizeEnabled.
  all: handler_reads.
Qed.

(** Property C22.  No request that asks for something changes what any backend
    stores: the GET handlers of schemas, configuration, keys and exporters, the
    lookup of a schema, the compatibility checks, and every analysis request; the
    one exception is a schema asked for by ID and subject. *)
Theorem reads_change_nothing {St} `{LawfulStorage St} reg fuel r A (p : prog A) ρ (s : St) :
  read_handler reg fuel r A p -> snd (run p ρ s) = s.
Proof. intros Hp. by eapply run_reads_only, read_handler_reads. Qed.

Lemma reads_change_nothing_witness :
  snd (run (LookupSchema (plain_registry "BACKWARD") 3 orders (Some (MkLookupSchemaRequest "[string]" "" []))) (fun _ => env0) orders_store)
  = orders_store.
Proof. apply (reads_change_nothing (plain_registry "BACKWARD") 3 orders). constructor. Defined.

(** ** A schema by ID and subject *)

(** The in-memory backend hands out the record it stores: an assignment to it
    changes the store. *)
Definition apply_shared (c : string) (w : option SharedWrite) (s : Store) : Store :=
  match w with
  | None => s
  | Some w =>
      match schemas (ctx s c) !! WrittenID w with
      | None => s
      | Some record =>
          putContext s c
            {| (ctx s c) with schemas :=
                 <[WrittenID w := {| record with SchemaMetadata := WrittenMetadata w; SchemaRuleSet := WrittenRuleSet w |}]>
                   (schemas (ctx s c)) |}
      end
  end.

Definition memory_GetSchemaByID (reg : Registry) (r : Request) (ρ : nat -> env) (s : Store) : Response * Store :=
  let '((resp, w), s') := run (GetSchemaByID reg r) ρ s in (resp, apply_shared (getRegistryContext r) w s').

Definition tagged (owner : string) : Metadata := MkMetadata None (Some {[ "owner" := owner ]}) None.

(** A schema registered with metadata of its subject. *)
Definition tagged_store : Store :=
  snd (run (RegisterSchema (plain_registry "NONE") 3 (get [("subject", "orders")] [])
              (Some (MkRegisterSchemaRequest "text" "" [] 0 0 (Some (tagged "sales")) None))) (fun _ => env0) NewStore).

(** Asking for the schema of ID 1 as [orders] has it leaves the subject's metadata
    in the record of the ID: the next request for the ID alone, for which the
    metadata was empty before, gets it too. *)
Example get_by_id_changes_store :
  let ask query s := memory_GetSchemaByID (plain_registry "NONE") (get [("id", "1")] query) (fun _ => env0) s in
  let metadata resp := match ResponseBody resp with SchemaByIDResponse _ _ _ meta _ _ => meta | _ => None end in
  let '(before, s1) := ask [] tagged_store in
  let '(as_orders, s2) := ask [("subject", "orders")] s1 in
  let '(after, _) := ask [] s2 in
  (metadata before, bool_decide (metadata as_orders <> None), bool_decide (metadata after = metadata as_orders)) = (None, true, true).
Proof. vm_compute. reflexivity. Qed.

(** ** Read-only modes *)

(** The subject an alias stands for. *)
Definition aliasOf (s : Store) (c subject : string) : string :=
  match subject_tier subject (configs (ctx s c)) with
  | Some config => if decide (Alias config = "") then subject else Alias config
  | None => subject
  end.

Lemma run_ResolveAlias c subject ρ s : run (ResolveAlias c subject) ρ s = (aliasOf s c subject, s).
Proof.
  unfold ResolveAlias, aliasOf, subject_tier, GetSubjectConfigFull. case_decide; [done|]. simpl.
  rewrite store_GetConfig. by destruct (configs (ctx s c) !! subject).
Qed.

(** A handler of a subject is its body, run on the subject of the request. *)
Lemma run_withSubject {A} r (reject : A) k ρ s c subject :
  requestSubject r = (c, subject) -> RegContext.rejectGlobalContext c = false ->
  exists ρ', run (withSubject r reject k) ρ s = run (k c (aliasOf s c subject)) ρ' s.
Proof.
  intros Hr Hc. unfold withSubject. rewrite Hr, Hc, run_bind, run_ResolveAlias. eauto.
Qed.

Definition read_only (mode : string) : Prop := mode ∈ ["READONLY"; "READONLY_OVERRIDE"].

Lemma run_checkedForWrite {A} c subject (answer : Response -> A) what k ρ s :
  exists ρ', run (checkedForWrite c subject answer what k) ρ s =
    if decide (effectiveMode s c subject ∈ ["READONLY"; "READONLY_OVERRIDE"])
    then (answer (notPermitted (what (effectiveMode s c subject))), s) else run k ρ' s.
Proof.
  eexists. unfold checkedForWrite. rewrite run_bind, run_CheckModeForWrite. simpl.
  destruct (decide (effectiveMode s c subject ∈ _)) as [D|D]; [|by rewrite decide_True].
  rewrite decide_False; [done|]. intros E. rewrite E in D. set_solver.
Qed.

(** Refused: a status of a client's error, and nothing stored. *)
Definition refused (s : Store) (out : Response * Store) : Prop :=
  (Status (fst out) = 400 \/ Status (fst out) = 422)%Z /\ snd out = s.
Definition refused_fuel (s : Store) (out : option Response * Store) : Prop :=
  exists resp, fst out = Some resp /\ refused s (resp, snd out).

Lemma run_rejected {A} r (reject : A) k ρ (s : Store) c subject :
  requestSubject r = (c, subject) -> RegContext.rejectGlobalContext c = true -> run (withSubject r reject k) ρ s = (reject, s).
Proof. intros Hr Hc. unfold withSubject. by rewrite Hr, Hc. Qed.

(** Property C20.  While the mode in force for the subject a request names is
    READONLY or READONLY_OVERRIDE, a registration, a deletion, a change of
    configuration and an import are answered with a client's error and leave the
    store as it was, whatever the request holds. *)
Theorem read_only_refuses_writes reg fuel r c subject ρ s :
  requestSubject r = (c, subject) ->
  (read_only (effectiveMode s c (aliasOf s c subject)) ->
     (forall body, refused_fuel s (run (RegisterSchema reg fuel r body) ρ s)) /\
     refused s (run (DeleteSubject r) ρ s) /\ refused s (run (DeleteVersion r) ρ s)) /\
  (read_only (effectiveMode s c subject) ->
     (forall body, refused s (run (SetConfig reg r body) ρ s)) /\ refused s (run (DeleteConfig reg r) ρ s)) /\
  (read_only (effectiveMode s (getRegistryContext r) "") ->
     refused s (run (DeleteGlobalConfig reg r) ρ s) /\
     (forall body, refused_fuel s (run (ImportSchemas reg fuel r body) ρ s))).
Proof.
  intros Hr. split_and!; intros Hm.
  - assert (Hcheck : forall A (answer : Response -> A) what k ρ',
      run (checkedForWrite c (aliasOf s c subject) answer what k) ρ' s =
      (answer (notPermitted (what (effectiveMode s c (aliasOf s c subject)))), s)).
    { intros A answer what k ρ'. destruct (run_checkedForWrite c (aliasOf s c subject) answer what k ρ' s) as [ρ'' ->].
      by rewrite decide_True. }
    destruct (RegContext.rejectGlobalContext c) eqn:Hc.
    { unfold RegisterSchema, DeleteSubject, DeleteVersion. split_and!; intros; rewrite (run_rejected _ _ _ _ _ _ _ Hr Hc);
        try eexists; repeat split; auto. }
    unfold RegisterSchema, DeleteSubject, DeleteVersion. split_and!; intros;
      match goal with |- context [run (withSubject r ?a ?k) ρ s] =>
        destruct (run_withSubject r a k ρ s c subject Hr Hc) as [ρ' ->] end; try (rewrite Hcheck; split; [by right|done]).
    destruct body as [req|]; [|eexists; repeat split; by left]. case_decide; [eexists; repeat split; by right|].
    destruct (ParseSchemaType _) as [ty []]; [rewrite Hcheck|]; eexists; repeat split; by right.
  - unfold SetConfig, DeleteConfig. rewrite Hr. split; intros;
      match goal with |- context [run (checkedForWrite c subject ?a ?w ?k) ρ s] =>
        destruct (run_checkedForWrite c subject a w k ρ s) as [ρ' ->] end;
      rewrite decide_True by done; (split; [by right|done]).
  - split.
    + unfold DeleteGlobalConfig.
      match goal with |- context [run (checkedForWrite ?c "" ?a ?w ?k) ρ s] =>
        destruct (run_checkedForWrite c "" a w k ρ s) as [ρ' ->] end.
      rewrite decide_True by done. split; [by right|done].
    + intros body. unfold ImportSchemas. destruct (RegContext.rejectGlobalContext _); [eexists; repeat split; by left|].
      rewrite run_bind, run_GetMode. simpl. rewrite bool_decide_false; [eexists; repeat split; by right|].
      intros E. unfold read_only in Hm. rewrite E in Hm. set_solver.
Qed.

(** The registry in READONLY mode refuses the deletion of [orders]. *)
Definition readonly_store : Store := snd (run (RegistryConfig.SetMode "." "" "READONLY" true) (fun _ => env0) orders_store).

Lemma read_only_refuses_writes_witness : refused readonly_store (run (DeleteSubject orders) (fun _ => env0) readonly_store).
Proof.
  refine (proj1 (proj2 (proj1 (read_only_refuses_writes (plain_registry "NONE") 3 orders "." "orders" (fun _ => env0) readonly_store _) _))).
  - reflexivity.
  - refine (proj1 (bool_decide_eq_true _) _). vm_compute. reflexivity.
Defined.

(** ** The versions of a subject *)

Lemma stored_fields cs subject v record : stored cs subject v = Some record -> Version record = v /\ Subject record = subject.
Proof. by intros (info & sc & _ & _ & ->)%stored_inv. Qed.

Lemma GetSchemasBySubject_cases e c subject d s :
  match GetSchemasBySubject e c subject d s with
  | Ok l => l <> [] /\ forall record, record ∈ l <->
      stored (ctx s c) subject (Version record) = Some record /\ Subject record = subject /\ (d = true \/ Deleted record = false)
  | Err err => err = sentinel_err ErrSubjectNotFound /\
      forall v record, stored (ctx s c) subject v = Some record -> d = false /\ Deleted record = true
  end.
Proof.
  destruct (GetSchemasBySubject e c subject d s) as [l|err] eqn:E.
  - split; [|intros record; by eapply elem_of_GetSchemasBySubject].
    unfold GetSchemasBySubject in E. destruct (getContext s c); [|done]. case_decide; [done|].
    intros ->. destruct (filled _ _ _) as [|a l']; [done|]. injection E as E.
    pose proof (merge_sort_Permutation by_version (a :: l')) as Hp. rewrite E in Hp. by apply Permutation_nil_cons in Hp.
  - split; [|intros v record Hst; by eapply GetSchemasBySubject_Err].
    unfold GetSchemasBySubject in E. destruct (getContext s c); [|by injection E as <-]. case_decide; [by injection E as <-|].
    destruct (filled _ _ _); [by injection E as <-|done].
Qed.

(** A live version of the subject. *)
Definition some_live (s : Store) (c subject : string) : Prop :=
  exists v record, stored (ctx s c) subject v = Some record /\ Deleted record = false.

Lemma run_isSubjectFullyDeleted c subject ρ s :
  exists b : bool, run (isSubjectFullyDeleted c subject) ρ s = (b, s) /\
    if b then ~ some_live s c subject else (forall v, stored (ctx s c) subject v = None) \/ some_live s c subject.
Proof.
  unfold isSubjectFullyDeleted, RegistryOps.GetVersions. simpl.
  pose proof (GetSchemasBySubject_cases (ρ 0%nat) c subject true s) as Hall.
  destruct (GetSchemasBySubject (ρ 0%nat) c subject true s) as [all|err].
  2:{ exists false. split; [done|]. left. intros v. destruct (stored (ctx s c) subject v) as [record|] eqn:Hst; [|done].
      by destruct Hall as [_ [? _]%(fun H => H v record Hst)]. }
  destruct Hall as [Hne Hall]. destruct all as [|a all]; [done|]. simpl.
  pose proof (GetSchemasBySubject_cases (ρ 1%nat) c subject false s) as Hlive.
  destruct (GetSchemasBySubject (ρ 1%nat) c subject false s) as [l|err].
  - exists false. destruct Hlive as [Hnl Hlive]. destruct l as [|b l]; [done|]. split; [done|]. right.
    destruct (proj1 (Hlive b) ltac:(left)) as (Hst & _ & [?|Hd]); [done|]. exists (Version b), b. done.
  - exists true. destruct Hlive as [-> Hlive]. split; [done|]. intros (v & record & Hst & Hd). destruct (Hlive v record Hst). congruence.
Qed.

Lemma run_findDeletedVersion c subject v ρ s :
  v <> (-1)%Z ->
  run (findDeletedVersion c subject v) ρ s =
  (match stored (ctx s c) subject v with
   | Some record => Ok record
   | None => fail (match GetSchemasBySubject (ρ 0%nat) c subject true s with Ok _ => ErrVersionNotFound | Err _ => ErrSubjectNotFound end)
   end, s).
Proof.
  intros Hv. unfold findDeletedVersion. simpl. f_equal.
  pose proof (GetSchemasBySubject_cases (ρ 0%nat) c subject true s) as Hall.
  destruct (GetSchemasBySubject (ρ 0%nat) c subject true s) as [l|err].
  - destruct Hall as [Hne Hall]. destruct l as [|a l]; [done|]. rewrite (proj2 (Z.eqb_neq _ _) Hv).
    destruct (List.find _ (a :: l)) as [record|] eqn:E.
    + apply find_some in E as [Hin Hver%Z.eqb_eq]. apply list_elem_of_In, Hall in Hin as (Hst & _). rewrite Hver in Hst. by rewrite Hst.
    + destruct (stored (ctx s c) subject v) as [record|] eqn:Hst; [|done]. exfalso.
      destruct (stored_fields _ _ _ _ Hst) as [Hver Hsub].
      assert (Hin : record ∈ a :: l) by (apply Hall; rewrite Hver; auto).
      apply list_elem_of_In in Hin. pose proof (find_none _ _ E record Hin) as H. simpl in H. lia.
  - destruct Hall as [-> Hall]. destruct (stored (ctx s c) subject v) eqn:Hst; [|done]. by destruct (Hall _ _ Hst).
Qed.

(** The storage's answer for one version, deleted or not. *)
Lemma GetSchemaBySubjectVersion_cases e c subject v s :
  Inv s -> v <> (-1)%Z ->
  match GetSchemaBySubjectVersion e c subject v s with
  | Ok record => stored (ctx s c) subject v = Some record /\ Deleted record = false
  | Err err =>
      (forall record, stored (ctx s c) subject v = Some record -> Deleted record = true /\ err = sentinel_err ErrVersionNotFound) /\
      (err = sentinel_err ErrVersionNotFound /\ (exists w record, stored (ctx s c) subject w = Some record) \/
       err = sentinel_err ErrSubjectNotFound /\ forall w, stored (ctx s c) subject w = None)
  end.
Proof.
  intros Hinv Hv. rewrite GetSchemaBySubjectVersion_explicit by done.
  destruct (getContext s c) as [cs|] eqn:Eg.
  2:{ assert (Hn : forall v, stored (ctx s c) subject v = None) by (intros; by apply getContext_None).
      split; [intros record Hst; by rewrite Hn in Hst|]. by right. }
  apply getContext_Some in Eg. rewrite Eg. pose proof (Inv_ctx s c Hinv) as Hwf. rewrite Eg in Hwf.
  case_decide as Hvm.
  { assert (Hn : forall v, stored cs subject v = None).
    { intros w. destruct (stored cs subject w) as [record|] eqn:Hst; [|done].
      apply stored_inv in Hst as (info & sc & Hen & _). by apply entry_nonempty in Hen. }
    split; [intros record Hst; by rewrite Hn in Hst|]. by right. }
  assert (Hsome : exists w record, stored cs subject w = Some record).
  { apply map_choose in Hvm as (w & info & Hw). change (entry cs subject w = Some info) in Hw.
    destruct (stored_Some _ _ _ _ Hwf Hw) as (sc & _ & _ & Hst). eauto. }
  destruct (entry cs subject v) as [info|] eqn:Een; simpl.
  2:{ split; [|by left]. intros record (info & sc & Hen & _)%stored_inv. congruence. }
  destruct (stored_Some _ _ _ _ Hwf Een) as (sc & Hsc & _ & Hst). rewrite Hsc.
  destruct (deleted info) eqn:Ed; [|done]. split; [|by left]. intros record Hrec. rewrite Hst in Hrec. by injection Hrec as <-.
Qed.

(** The answer to a request for one version. *)
Definition version_answer (s : Store) (c subject : string) (v : Z) (withDeleted : bool) (resp : Response) : Prop :=
  match stored (ctx s c) subject v with
  | Some record =>
      if negb (Deleted record) || withDeleted
      then resp = versionResponse record (Schema record) (Plain (References record))
      else some_live s c subject /\ resp = versionSoftDeleted \/ ~ some_live s c subject /\ resp = subjectNotFound
  | None => some_live s c subject /\ resp = versionNotFound \/ ~ some_live s c subject /\ resp = subjectNotFound
  end.

(** The error of a version that is not there, or not to be shown. *)
Lemma run_versionError c subject v (mayBeDeleted : bool) ρ s :
  v <> (-1)%Z -> (exists w record, stored (ctx s c) subject w = Some record) ->
  (forall record, stored (ctx s c) subject v = Some record -> Deleted record = true /\ mayBeDeleted = true) ->
  exists resp, run (versionError c subject v mayBeDeleted (sentinel_err ErrVersionNotFound)) ρ s = (resp, s) /\
    version_answer s c subject v (negb mayBeDeleted) resp.
Proof.
  intros Hv Hsome Hdel. unfold versionError, version_answer. rewrite !errors_Is_sentinel, bool_decide_false, bool_decide_true by done.
  rewrite run_bind. destruct (run_isSubjectFullyDeleted c subject ρ s) as ([] & -> & Hb).
  - exists subjectNotFound. split; [done|].
    destruct (stored (ctx s c) subject v) as [record|] eqn:E; [|by right].
    destruct (Hdel record eq_refl) as [-> ->]. by right.
  - destruct Hb as [Hn|Hlive]; [by destruct Hsome as (w & record & Hst); rewrite Hn in Hst|].
    rewrite run_bind. destruct mayBeDeleted.
    + unfold isVersionSoftDeleted. rewrite run_bind, run_findDeletedVersion by done.
      destruct (stored (ctx s c) subject v) as [record|] eqn:E.
      * destruct (Hdel record eq_refl) as [Hd _]. exists versionSoftDeleted. simpl. rewrite Hd. split; [done|]. by left.
      * exists versionNotFound. split; [done|]. by left.
    + exists versionNotFound. split; [done|].
      destruct (stored (ctx s c) subject v) as [record|] eqn:E; [by destruct (Hdel record eq_refl)|by left].
Qed.

Lemma versionError_absent c subject v b d ρ s :
  (forall w, stored (ctx s c) subject w = None) ->
  exists resp, run (versionError c subject v b (sentinel_err ErrSubjectNotFound)) ρ s = (resp, s) /\
    version_answer s c subject v d resp.
Proof.
  intros Hn. exists subjectNotFound. split; [done|]. unfold version_answer. rewrite Hn. right. split; [|done].
  intros (w & record & Hst & _). by rewrite Hn in Hst.
Qed.

(** Property C21.  A GET of one version answers with the version if it is stored
    and live, or stored and deleted=true is asked for; otherwise with 40401 if
    the subject has no live version, 40406 if this version is soft-deleted, and
    40402 if there is no such version.  It changes nothing. *)
Theorem GetVersion_answers reg r ρ s c subject v :
  Inv s -> requestSubject r = (c, subject) -> RegContext.rejectGlobalContext c = false ->
  ParseVersion (URLParam r "version") = Ok v -> v <> (-1)%Z ->
  QueryGet r "format" = "" -> EqualFold (QueryGet r "referenceFormat") "RESOLVED" = false ->
  exists resp, run (GetVersion reg r) ρ s = (resp, s) /\
    version_answer s c (aliasOf s c subject) v (query_true r "deleted") resp.
Proof.
  intros Hinv Hr Hc Hp Hv Hformat Hrefs. unfold GetVersion.
  match goal with |- context [run (withSubject r ?a ?k) ρ s] =>
    destruct (run_withSubject r a k ρ s c subject Hr Hc) as [ρ' ->] end.
  assert (Hshow : forall record, formatted reg r c record = Ret (Schema record) /\
                                 responseReferences r c record = Ret (Plain (References record))).
  { intros record. unfold formatted, FormatSchema, responseReferences. by rewrite Hformat, Hrefs. }
  rewrite Hp. set (x := aliasOf s c subject). set (d := query_true r "deleted").
  rewrite run_bind. cbn [run invoke handle memory_storage memory_handle].
  pose proof (GetSchemaBySubjectVersion_cases (ρ' 0%nat) c x v s Hinv Hv) as Hget.
  destruct (GetSchemaBySubjectVersion (ρ' 0%nat) c x v s) as [record|err].
  - destruct Hget as [Hst Hd]. cbv beta iota delta [pure]. rewrite run_bind. cbn [run]. cbv beta iota.
    destruct (Hshow record) as [-> ->]. eexists. split; [done|]. unfold version_answer. by rewrite Hst, Hd.
  - destruct Hget as [Hdel Hget]. cbv beta iota delta [pure]. rewrite run_bind.
    assert (Hcond : errors_Is err ErrVersionNotFound || errors_Is err ErrSubjectNotFound = true).
    { destruct Hget as [[-> _]|[-> _]]; by rewrite !errors_Is_sentinel. }
    rewrite Hcond, andb_true_r. destruct d.
    + rewrite run_findDeletedVersion by done. destruct (stored (ctx s c) x v) as [record|] eqn:Hst.
      * destruct (Hshow record) as [-> ->]. eexists. split; [done|]. unfold version_answer. rewrite Hst. cbn. by rewrite orb_true_r.
      * cbv beta iota.
        match goal with |- context [GetSchemasBySubject ?e c x true s] =>
          pose proof (GetSchemasBySubject_cases e c x true s) as Hall; destruct (GetSchemasBySubject e c x true s) as [l|err'] end.
        -- destruct Hall as [Hne Hl]. destruct l as [|a l]; [done|]. destruct (proj1 (Hl a) ltac:(left)) as (Ha & _).
           apply (run_versionError c x v false); [done|eauto|congruence].
        -- destruct Hall as [_ Hall].
           assert (Hn : forall w, stored (ctx s c) x w = None).
           { intros w. destruct (stored (ctx s c) x w) eqn:E; [by destruct (Hall _ _ E)|done]. }
           by apply versionError_absent.
    + cbn [run]. cbv beta iota. destruct Hget as [[-> Hsome]|[-> Hn]]; [|by apply versionError_absent].
      apply (run_versionError c x v true); [done|done|]. intros record Hst. by destruct (Hdel record Hst).
Qed.

Lemma GetVersion_answers_witness :
  exists resp, run (GetVersion (plain_registry "NONE") orders) (fun _ => env0) NewStore = (resp, NewStore) /\
    version_answer NewStore "." (aliasOf NewStore "." "orders") 1 false resp.
Proof. apply (GetVersion_answers (plain_registry "NONE") orders (fun _ => env0) NewStore "." "orders" 1); [apply Inv_NewStore|reflexivity..|discriminate|reflexivity|reflexivity]. Defined.

(** ** Pages *)

Lemma pageNumber_bounds r key n : pageNumber r key = Some n -> (0 <= n < 2 ^ 63)%Z.
Proof.
  unfold pageNumber. case_decide; [done|]. destruct (Atoi (QueryGet r key)) as [m|] eqn:E; [|done].
  apply Atoi_in_range in E. unfold Int64.in_range, Int64.min, Int64.max in E. destruct (Z.leb_spec 0 m); [|done]. intros [= ->]. lia.
Qed.

Lemma slice_window {A} (l : list A) first last :
  (0 <= first <= last)%Z ->
  slice l (Z.min first (Z.of_nat (List.length l))) (Z.min last (Z.of_nat (List.length l))) =
  Some (take (Z.to_nat (last - first)) (drop (Z.to_nat first) l)).
Proof.
  intros Hb. unfold slice. set (n := Z.of_nat (List.length l)).
  replace ((0 <=? Z.min first n) && (Z.min first n <=? Z.min last n) && (Z.min last n <=? n))%Z with true by (symmetry; lia).
  f_equal. destruct (Z.le_gt_cases n first) as [Hge|Hlt].
  - rewrite !(drop_ge l) by lia. by rewrite !take_nil.
  - rewrite (Z.min_l first n) by lia. destruct (Z.le_gt_cases n last) as [Hge|Hlt'].
    + rewrite !take_ge; [done|rewrite length_drop; lia..].
    + by rewrite Z.min_l by lia.
Qed.

(** A paged answer holds the elements from the offset on, as many
    as the limit allows, while offset + limit is below 2^63; an offset and limit
    that reach 2^63, both valid numbers, make the handler panic. *)
Theorem page_spec {A} r (wrap : list A -> Body) (l : list A) :
  (Z.of_nat (List.length l) < 2 ^ 63)%Z ->
  page r wrap l =
  let offset := from_opt 0%Z (pageNumber r "offset") in
  match pageNumber r "limit" with
  | None => writeJSON 200 (wrap (drop (Z.to_nat offset) l))
  | Some limit =>
      if (offset + limit <? 2 ^ 63)%Z
      then writeJSON 200 (wrap (take (Z.to_nat limit) (drop (Z.to_nat offset) l)))
      else recovered
  end.
Proof.
  intros Hlen. unfold page, parsePagination. set (n := Z.of_nat (List.length l)) in *.
  assert (Hclip : forall z, (if (n <? z)%Z then n else z) = Z.min z n) by (intros z; destruct (Z.ltb_spec n z); lia).
  rewrite !Hclip.
  assert (Ho : (0 <= from_opt 0 (pageNumber r "offset") < 2 ^ 63)%Z).
  { destruct (pageNumber r "offset") as [o|] eqn:E; [by apply pageNumber_bounds in E|done]. }
  set (o := from_opt 0%Z (pageNumber r "offset")) in *. cbv zeta.
  destruct (pageNumber r "limit") as [m|] eqn:E.
  - apply pageNumber_bounds in E. destruct (Z.ltb_spec (o + m) (2 ^ 63)) as [Hlt|Hge].
    + rewrite Int64.wrap_id by (unfold Int64.in_range, Int64.min, Int64.max; lia). unfold n. rewrite slice_window by lia.
      by replace (o + m - o)%Z with m by lia.
    + assert (Hw : (Int64.wrap (o + m) < 0)%Z).
      { unfold Int64.wrap. rewrite (Z.mod_eq _ (2 ^ 64)) by done.
        replace ((o + m + 2 ^ 63) / 2 ^ 64)%Z with 1%Z; [lia|]. apply Z.div_unique_pos with (o + m + 2 ^ 63 - 2 ^ 64)%Z; lia. }
      unfold slice. replace (_ && _ && _)%Z with false by (symmetry; lia). done.
  - replace (Z.min n n) with (Z.min (Z.max o n) n) by lia. unfold n. rewrite slice_window by lia.
    rewrite take_ge; [done|rewrite length_drop; lia].
Qed.

Lemma page_spec_witness : page (get [] [("offset", "1"); ("limit", "9223372036854775807")]) Names ["a"; "b"] = recovered.
Proof.
  refine (eq_trans (page_spec (get [] [("offset", "1"); ("limit", "9223372036854775807")]) Names ["a"; "b"] _) _);
    [reflexivity|vm_compute; reflexivity].
Defined.
