(* ===== verification/HandlersRegister.v ===== *)
(** * What a registration over HTTP answers

    With and without an ID of its own: the status says whether the store has the
    schema, and the body names the version's ID. *)
From S2P Require Import Prelude GoStrings StorageTypes MemState MemStore MemInvariant MemStoreFacts MemDelete MemQueries MemSteps StorageIface ProgLogic RegistryRefs RegistryConfig RegistryMeta RegistrySchemas Compat RegistryOps RegistryFacts RegistryImport HttpCodes Http HandlersRead HandlersWrite HandlersFacts.
From S2P Require RegContext.
From Stdlib Require Import Ascii String.

Local Open Scope string_scope.

(** A live version of the subject is stored under the ID, and at most this
    version is new. *)
Definition registered (c subject : string) (id : Z) (s s' : Store) : Prop :=
  Inv s' /\ exists v record,
    stored (ctx s' c) subject v = Some record /\ Deleted record = false /\ ID record = id /\
    forall c' subject' w, (c', subject', w) <> (c, subject, v) -> stored (ctx s' c') subject' w = stored (ctx s c') subject' w.

Definition unregistered (s s' : Store) : Prop := Inv s' /\ same_stored s s'.

Lemma registered_live c subject v record s :
  Inv s -> stored (ctx s c) subject v = Some record -> Deleted record = false -> registered c subject (ID record) s s.
Proof. intros Hinv Hst Hd. split; [done|]. by exists v, record. Qed.

Lemma registration_registered c subject s rec s' : registration c subject s (Ok rec) s' -> registered c subject (ID rec) s s'.
Proof. intros (Hinv & existing & Hst & Hd & Hid & _ & _ & _ & _ & Hframe). split; [done|]. by exists (Version rec), existing. Qed.

Lemma GetSchemaBySubjectVersion_live e c subject v s record :
  Inv s -> GetSchemaBySubjectVersion e c subject v s = Ok record ->
  stored (ctx s c) subject (Version record) = Some record /\ Deleted record = false.
Proof.
  intros Hinv E. destruct (decide (v = -1)%Z) as [->|Hv].
  - pose proof (latest_cases e c subject s Hinv) as H. rewrite E in H. tauto.
  - pose proof (GetSchemaBySubjectVersion_cases e c subject v s Hinv Hv) as H. rewrite E in H. destruct H as [Hst Hd].
    split; [|done]. by rewrite (proj1 (stored_fields _ _ _ _ Hst)).
Qed.

(** ** With an ID of its own *)

Lemma ImportSchema_registered e c record s res record' s' :
  Inv s -> ImportSchema e c record s = (res, record', s') ->
  match res with
  | Ok _ => ID record' = ID record /\ registered c (Subject record) (ID record) s s'
  | Err _ => unregistered s s'
  end.
Proof.
  intros Hinv E. pose proof (ImportSchema_Inv e c record s Hinv) as Hinv'.
  pose proof (ImportSchema_cases e c record s) as H. cbv zeta in H. rewrite E in H, Hinv'. simpl in Hinv'.
  pose proof (Inv_ctx s c Hinv) as Hwf.
  destruct (initVersions_fields (ctx s c) (Subject record)) as (Es & _).
  destruct H as [(-> & -> & _)|[(-> & _ & -> & _)|(-> & -> & _ & Hnone & ->)]].
  - split; [done|]. intros c' subject w. rewrite ctx_putContext. by case_decide; subst.
  - split; [done|]. intros c' subject w. rewrite ctx_putContext. case_decide; [subst|done].
    unfold stored. by rewrite entry_initVersions, Es.
  - split; [done|]. split; [done|]. set (info := MkInfo _ _ _ _ _ _) in *. set (cs := addVersion _ _ _ _) in *.
    assert (Hen : entry cs (Subject record) (Version record) = Some info) by (unfold cs; by rewrite entry_addVersion, decide_True).
    pose proof (Inv_ctx _ c Hinv') as Hwf'. rewrite ctx_putContext, decide_True in Hwf' by done.
    destruct (stored_Some cs _ _ _ Hwf' Hen) as (sc & Hsc & Hid & Hst). exists (Version record), (fillRecord sc (Subject record) (Version record) info).
    rewrite ctx_putContext, decide_True by done. split_and!; [done|done|done|].
    intros c' subject w Hne. rewrite ctx_putContext. case_decide as D; [|done]. subst c'.
    apply stored_frame; [done| |].
    + unfold cs. rewrite entry_addVersion, decide_False by (intros [? ?]; by subst).
      apply (entry_initVersions (ctx s c) (Subject record)).
    + intros i sc'. simpl. rewrite Es. destruct (schemas (ctx s c) !! ID record) eqn:E'; [done|].
      intros Hi. rewrite lookup_insert_ne; [done|]. intros <-. congruence.
Qed.

Lemma registered_sequence c subject id s s' c' n : registered c subject id s s' -> registered c subject id s (SetNextID c' n s').
Proof.
  intros (Hinv & v & record & Hst & Hd & Hid & Hframe).
  assert (Hsame : forall c0 subject0 w, stored (ctx (SetNextID c' n s') c0) subject0 w = stored (ctx s' c0) subject0 w).
  { intros. unfold SetNextID. destruct (getOrCreateContext_ctx s' c') as (s2 & -> & Hp).
    rewrite Hp, ctx_putContext. by case_decide; subst. }
  split.
  - unfold SetNextID. destruct (getOrCreateContext_ctx s' c') as (s2 & -> & Hp). rewrite Hp.
    apply Inv_putContext; [done|]. apply (wf_same_schemas (ctx s' c')); [done|]. by apply Inv_ctx.
  - exists v, record. rewrite Hsame. split_and!; [done..|]. intros. rewrite Hsame. by apply Hframe.
Qed.

Definition withID_outcome (c subject : string) (s : Store) (o : option (option SchemaRecord * option error)) (s' : Store) : Prop :=
  match o with
  | None => s' = s
  | Some (Some rec, None) => registered c subject (ID rec) s s'
  | Some (_, Some _) | Some (None, None) => o <> Some (None, None) /\ unregistered s s'
  end.

Lemma wp_RegisterSchemaWithID r fuel c subject text ty refs id version s :
  Inv s -> wp (RegisterSchemaWithID r fuel c subject text ty refs id version) (withID_outcome c subject s) s.
Proof.
  intros Hinv. assert (Hsame : unregistered s s) by (split; [done|by intros ???]).
  unfold RegisterSchemaWithID. wp_skip. destruct a as [[[resolved p]|err]|]; [|by apply wp_ret|done].
  apply wp_bind, wp_call. intros e existing s' E. injection E as E <-.
  destruct existing as [existing|err].
  { apply wp_ret. apply GetSchemaByFingerprint_Ok in E as (Hst & _ & _ & [?|Hd]); [done|]. by eapply registered_live. }
  apply wp_bind. unfold assignVersion. wp_read_as v.
  apply wp_bind, wp_call. intros e' [out rec] s' E'.
  match type of E' with handle _ (CImportSchema _ ?rec0) _ = _ => set (record := rec0) in E' end.
  change (ImportSchema e' c record s = (out, rec, s')) in E'.
  pose proof (ImportSchema_registered e' c record s out rec s' Hinv E') as Hreg. destruct out as [[]|err'].
  - destruct Hreg as [Hid Hreg]. apply wp_bind. intros ρ'. unfold advanceSequence. simpl. apply wp_ret.
    unfold withID_outcome. simpl. rewrite Hid. by apply registered_sequence.
  - cbv zeta. destruct (errors_Is err' ErrSchemaIDConflict); [by apply wp_ret|].
    destruct (errors_Is err' ErrSchemaExists); [|by apply wp_ret].
    apply wp_bind, wp_call. intros e2 got s2 E2. injection E2 as E2 <-.
    destruct got as [existing|]; apply wp_ret; [|done]. destruct Hreg as [Hinv' Hsame'].
    apply GetSchemaBySubjectVersion_live in E2 as [Hst Hd]; [|done]. split; [done|]. exists (Version existing), existing.
    split_and!; [done..|]. intros; apply Hsame'.
Qed.

Lemma total_RegisterSchemaWithID r fuel c subject text ty refs id version s :
  (resolve_fuel s c <= fuel)%nat -> wp (RegisterSchemaWithID r fuel c subject text ty refs id version) (fun o _ => o <> None) s.
Proof.
  intros Hf. unfold RegisterSchemaWithID. apply wp_bind_fuel. eapply wp_mono; [by apply ends_parseSchema|].
  intros [a|] s' [-> Hn]; [|done]. destruct a as [[resolved p]|]; [|by apply wp_ret].
  apply wp_bind. wp_read_as existing. destruct existing; [by apply wp_ret|].
  apply wp_bind. unfold assignVersion. wp_read_as v. apply wp_bind, wp_call. intros e1 [[[]|err] rec] s' _.
  - apply wp_bind. intros ρ'. destruct (run _ ρ' s') as [[]?]; by apply wp_ret.
  - cbv zeta. case_match; [by apply wp_ret|]. case_match; [|by apply wp_ret].
    apply wp_bind, wp_call. intros e2 [existing|] s'' _; by apply wp_ret.
Qed.

(** ** The answers of POST /subjects/{subject}/versions *)

Definition answered (c subject : string) (s : Store) (resp : Response) (s' : Store) : Prop :=
  Status resp = 200%Z /\ (exists id, ResponseBody resp = RegisterSchemaResponse id /\ registered c subject id s s') \/
  Status resp <> 200%Z /\ unregistered s s'.

Definition answered_fuel (c subject : string) (s : Store) (o : option Response) (s' : Store) : Prop :=
  match o with None => s' = s | Some resp => answered c subject s resp s' end.

Lemma answered_refusal c subject s resp s' : Status resp <> 200%Z -> unregistered s s' -> answered c subject s resp s'.
Proof. by right. Qed.

Lemma registerError_status req err : Status (registerError req err) <> 200%Z.
Proof. unfold registerError. by repeat case_match. Qed.

Lemma wp_registerInMode reg fuel r req c subject ty s :
  Inv s -> fresh_version (ctx s c) subject -> (forall record, fresh_id (ctx s c) record) ->
  wp (registerInMode reg fuel r req c subject ty) (answered_fuel c subject s) s.
Proof.
  intros Hinv Hver Hid. assert (Hsame : unregistered s s) by (split; [done|by intros ???]).
  unfold registerInMode. apply wp_bind. wp_read_as mode. destruct (0 <? RegID req)%Z.
  - destruct mode as [mode|err]; [|apply wp_ret; by apply answered_refusal].
    case_match; [apply wp_ret; by apply answered_refusal|]. apply wp_bind_fuel.
    eapply wp_mono; [by apply wp_RegisterSchemaWithID|]. intros [[[rec|] [err|]]|] s' Hout; [..|done]; apply wp_ret.
    + apply answered_refusal; [apply registerError_status|apply Hout].
    + left. split; [done|]. by exists (ID rec).
    + apply answered_refusal; [apply registerError_status|apply Hout].
    + by destruct Hout.
  - destruct mode as [mode|err]; [|apply wp_ret; by apply answered_refusal].
    case_match; [apply wp_ret; by apply answered_refusal|]. case_match; [apply wp_ret; by apply answered_refusal|].
    apply wp_bind_fuel. eapply wp_mono; [by apply wp_RegisterSchema|]. intros [[rec|err]|] s' Hout; [..|done]; apply wp_ret.
    + left. split; [done|]. exists (ID rec). split; [done|]. by apply registration_registered.
    + apply answered_refusal; [apply registerError_status|]. exact Hout.
Qed.

Lemma total_registerInMode reg fuel r req c subject ty s :
  (resolve_fuel s c <= fuel)%nat -> wp (registerInMode reg fuel r req c subject ty) (fun o _ => o <> None) s.
Proof.
  intros Hf. unfold registerInMode. apply wp_bind. wp_read_as mode. destruct (0 <? RegID req)%Z.
  - destruct mode; [|by apply wp_ret]. case_match; [by apply wp_ret|]. apply wp_bind_fuel.
    eapply wp_mono; [by apply total_RegisterSchemaWithID|]. intros [[[] []]|] s' ?; by try apply wp_ret.
  - destruct mode; [|by apply wp_ret]. case_match; [by apply wp_ret|]. case_match; [by apply wp_ret|].
    apply wp_bind_fuel. eapply wp_mono; [by apply total_RegisterSchema|]. intros [[]|] s' ?; by try apply wp_ret.
Qed.

(** Property C2.  Whatever a registration request holds, with an ID of its own or
    not, it is answered with 200 and the ID of a live version of the subject the
    store holds afterwards, and no other version has changed; or with another
    status, and no version has changed.  With the fuel that suffices for resolving
    references there is an answer. *)
Theorem registration_answers reg fuel r c subject body ρ s :
  Inv s -> requestSubject r = (c, subject) ->
  fresh_version (ctx s c) (aliasOf s c subject) -> ids_below (ctx s c) ->
  let '(resp, s') := run (RegisterSchema reg fuel r body) ρ s in
  ((resolve_fuel s c <= fuel)%nat -> resp <> None) /\
  match resp with
  | None => s' = s
  | Some resp => answered c (aliasOf s c subject) s resp s'
  end.
Proof.
  intros Hinv Hr Hver Hids. assert (Hsame : unregistered s s) by (split; [done|by intros ???]).
  assert (Hid : forall record, fresh_id (ctx s c) record).
  { intros record _. destruct (schemas (ctx s c) !! nextID (ctx s c)) eqn:E; [|done].
    pose proof (Hids (nextID (ctx s c)) ltac:(eauto)). lia. }
  assert (Hrefused : forall resp, Status resp <> 200%Z ->
    ((resolve_fuel s c <= fuel)%nat -> Some resp <> None) /\ answered c (aliasOf s c subject) s resp s) by (split; [done|by right]).
  destruct (RegContext.rejectGlobalContext c) eqn:Hc; unfold RegisterSchema;
    [rewrite (run_rejected _ _ _ _ _ _ _ Hr Hc); by apply Hrefused|].
  match goal with |- context [run (withSubject r ?a ?k) ρ s] => destruct (run_withSubject r a k ρ s c subject Hr Hc) as [ρ' ->] end.
  destruct body as [req|]; [|by apply Hrefused]. case_decide; [by apply Hrefused|].
  destruct (ParseSchemaType _) as [ty []]; [|by apply Hrefused].
  match goal with |- context [run (checkedForWrite c ?x ?a ?w ?k) ρ' s] => destruct (run_checkedForWrite c x a w k ρ' s) as [ρ'' ->] end.
  case_decide; [by apply Hrefused|].
  pose proof (wp_registerInMode reg fuel r req c (aliasOf s c subject) ty s Hinv Hver Hid ρ'') as Hw.
  pose proof (fun Hf => total_registerInMode reg fuel r req c (aliasOf s c subject) ty s Hf ρ'') as Ht.
  by destruct (run _ ρ'' s).
Qed.

Definition register_text (text : string) (id version : Z) : RegisterSchemaRequest :=
  MkRegisterSchemaRequest text "" [] id version None None.

Lemma registration_answers_witness :
  exists resp s', run (RegisterSchema (plain_registry "NONE") 3 orders (Some (register_text "text" 0 0))) (fun _ => env0) orders_store = (Some resp, s') /\
    ResponseBody resp = RegisterSchemaResponse 2 /\ registered "." "orders" 2 orders_store s'.
Proof.
  pose proof (registration_answers (plain_registry "NONE") 3 orders "." "orders" (Some (register_text "text" 0 0)) (fun _ => env0) orders_store
    Inv_orders_store eq_refl) as H.
  destruct (run _ _ _) as [resp s'] eqn:E.
  destruct H as [Hn H]; [vm_compute; split; [discriminate|reflexivity]|apply ids_below_orders_store|].
  destruct resp as [resp|]; [|exfalso; apply Hn; [vm_compute; lia|reflexivity]]. exists resp, s'. split; [reflexivity|].
  assert (Hb : fst (run (RegisterSchema (plain_registry "NONE") 3 orders (Some (register_text "text" 0 0))) (fun _ => env0) orders_store)
    = Some (writeJSON 200 (RegisterSchemaResponse 2))) by (vm_compute; reflexivity).
  rewrite E in Hb. injection Hb as ->. split; [reflexivity|].
  destruct H as [[_ (id & Hbody & Hreg)]|[H _]]; [|contradiction H; reflexivity]. injection Hbody as <-. exact Hreg.
Defined.

(** ** An import that is answered with another schema *)

Definition import_mode (s : Store) : Store := snd (run (RegistryConfig.SetMode "." "" "IMPORT" true) (fun _ => env0) s).

(** Version 1 of [orders] holds the text [[string]] with ID 1.  A registration of
    another text as version 1 with ID 9 is answered with success, the ID 1, and
    stores nothing. *)
Example import_of_a_taken_version :
  let s := import_mode orders_store in
  let '(resp, s') := run (RegisterSchema (plain_registry "NONE") 3 orders (Some (register_text "other text" 9 1))) (fun _ => env0) s in
  (resp, bool_decide (schemas (ctx s' ".") = schemas (ctx s "."))) = (Some (writeJSON 200 (RegisterSchemaResponse 1)), true).
Proof. vm_compute. reflexivity. Qed.
