(* ===== verification/HandlersKeysFacts.v ===== *)
(** * Keys and exporters over HTTP

    A created key is served from then on, its plaintext only in the answer to its
    creation; pages of the key registry never leave a list; and the states of an
    exporter follow the requests. *)
From S2P Require Import Prelude GoStrings GoBase64 StorageTypes MemState MemStore StorageIface ProgLogic RegistryKeys RegistryKeysFacts HttpCodes Http HandlersKeys.
From S2P Require MemKeys.
From Stdlib Require Import Ascii String.

Local Open Scope Z_scope.

(** ** Pages *)

(** With an offset and a limit that are numbers: the elements from the offset on,
    up to the limit, 0 being no limit. *)
Theorem applyPagination_spec {A} (items : list A) r :
  let '(offset, limit) := parsePaginationParams r in
  0 <= offset /\
  applyPagination items r =
    (if 0 <? limit then take (Z.to_nat limit) (drop (Z.to_nat offset) items) else drop (Z.to_nat offset) items).
Proof.
  destruct (parsePaginationParams r) as [offset limit] eqn:E.
  assert (Ho : 0 <= offset) by (unfold parsePaginationParams in E; injection E as <- _; case_decide; lia).
  split; [done|]. unfold applyPagination. rewrite E.
  destruct (Z.ltb_spec 0 offset); simpl.
  - destruct (Z.leb_spec (Z.of_nat (List.length items)) offset).
    + rewrite drop_ge by lia. by destruct (0 <? limit); rewrite ?take_nil.
    + destruct (Z.ltb_spec 0 limit); simpl; [|done]. destruct (Z.ltb_spec limit (Z.of_nat (List.length (drop (Z.to_nat offset) items)))); [done|].
      by rewrite take_ge by lia.
  - assert (offset = 0) as -> by lia. rewrite drop_0. destruct (Z.ltb_spec 0 limit); simpl; [|done].
    destruct (Z.ltb_spec limit (Z.of_nat (List.length items))); [done|]. by rewrite take_ge by lia.
Qed.

(** ** Keys *)

(** The key a request asks for. *)
Definition asked (kekName subject : string) (req : CreateDEKRequest) : DEKRecord :=
  MkDEKRecord kekName subject (CDVersion req) (CDAlgorithm req) (CDEncryptedKeyMaterial req) "" false 0.

(** The requests that create a key, with the key they ask for. *)
Inductive creation (kms : kmsRegistry) : DEKRecord -> prog Response -> Prop :=
  | creation_body r req :
      creation kms (asked (URLParam r "name") (CDSubject req) req) (HandlersKeys.CreateDEK kms r (Some req))
  | creation_path r req : query_true r "rewrap" = false ->
      creation kms (asked (URLParam r "name") (URLParam r "subject") req) (CreateDEKWithSubject kms r (Decoded req))
  | creation_empty r : query_true r "rewrap" = false ->
      creation kms (asked (URLParam r "name") (URLParam r "subject") (MkCreateDEKRequest "" 0 "" ""))
        (CreateDEKWithSubject kms r Empty).

Lemma creation_createDEK kms dek p :
  creation kms dek p -> p = createDEK kms dek /\ DEKDeleted dek = false /\ KeyMaterial dek = ""%string.
Proof. destruct 1 as [r req|r req E|r E]; [done|..]; unfold CreateDEKWithSubject; by rewrite E. Qed.

(** The plaintext and the ciphertext a new key comes with: what the KEK's provider
    generates when it is asked to, else nothing and what the request holds. *)
Definition key_texts (kms : kmsRegistry) (s : Store) (dek : DEKRecord) (algorithm : string) : option (string * string) :=
  match generates kms s dek algorithm with
  | Some (Ok (plaintext, wrapped)) => Some (EncodeToString plaintext, EncodeToString wrapped)
  | Some (Err _) => None
  | None => Some (""%string, EncryptedKeyMaterial dek)
  end.

(** Property C16.  A request to create a data key that is answered with 200 has
    stored a new key, and the others are as they were: under the KEK and subject
    it names, at a version that was free, with the ciphertext the KEK's provider
    generated if the KEK is shared, a provider is configured and the request holds
    none, else the one of the request.  The answer shows the stored key and, in
    the first case, the plaintext the provider generated, the store being without
    it; a request for that version is answered with the same key without the
    plaintext, whatever environments the calls meet.  Any other answer leaves the
    stored keys as they were. *)
Theorem created_key_is_served kms dek0 p ρ s :
  keys_wf s -> creation kms dek0 p ->
  let '(resp, s') := run p ρ s in
  match Status resp with
  | 200 => exists dek plaintext ciphertext,
      created s dek0 dek s' /\ key_texts kms s dek0 (Algorithm dek) = Some (plaintext, ciphertext) /\
      ResponseBody resp = DEKResponse (DEKKekName dek0) (DEKSubject dek0) (DEKVersion dek) (Algorithm dek) ciphertext plaintext
                            (DEKTs dek) false /\
      found s' (without_plaintext dek) /\ EncryptedKeyMaterial dek = ciphertext /\
      forall r' ρ', 0 < DEKVersion dek -> Int64.in_range (DEKVersion dek) ->
        URLParam r' "name" = DEKKekName dek0 -> URLParam r' "subject" = DEKSubject dek0 ->
        URLParam r' "version" = Itoa (DEKVersion dek) ->
        MemKeys.other_algorithm (QueryGet r' "algorithm") dek = false ->
        run (GetDEKVersion r') ρ' s' =
          (writeJSON 200 (DEKResponse (DEKKekName dek0) (DEKSubject dek0) (DEKVersion dek) (Algorithm dek) ciphertext ""
                            (DEKTs dek) false), s')
  | _ => forall x, found s' x <-> found s x
  end.
Proof.
  intros Hs (-> & Hnd & Hnm)%creation_createDEK. apply wp_let. unfold createDEK.
  apply wp_bind. eapply wp_mono; [by apply CreateDEK_spec|]. intros [[[]|err] dek] s'.
  - intros (Hc & _ & _ & Hg). pose proof Hc as (Hk & Hsub & Hdel & Hf & _). apply wp_ret.
    assert (key_texts kms s dek0 (Algorithm dek) = Some (KeyMaterial dek, EncryptedKeyMaterial dek)) as Ht.
    { unfold key_texts. destruct (generates _ _ _ _) as [[[]|]|]; [by destruct Hg as [-> ->]|done|]. destruct Hg as [-> ->]. by rewrite Hnm. }
    exists dek, (KeyMaterial dek), (EncryptedKeyMaterial dek). rewrite Hnd in Hdel. rewrite <- Hk, <- Hsub. split_and!; try done.
    { unfold dekToResponse. by rewrite Hdel. }
    intros r' ρ' Hv Hr Hname Hsubj Hver Halg. unfold GetDEKVersion, positiveVersion. rewrite Hver, Atoi_Itoa by done.
    rewrite (proj2 (Z.leb_gt _ _)) by done. unfold getDEK. rewrite run_bind. cbn [invoke run handle memory_storage memory_handle pure].
    rewrite Hname, Hsubj.
    pose proof (GetDEK_live (ρ' 0%nat) s' (without_plaintext dek) (QueryGet r' "algorithm") (query_true r' "deleted") Hf Hv Hdel Halg) as Hget.
    cbn in Hget. cbn. rewrite Hget. unfold dekToGetResponse. simpl. by rewrite Hdel.
  - intros Hsame. apply wp_ret. unfold createDEKError. by repeat case_match.
Qed.

(** ** Exporters *)

Inductive exporter_op := Pause | Resume | Reset.

Definition requested (op : exporter_op) (r : Request) : prog Response :=
  match op with Pause => PauseExporter r | Resume => ResumeExporter r | Reset => ResetExporter r end.

(** The status behind an operation at the time [ts]. *)
Definition next_status (op : exporter_op) (ts : Z) (status : ExporterStatusRecord) : ExporterStatusRecord :=
  match op with
  | Pause => {| status with State := "PAUSED"; StatusTs := ts |}
  | Resume => {| status with State := "RUNNING"; StatusTs := ts |}
  | Reset => {| status with StatusOffset := 0; Trace := ""; StatusTs := ts |}
  end.

(** A request that pauses, resumes or resets an exporter changes its status, and
    no other exporter's, as named, or is answered with 404. *)
Theorem exporter_lifecycle op r ρ s :
  let name := URLParam r "name" in
  let '(resp, s') := run (requested op r) ρ s in
  match MemKeys.GetExporterStatus name s with
  | Ok status =>
      resp = writeJSON 200 (ExporterNameResponse name) /\
      (exists ts, MemKeys.GetExporterStatus name s' = Ok (next_status op ts status)) /\
      forall other, other <> name -> MemKeys.GetExporterStatus other s' = MemKeys.GetExporterStatus other s
  | Err _ => resp = exporterNotFound name /\ s' = s
  end.
Proof.
  cbv zeta. set (name := URLParam r "name").
  assert (H : forall f, let '(resp, s') := run (bind (updateStatus name f) (fun res => Ret (exporterDone name res))) ρ s in
    match MemKeys.GetExporterStatus name s with
    | Ok status =>
        resp = writeJSON 200 (ExporterNameResponse name) /\
        (exists ts, MemKeys.GetExporterStatus name s' = Ok (f ts status)) /\
        forall other, other <> name -> MemKeys.GetExporterStatus other s' = MemKeys.GetExporterStatus other s
    | Err _ => resp = exporterNotFound name /\ s' = s
    end).
  { intros f. rewrite run_bind. unfold updateStatus, invoke. cbn. unfold MemKeys.GetExporter, MemKeys.GetExporterStatus.
    destruct (exporters s !! name) as [x|] eqn:Ex; cbn; [|done].
    unfold MemKeys.SetExporterStatus, MemKeys.GetExporterStatus. rewrite Ex. cbn. rewrite Ex, lookup_insert_eq. split_and!; [done|by eexists|]. intros other Ho. by rewrite lookup_insert_ne. }
  destruct op; apply H.
Qed.

(** ** Witness *)

Definition new_key_request : Request :=
  MkRequest None (fun key => if decide (key = "name") then "kek1" else if decide (key = "version") then "1" else "orders-value")%string
    (fun _ => []).

(** The provider's plaintext is in the answer, and only there. *)
Lemma created_key_is_served_witness :
  let '(resp, s') := run (CreateDEKWithSubject (Some marking_kms) new_key_request Empty) (fun _ => env0) keys_store in
  match Status resp with
  | 200 => exists dek plaintext ciphertext,
      plaintext <> ""%string /\
      ResponseBody resp = DEKResponse "kek1" "orders-value" (DEKVersion dek) (Algorithm dek) ciphertext plaintext (DEKTs dek) false /\
      found s' (without_plaintext dek)
  | _ => False
  end.
Proof.
  pose proof (created_key_is_served (Some marking_kms) _ _ (fun _ => env0) keys_store keys_wf_keys_store
    (creation_empty (Some marking_kms) new_key_request eq_refl)) as H.
  assert (E : Status (fst (run (CreateDEKWithSubject (Some marking_kms) new_key_request Empty) (fun _ => env0) keys_store)) = 200)
    by (vm_compute; reflexivity).
  revert E H. destruct (run (CreateDEKWithSubject _ _ _) _ keys_store) as [resp s']. cbn [fst]. intros ->.
  intros (dek & pt & ct & Hc & Ht & Hb & Hf & _). exists dek, pt, ct. split; [|split; [exact Hb|exact Hf]].
  intros ->. unfold key_texts, generates in Ht. revert Ht. vm_compute. discriminate.
Defined.

(** It is answered with 200. *)
Example created_key_answer :
  Status (fst (run (CreateDEKWithSubject (Some marking_kms) new_key_request Empty) (fun _ => env0) keys_store)) = 200.
Proof. vm_compute. reflexivity. Qed.
