(* ===== verification/AvroCompat.v ===== *)
(** * Avro compatibility: internal/compatibility/avro/checker.go

    The parser is github.com/hamba/avro; [AvroLib] has the functions the checker
    calls, and [Schema] the parsed schemas as far as the checker looks at them:
    one constructor per [Type()], with what the checker reads of it.  A later use
    of a named type is an [*avro.RefSchema], which the checker never follows. *)
From S2P Require Import Prelude GoStrings StorageTypes Compat.
From Stdlib Require Import Ascii String.

Local Open Scope string_scope.

(** ** Parsed schemas *)

Inductive Primitive := PString | PBytes | PInt | PLong | PFloat | PDouble | PBoolean | PNull.

#[export] Instance Primitive_eq_dec : EqDecision Primitive.
Proof. solve_decision. Defined.

Record Field (S : Type) := MkField {
  FieldName : string;
  FieldAliases : list string;
  HasDefault : bool;
  FieldType : S
}.
Arguments MkField {S} FieldName FieldAliases HasDefault FieldType.
Arguments FieldName {S} f : rename.
Arguments FieldAliases {S} f : rename.
Arguments HasDefault {S} f : rename.
Arguments FieldType {S} f : rename.

Inductive AvroSchema :=
  | SPrimitive (t : Primitive)
  | SRecord (FullName : string) (Aliases : list string) (Fields : list (Field AvroSchema))
  | SEnum (FullName : string) (Symbols : list string) (Default : string)
  | SFixed (FullName : string) (Size : Z)
  | SArray (Items : AvroSchema)
  | SMap (Values : AvroSchema)
  | SUnion (Types : list AvroSchema)
  | SRef (FullName : string)
  | SError (FullName : string).   (* a record of type "error": no case of its own *)

(** [avro.Type], by the strings it prints as. *)
Definition primitive_name (t : Primitive) : string :=
  match t with
  | PString => "string" | PBytes => "bytes" | PInt => "int" | PLong => "long"
  | PFloat => "float" | PDouble => "double" | PBoolean => "boolean" | PNull => "null"
  end.

Definition Type_ (s : AvroSchema) : string :=
  match s with
  | SPrimitive t => primitive_name t
  | SRecord _ _ _ => "record"
  | SEnum _ _ _ => "enum"
  | SFixed _ _ => "fixed"
  | SArray _ => "array"
  | SMap _ => "map"
  | SUnion _ => "union"
  | SRef _ => "<ref>"
  | SError _ => "error"
  end.

(** ** Paths *)

Definition pathOrRoot (path : string) : string := if decide (path = "") then "root" else path.

Definition appendPath (path segment : string) : string :=
  if decide (path = "") then segment else path ++ "." ++ segment.

(** ** Promotion *)

Definition canPromote (writer reader : AvroSchema) : bool :=
  match writer, reader with
  | SPrimitive PInt, SPrimitive (PLong | PFloat | PDouble) => true
  | SPrimitive PLong, SPrimitive (PFloat | PDouble) => true
  | SPrimitive PFloat, SPrimitive PDouble => true
  | SPrimitive PString, SPrimitive PBytes => true
  | SPrimitive PBytes, SPrimitive PString => true
  | _, _ => false
  end.

Definition isPromotable (writer reader : AvroSchema) : bool := canPromote writer reader.

(** ** Records, enums, fixed *)

Definition recordNamesMatch (readerName writerName : string) (readerAliases writerAliases : list string)
    : bool :=
  bool_decide (readerName = writerName) ||
  bool_decide (readerName ∈ writerAliases) ||
  bool_decide (writerName ∈ readerAliases).

(** The fields of the writer by name and alias; a later entry replaces an earlier one. *)
Definition writerFieldMap (fields : list (Field AvroSchema)) : gmap string (Field AvroSchema) :=
  fold_left (fun m f =>
      fold_left (fun m alias => <[alias := f]> m) (FieldAliases f) (<[FieldName f := f]> m))
    fields ∅.

Fixpoint firstAlias (aliases : list string) (writerFields : gmap string (Field AvroSchema))
    : option (Field AvroSchema) :=
  match aliases with
  | [] => None
  | alias :: aliases =>
      match writerFields !! alias with
      | Some wf => Some wf
      | None => firstAlias aliases writerFields
      end
  end.

Definition findWriterField (readerField : Field AvroSchema)
    (writerFields : gmap string (Field AvroSchema)) : option (Field AvroSchema) :=
  match writerFields !! FieldName readerField with
  | Some wf => Some wf
  | None => firstAlias (FieldAliases readerField) writerFields
  end.

Definition checkEnum (readerName writerName : string) (readerSymbols writerSymbols : list string)
    (readerDefault path : string) : Result :=
  if negb (bool_decide (readerName = writerName)) then
    AddMessage NewCompatibleResult
      (pathOrRoot path ++ ": enum name mismatch: reader has " ++ readerName
       ++ ", writer has " ++ writerName)
  else
    fold_left (fun result ws =>
        if bool_decide (ws ∈ readerSymbols) then result
        else if decide (readerDefault = "") then
          AddMessage result (pathOrRoot path ++ ": writer enum symbol '" ++ ws
            ++ "' not found in reader and no default set")
        else result)
      writerSymbols NewCompatibleResult.

Definition checkFixed (readerName writerName : string) (readerSize writerSize : Z) (path : string)
    : Result :=
  let result :=
    if bool_decide (readerName = writerName) then NewCompatibleResult
    else AddMessage NewCompatibleResult
           (pathOrRoot path ++ ": fixed name mismatch: reader has " ++ readerName
            ++ ", writer has " ++ writerName) in
  if bool_decide (readerSize = writerSize) then result
  else AddMessage result
         (pathOrRoot path ++ ": fixed size mismatch: reader has " ++ Itoa readerSize
          ++ ", writer has " ++ Itoa writerSize).

Definition typeMismatch (reader writer : AvroSchema) (path : string) : Result :=
  AddMessage NewCompatibleResult
    (pathOrRoot path ++ ": type mismatch: reader has " ++ Type_ reader ++ ", writer has " ++ Type_ writer).

(** The loop over the reader's fields, given the check of a reader's field. *)
Definition checkFields (check : AvroSchema -> AvroSchema -> string -> Result)
    (writerFields : gmap string (Field AvroSchema)) (path : string) (readerFields : list (Field AvroSchema))
    : Result :=
  fold_left (fun result rf =>
      match findWriterField rf writerFields with
      | None =>
          if HasDefault rf then result
          else AddMessage result (pathOrRoot path ++ ": reader field '" ++ FieldName rf
                 ++ "' has no default and is missing from writer")
      | Some wf => Merge result (check (FieldType rf) (FieldType wf) (appendPath path (FieldName rf)))
      end)
    readerFields NewCompatibleResult.

Definition checkRecord (check : AvroSchema -> AvroSchema -> string -> Result)
    (readerName : string) (readerAliases : list string) (readerFields : list (Field AvroSchema))
    (writerName : string) (writerAliases : list string) (writerFields : list (Field AvroSchema))
    (path : string) : Result :=
  if negb (recordNamesMatch readerName writerName readerAliases writerAliases) then
    AddMessage NewCompatibleResult
      (pathOrRoot path ++ ": record name mismatch: reader has " ++ readerName
       ++ ", writer has " ++ writerName)
  else checkFields check (writerFieldMap writerFields) path readerFields.

(** ** Unions *)

(** [some]: one of the reader's types can read [wt]. *)
Definition checkUnion (some : AvroSchema -> bool) (path : string) (writerTypes : list AvroSchema) : Result :=
  fold_left (fun result wt =>
      if some wt then result
      else AddMessage result (pathOrRoot path ++ ": writer union type " ++ Type_ wt
             ++ " is not compatible with any reader union type"))
    writerTypes NewCompatibleResult.

Definition checkReaderUnion (some : AvroSchema -> bool) (writer : AvroSchema) (path : string) : Result :=
  if some writer then NewCompatibleResult
  else NewIncompatibleResult
         [pathOrRoot path ++ ": writer type " ++ Type_ writer
          ++ " is not compatible with any type in reader union"].

Fixpoint checkWriterUnion (check : AvroSchema -> Result) (reader : AvroSchema) (path : string)
    (writerTypes : list AvroSchema) : Result :=
  match writerTypes with
  | [] => NewCompatibleResult
  | wt :: writerTypes =>
      if IsCompatible (check wt) then checkWriterUnion check reader path writerTypes
      else NewIncompatibleResult
             [pathOrRoot path ++ ": reader type " ++ Type_ reader
              ++ " cannot read writer union type " ++ Type_ wt]
  end.

(** ** checkSchemas *)

(** The recursion goes down in the reader, or stays and goes down in a union of
    the writer. *)
Fixpoint checkSchemas (reader : AvroSchema) : AvroSchema -> string -> Result :=
  fix with_writer (writer : AvroSchema) (path : string) {struct writer} : Result :=
    if isPromotable writer reader then NewCompatibleResult
    else
      match reader, writer with
      | SPrimitive rt, SPrimitive wt =>
          if decide (rt = wt) then NewCompatibleResult else typeMismatch reader writer path
      | SRecord rname raliases rfields, SRecord wname waliases wfields =>
          checkRecord (fun r => checkSchemas r) rname raliases rfields wname waliases wfields path
      | SEnum rname rsymbols rdefault, SEnum wname wsymbols _ =>
          checkEnum rname wname rsymbols wsymbols rdefault path
      | SArray ritems, SArray witems => checkSchemas ritems witems (appendPath path "[]")
      | SMap rvalues, SMap wvalues => checkSchemas rvalues wvalues (appendPath path "{}")
      | SUnion rtypes, SUnion wtypes =>
          checkUnion (fun wt => existsb (fun rt => IsCompatible (checkSchemas rt wt path)) rtypes) path wtypes
      | SFixed rname rsize, SFixed wname wsize => checkFixed rname wname rsize wsize path
      | SRef _, SRef _ | SError _, SError _ => NewCompatibleResult
      | SUnion rtypes, _ =>
          checkReaderUnion (fun wt => existsb (fun rt => IsCompatible (checkSchemas rt wt path)) rtypes)
            writer path
      | _, SUnion wtypes => checkWriterUnion (fun wt => with_writer wt path) reader path wtypes
      | _, _ => typeMismatch reader writer path
      end.

(** ** Check *)

(** github.com/hamba/avro: [Parse], and [ParseWithCache] with the cache it fills. *)
Record AvroLib := MkAvroLib {
  SchemaCache : Type;
  emptyCache : SchemaCache;
  Parse : string -> result AvroSchema;
  ParseWithCache : string -> SchemaCache -> result AvroSchema * SchemaCache
}.

Section checker.
Context (avro : AvroLib).

(** The loop that puts the references into the cache. *)
Fixpoint parseReferences (refs : list Reference) (cache : SchemaCache avro) : result (SchemaCache avro) :=
  match refs with
  | [] => Ok cache
  | ref :: refs =>
      if decide (RefSchema ref = "") then parseReferences refs cache
      else
        match ParseWithCache avro (RefSchema ref) cache with
        | (Err err, _) =>
            Err (Errorf_w ("invalid reference schema " ++ String "034" (RefName ref ++ String "034" ": ")) err "")
        | (Ok _, cache) => parseReferences refs cache
        end
  end.

Definition parseSchema (s : SchemaWithRefs) : result AvroSchema :=
  match SWRReferences s with
  | [] => Parse avro (SWRSchema s)
  | refs =>
      match parseReferences refs (emptyCache avro) with
      | Err err => Err err
      | Ok cache => fst (ParseWithCache avro (SWRSchema s) cache)
      end
  end.

Definition AvroCheck : SchemaChecker := fun reader writer =>
  match parseSchema reader with
  | Err err => NewIncompatibleResult ["invalid reader schema: " ++ err_text err]
  | Ok readerSchema =>
      match parseSchema writer with
      | Err err => NewIncompatibleResult ["invalid writer schema: " ++ err_text err]
      | Ok writerSchema => checkSchemas readerSchema writerSchema ""
      end
  end.
End checker.
