(* ===== verification/AvroFacts.v ===== *)
(** * What the Avro checker decides

    The checker decides the relation [reads], whatever the path it reports
    under.  The relation has its own account of promotion, of the names of
    records and of the field of the writer a reader's field takes its value
    from; it says nothing of maps built or loops run. *)
From S2P Require Import Prelude GoStrings StorageTypes Compat AvroCompat.
From Stdlib Require Import String.

(** ** Induction over nested schemas *)

Section schema_ind.
Context (P : AvroSchema -> Prop).
Hypothesis (H_primitive : forall t, P (SPrimitive t))
  (H_record : forall n a fields, Forall (fun f => P (FieldType f)) fields -> P (SRecord n a fields))
  (H_enum : forall n symbols d, P (SEnum n symbols d))
  (H_fixed : forall n size, P (SFixed n size))
  (H_array : forall items, P items -> P (SArray items))
  (H_map : forall values, P values -> P (SMap values))
  (H_union : forall types, Forall P types -> P (SUnion types))
  (H_ref : forall n, P (SRef n))
  (H_error : forall n, P (SError n)).

Fixpoint schema_ind (s : AvroSchema) : P s :=
  match s with
  | SPrimitive t => H_primitive t
  | SRecord n a fields =>
      H_record n a fields
        ((fix go (l : list (Field AvroSchema)) : Forall (fun f => P (FieldType f)) l :=
            match l with
            | [] => Forall_nil_2 _
            | f :: l => Forall_cons_2 _ f l (schema_ind (FieldType f)) (go l)
            end) fields)
  | SEnum n symbols d => H_enum n symbols d
  | SFixed n size => H_fixed n size
  | SArray items => H_array items (schema_ind items)
  | SMap values => H_map values (schema_ind values)
  | SUnion types =>
      H_union types
        ((fix go (l : list AvroSchema) : Forall P l :=
            match l with
            | [] => Forall_nil_2 _
            | t :: l => Forall_cons_2 _ t l (schema_ind t) (go l)
            end) types)
  | SRef n => H_ref n
  | SError n => H_error n
  end.
End schema_ind.

(** ** The relation *)

Definition is_union (s : AvroSchema) : bool := match s with SUnion _ => true | _ => false end.

(** The promotions of the Avro specification, from the writer's type to the reader's. *)
Inductive promotes : Primitive -> Primitive -> Prop :=
  | int_to_long : promotes PInt PLong
  | int_to_float : promotes PInt PFloat
  | int_to_double : promotes PInt PDouble
  | long_to_float : promotes PLong PFloat
  | long_to_double : promotes PLong PDouble
  | float_to_double : promotes PFloat PDouble
  | string_to_bytes : promotes PString PBytes
  | bytes_to_string : promotes PBytes PString.

(** The names a field answers to. *)
Definition field_names (f : Field AvroSchema) : list string := FieldName f :: FieldAliases f.

(** The field of the writer that goes by a name - the last one, if several do -
    and the one a reader's field takes its value from: the one that goes by its
    name, or by the first of its aliases that some field goes by. *)
Definition carrier (wf : list (Field AvroSchema)) (n : string) : option (Field AvroSchema) :=
  last (filter (fun g => n ∈ field_names g) wf).

Definition source (wf : list (Field AvroSchema)) (f : Field AvroSchema) : option (Field AvroSchema) :=
  head (omap (carrier wf) (field_names f)).

(** The reader can resolve what the writer wrote; references to named types are
    not looked into. *)
Inductive reads : AvroSchema -> AvroSchema -> Prop :=
  | reads_promoted r w : promotes w r -> reads (SPrimitive r) (SPrimitive w)
  | reads_primitive t : reads (SPrimitive t) (SPrimitive t)
  | reads_record rn ra rf wn wa wf :
      rn = wn \/ rn ∈ wa \/ wn ∈ ra ->
      (forall f, f ∈ rf -> source wf f = None -> HasDefault f = true) ->
      (forall f g, f ∈ rf -> source wf f = Some g -> reads (FieldType f) (FieldType g)) ->
      reads (SRecord rn ra rf) (SRecord wn wa wf)
  | reads_enum n rs ws rd wd :
      rd <> EmptyString \/ (forall s, s ∈ ws -> s ∈ rs) ->
      reads (SEnum n rs rd) (SEnum n ws wd)
  | reads_fixed n size : reads (SFixed n size) (SFixed n size)
  | reads_array r w : reads r w -> reads (SArray r) (SArray w)
  | reads_map r w : reads r w -> reads (SMap r) (SMap w)
  | reads_unions rs ws :
      (forall wt, wt ∈ ws -> exists rt, rt ∈ rs /\ reads rt wt) ->
      reads (SUnion rs) (SUnion ws)
  | reads_one_of rs rt w : is_union w = false -> rt ∈ rs -> reads rt w -> reads (SUnion rs) w
  | reads_each r ws : is_union r = false -> (forall wt, wt ∈ ws -> reads r wt) -> reads r (SUnion ws)
  | reads_ref n n' : reads (SRef n) (SRef n')
  | reads_error n n' : reads (SError n) (SError n').

(** ** The checker's loops *)

Lemma IsCompatible_fold {A} (step : Result -> A -> Result) (ok : A -> bool) l : forall r,
  (forall r x, IsCompatible (step r x) = IsCompatible r && ok x) ->
  IsCompatible (fold_left step l r) = IsCompatible r && forallb ok l.
Proof.
  induction l as [|x l IH]; intros r Hs; simpl; [by rewrite andb_true_r|].
  by rewrite IH, Hs, andb_assoc.
Qed.

Lemma IsCompatible_Merge r other : IsCompatible (Merge r other) = IsCompatible r && IsCompatible other.
Proof. unfold Merge. destruct (IsCompatible other); simpl; by rewrite ?andb_true_r, ?andb_false_r. Qed.

Lemma IsCompatible_checkFields check m path fields :
  IsCompatible (checkFields check m path fields) = true <->
  (forall f, f ∈ fields -> findWriterField f m = None -> HasDefault f = true) /\
  (forall f g, f ∈ fields -> findWriterField f m = Some g ->
     IsCompatible (check (FieldType f) (FieldType g) (appendPath path (FieldName f))) = true).
Proof.
  unfold checkFields.
  rewrite (IsCompatible_fold _ (fun f => match findWriterField f m with
             | None => HasDefault f
             | Some g => IsCompatible (check (FieldType f) (FieldType g) (appendPath path (FieldName f)))
             end)).
  - simpl. rewrite forallb_forall. split.
    + intros H. split; [intros f Hf E|intros f g Hf E];
        apply list_elem_of_In, H in Hf; by rewrite E in Hf.
    + intros [H1 H2] f Hf%list_elem_of_In. destruct (findWriterField f m) eqn:E; eauto.
  - intros r f. destruct (findWriterField f m); [apply IsCompatible_Merge|].
    destruct (HasDefault f); simpl; by rewrite ?andb_true_r, ?andb_false_r.
Qed.

Lemma IsCompatible_checkEnum rn wn rs ws rd path :
  IsCompatible (checkEnum rn wn rs ws rd path) = true <->
  rn = wn /\ (rd <> EmptyString \/ forall s, s ∈ ws -> s ∈ rs).
Proof.
  unfold checkEnum. destruct (bool_decide_reflect (rn = wn)) as [->|Hne]; simpl; [|naive_solver].
  rewrite (IsCompatible_fold _ (fun s => bool_decide (s ∈ rs) || negb (bool_decide (rd = EmptyString)))).
  - simpl. rewrite forallb_forall. split.
    + intros H. split; [done|]. destruct (decide (rd = EmptyString)) as [->|]; [right|by left].
      intros s Hs%list_elem_of_In%H. by rewrite orb_false_r, bool_decide_eq_true in Hs.
    + intros [_ [Hd|H]] s Hs%list_elem_of_In; apply orb_true_iff; [right|left].
      * by rewrite bool_decide_false.
      * apply bool_decide_eq_true. auto.
  - intros r s. destruct (bool_decide (s ∈ rs)); simpl; [by rewrite andb_true_r|].
    destruct (decide (rd = EmptyString)) as [->|Hd]; simpl; [by rewrite andb_false_r|].
    rewrite bool_decide_false by done. by rewrite andb_true_r.
Qed.

Lemma IsCompatible_checkFixed rn wn rsize wsize path :
  IsCompatible (checkFixed rn wn rsize wsize path) = true <-> rn = wn /\ rsize = wsize.
Proof.
  unfold checkFixed.
  destruct (bool_decide_reflect (rn = wn)), (bool_decide_reflect (rsize = wsize)); simpl; naive_solver.
Qed.

Lemma IsCompatible_checkUnion some path ws :
  IsCompatible (checkUnion some path ws) = true <-> forall wt, wt ∈ ws -> some wt = true.
Proof.
  unfold checkUnion. rewrite (IsCompatible_fold _ some).
  - simpl. rewrite forallb_forall. split; intros H wt Hwt; apply H; by apply list_elem_of_In.
  - intros r wt. destruct (some wt); simpl; by rewrite ?andb_true_r, ?andb_false_r.
Qed.

Lemma IsCompatible_checkReaderUnion some w path :
  IsCompatible (checkReaderUnion some w path) = some w.
Proof. unfold checkReaderUnion. by destruct (some w). Qed.

Lemma IsCompatible_checkWriterUnion check r path ws :
  IsCompatible (checkWriterUnion check r path ws) = true <->
  forall wt, wt ∈ ws -> IsCompatible (check wt) = true.
Proof.
  induction ws as [|wt ws IH]; simpl.
  - split; [|done]. intros _ wt Hwt. by apply elem_of_nil in Hwt.
  - destruct (IsCompatible (check wt)) eqn:E.
    + rewrite IH. split; [intros H x [->|Hx]%elem_of_cons; auto|intros H x Hx; apply H; by right].
    + split; [done|]. intros H. specialize (H wt ltac:(left)). congruence.
Qed.

Lemma existsb_elem {A} (p : A -> bool) l : existsb p l = true <-> exists x, x ∈ l /\ p x = true.
Proof. rewrite existsb_exists. by setoid_rewrite list_elem_of_In. Qed.

(** ** Promotion, names and fields *)

Lemma canPromote_promotes w r : canPromote (SPrimitive w) (SPrimitive r) = true <-> promotes w r.
Proof. split; [destruct w, r; intros H; try discriminate H; constructor|by intros []]. Qed.

Lemma canPromote_primitives w r :
  canPromote w r = true -> exists tw tr, w = SPrimitive tw /\ r = SPrimitive tr /\ promotes tw tr.
Proof.
  destruct w as [tw| | | | | | | |]; try done. destruct r as [tr| | | | | | | |]; try by destruct tw.
  intros H%canPromote_promotes. by exists tw, tr.
Qed.

Lemma recordNamesMatch_spec rn wn ra wa :
  recordNamesMatch rn wn ra wa = true <-> rn = wn \/ rn ∈ wa \/ wn ∈ ra.
Proof. unfold recordNamesMatch. rewrite !orb_true_iff, !bool_decide_eq_true. tauto. Qed.

Definition add_names (m : gmap string (Field AvroSchema)) (f : Field AvroSchema) :=
  fold_left (fun m alias => <[alias := f]> m) (FieldAliases f) (<[FieldName f := f]> m).

Lemma insert_names_spec (f : Field AvroSchema) names : forall (m : gmap string (Field AvroSchema)) n,
  fold_left (fun m alias => <[alias := f]> m) names m !! n = if decide (n ∈ names) then Some f else m !! n.
Proof.
  induction names as [|a names IH]; intros m n; cbn [fold_left]; [by rewrite decide_False by apply not_elem_of_nil|].
  rewrite IH. destruct (decide (n ∈ names)); [by rewrite decide_True by (by right)|].
  destruct (decide (n = a)) as [->|Hne]; [by rewrite lookup_insert_eq, decide_True by left|].
  rewrite lookup_insert_ne by done. by rewrite decide_False by (by rewrite elem_of_cons; intros [|]).
Qed.

Lemma add_names_spec m f n : add_names m f !! n = if decide (n ∈ field_names f) then Some f else m !! n.
Proof.
  unfold add_names. rewrite insert_names_spec. unfold field_names.
  repeat case_decide; rewrite ?elem_of_cons in *; try tauto;
    [destruct (decide (n = FieldName f)) as [->|]; [by rewrite lookup_insert_eq|tauto]|].
  rewrite lookup_insert_ne by naive_solver. done.
Qed.

(** The map of the writer's fields has the field that goes by a name. *)
Lemma writerFieldMap_carrier wf n : writerFieldMap wf !! n = carrier wf n.
Proof.
  change (writerFieldMap wf) with (fold_left add_names wf ∅). unfold carrier.
  induction wf as [|g wf IH] using rev_ind; [done|].
  rewrite fold_left_app, filter_app. simpl. rewrite add_names_spec, IH, filter_cons, filter_nil.
  case_decide; [by rewrite last_snoc|by rewrite app_nil_r].
Qed.

Lemma findWriterField_source f wf : findWriterField f (writerFieldMap wf) = source wf f.
Proof.
  unfold findWriterField, source, field_names. simpl. rewrite writerFieldMap_carrier.
  destruct (carrier wf (FieldName f)); [done|].
  induction (FieldAliases f) as [|a aliases IH]; simpl; [done|].
  rewrite writerFieldMap_carrier, IH. by destruct (carrier wf a).
Qed.

(** ** The cases *)

Lemma checkSchemas_promotable r w path :
  canPromote w r = true -> IsCompatible (checkSchemas r w path) = true.
Proof. by destruct r as [[]| | | | | | | |], w as [[]| | | | | | | |]. Qed.

Lemma checkSchemas_record rn ra rf wn wa wf path :
  checkSchemas (SRecord rn ra rf) (SRecord wn wa wf) path =
  checkRecord (fun r => checkSchemas r) rn ra rf wn wa wf path.
Proof. done. Qed.

Lemma checkSchemas_unions rs ws path :
  checkSchemas (SUnion rs) (SUnion ws) path =
  checkUnion (fun wt => existsb (fun rt => IsCompatible (checkSchemas rt wt path)) rs) path ws.
Proof. done. Qed.

Lemma checkSchemas_reader_union rs w path :
  is_union w = false ->
  checkSchemas (SUnion rs) w path =
  checkReaderUnion (fun wt => existsb (fun rt => IsCompatible (checkSchemas rt wt path)) rs) w path.
Proof. destruct w as [[]| | | | | | | |]; done. Qed.

Lemma checkSchemas_writer_union r ws path :
  is_union r = false ->
  checkSchemas r (SUnion ws) path = checkWriterUnion (fun wt => checkSchemas r wt path) r path ws.
Proof. destruct r as [[]| | | | | | | |]; done. Qed.

(** ** The checker decides the relation *)

Definition decides (r w : AvroSchema) : Prop :=
  forall path, IsCompatible (checkSchemas r w path) = true <-> reads r w.

(** A reader that is not a union: a union of the writer is read member by member. *)
Lemma decides_writer_union r :
  is_union r = false -> (forall w, is_union w = false -> decides r w) -> forall w, decides r w.
Proof.
  intros Hr Hd. apply (schema_ind (decides r)); try (intros; by apply Hd).
  intros ws IH path. rewrite Forall_forall in IH.
  rewrite checkSchemas_writer_union, IsCompatible_checkWriterUnion by done. split.
  - intros H. apply reads_each; [done|]. intros wt Hwt. by apply (IH wt Hwt path), H.
  - intros H wt Hwt. apply (IH wt Hwt path).
    inversion H; subst; [discriminate Hr..|auto].
Qed.

Lemma decides_reader_union rs :
  Forall (fun rt => forall w, decides rt w) rs -> forall w, decides (SUnion rs) w.
Proof.
  intros IH w path. rewrite Forall_forall in IH.
  assert (Hex : forall w, existsb (fun rt => IsCompatible (checkSchemas rt w path)) rs = true <->
            exists rt, rt ∈ rs /\ reads rt w).
  { intros w'. rewrite existsb_elem. split; intros (rt & Hrt & H); exists rt; split;
      try done; by apply (IH rt Hrt w' path). }
  destruct (is_union w) eqn:Hw.
  - destruct w; try discriminate Hw. rewrite checkSchemas_unions, IsCompatible_checkUnion. split.
    + intros H. apply reads_unions. intros wt Hwt. by apply Hex, H.
    + intros H wt Hwt. apply Hex. inversion H; subst; try done. auto.
  - rewrite checkSchemas_reader_union, IsCompatible_checkReaderUnion, Hex by done. split.
    + intros (rt & Hrt & H). by apply reads_one_of with rt.
    + intros H. inversion H; subst; try done. eauto.
Qed.

(** Types that do not match. *)
Ltac mismatch :=
  intros path; split; [intros Hc; discriminate Hc|intros Hr; inversion Hr; subst; simpl in *; discriminate].

Lemma checkSchemas_decides r : forall w, decides r w.
Proof.
  induction r as [t|rn ra rf IH|rn rs rd|rn rsize|ritems IH|rvalues IH|rs IH|rn|rn] using schema_ind;
    [..|by apply decides_reader_union| |]; try (apply decides_writer_union; [done|]);
    intros w Hw; destruct w as [wt|wn wa wf|wn ws wd|wn wsize|witems|wvalues|ws|wn|wn]; try discriminate Hw;
    try mismatch; try (destruct wt; mismatch).
  - intros path. split.
    + intros H. destruct (canPromote (SPrimitive wt) (SPrimitive t)) eqn:E;
        [by apply reads_promoted, canPromote_promotes|].
      destruct t, wt; try discriminate E; try discriminate H; apply reads_primitive.
    + intros H. inversion H as [? ? Hp| | | | | | | | | | |]; subst; [|by destruct wt].
      by apply checkSchemas_promotable, canPromote_promotes.
  - intros path. rewrite checkSchemas_record. unfold checkRecord. rewrite Forall_forall in IH.
    destruct (recordNamesMatch rn wn ra wa) eqn:En; simpl.
    + rewrite IsCompatible_checkFields. setoid_rewrite findWriterField_source. split.
      * intros [H1 H2]. apply reads_record; [by apply recordNamesMatch_spec|done|].
        intros f g Hf Hg. eapply (IH f Hf), H2; eauto.
      * intros H. inversion H as [|?|? ? ? ? ? ? ? H1 H2| | | | | | | | |]; subst.
        split; [done|]. intros f g Hf Hg. apply (IH f Hf). eauto.
    + split; [done|]. intros H. inversion H as [|?|? ? ? ? ? ? Hn ? ?| | | | | | | | |]; subst.
      apply recordNamesMatch_spec in Hn. congruence.
  - intros path. simpl. rewrite IsCompatible_checkEnum. split.
    + intros [-> H]. by apply reads_enum.
    + intros H. inversion H; subst; by simpl in *.
  - intros path. simpl. rewrite IsCompatible_checkFixed. split.
    + intros [-> ->]. apply reads_fixed.
    + intros H. inversion H; subst; by simpl in *.
  - intros path. simpl. rewrite (IH witems _). split; [apply reads_array|].
    intros H. inversion H; subst; by simpl in *.
  - intros path. simpl. rewrite (IH wvalues _). split; [apply reads_map|].
    intros H. inversion H; subst; by simpl in *.
  - intros path. split; [intros _; apply reads_ref|done].
  - intros path. split; [intros _; apply reads_error|done].
Qed.

(** Property C25.  The Avro checker decides the relation [reads], whatever the
    path the messages name: the promotions of the Avro specification and no
    others; records that share a name, where each field of the reader has a
    default or takes its value from a field of the writer that it reads; enums of
    the same name whose symbols are covered or defaulted; equal fixed types;
    arrays, maps and unions member by member.  [reads] departs from the
    specification where the code does: the aliases of the writer count like the
    reader's, and references to named types agree whatever they refer to. *)
Theorem checkSchemas_reads r w path : IsCompatible (checkSchemas r w path) = true <-> reads r w.
Proof. apply checkSchemas_decides. Qed.

(** A compatible result has no messages and an incompatible one has some, so
    that the orchestrator never overlooks a failure of this checker. *)
Definition speaks (r : Result) : Prop := IsCompatible r = true <-> Messages r = [].

Lemma speaks_fold {A} (step : Result -> A -> Result) l : forall r,
  (forall r x, speaks r -> speaks (step r x)) -> speaks r -> speaks (fold_left step l r).
Proof. induction l; simpl; auto. Qed.

Lemma speaks_compatible : speaks NewCompatibleResult.
Proof. done. Qed.

Lemma speaks_AddMessage r m : speaks (AddMessage r m).
Proof. split; [done|]. simpl. by destruct (Messages r). Qed.

Lemma speaks_Merge r r' : speaks r -> speaks r' -> speaks (Merge r r').
Proof.
  unfold speaks, Merge. intros Hr Hr'. destruct (IsCompatible r'); [done|]. simpl. split; [done|].
  intros E. apply app_eq_nil in E as [_ E]. by apply Hr'.
Qed.

Lemma speaks_incompatible m : speaks (NewIncompatibleResult [m]).
Proof. done. Qed.

#[local] Hint Resolve speaks_compatible speaks_AddMessage speaks_Merge speaks_incompatible : core.

Lemma speaks_checkFields check m path fields :
  (forall f g, f ∈ fields -> speaks (check (FieldType f) (FieldType g) (appendPath path (FieldName f)))) ->
  speaks (checkFields check m path fields).
Proof.
  intros Hc. unfold checkFields. revert Hc. assert (H0 : speaks NewCompatibleResult) by done. revert H0.
  generalize NewCompatibleResult. induction fields as [|f fields IH]; intros r Hr Hc; [done|].
  simpl. apply IH; [|intros; apply Hc; by right].
  destruct (findWriterField f m); [apply speaks_Merge; [done|]; apply Hc; left|].
  by destruct (HasDefault f).
Qed.

Lemma speaks_checkEnum rn wn rs ws rd path : speaks (checkEnum rn wn rs ws rd path).
Proof.
  unfold checkEnum. destruct (negb _); [auto|]. apply speaks_fold; [|done].
  intros r x Hr. destruct (bool_decide _); [done|]. by destruct (decide _).
Qed.

Lemma speaks_checkFixed rn wn rsize wsize path : speaks (checkFixed rn wn rsize wsize path).
Proof. unfold checkFixed. destruct (bool_decide (rsize = wsize)); [|auto]. by destruct (bool_decide _). Qed.

Lemma speaks_checkWriterUnion check r path ws : speaks (checkWriterUnion check r path ws).
Proof. induction ws as [|wt ws IH]; simpl; [done|]. by destruct (IsCompatible _). Qed.

Lemma checkSchemas_speaks r : forall w path, speaks (checkSchemas r w path).
Proof.
  induction r as [t|rn ra rf IH|rn rs rd|rn rsize|ritems IH|rvalues IH|rs IH|rn|rn] using schema_ind;
    intros w path; destruct (is_union w) eqn:Hw.
  all: try (destruct w; try discriminate Hw; rewrite checkSchemas_writer_union by done;
            apply speaks_checkWriterUnion).
  all: try (rewrite checkSchemas_reader_union by done; unfold checkReaderUnion; by destruct (existsb _ _)).
  all: try (destruct w as [[]|wn wa wf|wn ws wd|wn wsize|witems|wvalues|ws|wn|wn]; try discriminate Hw;
            simpl; try (by auto)).
  all: try (by destruct t; first [exact speaks_compatible | apply speaks_AddMessage]).
  - unfold checkRecord. destruct (negb _); [auto|]. apply speaks_checkFields.
    intros f g Hf. rewrite Forall_forall in IH. by apply IH.
  - apply speaks_checkEnum.
  - apply speaks_checkFixed.
  - unfold checkUnion. apply speaks_fold; [|done]. intros r x Hr. by destruct (existsb _ _).
Qed.
