(* ===== verification/AvroData.v ===== *)
(** * Data written under one Avro schema and read under another

    The values of a schema and the resolution rules of the Avro specification,
    independent of the checker; a schema the checker accepts for reading can
    read every datum of the writer's schema.  Defaults belong to the parsed
    schema (github.com/hamba/avro checks them when it parses) and floating-point
    conversions to the language: both are parameters here. *)
From S2P Require Import Prelude GoStrings StorageTypes Compat AvroCompat AvroFacts.
From Stdlib Require Import String.

Local Open Scope string_scope.

(** ** A schema reads itself *)

(** The fields of every record have names and aliases of their own, and no
    union is a member of a union: what [avro.Parse] lets through. *)
Inductive distinct_names : AvroSchema -> Prop :=
  | dn_primitive t : distinct_names (SPrimitive t)
  | dn_record n a fields :
      NoDup (List.concat (map field_names fields)) ->
      Forall (fun f => distinct_names (FieldType f)) fields ->
      distinct_names (SRecord n a fields)
  | dn_enum n symbols d : distinct_names (SEnum n symbols d)
  | dn_fixed n size : distinct_names (SFixed n size)
  | dn_array items : distinct_names items -> distinct_names (SArray items)
  | dn_map values : distinct_names values -> distinct_names (SMap values)
  | dn_union types : Forall distinct_names types -> distinct_names (SUnion types)
  | dn_ref n : distinct_names (SRef n)
  | dn_error n : distinct_names (SError n).

Lemma writerFieldMap_from fields n : forall m,
  NoDup (List.concat (map field_names fields)) ->
  (forall f, f ∈ fields -> n ∈ field_names f -> fold_left add_names fields m !! n = Some f) /\
  ((forall f, f ∈ fields -> n ∉ field_names f) -> fold_left add_names fields m !! n = m !! n).
Proof.
  induction fields as [|g fields IH]; intros m Hnd; simpl.
  - split; [|done]. intros f Hf. by apply elem_of_nil in Hf.
  - change (NoDup (field_names g ++ List.concat (map field_names fields))%list) in Hnd.
    apply NoDup_app in Hnd as (_ & Hdis & Hnd). specialize (IH (add_names m g) Hnd).
    destruct IH as [IH1 IH2]. split.
    + intros f [->|Hf]%elem_of_cons Hn; [|by apply IH1].
      rewrite IH2; [by rewrite add_names_spec, decide_True|].
      intros f' Hf' Hn'. apply (Hdis n Hn). apply list_elem_of_In, in_concat. exists (field_names f').
      split; [by apply in_map, list_elem_of_In|by apply list_elem_of_In].
    + intros H. rewrite IH2 by (intros f Hf; apply H; by right).
      rewrite add_names_spec, decide_False; [done|]. apply H. left.
Qed.

Lemma source_self f fields :
  NoDup (List.concat (map field_names fields)) -> f ∈ fields -> source fields f = Some f.
Proof.
  intros Hnd Hf. rewrite <- findWriterField_source. unfold findWriterField.
  destruct (writerFieldMap_from fields (FieldName f) ∅ Hnd) as [H _].
  change (writerFieldMap fields) with (fold_left add_names fields ∅). by rewrite (H f Hf) by left.
Qed.

Lemma reads_refl s : distinct_names s -> reads s s.
Proof.
  induction s as [t|n a fields IH|n symbols d|n size|items IH|values IH|types IH|n|n] using schema_ind;
    intros Hd; try (constructor; fail); inversion Hd as [|? ? ? Hnd Hall| | | | |? Hall| |]; subst.
  - rewrite Forall_forall in IH, Hall. apply reads_record; [by left|..].
    + intros f Hf E. by rewrite source_self in E.
    + intros f g Hf E. rewrite source_self in E by done. injection E as <-. auto.
  - apply reads_enum. by right.
  - apply reads_array. auto.
  - apply reads_map. auto.
  - rewrite Forall_forall in IH, Hall. apply reads_unions. intros wt Hwt. exists wt. auto.
Qed.

(** A schema is compatible with itself, so registering a schema
    again is never refused: a schema whose records have distinct field names and
    aliases passes the check against itself. *)
Theorem checkSchemas_self s path : distinct_names s -> IsCompatible (checkSchemas s s path) = true.
Proof. intros Hd. apply checkSchemas_decides, reads_refl, Hd. Qed.

Definition order_schema : AvroSchema :=
  SRecord "Order" [] [
    MkField "id" ["key"] false (SPrimitive PInt);
    MkField "note" [] true (SUnion [SPrimitive PNull; SPrimitive PString])].

Lemma checkSchemas_self_witness : IsCompatible (checkSchemas order_schema order_schema "") = true.
Proof.
  apply checkSchemas_self, dn_record.
  - by apply (bool_decide_unpack _); vm_compute.
  - repeat constructor.
Defined.

(** ** Values *)

Section data.
Context {F32 F64 : Type}.
Context (f32_of_Z : Z -> F32) (f64_of_Z : Z -> F64) (f64_of_f32 : F32 -> F64).

Inductive Value :=
  | VNull
  | VBoolean (b : bool)
  | VInt (z : Z)
  | VLong (z : Z)
  | VFloat (x : F32)
  | VDouble (x : F64)
  | VBytes (b : string)
  | VString (s : string)
  | VRecord (fields : list Value)     (* in the order of the schema *)
  | VEnum (symbol : string)
  | VFixed (b : string)
  | VArray (items : list Value)
  | VMap (entries : list (string * Value))
  | VUnion (branch : nat) (v : Value).

Inductive has_type : AvroSchema -> Value -> Prop :=
  | ht_null : has_type (SPrimitive PNull) VNull
  | ht_boolean b : has_type (SPrimitive PBoolean) (VBoolean b)
  | ht_int z : (- 2 ^ 31 <= z < 2 ^ 31)%Z -> has_type (SPrimitive PInt) (VInt z)
  | ht_long z : (- 2 ^ 63 <= z < 2 ^ 63)%Z -> has_type (SPrimitive PLong) (VLong z)
  | ht_float x : has_type (SPrimitive PFloat) (VFloat x)
  | ht_double x : has_type (SPrimitive PDouble) (VDouble x)
  | ht_bytes b : has_type (SPrimitive PBytes) (VBytes b)
  | ht_string s : has_type (SPrimitive PString) (VString s)
  | ht_record n a fields vs :
      Forall2 (fun f v => has_type (FieldType f) v) fields vs -> has_type (SRecord n a fields) (VRecord vs)
  | ht_enum n symbols d s : s ∈ symbols -> has_type (SEnum n symbols d) (VEnum s)
  | ht_fixed n size b : Z.of_nat (String.length b) = size -> has_type (SFixed n size) (VFixed b)
  | ht_array t vs : Forall (has_type t) vs -> has_type (SArray t) (VArray vs)
  | ht_map t vs : Forall (fun e => has_type t e.2) vs -> has_type (SMap t) (VMap vs)
  | ht_union types i t v : types !! i = Some t -> has_type t v -> has_type (SUnion types) (VUnion i v).

(** ** Resolution *)

(** A value of a type read as a value of a wider one. *)
Definition promote (reader : AvroSchema) (v : Value) : option Value :=
  match reader, v with
  | SPrimitive PLong, VInt z => Some (VLong z)
  | SPrimitive PFloat, (VInt z | VLong z) => Some (VFloat (f32_of_Z z))
  | SPrimitive PDouble, (VInt z | VLong z) => Some (VDouble (f64_of_Z z))
  | SPrimitive PDouble, VFloat x => Some (VDouble (f64_of_f32 x))
  | SPrimitive PBytes, VString s => Some (VBytes s)
  | SPrimitive PString, VBytes b => Some (VString b)
  | _, _ => None
  end.

(** The writer's field a reader's field takes its value from: the one of its
    name, or else one an alias of the reader's field names. *)
Definition supplies (wfields : list (Field AvroSchema)) (f g : Field AvroSchema) : Prop :=
  FieldName g = FieldName f \/
  (forall g', g' ∈ wfields -> FieldName g' <> FieldName f) /\ FieldName g ∈ FieldAliases f.

Context (default : Field AvroSchema -> Value).

Inductive resolves : AvroSchema -> AvroSchema -> Value -> Value -> Prop :=
  | rs_promote r w v v' :
      promotes w r -> promote (SPrimitive r) v = Some v' -> resolves (SPrimitive r) (SPrimitive w) v v'
  | rs_same t v : resolves (SPrimitive t) (SPrimitive t) v v
  | rs_record rn ra rf wn wa wf vs vs' :
      Forall2 (fun f v' =>
          (exists i g v, wf !! i = Some g /\ vs !! i = Some v /\ supplies wf f g /\
             resolves (FieldType f) (FieldType g) v v') \/
          (forall g, g ∈ wf -> ~ supplies wf f g) /\ HasDefault f = true /\ v' = default f) rf vs' ->
      resolves (SRecord rn ra rf) (SRecord wn wa wf) (VRecord vs) (VRecord vs')
  | rs_enum n rs ws rd wd s : s ∈ rs -> resolves (SEnum n rs rd) (SEnum n ws wd) (VEnum s) (VEnum s)
  | rs_enum_default n rs ws rd wd s :
      s ∉ rs -> rd <> "" -> resolves (SEnum n rs rd) (SEnum n ws wd) (VEnum s) (VEnum rd)
  | rs_fixed n size b : resolves (SFixed n size) (SFixed n size) (VFixed b) (VFixed b)
  | rs_array r w vs vs' :
      Forall2 (resolves r w) vs vs' -> resolves (SArray r) (SArray w) (VArray vs) (VArray vs')
  | rs_map r w vs vs' :
      Forall2 (fun e e' => e.1 = e'.1 /\ resolves r w e.2 e'.2) vs vs' ->
      resolves (SMap r) (SMap w) (VMap vs) (VMap vs')
  | rs_writer_union r ws i wt v v' :
      ws !! i = Some wt -> resolves r wt v v' -> resolves r (SUnion ws) (VUnion i v) v'
  | rs_reader_union rs w j rt v v' :
      is_union w = false -> rs !! j = Some rt -> resolves rt w v v' ->
      resolves (SUnion rs) w v (VUnion j v').

(** ** The schemas the theorem is about *)

(** No reference to a named type, which the checker does not follow; the
    defaults are values of their types. *)
Inductive readable : AvroSchema -> Prop :=
  | rd_primitive t : readable (SPrimitive t)
  | rd_record n a fields :
      Forall (fun f => readable (FieldType f)) fields ->
      Forall (fun f => HasDefault f = true -> has_type (FieldType f) (default f)) fields ->
      readable (SRecord n a fields)
  | rd_enum n symbols d : (d <> "" -> d ∈ symbols) -> readable (SEnum n symbols d)
  | rd_fixed n size : readable (SFixed n size)
  | rd_array t : readable t -> readable (SArray t)
  | rd_map t : readable t -> readable (SMap t)
  | rd_union types : Forall readable types -> readable (SUnion types).

(** No field of the writer has an alias - the specification gives the writer's
    aliases no meaning, the checker does - and no union has a union member. *)
Inductive writable : AvroSchema -> Prop :=
  | wr_primitive t : writable (SPrimitive t)
  | wr_record n a fields :
      Forall (fun f => FieldAliases f = []) fields ->
      Forall (fun f => writable (FieldType f)) fields ->
      writable (SRecord n a fields)
  | wr_enum n symbols d : writable (SEnum n symbols d)
  | wr_fixed n size : writable (SFixed n size)
  | wr_array t : writable t -> writable (SArray t)
  | wr_map t : writable t -> writable (SMap t)
  | wr_union types :
      Forall writable types -> Forall (fun t => is_union t = false) types -> writable (SUnion types).

(** ** What the checker accepts can be read *)

Definition sound (r w : AvroSchema) : Prop :=
  forall v, writable w -> reads r w -> has_type w v ->
  exists v', resolves r w v v' /\ has_type r v'.

Lemma sound_promoted r w v :
  promotes w r -> has_type (SPrimitive w) v ->
  exists v', resolves (SPrimitive r) (SPrimitive w) v v' /\ has_type (SPrimitive r) v'.
Proof.
  intros Hp Hv. destruct Hp; inversion Hv; subst; eexists;
    (split; [eapply rs_promote; [constructor|reflexivity]|constructor; lia]).
Qed.

(** The checker finds the field that supplies the value. *)
Lemma writerFieldMap_unaliased fields n : forall m,
  Forall (fun f => FieldAliases f = []) fields ->
  match fold_left add_names fields m !! n with
  | Some g => (g ∈ fields /\ FieldName g = n) \/ m !! n = Some g
  | None => (forall g, g ∈ fields -> FieldName g <> n) /\ m !! n = None
  end.
Proof.
  induction fields as [|f fields IH]; intros m Ha; simpl.
  - destruct (m !! n); [by right|]. split; [|done]. intros g Hg. by apply elem_of_nil in Hg.
  - apply Forall_cons in Ha as [Hf Ha]. specialize (IH (add_names m f) Ha).
    assert (Hm : add_names m f !! n = if decide (n = FieldName f) then Some f else m !! n).
    { rewrite add_names_spec. unfold field_names. rewrite Hf. repeat case_decide; set_solver. }
    rewrite Hm in IH. destruct (fold_left _ _ _ !! n).
    + case_decide; set_solver.
    + case_decide; [by destruct IH|]. set_solver.
Qed.

Lemma firstAlias_supplies aliases m :
  match firstAlias aliases m with
  | Some g => exists a, a ∈ aliases /\ m !! a = Some g
  | None => forall a, a ∈ aliases -> m !! a = None
  end.
Proof.
  induction aliases as [|a aliases IH]; simpl; [intros a Ha; by apply elem_of_nil in Ha|].
  destruct (m !! a) eqn:E; [exists a; split; [left|done]|].
  destruct (firstAlias aliases m).
  - destruct IH as (a' & Ha & Em). exists a'. split; [by right|done].
  - intros a' [->|Ha]%elem_of_cons; auto.
Qed.

Lemma source_supplies f fields :
  Forall (fun f => FieldAliases f = []) fields ->
  match source fields f with
  | Some g => g ∈ fields /\ supplies fields f g
  | None => forall g, g ∈ fields -> ~ supplies fields f g
  end.
Proof.
  intros Ha. assert (Hm := fun n => writerFieldMap_unaliased fields n ∅ Ha).
  change (fold_left add_names fields ∅) with (writerFieldMap fields) in Hm.
  rewrite <- findWriterField_source. unfold findWriterField. pose proof (Hm (FieldName f)) as Hn.
  destruct (writerFieldMap fields !! FieldName f) as [g|].
  { destruct Hn as [[Hg En]|?]; [|done]. split; [done|by left]. }
  destruct Hn as [Hn _]. pose proof (firstAlias_supplies (FieldAliases f) (writerFieldMap fields)) as Hf.
  destruct (firstAlias _ _) as [g|].
  - destruct Hf as (a & Hin & E). pose proof (Hm a) as Hg. rewrite E in Hg.
    destruct Hg as [[Hg <-]|?]; [|done]. split; [done|]. right. split; [|done]. auto.
  - intros g Hg [E|[_ Hin]]; [by apply (Hn g Hg)|]. specialize (Hf _ Hin). pose proof (Hm (FieldName g)) as Hm'.
    rewrite Hf in Hm'. destruct Hm' as [Hm' _]. by apply (Hm' g Hg).
Qed.

(** A value for every element, one at a time. *)
Lemma Forall2_exists {A B} (P : A -> B -> Prop) l :
  (forall x, x ∈ l -> exists y, P x y) -> exists k, Forall2 P l k.
Proof.
  induction l as [|x l IH]; intros H; [exists []; constructor|].
  destruct (H x) as [y Hy]; [left|]. destruct IH as [k Hk]; [intros; apply H; by right|].
  exists (y :: k). by constructor.
Qed.

Lemma Forall2_exists_both {A B} (P : A -> B -> Prop) (Q : B -> Prop) l :
  (forall x, x ∈ l -> exists y, P x y /\ Q y) -> exists k, Forall2 P l k /\ Forall Q k.
Proof.
  intros H. destruct (Forall2_exists _ l H) as [k Hk]. exists k. split.
  - eapply Forall2_impl; [exact Hk|]. naive_solver.
  - eapply Forall2_Forall_r; [exact Hk|]. apply Forall_true. naive_solver.
Qed.

Lemma sound_record rn ra rf wn wa wf :
  Forall (fun f => HasDefault f = true -> has_type (FieldType f) (default f)) rf ->
  (forall f, f ∈ rf -> forall w, sound (FieldType f) w) ->
  sound (SRecord rn ra rf) (SRecord wn wa wf).
Proof.
  intros Hdef IH v Hw Hr Hv. rewrite Forall_forall in Hdef.
  inversion Hw as [|? ? ? Ha Hwf| | | | |]; subst. rewrite Forall_forall in Hwf.
  inversion Hv as [| | | | | | | |? ? ? vs Hvs| | | | |]; subst.
  inversion Hr as [|?|? ? ? ? ? ? _ Hd Hf| | | | | | | | |]; subst.
  destruct (Forall2_exists (fun f v' => ((exists i g v, wf !! i = Some g /\ vs !! i = Some v /\
      supplies wf f g /\ resolves (FieldType f) (FieldType g) v v') \/
      (forall g, g ∈ wf -> ~ supplies wf f g) /\ HasDefault f = true /\ v' = default f) /\
      has_type (FieldType f) v') rf) as [vs' Hvs'].
  - intros f Hin. pose proof (source_supplies f wf Ha) as Hs.
    destruct (source wf f) as [g|] eqn:E.
    + destruct Hs as [Hg Hs]. apply list_elem_of_lookup in Hg as [i Hi].
      destruct (Forall2_lookup_l _ _ _ _ _ Hvs Hi) as (x & Hx & Ht).
      destruct (IH f Hin (FieldType g) x) as (x' & Hres & Ht').
      * apply Hwf. by eapply list_elem_of_lookup_2.
      * by eapply Hf.
      * done.
      * exists x'. split; [left; eauto 10|done].
    + exists (default f). split; [right|]; auto.
  - exists (VRecord vs'). split; constructor; eapply Forall2_impl; try exact Hvs'; naive_solver.
Qed.

Lemma sound_writer_union r :
  is_union r = false -> (forall w, is_union w = false -> sound r w) -> forall w, sound r w.
Proof.
  intros Hr Hs. apply (schema_ind (sound r)); try (intros; by apply Hs).
  intros ws IH v Hw Hreads Hv. rewrite Forall_forall in IH.
  inversion Hw as [| | | | | |? Hws Hnu]; subst. rewrite Forall_forall in Hws.
  inversion Hv as [| | | | | | | | | | | | |? i t x Hi Ht]; subst.
  assert (Hin : t ∈ ws) by (by eapply list_elem_of_lookup_2).
  inversion Hreads as [| | | | | | |? ? Hu| |? ? ? Hu| |]; subst; [discriminate Hr..|].
  destruct (IH t Hin x) as (x' & Hx & Ht'); auto. exists x'. split; [by eapply rs_writer_union|done].
Qed.

Lemma sound_reader_union rs :
  (forall rt, rt ∈ rs -> forall w, sound rt w) -> forall w, sound (SUnion rs) w.
Proof.
  intros IH w v Hw Hr Hv.
  assert (Hone : forall w v, is_union w = false -> writable w -> has_type w v ->
            (exists rt, rt ∈ rs /\ reads rt w) -> exists v', resolves (SUnion rs) w v v' /\ has_type (SUnion rs) v').
  { intros w' x Hu Hw' Ht (rt & Hin & Hrt). destruct (IH rt Hin w' x) as (x' & Hx & Ht'); [done..|].
    apply list_elem_of_lookup in Hin as [j Hj]. exists (VUnion j x').
    split; [by eapply rs_reader_union|by econstructor]. }
  inversion Hr as [| | | | | | |? ws Hu|? rt ? Hu Hin Hrt|? ? Hu| |]; subst; try done.
  - inversion Hw as [| | | | | |? Hws Hnu]; subst. rewrite Forall_forall in Hws, Hnu.
    inversion Hv as [| | | | | | | | | | | | |? i t x Hi Ht]; subst.
    assert (Hin : t ∈ ws) by (by eapply list_elem_of_lookup_2).
    destruct (Hone t x) as (x' & Hx & Ht'); auto. exists x'. split; [by eapply rs_writer_union|done].
  - apply Hone; eauto.
Qed.

Lemma sound_all r : readable r -> forall w, sound r w.
Proof.
  induction r as [t|rn ra rf IH|rn rs rd|rn rsize|ritems IH|rvalues IH|rs IH|rn|rn] using schema_ind;
    intros Hrd; [..|by inversion Hrd|by inversion Hrd];
    inversion Hrd as [|? ? ? Hrf Hdef|? ? ? Hd| | | |? Hall]; subst;
    [| | | | | |rewrite Forall_forall in IH, Hall; apply sound_reader_union; auto];
    (apply sound_writer_union; [done|]); intros w Hu v Hw Hr Hv;
    inversion Hr as [? ? Hp|?|? ? ? ? ? ? ? ? ?|? ? ? ? ? Hs|? ?|? ? Hrw|? ? Hrw| | | | |]; subst;
    try done; try (by apply sound_promoted).
  - exists v. split; [apply rs_same|done].
  - rewrite Forall_forall in IH, Hrf. eapply sound_record; eauto.
  - inversion Hv as [| | | | | | | | |? ? ? s Hin| | | |]; subst.
    destruct (decide (s ∈ rs)) as [Hi|Hn]; [exists (VEnum s); split; [by apply rs_enum|by constructor]|].
    destruct Hs as [Hne|Hs]; [|by destruct Hn; apply Hs]. exists (VEnum rd).
    split; [by apply rs_enum_default|constructor; auto].
  - inversion Hv; subst. eexists. split; [apply rs_fixed|by constructor].
  - inversion Hv as [| | | | | | | | | | |? vs Hvs| |]; subst. inversion Hw; subst.
    rewrite Forall_forall in Hvs. destruct (Forall2_exists_both (resolves ritems w0) (has_type ritems) vs)
      as (vs' & Hres & Hall); [intros x Hx; apply (IH ltac:(done) w0); auto|].
    exists (VArray vs'). split; by constructor.
  - inversion Hv as [| | | | | | | | | | | |? vs Hvs|]; subst. inversion Hw; subst.
    rewrite Forall_forall in Hvs.
    destruct (Forall2_exists_both (fun e e' : string * Value => e.1 = e'.1 /\ resolves rvalues w0 e.2 e'.2)
                (fun e => has_type rvalues e.2) vs) as (vs' & Hres & Hall).
    { intros [k x] Hx. destruct (IH ltac:(done) w0 x) as (x' & Hx' & Ht); [done..|by apply (Hvs (k, x))|].
      by exists (k, x'). }
    exists (VMap vs'). split; by constructor.
Qed.

(** What the Avro checker accepts can be read: if it finds the reader
    schema compatible with the writer's, then every datum of the writer's schema
    resolves, by the rules of the Avro specification, to a datum of the reader's
    type - for schemas without references to named types and writers without
    field aliases, the two things the checker sees otherwise than the
    specification. *)
Theorem compatible_data_readable r w path v :
  readable r -> writable w ->
  IsCompatible (checkSchemas r w path) = true ->
  has_type w v -> exists v', resolves r w v v' /\ has_type r v'.
Proof. intros Hr Hw Hc Hv. apply sound_all; [done..| |done]. by apply (checkSchemas_decides r w path). Qed.

(** Property C24.  Registration under a backward mode keeps old data readable: when
    the orchestrator accepts a new Avro schema, every datum written under one of
    the schemas the mode compares it with - all of them under
    BACKWARD_TRANSITIVE and FULL_TRANSITIVE, the newest one otherwise - resolves
    to a datum of the new schema.  The new schema is [readable]: it has no
    reference to a named type, which the checker does not follow
    ([reference_not_followed]), and its defaults are values of their types; the
    old one is [writable]: no field of it has an alias, which the checker reads
    as the reader's ([writer_alias_accepted]), and no union is a member of one. *)
Theorem backward_mode_readable avro c mode new existing old r w v :
  c !! "AVRO" = Some (AvroCheck avro) ->
  RequiresBackward mode = true ->
  IsCompatible (Check c mode "AVRO" new existing) = true ->
  (if IsTransitive mode then old ∈ existing else last existing = Some old) ->
  parseSchema avro new = Ok r -> parseSchema avro old = Ok w ->
  readable r -> writable w -> has_type w v ->
  exists v', resolves r w v v' /\ has_type r v'.
Proof.
  intros Hc Hmode Hok Hin%selectSchemas_spec Er Ew Hr Hw Hv. apply sound_all; [done..| |done].
  apply (checkSchemas_decides r w "").
  assert (Hne : mode <> ModeNone) by (intros ->; by vm_compute in Hmode).
  assert (Hpair := Check_pairs _ _ _ _ _ _ Hok Hc Hne old Hin).
  unfold pair_ok in Hpair. rewrite Hmode in Hpair. simpl in Hpair.
  apply andb_true_iff in Hpair as [Hpair _]. apply negb_true_iff in Hpair.
  unfold AvroCheck in Hpair. rewrite Er, Ew in Hpair.
  destruct (checkSchemas_speaks r w "") as [Hs1 Hs2].
  unfold reports in Hpair. destruct (IsCompatible (checkSchemas r w "")); [done|]. simpl in Hpair.
  apply negb_false_iff, bool_decide_eq_true in Hpair. auto.
Qed.
End data.

(** ** Orders, before and after *)

(** The order of last year: the total as a float, no status, a narrower key. *)
Definition old_order : AvroSchema :=
  SRecord "Order" [] [
    MkField "key" [] false (SPrimitive PInt);
    MkField "total" [] false (SPrimitive PFloat);
    MkField "state" [] false (SEnum "State" ["NEW"; "LOST"] "")].

Definition new_order : AvroSchema :=
  SRecord "Order" [] [
    MkField "id" ["key"] false (SPrimitive PLong);
    MkField "note" [] true (SPrimitive PString);
    MkField "total" [] false (SUnion [SPrimitive PNull; SPrimitive PDouble]);
    MkField "state" [] false (SEnum "State" ["NEW"; "UNKNOWN"] "UNKNOWN")].

Definition note_default (f : Field AvroSchema) : @Value Z Z := VString (FieldName f).
Definition old_datum : @Value Z Z := VRecord [VInt 7; VFloat 5%Z; VEnum "LOST"].

Lemma new_order_readable : readable note_default new_order.
Proof.
  apply rd_record; repeat constructor; simpl; try done; intros; try done;
    try (apply (bool_decide_unpack _); vm_compute; done).
Qed.

Lemma old_order_writable : writable old_order.
Proof. by apply wr_record; repeat constructor. Qed.

Lemma old_datum_typed : has_type old_order old_datum.
Proof.
  apply ht_record. repeat constructor; try done; try lia.
Qed.

Lemma compatible_data_readable_witness :
  exists v', resolves id id id note_default new_order old_order old_datum v' /\ has_type new_order v'.
Proof.
  apply (compatible_data_readable id id id note_default new_order old_order "").
  - exact new_order_readable.
  - exact old_order_writable.
  - vm_compute. reflexivity.
  - exact old_datum_typed.
Defined.

(** A parser for the two texts. *)
Definition order_lib : AvroLib :=
  MkAvroLib unit tt (fun text => if decide (text = "old") then Ok old_order else Ok new_order)
    (fun text cache => (Ok new_order, cache)).

Lemma backward_mode_readable_witness :
  exists v', resolves id id id note_default new_order old_order old_datum v' /\ has_type new_order v'.
Proof.
  apply (backward_mode_readable id id id note_default order_lib {["AVRO" := AvroCheck order_lib]} "BACKWARD"
           (MkSchemaWithRefs "new" []) [MkSchemaWithRefs "old" []] (MkSchemaWithRefs "old" [])).
  - apply lookup_singleton_eq.
  - vm_compute. reflexivity.
  - vm_compute. reflexivity.
  - vm_compute. reflexivity.
  - vm_compute. reflexivity.
  - vm_compute. reflexivity.
  - exact new_order_readable.
  - exact old_order_writable.
  - exact old_datum_typed.
Defined.

(** ** What the checker does not see *)

(** A writer's alias stands in for a missing field, although nothing supplies its
    value when the data is read. *)
Example writer_alias_accepted :
  IsCompatible (checkSchemas
    (SRecord "Order" [] [MkField "key" [] false (SPrimitive PInt)])
    (SRecord "Order" [] [MkField "id" ["key"] false (SPrimitive PInt)]) "") = true /\
  ~ exists g, g ∈ [MkField "id" ["key"] false (SPrimitive PInt)] /\
      supplies [MkField "id" ["key"] false (SPrimitive PInt)]
        (MkField "key" [] false (SPrimitive PInt)) g.
Proof.
  split; [vm_compute; reflexivity|]. intros (g & ->%list_elem_of_singleton & [E|[_ Hin]]); [done|].
  by apply elem_of_nil in Hin.
Qed.

(** The second use of a named type is a reference, and two references agree
    whatever they refer to: the change of [Money] is not seen where it is used
    again, under a field whose first use the reader dropped. *)
Example reference_not_followed :
  IsCompatible (checkSchemas
    (SRecord "Order" [] [MkField "b" [] false (SRef "Money")])
    (SRecord "Order" [] [MkField "b" [] false (SRef "Text")]) "") = true.
Proof. vm_compute. reflexivity. Qed.

(** A definition against a reference is a mismatch of types, though the
    reference may be to that very definition. *)
Example reference_mismatch :
  IsCompatible (checkSchemas
    (SRecord "Order" [] [MkField "b" [] false (SFixed "Id" 16)])
    (SRecord "Order" [] [MkField "a" [] false (SFixed "Id" 16); MkField "b" [] false (SRef "Id")]) "") = false.
Proof. vm_compute. reflexivity. Qed.
