(* ===== verification/McpPolicy.v ===== *)
(** * Who may use which tool of the MCP server (internal/mcp)

    The scopes of permissions.go, [isToolAllowed] of tools.go, and the checks of
    middleware.go on the bearer token and the origin of a request. *)
From S2P Require Import Prelude GoStrings.
From Stdlib Require Import Ascii String.

Local Open Scope string_scope.

(** ** Configuration (internal/config/config.go) *)

(** The fields this package reads; hosts, ports and timeouts are left out. *)
Record MCPConfig := MkMCPConfig {
  AuthToken : string;
  ReadOnly : bool;
  ToolPolicy : string;
  AllowedTools : list string;
  DeniedTools : list string;
  AllowedOrigins : list string;
  RequireConfirmations : bool;
  ConfirmationTTLSecs : Z;
  PermissionPreset : string;
  PermissionScopes : list string
}.

(** ** Scopes *)

Definition ScopeSchemaRead := "schema_read".
Definition ScopeSchemaWrite := "schema_write".
Definition ScopeSchemaDelete := "schema_delete".
Definition ScopeConfigRead := "config_read".
Definition ScopeConfigWrite := "config_write".
Definition ScopeModeRead := "mode_read".
Definition ScopeModeWrite := "mode_write".
Definition ScopeImport := "import".
Definition ScopeEncryptionRead := "encryption_read".
Definition ScopeEncryptionWrite := "encryption_write".
Definition ScopeExporterRead := "exporter_read".
Definition ScopeExporterWrite := "exporter_write".
Definition ScopeAdminRead := "admin_read".
Definition ScopeAdminWrite := "admin_write".

Definition allScopes : list string :=
  [ScopeSchemaRead; ScopeSchemaWrite; ScopeSchemaDelete; ScopeConfigRead; ScopeConfigWrite; ScopeModeRead; ScopeModeWrite;
   ScopeImport; ScopeEncryptionRead; ScopeEncryptionWrite; ScopeExporterRead; ScopeExporterWrite; ScopeAdminRead;
   ScopeAdminWrite].

Definition readonlyScopes : list string :=
  [ScopeSchemaRead; ScopeConfigRead; ScopeModeRead; ScopeEncryptionRead; ScopeExporterRead].
Definition developerScopes : list string := (readonlyScopes ++ [ScopeSchemaWrite; ScopeConfigWrite])%list.
Definition operatorScopes : list string :=
  (developerScopes ++ [ScopeSchemaDelete; ScopeModeWrite; ScopeEncryptionWrite; ScopeExporterWrite; ScopeImport])%list.
Definition adminScopes : list string := (operatorScopes ++ [ScopeAdminRead; ScopeAdminWrite])%list.

(** [None] for a preset is the full one. *)
Definition permissionPresets : gmap string (option (list string)) :=
  {[ "readonly" := Some readonlyScopes; "developer" := Some developerScopes; "operator" := Some operatorScopes;
     "admin" := Some adminScopes; "full" := None ]}.

(** The tools of each scope; the empty one is of the tools that are always allowed. *)
Definition toolsOfScope : list (string * list string) :=
  [("", ["health_check"; "get_server_info"; "get_server_version"; "get_cluster_id"; "get_schema_types"; "list_contexts";
         "count_subjects"; "get_registry_statistics"; "get_metrics_summary"; "get_metrics_by_category"; "query_metric";
         "list_metrics"]);
   (ScopeSchemaRead,
    ["get_schema_by_id"; "get_raw_schema_by_id"; "get_schema_version"; "get_raw_schema_version"; "get_latest_schema";
     "list_versions"; "get_subjects_for_schema"; "get_versions_for_schema"; "get_referenced_by"; "lookup_schema";
     "list_schemas"; "get_max_schema_id"; "list_subjects"; "get_schemas_by_subject"; "get_schema_history";
     "get_dependency_graph"; "export_schema"; "export_subject"; "count_versions"; "search_schemas"; "match_subjects";
     "format_schema"; "resolve_alias"; "get_subject_metadata"; "validate_schema"; "normalize_schema";
     "validate_subject_name"; "check_compatibility"; "find_schemas_by_field"; "find_schemas_by_type";
     "find_similar_schemas"; "score_schema_quality"; "check_field_consistency"; "get_schema_complexity";
     "detect_schema_patterns"; "suggest_schema_evolution"; "plan_migration_path"; "check_compatibility_multi";
     "diff_schemas"; "compare_subjects"; "suggest_compatible_change"; "explain_compatibility_failure"]);
   (ScopeSchemaWrite, ["register_schema"]);
   (ScopeSchemaDelete, ["delete_subject"; "delete_version"]);
   (ScopeConfigRead, ["get_config"; "get_config_full"; "get_subject_config_full"; "get_global_config_direct"]);
   (ScopeConfigWrite, ["set_config"; "set_config_full"; "delete_config"]);
   (ScopeModeRead, ["get_mode"; "check_write_mode"]);
   (ScopeModeWrite, ["set_mode"; "delete_mode"]);
   (ScopeImport, ["import_schemas"]);
   (ScopeEncryptionRead, ["get_kek"; "list_keks"; "get_dek"; "list_deks"; "list_dek_versions"]);
   (ScopeEncryptionWrite,
    ["create_kek"; "update_kek"; "delete_kek"; "undelete_kek"; "test_kek"; "create_dek"; "delete_dek"; "undelete_dek";
     "rewrap_dek"]);
   (ScopeExporterRead, ["list_exporters"; "get_exporter"; "get_exporter_status"; "get_exporter_config"]);
   (ScopeExporterWrite,
    ["create_exporter"; "update_exporter"; "delete_exporter"; "pause_exporter"; "resume_exporter"; "reset_exporter";
     "update_exporter_config"]);
   (ScopeAdminRead, ["list_users"; "get_user"; "get_user_by_username"; "list_apikeys"; "get_apikey"; "list_roles"]);
   (ScopeAdminWrite,
    ["create_user"; "update_user"; "delete_user"; "change_password"; "create_apikey"; "update_apikey"; "delete_apikey";
     "revoke_apikey"; "rotate_apikey"])].

Definition toolPermissionScope : gmap string string :=
  list_to_map (List.concat (map (fun '(scope, tools) => map (fun tool => (tool, scope)) tools) toolsOfScope)).

Definition scopeSet (scopes : list string) : gset string := list_to_set scopes.

(** [None] is the nil map: scopes are not configured. *)
Definition resolvePermissionScopes (preset : string) (scopes : list string) (readOnly : bool) : option (gset string) :=
  let fallback :=
    if negb (bool_decide (scopes = [])) then Some (scopeSet scopes)
    else if readOnly then Some (scopeSet readonlyScopes)
    else None in
  if decide (preset = "") then fallback
  else match permissionPresets !! preset with
       | Some None => Some (scopeSet allScopes)
       | Some (Some presetScopes) => Some (scopeSet presetScopes)
       | None => fallback
       end.

Definition isScopeAllowed (toolName : string) (resolvedScopes : option (gset string)) : bool :=
  match toolPermissionScope !! toolName, resolvedScopes with
  | None, _ => true
  | Some scope, resolved =>
      if decide (scope = "") then true
      else match resolved with None => true | Some scopes => bool_decide (scope ∈ scopes) end
  end.

(** ** The tool policy *)

(** [resolvedScopes] is computed when the server is made. *)
Definition resolvedScopes (cfg : MCPConfig) : option (gset string) :=
  resolvePermissionScopes (PermissionPreset cfg) (PermissionScopes cfg) (ReadOnly cfg).

(** Whether a tool is registered, [readOnly] its annotation. *)
Definition isToolAllowed (cfg : MCPConfig) (name : string) (readOnly : bool) : bool :=
  match resolvedScopes cfg with
  | Some scopes => isScopeAllowed name (Some scopes)
  | None =>
      if ReadOnly cfg && negb readOnly then false
      else
        let policy := if decide (ToolPolicy cfg = "") then "allow_all" else ToolPolicy cfg in
        if decide (policy = "deny_list") then bool_decide (name ∉ DeniedTools cfg)
        else if decide (policy = "allow_list") then bool_decide (name ∈ AllowedTools cfg)
        else true
  end.

(** ** Requests *)

Inductive verdict := Pass | Unauthorized | Forbidden.

(** [authMiddleware], for the Authorization header of a request. *)
Definition authMiddleware (cfg : MCPConfig) (authorization : string) : verdict :=
  if decide (AuthToken cfg = "") then Pass
  else
    let token := if HasPrefix authorization "Bearer " then drop_str 7 authorization else authorization in
    if bool_decide (token = "") || bool_decide (token = authorization) then Unauthorized
    else if decide (token = AuthToken cfg) then Pass else Unauthorized.

(** "scheme://authority" in two, at the first "://". *)
Definition splitOrigin (origin : string) : string * string :=
  match String.index 0 "://" origin with
  | Some idx => (take_str idx origin, drop_str (idx + 3) origin)
  | None => ("", origin)
  end.

(** [strings.LastIndex(s, c)]. *)
Fixpoint last_index_byte (c : ascii) (s : string) : option nat :=
  match s with
  | EmptyString => None
  | String d s =>
      match last_index_byte c s with
      | Some i => Some (S i)
      | None => if Ascii.eqb d c then Some 0%nat else None
      end
  end.

Definition splitHostPort (authority : string) : string * string :=
  match last_index_byte ":" authority with
  | Some idx => (take_str idx authority, drop_str (idx + 1) authority)
  | None => (authority, "")
  end.

(** Segment by segment; a [*] stands for one segment. *)
Definition matchHostPattern (pattern host : string) : bool :=
  let pParts := Split pattern "." in
  let oParts := Split host "." in
  if negb (Nat.eqb (List.length pParts) (List.length oParts)) then false
  else forallb (fun '(pp, op) => bool_decide (pp = "*") || bool_decide (pp = op)) (zip pParts oParts).

Definition originMatchesPattern (pattern origin : string) : bool :=
  let p := ToLower pattern in
  let o := ToLower origin in
  if negb (contains_byte "*" p) then bool_decide (p = o)
  else if decide (p = "*") then true
  else
    let '(pScheme, pAuthority) := splitOrigin p in
    let '(oScheme, oAuthority) := splitOrigin o in
    if negb (bool_decide (pScheme = oScheme)) then false
    else
      let '(pHost, pPort) := splitHostPort pAuthority in
      let '(oHost, oPort) := splitHostPort oAuthority in
      if (if decide (pPort = "*") then bool_decide (oPort = "") else negb (bool_decide (pPort = oPort))) then false
      else matchHostPattern pHost oHost.

Definition isOriginAllowed (cfg : MCPConfig) (origin : string) : bool :=
  existsb (fun allowed => bool_decide (allowed = "*") || originMatchesPattern allowed origin) (AllowedOrigins cfg).

(** [originMiddleware], for the Origin header of a request. *)
Definition originMiddleware (cfg : MCPConfig) (origin : string) : verdict :=
  if bool_decide (origin = "") || bool_decide (AllowedOrigins cfg = []) then Pass
  else if isOriginAllowed cfg origin then Pass else Forbidden.

(** The handler of /mcp: the origin is checked first. *)
Definition Start (cfg : MCPConfig) (origin authorization : string) : verdict :=
  match originMiddleware cfg origin with
  | Pass => authMiddleware cfg authorization
  | refused => refused
  end.

(** ** What is allowed *)

(** The presets but the full one, each with more scopes than the one before. *)
Lemma presets_grow :
  scopeSet readonlyScopes ⊆ scopeSet developerScopes /\ scopeSet developerScopes ⊆ scopeSet operatorScopes /\
  scopeSet operatorScopes ⊆ scopeSet adminScopes /\ scopeSet adminScopes = scopeSet allScopes.
Proof. split_and!; refine (proj1 (bool_decide_eq_true _) _); vm_compute; reflexivity. Qed.

(** The tools that change what the server stores. *)
Definition writing_tools : list string :=
  List.concat (map snd (List.filter (fun '(scope, _) =>
    bool_decide (scope ∈ [ScopeSchemaWrite; ScopeSchemaDelete; ScopeConfigWrite; ScopeModeWrite; ScopeImport;
                          ScopeEncryptionWrite; ScopeExporterWrite; ScopeAdminWrite])) toolsOfScope)).

(** A read-only server without a preset or scopes of its own offers none of them. *)
Theorem read_only_offers_no_writes cfg tool readOnly :
  ReadOnly cfg = true -> PermissionPreset cfg = "" -> PermissionScopes cfg = [] -> tool ∈ writing_tools ->
  isToolAllowed cfg tool readOnly = false.
Proof.
  intros Hr Hp Hs Ht. unfold isToolAllowed, resolvedScopes, resolvePermissionScopes. rewrite Hr, Hp, Hs. simpl.
  revert tool Ht. apply Forall_forall. refine (proj1 (bool_decide_eq_true _) _). vm_compute. reflexivity.
Qed.

(** A preset overrides the switch: a read-only server with the developer preset
    registers schemas. *)
Example preset_overrides_read_only :
  let cfg := MkMCPConfig "" true "" [] [] [] false 0 "developer" [] in
  isToolAllowed cfg "register_schema" false = true /\ "register_schema" ∈ writing_tools.
Proof. split; [vm_compute; reflexivity|]. refine (proj1 (bool_decide_eq_true _) _). vm_compute. reflexivity. Qed.

(** The port may be any, the host of a pattern cannot be extended. *)
Example origins :
  originMatchesPattern "http://localhost:*" "http://LOCALHOST:3000" = true /\
  originMatchesPattern "https://*.example.com" "https://evil.example.com.attacker.com" = false /\
  originMatchesPattern "https://*.example.com" "https://a.b.example.com" = false.
Proof. vm_compute. auto. Qed.

(** A [*] alone is one segment, so this pattern does not match every origin of
    its scheme. *)
Example bare_host_pattern :
  originMatchesPattern "vscode-webview://*" "vscode-webview://panel" = true /\
  originMatchesPattern "vscode-webview://*" "vscode-webview://panel.vscode-resource" = false.
Proof. vm_compute. auto. Qed.
