(* ===== verification/McpTools.v ===== *)
(** * Destructive tools and their confirmation (internal/mcp/confirmation.go, tools_*.go)

    The store of confirmation tokens, the tools that need one, and their
    handlers in tools_write.go, tools_config.go, tools_context.go, tools_dek.go
    and tools_exporter.go.  Every operation on the store holds its mutex, so a
    handler is one step on it followed by a call of the registry.  SHA-256 is a
    parameter, the clock and the random token of a call are its arguments;
    metrics and audit are left out, and what [json.Marshal] answers for strings,
    booleans and integers is never an error. *)
From S2P Require Import Prelude Http McpPolicy GoStrings GoJson StorageTypes StorageIface RegistryRefs RegistryMeta RegistryConfig RegistrySchemas RegistryOps.
From S2P Require RegContext.
From Stdlib Require Import Ascii String.

Local Open Scope Z_scope.
Local Open Scope string_scope.

(** ** Arguments *)

(** The values of a [map[string]any] the handlers build. *)
Inductive arg :=
  | ArgString (s : string)
  | ArgBool (b : bool)
  | ArgInt (n : Z).

#[export] Instance arg_eq_dec : EqDecision arg.
Proof. solve_decision. Defined.

Abbreviation args_map := (gmap string arg).

Definition Marshal_arg (a : arg) : string :=
  match a with
  | ArgString s => Marshal_string s
  | ArgBool b => if b then "true" else "false"
  | ArgInt n => Itoa n
  end.

(** An object of members already written. *)
Definition Marshal_members (members : list (string * string)) : string :=
  "{" ++ Join (map (fun '(key, text) => Marshal_string key ++ ":" ++ text) members) "," ++ "}".

Definition Marshal_args (args : args_map) : string :=
  Marshal_members (map (fun '(key, a) => (key, Marshal_arg a)) (sorted_entries args)).

(** [boolArg] and [stringArg]. *)
Definition boolArg (args : args_map) (key : string) : bool :=
  match args !! key with
  | Some (ArgBool b) => b
  | Some (ArgString s) => EqualFold s "true"
  | _ => false
  end.

Definition stringArg (args : args_map) (key : string) : string :=
  match args !! key with Some (ArgString s) => s | _ => "" end.

(** The arguments a token is bound to. *)
Definition cleaned (args : args_map) : args_map := delete "dry_run" (delete "confirm_token" args).

(** The tools that need a confirmation, with the arguments that make them. *)
Definition confirmableTools : gmap string (args_map -> bool) :=
  {[ "delete_subject" := fun a => boolArg a "permanent";
     "delete_version" := fun a => boolArg a "permanent";
     "import_schemas" := fun _ => true;
     "set_mode" := fun a => EqualFold (stringArg a "mode") "IMPORT";
     "delete_config" := fun a => bool_decide (stringArg a "subject" = "");
     "delete_kek" := fun a => boolArg a "permanent";
     "delete_dek" := fun a => boolArg a "permanent";
     "delete_exporter" := fun _ => true ]}.

(** ** Tokens *)

Record confirmationEntry := MkConfirmationEntry {
  toolName : string;
  argsHash : string;
  preview : args_map;
  expiresAt : Z;     (* nanoseconds *)
  used : bool
}.

Record ConfirmationStore := MkConfirmationStore {
  tokens : gmap string confirmationEntry;
  ttl : Z
}.

Definition NewConfirmationStore (ttl : Z) : ConfirmationStore := MkConfirmationStore ∅ ttl.

Section tokens.
Context (Sum256_hex : string -> string).

Definition computeArgsHash (toolName : string) (args : args_map) : string :=
  Sum256_hex (toolName ++ ":" ++ Marshal_args (cleaned args)).

Definition Generate (now : Z) (uuid toolName : string) (args preview : args_map) (cs : ConfirmationStore) : ConfirmationStore :=
  let entry := MkConfirmationEntry toolName (computeArgsHash toolName args) preview (now + ttl cs) false in
  {| cs with tokens := <[uuid := entry]> (tokens cs) |}.

(** [None] for a valid token, which is marked as used. *)
Definition Validate (now : Z) (tokenID tool : string) (args : args_map) (cs : ConfirmationStore)
    : option error * ConfirmationStore :=
  match tokens cs !! tokenID with
  | None => (Some (errors_New "invalid or expired confirmation token"), cs)
  | Some entry =>
      if (expiresAt entry <? now)%Z then
        (Some (errors_New "confirmation token has expired"), {| cs with tokens := delete tokenID (tokens cs) |})
      else if used entry then (Some (errors_New "confirmation token has already been used"), cs)
      else if negb (bool_decide (toolName entry = tool)) then
        (Some (errors_New ("confirmation token was issued for tool " ++ quote (toolName entry) ++ ", not " ++ quote tool)), cs)
      else if negb (bool_decide (argsHash entry = computeArgsHash tool args)) then
        (Some (errors_New "confirmation token does not match the provided arguments"), cs)
      else (None, {| cs with tokens := <[tokenID := {| entry with used := true |}]> (tokens cs) |})
  end.

(** The collection of expired and used tokens. *)
Definition gc (now : Z) (cs : ConfirmationStore) : ConfirmationStore :=
  {| cs with tokens := filter (fun '(_, entry) => ((expiresAt entry <? now)%Z || used entry) = false) (tokens cs) |}.

(** ** Results of tools *)

(** What the tools below answer with, as JSON. *)
Inductive ToolValue :=
  | Versions (versions : list Z)
  | VersionDeleted (version : Z)
  | CompatibilityLevelSet (level : string)
  | ModeSet (mode : string)
  | Imported (result : ImportResult)
  | Deleted
  | Registered (record : SchemaRecord).

Inductive Content :=
  | TextContent (text : string)
  | JSONContent (v : ToolValue).

Record CallToolResult := MkCallToolResult {
  content : Content;
  IsError : bool
}.

Definition errorResult (err : error) : CallToolResult := MkCallToolResult (TextContent ("error: " ++ err_text err)) true.
Definition jsonResult (v : ToolValue) : CallToolResult := MkCallToolResult (JSONContent v) false.

(** ** The check *)

Definition required_message (toolName : string) : string :=
  "This destructive operation requires confirmation. Call " ++ toolName ++ " with dry_run=true first to get a confirmation token.".

Definition proceed_message (toolName : string) : string :=
  "This operation requires confirmation. To proceed, call " ++ toolName
  ++ " again with confirm_token set to the token above and dry_run omitted or false.".

(** [None] when the call proceeds.  [cs] is [None] when confirmations are off. *)
Definition confirmationCheck (now : Z) (uuid toolName : string) (dryRun : bool) (confirmToken : string)
    (args preview : args_map) (confirmStore : option ConfirmationStore) : option CallToolResult * option ConfirmationStore :=
  match confirmStore, confirmableTools !! toolName with
  | None, _ | _, None => (None, confirmStore)
  | Some cs, Some predicate =>
      if negb (predicate args) then (None, confirmStore)
      else if dryRun then
        (Some (MkCallToolResult (TextContent (Marshal_members
                 [("confirm_token", Marshal_string uuid); ("confirmation_required", "true");
                  ("message", Marshal_string (proceed_message toolName)); ("preview", Marshal_args preview)])) false),
         Some (Generate now uuid toolName args preview cs))
      else if decide (confirmToken = "") then
        (Some (MkCallToolResult (TextContent (Marshal_members
                 [("confirmation_required", "true"); ("error", Marshal_string "confirmation_required");
                  ("message", Marshal_string (required_message toolName))])) false),
         confirmStore)
      else
        match Validate now confirmToken toolName args cs with
        | (Some err, cs) =>
            (Some (MkCallToolResult (TextContent ("error: confirmation failed: " ++ err_text err)) true), Some cs)
        | (None, cs) => (None, Some cs)
        end
  end.
End tokens.

(** ** The destructive tools of the MCP server (internal/mcp/tools_*.go)

    The handlers that go through the confirmation check, and the registration of
    schemas.  A handler takes the fields of its input; it is one step on the
    confirmation store followed by a program of the registry.  [TextContent] of
    the answers to a preview is written as the code writes it. *)

Local Open Scope prog_scope.

Definition resolveContext (provided : string) : string :=
  if decide (provided = "") then RegContext.DefaultContext else provided.

(** One item of an import. *)
Record importSchemaItem := MkImportSchemaItem {
  ItemID : Z;
  ItemSubject : string;
  ItemVersion : Z;
  ItemSchemaType : string;
  ItemSchema : string;
  ItemReferences : list Reference
}.

(** The inputs of the tools that may need a confirmation. *)
Inductive tool_call :=
  | delete_subject (Subject : string) (Permanent DryRun : bool) (ConfirmToken Context : string)
  | delete_version (Subject : string) (Version : Z) (Permanent DryRun : bool) (ConfirmToken Context : string)
  | import_schemas (Schemas : list importSchemaItem) (DryRun : bool) (ConfirmToken Context : string)
  | set_mode (Subject Mode : string) (Force DryRun : bool) (ConfirmToken Context : string)
  | delete_config (Subject : string) (DryRun : bool) (ConfirmToken Context : string)
  | delete_kek (Name : string) (Permanent DryRun : bool) (ConfirmToken : string)
  | delete_dek (KEKName Subject : string) (Version : Z) (Algorithm : string) (Permanent DryRun : bool) (ConfirmToken : string)
  | delete_exporter (Name : string) (DryRun : bool) (ConfirmToken : string).

Definition by_text (s t : string) : Prop := (s ≤ t)%string.

Section tools.
Context (reg : Registry) (fuel : nat).
Abbreviation Sum256_hex := (sha256_hex reg).

(** [%x] of the first eight bytes. *)
Definition hashImportSchemas (schemas : list importSchemaItem) : string :=
  let parts := merge_sort by_text
    (map (fun s => Itoa (ItemID s) ++ ":" ++ ItemSubject s ++ ":" ++ Itoa (ItemVersion s)) schemas) in
  take_str 16 (Sum256_hex ("[" ++ Join parts " " ++ "]")).

(** The result of a registry call. *)
Definition toolResult {A} (f : A -> ToolValue) (res : result A) : option CallToolResult :=
  Some (match res with Err err => errorResult err | Ok a => jsonResult (f a) end).

(** The rest of a handler, unless the check has answered. *)
Definition guarded (check : option CallToolResult * option ConfirmationStore) (rest : prog (option CallToolResult))
    : prog (option CallToolResult) * option ConfirmationStore :=
  match check with
  | (Some answer, cs) => (ret_fuel answer, cs)
  | (None, cs) => (rest, cs)
  end.

Section handlers.
Context (now : Z) (uuid : string).
Abbreviation check := (confirmationCheck Sum256_hex now uuid).

Definition handleDeleteSubject (Subject : string) (Permanent DryRun : bool) (ConfirmToken Context : string) (cs : option ConfirmationStore) :=
  guarded
    (check "delete_subject" DryRun ConfirmToken
       {[ "subject" := ArgString Subject; "permanent" := ArgBool Permanent ]}
       {[ "action" := ArgString "delete_subject"; "subject" := ArgString Subject; "permanent" := ArgBool Permanent ]} cs)
    (let! versions := DeleteSubject (resolveContext Context) Subject Permanent in
     Ret (toolResult Versions versions)).

Definition handleDeleteVersion (Subject : string) (Version : Z) (Permanent DryRun : bool) (ConfirmToken Context : string) (cs : option ConfirmationStore) :=
  guarded
    (check "delete_version" DryRun ConfirmToken
       {[ "subject" := ArgString Subject; "version" := ArgInt Version; "permanent" := ArgBool Permanent ]}
       {[ "action" := ArgString "delete_version"; "subject" := ArgString Subject; "version" := ArgInt Version;
          "permanent" := ArgBool Permanent ]} cs)
    (let! ver := DeleteVersion (resolveContext Context) Subject Version Permanent in
     Ret (toolResult VersionDeleted ver)).

Definition handleImportSchemas (Schemas : list importSchemaItem) (DryRun : bool) (ConfirmToken Context : string) (cs : option ConfirmationStore) :=
  let schema_count := ArgInt (Z.of_nat (List.length Schemas)) in
  guarded
    (check "import_schemas" DryRun ConfirmToken
       {[ "schema_count" := schema_count; "schemas_hash" := ArgString (hashImportSchemas Schemas) ]}
       {[ "action" := ArgString "import_schemas"; "schema_count" := schema_count ]} cs)
    (let reqs := map (fun item => MkImportSchemaRequest (ItemID item) (ItemSubject item) (ItemVersion item) (ItemSchemaType item)
                                    (ItemSchema item) (ItemReferences item)) Schemas in
     let? imported := ImportSchemas reg fuel (resolveContext Context) reqs in
     Ret (toolResult Imported (match imported with (_, Some err) => Err err | (result, None) => Ok result end))).

Definition handleSetMode (Subject Mode : string) (Force DryRun : bool) (ConfirmToken Context : string) (cs : option ConfirmationStore) :=
  guarded
    (check "set_mode" DryRun ConfirmToken
       {[ "subject" := ArgString Subject; "mode" := ArgString Mode ]}
       {[ "action" := ArgString "set_mode"; "subject" := ArgString Subject; "mode" := ArgString Mode ]} cs)
    (let! res := SetMode (resolveContext Context) Subject Mode Force in
     Ret (toolResult (fun _ => ModeSet Mode) res)).

Definition handleDeleteConfig (Subject : string) (DryRun : bool) (ConfirmToken Context : string) (cs : option ConfirmationStore) :=
  guarded
    (check "delete_config" DryRun ConfirmToken
       {[ "subject" := ArgString Subject ]}
       {[ "action" := ArgString "delete_config"; "subject" := ArgString Subject ]} cs)
    (let! prev := DeleteConfig (defaultConfig reg) (resolveContext Context) Subject in
     Ret (toolResult CompatibilityLevelSet prev)).

Definition handleDeleteKEK (Name : string) (Permanent DryRun : bool) (ConfirmToken : string) (cs : option ConfirmationStore) :=
  guarded
    (check "delete_kek" DryRun ConfirmToken
       {[ "name" := ArgString Name; "permanent" := ArgBool Permanent ]}
       {[ "action" := ArgString "delete_kek"; "name" := ArgString Name; "permanent" := ArgBool Permanent ]} cs)
    (let! res := invoke (CDeleteKEK Name Permanent) in
     Ret (toolResult (fun _ => Deleted) res)).

Definition handleDeleteDEK (KEKName Subject : string) (Version : Z) (Algorithm : string) (Permanent DryRun : bool) (ConfirmToken : string) (cs : option ConfirmationStore) :=
  guarded
    (check "delete_dek" DryRun ConfirmToken
       {[ "kek_name" := ArgString KEKName; "subject" := ArgString Subject; "version" := ArgInt Version;
          "algorithm" := ArgString Algorithm; "permanent" := ArgBool Permanent ]}
       {[ "action" := ArgString "delete_dek"; "kek_name" := ArgString KEKName; "subject" := ArgString Subject;
          "permanent" := ArgBool Permanent ]} cs)
    (let! res := invoke (CDeleteDEK KEKName Subject Version Algorithm Permanent) in
     Ret (toolResult (fun _ => Deleted) res)).

Definition handleDeleteExporter (Name : string) (DryRun : bool) (ConfirmToken : string) (cs : option ConfirmationStore) :=
  guarded
    (check "delete_exporter" DryRun ConfirmToken
       {[ "name" := ArgString Name ]}
       {[ "action" := ArgString "delete_exporter"; "name" := ArgString Name ]} cs)
    (let! res := invoke (CDeleteExporter Name) in
     Ret (toolResult (fun _ => Deleted) res)).

Definition handle_call (call : tool_call) (cs : option ConfirmationStore) : prog (option CallToolResult) * option ConfirmationStore :=
  match call with
  | delete_subject Subject Permanent DryRun ConfirmToken Context => handleDeleteSubject Subject Permanent DryRun ConfirmToken Context cs
  | delete_version Subject Version Permanent DryRun ConfirmToken Context => handleDeleteVersion Subject Version Permanent DryRun ConfirmToken Context cs
  | import_schemas Schemas DryRun ConfirmToken Context => handleImportSchemas Schemas DryRun ConfirmToken Context cs
  | set_mode Subject Mode Force DryRun ConfirmToken Context => handleSetMode Subject Mode Force DryRun ConfirmToken Context cs
  | delete_config Subject DryRun ConfirmToken Context => handleDeleteConfig Subject DryRun ConfirmToken Context cs
  | delete_kek Name Permanent DryRun ConfirmToken => handleDeleteKEK Name Permanent DryRun ConfirmToken cs
  | delete_dek KEKName Subject Version Algorithm Permanent DryRun ConfirmToken => handleDeleteDEK KEKName Subject Version Algorithm Permanent DryRun ConfirmToken cs
  | delete_exporter Name DryRun ConfirmToken => handleDeleteExporter Name DryRun ConfirmToken cs
  end.
End handlers.

(** ** A tool without confirmation *)

Definition handleRegisterSchema (Subject Schema SchemaType : string) (References : list Reference) (Normalize : bool)
    (Metadata_ : option Metadata) (RuleSet_ : option RuleSet) (Context : string) : prog (option CallToolResult) :=
  let? record := RegisterSchema reg fuel (resolveContext Context) Subject Schema SchemaType References
                   (Some (MkRegisterOpts Normalize Metadata_ RuleSet_)) in
  Ret (toolResult Registered record).
End tools.
