(* ===== verification/McpFacts.v ===== *)
(** * A destructive tool runs once for each dry run of it

    The text a token is bound to determines the arguments; a run of the server is
    a sequence of calls and collections of tokens; a call that needs a
    confirmation only runs on a token of an earlier dry run of the same tool with
    the same arguments, no longer ago than the time to live, that no call has run
    on before; and such a call is not refused. *)
From S2P Require Import Prelude GoStrings GoFloat GoJson GoJsonFacts JsonText StorageTypes MemState MemStore StorageIface RegistryRefs RegistryMeta RegistryConfig RegistrySchemas RegistryOps RegistryFacts McpTools.
From Stdlib Require Import Ascii String.

Local Open Scope Z_scope.
Local Open Scope string_scope.

(** ** The text of arguments *)

Lemma Itoa_digits n : 0 <= n -> all_digits (Itoa n) = true /\ value_from 0 (Itoa n) = n.
Proof.
  intros Hn. destruct n as [|p|p]; [done| |lia].
  destruct (Itoa_pos_digits p) as (c & s & _ & _ & _ & Hd & Hv). done.
Qed.

Lemma Itoa_first n : 0 <= n -> exists c s, Itoa n = String c s /\ is_digit c = true.
Proof.
  intros Hn. destruct n as [|p|p]; [by exists "0"%char, ""| |lia].
  destruct (Itoa_pos_digits p) as (c & s & E & Hc & _). eauto.
Qed.

Lemma Itoa_nonneg_app_inj n m r t :
  0 <= n -> 0 <= m -> no_digit r = true -> no_digit t = true -> Itoa n ++ r = Itoa m ++ t -> n = m /\ r = t.
Proof.
  intros Hn Hm Hr Ht E. destruct (Itoa_digits n Hn) as [Hdn Hvn]. destruct (Itoa_digits m Hm) as [Hdm Hvm].
  pose proof (scan_digits_app _ r 0 0 Hdn Hr) as S1. pose proof (scan_digits_app _ t 0 0 Hdm Ht) as S2.
  rewrite E, S2 in S1. injection S1 as Hv _ <-. split; congruence.
Qed.

(** A written number is where the text that is no digit begins. *)
Lemma Itoa_app_inj n m r t : no_digit r = true -> no_digit t = true -> Itoa n ++ r = Itoa m ++ t -> n = m /\ r = t.
Proof.
  assert (Hminus : forall p m r t, 0 <= m -> Itoa (Zneg p) ++ r <> Itoa m ++ t).
  { intros p m' r' t' Hm. destruct (Itoa_first m' Hm) as (c & s & -> & Hc). intros E'.
    change (Itoa (Zneg p)) with ("-" ++ Itoa (Zpos p)) in E'. cbn [String.append] in E'. injection E' as <- _. discriminate Hc. }
  intros Hr Ht E. destruct n as [|p|p], m as [|q|q]; try (by apply Itoa_nonneg_app_inj; try lia);
    try (exfalso; refine (Hminus _ _ _ _ _ E); lia); try (exfalso; refine (Hminus _ _ _ _ _ (eq_sym E)); lia).
  change (Itoa (Zneg p)) with ("-" ++ Itoa (Zpos p)) in E. change (Itoa (Zneg q)) with ("-" ++ Itoa (Zpos q)) in E.
  cbn [String.append] in E. injection E as E. apply Itoa_nonneg_app_inj in E as [[= ->] ->]; [done|lia|lia|done..].
Qed.

Lemma Marshal_string_app_inj s t r u : utf8 s -> utf8 t -> Marshal_string s ++ r = Marshal_string t ++ u -> s = t /\ r = u.
Proof.
  intros Hs Ht E. destruct (scan_Marshal_string s r Hs) as (x & Ex & Sx). destruct (scan_Marshal_string t u Ht) as (y & Ey & Sy).
  rewrite E, Ey in Ex. injection Ex as ->. rewrite Sx in Sy. by injection Sy.
Qed.

(** Strings of a decoded request are valid. *)
Definition decoded_arg (a : arg) : Prop := match a with ArgString s => utf8 s | _ => True end.

Lemma Marshal_arg_app_inj a b r t :
  decoded_arg a -> decoded_arg b -> no_digit r = true -> no_digit t = true ->
  Marshal_arg a ++ r = Marshal_arg b ++ t -> a = b /\ r = t.
Proof.
  assert (Hint : forall n r, exists c s, Itoa n ++ r = String c s /\ (is_digit c || Ascii.eqb c "-") = true).
  { intros n r'. destruct n as [|p|p]; [by exists "0"%char, r'| |].
    - destruct (Itoa_first (Zpos p) ltac:(lia)) as (c & s & -> & Hc). exists c, (s ++ r'). by rewrite Hc.
    - by exists "-"%char, (Itoa (Zpos p) ++ r'). }
  intros Ha Hb Hr Ht E. destruct a as [s|x|n], b as [s'|x'|n']; simpl in *.
  - apply Marshal_string_app_inj in E as [-> ->]; done.
  - by destruct x'.
  - destruct (Hint n' t) as (c & z & Ec & Hc). rewrite Ec in E. injection E as <- _. discriminate Hc.
  - by destruct x.
  - by destruct x, x'; cbn in E; simplify_eq.
  - destruct (Hint n' t) as (c & z & Ec & Hc). rewrite Ec in E. destruct x; injection E as <- _; discriminate Hc.
  - destruct (Hint n r) as (c & z & Ec & Hc). rewrite Ec in E. injection E as -> _. discriminate Hc.
  - destruct (Hint n r) as (c & z & Ec & Hc). rewrite Ec in E. destruct x'; injection E as -> _; discriminate Hc.
  - apply Itoa_app_inj in E as [-> ->]; done.
Qed.

Definition decoded_entry (en : string * arg) : Prop := utf8 en.1 /\ decoded_arg en.2.

Lemma following_no_digit l c close : is_digit c = false -> no_digit (following l (String c close)) = true.
Proof. intros Hc. destruct l; simpl; by rewrite ?Hc. Qed.

Lemma tail_inj c s t : String c s = String c t -> s = t.
Proof. congruence. Qed.

Lemma following_cons t l close : following (t :: l) close = "," ++ t ++ following l close.
Proof. change (following (t :: l) close) with ("," ++ (Join (t :: l) "," ++ close)). by rewrite Join_cons_app. Qed.

Lemma members_inj (l k : list (string * arg)) :
  Forall decoded_entry l -> Forall decoded_entry k ->
  following (map (fun '(key, a) => Marshal_string key ++ ":" ++ Marshal_arg a) l) "}" =
  following (map (fun '(key, a) => Marshal_string key ++ ":" ++ Marshal_arg a) k) "}" -> l = k.
Proof.
  intros Hl. revert k. induction Hl as [|[key a] l [Hkey Ha] Hl IH]; intros k Hk E.
  - by destruct k as [|[key' a'] k].
  - destruct Hk as [|[key' a'] k [Hkey' Ha'] Hk]; [done|]. cbn [map] in E. rewrite !following_cons in E.
    rewrite !append_assoc in E. apply (tail_inj ",") in E.
    apply Marshal_string_app_inj in E as [-> E]; [|done..]. apply (tail_inj ":") in E.
    apply Marshal_arg_app_inj in E as [-> E]; [|done..|by apply following_no_digit|by apply following_no_digit].
    f_equal. by apply IH.
Qed.

Definition decoded (args : args_map) : Prop := forall key a, args !! key = Some a -> decoded_entry (key, a).

(** The text of arguments determines them. *)
Lemma Marshal_args_inj (args args' : args_map) :
  decoded args -> decoded args' -> Marshal_args args = Marshal_args args' -> args = args'.
Proof.
  intros H H' E.
  assert (Hall : forall m : args_map, decoded m -> Forall decoded_entry (sorted_entries m)).
  { intros m Hm. apply Forall_forall. intros [key a] Hin%elem_of_sorted_entries. by apply Hm. }
  assert (Hs : sorted_entries args = sorted_entries args').
  { apply members_inj; [by apply Hall..|]. unfold Marshal_args, Marshal_members in E. rewrite !map_map in E.
    injection E as E. revert E.
    assert (Hfun : forall l : list (string * arg),
      Join (map (fun x => let '(key, text) := let '(key, a) := x in (key, Marshal_arg a) in Marshal_string key ++ ":" ++ text) l) "," ++ "}" =
      match l with [] => "}" | _ => Join (map (fun '(key, a) => Marshal_string key ++ ":" ++ Marshal_arg a) l) "," ++ "}" end).
    { intros [|en l]; [done|]. f_equal. f_equal. apply map_ext. by intros []. }
    rewrite !Hfun. destruct (sorted_entries args) as [|[k1 a1] l1], (sorted_entries args') as [|[k2 a2] l2];
      cbn [map following]; intros E; [done|by rewrite Join_cons_app in E..|by f_equal]. }
  apply map_eq. intros key. apply option_eq. intros a. by rewrite <- !elem_of_sorted_entries, Hs.
Qed.

(** ** Calls *)

Definition call_tool (call : tool_call) : string :=
  match call with
  | delete_subject _ _ _ _ _ => "delete_subject"
  | delete_version _ _ _ _ _ _ => "delete_version"
  | import_schemas _ _ _ _ => "import_schemas"
  | set_mode _ _ _ _ _ _ => "set_mode"
  | delete_config _ _ _ _ => "delete_config"
  | delete_kek _ _ _ _ => "delete_kek"
  | delete_dek _ _ _ _ _ _ _ => "delete_dek"
  | delete_exporter _ _ _ => "delete_exporter"
  end.

Definition is_dry_run (call : tool_call) : bool :=
  match call with
  | delete_subject _ _ dry _ _ | delete_version _ _ _ dry _ _ | import_schemas _ dry _ _ | set_mode _ _ _ dry _ _
  | delete_config _ dry _ _ | delete_kek _ _ dry _ | delete_dek _ _ _ _ _ dry _ | delete_exporter _ dry _ => dry
  end.

Definition call_token (call : tool_call) : string :=
  match call with
  | delete_subject _ _ _ token _ | delete_version _ _ _ _ token _ | import_schemas _ _ token _ | set_mode _ _ _ _ token _
  | delete_config _ _ token _ | delete_kek _ _ _ token | delete_dek _ _ _ _ _ _ token | delete_exporter _ _ token => token
  end.

Section server.
Context (reg : Registry) (fuel : nat).
Abbreviation hash := (computeArgsHash (sha256_hex reg)).

(** What a token of the call is bound to. *)
Definition call_args (call : tool_call) : args_map :=
  match call with
  | delete_subject subject permanent _ _ _ => {[ "subject" := ArgString subject; "permanent" := ArgBool permanent ]}
  | delete_version subject version permanent _ _ _ =>
      {[ "subject" := ArgString subject; "version" := ArgInt version; "permanent" := ArgBool permanent ]}
  | import_schemas schemas _ _ _ =>
      {[ "schema_count" := ArgInt (Z.of_nat (List.length schemas)); "schemas_hash" := ArgString (hashImportSchemas reg schemas) ]}
  | set_mode subject mode _ _ _ _ => {[ "subject" := ArgString subject; "mode" := ArgString mode ]}
  | delete_config subject _ _ _ => {[ "subject" := ArgString subject ]}
  | delete_kek name permanent _ _ => {[ "name" := ArgString name; "permanent" := ArgBool permanent ]}
  | delete_dek kekName subject version algorithm permanent _ _ =>
      {[ "kek_name" := ArgString kekName; "subject" := ArgString subject; "version" := ArgInt version;
         "algorithm" := ArgString algorithm; "permanent" := ArgBool permanent ]}
  | delete_exporter name _ _ => {[ "name" := ArgString name ]}
  end.

(** Every handler asks for the confirmation of its tool and arguments first. *)
Lemma handle_call_guarded call : exists preview rest, forall now uuid cs,
  handle_call reg fuel now uuid call cs =
  guarded (confirmationCheck (sha256_hex reg) now uuid (call_tool call) (is_dry_run call) (call_token call) (call_args call) preview cs) rest.
Proof. destruct call; eexists _, _; intros; reflexivity. Qed.

Lemma cleaned_call call : cleaned (call_args call) = call_args call.
Proof. destruct call; unfold cleaned, call_args; by rewrite !delete_id. Qed.

(** The calls that need a confirmation. *)
Definition destructive (call : tool_call) : bool :=
  match call with
  | delete_subject _ permanent _ _ _ | delete_version _ _ permanent _ _ _ | delete_kek _ permanent _ _
  | delete_dek _ _ _ _ permanent _ _ => permanent
  | import_schemas _ _ _ _ | delete_exporter _ _ _ => true
  | set_mode _ mode _ _ _ _ => Http.EqualFold mode "IMPORT"
  | delete_config subject _ _ _ => bool_decide (subject = "")
  end.

Lemma confirmable_destructive call :
  (confirmableTools !! call_tool call ≫= fun p => Some (p (call_args call))) = Some (destructive call).
Proof. destruct call; reflexivity. Qed.

(** ** Runs of the server *)

(** A call at a time, with the token a dry run of it would issue, or a collection. *)
Inductive event :=
  | Call (now : Z) (uuid : string) (call : tool_call)
  | Collect (now : Z).

Definition uuids (es : list event) : list string := omap (fun e => match e with Call _ uuid _ => Some uuid | Collect _ => None end) es.

Definition after_event (e : event) (cs : ConfirmationStore) : ConfirmationStore :=
  match e with
  | Call now uuid call => from_opt cs (snd (handle_call reg fuel now uuid call (Some cs)))
  | Collect now => gc now cs
  end.

(** The token on which a destructive call is let through. *)
Definition runs_on (e : event) (cs : ConfirmationStore) : option string :=
  match e with
  | Call now uuid call =>
      if destructive call && negb (is_dry_run call) && negb (bool_decide (call_token call = ""))
      then match fst (Validate (sha256_hex reg) now (call_token call) (call_tool call) (call_args call) cs) with
           | None => Some (call_token call)
           | Some _ => None
           end
      else None
  | Collect _ => None
  end.

(** The store behind a sequence of events, and the tokens destructive calls ran on. *)
Definition serve (cs : ConfirmationStore) (es : list event) : ConfirmationStore * list string :=
  fold_left (fun '(cs, ran) e => (after_event e cs, (ran ++ option_list (runs_on e cs))%list)) es (cs, []).

Lemma serve_snoc cs es e :
  serve cs (es ++ [e]) = (after_event e (fst (serve cs es)), (snd (serve cs es) ++ option_list (runs_on e (fst (serve cs es))))%list).
Proof. unfold serve. rewrite fold_left_app. simpl. by destruct (fold_left _ es _). Qed.

(** What a call does to the store of tokens. *)
Definition after_call (now : Z) (uuid : string) (call : tool_call) (preview : args_map) (cs : ConfirmationStore) : ConfirmationStore :=
  if negb (destructive call) then cs
  else if is_dry_run call then Generate (sha256_hex reg) now uuid (call_tool call) (call_args call) preview cs
  else if decide (call_token call = "") then cs
  else snd (Validate (sha256_hex reg) now (call_token call) (call_tool call) (call_args call) cs).

Lemma handle_call_store now uuid call cs :
  exists preview, after_event (Call now uuid call) cs = after_call now uuid call preview cs.
Proof.
  destruct (handle_call_guarded call) as (preview & rest & H). exists preview. cbn [after_event]. rewrite H.
  pose proof (confirmable_destructive call) as Hd. unfold confirmationCheck, after_call.
  destruct (confirmableTools !! call_tool call) as [p|]; [|done]. injection Hd as ->.
  destruct (destructive call); [|done]. cbn [negb]. destruct (is_dry_run call); [done|]. case_decide; [done|].
  by destruct (Validate _ _ _ _ _ _) as [[err|] cs'].
Qed.

(** A destructive call that changes the registry runs on a token. *)
Lemma handle_call_runs {St} `{Storage St} now uuid call cs ρ (s : St) :
  destructive call = true -> snd (run (fst (handle_call reg fuel now uuid call (Some cs))) ρ s) <> s ->
  is_dry_run call = false /\ call_token call <> "" /\
  fst (Validate (sha256_hex reg) now (call_token call) (call_tool call) (call_args call) cs) = None.
Proof.
  intros Hd Hs. destruct (handle_call_guarded call) as (preview & rest & Hg). rewrite Hg in Hs. clear Hg.
  pose proof (confirmable_destructive call) as Hp. unfold confirmationCheck in Hs.
  destruct (confirmableTools !! call_tool call) as [p|]; [|done]. injection Hp as Hp. rewrite Hp, Hd in Hs. cbn [negb] in Hs.
  destruct (is_dry_run call); [done|]. case_decide; [done|].
  by destruct (Validate _ _ _ _ _ _) as [[err|] cs'].
Qed.

(** ** Tokens, their dry runs and the calls that ran *)

Context (T : Z).

(** A dry run of a destructive call, as its token remembers it. *)
Definition issued_by (es : list event) (id : string) (entry : confirmationEntry) : Prop :=
  exists t call, Call t id call ∈ es /\ destructive call = true /\ is_dry_run call = true /\
    toolName entry = call_tool call /\ argsHash entry = hash (call_tool call) (call_args call) /\ expiresAt entry = t + T.

Record consistent (es : list event) (cs : ConfirmationStore) (ran : list string) : Prop := {
  consistent_ttl : ttl cs = T;
  consistent_issued : forall id entry, tokens cs !! id = Some entry -> issued_by es id entry;
  consistent_unused : forall id entry, tokens cs !! id = Some entry -> used entry = false -> id ∉ ran;
  consistent_ran : forall id, id ∈ ran -> id ∈ uuids es
}.

Lemma issued_by_app es es' id entry : issued_by es id entry -> issued_by (es ++ es') id entry.
Proof. intros (t & call & Hin & H). exists t, call. split; [|done]. apply elem_of_app. by left. Qed.

Lemma uuids_app es es' : uuids (es ++ es') = (uuids es ++ uuids es')%list.
Proof. apply omap_app. Qed.

(** A step that issues nothing keeps or marks entries. *)
Lemma consistent_narrows es e cs ran cs' ran' :
  consistent es cs ran -> ttl cs' = ttl cs ->
  (forall id entry', tokens cs' !! id = Some entry' -> exists entry, tokens cs !! id = Some entry /\
     toolName entry' = toolName entry /\ argsHash entry' = argsHash entry /\ expiresAt entry' = expiresAt entry /\
     (used entry' = false -> used entry = false /\ id ∉ ran')) ->
  (forall id, id ∈ ran' -> id ∈ ran \/ is_Some (tokens cs !! id)) ->
  consistent (es ++ [e]) cs' ran'.
Proof.
  intros [Httl Hi Hu Hr] Ht Hn Hran. split.
  - congruence.
  - intros id entry' H. destruct (Hn _ _ H) as (entry & He & H1 & H2 & H3 & _).
    apply issued_by_app. unfold issued_by. rewrite H1, H2, H3. by apply Hi.
  - intros id entry' H Hf. destruct (Hn _ _ H) as (entry & He & _ & _ & _ & Hused). by apply Hused.
  - intros id Hid. rewrite uuids_app. apply elem_of_app. left. destruct (Hran _ Hid) as [?|[entry He]]; [auto|].
    destruct (Hi _ _ He) as (t & call & Hin & _). apply list_elem_of_omap. by eexists.
Qed.

(** What [Validate] does. *)
Lemma Validate_spec now id tool args cs :
  match Validate (sha256_hex reg) now id tool args cs with
  | (None, cs') => exists entry, tokens cs !! id = Some entry /\ now <= expiresAt entry /\ used entry = false /\
      toolName entry = tool /\ argsHash entry = hash tool args /\
      cs' = {| cs with tokens := <[id := {| entry with used := true |}]> (tokens cs) |}
  | (Some _, cs') => cs' = cs \/ exists entry, tokens cs !! id = Some entry /\ expiresAt entry < now /\
      cs' = {| cs with tokens := delete id (tokens cs) |}
  end.
Proof.
  unfold Validate. destruct (tokens cs !! id) as [entry|]; [|by left].
  destruct (Z.ltb_spec (expiresAt entry) now); [right; eauto|]. destruct (used entry) eqn:Eu; [by left|].
  case_bool_decide; [|by left]. case_bool_decide; [|by left]. cbn [negb]. exists entry. split_and!; done || lia.
Qed.

Lemma consistent_step es e cs ran :
  (forall t uuid call, e = Call t uuid call -> uuid ∉ uuids es) -> consistent es cs ran ->
  consistent (es ++ [e]) (after_event e cs) (ran ++ option_list (runs_on e cs))%list.
Proof.
  intros Hfresh Hc. destruct e as [now uuid call|now].
  - destruct (handle_call_store now uuid call cs) as [preview ->]. unfold after_call. cbn [runs_on].
    specialize (Hfresh _ _ _ eq_refl).
    assert (Hsame : consistent (es ++ [Call now uuid call]) cs (ran ++ [])).
    { rewrite app_nil_r. apply (consistent_narrows _ _ cs ran); [done..| |auto].
      intros id entry H. exists entry. split_and!; try done. intros Hf. split; [done|]. by eapply consistent_unused. }
    destruct (destructive call) eqn:Ed; [|exact Hsame]. cbn [negb andb]. destruct (is_dry_run call) eqn:Edry.
    { cbn [negb andb option_list]. rewrite app_nil_r. destruct Hc as [Httl Hi Hu Hr].
      split; cbn [Generate tokens ttl]; [done|..].
      - intros id entry. rewrite lookup_insert_Some. intros [[<- <-]|[_ H]]; [|by apply issued_by_app, Hi].
        exists now, call. cbn. split_and!; try done; [|by rewrite Httl]. apply elem_of_app. right. by left.
      - intros id entry. rewrite lookup_insert_Some. intros [[<- _]|[_ H]]; [|by apply Hu]. intros _ Hin. by apply Hfresh, Hr.
      - intros id Hid. rewrite uuids_app. apply elem_of_app. left. by apply Hr. }
    cbn [negb andb]. case_bool_decide as Et; [rewrite decide_True by done; exact Hsame|]. rewrite decide_False by done. cbn [negb].
    pose proof (Validate_spec now (call_token call) (call_tool call) (call_args call) cs) as Hv.
    destruct (Validate _ _ _ _ _ _) as [[err|] cs']; cbn [fst snd option_list].
    + rewrite app_nil_r in *. destruct Hv as [->|(entry & _ & _ & ->)]; [exact Hsame|].
      apply (consistent_narrows _ _ cs ran); [done..| |auto]. cbn [tokens]. intros id entry' [_ H]%lookup_delete_Some.
      exists entry'. split_and!; try done. intros Hf. split; [done|]. by eapply consistent_unused.
    + destruct Hv as (entry & He & _ & _ & _ & _ & ->). change (option_list (Some (call_token call))) with [call_token call].
      apply (consistent_narrows _ _ cs ran); [done..| |].
      * cbn [tokens]. intros id entry'. rewrite lookup_insert_Some. intros [[<- <-]|[Hne H]]; [by exists entry|].
        exists entry'. split_and!; try done. intros Hf. split; [done|]. rewrite elem_of_app, list_elem_of_singleton.
        intros [Hin| ->]; [revert Hin; by eapply consistent_unused|done].
      * intros id [Hin| ->%list_elem_of_singleton]%elem_of_app; [by left|right; by eexists].
  - cbn [runs_on option_list after_event]. rewrite app_nil_r. apply (consistent_narrows _ _ cs ran); [done..| |auto].
    unfold gc. cbn [tokens]. intros id entry [H _]%map_lookup_filter_Some. exists entry. split_and!; try done.
    intros Hf. split; [done|]. by eapply consistent_unused.
Qed.

Lemma serve_consistent es :
  NoDup (uuids es) -> consistent es (fst (serve (NewConfirmationStore T) es)) (snd (serve (NewConfirmationStore T) es)).
Proof.
  induction es as [|e es IH] using rev_ind; intros Hnd.
  - split; cbn; [done| | |]; intros id; [by rewrite lookup_empty..|by intros ?%elem_of_nil].
  - rewrite serve_snoc. rewrite uuids_app in Hnd. apply NoDup_app in Hnd as (Hnd & Hd & _). cbn [fst snd].
    apply consistent_step; [|by apply IH]. intros t uuid call -> Hin. apply (Hd uuid Hin). by left.
Qed.

(** What a token of the call is a hash of. *)
Definition bound_text (call : tool_call) : string := call_tool call ++ ":" ++ Marshal_args (call_args call).

Lemma hash_bound_text call : hash (call_tool call) (call_args call) = sha256_hex reg (bound_text call).
Proof. unfold computeArgsHash. by rewrite cleaned_call. Qed.

Lemma bound_text_inj call call' :
  decoded (call_args call) -> decoded (call_args call') -> call_tool call = call_tool call' ->
  bound_text call = bound_text call' -> call_args call = call_args call'.
Proof.
  intros H H' Ht. unfold bound_text. rewrite Ht. intros E. apply Marshal_args_inj; [done..|].
  apply (f_equal (drop_str (String.length (call_tool call' ++ ":")))) in E. rewrite <- !append_assoc, !drop_str_app in E. done.
Qed.

(** ** A dry run is not in vain *)

Definition event_time (e : event) : Z := match e with Call now _ _ | Collect now => now end.

(** The unused token of a dry run stays until a call runs on it or it expires. *)
Lemma token_stays id entry e cs :
  tokens cs !! id = Some entry -> used entry = false -> event_time e <= expiresAt entry ->
  (forall t uuid call, e = Call t uuid call -> uuid <> id) ->
  tokens (after_event e cs) !! id = Some entry \/ runs_on e cs = Some id.
Proof.
  intros He Hu Ht Hne. destruct e as [now uuid call|now]; cbn [event_time] in Ht.
  - destruct (handle_call_store now uuid call cs) as [preview ->]. unfold after_call. cbn [runs_on].
    destruct (destructive call); [|by left]. destruct (is_dry_run call).
    { left. cbn. by rewrite lookup_insert_ne by (by eapply Hne). }
    cbn [negb andb]. case_bool_decide as Htk; [rewrite decide_True by done; by left|]. rewrite decide_False by done. cbn [negb].
    pose proof (Validate_spec now (call_token call) (call_tool call) (call_args call) cs) as Hv.
    destruct (Validate _ _ _ _ _ _) as [[err|] cs']; cbn [fst snd]; destruct (decide (call_token call = id)) as [<-|Hid].
    + left. destruct Hv as [->|(entry' & He' & Hx & ->)]; [done|]. assert (entry' = entry) as -> by congruence. lia.
    + left. destruct Hv as [->|(entry' & He' & Hx & ->)]; [done|]. cbn [tokens]. by rewrite lookup_delete_ne.
    + by right.
    + left. destruct Hv as (entry' & _ & _ & _ & _ & _ & ->). cbn [tokens]. by rewrite lookup_insert_ne.
  - left. unfold after_event, gc. cbn [tokens]. apply map_lookup_filter_Some. split; [done|]. rewrite Hu, orb_false_r. apply Z.ltb_ge. lia.
Qed.

Lemma serve_app cs es es' :
  fst (serve cs (es ++ es')) = fst (serve (fst (serve cs es)) es') /\
  snd (serve cs (es ++ es')) = (snd (serve cs es) ++ snd (serve (fst (serve cs es)) es'))%list.
Proof.
  induction es' as [|e es' [IH1 IH2]] using rev_ind; [by rewrite !app_nil_r|].
  rewrite app_assoc, !serve_snoc. cbn [fst snd]. by rewrite IH1, IH2, app_assoc.
Qed.

Lemma token_pending id entry es cs :
  tokens cs !! id = Some entry -> used entry = false -> Forall (fun e => event_time e <= expiresAt entry) es -> id ∉ uuids es ->
  tokens (fst (serve cs es)) !! id = Some entry \/ id ∈ snd (serve cs es).
Proof.
  intros He Hu. induction es as [|e es IH] using rev_ind; [by left|]. rewrite serve_snoc. cbn [fst snd].
  intros [Hes [Ht _]%Forall_cons]%Forall_app. rewrite uuids_app, not_elem_of_app. intros [Hid Hne].
  destruct (IH Hes Hid) as [Hin|Hin]; [|right; apply elem_of_app; by left].
  destruct (token_stays id entry e _ Hin Hu Ht) as [H|H]; [|by left|].
  - intros t uuid call -> ->. apply Hne. by left.
  - right. rewrite H. apply elem_of_app. right. by left.
Qed.
End server.

(** ** Confirmed calls *)

(** Property C35.  However calls of several clients and the collection of tokens
    follow each other, a destructive call that changes what a backend stores names
    a token that a dry run was answered with, at most the time to live before, and
    on which no call has run: one dry run, one destruction.  The dry run was of
    the same tool with the same [call_args], the arguments the tool hashes: not
    the context, the force of a mode nor the contents of an import
    ([context_not_confirmed], [import_content_not_confirmed]).  The tokens are
    taken to be distinct, and SHA-256 to have no collision between the calls of
    the run. *)
Theorem destructive_calls_confirmed {St} `{Storage St} reg fuel ttl es now uuid call ρ (s : St) :
  NoDup (uuids es) ->
  (forall t id dry, Call t id dry ∈ es -> decoded (call_args reg dry) /\
     (sha256_hex reg (bound_text reg dry) = sha256_hex reg (bound_text reg call) -> bound_text reg dry = bound_text reg call)) ->
  decoded (call_args reg call) -> destructive call = true ->
  let '(cs, ran) := serve reg fuel (NewConfirmationStore ttl) es in
  snd (run (fst (handle_call reg fuel now uuid call (Some cs))) ρ s) <> s ->
  runs_on reg (Call now uuid call) cs = Some (call_token call) /\ (call_token call ∉ ran) /\
  exists t dry, Call t (call_token call) dry ∈ es /\ is_dry_run dry = true /\
    call_tool dry = call_tool call /\ call_args reg dry = call_args reg call /\ now <= t + ttl.
Proof.
  intros Hnd Hes Hdec Hd. pose proof (serve_consistent reg fuel ttl es Hnd) as [_ Hi Hu _].
  destruct (serve _ _ _ es) as [cs ran]. cbn [fst snd] in *. intros Hs.
  apply handle_call_runs in Hs as (Hdry & Htk & Hv); [|done].
  pose proof (Validate_spec reg now (call_token call) (call_tool call) (call_args reg call) cs) as Hspec.
  split; [cbn [runs_on]; by rewrite Hd, Hdry, Hv, bool_decide_false by done|].
  destruct (Validate _ _ _ _ _ _) as [[err|] cs']; [done|]. destruct Hspec as (entry & He & Ht & Hused & Hn & Hh & _).
  split; [by eapply Hu|]. destruct (Hi _ _ He) as (t & dry & Hin & _ & Hdr & Hn' & Hh' & Hexp).
  destruct (Hes _ _ _ Hin) as [Hdec' Hinj]. exists t, dry. assert (call_tool dry = call_tool call) as Htool by congruence.
  split_and!; [done..| |lia]. apply bound_text_inj; [done..|]. apply Hinj. rewrite <- !hash_bound_text. congruence.
Qed.

(** Property C36.  A dry run is not in vain: whatever other calls and collections
    come in between, the call that follows it with its token, before the token
    expires and unless a call has run on it, is carried out as a server without
    confirmations carries it out. *)
Theorem confirmation_goes_through reg fuel ttl es t dry es' now uuid call :
  let all := (es ++ (Call t (call_token call) dry :: es'))%list in
  NoDup (uuids all) -> destructive dry = true -> is_dry_run dry = true ->
  call_tool call = call_tool dry -> call_args reg call = call_args reg dry -> is_dry_run call = false -> call_token call <> "" ->
  Forall (fun e => event_time e <= t + ttl) es' -> now <= t + ttl ->
  let '(cs, ran) := serve reg fuel (NewConfirmationStore ttl) all in
  call_token call ∈ ran \/
  fst (handle_call reg fuel now uuid call (Some cs)) = fst (handle_call reg fuel now uuid call None).
Proof.
  intros all Hnd Hd Hdry Htool Hargs Hcall Htk Hes' Hnow. subst all. set (id := call_token call) in *.
  rewrite cons_middle, app_assoc in *. set (before := (es ++ [Call t id dry])%list) in *.
  rewrite uuids_app in Hnd. apply NoDup_app in Hnd as (Hnd & Hdis & _).
  pose proof (serve_app reg fuel (NewConfirmationStore ttl) before es') as [H1 H2].
  assert (Hid : id ∉ uuids es').
  { apply Hdis. subst before. rewrite uuids_app, elem_of_app. right. by left. }
  assert (He : exists preview, tokens (fst (serve reg fuel (NewConfirmationStore ttl) before)) !! id =
                 Some (MkConfirmationEntry (call_tool dry) (computeArgsHash (sha256_hex reg) (call_tool dry) (call_args reg dry)) preview (t + ttl) false)).
  { subst before. rewrite serve_snoc. cbn [fst]. set (cs := fst (serve _ _ _ es)).
    assert (Httl : McpTools.ttl cs = ttl).
    { rewrite uuids_app in Hnd. apply NoDup_app in Hnd as (Hnd & _). by apply (serve_consistent reg fuel ttl es Hnd). }
    destruct (handle_call_store reg fuel t id dry cs) as [preview ->]. exists preview. unfold after_call. rewrite Hd, Hdry.
    cbn [negb Generate tokens]. by rewrite lookup_insert_eq, Httl. }
  destruct He as [preview He]. destruct (token_pending reg fuel id _ es' _ He eq_refl Hes' Hid) as [Hin|Hin].
  2:{ destruct (serve _ _ _ (before ++ es')) as [cs ran]. cbn [fst snd] in *. left. rewrite H2. apply elem_of_app. by right. }
  rewrite <- H1 in Hin. destruct (serve _ _ _ (before ++ es')) as [cs ran]. cbn [fst snd] in *. right.
  destruct (handle_call_guarded reg fuel call) as (preview' & rest & Hg). rewrite !Hg. unfold confirmationCheck.
  pose proof (confirmable_destructive reg call) as Hp. destruct (confirmableTools !! call_tool call) as [p|]; [|done].
  destruct (p (call_args reg call)); [|done]. cbn [negb]. rewrite Hcall, decide_False by done.
  unfold Validate. fold id. rewrite Hin. cbn [expiresAt used toolName argsHash].
  rewrite (proj2 (Z.ltb_ge _ _)) by lia. by rewrite Htool, Hargs, !bool_decide_true by done.
Qed.

(** ** Witnesses *)

(** A dry run of the deletion of the global configuration, and the deletion. *)
Definition dry_deletion : event := Call 0 "t1" (delete_config "" true "" "").
Definition deletion : tool_call := delete_config "" false "t1" "".
Definition configured_store : Store :=
  snd (run (RegistryConfig.SetConfig "." "" "FULL" None None) (fun _ => env0) NewStore).

Lemma decoded_empty_subject : decoded {[ "subject" := ArgString "" ]}.
Proof.
  intros key a [<- <-]%lookup_singleton_Some. split; [|constructor].
  repeat (apply utf8_ascii; [vm_compute; lia|]). constructor.
Qed.

Lemma destructive_calls_confirmed_witness :
  let '(cs, ran) := serve (plain_registry "BACKWARD") 1 (NewConfirmationStore 300) [dry_deletion] in
  runs_on (plain_registry "BACKWARD") (Call 10 "t2" deletion) cs = Some "t1" /\ ("t1" ∉ ran) /\
  exists t dry, Call t "t1" dry ∈ [dry_deletion] /\ is_dry_run dry = true /\ call_tool dry = "delete_config" /\
    call_args (plain_registry "BACKWARD") dry = {[ "subject" := ArgString "" ]} /\ 10 <= t + 300.
Proof.
  pose proof (destructive_calls_confirmed (plain_registry "BACKWARD") 1 300 [dry_deletion] 10 "t2" deletion (fun _ => env0) configured_store) as W.
  destruct (serve _ _ _ _) as [cs ran] eqn:E. vm_compute in E. injection E as <- <-. apply W.
  - apply NoDup_singleton.
  - intros t id dry [= -> -> ->]%list_elem_of_singleton. split; [exact decoded_empty_subject|done].
  - exact decoded_empty_subject.
  - reflexivity.
  - intros Heq%(f_equal (MemStore.GetGlobalConfig ".")). vm_compute in Heq. discriminate Heq.
Defined.

Lemma confirmation_goes_through_witness :
  let '(cs, ran) := serve (plain_registry "BACKWARD") 1 (NewConfirmationStore 300) [dry_deletion; Collect 100] in
  "t1" ∈ ran \/
  fst (handle_call (plain_registry "BACKWARD") 1 200 "t2" deletion (Some cs)) =
  fst (handle_call (plain_registry "BACKWARD") 1 200 "t2" deletion None).
Proof.
  apply (confirmation_goes_through (plain_registry "BACKWARD") 1 300 [] 0 (delete_config "" true "" "") [Collect 100] 200 "t2" deletion);
    [apply NoDup_singleton|reflexivity..|discriminate| |lia].
  apply Forall_singleton. cbn. lia.
Defined.

(** ** What the tokens do not bind *)

(** The context is no argument of the token: a dry run for the default context
    lets a deletion in another one through. *)
Example context_not_confirmed :
  let reg := plain_registry "BACKWARD" in
  let '(cs, _) := serve reg 1 (NewConfirmationStore 300) [Call 0 "t1" (delete_subject "orders" true true "" "")] in
  runs_on reg (Call 10 "t2" (delete_subject "orders" true false "t1" "production")) cs = Some "t1".
Proof. vm_compute. reflexivity. Qed.

(** Nor is the text of the schemas of an import, only their IDs, subjects and versions. *)
Example import_content_not_confirmed :
  let reg := plain_registry "BACKWARD" in
  let item text := MkImportSchemaItem 1 "orders" 1 "AVRO" text [] in
  let '(cs, _) := serve reg 1 (NewConfirmationStore 300) [Call 0 "t1" (import_schemas [item "A"] true "" "")] in
  runs_on reg (Call 10 "t2" (import_schemas [item "B"] false "t1" "")) cs = Some "t1".
Proof. vm_compute. reflexivity. Qed.

(** A dry run of a call that needs no confirmation is the call itself: the
    deletion of a subject that is not permanent is carried out. *)
Definition registered_store : Store :=
  snd (run (RegisterSchema (plain_registry "NONE") 3 "." "orders" "A" SchemaTypeAvro [] None) (fun _ => env0) NewStore).

Example dry_run_deletes :
  let reg := plain_registry "NONE" in
  SubjectExists env0 "." "orders" registered_store = true /\
  SubjectExists env0 "." "orders"
    (snd (run (fst (handle_call reg 3 0 "t1" (delete_subject "orders" false true "" "") (Some (NewConfirmationStore 300))))
            (fun _ => env0) registered_store)) = false.
Proof. vm_compute. auto. Qed.

(** The tools do not look at the mode: with every write refused over HTTP, a
    schema is registered. *)
Example read_only_mode_ignored :
  let reg := plain_registry "NONE" in
  let frozen := snd (run (RegistryConfig.SetMode "." "" "READONLY" false) (fun _ => env0) NewStore) in
  fst (run (CheckModeForWrite "." "orders") (fun _ => env0) frozen) = Ok "READONLY" /\
  SubjectExists env0 "." "orders"
    (snd (run (handleRegisterSchema reg 3 "orders" "A" SchemaTypeAvro [] false None None "") (fun _ => env0) frozen)) = true.
Proof. vm_compute. auto. Qed.
